(* ===== verification/_CoqProject ===== *)
-Q . S2P
Prelude.v
Errors.v
Moves.v
Types.v
Views.v
Writer.v
ValueWrite.v
ValueProbe.v
Value.v
Codec.v
Payload.v
Packet.v
Typedescr.v
ValueValidate.v
Uuid.v
Hashtable.v
Hashset.v
Queue.v
TaskList.v
TaskLoop.v
WaitingList.v
PendingReqs.v
Table.v
Traits.v
Registry.v
RegistryGrowth.v
RegistrySpec.v
RegistryTheorems.v
Clients.v
Chunk.v
Builders.v
BuildersTheorems.v
Borrowed.v
Owning.v
Names.v
PluginData.v
Server.v
ServerScenario.v
ServerFrame.v
ServerTheorems.v
ServerBehaviour.v
ServerFindings.v
Requests.v
RequestsTheorems.v
RequestsReplies.v
RequestsFindings.v
Introspection.v
Builtins.v
BuiltinsTheorems.v
Plugins.v
PluginsFrame.v
PluginsScenario.v
PluginsInv.v
PluginsRun.v
PluginsOps.v
PluginsTheorems.v
PluginsFindings.v
PluginClient.v
PluginClientTheorems.v
PluginClientInv.v
PluginClientFindings.v
Client.v
ClientApi.v
ClientInv.v
ClientTheorems.v
ClientBehaviour.v
ClientFindings.v
