(* ===== verification/Prelude.v ===== *)
(** * Dicey: a verification development

    Dicey is a C library for local inter-process communication. A program builds messages
    (src/wirefmt/builders.c), which are trees of typed values; they are encoded in a binary format
    (DTF, src/wirefmt/dtf/), sent through a socket as packets (src/wirefmt/packet.c), loaded and
    validated on the other side, and dispatched by a server to the objects and elements of a
    registry (src/ipc/server/), or to plugins, processes that the server starts and gives jobs to;
    the signatures of elements (src/wirefmt/typedescr.c) say which values they
    take (src/wirefmt/value-validate.c). The bytes that [dicey_packet_load] reads come from
    another process: the decoder is the trust boundary of the library, and the
    first half of this development is about it.

    ** Files

    - Prelude: faults, outcomes and the state monad, machine integers, lists measured in Z,
      little-endian encodings, the tactics and the hint databases [dicey] and [zlen].
    - Moves: rules for what a computation does to its state, and for calls that cannot fail.
    - Errors: error codes, the table that describes them (src/errors.c), versions (src/version.c).
    - Types: type codes, their classification, C strings, selectors, argument trees.
    - Views: immutable and mutable views, checked arithmetic (src/sup/view-ops.c, util.c, unsafe.c).
    - Writer: the byte writers behind the class [ByteSink] (src/wirefmt/dtf/writer.c).
    - ValueWrite: the value encoder and the reference layout (src/wirefmt/dtf/value-write.c).
    - ValueProbe: the value decoder (src/wirefmt/dtf/value-probe.c).
    - Value: accessors, iterators, selectors (src/wirefmt/value.c, message.c).
    - Codec: encoder against decoder.
    - Payload: hello, bye and message payloads (src/wirefmt/dtf/payload.c).
    - Packet: packets, their validation, forwarding and dumping (src/wirefmt/packet.c).
    - Typedescr: the signature parser and its grammar (src/wirefmt/typedescr.c).
    - ValueValidate: values against signatures (src/wirefmt/value-validate.c).
    - Uuid: UUIDs from bytes and text (src/wirefmt/uuid.c).
    - Hashtable, Hashset: the containers of the registry (src/sup/hashtable.c, hashset.c); Table:
      the interface the registry uses them through (a class: the operations, the finite map a table
      stands for, the cells it has used), with hash tables and finite maps as instances.
    - Queue: the request queue between threads (src/ipc/queue.c), with its interleavings.
    - TaskList, TaskLoop: tasks with deadlines and the loop that runs them step by step
      (src/ipc/tasks/list.c, loop.c), for any state the steps act on.
    - WaitingList: dynamic arrays and the answers a client expects (src/sup/array.inc,
      src/ipc/client/waiting-list.c).
    - PendingReqs: the requests a server has not answered (src/ipc/server/pending-reqs.c).
    - Traits, Registry, RegistryGrowth, RegistrySpec, RegistryTheorems: traits, objects and aliases
      with reference counts (src/ipc/server/traits.c, registry.c), the cells that the operations use
      of the tables, the directory the registry implements, and the refinement.
    - Clients, Chunk: client slots and receive buffers (src/ipc/server/client-data.c,
      src/ipc/chunk.c).
    - Builders, BuildersTheorems: message and value builders and copies of arguments over a heap
      of blocks (src/wirefmt/builders.c, packet-args.c).
    - Borrowed: arguments made of decoded values (src/wirefmt/packet-args.c); Owning: owning values
      and addresses (src/wirefmt/value.c, src/ipc/address.c).
    - Names: the names of builtin objects (include/dicey/ipc/builtins/).
    - Server, ServerScenario, ServerFrame, ServerTheorems, ServerBehaviour, ServerFindings: the
      server (src/ipc/server/server.c, shared-packet.c), its callbacks and the requests
      of its loop; invariants and behaviour; flaws.
    - Requests: the answers of the user (src/ipc/server/request.c); RequestsTheorems: that a request
      is answered at most once; RequestsReplies: what is sent; RequestsFindings: flaws.
    - Introspection, Builtins, BuiltinsTheorems: builtin objects (src/ipc/server/builtins/).
    - PluginData, Plugins: the plugins of a server (src/ipc/server/plugins.c, plugins-work.c,
      src/ipc/plugin-common.c and the handler of their builtin elements): their data is part of the
      state of the server, their callbacks and requests are steps of it. PluginsScenario: the life
      of one plugin, step by step; PluginsFrame: what the steps leave alone; PluginsInv: the
      invariant of a server with plugins and that the handlers of the server keep it; PluginsRun:
      rules for the steps that take a plugin down; PluginsOps: the operations of plugins;
      PluginsTheorems: whole runs; PluginsFindings: flaws.
    - PluginClient: the side of the plugin (src/ipc/client/plugins.c); PluginClientTheorems: both
      sides together; PluginClientInv: runs of a plugin process; PluginClientFindings: flaws.
    - Client: the client (src/ipc/client/client.c, src/ipc/tasks/io.c): its state machine, the
      steps and callbacks of its tasks and the callbacks of libuv; ClientApi: the calls of the
      user; ClientInv: the invariant and that every step keeps it; ClientTheorems: whole runs;
      ClientBehaviour: the handshake, answers, sequence numbers; ClientFindings: flaws.

    ** How the code is modelled

    Every C function is a Rocq function of the same name. A result is an [outcome]: a value, an
    error code, a fault (out-of-bounds access, NULL dereference, failed assertion, wrong union
    member, invalid free, use after free) or exhausted fuel. Code that works through pointers to a cursor is in
    the state monad [stm], over a view, a memory block or the characters left to parse; a failed
    call leaves the state as the source does. A pointer carries the bytes it can reach in its
    object, so a read past the end is a fault even when a length claims otherwise. Integers are Z
    with every conversion to a width written out ([u8], [u16], [u32], [u64], [to_signed]); bytes
    are integers from 0 to 255; floating-point values are their 8-byte patterns. Allocation is an
    argument: [alloc_ok] (and [strdup_ok]) say which requests succeed, so the failure paths are
    part of the model. Assertions are enabled.

    Recursive functions whose descent is not structural take fuel. The decoder of nested values
    needs no more fuel than the message has bytes, plus one ([dicey_packet_load_terminates], which
    also isolates the one input on which the source loops for ever); the signature parser gets one
    more than the characters left ([enough]), the hash table as many as there are table sizes
    left in [primes]; [dicey_typedescr_parse_correct], [signature_check_correct] and
    [dicey_hashtable_set_spec] state that this gives an answer. The growth of a receive buffer is
    bounded by [dicey_chunk_get_buf_ok]; the loops over the queue and over the ring of pending
    requests get one more turn than there are cells.

    A component that calls another one through callbacks is a function of them. The task loop
    ([TaskLoop]) runs steps that act on a state of their own, its world; its theorems hold for every
    invariant of that world which the steps keep, and the client discharges this for its own state.
    The server and the client are states with a log of what the outside sees (bytes sent, events,
    callbacks); libuv is a parameter that answers each call, and what it reports later is an input.
    A write that the socket of a client does not take at once ([ce_at_once]) keeps the context whose
    packet holds its bytes: libuv reads them when it finishes the write, and a packet that was freed
    by then is a fault.
    The user and the other side of the socket are arbitrary: theorems quantify over the bytes read,
    the calls made and the results of callbacks.

    ** What the theorems show

    - Safety of the decoder on arbitrary input: [dicey_packet_load_safe], [dtf_value_probe_safe],
      [accessors_type_safe]; its termination.
    - Round trips of well-formed values ([arg_ok]; for packets also [loadable], without byte strings
      of length 0): values, messages, hello and bye packets, dumps, sequence numbers, forwarding.
    - The encoder: for every argument that can be encoded ([writable]) the counting writer and the
      buffer writer agree, the layout is the documented one and unambiguous, and the buffer protocol
      is followed; an argument whose size cannot be counted is refused.
    - Loading from a stream: an incomplete payload is reported and leaves the stream alone, a
      complete one is loaded whatever follows.
    - Signatures: the parser accepts the documented grammar, and besides it the empty string and the
      character of UUIDs; the checker accepts the compatible values, and decides compatibility but
      for arrays of containers and for tuples that are too short, which fail an assertion.
    - Hash tables: an invariant on chains and cells, kept by every operation; sequences of
      operations on values that are not NULL refine a finite map, and for sets a finite set.
    - Registry: additions, aliases and deletions keep the invariant on paths, aliases, traits and
      reference counts and refine a directory, with the hash tables of the code, as long as
      allocations succeed ([dicey_registry_remove_object] does not, and is shown not to); lookups; the
      end releases everything once when every trait has an element.
    - Queues and tasks: first in, first out under every interleaving of one producer; every task
      ends exactly once as long as no deadline passes and no step asks for a retry; pending requests
      that are answered in order are found and completed as long as their ring is not full.
    - Builders: a tree built call by call is the packet of that tree and leaves no block behind.
    - Server: only valid requests reach the user, refused ones are answered, signals reach exactly
      the subscribers and their packets are counted, subscriptions and introspection are exact.
    - Requests: whatever the user calls, at most one response is sent; a reply is the response with
      the number, path and selector of the request; a received value without lists is sent back as
      it is, while the elements of lists are lost.
    - Plugins: over every run of a server, whatever plugins, clients and callers do, the events of a
      plugin follow its life cycle, every job ends once, clients and plugins are in memory exactly
      while something refers to them, and a plugin that is being closed is freed by the callbacks
      that are pending. A job and its answer survive the way through both processes; a plugin
      process has the memory of a job exactly while it is in its list.
    - Client: over every run without timeouts, asynchronous unsubscriptions and the deletion of the
      client, the only memory error is that libuv finishes a write whose packet was freed; tasks,
      contexts and expected answers match; an answer reaches exactly its request; the handshake;
      sequence numbers.
    - Behaviours of the code that its documentation or callers do not expect, each as a theorem:
      the packet that makes the loader loop, unusable bye reasons, empty byte strings that cannot
      be received, freed caller buffers, inverted version comparison, unchecked array elements,
      the UUID parser, tasks lost by timeouts, assertions that a peer or a late callback can fail,
      replies that report success without a response, packets freed while they are sent, and others (ServerFindings,
      RequestsFindings, PluginsFindings, PluginClientFindings, ClientFindings).

    ** What is not modelled

    XML introspection (libxml2) is left out, and so are the start of threads and libuv handles,
    tracing, formatting and the sample programs. Of plugins, the durations of timers,
    the mutex that serialises a plugin process and the blocking of a caller are left out: a timer
    may fire at any moment it is started, and a blocking call is what it queues and what it returns. Ownership
    of memory is modelled where a theorem is about it (value and payload buffers, blocks of the
    builders, traits and objects, shared packets, tasks and contexts); elsewhere strings are values.
    Padding and alignment of structures are those of the packed wire structures of
    src/wirefmt/dtf/to.h. *)

From stdpp Require Export base list numbers.
From Stdlib Require Export Lia ZArith.

#[export] Set Default Goal Selector "!".
#[global] Open Scope Z_scope.

(** ** Faults and outcomes *)

(** What a C statement can do besides returning: read or write outside the object a pointer
    refers to, dereference NULL, violate an [assert], read a union member other than the one
    stored, hand [free] a pointer that did not come from the allocator, or use memory that was
    freed. *)
Inductive fault : Type :=
  | OutOfBounds
  | NullDeref
  | AssertFailed
  | WrongMember
  | InvalidFree
  | UseAfterFree.

(** The result of running a piece of code: a value, an error code, a fault, or no answer
    within the fuel given to a loop or a recursion. *)
Inductive outcome (E A : Type) : Type :=
  | Ok (a : A)
  | Err (e : E)
  | Fault (f : fault)
  | OutOfFuel.
Arguments Ok {E A} a.
Arguments Err {E A} e.
Arguments Fault {E A} f.
Arguments OutOfFuel {E A}.

#[export] Instance fault_eq_dec : EqDecision fault.
Proof. solve_decision. Defined.

#[export] Instance outcome_eq_dec {E A} `{EqDecision E, EqDecision A} : EqDecision (outcome E A).
Proof. solve_decision. Defined.

Definition obind {E A B} (m : outcome E A) (k : A -> outcome E B) : outcome E B :=
  match m with
  | Ok a => k a
  | Err e => Err e
  | Fault f => Fault f
  | OutOfFuel => OutOfFuel
  end.

(** Code that also updates an object in place: the object keeps whatever was stored in it
    before an error is returned, as in C. *)
Definition stm (S E A : Type) : Type := S -> outcome E A * S.

Definition sret {S E A} (a : A) : stm S E A := fun s => (Ok a, s).
Definition sfail {S E A} (e : E) : stm S E A := fun s => (Err e, s).
Definition sfault {S E A} (f : fault) : stm S E A := fun s => (Fault f, s).
Definition sget {S E} : stm S E S := fun s => (Ok s, s).
Definition sput {S E} (s' : S) : stm S E unit := fun _ => (Ok tt, s').
Definition slift {S E A} (m : outcome E A) : stm S E A := fun s => (m, s).

Definition sbind {S E A B} (m : stm S E A) (k : A -> stm S E B) : stm S E B := fun s =>
  let '(r, s') := m s in
  match r with
  | Ok a => k a s'
  | Err e => (Err e, s')
  | Fault f => (Fault f, s')
  | OutOfFuel => (OutOfFuel, s')
  end.

Declare Scope outcome_scope.
Delimit Scope outcome_scope with outcome.
Notation "'let!' x := m 'in' k" := (obind m (fun x => k))
  (at level 10, x pattern, m at level 100, k at level 200) : outcome_scope.
Notation "'do!' x <- m ; k" := (sbind m (fun x => k))
  (at level 10, x pattern, m at level 100, k at level 200) : outcome_scope.
Notation "m ;;! k" := (sbind m (fun _ => k))
  (at level 199, right associativity) : outcome_scope.
#[global] Open Scope outcome_scope.

(** [assert(b)] *)
Definition sassert {S E} (b : bool) : stm S E unit :=
  if b then sret tt else sfault AssertFailed.

Definition oassert {E} (b : bool) : outcome E unit :=
  if b then Ok tt else Fault AssertFailed.

(** An outcome that is not a fault. *)
Definition no_fault {E A} (m : outcome E A) : Prop :=
  match m with Fault _ => False | _ => True end.

(** ** Machine integers (LP64: [size_t] and [ptrdiff_t] have 64 bits) *)

Definition UINT8_MAX : Z := 255.
Definition UINT16_MAX : Z := 65535.
Definition UINT32_MAX : Z := 4294967295.
Definition PTRDIFF_MAX : Z := 9223372036854775807.
Definition SIZE_MAX : Z := 18446744073709551615.

Definition wrap (w : Z) (z : Z) : Z := z mod 2 ^ w.
Definition u8 (z : Z) : Z := wrap 8 z.
Definition u16 (z : Z) : Z := wrap 16 z.
Definition u32 (z : Z) : Z := wrap 32 z.
Definition u64 (z : Z) : Z := wrap 64 z.

(** Two's complement reading of a w-bit pattern. *)
Definition to_signed (w : Z) (z : Z) : Z :=
  if z <? 2 ^ (w - 1) then z else z - 2 ^ w.

Definition is_byte (b : Z) : Prop := 0 <= b < 256.
Definition bytes_ok (l : list Z) : Prop := Forall is_byte l.

(** ** Lists measured in Z *)

Definition zlen {A} (l : list A) : Z := Z.of_nat (length l).
Definition ztake {A} (n : Z) (l : list A) : list A := take (Z.to_nat n) l.
Definition zdrop {A} (n : Z) (l : list A) : list A := drop (Z.to_nat n) l.

(** Little-endian bytes of an integer, and back. *)
Fixpoint le_bytes (n : nat) (z : Z) : list Z :=
  match n with
  | O => []
  | S n' => z mod 256 :: le_bytes n' (z / 256)
  end.

Fixpoint le_val (l : list Z) : Z :=
  match l with
  | [] => 0
  | b :: l' => b + 256 * le_val l'
  end.

(** ** Tactics and hint databases *)

Create HintDb dicey discriminated.
Create Rewrite HintDb zlen.

(** Split the Boolean and Z comparisons of the goal and the context, then [lia]. *)
Ltac zbool :=
  repeat match goal with
  | H : context [Z.ltb ?a ?b] |- _ => destruct (Z.ltb_spec a b)
  | H : context [Z.leb ?a ?b] |- _ => destruct (Z.leb_spec a b)
  | H : context [Z.eqb ?a ?b] |- _ => destruct (Z.eqb_spec a b)
  | |- context [Z.ltb ?a ?b] => destruct (Z.ltb_spec a b)
  | |- context [Z.leb ?a ?b] => destruct (Z.leb_spec a b)
  | |- context [Z.eqb ?a ?b] => destruct (Z.eqb_spec a b)
  end.

(** Run a state computation one bind at a time. *)
Ltac srun := cbn [sbind sret sfail sfault sget sput slift obind sassert oassert fst snd].

(** Arithmetic with lengths measured in Z. *)
Ltac zlia := unfold zlen, ztake, zdrop in *; repeat rewrite ?length_app, ?length_take, ?length_drop, ?length_cons in *; simpl length in *; lia.

(** ** Lemmas on state computations *)

Section state_lemmas.
Context {S E : Type}.

Lemma sbind_Ok {A B} (m : stm S E A) (k : A -> stm S E B) s a s' :
  m s = (Ok a, s') -> sbind m k s = k a s'.
Proof. intros H. unfold sbind. by rewrite H. Qed.

Lemma sbind_Err {A B} (m : stm S E A) (k : A -> stm S E B) s e s' :
  m s = (Err e, s') -> sbind m k s = (Err e, s').
Proof. intros H. unfold sbind. by rewrite H. Qed.

Lemma sbind_Ok_inv {A B} (m : stm S E A) (k : A -> stm S E B) s b s' :
  sbind m k s = (Ok b, s') -> exists a s1, m s = (Ok a, s1) /\ k a s1 = (Ok b, s').
Proof. unfold sbind. destruct (m s) as [[] s1] eqn:Em; intros; simplify_eq; eauto. Qed.

Lemma sbind_assoc {A B C} (m : stm S E A) (k : A -> stm S E B) (h : B -> stm S E C) s :
  sbind (sbind m k) h s = sbind m (fun a => sbind (k a) h) s.
Proof. unfold sbind. by destruct (m s) as [[] ?]. Qed.

(** A computation faults only if one of its two halves does. *)
Lemma sbind_no_fault {A B} (m : stm S E A) (k : A -> stm S E B) s :
  no_fault (m s).1 ->
  (forall a s', m s = (Ok a, s') -> no_fault (k a s').1) ->
  no_fault (sbind m k s).1.
Proof. unfold sbind. destruct (m s) as [[] s1] eqn:Em; simpl; eauto. Qed.

End state_lemmas.

Lemma obind_Ok_inv {E A B} (m : outcome E A) (k : A -> outcome E B) b :
  obind m k = Ok b -> exists a, m = Ok a /\ k a = Ok b.
Proof. destruct m; simpl; naive_solver. Qed.

Lemma obind_no_fault {E A B} (m : outcome E A) (k : A -> outcome E B) :
  no_fault m -> (forall a, m = Ok a -> no_fault (k a)) -> no_fault (obind m k).
Proof. destruct m; simpl; eauto. Qed.

(** Take one step of a bind whose first half is settled by an equation. *)
Tactic Notation "srw" uconstr(H) := erewrite (sbind_Ok _ _ _ _ _ H); srun.
Tactic Notation "srwe" uconstr(H) := erewrite (sbind_Err _ _ _ _ _ H).

(** ** Lemmas on lists measured in Z *)

Section zlist_lemmas.
Context {A : Type}.
Implicit Types l : list A.

Lemma zlen_nonneg l : 0 <= zlen l.
Proof. zlia. Qed.

Lemma zlen_nil : zlen ([] : list A) = 0.
Proof. done. Qed.

Lemma zlen_cons (x : A) l : zlen (x :: l) = 1 + zlen l.
Proof. zlia. Qed.

Lemma zlen_app l1 l2 : zlen (l1 ++ l2) = zlen l1 + zlen l2.
Proof. zlia. Qed.

Lemma zlen_ztake n l : 0 <= n <= zlen l -> zlen (ztake n l) = n.
Proof. zlia. Qed.

Lemma zlen_zdrop n l : 0 <= n <= zlen l -> zlen (zdrop n l) = zlen l - n.
Proof. zlia. Qed.

Lemma zlen_0_nil l : zlen l = 0 -> l = [].
Proof. destruct l; [done|]. rewrite zlen_cons. pose proof (zlen_nonneg l). lia. Qed.

Lemma ztake_zdrop n l : ztake n l ++ zdrop n l = l.
Proof. apply take_drop. Qed.

Lemma ztake_app_eq n l1 l2 : n = zlen l1 -> ztake n (l1 ++ l2) = l1.
Proof. intros ->. unfold ztake, zlen. rewrite Nat2Z.id. by rewrite take_app_length. Qed.

Lemma zdrop_app_eq n l1 l2 : n = zlen l1 -> zdrop n (l1 ++ l2) = l2.
Proof. intros ->. unfold zdrop, zlen. rewrite Nat2Z.id. by rewrite drop_app_length. Qed.

Lemma ztake_all n l : zlen l <= n -> ztake n l = l.
Proof. intros. apply take_ge. zlia. Qed.

Lemma ztake_0 l : ztake 0 l = [].
Proof. done. Qed.

Lemma zdrop_0 l : zdrop 0 l = l.
Proof. done. Qed.

Lemma zdrop_zdrop a b l : 0 <= a -> 0 <= b -> zdrop a (zdrop b l) = zdrop (a + b) l.
Proof. intros. unfold zdrop. rewrite drop_drop. f_equal. lia. Qed.

Lemma zlen_replicate n (x : A) : 0 <= n -> zlen (replicate (Z.to_nat n) x) = n.
Proof. intros. unfold zlen. rewrite length_replicate. lia. Qed.

End zlist_lemmas.

#[export] Hint Rewrite @zlen_nil @zlen_cons @zlen_app : zlen.
#[export] Hint Resolve zlen_nonneg : dicey.

(** ** Lemmas on little-endian bytes *)

Lemma length_le_bytes n z : length (le_bytes n z) = n.
Proof. revert z. induction n; intros; simpl; auto. Qed.

Lemma zlen_le_bytes n z : zlen (le_bytes n z) = Z.of_nat n.
Proof. unfold zlen. by rewrite length_le_bytes. Qed.

#[export] Hint Rewrite zlen_le_bytes : zlen.

Lemma pow256_succ n : 2 ^ (8 * Z.of_nat (S n)) = 256 * 2 ^ (8 * Z.of_nat n).
Proof. replace (8 * Z.of_nat (S n)) with (8 + 8 * Z.of_nat n) by lia. rewrite Z.pow_add_r by lia. done. Qed.

Lemma pow256_pos n : 0 < 2 ^ (8 * Z.of_nat n).
Proof. apply Z.pow_pos_nonneg; lia. Qed.

Lemma le_val_le_bytes n z : le_val (le_bytes n z) = z mod 2 ^ (8 * Z.of_nat n).
Proof.
  revert z. induction n as [|n IH]; intros z; cbn [le_bytes le_val].
  - change (2 ^ (8 * Z.of_nat 0)) with 1. by rewrite Z.mod_1_r.
  - rewrite IH, pow256_succ. pose proof (pow256_pos n).
    rewrite Z.rem_mul_r by lia. lia.
Qed.

Lemma le_val_le_bytes_small n z : 0 <= z < 2 ^ (8 * Z.of_nat n) -> le_val (le_bytes n z) = z.
Proof. intros. rewrite le_val_le_bytes. by apply Z.mod_small. Qed.

Lemma le_bytes_ok n z : bytes_ok (le_bytes n z).
Proof.
  revert z. induction n; intros; simpl; constructor; [|apply IHn].
  unfold is_byte. apply Z.mod_pos_bound. lia.
Qed.

Lemma le_val_bound l : bytes_ok l -> 0 <= le_val l < 2 ^ (8 * zlen l).
Proof.
  induction 1 as [|b l Hb Hl IH]; [done|].
  cbn [le_val]. unfold zlen in *. cbn [length]. rewrite pow256_succ. unfold is_byte in Hb. lia.
Qed.

Lemma le_bytes_le_val l : bytes_ok l -> le_bytes (length l) (le_val l) = l.
Proof.
  induction 1 as [|b l Hb Hl IH]; [done|]. cbn [length le_bytes le_val]. unfold is_byte in Hb.
  rewrite Z.mul_comm, Z.mod_add, Z.div_add by lia.
  rewrite Z.mod_small, Z.div_small by lia. by rewrite Z.add_0_l, IH.
Qed.

Lemma le_bytes_mod n z : le_bytes n (z mod 2 ^ (8 * Z.of_nat n)) = le_bytes n z.
Proof.
  rewrite <- le_val_le_bytes. rewrite <- (length_le_bytes n z) at 1.
  apply le_bytes_le_val, le_bytes_ok.
Qed.

(** Two's complement: storing a signed value in w bits and reading it back. *)
Lemma to_signed_mod w z : 0 < w -> - 2 ^ (w - 1) <= z < 2 ^ (w - 1) -> to_signed w (z mod 2 ^ w) = z.
Proof.
  intros Hw Hz. unfold to_signed.
  assert (2 ^ w = 2 * 2 ^ (w - 1)) as E.
  { replace w with (Z.succ (w - 1)) at 1 by lia. rewrite Z.pow_succ_r by lia. done. }
  destruct (Z.ltb_spec z 0).
  - rewrite <- (Z.mod_add z 1) by lia. rewrite Z.mod_small by lia. zbool; lia.
  - rewrite Z.mod_small by lia. zbool; lia.
Qed.

(** Putting a value in the low bits left free by a shift. *)
Lemma lor_add k a b : 0 <= k -> 0 <= b < 2 ^ k -> Z.lor (a * 2 ^ k) b = a * 2 ^ k + b.
Proof.
  intros Hk Hb. assert (Z.land (a * 2 ^ k) b = 0) as Hl.
  { apply Z.bits_inj'. intros n Hn. rewrite Z.land_spec, Z.bits_0.
    destruct (Z.ltb_spec n k); [by rewrite Z.mul_pow2_bits_low by lia|].
    rewrite <- (Z.mod_small b (2 ^ k)) by lia. rewrite Z.mod_pow2_bits_high by lia. apply andb_false_r. }
  rewrite <- Z.lxor_lor by done. symmetry. by apply Z.add_nocarry_lxor.
Qed.
