(* ===== verification/Errors.v ===== *)
(** * Error codes (include/dicey/core/errors.h, src/errors.c) and protocol versions (src/version.c)

    The enumeration of error codes with their numeric values, the statically initialised table
    of names and messages indexed by the low byte of the negated code, and its lookups; then the
    comparison of protocol versions. *)

From stdpp Require Import strings.
From S2P Require Import Prelude.

Inductive dicey_error : Type :=
  | DICEY_OK
  | DICEY_EAGAIN
  | DICEY_ENOENT
  | DICEY_ENOTDIR
  | DICEY_ENOMEM
  | DICEY_EINVAL
  | DICEY_ENODATA
  | DICEY_EBADMSG
  | DICEY_EOVERFLOW
  | DICEY_ECONNREFUSED
  | DICEY_ETIMEDOUT
  | DICEY_ECANCELLED
  | DICEY_EALREADY
  | DICEY_EPIPE
  | DICEY_ECONNRESET
  | DICEY_EEXIST
  | DICEY_EADDRINUSE
  | DICEY_EACCES
  | DICEY_EBADF
  | DICEY_EPATH_TOO_LONG
  | DICEY_ETUPLE_TOO_LONG
  | DICEY_EARRAY_TOO_LONG
  | DICEY_EVALUE_TYPE_MISMATCH
  | DICEY_ENOT_SUPPORTED
  | DICEY_ECLIENT_TOO_OLD
  | DICEY_ESERVER_TOO_OLD
  | DICEY_EPATH_DELETED
  | DICEY_EPATH_NOT_FOUND
  | DICEY_EPATH_MALFORMED
  | DICEY_EPATH_NOT_ALIAS
  | DICEY_ETRAIT_NOT_FOUND
  | DICEY_EELEMENT_NOT_FOUND
  | DICEY_ESIGNATURE_MALFORMED
  | DICEY_ESIGNATURE_MISMATCH
  | DICEY_EPROPERTY_READ_ONLY
  | DICEY_EPEER_NOT_FOUND
  | DICEY_ESEQNUM_MISMATCH
  | DICEY_EUUID_NOT_VALID
  | DICEY_EUV_UNKNOWN
  | DICEY_EPLUGIN_INVALID_NAME.

#[export] Instance dicey_error_eq_dec : EqDecision dicey_error.
Proof. solve_decision. Defined.

(** The numeric value of each enumerator. *)
Definition error_code (e : dicey_error) : Z :=
  match e with
  | DICEY_OK => 0
  | DICEY_EAGAIN => -257
  | DICEY_ENOENT => -258
  | DICEY_ENOTDIR => -259
  | DICEY_ENOMEM => -260
  | DICEY_EINVAL => -261
  | DICEY_ENODATA => -262
  | DICEY_EBADMSG => -263
  | DICEY_EOVERFLOW => -264
  | DICEY_ECONNREFUSED => -265
  | DICEY_ETIMEDOUT => -266
  | DICEY_ECANCELLED => -267
  | DICEY_EALREADY => -268
  | DICEY_EPIPE => -269
  | DICEY_ECONNRESET => -270
  | DICEY_EEXIST => -271
  | DICEY_EADDRINUSE => -272
  | DICEY_EACCES => -273
  | DICEY_EBADF => -274
  | DICEY_EPATH_TOO_LONG => -531
  | DICEY_ETUPLE_TOO_LONG => -532
  | DICEY_EARRAY_TOO_LONG => -533
  | DICEY_EVALUE_TYPE_MISMATCH => -790
  | DICEY_ENOT_SUPPORTED => -1047
  | DICEY_ECLIENT_TOO_OLD => -1048
  | DICEY_ESERVER_TOO_OLD => -1049
  | DICEY_EPATH_DELETED => -1050
  | DICEY_EPATH_NOT_FOUND => -1051
  | DICEY_EPATH_MALFORMED => -1052
  | DICEY_EPATH_NOT_ALIAS => -1053
  | DICEY_ETRAIT_NOT_FOUND => -1054
  | DICEY_EELEMENT_NOT_FOUND => -1055
  | DICEY_ESIGNATURE_MALFORMED => -1056
  | DICEY_ESIGNATURE_MISMATCH => -1057
  | DICEY_EPROPERTY_READ_ONLY => -1058
  | DICEY_EPEER_NOT_FOUND => -1059
  | DICEY_ESEQNUM_MISMATCH => -1060
  | DICEY_EUUID_NOT_VALID => -1061
  | DICEY_EUV_UNKNOWN => -1318
  | DICEY_EPLUGIN_INVALID_NAME => -32295
  end.

(** The enumerators, in the order of the declaration. *)
Definition all_errors : list dicey_error :=
  [DICEY_OK; DICEY_EAGAIN; DICEY_ENOENT; DICEY_ENOTDIR;
   DICEY_ENOMEM; DICEY_EINVAL; DICEY_ENODATA; DICEY_EBADMSG;
   DICEY_EOVERFLOW; DICEY_ECONNREFUSED; DICEY_ETIMEDOUT; DICEY_ECANCELLED;
   DICEY_EALREADY; DICEY_EPIPE; DICEY_ECONNRESET; DICEY_EEXIST;
   DICEY_EADDRINUSE; DICEY_EACCES; DICEY_EBADF; DICEY_EPATH_TOO_LONG;
   DICEY_ETUPLE_TOO_LONG; DICEY_EARRAY_TOO_LONG; DICEY_EVALUE_TYPE_MISMATCH; DICEY_ENOT_SUPPORTED;
   DICEY_ECLIENT_TOO_OLD; DICEY_ESERVER_TOO_OLD; DICEY_EPATH_DELETED; DICEY_EPATH_NOT_FOUND;
   DICEY_EPATH_MALFORMED; DICEY_EPATH_NOT_ALIAS; DICEY_ETRAIT_NOT_FOUND; DICEY_EELEMENT_NOT_FOUND;
   DICEY_ESIGNATURE_MALFORMED; DICEY_ESIGNATURE_MISMATCH; DICEY_EPROPERTY_READ_ONLY; DICEY_EPEER_NOT_FOUND;
   DICEY_ESEQNUM_MISMATCH; DICEY_EUUID_NOT_VALID; DICEY_EUV_UNKNOWN; DICEY_EPLUGIN_INVALID_NAME].

Record dicey_error_def : Type := {
  errnum : dicey_error;
  name : string;
  message : string;
}.

(** [INDEX_OF(E)]: the low byte of the negated code. *)
Definition INDEX_OF (code : Z) : nat := Z.to_nat (Z.land (- code) 255).

(** The initialisers [ERROR_INFO_FOR(E, NAME, MSG)], in source order. *)
Definition error_info_initialisers : list dicey_error_def :=
  let ERROR_INFO_FOR e n m := {| errnum := e; name := n; message := m |} in
  [ERROR_INFO_FOR DICEY_OK "OK" "success";
   ERROR_INFO_FOR DICEY_EAGAIN "TryAgain" "not enough data";
   ERROR_INFO_FOR DICEY_ENOENT "FileNotFound" "no such file or directory";
   ERROR_INFO_FOR DICEY_ENOMEM "OutOfMemory" "out of memory";
   ERROR_INFO_FOR DICEY_ENOTDIR "NotADirectory" "not a directory";
   ERROR_INFO_FOR DICEY_EINVAL "InvalidData" "invalid argument";
   ERROR_INFO_FOR DICEY_ENODATA "NoDataAvailable" "no data available";
   ERROR_INFO_FOR DICEY_EBADMSG "BadMessage" "bad message";
   ERROR_INFO_FOR DICEY_EOVERFLOW "Overflow" "overflow";
   ERROR_INFO_FOR DICEY_ECONNREFUSED "ConnectionRefused" "connection refused";
   ERROR_INFO_FOR DICEY_ETIMEDOUT "TimedOut" "timed out";
   ERROR_INFO_FOR DICEY_ECANCELLED "Cancelled" "operation cancelled";
   ERROR_INFO_FOR DICEY_EALREADY "Already" "already in progress";
   ERROR_INFO_FOR DICEY_EPIPE "BrokenPipe" "broken pipe";
   ERROR_INFO_FOR DICEY_ECONNRESET "ConnectionReset" "connection reset by peer";
   ERROR_INFO_FOR DICEY_EEXIST "ObjectExists" "objects or file already exists";
   ERROR_INFO_FOR DICEY_EADDRINUSE "AddressInUse" "address already in use";
   ERROR_INFO_FOR DICEY_EACCES "PermissionDenied" "permission denied";
   ERROR_INFO_FOR DICEY_EBADF "BadFileDescriptor" "bad file descriptor";
   ERROR_INFO_FOR DICEY_EPATH_TOO_LONG "PathTooLong" "path too long";
   ERROR_INFO_FOR DICEY_ETUPLE_TOO_LONG "TupleTooLong" "tuple too long";
   ERROR_INFO_FOR DICEY_EARRAY_TOO_LONG "ArrayTooLong" "array too long";
   ERROR_INFO_FOR DICEY_EVALUE_TYPE_MISMATCH "ValueTypeMismatch" "value type mismatch";
   ERROR_INFO_FOR DICEY_ENOT_SUPPORTED "NotSupported" "unsupported operation";
   ERROR_INFO_FOR DICEY_ECLIENT_TOO_OLD "ClientTooOld" "client too old";
   ERROR_INFO_FOR DICEY_ESERVER_TOO_OLD "ServerTooOld" "server too old";
   ERROR_INFO_FOR DICEY_EPATH_DELETED "PathDeleted" "path has been deleted";
   ERROR_INFO_FOR DICEY_EPATH_NOT_FOUND "PathNotFound" "path not found";
   ERROR_INFO_FOR DICEY_EPATH_MALFORMED "MalformedPath" "malformed path";
   ERROR_INFO_FOR DICEY_EPATH_NOT_ALIAS "PathNotAlias" "path is not an alias";
   ERROR_INFO_FOR DICEY_ETRAIT_NOT_FOUND "TraitNotFound" "trait not found";
   ERROR_INFO_FOR DICEY_EELEMENT_NOT_FOUND "ElementNotFound" "element not found";
   ERROR_INFO_FOR DICEY_ESIGNATURE_MALFORMED "MalformedSignature" "malformed signature";
   ERROR_INFO_FOR DICEY_ESIGNATURE_MISMATCH "SignatureMismatch" "signature mismatch";
   ERROR_INFO_FOR DICEY_EPROPERTY_READ_ONLY "PropertyReadOnly" "property read only";
   ERROR_INFO_FOR DICEY_EPEER_NOT_FOUND "PeerNotFound" "peer (client or server) not found";
   ERROR_INFO_FOR DICEY_ESEQNUM_MISMATCH "SequenceNumberMismatch" "sequence number mismatch";
   ERROR_INFO_FOR DICEY_EUUID_NOT_VALID "UUIDNotValid" "UUID not valid";
   ERROR_INFO_FOR DICEY_EUV_UNKNOWN "UnknownUVError" "unknown libuv error";
   ERROR_INFO_FOR DICEY_EPLUGIN_INVALID_NAME "InvalidPluginName" "invalid plugin name"].

(** The array: its length is one more than the largest index initialised, and each initialiser
    fills its own slot; a slot no initialiser names stays zeroed ([None]). *)
Definition error_info : list (option dicey_error_def) :=
  let top := foldr (fun d n => Nat.max (INDEX_OF (error_code (errnum d))) n) 0%nat
                   error_info_initialisers in
  foldl (fun arr d => <[INDEX_OF (error_code (errnum d)) := Some d]> arr)
        (replicate (S top) None) error_info_initialisers.

(** The [switch] over the enumerators. *)
Definition dicey_error_is_valid (code : Z) : bool :=
  existsb (fun e => error_code e =? code)
    [DICEY_OK; DICEY_EAGAIN; DICEY_ENOENT; DICEY_ENOTDIR;
     DICEY_ENOMEM; DICEY_EINVAL; DICEY_ENODATA; DICEY_EBADMSG;
     DICEY_EOVERFLOW; DICEY_ECONNREFUSED; DICEY_ETIMEDOUT; DICEY_ECANCELLED;
     DICEY_EALREADY; DICEY_EPIPE; DICEY_ECONNRESET; DICEY_EEXIST;
     DICEY_EADDRINUSE; DICEY_EACCES; DICEY_EBADF; DICEY_EPATH_TOO_LONG;
     DICEY_ETUPLE_TOO_LONG; DICEY_EARRAY_TOO_LONG; DICEY_EVALUE_TYPE_MISMATCH; DICEY_ENOT_SUPPORTED;
     DICEY_ECLIENT_TOO_OLD; DICEY_ESERVER_TOO_OLD; DICEY_EPATH_DELETED; DICEY_EPATH_NOT_FOUND;
     DICEY_EPATH_MALFORMED; DICEY_EPATH_NOT_ALIAS; DICEY_ETRAIT_NOT_FOUND; DICEY_EELEMENT_NOT_FOUND;
     DICEY_ESIGNATURE_MALFORMED; DICEY_ESIGNATURE_MISMATCH; DICEY_EPROPERTY_READ_ONLY; DICEY_EPEER_NOT_FOUND;
     DICEY_ESEQNUM_MISMATCH; DICEY_EUUID_NOT_VALID; DICEY_EUV_UNKNOWN; DICEY_EPLUGIN_INVALID_NAME].

(** [None] is the NULL pointer; [Some None] would be a zeroed slot. *)
Definition dicey_error_info (code : Z) : option (option dicey_error_def) :=
  if dicey_error_is_valid code then error_info !! INDEX_OF code else None.

Definition dicey_error_infos : list (option dicey_error_def) * Z := (error_info, zlen error_info).

Definition dicey_error_name (code : Z) : outcome Empty_set string :=
  match dicey_error_info code with
  | Some (Some def) => Ok (name def)
  | _ => Fault AssertFailed
  end.

Definition dicey_error_msg (code : Z) : string :=
  match dicey_error_info code with
  | Some (Some def) => message def
  | _ => "unknown error"
  end.

(** ** Protocol versions *)

Record dicey_version : Type := mk_version { major : Z; revision : Z }.

Definition DICEY_PROTO_VERSION_CURRENT : dicey_version := {| major := 2; revision := 0 |}.

(** [#define CMP(A, B) ((int) (((A) < (B)) - ((A) > (B))))] *)
Definition CMP (a b : Z) : Z := Z.b2z (a <? b) - Z.b2z (b <? a).

Definition dicey_version_cmp (a b : dicey_version) : Z :=
  let res := CMP (major a) (major b) in
  if res =? 0 then CMP (revision a) (revision b) else res.

(** ** The result of functions that return a [ptrdiff_t] or an [enum dicey_error] *)

(** A negative return value is one of the codes above ([Err]), anything else is a result. *)
Abbreviation res := (outcome dicey_error).

(** Lexicographic order of versions, what the comparison documents. *)
Definition version_lt (a b : dicey_version) : Prop :=
  major a < major b \/ (major a = major b /\ revision a < revision b).

(** ** Properties *)

Lemma all_errors_complete e : e ∈ all_errors.
Proof. apply list_elem_of_In. destruct e; cbv; tauto. Qed.

Lemma error_code_inj e1 e2 : error_code e1 = error_code e2 -> e1 = e2.
Proof. destruct e1, e2; cbn; intros; (done || discriminate). Qed.

Lemma dicey_error_is_valid_spec code :
  dicey_error_is_valid code = true <-> exists e, error_code e = code.
Proof.
  unfold dicey_error_is_valid. rewrite existsb_exists. split.
  - intros (e & _ & H%Z.eqb_eq). eauto.
  - intros (e & <-). exists e. split; [|apply Z.eqb_refl].
    destruct e; cbv; tauto.
Qed.

(** The table of error descriptions is dense and self-consistent: for every integer code,
    [dicey_error_info] answers exactly on the enumerators, and the record it returns is the one
    whose own [errnum] is the code asked for (no index collision, no hole). *)
Theorem dicey_error_info_correct code :
  (forall e, error_code e = code -> exists d, dicey_error_info code = Some (Some d) /\ errnum d = e) /\
  ((forall e, error_code e <> code) -> dicey_error_info code = None).
Proof.
  split.
  - intros e <-. unfold dicey_error_info.
    rewrite (proj2 (dicey_error_is_valid_spec _)) by eauto.
    destruct e; eexists; (split; [vm_compute; reflexivity|reflexivity]).
  - intros Hne. unfold dicey_error_info.
    destruct (dicey_error_is_valid code) eqn:Ev; [|done].
    apply dicey_error_is_valid_spec in Ev as [e He]. by destruct (Hne e).
Qed.

(** [dicey_version_cmp] orders versions the other way round than version.h documents: it
    is positive exactly when its first argument is the older version, and negative exactly when
    it is the newer one. *)
Theorem dicey_version_cmp_inverted a b :
  (dicey_version_cmp a b > 0 <-> version_lt a b) /\
  (dicey_version_cmp a b < 0 <-> version_lt b a) /\
  (dicey_version_cmp a b = 0 <-> a = b).
Proof.
  destruct a as [ma ra], b as [mb rb].
  unfold dicey_version_cmp, CMP, version_lt; cbn [major revision].
  zbool; cbn; split_and!; split; intros; simplify_eq; (lia || f_equal; lia).
Qed.
