(* ===== verification/Moves.v ===== *)
(** * What a computation does to its state

    Rules for a relation between the states before and after a computation that returns: the
    structural steps of the state monad keep any preorder, so that a proof is about the calls that
    change something. *)

From stdpp Require Import base tactics.
From S2P Require Import Prelude Errors.

(** A call that returned. *)
Definition returned {A} (r : outcome dicey_error A) : Prop := match r with Ok _ | Err _ => True | _ => False end.

Definition moves {S A} (R : relation S) (m : stm S dicey_error A) : Prop := forall s r s', m s = (r, s') -> returned r -> R s s'.

Section moves.
Context {S : Type} (R : relation S) `{!PreOrder R}.

Lemma moves_ret {A} (a : A) : moves R (sret a).
Proof. by intros s r s' [= <- <-]. Qed.
Lemma moves_lift {A} (x : outcome dicey_error A) : moves R (slift x).
Proof. by intros s r s' [= <- <-]. Qed.
Lemma moves_fail {A} e : moves R (sfail e : stm S dicey_error A).
Proof. by intros s r s' [= <- <-]. Qed.
Lemma moves_fault {A} f : moves R (sfault f : stm S dicey_error A).
Proof. by intros s r s' [= <- <-]. Qed.
Lemma moves_get : moves R (sget : stm S dicey_error S).
Proof. by intros s r s' [= <- <-]. Qed.
Lemma moves_assert b : moves R (sassert b : stm S dicey_error unit).
Proof. destruct b; [apply moves_ret|apply moves_fault]. Qed.

Lemma moves_bind {A B} (m : stm S dicey_error A) (k : A -> stm S dicey_error B) : moves R m -> (forall a, moves R (k a)) -> moves R (sbind m k).
Proof.
  intros Hm Hk s r s'. unfold sbind. destruct (m s) as [[a|e|f|] q] eqn:E; intros Hr Hret; simplify_eq; try done.
  - etrans; [by eapply Hm|by eapply Hk].
  - by eapply Hm.
Qed.

End moves.

Create HintDb moves discriminated.

(** Structural steps; what is left are the calls with a lemma of their own. *)
Ltac moves := repeat first
  [ by eauto with moves | apply moves_ret; exact _ | apply moves_lift; exact _ | apply moves_fail; exact _ | apply moves_fault; exact _ | apply moves_get; exact _
  | apply moves_assert; exact _ | apply moves_bind; [exact _| |intros ?] | case_match ].

(** ** Calls that have no way to fail *)

Definition no_error {S A} (m : stm S dicey_error A) : Prop := forall s e, (m s).1 <> Err e.

Lemma no_error_bind {S A B} (m : stm S dicey_error A) (k : A -> stm S dicey_error B) : no_error m -> (forall a, no_error (k a)) -> no_error (sbind m k).
Proof. intros Hm Hk s e. unfold sbind. specialize (Hm s). destruct (m s) as [[a|e0|f|] s1]; cbn in *; try done; [apply Hk|]. intros _. by apply (Hm e0). Qed.

Lemma no_error_ret {S A} (a : A) : no_error (sret a : stm S dicey_error A).
Proof. done. Qed.

Lemma no_error_fault {S A} f : no_error (sfault f : stm S dicey_error A).
Proof. done. Qed.

Lemma no_error_get {S} : no_error (sget : stm S dicey_error S).
Proof. done. Qed.

Create HintDb no_error discriminated.
#[export] Hint Resolve no_error_bind no_error_ret no_error_fault no_error_get : no_error.

Ltac no_error := repeat first
  [ by eauto with no_error | case_match | match goal with |- forall _, _ => intros ? end | apply no_error_bind ].
