(* ===== verification/Types.v ===== *)
(** * Data model of the wire format (include/dicey/core/type.h, value.h, data-info.h, builders.h)

    The enumeration of value types with their character codes and the classification functions
    of src/wirefmt/value.c; C strings, selectors, UUIDs; the argument trees that builders and
    the encoder take ([dicey_arg]) and the parsed values the decoder yields ([dicey_value]). *)

From stdpp Require Import strings.
From S2P Require Import Prelude Errors.

(** ** Value types *)

(** [DICEY_TYPE_UNKNOWN] stands for an integer stored in an [enum dicey_type] that is none of
    the enumerators, as happens when a byte read from a packet is converted to the enum. *)
Inductive dicey_type : Type :=
  | DICEY_TYPE_INVALID
  | DICEY_TYPE_UNIT
  | DICEY_TYPE_BOOL
  | DICEY_TYPE_BYTE
  | DICEY_TYPE_FLOAT
  | DICEY_TYPE_INT16
  | DICEY_TYPE_INT32
  | DICEY_TYPE_INT64
  | DICEY_TYPE_UINT16
  | DICEY_TYPE_UINT32
  | DICEY_TYPE_UINT64
  | DICEY_TYPE_ARRAY
  | DICEY_TYPE_TUPLE
  | DICEY_TYPE_PAIR
  | DICEY_TYPE_BYTES
  | DICEY_TYPE_STR
  | DICEY_TYPE_UUID
  | DICEY_TYPE_PATH
  | DICEY_TYPE_SELECTOR
  | DICEY_TYPE_ERROR
  | DICEY_TYPE_UNKNOWN (code : Z).

#[export] Instance dicey_type_eq_dec : EqDecision dicey_type.
Proof. solve_decision. Defined.

(** The character codes of the enumerators. *)
Definition type_code (t : dicey_type) : Z :=
  match t with
  | DICEY_TYPE_INVALID => 0
  | DICEY_TYPE_UNIT => 36       (* '$' *)
  | DICEY_TYPE_BOOL => 98       (* 'b' *)
  | DICEY_TYPE_BYTE => 99       (* 'c' *)
  | DICEY_TYPE_FLOAT => 102     (* 'f' *)
  | DICEY_TYPE_INT16 => 110     (* 'n' *)
  | DICEY_TYPE_INT32 => 105     (* 'i' *)
  | DICEY_TYPE_INT64 => 120     (* 'x' *)
  | DICEY_TYPE_UINT16 => 113    (* 'q' *)
  | DICEY_TYPE_UINT32 => 117    (* 'u' *)
  | DICEY_TYPE_UINT64 => 116    (* 't' *)
  | DICEY_TYPE_ARRAY => 91      (* '[' *)
  | DICEY_TYPE_TUPLE => 40      (* '(' *)
  | DICEY_TYPE_PAIR => 123      (* '{' *)
  | DICEY_TYPE_BYTES => 121     (* 'y' *)
  | DICEY_TYPE_STR => 115       (* 's' *)
  | DICEY_TYPE_UUID => 35       (* '#' *)
  | DICEY_TYPE_PATH => 64       (* '@' *)
  | DICEY_TYPE_SELECTOR => 37   (* '%' *)
  | DICEY_TYPE_ERROR => 101     (* 'e' *)
  | DICEY_TYPE_UNKNOWN code => code
  end.

Definition enum_types : list dicey_type :=
  [DICEY_TYPE_INVALID; DICEY_TYPE_UNIT; DICEY_TYPE_BOOL; DICEY_TYPE_BYTE; DICEY_TYPE_FLOAT;
   DICEY_TYPE_INT16; DICEY_TYPE_INT32; DICEY_TYPE_INT64; DICEY_TYPE_UINT16; DICEY_TYPE_UINT32;
   DICEY_TYPE_UINT64; DICEY_TYPE_ARRAY; DICEY_TYPE_TUPLE; DICEY_TYPE_PAIR; DICEY_TYPE_BYTES;
   DICEY_TYPE_STR; DICEY_TYPE_UUID; DICEY_TYPE_PATH; DICEY_TYPE_SELECTOR; DICEY_TYPE_ERROR].

(** The conversion of an integer to [enum dicey_type]. *)
Definition type_of_code (z : Z) : dicey_type :=
  match List.find (fun t => type_code t =? z) enum_types with
  | Some t => t
  | None => DICEY_TYPE_UNKNOWN z
  end.

(** [DICEY_VARIANT_ID]: the tag of a list whose elements carry their own type. *)
Definition DICEY_VARIANT_ID : Z := 118.

Definition dicey_type_is_container (type : dicey_type) : bool :=
  match type with
  | DICEY_TYPE_ARRAY | DICEY_TYPE_PAIR | DICEY_TYPE_TUPLE => true
  | _ => false
  end.

Definition dicey_type_is_valid (type : dicey_type) : bool :=
  match type with
  | DICEY_TYPE_UNIT
  | DICEY_TYPE_BOOL | DICEY_TYPE_BYTE
  | DICEY_TYPE_FLOAT
  | DICEY_TYPE_INT16 | DICEY_TYPE_INT32 | DICEY_TYPE_INT64
  | DICEY_TYPE_UINT16 | DICEY_TYPE_UINT32 | DICEY_TYPE_UINT64
  | DICEY_TYPE_ARRAY | DICEY_TYPE_TUPLE | DICEY_TYPE_PAIR | DICEY_TYPE_BYTES | DICEY_TYPE_STR
  | DICEY_TYPE_UUID
  | DICEY_TYPE_PATH | DICEY_TYPE_SELECTOR
  | DICEY_TYPE_ERROR => true
  | _ => false
  end.

Definition dicey_type_name (type : dicey_type) : res string :=
  match type with
  | DICEY_TYPE_UNKNOWN _ => Fault AssertFailed
  | DICEY_TYPE_INVALID => Ok "invalid"
  | DICEY_TYPE_UNIT => Ok "unit"
  | DICEY_TYPE_BOOL => Ok "bool"
  | DICEY_TYPE_BYTE => Ok "byte"
  | DICEY_TYPE_FLOAT => Ok "float"
  | DICEY_TYPE_INT16 => Ok "i16"
  | DICEY_TYPE_INT32 => Ok "i32"
  | DICEY_TYPE_INT64 => Ok "i64"
  | DICEY_TYPE_UINT16 => Ok "u16"
  | DICEY_TYPE_UINT32 => Ok "u32"
  | DICEY_TYPE_UINT64 => Ok "u64"
  | DICEY_TYPE_ARRAY => Ok "array"
  | DICEY_TYPE_PAIR => Ok "pair"
  | DICEY_TYPE_TUPLE => Ok "tuple"
  | DICEY_TYPE_BYTES => Ok "bytes"
  | DICEY_TYPE_STR => Ok "str"
  | DICEY_TYPE_UUID => Ok "uuid"
  | DICEY_TYPE_PATH => Ok "path"
  | DICEY_TYPE_SELECTOR => Ok "selector"
  | DICEY_TYPE_ERROR => Ok "error"
  end%string.

(** ** Strings, selectors, errors *)

(** A C string: its characters, without the terminating NUL. A [const char *] that may be NULL
    is an [option cstr]; the memory behind it is [s ++ [0]]. *)
Abbreviation cstr := (list Z).

Definition cstr_ok (s : cstr) : Prop := Forall (fun c => 0 < c < 256) s.

Definition cstr_mem (s : cstr) : list Z := s ++ [0].

Record dicey_selector : Type := mk_selector { trait : option cstr; elem : option cstr }.

Record dicey_errmsg : Type := mk_errmsg { err_code : Z; err_message : option cstr }.

#[export] Instance dicey_selector_eq_dec : EqDecision dicey_selector.
Proof. solve_decision. Defined.

#[export] Instance dicey_errmsg_eq_dec : EqDecision dicey_errmsg.
Proof. solve_decision. Defined.

Definition DICEY_UUID_SIZE : Z := 16.

(** ** Arguments of the encoder *)

(** [struct dicey_arg]: the type tag with the active member of the union. [ArgInvalid] is an
    argument whose tag is not a valid type. Floats are their 64-bit pattern. The pair (pointer,
    [nitems]) of arrays and tuples is the list of the [nitems] elements pointed to. *)
#[warnings="-register-all"]
Inductive dicey_arg : Type :=
  | ArgInvalid (type : dicey_type)
  | ArgUnit
  | ArgBool (boolean : Z)
  | ArgByte (byte : Z)
  | ArgFloat (floating : Z)
  | ArgI16 (i16 : Z)
  | ArgI32 (i32 : Z)
  | ArgI64 (i64 : Z)
  | ArgU16 (u16 : Z)
  | ArgU32 (u32 : Z)
  | ArgU64 (u64 : Z)
  | ArgArray (type : dicey_type) (elems : list dicey_arg)
  | ArgTuple (elems : list dicey_arg)
  | ArgPair (first second : dicey_arg)
  | ArgBytes (len : Z) (data : option (list Z))
  | ArgStr (str : option cstr)
  | ArgUuid (bytes : list Z)
  | ArgPath (path : option cstr)
  | ArgSelector (selector : dicey_selector)
  | ArgError (error : dicey_errmsg).

Definition arg_type (a : dicey_arg) : dicey_type :=
  match a with
  | ArgInvalid t => t
  | ArgUnit => DICEY_TYPE_UNIT
  | ArgBool _ => DICEY_TYPE_BOOL
  | ArgByte _ => DICEY_TYPE_BYTE
  | ArgFloat _ => DICEY_TYPE_FLOAT
  | ArgI16 _ => DICEY_TYPE_INT16
  | ArgI32 _ => DICEY_TYPE_INT32
  | ArgI64 _ => DICEY_TYPE_INT64
  | ArgU16 _ => DICEY_TYPE_UINT16
  | ArgU32 _ => DICEY_TYPE_UINT32
  | ArgU64 _ => DICEY_TYPE_UINT64
  | ArgArray _ _ => DICEY_TYPE_ARRAY
  | ArgTuple _ => DICEY_TYPE_TUPLE
  | ArgPair _ _ => DICEY_TYPE_PAIR
  | ArgBytes _ _ => DICEY_TYPE_BYTES
  | ArgStr _ => DICEY_TYPE_STR
  | ArgUuid _ => DICEY_TYPE_UUID
  | ArgPath _ => DICEY_TYPE_PATH
  | ArgSelector _ => DICEY_TYPE_SELECTOR
  | ArgError _ => DICEY_TYPE_ERROR
  end.

(** Induction over argument trees, with the hypothesis for every element of a list. *)
Section arg_induction.
Variable P : dicey_arg -> Prop.
Hypothesis Hleaf : forall a,
  match a with ArgArray _ _ | ArgTuple _ | ArgPair _ _ => True | _ => P a end.
Hypothesis Harray : forall t l, Forall P l -> P (ArgArray t l).
Hypothesis Htuple : forall l, Forall P l -> P (ArgTuple l).
Hypothesis Hpair : forall x y, P x -> P y -> P (ArgPair x y).

Lemma dicey_arg_ind' : forall a, P a.
Proof.
  fix IH 1. intros [| | | | | | | | | | |t l|l|x y| | | | | |];
    try match goal with |- P ?a => exact (Hleaf a) end.
  - apply Harray. induction l as [|x l IHl]; constructor; [apply IH|apply IHl].
  - apply Htuple. induction l as [|x l IHl]; constructor; [apply IH|apply IHl].
  - apply Hpair; apply IH.
Qed.

End arg_induction.

(** ** Lemmas *)

Lemma type_code_of_code z : type_code (type_of_code z) = z.
Proof.
  unfold type_of_code. destruct (List.find _ _) as [t|] eqn:E; [|done].
  apply List.find_some in E as [_ E]. by apply Z.eqb_eq.
Qed.

Lemma type_of_code_code t : dicey_type_is_valid t = true -> type_of_code (type_code t) = t.
Proof. by destruct t. Qed.

Lemma type_of_code_valid_inj z t :
  dicey_type_is_valid (type_of_code z) = true -> type_of_code z = t -> z = type_code t.
Proof. intros _ <-. by rewrite type_code_of_code. Qed.

(** Every valid code is a character, and none is the variant tag. *)
Lemma type_code_bound t : dicey_type_is_valid t = true -> 0 <= type_code t < 256.
Proof. destruct t; (discriminate || (cbn; lia)). Qed.

Lemma variant_not_valid : dicey_type_is_valid (type_of_code DICEY_VARIANT_ID) = false.
Proof. done. Qed.

Lemma type_code_not_variant t : dicey_type_is_valid t = true -> type_code t <> DICEY_VARIANT_ID.
Proof. destruct t; (discriminate || done). Qed.

#[export] Hint Resolve type_code_bound type_code_not_variant : dicey.
