(* ===== verification/Views.v ===== *)
(** * Views over memory (src/sup/view-ops.c, src/sup/util.c, src/sup/unsafe.c)

    A [dicey_view] is a pointer with a length. The pointer is modelled by the bytes that can be
    reached from it inside its object ([None] for NULL), so that an access past the end of the
    object is visible as a fault even when the view's length claims more. A [dicey_view_mut] is
    a position inside one memory block, and the block itself is the state the writes go to. *)

From S2P Require Import Prelude Errors Types.

(** ** Checked arithmetic (src/sup/util.h) *)

(** [__builtin_add_overflow]: the exact sum, if the destination type can hold it. *)
Definition dutl_checked_add (lo hi a b : Z) : option Z :=
  if (lo <=? a + b) && (a + b <=? hi) then Some (a + b) else None.

Definition ptrdiff_add : Z -> Z -> option Z := dutl_checked_add (- PTRDIFF_MAX - 1) PTRDIFF_MAX.
Definition size_add : Z -> Z -> option Z := dutl_checked_add 0 SIZE_MAX.
Definition u32_add : Z -> Z -> option Z := dutl_checked_add 0 UINT32_MAX.

(** [if (!dutl_checked_add(...)) return EOVERFLOW] *)
Definition or_overflow (r : option Z) : res Z :=
  match r with Some z => Ok z | None => Err DICEY_EOVERFLOW end.

(** ** The C string functions the code relies on *)

Definition strlen (str : option cstr) : res Z :=
  match str with Some s => Ok (zlen s) | None => Fault NullDeref end.

(** [strnlen(p, maxlen)] reads up to and including the first NUL, or [maxlen] bytes. *)
Fixpoint strnlen (mem : list Z) (maxlen : Z) : res Z :=
  if maxlen <=? 0 then Ok 0 else
  match mem with
  | [] => Fault OutOfBounds
  | b :: mem' => if b =? 0 then Ok 0 else let! n := strnlen mem' (maxlen - 1) in Ok (1 + n)
  end.

Definition dutl_zstring_size (str : option cstr) : res Z :=
  let! len := strlen str in
  if UINT32_MAX <? len then Err DICEY_EOVERFLOW else Ok (len + 1).

(** ** Immutable views *)

Record dicey_view : Type := mk_view { v_len : Z; v_data : option (list Z) }.

#[export] Instance dicey_view_eq_dec : EqDecision dicey_view.
Proof. solve_decision. Defined.

Definition DICEY_CNULL : dicey_view := mk_view 0 None.

Definition dicey_view_from (data : option (list Z)) (len : Z) : dicey_view := mk_view len data.

(** The size is returned by [dutl_zstring_size] as a [ptrdiff_t]; stored in a [size_t], an
    error code wraps around. *)
Definition dicey_view_from_str (str : option cstr) : res dicey_view :=
  match dutl_zstring_size str with
  | Ok size => Ok (dicey_view_from (cstr_mem <$> str) size)
  | Err e => Ok (dicey_view_from (cstr_mem <$> str) (u64 (error_code e)))
  | Fault f => Fault f
  | OutOfFuel => OutOfFuel
  end.

Definition dicey_view_is_valid (view : dicey_view) : bool :=
  match v_data view with Some _ => true | None => false end.

Definition dicey_view_is_empty (view : dicey_view) : bool :=
  negb (dicey_view_is_valid view) || (v_len view =? 0).

(** Operations on a [struct dicey_view *]. *)
Abbreviation vst := (stm dicey_view dicey_error).

Definition dicey_view_advance (offset : Z) : vst Z := fun view =>
  match v_data view with
  | None => (Err DICEY_EINVAL, view)
  | Some d =>
      if offset <? 0 then (Err DICEY_EINVAL, view)
      else if v_len view <? offset then (Err DICEY_EOVERFLOW, view)
      else if zlen d <? offset then (Fault OutOfBounds, view)
      else (Ok offset, mk_view (v_len view - offset) (Some (zdrop offset d)))
  end.

(** Returns the number of bytes consumed and the string the output pointer is set to. *)
Definition dicey_view_as_zstring : vst (Z * cstr) := fun view =>
  match v_data view with
  | None => (Err DICEY_EINVAL, view)
  | Some d =>
      (do! size <- slift (strnlen d (v_len view));
       if size =? v_len view then sfail DICEY_EINVAL else
       do! size1 <- slift (or_overflow (size_add size 1));
       if PTRDIFF_MAX <? size1 then sfail DICEY_EOVERFLOW else
       do! n <- dicey_view_advance size1;
       sret (n, ztake size d)) view
  end.

(** ** Mutable views *)

(** [vm_data] is an offset into the memory block the view belongs to. *)
Record dicey_view_mut : Type := mk_view_mut { vm_len : Z; vm_data : option Z }.

Definition DICEY_NULL : dicey_view_mut := mk_view_mut 0 None.

Definition dicey_view_mut_from (data : option Z) (len : Z) : dicey_view_mut := mk_view_mut len data.

(** [memcpy(dest, src, n)]: reading [n] bytes from [src], writing them at [off] in a block. *)
Definition mem_read (src : list Z) (n : Z) : res (list Z) :=
  if zlen src <? n then Fault OutOfBounds else Ok (ztake n src).

Definition mem_write (mem : list Z) (off : Z) (bs : list Z) : res (list Z) :=
  if (off <? 0) || (zlen mem <? off + zlen bs) then Fault OutOfBounds
  else Ok (ztake off mem ++ bs ++ zdrop (off + zlen bs) mem).

(** [dicey_view_read]: copies [dest.len] bytes out of the view. The destination is a local
    object of that size; what is copied is the result. *)
Definition dicey_view_read (dest : dicey_view_mut) : vst (list Z) := fun view =>
  match v_data view, vm_data dest with
  | Some d, Some _ =>
      (if v_len view <? vm_len dest then sfail DICEY_EAGAIN else
       if PTRDIFF_MAX <? vm_len dest then sfail DICEY_EOVERFLOW else
       do! bs <- slift (mem_read d (vm_len dest));
       do! _ <- dicey_view_advance (vm_len dest);
       sret bs) view
  | _, _ => (Err DICEY_EINVAL, view)
  end.

Definition dicey_view_read_ptr (ptr : option Z) (nbytes : Z) : vst (list Z) :=
  dicey_view_read (dicey_view_mut_from ptr nbytes).

(** [dicey_view_take]: the slice keeps the view's pointer, with its own length. *)
Definition dicey_view_take (nbytes : Z) : vst (Z * dicey_view) := fun view =>
  match v_data view with
  | None => (Err DICEY_EINVAL, view)
  | Some d =>
      (if nbytes <? 0 then sfail DICEY_EINVAL else
       if v_len view <? nbytes then sfail DICEY_EAGAIN else
       do! n <- dicey_view_advance nbytes;
       sret (n, mk_view nbytes (Some d))) view
  end.

(** A mutable view together with the block it points into. *)
Abbreviation mst := (stm (dicey_view_mut * list Z) dicey_error).

Definition dicey_view_from_mut (vm : dicey_view_mut) (mem : list Z) : dicey_view :=
  mk_view (vm_len vm) ((fun off => zdrop off mem) <$> vm_data vm).

Definition dicey_view_mut_advance (offset : Z) : mst Z := fun '(view, mem) =>
  match vm_data view with
  | None => (Err DICEY_EINVAL, (view, mem))
  | Some off =>
      if offset <? 0 then (Err DICEY_EINVAL, (view, mem))
      else if vm_len view <? offset then (Err DICEY_EOVERFLOW, (view, mem))
      else (Ok offset, (mk_view_mut (vm_len view - offset) (Some (off + offset)), mem))
  end.

Definition dicey_view_mut_write (data : dicey_view) : mst Z := fun '(dest, mem) =>
  match vm_data dest, v_data data with
  | Some off, Some d =>
      if vm_len dest <? v_len data then (Err DICEY_EOVERFLOW, (dest, mem)) else
      match (let! bs := mem_read d (v_len data) in mem_write mem off bs) with
      | Ok mem' => dicey_view_mut_advance (v_len data) (dest, mem')
      | Err e => (Err e, (dest, mem))
      | Fault f => (Fault f, (dest, mem))
      | OutOfFuel => (OutOfFuel, (dest, mem))
      end
  | _, _ => (Err DICEY_EINVAL, (dest, mem))
  end.

Definition dicey_view_mut_write_ptr (ptr : option (list Z)) (nbytes : Z) : mst Z :=
  dicey_view_mut_write (dicey_view_from ptr nbytes).

Fixpoint dicey_view_mut_write_chunks_loop (chunks : list dicey_view) : mst Z :=
  match chunks with
  | [] => sret 0
  | chunk :: chunks' =>
      do! _ <- dicey_view_mut_write chunk;
      dicey_view_mut_write_chunks_loop chunks'
  end.

Definition dicey_view_mut_write_chunks (chunks : list dicey_view) : mst Z := fun '(dest, mem) =>
  match vm_data dest with
  | None => (Err DICEY_EINVAL, (dest, mem))
  | Some _ => dicey_view_mut_write_chunks_loop chunks (dest, mem)
  end.

Definition dicey_view_mut_write_zstring (str : option cstr) : mst Z :=
  do! size <- slift (dutl_zstring_size str);
  dicey_view_mut_write_ptr (cstr_mem <$> str) (u32 size).

(** [dicey_view_mut_ensure_cap]. The allocator is an argument: [calloc_ok n] says whether an
    allocation of [n] bytes succeeds. A new buffer is zeroed and replaces the block. Returns
    the number of bytes allocated, or 0 ([DICEY_OK]) if the buffer was large enough. *)
Definition dicey_view_mut_ensure_cap (calloc_ok : Z -> bool) (required : Z) : mst Z :=
  fun '(dest, mem) =>
  if vm_len dest <? required then
    match vm_data dest with
    | Some _ => (Err DICEY_EAGAIN, (dest, mem))
    | None =>
        if PTRDIFF_MAX <? required then (Err DICEY_EOVERFLOW, (dest, mem))
        else if negb (calloc_ok required) then (Err DICEY_ENOMEM, (dest, mem))
        else (Ok required,
              (mk_view_mut required (Some 0), replicate (Z.to_nat required) 0))
    end
  else (Ok 0, (dest, mem)).

(** ** Checked arithmetic, in and out of range *)

Lemma checked_add_in lo hi a b :
  lo <= a + b <= hi -> or_overflow (dutl_checked_add lo hi a b) = Ok (a + b).
Proof. intros. unfold dutl_checked_add. zbool; (lia || done). Qed.

Lemma checked_add_out lo hi a b :
  ~ (lo <= a + b <= hi) -> or_overflow (dutl_checked_add lo hi a b) = Err DICEY_EOVERFLOW.
Proof. intros. unfold dutl_checked_add. zbool; (lia || done). Qed.

Lemma ptrdiff_add_in a b :
  0 <= a + b <= PTRDIFF_MAX -> or_overflow (ptrdiff_add a b) = Ok (a + b).
Proof. intros. apply checked_add_in. change PTRDIFF_MAX with 9223372036854775807 in *. lia. Qed.

Lemma or_overflow_no_fault r : no_fault (or_overflow r).
Proof. by destruct r. Qed.

Lemma ptrdiff_add_cases a b :
  or_overflow (ptrdiff_add a b) = Ok (a + b) \/ or_overflow (ptrdiff_add a b) = Err DICEY_EOVERFLOW.
Proof. unfold ptrdiff_add, dutl_checked_add. destruct (_ && _); auto. Qed.

(** ** Reading lemmas *)

(** The view over exactly [bs], inside an object that continues with [tl]. *)
Definition vw (bs tl : list Z) : dicey_view := mk_view (zlen bs) (Some (bs ++ tl)).

Lemma vw_advance a b tl :
  dicey_view_advance (zlen a) (vw (a ++ b) tl) = (Ok (zlen a), vw b tl).
Proof.
  unfold dicey_view_advance, vw; cbn [v_data v_len].
  pose proof (zlen_nonneg a). pose proof (zlen_nonneg b). pose proof (zlen_nonneg tl).
  rewrite <- app_assoc. autorewrite with zlen. zbool; try lia.
  rewrite zdrop_app_eq by done. do 2 f_equal. lia.
Qed.

Lemma vw_read a b tl p :
  zlen a <= PTRDIFF_MAX ->
  dicey_view_read_ptr (Some p) (zlen a) (vw (a ++ b) tl) = (Ok a, vw b tl).
Proof.
  intros Hm. unfold dicey_view_read_ptr, dicey_view_read, dicey_view_mut_from.
  cbn [v_data vw vm_data vm_len v_len]. fold (vw (a ++ b) tl).
  pose proof (zlen_nonneg b). pose proof (zlen_nonneg tl). autorewrite with zlen.
  zbool; try lia. unfold mem_read. rewrite <- app_assoc. autorewrite with zlen. zbool; try lia.
  rewrite ztake_app_eq by done. srun. by srw (vw_advance _ _ _).
Qed.

Lemma vw_read_short bs tl p n :
  zlen bs < n -> dicey_view_read_ptr (Some p) n (vw bs tl) = (Err DICEY_EAGAIN, vw bs tl).
Proof.
  intros. unfold dicey_view_read_ptr, dicey_view_read, dicey_view_mut_from.
  cbn [v_data vw vm_data vm_len v_len]. zbool; (lia || done).
Qed.

(** Splitting a list at a Z position. *)
Lemma zsplit {A} n (l : list A) : 0 <= n <= zlen l -> exists a b, l = a ++ b /\ zlen a = n.
Proof. intros. exists (ztake n l), (zdrop n l). split; [by rewrite ztake_zdrop|by apply zlen_ztake]. Qed.

(** Reading never faults: it either consumes a prefix or leaves the view alone. *)
Lemma vw_read_cases bs tl p n :
  0 <= n ->
  (exists a b, bs = a ++ b /\ zlen a = n /\
     dicey_view_read_ptr (Some p) n (vw bs tl) = (Ok a, vw b tl)) \/
  (exists e, dicey_view_read_ptr (Some p) n (vw bs tl) = (Err e, vw bs tl)).
Proof.
  intros Hn. destruct (Z.ltb_spec (zlen bs) n) as [Hs|Hs].
  { right. eexists. by apply vw_read_short. }
  destruct (Z.leb_spec n PTRDIFF_MAX) as [Hp|Hp].
  - left. destruct (zsplit n bs ltac:(lia)) as (a & b & -> & <-).
    exists a, b. split_and!; auto. by apply vw_read.
  - right. exists DICEY_EOVERFLOW. unfold dicey_view_read_ptr, dicey_view_read, dicey_view_mut_from.
    cbn [v_data vw vm_data vm_len v_len]. zbool; (lia || done).
Qed.

Lemma vw_take a b tl :
  dicey_view_take (zlen a) (vw (a ++ b) tl) = (Ok (zlen a, vw a (b ++ tl)), vw b tl).
Proof.
  unfold dicey_view_take. cbn [vw v_data v_len]. fold (vw (a ++ b) tl).
  pose proof (zlen_nonneg a). pose proof (zlen_nonneg b). autorewrite with zlen. zbool; try lia.
  srw (vw_advance _ _ _). unfold sret, vw. by rewrite app_assoc.
Qed.

Lemma vw_take_short bs tl n :
  zlen bs < n -> dicey_view_take n (vw bs tl) = (Err DICEY_EAGAIN, vw bs tl).
Proof.
  intros. pose proof (zlen_nonneg bs). unfold dicey_view_take. cbn [v_data vw v_len]. zbool; (lia || done).
Qed.

Lemma vw_take_cases bs tl n :
  0 <= n ->
  (exists a b, bs = a ++ b /\ zlen a = n /\
     dicey_view_take n (vw bs tl) = (Ok (n, vw a (b ++ tl)), vw b tl)) \/
  (zlen bs < n /\ dicey_view_take n (vw bs tl) = (Err DICEY_EAGAIN, vw bs tl)).
Proof.
  intros Hn. destruct (Z.ltb_spec (zlen bs) n) as [Hs|Hs].
  - right. split; [done|by apply vw_take_short].
  - left. destruct (zsplit n bs ltac:(lia)) as (a & b & -> & <-).
    exists a, b. split_and!; auto. apply vw_take.
Qed.

Lemma strnlen_found s rest n :
  Forall (fun c => c <> 0) s -> zlen s < n -> strnlen (s ++ 0 :: rest) n = Ok (zlen s).
Proof.
  intros Hs. revert n. induction Hs as [|c s Hc Hs IH]; intros n; autorewrite with zlen; intros Hn.
  - cbn. zbool; (lia || done).
  - pose proof (zlen_nonneg s). cbn. zbool; try (lia || done).
    rewrite IH by lia. cbn. f_equal.
Qed.

(** A string without NUL fills the whole window. *)
Lemma strnlen_not_found bs rest :
  Forall (fun c => c <> 0) bs -> strnlen (bs ++ rest) (zlen bs) = Ok (zlen bs).
Proof.
  induction 1 as [|c s Hc Hs IH]; [by destruct rest|].
  pose proof (zlen_nonneg s). cbn [app strnlen]. rewrite zlen_cons.
  zbool; try (lia || done). replace (1 + zlen s - 1) with (zlen s) by lia. by rewrite IH.
Qed.

Lemma cstr_ok_nonzero s : cstr_ok s -> Forall (fun c => c <> 0) s.
Proof. apply Forall_impl. lia. Qed.

(** Every byte list either has a first NUL or no NUL at all. *)
Lemma nul_split bs :
  (exists s rest, bs = s ++ 0 :: rest /\ Forall (fun c => c <> 0) s) \/ Forall (fun c => c <> 0) bs.
Proof.
  induction bs as [|b bs IH]; [by right; constructor|].
  destruct (decide (b = 0)) as [->|Hb].
  { left. exists [], bs. split; [done|constructor]. }
  destruct IH as [(s & rest & -> & Hs)|Hbs]; [left|right; by constructor].
  exists (b :: s), rest. split; [done|by constructor].
Qed.

Lemma vw_zstring s b tl :
  Forall (fun c => c <> 0) s -> zlen s + 1 <= PTRDIFF_MAX ->
  dicey_view_as_zstring (vw (s ++ 0 :: b) tl) = (Ok (zlen s + 1, s), vw b tl).
Proof.
  intros Hs Hm. unfold dicey_view_as_zstring. cbn [vw v_data v_len]. fold (vw (s ++ 0 :: b) tl).
  pose proof (zlen_nonneg s). pose proof (zlen_nonneg b).
  rewrite <- app_assoc. cbn [app].
  rewrite strnlen_found by (done || (autorewrite with zlen; lia)). srun.
  autorewrite with zlen. zbool; try lia.
  unfold size_add. rewrite checked_add_in
    by (change SIZE_MAX with 18446744073709551615; change PTRDIFF_MAX with 9223372036854775807 in *; lia).
  srun. zbool; try lia.
  pose proof (vw_advance (s ++ [0]) b tl) as Ha. autorewrite with zlen in Ha.
  rewrite <- app_assoc in Ha. cbn [app] in Ha.
  replace (zlen s + (1 + 0)) with (zlen s + 1) in Ha by lia.
  srw Ha. unfold sret. by rewrite ztake_app_eq.
Qed.

Lemma vw_zstring_none bs tl :
  Forall (fun c => c <> 0) bs ->
  dicey_view_as_zstring (vw bs tl) = (Err DICEY_EINVAL, vw bs tl).
Proof.
  intros Hs. unfold dicey_view_as_zstring. cbn [vw v_data v_len].
  rewrite strnlen_not_found by done. srun. by rewrite Z.eqb_refl.
Qed.

Lemma vw_zstring_cases bs tl :
  (exists s b, bs = s ++ 0 :: b /\ Forall (fun c => c <> 0) s /\
     dicey_view_as_zstring (vw bs tl) = (Ok (zlen s + 1, s), vw b tl)) \/
  (exists e, dicey_view_as_zstring (vw bs tl) = (Err e, vw bs tl)).
Proof.
  destruct (nul_split bs) as [(s & b & -> & Hs)|Hn].
  2:{ right. eexists. by apply vw_zstring_none. }
  destruct (Z.leb_spec (zlen s + 1) PTRDIFF_MAX) as [Hm|Hm].
  - left. exists s, b. split_and!; auto. by apply vw_zstring.
  - right. exists DICEY_EOVERFLOW.
    unfold dicey_view_as_zstring. cbn [vw v_data v_len]. pose proof (zlen_nonneg b).
    rewrite <- app_assoc. cbn [app].
    rewrite strnlen_found by (done || (autorewrite with zlen; lia)). srun.
    autorewrite with zlen. zbool; try lia.
    unfold or_overflow, size_add, dutl_checked_add. destruct (_ && _); srun; [|done].
    zbool; (lia || done).
Qed.

(** ** Writing lemmas *)

(** A cursor after [pre], with [room] left to fill in a block that continues with [post]. *)
Definition wst (pre room post : list Z) : dicey_view_mut * list Z :=
  (mk_view_mut (zlen room) (Some (zlen pre)), pre ++ room ++ post).

Lemma mem_write_app pre old post bs :
  zlen old = zlen bs -> mem_write (pre ++ old ++ post) (zlen pre) bs = Ok (pre ++ bs ++ post).
Proof.
  intros He. unfold mem_write. pose proof (zlen_nonneg pre). pose proof (zlen_nonneg post).
  autorewrite with zlen. zbool; try lia. cbn.
  rewrite ztake_app_eq by done. rewrite (app_assoc pre old post).
  rewrite zdrop_app_eq by (autorewrite with zlen; lia). done.
Qed.

Lemma mem_read_app a b : mem_read (a ++ b) (zlen a) = Ok a.
Proof.
  unfold mem_read. pose proof (zlen_nonneg b). autorewrite with zlen. zbool; try lia.
  by rewrite ztake_app_eq.
Qed.

Lemma wst_write pre r1 r2 post bs tl :
  zlen r1 = zlen bs ->
  dicey_view_mut_write (vw bs tl) (wst pre (r1 ++ r2) post) = (Ok (zlen bs), wst (pre ++ bs) r2 post).
Proof.
  intros He. unfold dicey_view_mut_write, wst. cbn [vm_data v_data vw v_len vm_len].
  pose proof (zlen_nonneg r2). pose proof (zlen_nonneg bs). autorewrite with zlen. zbool; try lia.
  rewrite mem_read_app. cbn [obind].
  rewrite <- app_assoc, mem_write_app by done.
  unfold dicey_view_mut_advance. cbn [vm_data vm_len]. zbool; try lia.
  replace (zlen r1 + zlen r2 - zlen bs) with (zlen r2) by lia. by rewrite <- app_assoc.
Qed.

Lemma wst_write_full pre room post bs tl :
  zlen room < zlen bs ->
  dicey_view_mut_write (vw bs tl) (wst pre room post) = (Err DICEY_EOVERFLOW, wst pre room post).
Proof.
  intros He. unfold dicey_view_mut_write, wst. cbn [vm_data v_data vw v_len vm_len].
  zbool; (lia || done).
Qed.

Lemma wst_write_null pre room post len :
  dicey_view_mut_write (mk_view len None) (wst pre room post) = (Err DICEY_EINVAL, wst pre room post).
Proof. done. Qed.

Lemma zstring_size_ok s :
  zlen s <= UINT32_MAX -> dutl_zstring_size (Some s) = Ok (zlen s + 1).
Proof. intros. unfold dutl_zstring_size. cbn. zbool; (lia || done). Qed.

Lemma zlen_cstr_mem s : zlen (cstr_mem s) = zlen s + 1.
Proof. unfold cstr_mem. autorewrite with zlen. lia. Qed.
#[export] Hint Rewrite zlen_cstr_mem : zlen.

Lemma u32_small z : 0 <= z <= UINT32_MAX -> u32 z = z.
Proof. intros. apply Z.mod_small. change UINT32_MAX with 4294967295 in *. lia. Qed.

Lemma wst_write_zstring pre r1 r2 post s :
  zlen s < UINT32_MAX -> zlen r1 = zlen s + 1 ->
  dicey_view_mut_write_zstring (Some s) (wst pre (r1 ++ r2) post) =
  (Ok (zlen s + 1), wst (pre ++ cstr_mem s) r2 post).
Proof.
  intros Hs Hr. unfold dicey_view_mut_write_zstring.
  pose proof (zlen_nonneg s). rewrite zstring_size_ok by lia. srun.
  rewrite u32_small by lia. unfold dicey_view_mut_write_ptr, dicey_view_from. cbn.
  rewrite <- zlen_cstr_mem.
  replace (cstr_mem s) with (cstr_mem s ++ []) at 2 by apply app_nil_r.
  apply wst_write. by rewrite zlen_cstr_mem.
Qed.

(** The size computation for a view over a whole string never needs the wrap-around branch. *)
Lemma view_from_str_ok s :
  zlen s <= UINT32_MAX -> dicey_view_from_str (Some s) = Ok (vw (cstr_mem s) []).
Proof.
  intros. unfold dicey_view_from_str. rewrite zstring_size_ok by done. cbn.
  unfold vw, dicey_view_from. by rewrite zlen_cstr_mem, app_nil_r.
Qed.
