(* ===== verification/Writer.v ===== *)
(** * Byte writers (src/wirefmt/dtf/writer.c)

    The encoder writes through a [dtf_bytes_writer], which is either a cursor in a buffer or a
    counter of bytes. The class [ByteSink] states what the encoder needs from a writer; both
    kinds implement it, so each statement about the encoder holds for the bytes written to a
    buffer and for the size estimated by the counter at once. *)

From S2P Require Import Prelude Errors Types Views.

(** [struct dtf_bytes_writer]: the kind with the active member of the union. *)
Inductive dtf_bytes_writer : Type :=
  | DTF_BYTES_WRITER_KIND_INVALID
  | DTF_BYTES_WRITER_KIND_BUFFER (buffer : dicey_view_mut)
  | DTF_BYTES_WRITER_KIND_SIZER (size : Z).

(** A writer, with the memory block its buffer points into. *)
Definition wstate : Type := dtf_bytes_writer * list Z.
Abbreviation wst_m := (stm wstate dicey_error).

Definition buffer_write (data : dicey_view) : mst Z := dicey_view_mut_write data.

(** The counter is a [ptrdiff_t]; the builtin stores the wrapped sum when it overflows. *)
Definition sizer_write (data : dicey_view) : stm Z dicey_error Z := fun size =>
  match ptrdiff_add size (v_len data) with
  | Some sum => (Ok 0, sum)
  | None => (Err DICEY_EOVERFLOW, to_signed 64 (u64 (size + v_len data)))
  end.

Definition dtf_bytes_writer_new (buffer : dicey_view_mut) : dtf_bytes_writer :=
  DTF_BYTES_WRITER_KIND_BUFFER buffer.

Definition dtf_bytes_writer_new_sizer : dtf_bytes_writer := DTF_BYTES_WRITER_KIND_SIZER 0.

Definition dtf_bytes_writer_is_valid (writer : dtf_bytes_writer) : bool :=
  match writer with
  | DTF_BYTES_WRITER_KIND_BUFFER buffer => bool_decide (is_Some (vm_data buffer))
  | DTF_BYTES_WRITER_KIND_SIZER _ => true
  | DTF_BYTES_WRITER_KIND_INVALID => false
  end.

(** [*clone = *writer]; all writers support it. *)
Definition dtf_bytes_writer_snapshot : wst_m dtf_bytes_writer := fun s => (Ok s.1, s).

Definition dtf_bytes_writer_write (data : dicey_view) : wst_m Z := fun '(writer, mem) =>
  match writer with
  | DTF_BYTES_WRITER_KIND_BUFFER buffer =>
      let '(r, (buffer', mem')) := buffer_write data (buffer, mem) in
      (r, (DTF_BYTES_WRITER_KIND_BUFFER buffer', mem'))
  | DTF_BYTES_WRITER_KIND_SIZER size =>
      let '(r, size') := sizer_write data size in
      (r, (DTF_BYTES_WRITER_KIND_SIZER size', mem))
  | DTF_BYTES_WRITER_KIND_INVALID => (Err DICEY_EINVAL, (writer, mem))
  end.

Fixpoint dtf_bytes_writer_write_chunks_loop (chunks : list dicey_view) (written_bytes : Z) : wst_m Z :=
  match chunks with
  | [] => sret written_bytes
  | chunk :: chunks' =>
      do! r <- dtf_bytes_writer_write chunk;
      do! written_bytes' <- slift (or_overflow (ptrdiff_add written_bytes r));
      dtf_bytes_writer_write_chunks_loop chunks' written_bytes'
  end.

Definition dtf_bytes_writer_write_chunks (chunks : list dicey_view) : wst_m Z := fun s =>
  if negb (dtf_bytes_writer_is_valid s.1) then (Err DICEY_EINVAL, s)
  else dtf_bytes_writer_write_chunks_loop chunks 0 s.

Definition dtf_bytes_writer_write_selector (sel : dicey_selector) : wst_m Z := fun s =>
  match dtf_bytes_writer_is_valid s.1, trait sel, elem sel with
  | true, Some t, Some e =>
      (do! trait_len <- slift (dutl_zstring_size (Some t));
       do! elem_len <- slift (dutl_zstring_size (Some e));
       dtf_bytes_writer_write_chunks
         [mk_view trait_len (Some (cstr_mem t)); mk_view elem_len (Some (cstr_mem e))]) s
  | _, _, _ => (Err DICEY_EINVAL, s)
  end.

Definition dtf_bytes_writer_write_zstring (str : option cstr) : wst_m Z :=
  do! size <- slift (dutl_zstring_size str);
  dtf_bytes_writer_write (mk_view (u32 size) (cstr_mem <$> str)).

(** ** The interface of a sink of bytes *)

(** [sink out room st]: in state [st] the bytes [out] have been emitted and [room] more fit.
    [count n] is what a writer reports for [n] bytes written: a buffer reports [n], the counter
    reports 0 ([DICEY_OK]). *)
Class ByteSink (sink : list Z -> Z -> wstate -> Prop) (count : Z -> Z) : Prop := {
  sink_valid out room st : sink out room st -> dtf_bytes_writer_is_valid st.1 = true;
  sink_room out room st : sink out room st -> 0 <= room;
  count_bound n : 0 <= n -> 0 <= count n <= n;
  count_add a b : count (a + b) = count a + count b;
  sink_write out room st bs tl :
    sink out room st -> zlen bs <= room ->
    exists st', dtf_bytes_writer_write (vw bs tl) st = (Ok (count (zlen bs)), st') /\
                sink (out ++ bs) (room - zlen bs) st';
  sink_full out room st bs tl :
    sink out room st -> room < zlen bs ->
    exists st', dtf_bytes_writer_write (vw bs tl) st = (Err DICEY_EOVERFLOW, st');
  (** overwriting, through a snapshot taken when [out] had been emitted, the bytes [old]
      emitted right after it, with the little-endian length the writer counted *)
  sink_patch out room room' w mem w' mem' old rest n tl :
    sink out room (w, mem) -> sink (out ++ old ++ rest) room' (w', mem') ->
    zlen old = 4 -> 0 <= n ->
    room = room' + 4 + zlen rest ->
    exists c w'' mem'',
      dtf_bytes_writer_write (vw (le_bytes 4 (count n)) tl) (w, mem') = (Ok c, (w'', mem'')) /\
      0 <= c /\ sink (out ++ le_bytes 4 n ++ rest) room' (w', mem'');
}.

(** A buffer: the block is [pre], then [area] of which the first bytes have been replaced by
    the bytes emitted so far, then [post]. *)
Definition buffer_sink (pre area post : list Z) (out : list Z) (room : Z) (st : wstate) : Prop :=
  zlen out + room = zlen area /\ 0 <= room /\
  st = (DTF_BYTES_WRITER_KIND_BUFFER (mk_view_mut room (Some (zlen pre + zlen out))),
        pre ++ out ++ zdrop (zlen out) area ++ post).

(** The counter: it has counted the bytes emitted, up to [PTRDIFF_MAX]. *)
Definition sizer_sink (out : list Z) (room : Z) (st : wstate) : Prop :=
  st.1 = DTF_BYTES_WRITER_KIND_SIZER (zlen out) /\ room = PTRDIFF_MAX - zlen out /\ 0 <= room.

(** ** Both writers implement the interface *)

Lemma writer_write_buffer data b mem r b' mem' :
  dicey_view_mut_write data (b, mem) = (r, (b', mem')) ->
  dtf_bytes_writer_write data (DTF_BYTES_WRITER_KIND_BUFFER b, mem) =
  (r, (DTF_BYTES_WRITER_KIND_BUFFER b', mem')).
Proof. intros H. unfold dtf_bytes_writer_write, buffer_write. by rewrite H. Qed.

Lemma buffer_cursor_wst pre out spare post :
  (mk_view_mut (zlen spare) (Some (zlen pre + zlen out)), pre ++ out ++ spare ++ post) =
  wst (pre ++ out) spare post.
Proof. unfold wst. by rewrite zlen_app, <- !app_assoc. Qed.

Lemma buffer_sink_write pre area post out room st bs tl :
  buffer_sink pre area post out room st -> zlen bs <= room ->
  exists st', dtf_bytes_writer_write (vw bs tl) st = (Ok (zlen bs), st') /\
              buffer_sink pre area post (out ++ bs) (room - zlen bs) st'.
Proof.
  intros (Hl & Hr0 & ->) Hr. pose proof (zlen_nonneg bs). pose proof (zlen_nonneg out).
  destruct (zsplit (zlen bs) (zdrop (zlen out) area)) as (r1 & r2 & E & Hr1).
  { rewrite zlen_zdrop; lia. }
  assert (room = zlen (r1 ++ r2)) as -> by (rewrite <- E, zlen_zdrop; lia).
  eexists. split.
  { apply writer_write_buffer. rewrite E, buffer_cursor_wst. by apply wst_write. }
  assert (zdrop (zlen out + zlen bs) area = r2) as E2.
  { rewrite Z.add_comm, <- zdrop_zdrop, E by lia. by apply zdrop_app_eq. }
  unfold buffer_sink. rewrite zlen_app, E2. revert Hl. rewrite zlen_app. intros Hl.
  split; [lia|]. split; [pose proof (zlen_nonneg r2); lia|].
  unfold wst; cbn [fst snd]. rewrite !zlen_app.
  replace (zlen r1 + zlen r2 - zlen bs) with (zlen r2) by lia.
  rewrite Z.add_assoc. by rewrite <- !app_assoc.
Qed.

Lemma buffer_sink_full pre area post out room st bs tl :
  buffer_sink pre area post out room st -> room < zlen bs ->
  exists st', dtf_bytes_writer_write (vw bs tl) st = (Err DICEY_EOVERFLOW, st').
Proof.
  intros (Hl & Hr0 & ->) Hr. pose proof (zlen_nonneg out).
  assert (room = zlen (zdrop (zlen out) area)) as Er by (rewrite zlen_zdrop; lia).
  eexists. apply writer_write_buffer. rewrite Er, buffer_cursor_wst.
  apply wst_write_full. lia.
Qed.

Lemma buffer_sink_patch pre area post out room room' w mem w' mem' old rest n tl :
  buffer_sink pre area post out room (w, mem) ->
  buffer_sink pre area post (out ++ old ++ rest) room' (w', mem') ->
  zlen old = 4 -> 0 <= n -> room = room' + 4 + zlen rest ->
  exists c w'' mem'',
    dtf_bytes_writer_write (vw (le_bytes 4 n) tl) (w, mem') = (Ok c, (w'', mem'')) /\
    0 <= c /\ buffer_sink pre area post (out ++ le_bytes 4 n ++ rest) room' (w', mem'').
Proof.
  intros (Hl & Hr0 & [= -> ->]) (Hl' & Hr0' & [= -> ->]) Hold Hn Hroom.
  pose proof (zlen_nonneg out). pose proof (zlen_nonneg rest).
  set (spare := zdrop (zlen (out ++ old ++ rest)) area).
  assert (zlen spare = room') as Hs.
  { unfold spare. rewrite zlen_zdrop; [lia|]. split; [apply zlen_nonneg|lia]. }
  assert ((mk_view_mut room (Some (zlen pre + zlen out)),
           pre ++ (out ++ old ++ rest) ++ spare ++ post) =
          wst (pre ++ out) (old ++ rest ++ spare) post) as E.
  { unfold wst. autorewrite with zlen.
    replace (zlen old + (zlen rest + zlen spare)) with room by lia. by rewrite <- !app_assoc. }
  eexists _, _, _. split.
  { apply writer_write_buffer. rewrite E. apply wst_write. by rewrite Hold, zlen_le_bytes. }
  split; [apply zlen_nonneg|].
  assert (zlen (out ++ le_bytes 4 n ++ rest) = zlen (out ++ old ++ rest)) as El.
  { autorewrite with zlen. lia. }
  unfold buffer_sink. rewrite El. split_and!; [done..|].
  unfold wst, spare. cbn [fst snd]. by rewrite <- !app_assoc.
Qed.

#[export] Instance buffer_sink_ok pre area post : ByteSink (buffer_sink pre area post) (fun n => n).
Proof.
  split.
  - intros out room st (_ & _ & ->). by apply bool_decide_eq_true_2.
  - by intros out room st (_ & ? & _).
  - lia.
  - done.
  - apply buffer_sink_write.
  - apply buffer_sink_full.
  - apply buffer_sink_patch.
Qed.

Lemma sizer_write_step out room mem bs tl :
  zlen out + zlen bs <= PTRDIFF_MAX ->
  sizer_sink out room (DTF_BYTES_WRITER_KIND_SIZER (zlen out), mem) ->
  dtf_bytes_writer_write (vw bs tl) (DTF_BYTES_WRITER_KIND_SIZER (zlen out), mem) =
  (Ok 0, (DTF_BYTES_WRITER_KIND_SIZER (zlen out + zlen bs), mem)).
Proof.
  intros Hle _. cbn. unfold sizer_write. cbn [vw v_len].
  pose proof (zlen_nonneg out). pose proof (zlen_nonneg bs).
  unfold ptrdiff_add, dutl_checked_add. change PTRDIFF_MAX with 9223372036854775807 in *.
  zbool; (lia || done).
Qed.

#[export] Instance sizer_sink_ok : ByteSink sizer_sink (fun _ => 0).
Proof.
  split; try done.
  - by intros out room [w mem] (Hw & _); cbn in *; rewrite Hw.
  - by intros out room st (_ & _ & ?).
  - intros out room [w mem] bs tl (Hw & -> & Hr) Hb. cbn in Hw; subst w.
    eexists. split; [apply (sizer_write_step _ (PTRDIFF_MAX - zlen out)); [lia|by split]|].
    split; [cbn; by rewrite zlen_app|]. rewrite zlen_app. lia.
  - intros out room [w mem] bs tl (Hw & -> & Hr) Hb. cbn in Hw; subst w.
    cbn. unfold sizer_write. cbn [vw v_len]. unfold ptrdiff_add, dutl_checked_add.
    pose proof (zlen_nonneg out). zbool; try lia; eexists; done.
  - intros out room room' w mem w' mem' old rest n tl (Hw & -> & Hr) (Hw' & -> & Hr') Hold Hn Hroom.
    cbn in Hw, Hw'; subst. revert Hroom Hr'. autorewrite with zlen. intros.
    pose proof (zlen_nonneg rest).
    eexists _, _, _. split; [apply (sizer_write_step _ (PTRDIFF_MAX - zlen out))|].
    + rewrite zlen_le_bytes. lia.
    + by split.
    + split; [done|]. unfold sizer_sink. cbn [fst]. autorewrite with zlen.
      rewrite Hold. split_and!; [done|lia|lia].
Qed.

(** ** Derived operations on any sink *)

Section sink_ops.
Context {sink : list Z -> Z -> wstate -> Prop} {count : Z -> Z} `{HS : !ByteSink sink count}.

Lemma count_0 : count 0 = 0.
Proof. pose proof (count_bound 0). lia. Qed.

(** Writing a NUL-terminated string. *)
Lemma sink_zstring out room st s :
  sink out room st -> zlen s < UINT32_MAX -> zlen s + 1 <= room ->
  exists st', dtf_bytes_writer_write_zstring (Some s) st = (Ok (count (zlen s + 1)), st') /\
              sink (out ++ cstr_mem s) (room - (zlen s + 1)) st'.
Proof.
  intros Hst Hs Hr. pose proof (zlen_nonneg s).
  unfold dtf_bytes_writer_write_zstring. rewrite zstring_size_ok by lia. srun.
  rewrite u32_small by lia. cbn [fmap option_fmap option_map].
  rewrite <- zlen_cstr_mem in *.
  destruct (sink_write out room st (cstr_mem s) [] Hst Hr) as (st' & Hw & Hst').
  exists st'. unfold vw in Hw. by rewrite app_nil_r in Hw.
Qed.

Lemma sink_zstring_full out room st s :
  sink out room st -> zlen s < UINT32_MAX -> room < zlen s + 1 ->
  exists st', dtf_bytes_writer_write_zstring (Some s) st = (Err DICEY_EOVERFLOW, st').
Proof.
  intros Hst Hs Hr. pose proof (zlen_nonneg s).
  unfold dtf_bytes_writer_write_zstring. rewrite zstring_size_ok by lia. srun.
  rewrite u32_small by lia. cbn [fmap option_fmap option_map]. rewrite <- zlen_cstr_mem in *.
  destruct (sink_full out room st (cstr_mem s) [] Hst Hr) as (st' & Hw).
  exists st'. unfold vw in Hw. by rewrite app_nil_r in Hw.
Qed.

End sink_ops.
