(* ===== verification/ValueWrite.v ===== *)
(** * Encoding of values (src/wirefmt/dtf/value-write.c)

    [item_write] and its helpers, as written: every helper goes through a [dtf_bytes_writer],
    lists are written with a zeroed byte count that is patched afterwards through a snapshot of
    the writer. [encode_item] is the reference layout (docs/source/dtf/index.rst); the theorems
    show that the writers produce exactly that layout, that the counting writer agrees with the
    buffer, and which errors are reported otherwise. *)

From S2P Require Import Prelude Errors Types Views Writer.

Inductive item_policy : Type := ITEM_POLICY_EXACT | ITEM_POLICY_VARIANT.

(** ** Leaves *)

Definition blob_write (value : option (list Z)) (size : Z) : wst_m Z :=
  dtf_bytes_writer_write (mk_view size value).

(** [slen] is a [ptrdiff_t]; the cast to [dtf_size] happens before the comparison. *)
Definition len_write (slen : Z) : wst_m Z :=
  if slen <? 0 then sfail DICEY_EINVAL
  else if UINT32_MAX <? u32 slen then sfail DICEY_EOVERFLOW
  else blob_write (Some (le_bytes 4 (u32 slen))) 4.

Definition bool_write (value : Z) : wst_m Z := blob_write (Some (le_bytes 1 value)) 1.
Definition byte_write (value : Z) : wst_m Z := blob_write (Some (le_bytes 1 value)) 1.
Definition float_write (value : Z) : wst_m Z := blob_write (Some (le_bytes 8 value)) 8.
(** [int_write] for an integer of [n] bytes. *)
Definition int_write (n : nat) (value : Z) : wst_m Z :=
  blob_write (Some (le_bytes n value)) (Z.of_nat n).
Definition uuid_write (value : list Z) : wst_m Z := blob_write (Some value) DICEY_UUID_SIZE.

Definition bytes_write (len : Z) (data : option (list Z)) : wst_m Z :=
  do! header_nbytes <- blob_write (Some (le_bytes 4 len)) 4;
  do! content_nbytes <- blob_write data len;
  slift (or_overflow (ptrdiff_add header_nbytes content_nbytes)).

(** [str ? str : ""] *)
Definition str_write (str : option cstr) : wst_m Z :=
  dtf_bytes_writer_write_zstring (Some (default [] str)).

Definition error_write (error : dicey_errmsg) : wst_m Z :=
  do! header_nbytes <- blob_write (Some (le_bytes 2 (err_code error))) 2;
  do! content_nbytes <- str_write (err_message error);
  slift (or_overflow (ptrdiff_add header_nbytes content_nbytes)).

Definition value_header_write (value : dicey_arg) : wst_m Z :=
  blob_write (Some [type_code (arg_type value)]) 1.

(** ** Lists *)

(** Runs a write through a snapshot of the writer: the block changes, the writer does not. *)
Definition through_clone {A} (clone : dtf_bytes_writer) (m : wst_m A) : wst_m A := fun '(w, mem) =>
  let '(r, (_, mem')) := m (clone, mem) in (r, (w, mem')).

Section lists.
Variable item_write : dicey_arg -> item_policy -> wst_m Z.

Definition items_write (policy : item_policy) : list dicey_arg -> Z -> wst_m Z :=
  fix items_write (items : list dicey_arg) (written_bytes : Z) : wst_m Z :=
    match items with
    | [] => sret written_bytes
    | item :: items' =>
        do! write_res <- item_write item policy;
        do! written_bytes' <- slift (or_overflow (ptrdiff_add written_bytes write_res));
        items_write items' written_bytes'
    end.

Definition list_write (header : list Z) (elems : list dicey_arg) (policy : item_policy) : wst_m Z :=
  do! clone_at_nbytes <- dtf_bytes_writer_snapshot;
  do! header_nbytes <- dtf_bytes_writer_write (mk_view (zlen header) (Some header));
  do! content_nbytes <- items_write policy elems 0;
  do! _ <- through_clone clone_at_nbytes (len_write content_nbytes);
  slift (or_overflow (ptrdiff_add header_nbytes content_nbytes)).

(** [struct dtf_array_header { .nitems, .type }], the byte count zeroed. *)
Definition array_write (type : dicey_type) (elems : list dicey_arg) : wst_m Z :=
  if negb (dicey_type_is_valid type) then sfail DICEY_EINVAL
  else list_write (le_bytes 4 0 ++ le_bytes 2 (zlen elems) ++ [type_code type]) elems ITEM_POLICY_EXACT.

Definition pair_write (first second : dicey_arg) : wst_m Z :=
  list_write (le_bytes 4 0) [first; second] ITEM_POLICY_VARIANT.

Definition tuple_write (elems : list dicey_arg) : wst_m Z :=
  list_write (le_bytes 4 0 ++ le_bytes 2 (zlen elems)) elems ITEM_POLICY_VARIANT.

End lists.

(** ** Items *)

Definition is_variant (policy : item_policy) : bool :=
  match policy with ITEM_POLICY_VARIANT => true | ITEM_POLICY_EXACT => false end.

Fixpoint item_write (item : dicey_arg) (policy : item_policy) {struct item} : wst_m Z :=
  do! st <- sget;
  sassert (dtf_bytes_writer_is_valid st.1) ;;!
  if negb (dicey_type_is_valid (arg_type item)) then sfail DICEY_EINVAL else
  do! written_bytes <- (if is_variant policy then value_header_write item else sret 0);
  do! content_bytes <-
    match item with
    | ArgInvalid _ => sfault AssertFailed
    | ArgUnit => sret 0
    | ArgBool b => bool_write b
    | ArgByte b => byte_write b
    | ArgFloat f => float_write f
    | ArgI16 i => int_write 2 i
    | ArgI32 i => int_write 4 i
    | ArgI64 i => int_write 8 i
    | ArgU16 i => int_write 2 i
    | ArgU32 i => int_write 4 i
    | ArgU64 i => int_write 8 i
    | ArgArray type elems => array_write item_write type elems
    | ArgTuple elems => tuple_write item_write elems
    | ArgPair first second => pair_write item_write first second
    | ArgBytes len data => bytes_write len data
    | ArgStr str => str_write str
    | ArgUuid bytes => uuid_write bytes
    | ArgPath path => dtf_bytes_writer_write_zstring path
    | ArgSelector sel => dtf_bytes_writer_write_selector sel
    | ArgError error => error_write error
    end;
  slift (or_overflow (ptrdiff_add written_bytes content_bytes)).

(** ** Selectors (on views) and whole values *)

(** Returns the bytes consumed and the selector. *)
Definition dtf_selector_from : vst (Z * dicey_selector) :=
  do! src <- sget;
  sassert (dicey_view_is_valid src) ;;!
  do! (trait_len, t) <- dicey_view_as_zstring;
  do! (elem_len, e) <- dicey_view_as_zstring;
  do! read_bytes <- slift (or_overflow (ptrdiff_add trait_len elem_len));
  sret (read_bytes, mk_selector (Some t) (Some e)).

Definition dtf_selector_write (sel : dicey_selector) : mst Z := fun '(dest, mem) =>
  match vm_data dest, trait sel, elem sel with
  | Some _, Some t, Some e =>
      (do! trait_len <- slift (dutl_zstring_size (Some t));
       do! elem_len <- slift (dutl_zstring_size (Some e));
       dicey_view_mut_write_chunks
         [mk_view trait_len (Some (cstr_mem t)); mk_view elem_len (Some (cstr_mem e))]) (dest, mem)
  | _, _, _ => (Err DICEY_EINVAL, (dest, mem))
  end.

Definition dtf_value_estimate_size (item : dicey_arg) : res Z :=
  let '(r, st) := item_write item ITEM_POLICY_VARIANT (dtf_bytes_writer_new_sizer, []) in
  let! _ := r in
  match st.1 with
  | DTF_BYTES_WRITER_KIND_SIZER size => Ok size
  | _ => Fault AssertFailed
  end.

Definition dtf_value_write_to (item : dicey_arg) : wst_m Z := item_write item ITEM_POLICY_VARIANT.

(** [struct dtf_valueres]; [vr_value] is an offset in the block, [None] for NULL. *)
Record dtf_valueres : Type := mk_valueres {
  vr_result : dicey_error + Z; vr_size : Z; vr_value : option Z;
}.

(** [free(p)] for a pointer at [off] in a live block: only the start of the block can be freed.
    The result is the block after the call, [None] once it is freed. *)
Definition free_block (off : option Z) : res (option (list Z)) :=
  match off with
  | Some 0 => Ok None
  | _ => Fault InvalidFree
  end.

(** [dtf_value_write]: the destination, the block it points into, and whether allocations
    succeed. Returns the result with the block afterwards ([None] if it was freed). *)
Definition dtf_value_write (calloc_ok : Z -> bool) (dest : dicey_view_mut) (mem : list Z)
    (item : dicey_arg) : res (dtf_valueres * option (list Z)) :=
  match dtf_value_estimate_size item with
  | Err e => Ok (mk_valueres (inl e) 0 None, Some mem)
  | Fault f => Fault f
  | OutOfFuel => OutOfFuel
  | Ok size =>
      let '(alloc_res, (dest', mem')) := dicey_view_mut_ensure_cap calloc_ok size (dest, mem) in
      match alloc_res with
      | Err e => Ok (mk_valueres (inl e) size None, Some mem')
      | Fault f => Fault f
      | OutOfFuel => OutOfFuel
      | Ok allocated =>
          let '(write_res, (_, mem'')) := dtf_value_write_to item (dtf_bytes_writer_new dest', mem') in
          match write_res with
          | Ok _ => Ok (mk_valueres (inr allocated) size (vm_data dest'), Some mem'')
          | Err e =>
              let! block := (if allocated =? 0 then free_block (vm_data dest') else Ok (Some mem'')) in
              Ok (mk_valueres (inl e) size None, block)
          | Fault f => Fault f
          | OutOfFuel => OutOfFuel
          end
      end
  end.

(** ** The reference layout *)

Fixpoint encode_content (a : dicey_arg) : list Z :=
  let encode_variant x := type_code (arg_type x) :: encode_content x in
  match a with
  | ArgInvalid _ | ArgUnit => []
  | ArgBool b | ArgByte b => le_bytes 1 b
  | ArgFloat x | ArgI64 x | ArgU64 x => le_bytes 8 x
  | ArgI16 x | ArgU16 x => le_bytes 2 x
  | ArgI32 x | ArgU32 x => le_bytes 4 x
  | ArgArray t l =>
      let content := concat (map encode_content l) in
      le_bytes 4 (zlen content) ++ le_bytes 2 (zlen l) ++ [type_code t] ++ content
  | ArgTuple l =>
      let content := concat (map encode_variant l) in
      le_bytes 4 (zlen content) ++ le_bytes 2 (zlen l) ++ content
  | ArgPair x y =>
      let content := encode_variant x ++ encode_variant y in
      le_bytes 4 (zlen content) ++ content
  | ArgBytes len data => le_bytes 4 len ++ default [] data
  | ArgStr s => cstr_mem (default [] s)
  | ArgUuid bs => bs
  | ArgPath s => cstr_mem (default [] s)
  | ArgSelector sel => cstr_mem (default [] (trait sel)) ++ cstr_mem (default [] (elem sel))
  | ArgError e => le_bytes 2 (err_code e) ++ cstr_mem (default [] (err_message e))
  end.

Definition encode_item (policy : item_policy) (a : dicey_arg) : list Z :=
  (if is_variant policy then [type_code (arg_type a)] else []) ++ encode_content a.

(** What the encoder requires of an argument: a valid type everywhere, strings of less than
    4 GiB, no NULL where the format has no notion of it, and blobs of the length they claim. *)
Definition zstring_ok (s : option cstr) : Prop := exists s', s = Some s' /\ zlen s' < UINT32_MAX.

Fixpoint writable (a : dicey_arg) : Prop :=
  match a with
  | ArgInvalid _ => False
  | ArgArray t l => dicey_type_is_valid t = true /\ foldr (fun x P => writable x /\ P) True l
  | ArgTuple l => foldr (fun x P => writable x /\ P) True l
  | ArgPair x y => writable x /\ writable y
  | ArgBytes len data => exists d, data = Some d /\ len = zlen d
  | ArgStr s => zstring_ok (Some (default [] s))
  | ArgUuid bs => zlen bs = DICEY_UUID_SIZE
  | ArgPath s => zstring_ok s
  | ArgSelector sel => zstring_ok (trait sel) /\ zstring_ok (elem sel)
  | ArgError e => zstring_ok (Some (default [] (err_message e)))
  | _ => True
  end.

Lemma writable_list l : foldr (fun x P => writable x /\ P) True l <-> Forall writable l.
Proof.
  induction l as [|x l IH]; cbn; [split; [constructor|done]|].
  rewrite IH. split; [intros []; by constructor|by inversion 1].
Qed.

(** ** Leaves on a sink *)

Section encode_on_sink.
Context {sink : list Z -> Z -> wstate -> Prop} {count : Z -> Z} `{HS : !ByteSink sink count}.

(** [emits m bs]: with enough room, [m] emits exactly [bs] and reports the writer's count;
    without it, [m] reports an overflow. *)
Definition emits (m : wst_m Z) (bs : list Z) : Prop := forall out room st,
  sink out room st -> zlen out + zlen bs <= PTRDIFF_MAX ->
  (zlen bs <= room ->
     exists st', m st = (Ok (count (zlen bs)), st') /\ sink (out ++ bs) (room - zlen bs) st') /\
  (room < zlen bs -> exists st', m st = (Err DICEY_EOVERFLOW, st')).

Lemma emits_blob bs : emits (blob_write (Some bs) (zlen bs)) bs.
Proof.
  intros out room st Hst Hmax. unfold blob_write.
  replace (mk_view (zlen bs) (Some bs)) with (vw bs []) by (unfold vw; by rewrite app_nil_r).
  split; intros Hr; [by apply (sink_write out)|by apply (sink_full out room)].
Qed.

Lemma emits_zstring s : zstring_ok s -> emits (dtf_bytes_writer_write_zstring s) (cstr_mem (default [] s)).
Proof.
  intros (s' & -> & Hs) out room st Hst Hmax. cbn [default from_option id]. rewrite zlen_cstr_mem.
  split; intros Hr; [by apply sink_zstring|by apply (sink_zstring_full out room)].
Qed.

(** Two writes in a row, their counts added. *)
Lemma emits_seq m1 m2 b1 b2 :
  emits m1 b1 -> emits m2 b2 ->
  emits (do! n1 <- m1; do! n2 <- m2; slift (or_overflow (ptrdiff_add n1 n2))) (b1 ++ b2).
Proof.
  intros H1 H2 out room st Hst. rewrite zlen_app. intros Hmax.
  pose proof (zlen_nonneg out). pose proof (zlen_nonneg b1). pose proof (zlen_nonneg b2).
  destruct (H1 out room st Hst ltac:(lia)) as [H1ok H1full].
  destruct (Z.ltb_spec room (zlen b1)).
  { split; [lia|]. intros _. destruct (H1full ltac:(lia)) as (st' & E).
    exists st'. by rewrite (sbind_Err _ _ _ _ _ E). }
  destruct (H1ok ltac:(lia)) as (st1 & E1 & Hst1).
  rewrite (sbind_Ok _ _ _ _ _ E1).
  destruct (H2 _ _ _ Hst1 ltac:(rewrite zlen_app; lia)) as [H2ok H2full].
  split; intros Hr.
  - destruct (H2ok ltac:(lia)) as (st2 & E2 & Hst2). exists st2.
    rewrite (sbind_Ok _ _ _ _ _ E2). unfold slift.
    pose proof (count_bound (zlen b1)). pose proof (count_bound (zlen b2)).
    rewrite ptrdiff_add_in by lia. rewrite count_add, app_assoc.
    by replace (room - (zlen b1 + zlen b2)) with (room - zlen b1 - zlen b2) by lia.
  - destruct (H2full ltac:(lia)) as (st2 & E2). exists st2. by rewrite (sbind_Err _ _ _ _ _ E2).
Qed.

Lemma emits_nil : emits (sret 0) [].
Proof.
  intros out room st Hst Hmax. split.
  - intros _. exists st. change (zlen []) with 0. by rewrite (count_0 (sink := sink)), app_nil_r, Z.sub_0_r.
  - pose proof (sink_room _ _ _ Hst). change (zlen []) with 0. lia.
Qed.

(** ** Loops on a sink *)

(** The loops that write a sequence carry the count so far as an accumulator. *)
Definition emits_from (f : Z -> wst_m Z) (bs : list Z) : Prop := forall out room st n0,
  sink out room st -> zlen out + zlen bs <= PTRDIFF_MAX -> 0 <= n0 <= zlen out ->
  (zlen bs <= room ->
     exists st', f (count n0) st = (Ok (count (n0 + zlen bs)), st') /\
                 sink (out ++ bs) (room - zlen bs) st') /\
  (room < zlen bs -> exists st', f (count n0) st = (Err DICEY_EOVERFLOW, st')).

Lemma emits_from_nil : emits_from sret [].
Proof.
  intros out room st n0 Hst Hmax Hn. change (zlen []) with 0. split; intros Hr.
  - exists st. by rewrite app_nil_r, Z.add_0_r, Z.sub_0_r.
  - pose proof (sink_room _ _ _ Hst). lia.
Qed.

Lemma emits_from_cons m f b1 b2 :
  emits m b1 -> emits_from f b2 ->
  emits_from (fun w => do! r <- m; do! w' <- slift (or_overflow (ptrdiff_add w r)); f w') (b1 ++ b2).
Proof.
  intros H1 H2 out room st n0 Hst. rewrite zlen_app. intros Hmax Hn.
  pose proof (zlen_nonneg b1). pose proof (zlen_nonneg b2).
  destruct (H1 out room st Hst ltac:(lia)) as [H1ok H1full].
  destruct (Z.ltb_spec room (zlen b1)).
  { split; [lia|]. intros _. destruct (H1full ltac:(lia)) as (st' & E).
    exists st'. by rewrite (sbind_Err _ _ _ _ _ E). }
  destruct (H1ok ltac:(lia)) as (st1 & E1 & Hst1). rewrite (sbind_Ok _ _ _ _ _ E1).
  pose proof (count_bound n0). pose proof (count_bound (zlen b1)).
  rewrite ptrdiff_add_in by lia. srun. rewrite <- count_add.
  destruct (H2 _ _ _ (n0 + zlen b1) Hst1 ltac:(rewrite zlen_app; lia) ltac:(rewrite zlen_app; lia))
    as [H2ok H2full].
  split; intros Hr.
  - destruct (H2ok ltac:(lia)) as (st2 & E2 & Hst2). exists st2.
    rewrite E2, app_assoc, Z.add_assoc. split; [done|].
    by replace (room - (zlen b1 + zlen b2)) with (room - zlen b1 - zlen b2) by lia.
  - apply H2full. lia.
Qed.

Lemma emits_from_emits f bs : emits_from f bs -> emits (f 0) bs.
Proof.
  intros H out room st Hst Hmax. pose proof (zlen_nonneg out).
  destruct (H out room st 0 Hst Hmax ltac:(lia)) as [Hok Hfull].
  rewrite (count_0 (sink := sink)), Z.add_0_l in *. auto.
Qed.

Lemma emits_ext m m' bs :
  (forall out room st, sink out room st -> m' st = m st) -> emits m bs -> emits m' bs.
Proof. intros E H out room st Hst Hmax. rewrite (E _ _ _ Hst). by apply (H out). Qed.

Lemma emits_selector sel :
  zstring_ok (trait sel) -> zstring_ok (elem sel) ->
  emits (dtf_bytes_writer_write_selector sel)
        (cstr_mem (default [] (trait sel)) ++ cstr_mem (default [] (elem sel))).
Proof.
  destruct sel as [t e]; cbn [trait elem]. intros (t' & -> & Ht) (e' & -> & He).
  cbn [default from_option id].
  apply (emits_ext (dtf_bytes_writer_write_chunks_loop
    [mk_view (zlen (cstr_mem t')) (Some (cstr_mem t'));
     mk_view (zlen (cstr_mem e')) (Some (cstr_mem e'))] 0)).
  - intros out room st Hst. unfold dtf_bytes_writer_write_selector. cbn [trait elem].
    rewrite (sink_valid _ _ _ Hst). rewrite !zstring_size_ok by lia. srun.
    unfold dtf_bytes_writer_write_chunks. rewrite (sink_valid _ _ _ Hst). cbn [negb].
    by rewrite !zlen_cstr_mem.
  - rewrite <- (app_nil_r (cstr_mem e')) at 3.
    apply (emits_from_emits (dtf_bytes_writer_write_chunks_loop _)).
    apply (emits_from_cons _ _ _ _ (emits_blob _)), (emits_from_cons _ _ _ _ (emits_blob _)), emits_from_nil.
Qed.

Lemma emits_items iw policy l :
  Forall (fun x => emits (iw x policy) (encode_item policy x)) l ->
  emits_from (items_write iw policy l) (concat (map (encode_item policy) l)).
Proof.
  induction 1 as [|x l Hx Hl IH]; [apply emits_from_nil|].
  cbn [map concat]. apply (emits_from_cons _ _ _ _ Hx IH).
Qed.

(** The byte count is written through the snapshot over the zeroes of the header. *)
Lemma len_write_blob n : 0 <= n -> len_write n = dtf_bytes_writer_write (vw (le_bytes 4 n) []).
Proof.
  intros Hn. unfold len_write, blob_write, vw, u32, wrap.
  assert (0 <= n mod 2 ^ 32 < 2 ^ 32) by (apply Z.mod_pos_bound; lia).
  change (2 ^ 32) with 4294967296 in *. change UINT32_MAX with 4294967295. zbool; try lia.
  rewrite app_nil_r, zlen_le_bytes.
  change 4294967296 with (2 ^ (8 * Z.of_nat 4)). by rewrite le_bytes_mod.
Qed.

Lemma emits_list iw policy hd l content :
  emits_from (items_write iw policy l) content ->
  emits (list_write iw (le_bytes 4 0 ++ hd) l policy) (le_bytes 4 (zlen content) ++ hd ++ content).
Proof.
  intros Hitems out room [w mem] Hst. autorewrite with zlen. intros Hmax.
  pose proof (zlen_nonneg hd). pose proof (zlen_nonneg content). pose proof (zlen_nonneg out).
  unfold list_write, dtf_bytes_writer_snapshot. cbn [sbind fst].
  destruct (emits_blob (le_bytes 4 0 ++ hd) out room (w, mem) Hst) as [Hhok Hhfull];
    [autorewrite with zlen; lia|].
  unfold blob_write in *. revert Hhok Hhfull. autorewrite with zlen. intros Hhok Hhfull.
  destruct (Z.ltb_spec room (4 + zlen hd)).
  { split; [lia|intros _]. destruct (Hhfull ltac:(lia)) as (st1 & E1). exists st1.
    by rewrite (sbind_Err _ _ _ _ _ E1). }
  destruct (Hhok ltac:(lia)) as (st1 & E1 & Hst1). rewrite (sbind_Ok _ _ _ _ _ E1).
  destruct (emits_from_emits _ _ Hitems _ _ st1 Hst1) as [Hok Hfull];
    [autorewrite with zlen; lia|].
  split; intros Hr.
  - destruct (Hok ltac:(lia)) as ([w2 mem2] & E2 & Hst2). rewrite (sbind_Ok _ _ _ _ _ E2).
    rewrite len_write_blob by (apply count_bound; lia).
    rewrite <- !app_assoc in Hst2.
    destruct (sink_patch out room _ w mem w2 mem2 (le_bytes 4 0) (hd ++ content) (zlen content) [] Hst Hst2)
      as (c & w3 & mem3 & E3 & _ & Hst3); [by rewrite zlen_le_bytes|lia|autorewrite with zlen; lia|].
    exists (w2, mem3).
    unfold through_clone at 1, sbind at 1. rewrite E3. unfold slift.
    pose proof (count_bound (4 + zlen hd)). pose proof (count_bound (zlen content)).
    change (Z.of_nat 4) with 4 in *. rewrite ptrdiff_add_in by lia. rewrite <- count_add.
    split; [do 3 f_equal; lia|].
    by replace (room - (4 + (zlen hd + zlen content))) with (room - (4 + zlen hd) - zlen content) by lia.
  - destruct (Hfull ltac:(lia)) as (st2 & E2). exists st2. by rewrite (sbind_Err _ _ _ _ _ E2).
Qed.

(** ** Items on a sink *)

(** The part of [item_write] after the type tag. *)
Definition content_write (item : dicey_arg) : wst_m Z :=
  match item with
  | ArgInvalid _ => sfault AssertFailed
  | ArgUnit => sret 0
  | ArgBool b => bool_write b
  | ArgByte b => byte_write b
  | ArgFloat f => float_write f
  | ArgI16 i => int_write 2 i
  | ArgI32 i => int_write 4 i
  | ArgI64 i => int_write 8 i
  | ArgU16 i => int_write 2 i
  | ArgU32 i => int_write 4 i
  | ArgU64 i => int_write 8 i
  | ArgArray type elems => array_write item_write type elems
  | ArgTuple elems => tuple_write item_write elems
  | ArgPair first second => pair_write item_write first second
  | ArgBytes len data => bytes_write len data
  | ArgStr str => str_write str
  | ArgUuid bytes => uuid_write bytes
  | ArgPath path => dtf_bytes_writer_write_zstring path
  | ArgSelector sel => dtf_bytes_writer_write_selector sel
  | ArgError error => error_write error
  end.

Lemma writable_type a : writable a -> dicey_type_is_valid (arg_type a) = true.
Proof. by destruct a. Qed.

Lemma item_write_eq a policy out room st :
  dicey_type_is_valid (arg_type a) = true -> sink out room st ->
  item_write a policy st =
  (do! w <- (if is_variant policy then value_header_write a else sret 0);
   do! c <- content_write a;
   slift (or_overflow (ptrdiff_add w c))) st.
Proof.
  intros Ht Hst. destruct a; cbn [item_write arg_type content_write] in *; unfold sbind at 1, sget;
    cbn [fst]; rewrite (sink_valid _ _ _ Hst), Ht; reflexivity.
Qed.

Lemma emits_item_of_content a policy :
  writable a -> emits (content_write a) (encode_content a) ->
  emits (item_write a policy) (encode_item policy a).
Proof.
  intros Ha Hc. eapply emits_ext.
  { intros out room st Hst. apply (item_write_eq _ _ out room st); [by apply writable_type|done]. }
  apply emits_seq; [|done]. destruct policy; cbn [is_variant]; [apply emits_nil|].
  apply (emits_blob [_]).
Qed.

Lemma emits_elems l policy :
  Forall (fun x => writable x -> emits (content_write x) (encode_content x)) l ->
  Forall writable l ->
  emits_from (items_write item_write policy l) (concat (map (encode_item policy) l)).
Proof.
  intros IH Hl. apply emits_items. rewrite Forall_forall in *.
  intros x Hx. apply emits_item_of_content; auto.
Qed.

Lemma emits_content a : writable a -> emits (content_write a) (encode_content a).
Proof.
  revert a. apply (dicey_arg_ind' (fun a => writable a -> emits (content_write a) (encode_content a)));
    [intros a|intros t l IH|intros l IH|intros x y IHx IHy].
  - destruct a; try done; cbn [writable content_write encode_content].
    + intros _. apply emits_nil.
    + intros _. apply (emits_blob (le_bytes 1 _)).
    + intros _. apply (emits_blob (le_bytes 1 _)).
    + intros _. apply (emits_blob (le_bytes 8 _)).
    + intros _. apply (emits_blob (le_bytes 2 _)).
    + intros _. apply (emits_blob (le_bytes 4 _)).
    + intros _. apply (emits_blob (le_bytes 8 _)).
    + intros _. apply (emits_blob (le_bytes 2 _)).
    + intros _. apply (emits_blob (le_bytes 4 _)).
    + intros _. apply (emits_blob (le_bytes 8 _)).
    + intros (d & -> & ->). apply emits_seq; [apply (emits_blob (le_bytes 4 _))|apply emits_blob].
    + intros Hs. apply (emits_zstring (Some _) Hs).
    + intros Hu. unfold uuid_write. rewrite <- Hu. apply emits_blob.
    + apply emits_zstring.
    + intros [Ht He]. by apply emits_selector.
    + intros Hs. apply emits_seq; [apply (emits_blob (le_bytes 2 _))|apply (emits_zstring (Some _) Hs)].
  - cbn [writable content_write encode_content]. rewrite writable_list. intros [Ht Hl].
    unfold array_write. rewrite Ht. cbn [negb].
    pose proof (emits_elems l ITEM_POLICY_EXACT IH Hl) as Hitems.
    pose proof (emits_list item_write _ (le_bytes 2 (zlen l) ++ [type_code t]) l _ Hitems) as H.
    by rewrite <- !app_assoc in H.
  - cbn [writable content_write encode_content]. rewrite writable_list. intros Hl.
    pose proof (emits_elems l ITEM_POLICY_VARIANT IH Hl) as Hitems.
    apply (emits_list item_write _ (le_bytes 2 (zlen l)) l _ Hitems).
  - cbn [writable content_write encode_content]. intros [Hx Hy].
    assert (Forall writable [x; y]) as Hl by (constructor; [done|constructor; [done|constructor]]).
    assert (Forall (fun x => writable x -> emits (content_write x) (encode_content x)) [x; y]) as IH
      by (constructor; [done|constructor; [done|constructor]]).
    pose proof (emits_elems [x; y] ITEM_POLICY_VARIANT IH Hl) as Hitems.
    pose proof (emits_list item_write _ [] [x; y] _ Hitems) as H.
    rewrite app_nil_r in H. cbn [map concat app] in H. rewrite app_nil_r in H. apply H.
Qed.

(** On any sink, a writable argument is written in the reference layout. *)
Lemma emits_item a policy : writable a -> emits (item_write a policy) (encode_item policy a).
Proof. intros Ha. by apply emits_item_of_content, emits_content. Qed.

End encode_on_sink.

(** ** The encoder *)

Lemma estimate_size_ok a :
  writable a -> zlen (encode_item ITEM_POLICY_VARIANT a) <= PTRDIFF_MAX ->
  dtf_value_estimate_size a = Ok (zlen (encode_item ITEM_POLICY_VARIANT a)).
Proof.
  intros Ha Hmax. unfold dtf_value_estimate_size.
  assert (sizer_sink [] PTRDIFF_MAX (dtf_bytes_writer_new_sizer, [])) as Hst by done.
  destruct (emits_item (sink := sizer_sink) a ITEM_POLICY_VARIANT Ha _ _ _ Hst) as [Hok _]; [done|].
  destruct (Hok Hmax) as (st' & -> & Hw & _). cbn [obind]. by rewrite Hw.
Qed.

(** The bytes written into a buffer, and the state of the buffer afterwards. *)
Lemma item_write_buffer a policy pre area room post :
  writable a -> zlen area = zlen (encode_item policy a) -> zlen area <= PTRDIFF_MAX ->
  item_write a policy
    (DTF_BYTES_WRITER_KIND_BUFFER (mk_view_mut (zlen (area ++ room)) (Some (zlen pre))),
     pre ++ area ++ room ++ post) =
  (Ok (zlen area),
   (DTF_BYTES_WRITER_KIND_BUFFER (mk_view_mut (zlen room) (Some (zlen pre + zlen area))),
    pre ++ encode_item policy a ++ room ++ post)).
Proof.
  intros Ha Har Hmax.
  assert (buffer_sink pre (area ++ room) post [] (zlen (area ++ room))
    (DTF_BYTES_WRITER_KIND_BUFFER (mk_view_mut (zlen (area ++ room)) (Some (zlen pre))),
     pre ++ area ++ room ++ post)) as Hst.
  { split; [done|]. split; [apply zlen_nonneg|].
    change (zlen []) with 0. rewrite Z.add_0_r, zdrop_0. by rewrite <- app_assoc. }
  pose proof (zlen_nonneg room).
  destruct (emits_item a policy Ha _ _ _ Hst) as [Hok _]; [change (zlen []) with 0; lia|].
  destruct Hok as (st' & -> & (_ & _ & ->)); [rewrite zlen_app; lia|].
  rewrite app_nil_l, zlen_app, <- Har, zdrop_app_eq by done.
  by replace (zlen area + zlen room - zlen area) with (zlen room) by lia.
Qed.

Lemma item_write_buffer_full a policy pre area post :
  writable a -> zlen area < zlen (encode_item policy a) <= PTRDIFF_MAX ->
  exists st', item_write a policy
    (DTF_BYTES_WRITER_KIND_BUFFER (mk_view_mut (zlen area) (Some (zlen pre))), pre ++ area ++ post) =
  (Err DICEY_EOVERFLOW, st').
Proof.
  intros Ha Hl.
  assert (buffer_sink pre area post [] (zlen area)
    (DTF_BYTES_WRITER_KIND_BUFFER (mk_view_mut (zlen area) (Some (zlen pre))), pre ++ area ++ post)) as Hst.
  { split; [done|]. split; [apply zlen_nonneg|].
    change (zlen []) with 0. by rewrite Z.add_0_r, zdrop_0. }
  destruct (emits_item a policy Ha _ _ _ Hst) as [_ Hfull]; [change (zlen []) with 0; lia|].
  apply Hfull. lia.
Qed.

(** ** Properties *)

Lemma zlen_encode_variant_pos a : 1 <= zlen (encode_item ITEM_POLICY_VARIANT a).
Proof.
  unfold encode_item. cbn [is_variant]. rewrite zlen_app.
  pose proof (zlen_nonneg (encode_content a)). change (zlen [_]) with 1. lia.
Qed.

(** Writing into a buffer that is large enough. *)
Lemma dtf_value_write_fits calloc_ok a pre area room post :
  writable a -> zlen area = zlen (encode_item ITEM_POLICY_VARIANT a) -> zlen area <= PTRDIFF_MAX ->
  dtf_value_write calloc_ok (mk_view_mut (zlen (area ++ room)) (Some (zlen pre)))
    (pre ++ area ++ room ++ post) a =
  Ok (mk_valueres (inr 0) (zlen area) (Some (zlen pre)),
      Some (pre ++ encode_item ITEM_POLICY_VARIANT a ++ room ++ post)).
Proof.
  intros Ha Hs Hm. unfold dtf_value_write. rewrite estimate_size_ok, <- Hs by (done || lia).
  unfold dicey_view_mut_ensure_cap. cbn [vm_len]. rewrite zlen_app. pose proof (zlen_nonneg room).
  zbool; try lia. unfold dtf_value_write_to, dtf_bytes_writer_new. rewrite <- zlen_app.
  by rewrite item_write_buffer.
Qed.

(** Writing with no buffer: one of the exact size is allocated. *)
Lemma dtf_value_write_alloc calloc_ok a mem :
  writable a -> zlen (encode_item ITEM_POLICY_VARIANT a) <= PTRDIFF_MAX ->
  calloc_ok (zlen (encode_item ITEM_POLICY_VARIANT a)) = true ->
  dtf_value_write calloc_ok DICEY_NULL mem a =
  Ok (mk_valueres (inr (zlen (encode_item ITEM_POLICY_VARIANT a)))
        (zlen (encode_item ITEM_POLICY_VARIANT a)) (Some 0),
      Some (encode_item ITEM_POLICY_VARIANT a)).
Proof.
  intros Ha Hm Hc. unfold dtf_value_write. rewrite estimate_size_ok by done.
  pose proof (zlen_encode_variant_pos a) as Hpos. set (bs := encode_item _ a) in *.
  unfold dicey_view_mut_ensure_cap, DICEY_NULL. cbn [vm_len vm_data]. rewrite Hc. cbn [negb].
  zbool; try lia. unfold dtf_value_write_to, dtf_bytes_writer_new.
  pose proof (item_write_buffer a ITEM_POLICY_VARIANT [] (replicate (Z.to_nat (zlen bs)) 0) [] [] Ha) as H'.
  rewrite !app_nil_r, zlen_replicate in H' by lia. cbn [app] in H'. change (zlen []) with 0 in H'.
  fold bs in H'. rewrite H' by (done || lia). cbn [vm_data]. done.
Qed.

(** C10: for an argument that can be encoded ([writable]: valid types, no NULL but for strings and
    messages of errors, strings of less than 4 GiB, at most [PTRDIFF_MAX] bytes), the size that
    [dtf_value_estimate_size] counts is exactly the number of bytes the encoder puts in a buffer, and
    the encoder succeeds on a buffer if and only if it has that many bytes left, reporting
    [EOVERFLOW] otherwise. Nothing outside the bytes counted changes. *)
Theorem estimate_size_exact a pre area post :
  writable a -> zlen (encode_item ITEM_POLICY_VARIANT a) <= PTRDIFF_MAX ->
  let writer := dtf_bytes_writer_new (mk_view_mut (zlen area) (Some (zlen pre))) in
  exists size, dtf_value_estimate_size a = Ok size /\
  (size <= zlen area -> exists bs st,
     zlen bs = size /\
     dtf_value_write_to a (writer, pre ++ area ++ post) = (Ok size, (st, pre ++ bs ++ zdrop size area ++ post))) /\
  (zlen area < size -> exists st,
     dtf_value_write_to a (writer, pre ++ area ++ post) = (Err DICEY_EOVERFLOW, st)).
Proof.
  intros Ha Hm. cbv zeta. pose proof (zlen_encode_variant_pos a).
  eexists. split; [by apply estimate_size_ok|]. split; intros Hl.
  - destruct (zsplit (zlen (encode_item ITEM_POLICY_VARIANT a)) area ltac:(lia)) as (r1 & r2 & -> & Hr).
    eexists (encode_item ITEM_POLICY_VARIANT a), _. split; [done|]. unfold dtf_value_write_to, dtf_bytes_writer_new.
    rewrite <- app_assoc, item_write_buffer, zdrop_app_eq, Hr by (done || lia). done.
  - apply item_write_buffer_full; [done|lia].
Qed.

Lemma estimate_size_exact_witness :
  exists size, dtf_value_estimate_size (ArgPair (ArgI16 (-2)) (ArgStr (Some [104; 105]))) = Ok size.
Proof.
  destruct (estimate_size_exact (ArgPair (ArgI16 (-2)) (ArgStr (Some [104; 105]))) [] [] []) as (size & H & _).
  - split; [done|]. exists [104; 105]. done.
  - done.
  - exists size. exact H.
Defined.

(** C9: [dtf_value_write]. An argument whose size cannot be counted is refused with the error of the
    count, and nothing is allocated or written. For an argument that can be encoded ([writable], at most
    [PTRDIFF_MAX] bytes): without a buffer it allocates one of exactly the encoded size, or reports
    [ENOMEM]; a buffer that is too short is left untouched and [EAGAIN] is reported together with the
    size that is needed; a large enough buffer receives the encoding and nothing after it changes.
    What is left are arguments that are counted and then fail to be written, such as bytes of length
    0 at NULL: there the buffer of the caller is freed. *)
Theorem dtf_value_write_spec calloc_ok a pre area post mem :
  (forall e dest, dtf_value_estimate_size a = Err e -> dtf_value_write calloc_ok dest mem a = Ok (mk_valueres (inl e) 0 None, Some mem)) /\
  (writable a -> zlen (encode_item ITEM_POLICY_VARIANT a) <= PTRDIFF_MAX ->
   let bs := encode_item ITEM_POLICY_VARIANT a in
   dtf_value_write calloc_ok DICEY_NULL mem a =
     Ok (if calloc_ok (zlen bs)
         then (mk_valueres (inr (zlen bs)) (zlen bs) (Some 0), Some bs)
         else (mk_valueres (inl DICEY_ENOMEM) (zlen bs) None, Some mem)) /\
   dtf_value_write calloc_ok (mk_view_mut (zlen area) (Some (zlen pre))) (pre ++ area ++ post) a =
     Ok (if zlen area <? zlen bs
         then (mk_valueres (inl DICEY_EAGAIN) (zlen bs) None, Some (pre ++ area ++ post))
         else (mk_valueres (inr 0) (zlen bs) (Some (zlen pre)),
               Some (pre ++ bs ++ zdrop (zlen bs) area ++ post)))).
Proof.
  split; [intros e dest He; unfold dtf_value_write; by rewrite He|].
  intros Ha Hm. cbv zeta. pose proof (zlen_encode_variant_pos a). split.
  - destruct (calloc_ok _) eqn:Hc; [by apply dtf_value_write_alloc|].
    unfold dtf_value_write. rewrite estimate_size_ok by done.
    unfold dicey_view_mut_ensure_cap, DICEY_NULL. cbn [vm_len vm_data]. rewrite Hc. zbool; (lia || done).
  - destruct (Z.ltb_spec (zlen area) (zlen (encode_item ITEM_POLICY_VARIANT a))) as [Hs|Hs].
    + unfold dtf_value_write. rewrite estimate_size_ok by done.
      unfold dicey_view_mut_ensure_cap. cbn [vm_len vm_data]. zbool; (lia || done).
    + destruct (zsplit (zlen (encode_item ITEM_POLICY_VARIANT a)) area ltac:(lia)) as (r1 & r2 & -> & Hr).
      rewrite <- app_assoc, dtf_value_write_fits, zdrop_app_eq, Hr by (done || lia). done.
Qed.

Lemma dtf_value_write_spec_witness :
  dtf_value_write (fun _ => false) DICEY_NULL [] (ArgArray DICEY_TYPE_BYTE [ArgByte 7]) =
    Ok (mk_valueres (inl DICEY_ENOMEM) 9 None, Some []) /\
  dtf_value_write (fun _ => true) DICEY_NULL [] (ArgInvalid DICEY_TYPE_INVALID) = Ok (mk_valueres (inl DICEY_EINVAL) 0 None, Some []).
Proof.
  split.
  - destruct (proj2 (dtf_value_write_spec (fun _ => false) (ArgArray DICEY_TYPE_BYTE [ArgByte 7]) [] [] [] []) ltac:(done) ltac:(done)) as [H _].
    exact H.
  - apply (proj1 (dtf_value_write_spec (fun _ => true) (ArgInvalid DICEY_TYPE_INVALID) [] [] [] [])). reflexivity.
Defined.

(** An empty byte string given as a NULL pointer is accepted by the counting writer but not
    by the buffer, and the failure path of [dtf_value_write] then frees the caller's buffer;
    when that buffer is the middle of a packet, as in [dtf_message_write], [free] is called on
    an interior pointer. *)
Theorem dtf_value_write_frees_caller_buffer calloc_ok pre area post :
  0 < zlen pre -> 5 <= zlen area ->
  dtf_value_write calloc_ok (mk_view_mut (zlen area) (Some (zlen pre))) (pre ++ area ++ post)
    (ArgBytes 0 None) = Fault InvalidFree.
Proof.
  intros Hp Ha. unfold dtf_value_write. change (dtf_value_estimate_size (ArgBytes 0 None)) with (Ok 5 : res Z).
  unfold dicey_view_mut_ensure_cap. cbn [vm_len vm_data]. zbool; try lia.
  destruct (zsplit 5 area ltac:(lia)) as (r1 & r2 & -> & Hr).
  destruct (zsplit 1 r1 ltac:(lia)) as (t & l & -> & Ht). rewrite zlen_app in Hr.
  unfold dtf_value_write_to. cbn [item_write]. unfold sbind at 1, sget. cbn [arg_type dicey_type_is_valid negb fst].
  unfold dtf_bytes_writer_new. cbn [dtf_bytes_writer_is_valid vm_data]. rewrite bool_decide_eq_true_2 by done.
  srun. unfold is_variant, value_header_write, blob_write.
  set (W := wst pre ((t ++ l) ++ r2) post).
  pose proof (wst_write pre t (l ++ r2) post [type_code DICEY_TYPE_BYTES] [] Ht) as H1.
  rewrite app_assoc in H1. fold W in H1.
  change (vw [type_code DICEY_TYPE_BYTES] []) with (mk_view 1 (Some [type_code DICEY_TYPE_BYTES])) in H1.
  unfold W, wst in H1. apply writer_write_buffer in H1. cbn [arg_type]. rewrite <- app_assoc in *.
  rewrite (sbind_Ok _ _ _ _ _ H1).
  pose proof (wst_write (pre ++ [type_code DICEY_TYPE_BYTES]) l r2 post (le_bytes 4 0) []) as H2.
  unfold wst in H2. rewrite zlen_le_bytes in H2.
  specialize (H2 ltac:(lia)). apply writer_write_buffer in H2.
  unfold bytes_write, blob_write. rewrite !sbind_assoc.
  rewrite <- !app_assoc in *.
  change (vw (le_bytes 4 0) []) with (mk_view 4 (Some (le_bytes 4 0))) in H2.
  rewrite (sbind_Ok _ _ _ _ _ H2). destruct (zlen pre) eqn:E; (lia || done).
Qed.

Lemma dtf_value_write_frees_caller_buffer_witness :
  dtf_value_write (fun _ => true) (mk_view_mut 5 (Some 1)) [1; 0; 0; 0; 0; 0] (ArgBytes 0 None) = Fault InvalidFree.
Proof.
  exact (dtf_value_write_frees_caller_buffer (fun _ => true) [1] [0; 0; 0; 0; 0] [] ltac:(done) ltac:(done)).
Defined.
