(* ===== verification/ValueProbe.v ===== *)
(** * Decoding of values (src/wirefmt/dtf/value-probe.c)

    Probing reads one value off the front of a view and describes it without copying: scalars
    are read out, strings and blobs point into the view, and the elements of a list are left
    unparsed in a sub-view that iterators walk later. The theorems show that probing is memory
    safe on every input, consumes exactly the bytes it reports, and reads back every value the
    encoder writes. *)

From S2P Require Import Prelude Errors Types Views Writer ValueWrite.

(** ** Parsed data *)

(** [union _dicey_data_info], by active member. [InfoZero] is the zeroed union. *)
Inductive data_info : Type :=
  | InfoZero
  | InfoBool (boolean : Z)
  | InfoByte (byte : Z)
  | InfoFloat (floating : Z)
  | InfoI16 (i16 : Z)
  | InfoI32 (i32 : Z)
  | InfoI64 (i64 : Z)
  | InfoU16 (u16 : Z)
  | InfoU32 (u32 : Z)
  | InfoU64 (u64 : Z)
  | InfoList (inner_type nitems : Z) (data : dicey_view)
  | InfoBytes (len : Z) (data : option (list Z))
  | InfoStr (str : option cstr)
  | InfoUuid (bytes : list Z)
  | InfoSelector (selector : dicey_selector)
  | InfoError (error : dicey_errmsg).

(** [struct dtf_probed_value], and [struct dicey_value], which has the same two fields. *)
Record dicey_value : Type := mk_value { val_type : dicey_type; val_data : data_info }.

#[export] Instance data_info_eq_dec : EqDecision data_info.
Proof. solve_decision. Defined.

#[export] Instance dicey_value_eq_dec : EqDecision dicey_value.
Proof. solve_decision. Defined.

(** [DTF_SIZE_DYNAMIC] *)
Definition DTF_SIZE_DYNAMIC : Z := PTRDIFF_MAX.

Definition type_size (type : dicey_type) : res Z :=
  match type with
  | DICEY_TYPE_UNKNOWN _ => Fault AssertFailed
  | DICEY_TYPE_INVALID => Err DICEY_EINVAL
  | DICEY_TYPE_UNIT => Ok 0
  | DICEY_TYPE_BOOL => Ok 1
  | DICEY_TYPE_BYTE => Ok 1
  | DICEY_TYPE_FLOAT => Ok 8
  | DICEY_TYPE_INT16 => Ok 2
  | DICEY_TYPE_INT32 => Ok 4
  | DICEY_TYPE_INT64 => Ok 8
  | DICEY_TYPE_UINT16 => Ok 2
  | DICEY_TYPE_UINT32 => Ok 4
  | DICEY_TYPE_UINT64 => Ok 8
  | DICEY_TYPE_UUID => Ok DICEY_UUID_SIZE
  | DICEY_TYPE_ARRAY | DICEY_TYPE_PAIR | DICEY_TYPE_TUPLE
  | DICEY_TYPE_BYTES | DICEY_TYPE_STR | DICEY_TYPE_PATH
  | DICEY_TYPE_SELECTOR | DICEY_TYPE_ERROR => Ok DTF_SIZE_DYNAMIC
  end.

(** Reading the member of the union that belongs to a fixed-size type, after the bytes have
    been copied over the union. *)
Definition scalar_of_bytes (type : dicey_type) (bs : list Z) : data_info :=
  let v := le_val bs in
  match type with
  | DICEY_TYPE_BOOL => InfoBool v
  | DICEY_TYPE_BYTE => InfoByte v
  | DICEY_TYPE_FLOAT => InfoFloat v
  | DICEY_TYPE_INT16 => InfoI16 (to_signed 16 v)
  | DICEY_TYPE_INT32 => InfoI32 (to_signed 32 v)
  | DICEY_TYPE_INT64 => InfoI64 (to_signed 64 v)
  | DICEY_TYPE_UINT16 => InfoU16 v
  | DICEY_TYPE_UINT32 => InfoU32 v
  | DICEY_TYPE_UINT64 => InfoU64 v
  | DICEY_TYPE_UUID => InfoUuid bs
  | _ => InfoZero
  end.

(** ** Headers *)

(** The local header object is a valid destination for the read. *)
Definition local_ptr : option Z := Some 0.

(** [struct dtf_array_header]: byte count, number of items, type of the items. *)
Definition array_header_read : vst (Z * Z * Z) :=
  do! bs <- dicey_view_read_ptr local_ptr 7;
  let type := le_val (ztake 1 (zdrop 6 bs)) in
  if negb (dicey_type_is_valid (type_of_code type)) then sfail DICEY_EBADMSG
  else sret (le_val (ztake 4 bs), le_val (ztake 2 (zdrop 4 bs)), type).

Definition bytes_header_read : vst Z :=
  do! bs <- dicey_view_read_ptr local_ptr 4; sret (le_val bs).

Definition error_header_read : vst Z :=
  do! bs <- dicey_view_read_ptr local_ptr 2; sret (le_val bs).

Definition pair_header_read : vst Z :=
  do! bs <- dicey_view_read_ptr local_ptr 4; sret (le_val bs).

Definition tuple_header_read : vst (Z * Z) :=
  do! bs <- dicey_view_read_ptr local_ptr 6;
  sret (le_val (ztake 4 bs), le_val (ztake 2 (zdrop 4 bs))).

Definition list_probe (nbytes : Z) : vst (Z * dicey_view) := dicey_view_take nbytes.

(** ** Probing *)

Definition array_probe : vst (Z * data_info) :=
  do! (nbytes, nitems, type) <- array_header_read;
  do! (content_read_res, elems) <- list_probe nbytes;
  do! read_bytes <- slift (or_overflow (ptrdiff_add 7 content_read_res));
  sret (read_bytes, InfoList type nitems elems).

Definition bytes_probe : vst (Z * data_info) :=
  do! len <- bytes_header_read;
  do! src <- sget;
  if v_len src <? len then sfail DICEY_EBADMSG else
  do! content_read_res <- dicey_view_advance len;
  do! read_bytes <- slift (or_overflow (ptrdiff_add 4 content_read_res));
  sret (read_bytes, InfoBytes len (ztake len <$> v_data src)).

(** The [uint16_t] code is stored in an [int16_t]. *)
Definition error_probe : vst (Z * data_info) :=
  do! code <- error_header_read;
  do! (content_read_res, msg) <- dicey_view_as_zstring;
  sassert (negb (content_read_res =? 0)) ;;!
  do! read_bytes <- slift (or_overflow (ptrdiff_add 2 content_read_res));
  sret (read_bytes,
        InfoError (mk_errmsg (to_signed 16 code) (if 1 <? content_read_res then Some msg else None))).

Definition pair_probe : vst (Z * data_info) :=
  do! nbytes <- pair_header_read;
  do! (content_read_res, elems) <- list_probe nbytes;
  do! read_bytes <- slift (or_overflow (ptrdiff_add 4 content_read_res));
  sret (read_bytes, InfoList DICEY_VARIANT_ID 2 elems).

Definition tuple_probe : vst (Z * data_info) :=
  do! (nbytes, nitems) <- tuple_header_read;
  do! (content_read_res, elems) <- list_probe nbytes;
  do! read_bytes <- slift (or_overflow (ptrdiff_add 6 content_read_res));
  sret (read_bytes, InfoList DICEY_VARIANT_ID nitems elems).

Definition value_header_read : vst (Z * dicey_type) :=
  do! bs <- dicey_view_read_ptr local_ptr 1;
  let type := type_of_code (le_val bs) in
  if negb (dicey_type_is_valid type) then sfail DICEY_EBADMSG else sret (1, type).

Definition value_probe_container (type : dicey_type) : vst (Z * data_info) :=
  match type with
  | DICEY_TYPE_ARRAY => array_probe
  | DICEY_TYPE_TUPLE => tuple_probe
  | DICEY_TYPE_PAIR => pair_probe
  | _ => sfault AssertFailed
  end.

Definition value_probe_dynamic (type : dicey_type) : vst (Z * data_info) :=
  match type with
  | DICEY_TYPE_ARRAY | DICEY_TYPE_TUPLE | DICEY_TYPE_PAIR => value_probe_container type
  | DICEY_TYPE_BYTES => bytes_probe
  | DICEY_TYPE_STR | DICEY_TYPE_PATH =>
      do! (n, s) <- dicey_view_as_zstring; sret (n, InfoStr (Some s))
  | DICEY_TYPE_SELECTOR =>
      do! (n, sel) <- dtf_selector_from; sret (n, InfoSelector sel)
  | DICEY_TYPE_ERROR => error_probe
  | _ => sfault AssertFailed
  end.

Definition dtf_value_probe_as (type : dicey_type) : vst (Z * data_info) :=
  if negb (dicey_type_is_valid type) then sfail DICEY_EINVAL else
  match type_size type with
  | Ok size =>
      if size =? DTF_SIZE_DYNAMIC then value_probe_dynamic type
      else do! bs <- dicey_view_read_ptr local_ptr size; sret (size, scalar_of_bytes type bs)
  | _ => sfault AssertFailed
  end.

Definition dtf_value_probe : vst (Z * dicey_value) :=
  do! (header_read_res, type) <- value_header_read;
  do! (content_read_res, data) <- dtf_value_probe_as type;
  do! read_bytes <- slift (or_overflow (ptrdiff_add header_read_res content_read_res));
  sret (read_bytes, mk_value type data).

(** ** Safe reading computations *)

(** From a view over [bs], the computation never faults and moves the view past a prefix [a] of
    [bs]; when it succeeds with [x], [Q x a] holds. *)
Definition reads_at {A} (m : vst A) (bs tl : list Z) (Q : A -> list Z -> Prop) : Prop :=
  match m (vw bs tl) with
  | (Ok x, v') => exists a b, bs = a ++ b /\ v' = vw b tl /\ Q x a
  | (Err _, v') => exists a b, bs = a ++ b /\ v' = vw b tl
  | _ => False
  end.

Definition reads {A} (m : vst A) (Q : A -> list Z -> Prop) : Prop := forall bs tl, reads_at m bs tl Q.

(** The union member a parsed value of each type stores. *)
Definition info_matches (type : dicey_type) (i : data_info) : Prop :=
  match type, i with
  | DICEY_TYPE_UNIT, InfoZero
  | DICEY_TYPE_BOOL, InfoBool _ | DICEY_TYPE_BYTE, InfoByte _ | DICEY_TYPE_FLOAT, InfoFloat _
  | DICEY_TYPE_INT16, InfoI16 _ | DICEY_TYPE_INT32, InfoI32 _ | DICEY_TYPE_INT64, InfoI64 _
  | DICEY_TYPE_UINT16, InfoU16 _ | DICEY_TYPE_UINT32, InfoU32 _ | DICEY_TYPE_UINT64, InfoU64 _
  | DICEY_TYPE_UUID, InfoUuid _ => True
  | DICEY_TYPE_ARRAY, InfoList t _ _ => dicey_type_is_valid (type_of_code t) = true
  | DICEY_TYPE_TUPLE, InfoList t _ _ => t = DICEY_VARIANT_ID
  | DICEY_TYPE_PAIR, InfoList t n _ => t = DICEY_VARIANT_ID /\ n = 2
  | DICEY_TYPE_BYTES, InfoBytes len (Some d) => zlen d = len
  | DICEY_TYPE_STR, InfoStr (Some _) | DICEY_TYPE_PATH, InfoStr (Some _) => True
  | DICEY_TYPE_SELECTOR, InfoSelector sel => is_Some (trait sel) /\ is_Some (elem sel)
  | DICEY_TYPE_ERROR, InfoError _ => True
  | _, _ => False
  end.

(** The elements of a parsed list are a view strictly inside the [n] bytes consumed. *)
Definition info_within (n : Z) (i : data_info) : Prop :=
  match i with
  | InfoList _ _ v => exists sub tl, v = vw sub tl /\ zlen sub + 4 <= n
  | _ => True
  end.

Definition probed_as (type : dicey_type) (r : Z * data_info) (a : list Z) : Prop :=
  r.1 = zlen a /\ info_matches type r.2 /\ info_within (zlen a) r.2 /\
  (type <> DICEY_TYPE_UNIT -> 0 < zlen a).

Lemma reads_bind {A B} (m : vst A) (k : A -> vst B) bs tl Q R :
  reads_at m bs tl Q ->
  (forall x a b, bs = a ++ b -> Q x a -> reads_at (k x) b tl (fun y c => R y (a ++ c))) ->
  reads_at (sbind m k) bs tl R.
Proof.
  unfold reads_at, sbind. destruct (m (vw bs tl)) as [[x|e| |] v']; try done.
  intros (a & b & -> & -> & HQ) Hk. specialize (Hk x a b eq_refl HQ). revert Hk.
  destruct (k x (vw b tl)) as [[y|e| |] v'']; try done.
  - intros (c & d & -> & -> & HR). exists (a ++ c), d. by rewrite <- app_assoc.
  - intros (c & d & -> & ->). exists (a ++ c), d. by rewrite <- app_assoc.
Qed.

Lemma reads_ret {A} (x : A) bs tl (Q : A -> list Z -> Prop) : Q x [] -> reads_at (sret x) bs tl Q.
Proof. intros HQ. exists [], bs. done. Qed.

Lemma reads_fail {A} e bs tl (Q : A -> list Z -> Prop) : reads_at (sfail e) bs tl Q.
Proof. exists [], bs. done. Qed.

Lemma reads_overflow x y bs tl (Q : Z -> list Z -> Prop) :
  Q (x + y) [] -> reads_at (slift (or_overflow (ptrdiff_add x y))) bs tl Q.
Proof.
  intros HQ. unfold reads_at, slift.
  destruct (ptrdiff_add_cases x y) as [-> | ->]; exists [], bs; done.
Qed.

Lemma reads_read n bs tl :
  0 <= n -> reads_at (dicey_view_read_ptr local_ptr n) bs tl (fun x a => x = a /\ zlen a = n).
Proof.
  intros Hn. unfold reads_at, local_ptr.
  destruct (vw_read_cases bs tl 0 n Hn) as [(a & b & -> & Ha & ->)|(e & ->)]; [eauto 10|].
  exists [], bs. done.
Qed.

Lemma reads_take n bs tl :
  reads_at (dicey_view_take n) bs tl (fun x a => x.1 = zlen a /\ exists tl', x.2 = vw a tl').
Proof.
  destruct (Z.ltb_spec n 0) as [Hneg|Hn]; unfold reads_at.
  { unfold dicey_view_take. cbn [vw v_data]. zbool; [|lia..]. exists [], bs. done. }
  destruct (vw_take_cases bs tl n Hn) as [(a & b & -> & Ha & ->)|[_ ->]].
  - exists a, b. split_and!; eauto.
  - exists [], bs. done.
Qed.

Lemma reads_zstring bs tl :
  reads_at dicey_view_as_zstring bs tl
    (fun x a => a = cstr_mem x.2 /\ x.1 = zlen a /\ Forall (fun c => c <> 0) x.2).
Proof.
  unfold reads_at. destruct (vw_zstring_cases bs tl) as [(s & b & -> & Hs & ->)|(e & ->)].
  - exists (cstr_mem s), b. unfold cstr_mem. rewrite <- app_assoc. split_and!; auto.
    by autorewrite with zlen.
  - exists [], bs. done.
Qed.

Lemma reads_mono {A} (m : vst A) bs tl (Q R : A -> list Z -> Prop) :
  reads_at m bs tl Q -> (forall x a, Q x a -> R x a) -> reads_at m bs tl R.
Proof.
  unfold reads_at. destruct (m (vw bs tl)) as [[] ?]; try done.
  intros (x & y & ? & ? & ?) HR. eauto 10.
Qed.

Lemma reads_assert b bs tl (Q : unit -> list Z -> Prop) :
  b = true -> Q tt [] -> reads_at (sassert b) bs tl Q.
Proof. intros -> HQ. by apply reads_ret. Qed.

(** ** Probing is safe *)

Lemma reads_list_content hd t n nbytes bs tl (a : list Z) :
  zlen a = hd -> 4 <= hd ->
  reads_at
    (do! (content_read_res, elems) <- list_probe nbytes;
     do! read_bytes <- slift (or_overflow (ptrdiff_add hd content_read_res));
     sret (read_bytes, InfoList t n elems)) bs tl
    (fun r b => r.1 = zlen (a ++ b) /\ (exists v, r.2 = InfoList t n v) /\
                info_within (zlen (a ++ b)) r.2).
Proof.
  intros Ha Hhd. eapply reads_bind; [apply reads_take|].
  intros [k v] c d _ (Hk & tl' & Hv). cbn [fst snd] in *. subst k v.
  eapply reads_bind; [eapply (reads_overflow _ _ _ _ (fun r e => r = hd + zlen c /\ e = [])); done|].
  intros r e f _ [-> ->]. apply reads_ret. cbn [fst snd].
  rewrite !app_nil_r, zlen_app, Ha. split_and!; [done|eauto|].
  exists c, tl'. split; [done|lia].
Qed.

(** A fixed-size header, decoded by [f]. *)
Lemma reads_header {A} n (f : list Z -> A) bs tl :
  0 <= n -> reads_at (do! hd <- dicey_view_read_ptr local_ptr n; sret (f hd)) bs tl (fun _ a => zlen a = n).
Proof.
  intros Hn. eapply reads_bind; [by apply reads_read|].
  intros x a b _ [-> Ha]. apply reads_ret. by rewrite app_nil_r.
Qed.

Lemma reads_array_header bs tl :
  reads_at array_header_read bs tl
    (fun h a => zlen a = 7 /\ dicey_type_is_valid (type_of_code h.2) = true).
Proof.
  eapply reads_bind; [by apply reads_read|]. intros x a b _ [-> Ha]. cbv zeta.
  destruct (dicey_type_is_valid _) eqn:Hv; [|apply reads_fail].
  apply reads_ret. rewrite app_nil_r. done.
Qed.

Lemma probed_list type hd t n r (a c : list Z) :
  zlen a = hd -> 0 < hd ->
  r.1 = zlen (a ++ c) /\ (exists v, r.2 = InfoList t n v) /\ info_within (zlen (a ++ c)) r.2 ->
  (forall v, info_matches type (InfoList t n v)) -> probed_as type r (a ++ c).
Proof.
  intros Ha Hhd (Hr & (v & Hi) & Hw) Hm. pose proof (zlen_nonneg c). unfold probed_as.
  rewrite Hi in *. split; [done|]. split; [done|]. split; [done|]. rewrite zlen_app. lia.
Qed.

Lemma reads_array bs tl : reads_at array_probe bs tl (probed_as DICEY_TYPE_ARRAY).
Proof.
  eapply reads_bind; [apply reads_array_header|].
  intros [[nbytes nitems] type] a b _ [Ha Hv]. cbn [snd] in Hv.
  eapply reads_mono; [apply (reads_list_content 7 type nitems nbytes b tl a Ha); lia|].
  intros r c H. eapply probed_list; [exact Ha|lia|exact H|done].
Qed.

Lemma reads_tuple bs tl : reads_at tuple_probe bs tl (probed_as DICEY_TYPE_TUPLE).
Proof.
  eapply reads_bind; [by apply reads_header|].
  intros [nbytes nitems] a b _ Ha.
  eapply reads_mono; [apply (reads_list_content 6 DICEY_VARIANT_ID nitems nbytes b tl a Ha); lia|].
  intros r c H. eapply probed_list; [exact Ha|lia|exact H|done].
Qed.

Lemma reads_pair bs tl : reads_at pair_probe bs tl (probed_as DICEY_TYPE_PAIR).
Proof.
  eapply reads_bind; [by apply reads_header|].
  intros nbytes a b _ Ha.
  eapply reads_mono; [apply (reads_list_content 4 DICEY_VARIANT_ID 2 nbytes b tl a Ha); lia|].
  intros r c H. eapply probed_list; [exact Ha|lia|exact H|done].
Qed.

Lemma reads_bytes bs tl : reads_at bytes_probe bs tl (probed_as DICEY_TYPE_BYTES).
Proof.
  eapply reads_bind; [by apply reads_header|].
  intros len a b _ Ha. unfold sbind at 1, sget, reads_at. cbn [v_len vw v_data fmap option_fmap option_map].
  fold (vw b tl). fold (@reads_at (Z * data_info)).
  destruct (Z.ltb_spec (zlen b) len); [exists [], b; done|].
  destruct (Z.ltb_spec len 0).
  { unfold sbind at 1, dicey_view_advance. cbn [vw v_data v_len]. zbool; [|lia..]. exists [], b. done. }
  destruct (zsplit len b ltac:(lia)) as (c & d & -> & <-).
  rewrite (sbind_Ok _ _ _ _ _ (vw_advance c d tl)).
  unfold sbind, slift. destruct (ptrdiff_add_cases 4 (zlen c)) as [-> | ->].
  - exists c, d. split_and!; [done|done|]. unfold probed_as. cbn [fst snd info_within].
    rewrite zlen_app, Ha, <- app_assoc, ztake_app_eq by done. split_and!; (done || lia).
  - exists c, d. done.
Qed.

Lemma reads_error bs tl : reads_at error_probe bs tl (probed_as DICEY_TYPE_ERROR).
Proof.
  eapply reads_bind; [by apply reads_header|].
  intros code a b _ Ha. eapply reads_bind; [apply reads_zstring|].
  intros [k s] c d _ (-> & Hk & _). cbn [fst snd] in *. pose proof (zlen_nonneg s).
  rewrite zlen_cstr_mem in Hk.
  eapply reads_bind; [apply (reads_assert _ _ _ (fun _ e => e = [])); [by zbool; lia|done]|].
  intros _ e f _ ->. eapply reads_bind; [eapply (reads_overflow _ _ _ _ (fun r e => r = 2 + k /\ e = [])); done|].
  intros r g h _ [-> ->]. apply reads_ret. unfold probed_as. cbn [fst].
  rewrite !app_nil_r, zlen_app, zlen_cstr_mem. split_and!; (done || lia).
Qed.

Lemma reads_selector bs tl :
  reads_at dtf_selector_from bs tl
    (fun x a => x.1 = zlen a /\ 0 < zlen a /\ is_Some (trait x.2) /\ is_Some (elem x.2)).
Proof.
  unfold dtf_selector_from, reads_at, sbind at 1, sget. fold (@reads_at (Z * dicey_selector)).
  eapply reads_bind; [by apply (reads_assert _ _ _ (fun _ e => e = []))|].
  intros _ e b -> ->. eapply reads_bind; [apply reads_zstring|].
  intros [n1 s1] a1 b1 _ (-> & Hn1 & _). eapply reads_bind; [apply reads_zstring|].
  intros [n2 s2] a2 b2 _ (-> & Hn2 & _). cbn [fst snd] in *.
  eapply reads_bind; [eapply (reads_overflow _ _ _ _ (fun r e => r = n1 + n2 /\ e = [])); done|].
  intros r g h _ [-> ->]. apply reads_ret. cbn [fst snd app]. rewrite !app_nil_r, zlen_app, Hn1, Hn2, !zlen_cstr_mem.
  pose proof (zlen_nonneg s1). pose proof (zlen_nonneg s2). split_and!; (done || lia).
Qed.

Lemma probed_zstring type n s :
  type = DICEY_TYPE_STR \/ type = DICEY_TYPE_PATH -> n = zlen (cstr_mem s) ->
  probed_as type (n, InfoStr (Some s)) (cstr_mem s).
Proof.
  intros Ht ->. pose proof (zlen_nonneg s). unfold probed_as. cbn [fst snd]. rewrite zlen_cstr_mem.
  split_and!; [done|by destruct Ht; subst|done|lia].
Qed.

Lemma reads_dynamic type bs tl :
  type_size type = Ok DTF_SIZE_DYNAMIC -> reads_at (value_probe_dynamic type) bs tl (probed_as type).
Proof.
  intros Ht. destruct type; try discriminate Ht; cbn [value_probe_dynamic value_probe_container].
  - apply reads_array.
  - apply reads_tuple.
  - apply reads_pair.
  - apply reads_bytes.
  - eapply reads_bind; [apply reads_zstring|]. intros [n s] a b _ (-> & Hn & _).
    apply reads_ret. rewrite app_nil_r. apply probed_zstring; auto.
  - eapply reads_bind; [apply reads_zstring|]. intros [n s] a b _ (-> & Hn & _).
    apply reads_ret. rewrite app_nil_r. apply probed_zstring; auto.
  - eapply reads_bind; [apply reads_selector|]. intros [n s] a b _ (Hn & Hpos & Hs).
    apply reads_ret. rewrite app_nil_r. by split_and!.
  - apply reads_error.
Qed.

Lemma scalar_matches type size bs :
  type_size type = Ok size -> size <> DTF_SIZE_DYNAMIC ->
  info_matches type (scalar_of_bytes type bs) /\ info_within size (scalar_of_bytes type bs) /\
  (type <> DICEY_TYPE_UNIT -> 0 < size).
Proof. destruct type; intros [= <-]; cbn; done. Qed.

Lemma reads_probe_as type bs tl : reads_at (dtf_value_probe_as type) bs tl (probed_as type).
Proof.
  unfold dtf_value_probe_as. destruct (dicey_type_is_valid type) eqn:Hv; [|apply reads_fail].
  cbn [negb]. destruct (type_size type) as [size| | |] eqn:Hs; [|by destruct type..].
  destruct (Z.eqb_spec size DTF_SIZE_DYNAMIC) as [->|Hne]; [by apply reads_dynamic|].
  eapply reads_bind; [apply reads_read; by destruct type; simplify_eq/=|].
  intros x a b _ [-> <-]. apply reads_ret. rewrite app_nil_r.
  split; [done|]. by apply scalar_matches.
Qed.

(** What probing a value guarantees: the bytes consumed are those reported, and the union
    member stored is the one of the value's type. *)
Definition probed (r : Z * dicey_value) (a : list Z) : Prop :=
  r.1 = zlen a /\ 1 <= zlen a /\ dicey_type_is_valid (val_type r.2) = true /\
  info_matches (val_type r.2) (val_data r.2) /\ info_within (zlen a - 1) (val_data r.2).

Lemma reads_value_header bs tl :
  reads_at value_header_read bs tl
    (fun h a => zlen a = 1 /\ h.1 = 1 /\ dicey_type_is_valid h.2 = true).
Proof.
  eapply reads_bind; [by apply reads_read|]. intros x a b _ [-> Ha]. cbv zeta.
  destruct (dicey_type_is_valid _) eqn:Hv; [|apply reads_fail].
  apply reads_ret. rewrite app_nil_r. done.
Qed.

Lemma reads_probe bs tl : reads_at dtf_value_probe bs tl probed.
Proof.
  eapply reads_bind; [apply reads_value_header|].
  intros [h type] a b _ (Ha & Hh & Hv). cbn [fst snd] in *. subst h.
  eapply reads_bind; [apply reads_probe_as|].
  intros [n i] c d _ (Hn & Hm & Hw & _). cbn [fst snd] in *. subst n.
  eapply reads_bind; [eapply (reads_overflow _ _ _ _ (fun r e => r = 1 + zlen c /\ e = [])); done|].
  intros r g h _ [-> ->]. apply reads_ret. unfold probed. cbn [fst snd val_type val_data].
  rewrite !app_nil_r, zlen_app, Ha. pose proof (zlen_nonneg c). split_and!; [done|lia|done..|].
  by replace (1 + zlen c - 1) with (zlen c) by lia.
Qed.

(** ** Properties *)

(** C8: probing is memory safe on every input: whatever the bytes of the view are, nothing
    outside the view is read, no assertion fails, the view is only ever moved forward inside
    itself, and when a value is returned the number reported is the number of bytes consumed
    and the union member stored is the one of the value's type. *)
Theorem dtf_value_probe_safe bs tl :
  match dtf_value_probe (vw bs tl) with
  | (Ok (n, v), view) =>
      exists a b, bs = a ++ b /\ view = vw b tl /\ n = zlen a /\ 1 <= n /\
      dicey_type_is_valid (val_type v) = true /\ info_matches (val_type v) (val_data v)
  | (Err _, view) => exists a b, bs = a ++ b /\ view = vw b tl
  | (Fault _, _) | (OutOfFuel, _) => False
  end.
Proof.
  pose proof (reads_probe bs tl) as H. unfold reads_at in H.
  destruct (dtf_value_probe (vw bs tl)) as [[[n v]|e|f|] view]; try done.
  destruct H as (a & b & -> & -> & Hn & H1 & Hv & Hm & _). cbn [fst snd] in *. subst n. eauto 10.
Qed.
