(* ===== verification/Value.v ===== *)
(** * Parsed values, lists and selectors (src/wirefmt/value.c, src/wirefmt/message.c)

    The accessors of [dicey_value], the iterators that walk the unparsed elements of arrays,
    tuples and pairs, the comparison and size of selectors, and the element tests on messages. *)

From stdpp Require Import strings.
From S2P Require Import Prelude Errors Types Views Writer ValueWrite ValueProbe.

(** ** Iterators and lists *)

Record dicey_iterator : Type := mk_iter { it_type : Z; it_data : dicey_view }.
Record dicey_list : Type := mk_list { list_type : Z; list_data : dicey_view }.
Record dicey_pair : Type := mk_pair { first : dicey_value; second : dicey_value }.

Definition dicey_iterator_has_next (iter : dicey_iterator) : bool := 0 <? v_len (it_data iter).

(** The view is copied first: an error leaves the iterator where it was. *)
Definition dicey_iterator_next : stm dicey_iterator dicey_error dicey_value := fun iter =>
  if negb (dicey_iterator_has_next iter) then (Err DICEY_ENODATA, iter) else
  let '(r, view) :=
    (if it_type iter =? DICEY_VARIANT_ID then
       do! (_, value) <- dtf_value_probe; sret value
     else
       do! (_, data) <- dtf_value_probe_as (type_of_code (it_type iter));
       sret (mk_value (type_of_code (it_type iter)) data)) (it_data iter) in
  match r with
  | Ok value => (Ok value, mk_iter (it_type iter) view)
  | Err e => (Err e, iter)
  | Fault f => (Fault f, iter)
  | OutOfFuel => (OutOfFuel, iter)
  end.

Definition dicey_list_iter (list : dicey_list) : dicey_iterator :=
  mk_iter (list_type list) (list_data list).

Definition dicey_list_type (list : dicey_list) : Z := list_type list.

(** ** Accessors *)

(** [value] may be NULL here. *)
Definition dicey_value_get_type (value : option dicey_value) : dicey_type :=
  match value with Some v => val_type v | None => DICEY_TYPE_INVALID end.

(** [DICEY_VALUE_GET_IMPL_TRIVIAL]: checks the type, then reads the union member [field]. *)
Definition get_trivial {A} (type : dicey_type) (field : data_info -> option A) (value : dicey_value) : res A :=
  if bool_decide (dicey_value_get_type (Some value) = type) then
    match field (val_data value) with Some x => Ok x | None => Fault WrongMember end
  else Err DICEY_EVALUE_TYPE_MISMATCH.

(** The conversion to C's [bool]: any non-zero byte is true. *)
Definition dicey_value_get_bool : dicey_value -> res bool :=
  get_trivial DICEY_TYPE_BOOL (fun i => match i with InfoBool b => Some (negb (b =? 0)) | _ => None end).
Definition dicey_value_get_byte : dicey_value -> res Z :=
  get_trivial DICEY_TYPE_BYTE (fun i => match i with InfoByte b => Some b | _ => None end).
Definition dicey_value_get_error : dicey_value -> res dicey_errmsg :=
  get_trivial DICEY_TYPE_ERROR (fun i => match i with InfoError e => Some e | _ => None end).
Definition dicey_value_get_float : dicey_value -> res Z :=
  get_trivial DICEY_TYPE_FLOAT (fun i => match i with InfoFloat f => Some f | _ => None end).
Definition dicey_value_get_i16 : dicey_value -> res Z :=
  get_trivial DICEY_TYPE_INT16 (fun i => match i with InfoI16 x => Some x | _ => None end).
Definition dicey_value_get_i32 : dicey_value -> res Z :=
  get_trivial DICEY_TYPE_INT32 (fun i => match i with InfoI32 x => Some x | _ => None end).
Definition dicey_value_get_i64 : dicey_value -> res Z :=
  get_trivial DICEY_TYPE_INT64 (fun i => match i with InfoI64 x => Some x | _ => None end).
Definition dicey_value_get_u16 : dicey_value -> res Z :=
  get_trivial DICEY_TYPE_UINT16 (fun i => match i with InfoU16 x => Some x | _ => None end).
Definition dicey_value_get_u32 : dicey_value -> res Z :=
  get_trivial DICEY_TYPE_UINT32 (fun i => match i with InfoU32 x => Some x | _ => None end).
Definition dicey_value_get_u64 : dicey_value -> res Z :=
  get_trivial DICEY_TYPE_UINT64 (fun i => match i with InfoU64 x => Some x | _ => None end).
Definition dicey_value_get_path : dicey_value -> res (option cstr) :=
  get_trivial DICEY_TYPE_PATH (fun i => match i with InfoStr s => Some s | _ => None end).
Definition dicey_value_get_str : dicey_value -> res (option cstr) :=
  get_trivial DICEY_TYPE_STR (fun i => match i with InfoStr s => Some s | _ => None end).
Definition dicey_value_get_selector : dicey_value -> res dicey_selector :=
  get_trivial DICEY_TYPE_SELECTOR (fun i => match i with InfoSelector s => Some s | _ => None end).
Definition dicey_value_get_uuid : dicey_value -> res (list Z) :=
  get_trivial DICEY_TYPE_UUID (fun i => match i with InfoUuid u => Some u | _ => None end).

Definition dicey_value_get_bytes : dicey_value -> res (option (list Z) * Z) :=
  get_trivial DICEY_TYPE_BYTES (fun i => match i with InfoBytes len d => Some (d, len) | _ => None end).

(** The member shared by arrays, tuples and pairs. *)
Definition list_field (i : data_info) : res dicey_list :=
  match i with InfoList t _ v => Ok (mk_list t v) | _ => Fault WrongMember end.

Definition dicey_value_get_list (value : dicey_value) : res dicey_list :=
  match dicey_value_get_type (Some value) with
  | DICEY_TYPE_ARRAY | DICEY_TYPE_TUPLE => list_field (val_data value)
  | _ => Err DICEY_EVALUE_TYPE_MISMATCH
  end.

Definition dicey_value_get_array (value : dicey_value) : res dicey_list :=
  match dicey_value_get_type (Some value) with
  | DICEY_TYPE_ARRAY => dicey_value_get_list value
  | _ => Err DICEY_EVALUE_TYPE_MISMATCH
  end.

Definition dicey_value_get_tuple (value : dicey_value) : res dicey_list :=
  match dicey_value_get_type (Some value) with
  | DICEY_TYPE_TUPLE => dicey_value_get_list value
  | _ => Err DICEY_EVALUE_TYPE_MISMATCH
  end.

(** One element of the pair: any error becomes [EBADMSG]. *)
Definition pair_item : stm dicey_iterator dicey_error dicey_value := fun iter =>
  let '(r, iter') := dicey_iterator_next iter in
  match r with Err _ => (Err DICEY_EBADMSG, iter') | _ => (r, iter') end.

Definition dicey_value_get_pair (value : dicey_value) : res dicey_pair :=
  match dicey_value_get_type (Some value) with
  | DICEY_TYPE_PAIR =>
      let! list := list_field (val_data value) in
      let tuple := mk_list DICEY_VARIANT_ID (list_data list) in
      ((do! x <- pair_item; do! y <- pair_item; sret (mk_pair x y)) (dicey_list_iter tuple)).1
  | _ => Err DICEY_EVALUE_TYPE_MISMATCH
  end.

Definition dicey_value_is (value : dicey_value) (type : dicey_type) : bool :=
  bool_decide (val_type value = type).

Definition dicey_value_is_unit (value : dicey_value) : bool := dicey_value_is value DICEY_TYPE_UNIT.

Definition dicey_value_is_valid (value : dicey_value) : bool := dicey_type_is_valid (val_type value).

(** ** Selectors *)

(** [strcmp], up to the sign of its result; characters compare as [unsigned char]. *)
Fixpoint strcmp (a b : cstr) : Z :=
  match a, b with
  | [], [] => 0
  | [], _ :: _ => -1
  | _ :: _, [] => 1
  | x :: a', y :: b' => if x <? y then -1 else if y <? x then 1 else strcmp a' b'
  end.

(** [strcmp] on pointers: NULL is undefined behaviour. *)
Definition strcmp_ptr (a b : option cstr) : res Z :=
  match a, b with Some a, Some b => Ok (strcmp a b) | _, _ => Fault NullDeref end.

Definition dicey_selector_cmp (a b : dicey_selector) : res Z :=
  let! r := strcmp_ptr (trait a) (trait b) in
  if r =? 0 then strcmp_ptr (elem a) (elem b) else Ok r.

Definition dicey_selector_is_valid (selector : dicey_selector) : bool :=
  bool_decide (is_Some (trait selector)) && bool_decide (is_Some (elem selector)).

Definition dicey_selector_size (selector : dicey_selector) : res Z :=
  let! trait_len := dutl_zstring_size (trait selector) in
  let! elem_len := dutl_zstring_size (elem selector) in
  let! _ := or_overflow (ptrdiff_add trait_len elem_len) in
  Ok (trait_len + elem_len).

(** ** Messages *)

(** [DICEY_OP_UNKNOWN] is an integer that is none of the enumerators. *)
Inductive dicey_op : Type :=
  | DICEY_OP_INVALID
  | DICEY_OP_GET
  | DICEY_OP_SET
  | DICEY_OP_EXEC
  | DICEY_OP_SIGNAL
  | DICEY_OP_RESPONSE
  | DICEY_OP_UNKNOWN (code : Z).

#[export] Instance dicey_op_eq_dec : EqDecision dicey_op.
Proof. solve_decision. Defined.

Record dicey_message : Type := mk_message {
  msg_type : dicey_op; msg_path : option cstr; msg_selector : dicey_selector; msg_value : dicey_value;
}.

Definition ptr_eq_str (a : option cstr) (b : cstr) : res bool :=
  match a with Some a => Ok (strcmp a b =? 0) | None => Fault NullDeref end.

(** [a && b] with a second operand that may fault. *)
Definition and_then (a b : res bool) : res bool := let! x := a in if x then b else Ok false.

Definition dicey_message_matches_element (msg : option dicey_message) (path trait' elem' : option cstr) : res bool :=
  match msg, path, trait', elem' with
  | Some msg, Some path, Some t, Some e =>
      and_then (ptr_eq_str (msg_path msg) path)
        (and_then (ptr_eq_str (trait (msg_selector msg)) t) (ptr_eq_str (elem (msg_selector msg)) e))
  | _, _, _, _ => Ok false
  end.

(** [!strncmp(s, prefix, strlen(prefix))] *)
Definition has_prefix (s prefix : cstr) : bool := bool_decide (take (length prefix) s = prefix).

Definition dicey_message_matches_element_under_root (msg : dicey_message) (root t e : cstr) : res bool :=
  match msg_path msg with
  | None => Fault NullDeref
  | Some path =>
      and_then (Ok (has_prefix path root))
        (and_then (ptr_eq_str (trait (msg_selector msg)) t) (ptr_eq_str (elem (msg_selector msg)) e))
  end.

(** ** Values as probing produces them *)

(** A parsed value whose unparsed part, if any, spans less than [n] bytes. *)
Definition value_ok (n : Z) (v : dicey_value) : Prop :=
  dicey_type_is_valid (val_type v) = true /\ info_matches (val_type v) (val_data v) /\
  info_within n (val_data v).

Lemma info_within_mono n m i : info_within n i -> n <= m -> info_within m i.
Proof. destruct i; try done. intros (sub & tl & -> & Hl) Hm. exists sub, tl. split; [done|lia]. Qed.

Lemma value_ok_mono n m v : value_ok n v -> n <= m -> value_ok m v.
Proof. intros (? & ? & ?) ?. split_and!; auto. by eapply info_within_mono. Qed.

(** One step of an iterator over [bs]: it yields a value spanning the bytes it moves past, or
    reports an error and stays where it is. It never faults. *)
Lemma iterator_next_cases t bs tl :
  (exists v a b, bs = a ++ b /\ dicey_iterator_next (mk_iter t (vw bs tl)) = (Ok v, mk_iter t (vw b tl)) /\
     value_ok (zlen a) v /\ (t <> DICEY_VARIANT_ID -> val_type v = type_of_code t) /\
     (type_of_code t <> DICEY_TYPE_UNIT -> 0 < zlen a)) \/
  (exists e, dicey_iterator_next (mk_iter t (vw bs tl)) = (Err e, mk_iter t (vw bs tl))).
Proof.
  unfold dicey_iterator_next.
  destruct (dicey_iterator_has_next _); cbn [negb it_type it_data]; [|by right; eexists].
  destruct (Z.eqb_spec t DICEY_VARIANT_ID) as [->|Hne].
  - pose proof (reads_probe bs tl) as H. unfold reads_at in H. unfold sbind.
    destruct (dtf_value_probe (vw bs tl)) as [[[n v]|e| |] v']; try done; [|by right; eexists].
    destruct H as (a & b & -> & -> & _ & Hl & Hv & Hm & Hw). left. exists v, a, b. cbn [snd] in *.
    split_and!; [done..| |done|lia].
    split_and!; auto. eapply info_within_mono; [done|lia].
  - pose proof (reads_probe_as (type_of_code t) bs tl) as H. unfold reads_at in H. unfold sbind.
    destruct (dtf_value_probe_as (type_of_code t) (vw bs tl)) as [[[n i]|e| |] v'] eqn:E; try done;
      [|by right; eexists].
    destruct H as (a & b & -> & -> & _ & Hm & Hw & Hpos). left. exists (mk_value (type_of_code t) i), a, b.
    cbn [snd] in *. split_and!; [done..| |done|done].
    split_and!; auto. cbn. unfold dtf_value_probe_as in E. by destruct (dicey_type_is_valid _).
Qed.

Lemma pair_item_cases bs tl :
  (exists v a b, bs = a ++ b /\ pair_item (mk_iter DICEY_VARIANT_ID (vw bs tl)) =
     (Ok v, mk_iter DICEY_VARIANT_ID (vw b tl)) /\ value_ok (zlen a) v /\ 0 < zlen a) \/
  pair_item (mk_iter DICEY_VARIANT_ID (vw bs tl)) =
     (Err DICEY_EBADMSG, mk_iter DICEY_VARIANT_ID (vw bs tl)).
Proof.
  unfold pair_item.
  destruct (iterator_next_cases DICEY_VARIANT_ID bs tl) as [(v & a & b & -> & -> & Hv & _ & Hl)|(e & ->)].
  - left. exists v, a, b. auto.
  - by right.
Qed.

(** The two halves of a pair: both well-formed and strictly smaller than the pair, or [EBADMSG]. *)
Lemma get_pair_cases n v :
  value_ok n v -> val_type v = DICEY_TYPE_PAIR ->
  (exists x y, dicey_value_get_pair v = Ok (mk_pair x y) /\ value_ok (n - 4) x /\ value_ok (n - 4) y) \/
  dicey_value_get_pair v = Err DICEY_EBADMSG.
Proof.
  destruct v as [t i]. intros (_ & Hm & Hw) Ht. cbn [val_type val_data] in *. subst t.
  destruct i; try done. destruct Hw as (sub & tl & -> & Hl).
  unfold dicey_value_get_pair, dicey_list_iter. cbn [dicey_value_get_type val_type val_data list_field obind list_data list_type].
  destruct (pair_item_cases sub tl) as [(x & a & b & -> & E & Hx & Ha)|E]; [|right; by rewrite (sbind_Err _ _ _ _ _ E)].
  rewrite (sbind_Ok _ _ _ _ _ E). rewrite zlen_app in Hl. pose proof (zlen_nonneg b).
  destruct (pair_item_cases b tl) as [(y & c & d & -> & E' & Hy & Hc)|E']; [|right; by rewrite (sbind_Err _ _ _ _ _ E')].
  rewrite (sbind_Ok _ _ _ _ _ E'). rewrite zlen_app in Hl. pose proof (zlen_nonneg d).
  left. exists x, y. split_and!; [done|eapply value_ok_mono; [done|lia]..].
Qed.

Lemma get_list_ok n v :
  value_ok n v -> val_type v = DICEY_TYPE_ARRAY \/ val_type v = DICEY_TYPE_TUPLE ->
  exists t sub tl, dicey_value_get_list v = Ok (mk_list t (vw sub tl)) /\ zlen sub + 4 <= n.
Proof.
  destruct v as [t i]. intros (_ & Hm & Hw) Ht. cbn [val_type val_data] in *.
  assert (exists ti k v, i = InfoList ti k v) as (ti & k & v & ->).
  { destruct Ht; subst t; destruct i; try done; eauto. }
  destruct Hw as (sub & tl & -> & Hl). exists ti, sub, tl. split; [|done].
  destruct Ht; subst t; done.
Qed.

(** ** Properties *)

(** C34: accessors are type safe on every value that probing produces: none of them reads a
    union member other than the one stored, and each succeeds exactly on its own type. *)
Theorem accessors_type_safe n v :
  value_ok n v ->
  no_fault (dicey_value_get_bool v) /\ no_fault (dicey_value_get_byte v) /\
  no_fault (dicey_value_get_float v) /\ no_fault (dicey_value_get_i16 v) /\
  no_fault (dicey_value_get_i32 v) /\ no_fault (dicey_value_get_i64 v) /\
  no_fault (dicey_value_get_u16 v) /\ no_fault (dicey_value_get_u32 v) /\
  no_fault (dicey_value_get_u64 v) /\ no_fault (dicey_value_get_bytes v) /\
  no_fault (dicey_value_get_str v) /\ no_fault (dicey_value_get_path v) /\
  no_fault (dicey_value_get_uuid v) /\ no_fault (dicey_value_get_selector v) /\
  no_fault (dicey_value_get_error v) /\ no_fault (dicey_value_get_array v) /\
  no_fault (dicey_value_get_tuple v) /\ no_fault (dicey_value_get_list v) /\
  no_fault (dicey_value_get_pair v).
Proof.
  intros Hv. assert (no_fault (dicey_value_get_pair v)) as Hp.
  { destruct (decide (val_type v = DICEY_TYPE_PAIR)) as [Ht|Ht].
    - destruct (get_pair_cases n v Hv Ht) as [(x & y & -> & _)|E]; [done|by rewrite E].
    - unfold dicey_value_get_pair; cbn. by destruct (val_type v). }
  destruct v as [t i]. destruct Hv as (Ht & Hm & _). cbn [val_type val_data] in *.
  destruct t; try done; destruct i as [| | | | | | | | | |ti ni vi|len [d|]|[s|]| | |]; try done.
Qed.

(** [strcmp] decides equality and is antisymmetric and transitive. *)
Lemma strcmp_eq a b : strcmp a b = 0 <-> a = b.
Proof.
  revert b. induction a as [|x a IH]; intros [|y b]; cbn; try (split; (done || discriminate)).
  zbool; split; intros H'; try discriminate H'; simplify_eq; try lia.
  - apply IH in H'. f_equal; [lia|done].
  - by apply IH.
Qed.

Lemma strcmp_opp a b : strcmp b a = - strcmp a b.
Proof.
  revert b. induction a as [|x a IH]; intros [|y b]; cbn; try done.
  zbool; try lia. by apply IH.
Qed.

Lemma strcmp_trans a b c : strcmp a b < 0 -> strcmp b c < 0 -> strcmp a c < 0.
Proof.
  revert b c. induction a as [|x a IH]; intros [|y b] [|z c]; cbn; try lia.
  zbool; try lia. intros. by eapply IH.
Qed.

Lemma strcmp_refl a : strcmp a a = 0.
Proof. by apply strcmp_eq. Qed.

(** On valid selectors [dicey_selector_cmp] is a strict total order: zero exactly on equal
    selectors, antisymmetric, transitive, and it compares the trait before the element. *)
Theorem dicey_selector_cmp_total_order t1 e1 t2 e2 t3 e3 :
  let sel t e := mk_selector (Some t) (Some e) in
  let lt a b := exists r, dicey_selector_cmp a b = Ok r /\ r < 0 in
  (exists r, dicey_selector_cmp (sel t1 e1) (sel t2 e2) = Ok r /\ (r = 0 <-> sel t1 e1 = sel t2 e2) /\
             dicey_selector_cmp (sel t2 e2) (sel t1 e1) = Ok (- r)) /\
  (lt (sel t1 e1) (sel t2 e2) -> lt (sel t2 e2) (sel t3 e3) -> lt (sel t1 e1) (sel t3 e3)) /\
  (strcmp t1 t2 < 0 -> lt (sel t1 e1) (sel t2 e2)).
Proof.
  cbv zeta. unfold dicey_selector_cmp, strcmp_ptr. cbn [trait elem obind].
  split_and!.
  - rewrite (strcmp_opp t1 t2), (strcmp_opp e1 e2).
    destruct (Z.eqb_spec (strcmp t1 t2) 0) as [E|E].
    + rewrite E. cbn. eexists. split_and!; [done| |done].
      apply strcmp_eq in E as ->. rewrite strcmp_eq. naive_solver.
    + zbool; [lia|]. eexists. split_and!; [done| |done].
      rewrite strcmp_eq in *. naive_solver.
  - intros (r & H1 & Hr) (r' & H2 & Hr').
    destruct (Z.eqb_spec (strcmp t1 t2) 0) as [E1|E1]; destruct (Z.eqb_spec (strcmp t2 t3) 0) as [E2|E2];
      simplify_eq; try apply strcmp_eq in E1 as ->; try apply strcmp_eq in E2 as ->;
      rewrite ?strcmp_refl; cbn.
    + eexists. split; [done|]. by eapply strcmp_trans.
    + zbool; [lia|]. eauto.
    + zbool; [lia|]. eauto.
    + pose proof (strcmp_trans _ _ _ Hr Hr'). zbool; [lia|]. eauto.
  - intros H. zbool; [lia|]. eauto.
Qed.

Lemma accessors_type_safe_witness :
  no_fault (dicey_value_get_pair (mk_value DICEY_TYPE_PAIR (InfoList DICEY_VARIANT_ID 2 (vw [36; 98; 1] [])))).
Proof.
  apply (accessors_type_safe 7 (mk_value DICEY_TYPE_PAIR (InfoList DICEY_VARIANT_ID 2 (vw [36; 98; 1] [])))).
  split; [reflexivity|]. split; [split; reflexivity|].
  exists [36; 98; 1], []. split; [reflexivity|]. vm_compute. discriminate.
Defined.
