(* ===== verification/Codec.v ===== *)
(** * Encoding and decoding agree

    Relates the encoder (ValueWrite) with the decoder (ValueProbe, Value): [denotes] says when a
    parsed value, explored through the accessors and iterators of the library, is the argument
    that was encoded, and [probe_encoded] shows that probing the reference layout yields such a
    value, with any bytes following. *)

From S2P Require Import Prelude Errors Types Views Writer ValueWrite ValueProbe Value.

(** ** Representable arguments *)

Definition in_unsigned (w x : Z) : Prop := 0 <= x < 2 ^ w.
Definition in_signed (w x : Z) : Prop := - 2 ^ (w - 1) <= x < 2 ^ (w - 1).

Definition cstr_small (s : cstr) : Prop := cstr_ok s /\ zlen s < UINT32_MAX.

(** Arguments as the C types hold them: integers in range, strings without inner NUL, elements
    of an array of its declared type, at most [UINT16_MAX] elements. Arrays of units must be
    empty: their elements take no space, so iterators cannot see them. *)
Fixpoint arg_ok (a : dicey_arg) : Prop :=
  match a with
  | ArgInvalid _ => False
  | ArgUnit => True
  | ArgBool b | ArgByte b => in_unsigned 8 b
  | ArgFloat x | ArgU64 x => in_unsigned 64 x
  | ArgI16 x => in_signed 16 x
  | ArgI32 x => in_signed 32 x
  | ArgI64 x => in_signed 64 x
  | ArgU16 x => in_unsigned 16 x
  | ArgU32 x => in_unsigned 32 x
  | ArgArray t l =>
      dicey_type_is_valid t = true /\ (t = DICEY_TYPE_UNIT -> l = []) /\ zlen l <= UINT16_MAX /\
      Forall (fun x => arg_type x = t) l /\ foldr (fun x P => arg_ok x /\ P) True l
  | ArgTuple l => zlen l <= UINT16_MAX /\ foldr (fun x P => arg_ok x /\ P) True l
  | ArgPair x y => arg_ok x /\ arg_ok y
  | ArgBytes len data => exists d, data = Some d /\ len = zlen d /\ bytes_ok d
  | ArgStr s => cstr_small (default [] s)
  | ArgUuid bs => zlen bs = DICEY_UUID_SIZE /\ bytes_ok bs
  | ArgPath s => exists s', s = Some s' /\ cstr_small s'
  | ArgSelector sel => exists t e, sel = mk_selector (Some t) (Some e) /\ cstr_small t /\ cstr_small e
  | ArgError e => in_signed 16 (err_code e) /\ cstr_small (default [] (err_message e))
  end.

Lemma arg_ok_list l : foldr (fun x P => arg_ok x /\ P) True l <-> Forall arg_ok l.
Proof.
  induction l as [|x l IH]; cbn; [split; [constructor|done]|].
  rewrite IH. split; [intros []; by constructor|by inversion 1].
Qed.

(** ** What a parsed value denotes *)

(** The message of an error is dropped when it is empty. *)
Definition errmsg_norm (m : option cstr) : option cstr :=
  match default [] m with [] => None | s => Some s end.

Inductive denotes : dicey_value -> dicey_arg -> Prop :=
  | den_unit : denotes (mk_value DICEY_TYPE_UNIT InfoZero) ArgUnit
  | den_bool b : denotes (mk_value DICEY_TYPE_BOOL (InfoBool b)) (ArgBool b)
  | den_byte b : denotes (mk_value DICEY_TYPE_BYTE (InfoByte b)) (ArgByte b)
  | den_float x : denotes (mk_value DICEY_TYPE_FLOAT (InfoFloat x)) (ArgFloat x)
  | den_i16 x : denotes (mk_value DICEY_TYPE_INT16 (InfoI16 x)) (ArgI16 x)
  | den_i32 x : denotes (mk_value DICEY_TYPE_INT32 (InfoI32 x)) (ArgI32 x)
  | den_i64 x : denotes (mk_value DICEY_TYPE_INT64 (InfoI64 x)) (ArgI64 x)
  | den_u16 x : denotes (mk_value DICEY_TYPE_UINT16 (InfoU16 x)) (ArgU16 x)
  | den_u32 x : denotes (mk_value DICEY_TYPE_UINT32 (InfoU32 x)) (ArgU32 x)
  | den_u64 x : denotes (mk_value DICEY_TYPE_UINT64 (InfoU64 x)) (ArgU64 x)
  | den_bytes d : denotes (mk_value DICEY_TYPE_BYTES (InfoBytes (zlen d) (Some d))) (ArgBytes (zlen d) (Some d))
  | den_str s : denotes (mk_value DICEY_TYPE_STR (InfoStr (Some (default [] s)))) (ArgStr s)
  | den_path s : denotes (mk_value DICEY_TYPE_PATH (InfoStr (Some s))) (ArgPath (Some s))
  | den_uuid u : denotes (mk_value DICEY_TYPE_UUID (InfoUuid u)) (ArgUuid u)
  | den_selector s : denotes (mk_value DICEY_TYPE_SELECTOR (InfoSelector s)) (ArgSelector s)
  | den_error c m :
      denotes (mk_value DICEY_TYPE_ERROR (InfoError (mk_errmsg c (errmsg_norm m)))) (ArgError (mk_errmsg c m))
  | den_array t l view :
      dicey_type_is_valid t = true ->
      iterates (mk_iter (type_code t) view) l ->
      denotes (mk_value DICEY_TYPE_ARRAY (InfoList (type_code t) (zlen l) view)) (ArgArray t l)
  | den_tuple l view :
      iterates (mk_iter DICEY_VARIANT_ID view) l ->
      denotes (mk_value DICEY_TYPE_TUPLE (InfoList DICEY_VARIANT_ID (zlen l) view)) (ArgTuple l)
  | den_pair x y view :
      iterates (mk_iter DICEY_VARIANT_ID view) [x; y] ->
      denotes (mk_value DICEY_TYPE_PAIR (InfoList DICEY_VARIANT_ID 2 view)) (ArgPair x y)
(** The iterator yields exactly these elements, and then has no next. *)
with iterates : dicey_iterator -> list dicey_arg -> Prop :=
  | it_done it : dicey_iterator_has_next it = false -> iterates it []
  | it_more it it' v x l :
      dicey_iterator_has_next it = true -> dicey_iterator_next it = (Ok v, it') ->
      denotes v x -> iterates it' l -> iterates it (x :: l).

(** ** Probing the reference layout *)

Lemma probe_scalar t size bs rest tl :
  dicey_type_is_valid t = true -> type_size t = Ok size -> size <> DTF_SIZE_DYNAMIC -> zlen bs = size ->
  dtf_value_probe_as t (vw (bs ++ rest) tl) = (Ok (size, scalar_of_bytes t bs), vw rest tl).
Proof.
  intros Hv Hs Hne <-. unfold dtf_value_probe_as. rewrite Hv, Hs. cbn [negb].
  destruct (Z.eqb_spec (zlen bs) DTF_SIZE_DYNAMIC); [done|].
  enough (zlen bs <= PTRDIFF_MAX) as Hm by (by srw (vw_read bs rest tl 0 Hm)).
  destruct t; cbn in Hs; simplify_eq; unfold DICEY_UUID_SIZE in *; change PTRDIFF_MAX with 9223372036854775807; lia.
Qed.

Lemma probe_dynamic t v :
  dicey_type_is_valid t = true -> type_size t = Ok DTF_SIZE_DYNAMIC ->
  dtf_value_probe_as t v = value_probe_dynamic t v.
Proof. intros Hv Hs. unfold dtf_value_probe_as. rewrite Hv, Hs. cbn [negb]. by rewrite Z.eqb_refl. Qed.

Lemma UINT32_PTRDIFF : UINT32_MAX + 16 <= PTRDIFF_MAX.
Proof. done. Qed.

Lemma le4 n : 0 <= n <= UINT32_MAX -> le_val (le_bytes 4 n) = n.
Proof. intros. apply le_val_le_bytes_small. change UINT32_MAX with 4294967295 in *. cbn. lia. Qed.

Lemma le2 n : 0 <= n <= UINT16_MAX -> le_val (le_bytes 2 n) = n.
Proof. intros. apply le_val_le_bytes_small. change UINT16_MAX with 65535 in *. cbn. lia. Qed.

Lemma probe_list_content hd t n content rest tl :
  0 <= hd <= 16 -> zlen content <= UINT32_MAX ->
  (do! (content_read_res, elems) <- list_probe (zlen content);
   do! read_bytes <- slift (or_overflow (ptrdiff_add hd content_read_res));
   sret (read_bytes, InfoList t n elems)) (vw (content ++ rest) tl) =
  (Ok (hd + zlen content, InfoList t n (vw content (rest ++ tl))), vw rest tl).
Proof.
  intros Hhd Hc. pose proof UINT32_PTRDIFF. pose proof (zlen_nonneg content).
  srw (vw_take content rest tl). rewrite ptrdiff_add_in by lia. done.
Qed.

Lemma probe_array t n content rest tl :
  dicey_type_is_valid t = true -> 0 <= n <= UINT16_MAX -> zlen content <= UINT32_MAX ->
  array_probe (vw (le_bytes 4 (zlen content) ++ le_bytes 2 n ++ [type_code t] ++ content ++ rest) tl) =
  (Ok (7 + zlen content, InfoList (type_code t) n (vw content (rest ++ tl))), vw rest tl).
Proof.
  intros Ht Hn Hc. unfold array_probe, array_header_read. pose proof (zlen_nonneg content).
  set (hd := le_bytes 4 (zlen content) ++ le_bytes 2 n ++ [type_code t]).
  replace (le_bytes 4 (zlen content) ++ le_bytes 2 n ++ [type_code t] ++ content ++ rest)
    with (hd ++ content ++ rest) by (unfold hd; by rewrite <- !app_assoc).
  assert (zlen hd = 7) as Hl by (unfold hd; autorewrite with zlen; done).
  rewrite sbind_assoc.
  pose proof (vw_read hd (content ++ rest) tl 0) as Hr. rewrite Hl in Hr.
  specialize (Hr ltac:(done)). srw Hr.
  assert (zdrop 4 hd = le_bytes 2 n ++ [type_code t]) as E4.
  { unfold hd. apply zdrop_app_eq. by rewrite zlen_le_bytes. }
  assert (zdrop 6 hd = [type_code t]) as E6.
  { unfold hd. rewrite app_assoc. apply zdrop_app_eq. autorewrite with zlen. done. }
  rewrite E4, E6. unfold hd. rewrite !ztake_app_eq by (by rewrite zlen_le_bytes).
  change (ztake 1 [type_code t]) with [type_code t].
  replace (le_val [type_code t]) with (type_code t) by (cbn; lia).
  rewrite type_of_code_code, Ht by done. cbn [negb]. srun.
  rewrite le4, le2 by lia. by apply probe_list_content.
Qed.

Lemma probe_tuple n content rest tl :
  0 <= n <= UINT16_MAX -> zlen content <= UINT32_MAX ->
  tuple_probe (vw (le_bytes 4 (zlen content) ++ le_bytes 2 n ++ content ++ rest) tl) =
  (Ok (6 + zlen content, InfoList DICEY_VARIANT_ID n (vw content (rest ++ tl))), vw rest tl).
Proof.
  intros Hn Hc. unfold tuple_probe, tuple_header_read. pose proof (zlen_nonneg content).
  set (hd := le_bytes 4 (zlen content) ++ le_bytes 2 n).
  replace (le_bytes 4 (zlen content) ++ le_bytes 2 n ++ content ++ rest)
    with (hd ++ content ++ rest) by (unfold hd; by rewrite <- !app_assoc).
  assert (zlen hd = 6) as Hl by (unfold hd; autorewrite with zlen; done).
  rewrite sbind_assoc.
  pose proof (vw_read hd (content ++ rest) tl 0) as Hr. rewrite Hl in Hr.
  specialize (Hr ltac:(done)). srw Hr.
  assert (zdrop 4 hd = le_bytes 2 n) as E4.
  { unfold hd. apply zdrop_app_eq. by rewrite zlen_le_bytes. }
  rewrite E4. unfold hd. rewrite !ztake_app_eq by (by rewrite zlen_le_bytes).
  rewrite ztake_all by (by rewrite zlen_le_bytes). srun.
  rewrite le4, le2 by lia. by apply probe_list_content.
Qed.

Lemma probe_pair content rest tl :
  zlen content <= UINT32_MAX ->
  pair_probe (vw (le_bytes 4 (zlen content) ++ content ++ rest) tl) =
  (Ok (4 + zlen content, InfoList DICEY_VARIANT_ID 2 (vw content (rest ++ tl))), vw rest tl).
Proof.
  intros Hc. unfold pair_probe, pair_header_read. pose proof (zlen_nonneg content).
  rewrite sbind_assoc.
  pose proof (vw_read (le_bytes 4 (zlen content)) (content ++ rest) tl 0) as Hr.
  rewrite zlen_le_bytes in Hr. specialize (Hr ltac:(done)). srw Hr.
  rewrite le4 by lia. by apply probe_list_content.
Qed.

Lemma probe_bytes d rest tl :
  zlen d <= UINT32_MAX ->
  bytes_probe (vw (le_bytes 4 (zlen d) ++ d ++ rest) tl) =
  (Ok (4 + zlen d, InfoBytes (zlen d) (Some d)), vw rest tl).
Proof.
  intros Hd. unfold bytes_probe, bytes_header_read. pose proof (zlen_nonneg d). pose proof (zlen_nonneg rest).
  rewrite sbind_assoc.
  pose proof (vw_read (le_bytes 4 (zlen d)) (d ++ rest) tl 0) as Hr.
  rewrite zlen_le_bytes in Hr. specialize (Hr ltac:(done)). srw Hr. rewrite le4 by lia.
  unfold sbind at 1, sget. cbn [v_len vw v_data fmap option_fmap option_map]. fold (vw (d ++ rest) tl).
  rewrite zlen_app. zbool; [lia|].
  rewrite (vw_advance d rest tl). srun. pose proof UINT32_PTRDIFF.
  rewrite ptrdiff_add_in by lia. srun. unfold sret. by rewrite <- app_assoc, ztake_app_eq.
Qed.

Lemma cstr_small_split s b :
  cstr_mem s ++ b = s ++ 0 :: b.
Proof. unfold cstr_mem. by rewrite <- app_assoc. Qed.

Lemma zstring_encoded s rest tl :
  cstr_small s -> dicey_view_as_zstring (vw (cstr_mem s ++ rest) tl) = (Ok (zlen s + 1, s), vw rest tl).
Proof.
  intros [Hs Hl]. pose proof UINT32_PTRDIFF. rewrite cstr_small_split.
  apply vw_zstring; [by apply cstr_ok_nonzero|lia].
Qed.

Lemma probe_error c m rest tl :
  in_signed 16 c -> cstr_small (default [] m) ->
  error_probe (vw (le_bytes 2 c ++ cstr_mem (default [] m) ++ rest) tl) =
  (Ok (2 + (zlen (default [] m) + 1), InfoError (mk_errmsg c (errmsg_norm m))), vw rest tl).
Proof.
  intros Hc Hm. unfold error_probe, error_header_read. pose proof UINT32_PTRDIFF.
  rewrite sbind_assoc.
  pose proof (vw_read (le_bytes 2 c) (cstr_mem (default [] m) ++ rest) tl 0) as Hr.
  rewrite zlen_le_bytes in Hr. specialize (Hr ltac:(done)). srw Hr.
  srw (zstring_encoded _ _ _ Hm). destruct Hm as [_ Hm]. pose proof (zlen_nonneg (default [] m)).
  destruct (Z.eqb_spec (zlen (default [] m) + 1) 0); [lia|]. cbn [negb]. srun.
  rewrite ptrdiff_add_in by lia. srun. rewrite le_val_le_bytes. change (8 * Z.of_nat 2) with 16.
  rewrite to_signed_mod by (done || lia). unfold sret, errmsg_norm.
  destruct (default [] m) as [|x s] eqn:E; [done|]. pose proof (zlen_nonneg s).
  rewrite zlen_cons in *. zbool; [done|lia].
Qed.

Lemma probe_selector_nonzero t e rest tl :
  Forall (fun c => c <> 0) t -> Forall (fun c => c <> 0) e -> zlen t < UINT32_MAX -> zlen e < UINT32_MAX ->
  dtf_selector_from (vw (cstr_mem t ++ cstr_mem e ++ rest) tl) =
  (Ok (zlen t + 1 + (zlen e + 1), mk_selector (Some t) (Some e)), vw rest tl).
Proof.
  intros Ht He Hlt Hle. pose proof (zlen_nonneg t). pose proof (zlen_nonneg e).
  change UINT32_MAX with 4294967295 in *.
  unfold dtf_selector_from. unfold sbind at 1, sget. cbn [dicey_view_is_valid vw v_data].
  fold (vw (cstr_mem t ++ cstr_mem e ++ rest) tl). srun. rewrite !cstr_small_split.
  pose proof (vw_zstring t (e ++ 0 :: rest) tl Ht) as E1. pose proof (vw_zstring e rest tl He) as E2.
  rewrite (sbind_Ok _ _ _ _ _ (E1 ltac:(change PTRDIFF_MAX with 9223372036854775807; lia))).
  rewrite (sbind_Ok _ _ _ _ _ (E2 ltac:(change PTRDIFF_MAX with 9223372036854775807; lia))).
  rewrite ptrdiff_add_in by (change PTRDIFF_MAX with 9223372036854775807; lia). done.
Qed.

Lemma probe_selector t e rest tl :
  cstr_small t -> cstr_small e ->
  dtf_selector_from (vw (cstr_mem t ++ cstr_mem e ++ rest) tl) =
  (Ok (zlen t + 1 + (zlen e + 1), mk_selector (Some t) (Some e)), vw rest tl).
Proof. intros [Ht Hlt] [He Hle]. apply probe_selector_nonzero; try done; by apply cstr_ok_nonzero. Qed.

(** ** Probing what the encoder wrote *)

(** Probing a value of its type off the front of its encoding consumes exactly the encoding and
    denotes the argument. *)
Definition probes (a : dicey_arg) : Prop := forall rest tl, exists i,
  dtf_value_probe_as (arg_type a) (vw (encode_content a ++ rest) tl) =
    (Ok (zlen (encode_content a), i), vw rest tl) /\
  denotes (mk_value (arg_type a) i) a.

Definition encode_variant : dicey_arg -> list Z := encode_item ITEM_POLICY_VARIANT.

Lemma arg_ok_type a : arg_ok a -> dicey_type_is_valid (arg_type a) = true.
Proof. by destruct a. Qed.

Lemma encode_content_pos a : arg_ok a -> arg_type a <> DICEY_TYPE_UNIT -> 0 < zlen (encode_content a).
Proof.
  destruct a; cbn [arg_ok arg_type encode_content]; intros Ha Ht; try done;
    autorewrite with zlen; auto with lia;
    repeat match goal with |- context [zlen ?l] => pose proof (zlen_nonneg l); generalize dependent (zlen l); intros end;
    unfold DICEY_UUID_SIZE in *; try lia.
Qed.

Lemma probe_variant a rest tl :
  arg_ok a -> zlen (encode_content a) <= UINT32_MAX -> probes a ->
  exists v, dtf_value_probe (vw (encode_variant a ++ rest) tl) =
              (Ok (zlen (encode_variant a), v), vw rest tl) /\ denotes v a.
Proof.
  intros Ha Hl Hp. destruct (Hp rest tl) as (i & E & Hd). exists (mk_value (arg_type a) i).
  split; [|done]. pose proof (arg_ok_type a Ha) as Ht. pose proof (type_code_bound _ Ht).
  unfold dtf_value_probe, value_header_read, encode_variant, encode_item. cbn [is_variant].
  rewrite sbind_assoc, <- app_assoc.
  pose proof (vw_read [type_code (arg_type a)] (encode_content a ++ rest) tl 0 ltac:(done)) as Hr.
  change (zlen [type_code (arg_type a)]) with 1 in Hr. srw Hr.
  cbn [le_val]. rewrite Z.mul_0_r, Z.add_0_r, type_of_code_code, Ht by done. cbn [negb]. srun.
  srw E. pose proof (zlen_nonneg (encode_content a)). pose proof UINT32_PTRDIFF.
  rewrite ptrdiff_add_in by lia. srun. unfold sret. by rewrite zlen_app.
Qed.

Lemma zlen_concat_in {A B} (f : A -> list B) x l : In x l -> zlen (f x) <= zlen (concat (map f l)).
Proof.
  induction l as [|y l IH]; cbn [map concat In]; [done|]. rewrite zlen_app.
  pose proof (zlen_nonneg (f y)). pose proof (zlen_nonneg (concat (map f l))).
  intros [->|Hx]; [lia|]. specialize (IH Hx). lia.
Qed.

Lemma iterates_done t tl : iterates (mk_iter t (vw [] tl)) [].
Proof. by constructor. Qed.

Lemma has_next_app t a b tl : 0 < zlen a -> dicey_iterator_has_next (mk_iter t (vw (a ++ b) tl)) = true.
Proof.
  intros. unfold dicey_iterator_has_next. cbn [it_data vw v_len].
  pose proof (zlen_nonneg b). rewrite zlen_app. zbool; (lia || done).
Qed.

Lemma iterates_array t l tl :
  Forall (fun x => arg_type x = t /\ arg_ok x /\ probes x) l -> (t = DICEY_TYPE_UNIT -> l = []) ->
  dicey_type_is_valid t = true ->
  iterates (mk_iter (type_code t) (vw (concat (map encode_content l)) tl)) l.
Proof.
  intros Hl Hu Ht. induction Hl as [|x l (Hxt & Hx & Hp) Hl IH]; [apply iterates_done|].
  cbn [map concat]. assert (t <> DICEY_TYPE_UNIT) as Hnu by (intros ->; by discriminate Hu).
  destruct (Hp (concat (map encode_content l)) tl) as (i & E & Hd).
  eapply it_more; [| |exact Hd|apply IH; naive_solver].
  - apply has_next_app. apply encode_content_pos; [done|congruence].
  - unfold dicey_iterator_next. rewrite has_next_app by (apply encode_content_pos; [done|congruence]).
    cbn [negb it_type it_data]. pose proof (type_code_not_variant _ Ht).
    destruct (Z.eqb_spec (type_code t) DICEY_VARIANT_ID); [done|].
    rewrite type_of_code_code, <- Hxt by done. by srw E.
Qed.

Lemma iterates_variant l tl :
  Forall (fun x => arg_ok x /\ probes x /\ zlen (encode_content x) <= UINT32_MAX) l ->
  iterates (mk_iter DICEY_VARIANT_ID (vw (concat (map encode_variant l)) tl)) l.
Proof.
  induction 1 as [|x l (Hx & Hp & Hs) Hl IH]; [apply iterates_done|]. cbn [map concat].
  destruct (probe_variant x (concat (map encode_variant l)) tl Hx Hs Hp) as (v & E & Hd).
  assert (0 < zlen (encode_variant x)) as Hpos.
  { unfold encode_variant, encode_item. cbn [is_variant]. rewrite zlen_app.
    pose proof (zlen_nonneg (encode_content x)). change (zlen [_]) with 1. lia. }
  eapply it_more; [by apply has_next_app| |exact Hd|exact IH].
  unfold dicey_iterator_next. rewrite has_next_app by done. cbn [negb it_type it_data].
  rewrite Z.eqb_refl. by srw E.
Qed.

(** *** Leaves *)

Lemma in_unsigned_le n x : in_unsigned (8 * Z.of_nat n) x -> le_val (le_bytes n x) = x.
Proof. apply le_val_le_bytes_small. Qed.

Lemma in_signed_le n x :
  0 < 8 * Z.of_nat n -> in_signed (8 * Z.of_nat n) x ->
  to_signed (8 * Z.of_nat n) (le_val (le_bytes n x)) = x.
Proof. intros Hn Hx. rewrite le_val_le_bytes. by apply to_signed_mod. Qed.

Lemma probes_scalar a n x :
  type_size (arg_type a) = Ok (Z.of_nat n) -> dicey_type_is_valid (arg_type a) = true ->
  Z.of_nat n <> DTF_SIZE_DYNAMIC -> encode_content a = le_bytes n x ->
  denotes (mk_value (arg_type a) (scalar_of_bytes (arg_type a) (le_bytes n x))) a -> probes a.
Proof.
  intros Hs Hv Hne He Hd rest tl. eexists. rewrite He. split; [|exact Hd].
  rewrite zlen_le_bytes. apply probe_scalar; try done. by rewrite zlen_le_bytes.
Qed.

Lemma probes_leaf a :
  match a with
  | ArgArray _ _ | ArgTuple _ | ArgPair _ _ => True
  | _ => arg_ok a -> zlen (encode_content a) <= UINT32_MAX -> probes a
  end.
Proof.
  destruct a; cbn [arg_ok encode_content]; try done; intros Ha Hl.
  - intros rest tl. eexists. split; [by apply (probe_scalar _ 0)|constructor].
  - eapply (probes_scalar _ 1); try done. cbn [scalar_of_bytes arg_type].
    rewrite (in_unsigned_le 1) by done. constructor.
  - eapply (probes_scalar _ 1); try done. cbn [scalar_of_bytes arg_type].
    rewrite (in_unsigned_le 1) by done. constructor.
  - eapply (probes_scalar _ 8); try done. cbn [scalar_of_bytes arg_type].
    rewrite (in_unsigned_le 8) by done. constructor.
  - eapply (probes_scalar _ 2); try done. cbn [scalar_of_bytes arg_type].
    rewrite (in_signed_le 2) by done. constructor.
  - eapply (probes_scalar _ 4); try done. cbn [scalar_of_bytes arg_type].
    rewrite (in_signed_le 4) by done. constructor.
  - eapply (probes_scalar _ 8); try done. cbn [scalar_of_bytes arg_type].
    rewrite (in_signed_le 8) by done. constructor.
  - eapply (probes_scalar _ 2); try done. cbn [scalar_of_bytes arg_type].
    rewrite (in_unsigned_le 2) by done. constructor.
  - eapply (probes_scalar _ 4); try done. cbn [scalar_of_bytes arg_type].
    rewrite (in_unsigned_le 4) by done. constructor.
  - eapply (probes_scalar _ 8); try done. cbn [scalar_of_bytes arg_type].
    rewrite (in_unsigned_le 8) by done. constructor.
  - destruct Ha as (d & -> & -> & Hd). cbn [default from_option id] in *. intros rest tl. eexists.
    rewrite probe_dynamic by done. cbn [arg_type value_probe_dynamic encode_content default from_option id err_code err_message].
    revert Hl. autorewrite with zlen. intros Hl. rewrite <- app_assoc, probe_bytes by lia.
    split; [done|constructor].
  - intros rest tl. eexists. rewrite probe_dynamic by done. cbn [arg_type value_probe_dynamic encode_content default from_option id err_code err_message].
    srw (zstring_encoded _ _ _ Ha). rewrite zlen_cstr_mem. split; [done|constructor].
  - destruct Ha as [Hz Hb]. intros rest tl. eexists.
    cbn [encode_content arg_type]. rewrite Hz.
    split; [by apply (probe_scalar DICEY_TYPE_UUID)|constructor].
  - destruct Ha as (s & -> & Hs). intros rest tl. eexists. rewrite probe_dynamic by done.
    cbn [arg_type value_probe_dynamic encode_content default from_option id].
    srw (zstring_encoded _ _ _ Hs). rewrite zlen_cstr_mem. split; [done|constructor].
  - destruct Ha as (t & e & -> & Ht & He). intros rest tl. eexists. rewrite probe_dynamic by done.
    cbn [arg_type value_probe_dynamic encode_content default from_option id trait elem].
    rewrite <- app_assoc. srw (probe_selector _ _ _ _ Ht He).
    rewrite zlen_app, !zlen_cstr_mem. split; [done|constructor].
  - destruct error as [c m]. cbn [err_code err_message] in *. destruct Ha as [Hc Hm].
    intros rest tl. eexists. rewrite probe_dynamic by done. cbn [arg_type value_probe_dynamic encode_content default from_option id err_code err_message].
    rewrite <- app_assoc, probe_error by done.
    rewrite zlen_app, zlen_le_bytes, zlen_cstr_mem. split; [done|constructor].
Qed.

(** *** Containers *)

Lemma probes_elems (f : dicey_arg -> list Z) l :
  (forall x, zlen (encode_content x) <= zlen (f x)) -> zlen (concat (map f l)) <= UINT32_MAX ->
  Forall (fun x => arg_ok x -> zlen (encode_content x) <= UINT32_MAX -> probes x) l ->
  Forall arg_ok l -> Forall (fun x => arg_ok x /\ probes x /\ zlen (encode_content x) <= UINT32_MAX) l.
Proof.
  intros Hf Hl HP Ho. rewrite Forall_forall in *. intros x Hx.
  pose proof (zlen_concat_in f x l Hx). specialize (Hf x).
  split_and!; [by apply Ho|apply HP; auto; lia|lia].
Qed.

Lemma zlen_encode_variant x : zlen (encode_variant x) = 1 + zlen (encode_content x).
Proof. unfold encode_variant, encode_item. cbn [is_variant]. by rewrite zlen_app. Qed.

Lemma probes_encoded a : arg_ok a -> zlen (encode_content a) <= UINT32_MAX -> probes a.
Proof.
  revert a. apply (dicey_arg_ind' (fun a => arg_ok a -> zlen (encode_content a) <= UINT32_MAX -> probes a));
    [intros a; pose proof (probes_leaf a); by destruct a|intros t l IH|intros l IH|intros x y IHx IHy].
  - cbn [arg_ok encode_content]. rewrite arg_ok_list. intros (Ht & Hu & Hn & Hts & Hok).
    autorewrite with zlen. intros Hl.
    pose proof (probes_elems encode_content l ltac:(done) ltac:(lia) IH Hok) as Hp.
    intros rest tl. eexists. rewrite probe_dynamic by done.
    cbn [arg_type value_probe_dynamic value_probe_container encode_content].
    pose proof (zlen_nonneg l). rewrite <- !app_assoc.
    rewrite probe_array by (done || lia). autorewrite with zlen. split; [do 3 f_equal; lia|].
    constructor; [done|]. apply iterates_array; try done.
    rewrite !Forall_forall in *. intros x Hx. destruct (Hp x Hx) as (? & ? & ?). auto.
  - cbn [arg_ok encode_content]. rewrite arg_ok_list. intros (Hn & Hok).
    autorewrite with zlen. fold encode_variant. intros Hl.
    pose proof (probes_elems encode_variant l) as Hp.
    ospecialize (Hp _ _ IH Hok); [intros; rewrite zlen_encode_variant; lia|unfold encode_variant, encode_item; cbn [is_variant app]; lia|].
    intros rest tl. eexists. rewrite probe_dynamic by done.
    cbn [arg_type value_probe_dynamic value_probe_container encode_content].
    pose proof (zlen_nonneg l). rewrite <- !app_assoc.
    rewrite probe_tuple by (done || lia). autorewrite with zlen. split; [do 3 f_equal; lia|].
    constructor. by apply (iterates_variant l).
  - cbn [arg_ok encode_content]. intros (Hx & Hy). autorewrite with zlen. intros Hl.
    pose proof (zlen_nonneg (encode_content x)). pose proof (zlen_nonneg (encode_content y)).
    intros rest tl. eexists. rewrite probe_dynamic by done.
    cbn [arg_type value_probe_dynamic value_probe_container encode_content].
    rewrite <- (app_assoc (le_bytes 4 _)).
    rewrite probe_pair by (autorewrite with zlen; lia). autorewrite with zlen.
    split; [do 3 f_equal; lia|]. constructor.
    pose proof (iterates_variant [x; y]) as Hi. cbn [map concat] in Hi. rewrite app_nil_r in Hi.
    apply Hi. repeat constructor; auto with lia.
Qed.

(** ** A parsed value denotes one argument *)

(** What the format does not distinguish: a NULL string is written as the empty one, and an
    error with an empty message reads back without message. *)
Fixpoint arg_norm (a : dicey_arg) : dicey_arg :=
  match a with
  | ArgArray t l => ArgArray t (map arg_norm l)
  | ArgTuple l => ArgTuple (map arg_norm l)
  | ArgPair x y => ArgPair (arg_norm x) (arg_norm y)
  | ArgStr s => ArgStr (Some (default [] s))
  | ArgError e => ArgError (mk_errmsg (err_code e) (errmsg_norm (err_message e)))
  | _ => a
  end.

Scheme denotes_mut := Minimality for denotes Sort Prop
  with iterates_mut := Minimality for iterates Sort Prop.

Lemma type_code_inj t u :
  dicey_type_is_valid t = true -> dicey_type_is_valid u = true -> type_code t = type_code u -> t = u.
Proof. intros Ht Hu E. by rewrite <- (type_of_code_code t), E, type_of_code_code. Qed.

Lemma denotes_functional v a : denotes v a -> forall b, denotes v b -> arg_norm a = arg_norm b.
Proof.
  revert v a.
  apply (denotes_mut (fun v a => forall b, denotes v b -> arg_norm a = arg_norm b)
                     (fun it l => forall k, iterates it k -> map arg_norm l = map arg_norm k));
    try (intros; match goal with H : denotes _ _ |- _ => inversion H; subst; cbn; congruence end).
  - intros t l view Ht _ IH b Hb. inversion Hb as [| | | | | | | | | | | | | | | |t' l' v' Ht' Hi| |]; subst.
    cbn. f_equal; [by apply type_code_inj|]. apply IH. congruence.
  - intros l view _ IH b Hb. inversion Hb as [| | | | | | | | | | | | | | | | |l' v' Hi|]; subst.
    cbn. f_equal. by apply IH.
  - intros x y view _ IH b Hb. inversion Hb as [| | | | | | | | | | | | | | | | | |x' y' v' Hi]; subst.
    specialize (IH _ Hi). cbn in *. congruence.
  - intros it Hn k Hk. inversion Hk; subst; [done|congruence].
  - intros it it' v x l Hn E _ IHx _ IHl k Hk. inversion Hk as [|? it2 v2 x2 l2 Hn2 E2 Hd2 Hi2]; subst; [congruence|].
    rewrite E in E2. simplify_eq. cbn. f_equal; auto.
Qed.

(** ** Properties *)

Lemma arg_ok_writable a : arg_ok a -> writable a.
Proof.
  revert a. apply (dicey_arg_ind' (fun a => arg_ok a -> writable a));
    [intros a|intros t l IH|intros l IH|intros x y IHx IHy].
  - destruct a; try done; cbn [arg_ok writable]; unfold zstring_ok.
    + intros (d & -> & -> & _). eauto.
    + intros [_ Hs]. eauto.
    + by intros [Hs _].
    + intros (s & -> & _ & Hs). eauto.
    + intros (t & e & -> & [_ Ht] & [_ He]). cbn [trait elem]. split; eauto.
    + intros (_ & _ & Hs). eauto.
  - cbn [arg_ok writable]. rewrite arg_ok_list, writable_list. intros (Ht & _ & _ & _ & Hl).
    split; [done|]. rewrite !Forall_forall in *. auto.
  - cbn [arg_ok writable]. rewrite arg_ok_list, writable_list. intros (_ & Hl).
    rewrite !Forall_forall in *. auto.
  - cbn [arg_ok writable]. intros [Hx Hy]. auto.
Qed.

Lemma probe_encoded a rest tl :
  arg_ok a -> zlen (encode_variant a) <= UINT32_MAX ->
  exists v, dtf_value_probe (vw (encode_variant a ++ rest) tl) =
              (Ok (zlen (encode_variant a), v), vw rest tl) /\ denotes v a.
Proof.
  intros Ha Hl. pose proof (zlen_encode_variant a).
  apply probe_variant; [done|lia|]. apply probes_encoded; [done|lia].
Qed.

(** C7: a well-formed value written by [dtf_value_write], to a new block or to a large enough buffer
    of the caller, is read back by [dtf_value_probe] as the value that was written, whatever bytes
    follow it, and the decoder consumes exactly the bytes the encoder produced. Well formed
    ([arg_ok]): integers in their range, bytes, paths and selectors that are not NULL, strings of less
    than 4 GiB, lists of at most 65535 elements, and arrays whose elements have the type of the array,
    which is not the unit type unless the array is empty; the encoding has at most [UINT32_MAX]
    bytes. *)
Theorem dtf_value_roundtrip calloc_ok a rest tl :
  arg_ok a -> zlen (encode_variant a) <= UINT32_MAX ->
  exists size mem v, zlen mem = size /\
    (calloc_ok size = true -> dtf_value_write calloc_ok DICEY_NULL [] a = Ok (mk_valueres (inr size) size (Some 0), Some mem)) /\
    (forall pre area post, zlen area = size ->
       dtf_value_write calloc_ok (mk_view_mut size (Some (zlen pre))) (pre ++ area ++ post) a =
         Ok (mk_valueres (inr 0) size (Some (zlen pre)), Some (pre ++ mem ++ post))) /\
    dtf_value_probe (vw (mem ++ rest) tl) = (Ok (size, v), vw rest tl) /\
    denotes v a.
Proof.
  intros Ha Hl. destruct (probe_encoded a rest tl Ha Hl) as (v & E & Hd). pose proof UINT32_PTRDIFF. unfold encode_variant in *.
  pose proof (arg_ok_writable a Ha) as Hw.
  eexists _, _, v. split_and!; [reflexivity| | |exact E|exact Hd].
  - intros Hc. apply dtf_value_write_alloc; [done|lia|done].
  - intros pre area post Harea. pose proof (dtf_value_write_fits calloc_ok a pre area [] post Hw Harea ltac:(lia)) as Hf.
    by rewrite app_nil_l, app_nil_r, Harea in Hf.
Qed.

Lemma dtf_value_roundtrip_witness :
  exists size mem v,
    dtf_value_write (fun _ => true) DICEY_NULL []
      (ArgTuple [ArgArray DICEY_TYPE_INT16 [ArgI16 (-3)]; ArgPair ArgUnit (ArgPath (Some [47]))]) =
      Ok (mk_valueres (inr size) size (Some 0), Some mem) /\
    (dtf_value_probe (vw (mem ++ [1; 2; 3]) [])).1 = Ok (size, v).
Proof.
  destruct (dtf_value_roundtrip (fun _ => true)
    (ArgTuple [ArgArray DICEY_TYPE_INT16 [ArgI16 (-3)]; ArgPair ArgUnit (ArgPath (Some [47]))]) [1; 2; 3] [])
    as (size & mem & v & _ & Hw & _ & Hp & _).
  - cbn. unfold in_signed, cstr_small, cstr_ok.
    split_and!; try done; [repeat constructor|].
    exists [47]. split_and!; [done|repeat constructor; lia|done].
  - vm_compute. discriminate.
  - exists size, mem, v. split; [by apply Hw|]. by rewrite Hp.
Defined.

(** The encoding is unambiguous: if the encodings of two arguments are both prefixes of the
    same bytes, the arguments are the same (up to what the format does not distinguish) and so
    is what follows them. *)
Theorem encoding_unambiguous a b r1 r2 :
  arg_ok a -> arg_ok b -> zlen (encode_variant a) <= UINT32_MAX -> zlen (encode_variant b) <= UINT32_MAX ->
  encode_variant a ++ r1 = encode_variant b ++ r2 ->
  arg_norm a = arg_norm b /\ r1 = r2.
Proof.
  intros Ha Hb Hla Hlb E.
  destruct (probe_encoded a r1 [] Ha Hla) as (v & Ev & Hv).
  destruct (probe_encoded b r2 [] Hb Hlb) as (w & Ew & Hw).
  rewrite E, Ew in Ev. injection Ev as El -> Er1 Er2.
  split; [by eapply denotes_functional|]. by rewrite !app_nil_r in Er2.
Qed.

Lemma encoding_unambiguous_witness : ArgStr (Some []) = ArgStr (Some []) /\ [5] = [5].
Proof.
  apply (encoding_unambiguous (ArgStr None) (ArgStr (Some [])) [5] [5]);
    try (split; [constructor|done]); done.
Defined.
