(* ===== verification/Payload.v ===== *)
(** * Payloads (src/wirefmt/dtf/payload.c)

    The layer below packets: the three kinds of payload (hello, bye, messages) as blocks of
    memory in wire format, how they are written into a buffer the caller provides or a new one,
    the extraction of path, selector and value from a message, and the loading of one payload
    off a stream of bytes. *)

From S2P Require Import Prelude Errors Types Views Writer ValueWrite ValueProbe Value Codec.

(** ** Kinds *)

(** [DTF_PAYLOAD_UNKNOWN] is an integer stored in the enum that is none of the enumerators. *)
Inductive dtf_payload_kind : Type :=
  | DTF_PAYLOAD_INVALID
  | DTF_PAYLOAD_HELLO
  | DTF_PAYLOAD_BYE
  | DTF_PAYLOAD_GET
  | DTF_PAYLOAD_SET
  | DTF_PAYLOAD_EXEC
  | DTF_PAYLOAD_EVENT
  | DTF_PAYLOAD_RESPONSE
  | DTF_PAYLOAD_UNKNOWN (code : Z).

#[export] Instance dtf_payload_kind_eq_dec : EqDecision dtf_payload_kind.
Proof. solve_decision. Defined.

Definition kind_code (kind : dtf_payload_kind) : Z :=
  match kind with
  | DTF_PAYLOAD_INVALID => 0
  | DTF_PAYLOAD_HELLO => 1
  | DTF_PAYLOAD_BYE => 2
  | DTF_PAYLOAD_GET => 60        (* '<' *)
  | DTF_PAYLOAD_SET => 62        (* '>' *)
  | DTF_PAYLOAD_EXEC => 63       (* '?' *)
  | DTF_PAYLOAD_EVENT => 33      (* '!' *)
  | DTF_PAYLOAD_RESPONSE => 58   (* ':' *)
  | DTF_PAYLOAD_UNKNOWN code => code
  end.

Definition kind_of_code (z : Z) : dtf_payload_kind :=
  match List.find (fun k => kind_code k =? z)
    [DTF_PAYLOAD_INVALID; DTF_PAYLOAD_HELLO; DTF_PAYLOAD_BYE; DTF_PAYLOAD_GET; DTF_PAYLOAD_SET;
     DTF_PAYLOAD_EXEC; DTF_PAYLOAD_EVENT; DTF_PAYLOAD_RESPONSE] with
  | Some k => k
  | None => DTF_PAYLOAD_UNKNOWN z
  end.

Definition is_kind_invalid (kind : dtf_payload_kind) : res bool :=
  match kind with
  | DTF_PAYLOAD_UNKNOWN _ => Fault AssertFailed
  | DTF_PAYLOAD_INVALID => Ok true
  | DTF_PAYLOAD_HELLO | DTF_PAYLOAD_BYE | DTF_PAYLOAD_GET | DTF_PAYLOAD_SET
  | DTF_PAYLOAD_EXEC | DTF_PAYLOAD_EVENT | DTF_PAYLOAD_RESPONSE => Ok false
  end.

Definition is_message (kind : dtf_payload_kind) : bool :=
  match kind with
  | DTF_PAYLOAD_GET | DTF_PAYLOAD_SET | DTF_PAYLOAD_EXEC | DTF_PAYLOAD_EVENT | DTF_PAYLOAD_RESPONSE => true
  | _ => false
  end.

(** Sizes of the packed structs [dtf_payload_head], [dtf_hello], [dtf_bye], [dtf_message_head]. *)
Definition PAYLOAD_HEAD_SIZE : Z := 8.
Definition HELLO_SIZE : Z := 12.
Definition BYE_SIZE : Z := 12.
Definition MESSAGE_HEAD_SIZE : Z := 12.

Definition message_fixed_size (kind : dtf_payload_kind) : res Z :=
  match kind with
  | DTF_PAYLOAD_HELLO => Ok HELLO_SIZE
  | DTF_PAYLOAD_BYE => Ok BYE_SIZE
  | DTF_PAYLOAD_GET | DTF_PAYLOAD_SET | DTF_PAYLOAD_EXEC | DTF_PAYLOAD_EVENT
  | DTF_PAYLOAD_RESPONSE => Ok MESSAGE_HEAD_SIZE
  | _ => Err DICEY_EBADMSG
  end.

Definition payload_kind_is_valid (kind : dtf_payload_kind) : bool :=
  match kind with
  | DTF_PAYLOAD_HELLO | DTF_PAYLOAD_BYE | DTF_PAYLOAD_GET | DTF_PAYLOAD_SET
  | DTF_PAYLOAD_EXEC | DTF_PAYLOAD_EVENT | DTF_PAYLOAD_RESPONSE => true
  | _ => false
  end.

Definition dtf_payload_kind_is_message (kind : dtf_payload_kind) : bool := is_message kind.

(** ** Headers *)

(** Reading a [uint32_t] member at an offset of a block. *)
Definition read_u32 (mem : list Z) (off : Z) : res Z :=
  let! bs := mem_read (zdrop off mem) 4 in Ok (le_val bs).

(** [struct dtf_payload_head], [dtf_message_head], [dtf_hello] and [dtf_bye] in memory. *)
Definition head3 (kind : dtf_payload_kind) (seq third : Z) : list Z :=
  le_bytes 4 (kind_code kind) ++ le_bytes 4 seq ++ le_bytes 4 third.

Definition message_get_trailer_size (msg : option (list Z)) : res Z :=
  match msg with None => Err DICEY_EINVAL | Some mem => read_u32 mem 8 end.

(** Returns the bytes of the header. *)
Definition message_header_read : vst (list Z) := dicey_view_read_ptr local_ptr MESSAGE_HEAD_SIZE.

Definition message_header_write (kind : dtf_payload_kind) (seq trailer_size : Z) : mst Z :=
  dicey_view_mut_write_ptr (Some (head3 kind seq trailer_size)) MESSAGE_HEAD_SIZE.

Definition payload_header_read : vst (list Z) := dicey_view_read_ptr local_ptr PAYLOAD_HEAD_SIZE.

(** [src] is passed by value. *)
Definition trailer_read_size (src : dicey_view) (kind : dtf_payload_kind) : res Z :=
  match kind with
  | DTF_PAYLOAD_GET | DTF_PAYLOAD_SET | DTF_PAYLOAD_EXEC | DTF_PAYLOAD_EVENT | DTF_PAYLOAD_RESPONSE =>
      let! head := (message_header_read src).1 in
      Ok (le_val (zdrop 8 head))
  | _ => Ok 0
  end.

(** ** Hello and bye *)

(** [struct dtf_result]: [result] is an error or a count; [data] is an offset in the block. *)
Record dtf_result : Type := mk_dtf_result { dr_result : dicey_error + Z; dr_size : Z; dr_data : option Z }.

(** The common shape of [dtf_bye_write] and [dtf_hello_write]: both make room for a struct and
    write it; the assertion says the write cannot fail. *)
Definition fixed_write (calloc_ok : Z -> bool) (needed_len : Z) (bytes : list Z)
    (dest : dicey_view_mut) (mem : list Z) : res (dtf_result * list Z) :=
  let '(alloc_res, (dest1, mem1)) := dicey_view_mut_ensure_cap calloc_ok needed_len (dest, mem) in
  match alloc_res with
  | Err e => Ok (mk_dtf_result (inl e) needed_len None, mem1)
  | Fault f => Fault f
  | OutOfFuel => OutOfFuel
  | Ok _ =>
      let '(write_res, (dest2, mem2)) := dicey_view_mut_write_ptr (Some bytes) needed_len (dest1, mem1) in
      match write_res with
      | Ok _ => Ok (mk_dtf_result (inr 0) needed_len (vm_data dest2), mem2)
      | Err _ => Fault AssertFailed
      | Fault f => Fault f
      | OutOfFuel => OutOfFuel
      end
  end.

Definition dtf_bye_write calloc_ok (dest : dicey_view_mut) (mem : list Z) (seq reason : Z) :=
  fixed_write calloc_ok BYE_SIZE (head3 DTF_PAYLOAD_BYE seq reason) dest mem.

Definition dtf_hello_write calloc_ok (dest : dicey_view_mut) (mem : list Z) (seq version : Z) :=
  fixed_write calloc_ok HELLO_SIZE (head3 DTF_PAYLOAD_HELLO seq version) dest mem.

(** ** Messages *)

(** [struct dtf_message_content]; the value is a pointer into the message. *)
Record dtf_message_content : Type := mk_content {
  mc_path : cstr; mc_selector : dicey_selector; mc_value : option (list Z); mc_value_len : Z;
}.

Definition dtf_message_get_content (msg : option (list Z)) (alloc_size : Z) : res dtf_message_content :=
  match msg with
  | None => Err DICEY_EINVAL
  | Some mem =>
      if alloc_size <=? MESSAGE_HEAD_SIZE then Err DICEY_EOVERFLOW else
      let! trailer_size := message_get_trailer_size msg in
      if alloc_size <? trailer_size then Err DICEY_EOVERFLOW else
      let data := zdrop MESSAGE_HEAD_SIZE mem in
      let! (path_len, path) := (dicey_view_as_zstring (mk_view trailer_size (Some data))).1 in
      let! _ := oassert (path_len <=? trailer_size) in
      let '(r, cursor) := dtf_selector_from (mk_view (trailer_size - path_len) (Some (zdrop path_len data))) in
      let! (selector_len, selector) := r in
      let! _ := oassert (selector_len + path_len + v_len cursor =? trailer_size) in
      Ok (mk_content path selector
            (if v_len cursor =? 0 then None else v_data cursor) (v_len cursor))
  end.

Fixpoint add_sizes (total_size : Z) (sizes : list (res Z)) : res Z :=
  match sizes with
  | [] => Ok total_size
  | size :: sizes' =>
      let! s := size in
      let! total := or_overflow (u32_add total_size (u32 s)) in
      add_sizes total sizes'
  end.

Definition dtf_message_estimate_header_size (kind : dtf_payload_kind) (path : option cstr)
    (selector : dicey_selector) : res Z :=
  match is_message kind, path, trait selector, elem selector with
  | true, Some _, Some _, Some _ =>
      let! fixed := message_fixed_size kind in
      add_sizes (u32 fixed) [dutl_zstring_size path; dicey_selector_size selector]
  | _, _, _, _ => Err DICEY_EINVAL
  end.

Definition dtf_message_estimate_size (kind : dtf_payload_kind) (path : option cstr)
    (selector : dicey_selector) (value : option dicey_arg) : res Z :=
  if negb (Bool.eqb (negb (bool_decide (kind = DTF_PAYLOAD_GET))) (bool_decide (is_Some value)))
  then Err DICEY_EBADMSG else
  let! size := dtf_message_estimate_header_size kind path selector in
  let! value_size := match value with Some v => dtf_value_estimate_size v | None => Ok 0 end in
  let! sum := or_overflow (ptrdiff_add size value_size) in
  if UINT32_MAX <? sum then Err DICEY_EOVERFLOW else Ok sum.

(** [goto fail]: the message is freed if it was allocated here. [block] is the memory block at
    that point, [None] if it has been freed already. *)
Definition message_fail (alloc_res needed_len : Z) (msg : option Z) (block : option (list Z)) (e : dicey_error)
    : res (dtf_result * option (list Z)) :=
  let! block' :=
    (if 0 <? alloc_res then
       match block with Some _ => free_block msg | None => Fault InvalidFree end
     else Ok block) in
  Ok (mk_dtf_result (inl e) needed_len None, block').

(** The part of a message that precedes the value. *)
Definition message_prefix_write (kind : dtf_payload_kind) (seq needed_len : Z) (path : option cstr)
    (selector : dicey_selector) : mst Z :=
  let trailer_size := u32 (u32 needed_len - MESSAGE_HEAD_SIZE) in
  do! _ <- message_header_write kind seq trailer_size;
  do! _ <- dicey_view_mut_write_zstring path;
  dtf_selector_write selector.

(** The writing of the value: [None] on success, or the error to report, with the block. *)
Definition message_value_write (calloc_ok : Z -> bool) (dest : dicey_view_mut) (mem : list Z)
    (value : option dicey_arg) : res (option dicey_error * option (list Z)) :=
  match value with
  | None => Ok (None, Some mem)
  | Some v =>
      let! (value_res, block) := dtf_value_write calloc_ok dest mem v in
      match vr_result value_res with
      | inl e => Ok (Some e, block)
      | inr n =>
          let! _ := oassert (n =? 0) in
          let! _ := oassert (bool_decide (vr_value value_res = vm_data dest)) in
          Ok (None, block)
      end
  end.

Definition dtf_message_write (calloc_ok : Z -> bool) (dest : dicey_view_mut) (mem : list Z)
    (kind : dtf_payload_kind) (seq : Z) (path : option cstr) (selector : dicey_selector)
    (value : option dicey_arg) : res (dtf_result * option (list Z)) :=
  match dutl_zstring_size path with
  | Fault f => Fault f
  | Err DICEY_EOVERFLOW => Ok (mk_dtf_result (inl DICEY_EPATH_TOO_LONG) 0 None, Some mem)
  | _ =>
  match dtf_message_estimate_size kind path selector value with
  | Err e => Ok (mk_dtf_result (inl e) 0 None, Some mem)
  | Fault f => Fault f
  | OutOfFuel => OutOfFuel
  | Ok needed_len =>
  let '(alloc, (dest1, mem1)) := dicey_view_mut_ensure_cap calloc_ok needed_len (dest, mem) in
  match alloc with
  | Err e => Ok (mk_dtf_result (inl e) needed_len None, Some mem1)
  | Fault f => Fault f
  | OutOfFuel => OutOfFuel
  | Ok alloc_res =>
  let msg := vm_data dest1 in
  let '(r, (dest2, mem2)) := message_prefix_write kind seq needed_len path selector (dest1, mem1) in
  match r with
  | Err e => message_fail alloc_res needed_len msg (Some mem2) e
  | Fault f => Fault f
  | OutOfFuel => OutOfFuel
  | Ok _ =>
      let! (failed, block) := message_value_write calloc_ok dest2 mem2 value in
      match failed with
      | Some e => message_fail alloc_res needed_len msg block e
      | None => Ok (mk_dtf_result (inr alloc_res) needed_len msg, block)
      end
  end end end end.

Definition dtf_message_write_with_raw_value (calloc_ok : Z -> bool) (dest : dicey_view_mut) (mem : list Z)
    (kind : dtf_payload_kind) (seq : Z) (path : option cstr) (selector : dicey_selector)
    (value : dicey_view) : res (dtf_result * option (list Z)) :=
  match dutl_zstring_size path with
  | Fault f => Fault f
  | Err DICEY_EOVERFLOW => Ok (mk_dtf_result (inl DICEY_EPATH_TOO_LONG) 0 None, Some mem)
  | _ =>
  if PTRDIFF_MAX <? v_len value then Ok (mk_dtf_result (inl DICEY_EOVERFLOW) 0 None, Some mem) else
  match (let! header_size := dtf_message_estimate_header_size kind path selector in
         or_overflow (ptrdiff_add header_size (v_len value))) with
  | Err e => Ok (mk_dtf_result (inl e) 0 None, Some mem)
  | Fault f => Fault f
  | OutOfFuel => OutOfFuel
  | Ok needed_len =>
  let '(alloc, (dest1, mem1)) := dicey_view_mut_ensure_cap calloc_ok needed_len (dest, mem) in
  match alloc with
  | Err e => Ok (mk_dtf_result (inl e) needed_len None, Some mem1)
  | Fault f => Fault f
  | OutOfFuel => OutOfFuel
  | Ok alloc_res =>
  let msg := vm_data dest1 in
  let '(r, (dest2, mem2)) :=
    (do! _ <- message_prefix_write kind seq needed_len path selector;
     dicey_view_mut_write value) (dest1, mem1) in
  match r with
  | Err e => message_fail alloc_res needed_len msg (Some mem2) e
  | Fault f => Fault f
  | OutOfFuel => OutOfFuel
  | Ok _ => Ok (mk_dtf_result (inr alloc_res) needed_len msg, Some mem2)
  end end end end.

(** ** Payloads *)

(** [union dtf_payload]: the block the pointer refers to, [None] for NULL. *)
Definition dtf_payload_get_kind (payload : option (list Z)) : res dtf_payload_kind :=
  match payload with
  | None => Ok DTF_PAYLOAD_INVALID
  | Some mem =>
      let! code := read_u32 mem 0 in
      let! invalid := is_kind_invalid (kind_of_code code) in
      Ok (if invalid then DTF_PAYLOAD_INVALID else kind_of_code code)
  end.

Definition dtf_payload_get_seq (payload : option (list Z)) : res Z :=
  match payload with None => Err DICEY_EINVAL | Some mem => read_u32 mem 4 end.

(** Returns the block allocated for the payload; its size is the [size] of the result. *)
Definition dtf_payload_load (malloc_ok : Z -> bool) : vst (list Z) := fun src =>
  if negb (dicey_view_is_valid src) || (v_len src <? PAYLOAD_HEAD_SIZE) then (Err DICEY_EAGAIN, src) else
  match (payload_header_read (mk_view PAYLOAD_HEAD_SIZE (v_data src))).1 with
  | Err e => (Err (if bool_decide (e = DICEY_EOVERFLOW) then DICEY_EAGAIN else e), src)
  | Fault f => (Fault f, src)
  | OutOfFuel => (OutOfFuel, src)
  | Ok head =>
      let kind := kind_of_code (le_val (ztake 4 head)) in
      match message_fixed_size kind with
      | Ok fixed =>
          (if v_len src <? fixed then sfail DICEY_EAGAIN else
           do! trailer_size <- slift (trailer_read_size src kind);
           if negb (payload_kind_is_valid kind) then sfail DICEY_EBADMSG else
           do! needed_len <- slift (or_overflow (ptrdiff_add fixed trailer_size));
           if v_len src <? needed_len then sfail DICEY_EAGAIN else
           if negb (malloc_ok needed_len) then sfail DICEY_ENOMEM else
           fun src =>
             let '(read_res, remainder) := dicey_view_read_ptr local_ptr needed_len src in
             match read_res with
             | Ok data => (Ok data, remainder)
             | Err _ => (Fault AssertFailed, src)
             | Fault f => (Fault f, src)
             | OutOfFuel => (OutOfFuel, src)
             end) src
      | _ => (Err DICEY_EBADMSG, src)
      end
  end.

Definition dtf_payload_set_seq (msg : option (list Z)) (seq : Z) : res (list Z) :=
  match msg with
  | None => Err DICEY_EINVAL
  | Some mem =>
      let '(write_res, (_, mem')) :=
        dicey_view_mut_write_ptr (Some (le_bytes 4 seq)) 4 (mk_view_mut 4 (Some 4), mem) in
      let! _ := write_res in Ok mem'
  end.

(** ** Loading a payload: reference definition *)

Definition payload_kind (bs : list Z) : dtf_payload_kind := kind_of_code (le_val (ztake 4 bs)).

(** The size of the payload at the front of [bs], which holds at least its 12 fixed bytes. *)
Definition payload_size (bs : list Z) : Z :=
  MESSAGE_HEAD_SIZE + (if is_message (payload_kind bs) then le_val (ztake 4 (zdrop 8 bs)) else 0).

(** What loading a payload amounts to. *)
Definition payload_load_spec (malloc_ok : Z -> bool) (bs : list Z) : res (list Z) :=
  if zlen bs <? PAYLOAD_HEAD_SIZE then Err DICEY_EAGAIN else
  if negb (payload_kind_is_valid (payload_kind bs)) then Err DICEY_EBADMSG else
  if zlen bs <? MESSAGE_HEAD_SIZE then Err DICEY_EAGAIN else
  if zlen bs <? payload_size bs then Err DICEY_EAGAIN else
  if malloc_ok (payload_size bs) then Ok (ztake (payload_size bs) bs) else Err DICEY_ENOMEM.

Lemma ztake_ztake {A} n m (l : list A) : 0 <= n <= m -> ztake n (ztake m l) = ztake n l.
Proof. intros. unfold ztake. rewrite take_take. f_equal. lia. Qed.

Lemma ztake_app_le {A} n (a b : list A) : n <= zlen a -> ztake n (a ++ b) = ztake n a.
Proof. intros. apply take_app_le. zlia. Qed.

Lemma zdrop_app_le {A} n (a b : list A) : n <= zlen a -> zdrop n (a ++ b) = zdrop n a ++ b.
Proof. intros. apply drop_app_le. zlia. Qed.

Lemma zdrop_ztake {A} n m (l : list A) : 0 <= n <= m -> zdrop n (ztake m l) = ztake (m - n) (zdrop n l).
Proof.
  intros. unfold ztake, zdrop. rewrite skipn_firstn_comm. f_equal. lia.
Qed.

Lemma fixed_size_eq kind :
  message_fixed_size kind = if payload_kind_is_valid kind then Ok MESSAGE_HEAD_SIZE else Err DICEY_EBADMSG.
Proof. by destruct kind. Qed.

Lemma is_message_valid kind : is_message kind = true -> payload_kind_is_valid kind = true.
Proof. by destruct kind. Qed.

Lemma view_read_prefix n bs tl p :
  0 <= n <= zlen bs -> n <= PTRDIFF_MAX ->
  dicey_view_read_ptr (Some p) n (vw bs tl) = (Ok (ztake n bs), vw (zdrop n bs) tl).
Proof.
  intros Hn Hm. destruct (zsplit n bs Hn) as (a & b & -> & <-).
  rewrite vw_read, ztake_app_eq, zdrop_app_eq by done. done.
Qed.

Lemma bytes_ok_ztake n l : bytes_ok l -> bytes_ok (ztake n l).
Proof. apply Forall_take. Qed.

Lemma bytes_ok_zdrop n l : bytes_ok l -> bytes_ok (zdrop n l).
Proof. apply Forall_drop. Qed.

Lemma read_u32_bound l n : bytes_ok l -> 0 <= le_val (ztake 4 (zdrop n l)) <= UINT32_MAX.
Proof.
  intros Hl. pose proof (le_val_bound _ (bytes_ok_ztake 4 _ (bytes_ok_zdrop n _ Hl))) as H.
  assert (zlen (ztake 4 (zdrop n l)) <= 4) as H4 by zlia.
  assert (2 ^ (8 * zlen (ztake 4 (zdrop n l))) <= 2 ^ 32) by (apply Z.pow_le_mono_r; lia).
  change UINT32_MAX with (2 ^ 32 - 1). lia.
Qed.

Lemma payload_size_bound bs : bytes_ok bs -> MESSAGE_HEAD_SIZE <= payload_size bs <= MESSAGE_HEAD_SIZE + UINT32_MAX.
Proof.
  intros Hb. unfold payload_size. pose proof (read_u32_bound bs 8 Hb).
  destruct (is_message _); change UINT32_MAX with 4294967295 in *; lia.
Qed.

Lemma trailer_size_eq bs tl :
  MESSAGE_HEAD_SIZE <= zlen bs ->
  trailer_read_size (vw bs tl) (payload_kind bs) = Ok (payload_size bs - MESSAGE_HEAD_SIZE).
Proof.
  intros Hl. unfold payload_size.
  assert (is_message (payload_kind bs) = true ->
    (let! head := (message_header_read (vw bs tl)).1 in (Ok (le_val (zdrop 8 head)) : res Z)) =
    Ok (le_val (ztake 4 (zdrop 8 bs)))) as Hmsg.
  { intros _. unfold message_header_read, local_ptr. rewrite view_read_prefix by (done || (split; [done|lia])).
    cbn [fst obind]. by rewrite zdrop_ztake by done. }
  destruct (payload_kind bs); cbn [is_message trailer_read_size] in *; rewrite ?Hmsg by done; f_equal; lia.
Qed.

Lemma payload_load_eq malloc_ok bs tl :
  bytes_ok bs ->
  dtf_payload_load malloc_ok (vw bs tl) =
  match payload_load_spec malloc_ok bs with
  | Ok p => (Ok p, vw (zdrop (payload_size bs) bs) tl)
  | r => (r, vw bs tl)
  end.
Proof.
  intros Hb. unfold dtf_payload_load, payload_load_spec. cbn [vw v_len dicey_view_is_valid v_data negb orb].
  fold (vw bs tl). destruct (Z.ltb_spec (zlen bs) PAYLOAD_HEAD_SIZE) as [|H8]; [done|].
  destruct (zsplit PAYLOAD_HEAD_SIZE bs ltac:(done)) as (hd & r & -> & Hhd).
  assert (payload_header_read (mk_view PAYLOAD_HEAD_SIZE (Some ((hd ++ r) ++ tl))) = (Ok hd, vw [] (r ++ tl))) as ->.
  { unfold payload_header_read, local_ptr. rewrite <- Hhd, <- app_assoc.
    pose proof (vw_read hd [] (r ++ tl) 0) as Hr. rewrite app_nil_r in Hr. unfold vw at 1 in Hr. apply Hr.
    by rewrite Hhd. }
  cbn [fst]. cbv zeta.
  assert (kind_of_code (le_val (ztake 4 hd)) = payload_kind (hd ++ r)) as ->.
  { unfold payload_kind. by rewrite ztake_app_le by (by rewrite Hhd). }
  set (bs := hd ++ r) in *. rewrite fixed_size_eq.
  destruct (payload_kind_is_valid (payload_kind bs)) eqn:Hk; cbn [negb]; [|done].
  destruct (Z.ltb_spec (zlen bs) MESSAGE_HEAD_SIZE) as [|H12]; [done|].
  rewrite trailer_size_eq by done. srun. pose proof (payload_size_bound bs Hb). pose proof UINT32_PTRDIFF.
  change MESSAGE_HEAD_SIZE with 12 in *. rewrite ptrdiff_add_in by lia. srun.
  replace (12 + (payload_size bs - 12)) with (payload_size bs) by lia.
  destruct (Z.ltb_spec (zlen bs) (payload_size bs)); [done|].
  destruct (malloc_ok (payload_size bs)); cbn [negb]; [|done].
  unfold local_ptr. rewrite view_read_prefix by lia. done.
Qed.

(** ** Messages: reference layout *)

Definition message_trailer (path t e : cstr) (value : list Z) : list Z :=
  cstr_mem path ++ cstr_mem t ++ cstr_mem e ++ value.

Definition message_bytes (kind : dtf_payload_kind) (seq : Z) (path t e : cstr) (value : list Z) : list Z :=
  head3 kind seq (zlen (message_trailer path t e value)) ++ message_trailer path t e value.

Lemma zlen_head3 kind seq x : zlen (head3 kind seq x) = MESSAGE_HEAD_SIZE.
Proof. unfold head3. by autorewrite with zlen. Qed.
#[export] Hint Rewrite zlen_head3 : zlen.

Definition header_len (path t e : cstr) : Z :=
  MESSAGE_HEAD_SIZE + (zlen path + 1) + (zlen t + 1) + (zlen e + 1).

Lemma zlen_message kind seq path t e value :
  zlen (message_bytes kind seq path t e value) = header_len path t e + zlen value.
Proof. unfold message_bytes, message_trailer, header_len. autorewrite with zlen. lia. Qed.
#[export] Hint Rewrite zlen_message : zlen.

Lemma header_len_pos path t e : MESSAGE_HEAD_SIZE + 3 <= header_len path t e.
Proof.
  unfold header_len. pose proof (zlen_nonneg path). pose proof (zlen_nonneg t). pose proof (zlen_nonneg e). lia.
Qed.

(** The sizes that add up to a header of at most [UINT32_MAX] bytes. *)
Lemma header_len_small path t e :
  header_len path t e <= UINT32_MAX ->
  zlen path < UINT32_MAX /\ zlen t < UINT32_MAX /\ zlen e < UINT32_MAX.
Proof.
  unfold header_len. pose proof (zlen_nonneg path). pose proof (zlen_nonneg t). pose proof (zlen_nonneg e).
  change MESSAGE_HEAD_SIZE with 12. lia.
Qed.

Lemma estimate_header_ok kind path t e :
  is_message kind = true -> header_len path t e <= UINT32_MAX ->
  dtf_message_estimate_header_size kind (Some path) (mk_selector (Some t) (Some e)) = Ok (header_len path t e).
Proof.
  intros Hk Hh. destruct (header_len_small _ _ _ Hh) as (Hp & Ht & He).
  unfold dtf_message_estimate_header_size, header_len in *. cbn [trait elem]. rewrite Hk.
  rewrite fixed_size_eq, is_message_valid by done. cbn [obind].
  pose proof (zlen_nonneg path). pose proof (zlen_nonneg t). pose proof (zlen_nonneg e).
  pose proof UINT32_PTRDIFF. change MESSAGE_HEAD_SIZE with 12 in *.
  unfold dicey_selector_size. cbn [add_sizes trait elem]. rewrite !zstring_size_ok by lia. cbn [obind].
  rewrite ptrdiff_add_in by lia. cbn [obind].
  rewrite !u32_small by lia. unfold u32_add. rewrite checked_add_in by lia. cbn [obind].
  rewrite checked_add_in by lia. cbn [obind]. f_equal. lia.
Qed.

(** A value is present exactly when the kind is not GET. *)
Definition value_presence {A} (kind : dtf_payload_kind) (value : option A) : Prop :=
  kind = DTF_PAYLOAD_GET <-> value = None.

Lemma value_presence_eqb {A} kind (value : option A) :
  value_presence kind value ->
  Bool.eqb (negb (bool_decide (kind = DTF_PAYLOAD_GET))) (bool_decide (is_Some value)) = true.
Proof.
  intros H. destruct value as [v|]; destruct (decide (kind = DTF_PAYLOAD_GET)) as [Hk|Hk].
  - by apply H in Hk.
  - by rewrite (bool_decide_eq_false_2 _ Hk).
  - by rewrite (bool_decide_eq_true_2 _ Hk).
  - by destruct Hk; apply H.
Qed.

Definition value_bytes (value : option dicey_arg) : list Z :=
  match value with Some v => encode_variant v | None => [] end.

Definition value_writable (value : option dicey_arg) : Prop :=
  match value with Some v => writable v | None => True end.

Lemma estimate_message_ok kind path t e value :
  is_message kind = true -> value_presence kind value -> value_writable value ->
  header_len path t e + zlen (value_bytes value) <= UINT32_MAX ->
  dtf_message_estimate_size kind (Some path) (mk_selector (Some t) (Some e)) value =
  Ok (header_len path t e + zlen (value_bytes value)).
Proof.
  intros Hk Hv Hw Hl. unfold dtf_message_estimate_size. rewrite value_presence_eqb by done. cbn [negb].
  pose proof (zlen_nonneg (value_bytes value)). pose proof (header_len_pos path t e).
  change MESSAGE_HEAD_SIZE with 12 in *. pose proof UINT32_PTRDIFF.
  rewrite estimate_header_ok by (done || lia). cbn [obind].
  assert (match value with Some v => dtf_value_estimate_size v | None => Ok 0 end =
          Ok (zlen (value_bytes value))) as ->.
  { destruct value as [v|]; [|done]. cbn [value_bytes] in *. apply estimate_size_ok; [done|]. unfold encode_variant in *. lia. }
  cbn [obind]. rewrite ptrdiff_add_in by lia. cbn [obind]. zbool; (lia || done).
Qed.

(** ** Writing messages *)

Lemma wst_write_ptr pre r1 r2 post bs n :
  zlen r1 = zlen bs -> n = zlen bs ->
  dicey_view_mut_write_ptr (Some bs) n (wst pre (r1 ++ r2) post) = (Ok n, wst (pre ++ bs) r2 post).
Proof.
  intros Hr ->. unfold dicey_view_mut_write_ptr, dicey_view_from.
  replace (mk_view (zlen bs) (Some bs)) with (vw bs []) by (unfold vw; by rewrite app_nil_r).
  by apply wst_write.
Qed.

Lemma wst_write_selector pre r1 r2 post t e :
  zlen t < UINT32_MAX -> zlen e < UINT32_MAX -> zlen r1 = (zlen t + 1) + (zlen e + 1) ->
  dtf_selector_write (mk_selector (Some t) (Some e)) (wst pre (r1 ++ r2) post) =
  (Ok 0, wst (pre ++ cstr_mem t ++ cstr_mem e) r2 post).
Proof.
  intros Ht He Hr. pose proof (zlen_nonneg t). pose proof (zlen_nonneg e).
  destruct (zsplit (zlen t + 1) r1 ltac:(lia)) as (a & b & -> & Ha). rewrite zlen_app in Hr.
  unfold dtf_selector_write, wst. cbn [vm_data trait elem]. rewrite !zstring_size_ok by lia. srun.
  unfold dicey_view_mut_write_chunks. cbn [vm_data]. fold (wst pre ((a ++ b) ++ r2) post).
  rewrite <- app_assoc. cbn [dicey_view_mut_write_chunks_loop].
  pose proof (wst_write_ptr pre a (b ++ r2) post (cstr_mem t) (zlen t + 1)) as H1.
  rewrite zlen_cstr_mem in H1. unfold dicey_view_mut_write_ptr, dicey_view_from in H1.
  specialize (H1 Ha eq_refl). srw H1.
  pose proof (wst_write_ptr (pre ++ cstr_mem t) b r2 post (cstr_mem e) (zlen e + 1)) as H2.
  rewrite zlen_cstr_mem in H2. unfold dicey_view_mut_write_ptr, dicey_view_from in H2.
  specialize (H2 ltac:(lia) eq_refl). srw H2. unfold sret, wst. by rewrite <- !app_assoc.
Qed.

(** The bytes before the value, for a message of [n] bytes. *)
Definition prefix_bytes (kind : dtf_payload_kind) (seq n : Z) (path t e : cstr) : list Z :=
  head3 kind seq (n - MESSAGE_HEAD_SIZE) ++ cstr_mem path ++ cstr_mem t ++ cstr_mem e.

Lemma message_bytes_prefix kind seq path t e value :
  message_bytes kind seq path t e value =
  prefix_bytes kind seq (header_len path t e + zlen value) path t e ++ value.
Proof.
  unfold message_bytes, prefix_bytes, message_trailer, header_len. rewrite <- !app_assoc.
  autorewrite with zlen. do 2 f_equal. lia.
Qed.

Lemma message_prefix_ok kind seq n path t e pre r1 r2 post :
  header_len path t e <= n <= UINT32_MAX -> zlen r1 = header_len path t e ->
  message_prefix_write kind seq n (Some path) (mk_selector (Some t) (Some e)) (wst pre (r1 ++ r2) post) =
  (Ok 0, wst (pre ++ prefix_bytes kind seq n path t e) r2 post).
Proof.
  intros Hn Hr. pose proof (header_len_pos path t e). change MESSAGE_HEAD_SIZE with 12 in *.
  destruct (header_len_small path t e ltac:(lia)) as (Hp & Ht & He). unfold header_len in Hr.
  pose proof (zlen_nonneg path). pose proof (zlen_nonneg t). pose proof (zlen_nonneg e).
  change MESSAGE_HEAD_SIZE with 12 in *.
  destruct (zsplit 12 r1 ltac:(lia)) as (a & b & -> & Ha). rewrite zlen_app in Hr.
  destruct (zsplit (zlen path + 1) b ltac:(lia)) as (c & d & -> & Hc). rewrite zlen_app in Hr.
  unfold message_prefix_write, message_header_write. change MESSAGE_HEAD_SIZE with 12. rewrite !u32_small by (rewrite ?u32_small; lia).
  rewrite <- !app_assoc.
  srw (wst_write_ptr pre a (c ++ d ++ r2) post (head3 kind seq (n - 12)) 12 Ha eq_refl).
  srw (wst_write_zstring (pre ++ head3 kind seq (n - 12)) c (d ++ r2) post path Hp Hc).
  rewrite wst_write_selector by lia. unfold wst, prefix_bytes. change MESSAGE_HEAD_SIZE with 12.
  by rewrite <- !app_assoc.
Qed.

Lemma message_value_ok calloc_ok value pre r1 r2 post :
  value_writable value -> zlen r1 = zlen (value_bytes value) -> zlen r1 <= UINT32_MAX ->
  message_value_write calloc_ok (wst pre (r1 ++ r2) post).1 (wst pre (r1 ++ r2) post).2 value =
  Ok (None, Some (pre ++ value_bytes value ++ r2 ++ post)).
Proof.
  intros Hw Hr Hm. pose proof UINT32_PTRDIFF. unfold message_value_write, wst. cbn [fst snd].
  destruct value as [v|]; cbn [value_bytes value_writable] in *.
  - unfold encode_variant in *. rewrite <- app_assoc, dtf_value_write_fits by (done || lia).
    cbn [obind vr_result vr_value vm_data]. rewrite bool_decide_eq_true_2 by done. done.
  - change (zlen []) with 0 in Hr. apply zlen_0_nil in Hr as ->. done.
Qed.

(** What [dtf_message_write] and [dtf_message_write_with_raw_value] need of their arguments. *)
Definition message_fits (kind : dtf_payload_kind) (path t e : cstr) (len : Z) : Prop :=
  is_message kind = true /\ header_len path t e + len <= UINT32_MAX.

(** Both writers on a block with room for the message, at any position. *)
Lemma message_write_fits calloc_ok kind seq path t e value pre area room post :
  message_fits kind path t e (zlen (value_bytes value)) ->
  value_presence kind value -> value_writable value ->
  zlen area = header_len path t e + zlen (value_bytes value) ->
  dtf_message_write calloc_ok (mk_view_mut (zlen (area ++ room)) (Some (zlen pre)))
    (pre ++ area ++ room ++ post) kind seq (Some path) (mk_selector (Some t) (Some e)) value =
  Ok (mk_dtf_result (inr 0) (zlen area) (Some (zlen pre)),
      Some (pre ++ message_bytes kind seq path t e (value_bytes value) ++ room ++ post)).
Proof.
  intros [Hk Hl] Hv Hw Ha. pose proof (header_len_pos path t e). pose proof (zlen_nonneg (value_bytes value)).
  change MESSAGE_HEAD_SIZE with 12 in *. pose proof (zlen_nonneg room).
  destruct (header_len_small path t e ltac:(lia)) as (Hp & _ & _).
  unfold dtf_message_write. rewrite zstring_size_ok by lia. rewrite estimate_message_ok, <- Ha by done.
  unfold dicey_view_mut_ensure_cap. cbn [vm_len vm_data]. zbool; [rewrite zlen_app in *; lia|].
  destruct (zsplit (header_len path t e) area ltac:(lia)) as (r1 & r2 & -> & Hr1).
  rewrite zlen_app in Ha.
  pose proof (message_prefix_ok kind seq (zlen (r1 ++ r2)) path t e pre r1 (r2 ++ room) post
    ltac:(rewrite zlen_app; lia) Hr1) as Hpre.
  unfold wst at 1 in Hpre. rewrite !app_assoc in Hpre |- *. rewrite Hpre.
  rewrite (surjective_pairing (wst (pre ++ _) _ _)).
  rewrite message_value_ok by (done || lia). cbn [obind]. do 3 f_equal.
  rewrite message_bytes_prefix, zlen_app, Ha. by rewrite <- !app_assoc.
Qed.

(** The same when the message is allocated. *)
Lemma message_write_alloc calloc_ok mem kind seq path t e value :
  message_fits kind path t e (zlen (value_bytes value)) ->
  value_presence kind value -> value_writable value ->
  let bs := message_bytes kind seq path t e (value_bytes value) in
  calloc_ok (zlen bs) = true ->
  dtf_message_write calloc_ok DICEY_NULL mem kind seq (Some path) (mk_selector (Some t) (Some e)) value =
  Ok (mk_dtf_result (inr (zlen bs)) (zlen bs) (Some 0), Some bs).
Proof.
  intros [Hk Hl] Hv Hw bs Hc. pose proof (header_len_pos path t e). pose proof (zlen_nonneg (value_bytes value)).
  change MESSAGE_HEAD_SIZE with 12 in *. pose proof UINT32_PTRDIFF.
  destruct (header_len_small path t e ltac:(lia)) as (Hp & _ & _).
  unfold dtf_message_write. rewrite zstring_size_ok by lia. rewrite estimate_message_ok by done.
  unfold bs in *. rewrite zlen_message in *. set (n := header_len path t e + zlen (value_bytes value)) in *.
  unfold dicey_view_mut_ensure_cap, DICEY_NULL. cbn [vm_len vm_data]. rewrite Hc. cbn [negb].
  zbool; try lia. cbn [vm_data].
  set (blk := replicate (Z.to_nat n) 0). assert (zlen blk = n) as Hblk by (apply zlen_replicate; lia).
  destruct (zsplit (header_len path t e) blk ltac:(lia)) as (r1 & r2 & E & Hr1).
  assert ((mk_view_mut n (Some 0), blk) = wst [] (r1 ++ r2) []) as ->.
  { unfold wst. rewrite app_nil_r, <- E, Hblk. done. }
  rewrite message_prefix_ok by lia. rewrite E, zlen_app in Hblk.
  rewrite (surjective_pairing (wst _ r2 [])).
  pose proof (message_value_ok calloc_ok value ([] ++ prefix_bytes kind seq n path t e) r2 [] [] Hw) as Hval.
  rewrite (app_nil_r r2) in Hval. rewrite Hval by lia. cbn [obind]. do 3 f_equal.
  rewrite message_bytes_prefix. cbn [app]. by rewrite !app_nil_r.
Qed.

Lemma raw_message_write_alloc calloc_ok mem kind seq path t e value tl :
  message_fits kind path t e (zlen value) ->
  let bs := message_bytes kind seq path t e value in
  calloc_ok (zlen bs) = true ->
  dtf_message_write_with_raw_value calloc_ok DICEY_NULL mem kind seq (Some path)
    (mk_selector (Some t) (Some e)) (vw value tl) =
  Ok (mk_dtf_result (inr (zlen bs)) (zlen bs) (Some 0), Some bs).
Proof.
  intros [Hk Hl] bs Hc. pose proof (header_len_pos path t e). pose proof (zlen_nonneg value).
  change MESSAGE_HEAD_SIZE with 12 in *. pose proof UINT32_PTRDIFF.
  destruct (header_len_small path t e ltac:(lia)) as (Hp & _ & _).
  unfold dtf_message_write_with_raw_value. rewrite zstring_size_ok by lia.
  cbn [v_len vw]. destruct (Z.ltb_spec PTRDIFF_MAX (zlen value)); [lia|].
  rewrite estimate_header_ok by (done || lia). cbn [obind]. rewrite ptrdiff_add_in by lia.
  unfold bs in *. rewrite zlen_message in *. set (n := header_len path t e + zlen value) in *.
  unfold dicey_view_mut_ensure_cap, DICEY_NULL. cbn [vm_len vm_data]. rewrite Hc. cbn [negb].
  zbool; try lia. cbn [vm_data].
  set (blk := replicate (Z.to_nat n) 0). assert (zlen blk = n) as Hblk by (apply zlen_replicate; lia).
  destruct (zsplit (header_len path t e) blk ltac:(lia)) as (r1 & r2 & E & Hr1).
  assert ((mk_view_mut n (Some 0), blk) = wst [] (r1 ++ r2) []) as ->.
  { unfold wst. rewrite app_nil_r, <- E, Hblk. done. }
  rewrite E, zlen_app in Hblk.
  rewrite (sbind_Ok _ _ _ _ _ (message_prefix_ok kind seq n path t e [] r1 r2 [] ltac:(lia) Hr1)).
  rewrite <- (app_nil_r r2). fold (vw value tl). rewrite wst_write by lia. unfold wst. do 3 f_equal.
  rewrite message_bytes_prefix. cbn [app]. by rewrite !app_nil_r.
Qed.

(** ** Reading messages *)

Definition nonzero (s : cstr) : Prop := Forall (fun c => c <> 0) s.

Lemma selector_from_cases bs tl :
  (exists t e b, bs = cstr_mem t ++ cstr_mem e ++ b /\ nonzero t /\ nonzero e /\
     dtf_selector_from (vw bs tl) = (Ok (zlen t + 1 + (zlen e + 1), mk_selector (Some t) (Some e)), vw b tl)) \/
  (exists e, (dtf_selector_from (vw bs tl)).1 = Err e).
Proof.
  assert (dtf_selector_from (vw bs tl) =
    (do! (trait_len, t) <- dicey_view_as_zstring;
     do! (elem_len, e) <- dicey_view_as_zstring;
     do! read_bytes <- slift (or_overflow (ptrdiff_add trait_len elem_len));
     sret (read_bytes, mk_selector (Some t) (Some e))) (vw bs tl)) as -> by done.
  destruct (vw_zstring_cases bs tl) as [(t & b & -> & Ht & E)|(er & E)];
    [|right; exists er; by rewrite (sbind_Err _ _ _ _ _ E)].
  rewrite !(sbind_Ok _ _ _ _ _ E).
  destruct (vw_zstring_cases b tl) as [(e & b' & -> & He & E')|(er & E')];
    [|right; exists er; by rewrite (sbind_Err _ _ _ _ _ E')].
  rewrite !(sbind_Ok _ _ _ _ _ E'). unfold sbind, slift.
  destruct (ptrdiff_add_cases (zlen t + 1) (zlen e + 1)) as [-> | ->]; [left|right; by eexists].
  exists t, e, b'. rewrite !cstr_small_split. by split_and!.
Qed.

(** The parts of a well-formed trailer, as [dtf_message_get_content] returns them. *)
Definition content_of (path t e : cstr) (value rest : list Z) : dtf_message_content :=
  mk_content path (mk_selector (Some t) (Some e))
    (if zlen value =? 0 then None else Some (value ++ rest)) (zlen value).

(** The bytes of a payload have the size its header declares. *)
Definition payload_ok (p : list Z) : Prop :=
  bytes_ok p /\ payload_kind_is_valid (payload_kind p) = true /\ MESSAGE_HEAD_SIZE <= zlen p /\
  zlen p = payload_size p.

Lemma read_u32_ok mem off : 0 <= off -> off + 4 <= zlen mem -> read_u32 mem off = Ok (le_val (ztake 4 (zdrop off mem))).
Proof.
  intros. unfold read_u32, mem_read. rewrite zlen_zdrop by lia. zbool; (lia || done).
Qed.

Lemma get_content_of_zstring trailer tl :
  let data := trailer ++ tl in
  match (dicey_view_as_zstring (mk_view (zlen trailer) (Some data))).1 with
  | Ok (path_len, path) =>
      exists b, trailer = cstr_mem path ++ b /\ nonzero path /\ path_len = zlen path + 1 /\
      mk_view (zlen trailer - path_len) (Some (zdrop path_len data)) = vw b tl
  | Err _ => True
  | _ => False
  end.
Proof.
  cbv zeta. fold (vw trailer tl).
  destruct (vw_zstring_cases trailer tl) as [(s & b & -> & Hs & ->)|(e & ->)]; [|done]. cbn [fst].
  exists b. rewrite cstr_small_split. split_and!; auto. unfold vw. rewrite <- (cstr_small_split s b), zlen_app, zlen_cstr_mem.
  f_equal; [lia|]. rewrite <- app_assoc, zdrop_app_eq by (by rewrite zlen_cstr_mem). done.
Qed.

(** Extracting the content of a loaded message either reports an error or splits the bytes
    after the header into path, trait, element and value. *)
Lemma get_content_cases p :
  payload_ok p -> is_message (payload_kind p) = true ->
  (exists path t e value,
     dtf_message_get_content (Some p) (zlen p) = Ok (content_of path t e value []) /\
     p = ztake MESSAGE_HEAD_SIZE p ++ message_trailer path t e value /\
     nonzero path /\ nonzero t /\ nonzero e) \/
  (exists e, dtf_message_get_content (Some p) (zlen p) = Err e).
Proof.
  intros (Hb & Hk & H12 & Hz) Hm. unfold payload_size in Hz. rewrite Hm in Hz.
  pose proof (read_u32_bound p 8 Hb). set (n := le_val _) in *. change MESSAGE_HEAD_SIZE with 12 in *.
  unfold dtf_message_get_content, message_get_trailer_size. change MESSAGE_HEAD_SIZE with 12.
  destruct (Z.leb_spec (zlen p) 12); [by right; eexists|]. rewrite read_u32_ok by lia. fold n. cbn [obind].
  destruct (Z.ltb_spec (zlen p) n); [by right; eexists|].
  set (trailer := zdrop 12 p). assert (zlen trailer = n) as Ht by (unfold trailer; rewrite zlen_zdrop; lia).
  pose proof (get_content_of_zstring trailer []) as Hc. cbv zeta in Hc. rewrite app_nil_r, Ht in Hc.
  destruct (dicey_view_as_zstring _).1 as [[path_len path]|e| |]; try done; [|by right; eexists].
  destruct Hc as (b & Eb & Hp & -> & Ev). cbn [obind]. rewrite Ev.
  rewrite Eb, zlen_app, zlen_cstr_mem in Ht. pose proof (zlen_nonneg b).
  destruct (Z.leb_spec (zlen path + 1) n); [|lia]. cbn [oassert obind].
  destruct (selector_from_cases b []) as [(t & e & value & -> & Hte & Hee & ->)|(er & E)].
  - rewrite !zlen_app, !zlen_cstr_mem in Ht. cbn [obind v_len vw v_data].
    destruct (Z.eqb_spec (zlen t + 1 + (zlen e + 1) + (zlen path + 1) + zlen value) n); [|lia].
    cbn [oassert obind]. left. exists path, t, e, value. split_and!; try done.
    unfold message_trailer. rewrite <- Eb. symmetry. apply ztake_zdrop.
  - destruct (dtf_selector_from (vw b [])) as [r c]. cbn [fst] in E. subst r. by right; eexists.
Qed.

(** The content of a written message. *)
Lemma get_content_message kind seq path t e value :
  nonzero path -> nonzero t -> nonzero e -> header_len path t e + zlen value <= UINT32_MAX ->
  let p := message_bytes kind seq path t e value in
  dtf_message_get_content (Some p) (zlen p) = Ok (content_of path t e value []).
Proof.
  intros Hp Ht He Hl p. pose proof (header_len_pos path t e). pose proof (zlen_nonneg value).
  assert (zlen p = header_len path t e + zlen value) as Hz by (unfold p; by autorewrite with zlen).
  assert (zlen (message_trailer path t e value) = zlen p - 12) as Htr.
  { rewrite Hz. unfold message_trailer, header_len. change MESSAGE_HEAD_SIZE with 12. autorewrite with zlen. lia. }
  assert (zdrop 12 p = message_trailer path t e value) as Hd.
  { apply zdrop_app_eq. by rewrite zlen_head3. }
  change MESSAGE_HEAD_SIZE with 12 in *.
  unfold dtf_message_get_content, message_get_trailer_size. change MESSAGE_HEAD_SIZE with 12.
  destruct (Z.leb_spec (zlen p) 12); [lia|]. rewrite read_u32_ok by lia. cbn [obind].
  assert (le_val (ztake 4 (zdrop 8 p)) = zlen (message_trailer path t e value)) as ->.
  { unfold p, message_bytes, head3. rewrite <- !app_assoc, app_assoc, zdrop_app_eq, ztake_app_eq
      by (autorewrite with zlen; done). apply le4. rewrite Htr. lia. }
  rewrite Hd. destruct (Z.ltb_spec (zlen p) (zlen (message_trailer path t e value))); [lia|].
  pose proof UINT32_PTRDIFF. destruct (header_len_small path t e ltac:(lia)) as (Hps & Hts & Hes).
  pose proof (zlen_nonneg path). pose proof (zlen_nonneg t). pose proof (zlen_nonneg e).
  set (b := cstr_mem t ++ cstr_mem e ++ value).
  assert (dicey_view_as_zstring (vw (message_trailer path t e value) []) = (Ok (zlen path + 1, path), vw b [])) as E.
  { unfold message_trailer. fold b. rewrite cstr_small_split. apply vw_zstring; [done|lia]. }
  unfold vw at 1 in E. rewrite app_nil_r in E. rewrite E. cbn [fst obind]. rewrite Htr.
  destruct (Z.leb_spec (zlen path + 1) (zlen p - 12)); [|unfold header_len in Hz; change MESSAGE_HEAD_SIZE with 12 in Hz; lia].
  cbn [oassert obind].
  assert (mk_view (zlen p - 12 - (zlen path + 1)) (Some (zdrop (zlen path + 1) (message_trailer path t e value))) = vw b []) as ->.
  { unfold vw, message_trailer. fold b. rewrite zdrop_app_eq by (by rewrite zlen_cstr_mem). rewrite app_nil_r.
    f_equal. rewrite <- Htr. unfold message_trailer. fold b. autorewrite with zlen. lia. }
  assert (dtf_selector_from (vw b []) =
    (Ok (zlen t + 1 + (zlen e + 1), mk_selector (Some t) (Some e)), vw value [])) as ->.
  { unfold b. by apply probe_selector_nonzero. }
  cbn [obind v_len vw v_data].
  destruct (Z.eqb_spec (zlen t + 1 + (zlen e + 1) + (zlen path + 1) + zlen value) (zlen p - 12)) as [_|Hne].
  - done.
  - unfold header_len in Hz. change MESSAGE_HEAD_SIZE with 12 in Hz. lia.
Qed.

(** ** Properties *)

Lemma payload_kind_app p rest : 4 <= zlen p -> payload_kind (p ++ rest) = payload_kind p.
Proof. intros. unfold payload_kind. by rewrite ztake_app_le. Qed.

Lemma payload_size_app p rest : MESSAGE_HEAD_SIZE <= zlen p -> payload_size (p ++ rest) = payload_size p.
Proof.
  change MESSAGE_HEAD_SIZE with 12. intros. unfold payload_size. rewrite payload_kind_app by lia.
  rewrite zdrop_app_le, ztake_app_le by (rewrite ?zlen_zdrop; lia). done.
Qed.

Lemma payload_load_whole malloc_ok p rest :
  payload_ok p -> bytes_ok rest -> malloc_ok (zlen p) = true ->
  forall tl, dtf_payload_load malloc_ok (vw (p ++ rest) tl) = (Ok p, vw rest tl).
Proof.
  intros (Hb & Hk & H12 & Hz) Hr Hm tl. rewrite payload_load_eq by (by apply Forall_app).
  unfold payload_load_spec. rewrite payload_kind_app, payload_size_app, zlen_app, <- Hz by (change MESSAGE_HEAD_SIZE with 12 in *; lia).
  rewrite Hk, Hm. pose proof (zlen_nonneg rest). change PAYLOAD_HEAD_SIZE with 8. change MESSAGE_HEAD_SIZE with 12 in *.
  cbn [negb]. zbool; try lia. rewrite ztake_app_eq, zdrop_app_eq by done. done.
Qed.

(** C33: [dtf_payload_load] computes the reference definition [payload_load_spec] on every
    stream of bytes: it waits ([EAGAIN]) until the header and then the whole payload have
    arrived, rejects unknown kinds as soon as the first 8 bytes are there, copies exactly the
    bytes of the payload, and moves the stream past them only on success. *)
Theorem dtf_payload_load_correct malloc_ok bs tl :
  bytes_ok bs ->
  dtf_payload_load malloc_ok (vw bs tl) =
  match payload_load_spec malloc_ok bs with
  | Ok p => (Ok p, vw (zdrop (zlen p) bs) tl)
  | r => (r, vw bs tl)
  end.
Proof.
  intros Hb. rewrite payload_load_eq by done. destruct (payload_load_spec malloc_ok bs) as [p| | |] eqn:E; try done.
  unfold payload_load_spec in E. pose proof (payload_size_bound bs Hb). change MESSAGE_HEAD_SIZE with 12 in *.
  destruct (_ <? _); [done|]. destruct (negb _); [done|].
  destruct (_ <? _); [done|]. destruct (Z.ltb_spec (zlen bs) (payload_size bs)); [done|].
  destruct (malloc_ok _); [|done]. injection E as <-. rewrite zlen_ztake by lia. done.
Qed.

Lemma dtf_payload_load_correct_witness :
  dtf_payload_load (fun _ => true) (vw [1; 0; 0; 0; 9; 0; 0; 0; 1; 0; 2; 0; 77] [5]) =
  (Ok [1; 0; 0; 0; 9; 0; 0; 0; 1; 0; 2; 0], vw [77] [5]).
Proof.
  rewrite (dtf_payload_load_correct (fun _ => true) [1; 0; 0; 0; 9; 0; 0; 0; 1; 0; 2; 0; 77] [5]);
    [reflexivity|]. repeat (constructor; [split; [lia|reflexivity]|]). constructor.
Defined.

(** Loading is incremental and self-delimiting. A complete payload is loaded the same way
    whatever bytes follow it, which stay in the stream; any strict prefix of it reports
    [EAGAIN] and leaves the stream untouched. *)
Theorem dtf_payload_load_incremental malloc_ok p rest tl :
  payload_ok p -> bytes_ok rest -> malloc_ok (zlen p) = true ->
  dtf_payload_load malloc_ok (vw (p ++ rest) tl) = (Ok p, vw rest tl) /\
  (forall a b, p = a ++ b -> b <> [] ->
     dtf_payload_load malloc_ok (vw a tl) = (Err DICEY_EAGAIN, vw a tl)).
Proof.
  intros Hp Hr Hm. split; [by apply payload_load_whole|].
  intros a b -> Hne. destruct Hp as (Hb & Hk & H12 & Hz). apply Forall_app in Hb as [Ha _].
  assert (0 < zlen b) by (destruct b; [done|rewrite zlen_cons; pose proof (zlen_nonneg b); lia]).
  rewrite zlen_app in *. rewrite payload_load_eq by done. unfold payload_load_spec.
  change PAYLOAD_HEAD_SIZE with 8. change MESSAGE_HEAD_SIZE with 12 in *.
  destruct (Z.ltb_spec (zlen a) 8); [done|]. rewrite payload_kind_app in Hk by lia. rewrite Hk. cbn [negb].
  destruct (Z.ltb_spec (zlen a) 12); [done|].
  rewrite payload_size_app in Hz by (change MESSAGE_HEAD_SIZE with 12; lia).
  destruct (Z.ltb_spec (zlen a) (payload_size a)); [done|lia].
Qed.

Lemma dtf_payload_load_incremental_witness :
  dtf_payload_load (fun _ => true) (vw [2; 0; 0; 0; 9; 0; 0] []) =
  (Err DICEY_EAGAIN, vw [2; 0; 0; 0; 9; 0; 0] []).
Proof.
  apply (dtf_payload_load_incremental (fun _ => true) [2; 0; 0; 0; 9; 0; 0; 0; 1; 0; 0; 0] [] [])
    with (b := [0; 1; 0; 0; 0]); try done; [|constructor].
  split_and!; [|done..]. repeat (constructor; [split; [lia|reflexivity]|]). constructor.
Defined.

(** [dtf_message_write] on every branch of its buffer handling, for a message whose parts
    are representable: without a buffer the message is allocated at its exact size and its
    bytes are the documented layout, or [ENOMEM] is reported; a short buffer is left untouched,
    [EAGAIN] comes with the size needed; in a large enough buffer exactly the message's bytes
    change. *)
Theorem dtf_message_write_spec calloc_ok kind seq path t e value pre area post mem :
  message_fits kind path t e (zlen (value_bytes value)) ->
  value_presence kind value -> value_writable value ->
  let sel := mk_selector (Some t) (Some e) in
  let bs := message_bytes kind seq path t e (value_bytes value) in
  dtf_message_write calloc_ok DICEY_NULL mem kind seq (Some path) sel value =
    Ok (if calloc_ok (zlen bs)
        then (mk_dtf_result (inr (zlen bs)) (zlen bs) (Some 0), Some bs)
        else (mk_dtf_result (inl DICEY_ENOMEM) (zlen bs) None, Some mem)) /\
  dtf_message_write calloc_ok (mk_view_mut (zlen area) (Some (zlen pre))) (pre ++ area ++ post)
      kind seq (Some path) sel value =
    Ok (if zlen area <? zlen bs
        then (mk_dtf_result (inl DICEY_EAGAIN) (zlen bs) None, Some (pre ++ area ++ post))
        else (mk_dtf_result (inr 0) (zlen bs) (Some (zlen pre)),
              Some (pre ++ bs ++ zdrop (zlen bs) area ++ post))).
Proof.
  intros Hf Hv Hw sel bs. pose proof (header_len_pos path t e). change MESSAGE_HEAD_SIZE with 12 in *.
  pose proof (zlen_nonneg (value_bytes value)). pose proof UINT32_PTRDIFF.
  assert (zlen bs = header_len path t e + zlen (value_bytes value)) as Hz by apply zlen_message.
  split.
  - destruct (calloc_ok (zlen bs)) eqn:Hc; [by apply message_write_alloc|].
    destruct Hf as [Hk Hl]. unfold dtf_message_write.
    destruct (header_len_small path t e ltac:(lia)) as (Hp & _). rewrite zstring_size_ok by lia.
    unfold sel. rewrite estimate_message_ok, <- Hz by done.
    unfold dicey_view_mut_ensure_cap, DICEY_NULL. cbn [vm_len vm_data]. rewrite Hc. zbool; (lia || done).
  - destruct (Z.ltb_spec (zlen area) (zlen bs)) as [Hs|Hs].
    + destruct Hf as [Hk Hl]. unfold dtf_message_write.
      destruct (header_len_small path t e ltac:(lia)) as (Hp & _). rewrite zstring_size_ok by lia.
      unfold sel. rewrite estimate_message_ok, <- Hz by done.
      unfold dicey_view_mut_ensure_cap. cbn [vm_len vm_data]. zbool; (lia || done).
    + destruct (zsplit (zlen bs) area ltac:(lia)) as (r1 & r2 & -> & Hr).
      rewrite <- app_assoc, zdrop_app_eq, <- Hr by done. apply message_write_fits; (done || lia).
Qed.

Lemma dtf_message_write_spec_witness :
  exists bs, dtf_message_write (fun _ => true) DICEY_NULL [] DTF_PAYLOAD_SET 7 (Some [47])
    (mk_selector (Some [65]) (Some [66])) (Some (ArgBool 1)) =
  Ok (mk_dtf_result (inr 20) 20 (Some 0), Some bs).
Proof.
  destruct (dtf_message_write_spec (fun _ => true) DTF_PAYLOAD_SET 7 [47] [65] [66] (Some (ArgBool 1)) [] [] [] [])
    as [H _].
  - done.
  - done.
  - done.
  - eexists. exact H.
Defined.

(** The pointer that [dtf_bye_write] and [dtf_hello_write] return is not the start of the
    payload but the byte after it, because the cursor they return has been advanced by the
    write; and a count of 0 is reported even when the payload was allocated. *)
Theorem fixed_writes_return_end seq x :
  let alloc _ := true in
  (exists r m, dtf_bye_write alloc DICEY_NULL [] seq x = Ok (r, m) /\
     m = head3 DTF_PAYLOAD_BYE seq x /\ dr_result r = inr 0 /\ dr_data r = Some (zlen m)) /\
  (exists r m, dtf_hello_write alloc DICEY_NULL [] seq x = Ok (r, m) /\
     m = head3 DTF_PAYLOAD_HELLO seq x /\ dr_result r = inr 0 /\ dr_data r = Some (zlen m)).
Proof. cbv zeta. split; eexists _, _; (split; [reflexivity|]); by vm_compute. Qed.

Lemma mem_write_seq a s b :
  zlen a = 4 -> zlen s = 4 -> forall seq,
  dtf_payload_set_seq (Some (a ++ s ++ b)) seq = Ok (a ++ le_bytes 4 seq ++ b).
Proof.
  intros Ha Hs seq. unfold dtf_payload_set_seq.
  pose proof (wst_write_ptr a s [] b (le_bytes 4 seq) 4) as H. unfold wst in H.
  rewrite zlen_le_bytes, Ha, app_nil_r, Hs in H. rewrite (H eq_refl eq_refl). cbn [obind]. by rewrite <- app_assoc.
Qed.

(** Setting the sequence number of a payload and reading it back yields that number
    (32 bits wide), and every other byte of the payload is unchanged. *)
Theorem dtf_payload_seq_roundtrip a s b seq :
  zlen a = 4 -> zlen s = 4 ->
  exists mem, dtf_payload_set_seq (Some (a ++ s ++ b)) seq = Ok mem /\
    dtf_payload_get_seq (Some mem) = Ok (u32 seq) /\
    ztake 4 mem = a /\ zdrop 8 mem = b.
Proof.
  intros Ha Hs. eexists. split; [by apply mem_write_seq|]. pose proof (zlen_nonneg b).
  split_and!.
  - unfold dtf_payload_get_seq. rewrite read_u32_ok by (autorewrite with zlen; lia).
    rewrite (zdrop_app_eq 4 a), ztake_app_eq, le_val_le_bytes by (by autorewrite with zlen). done.
  - by apply ztake_app_eq.
  - rewrite app_assoc. apply zdrop_app_eq. autorewrite with zlen. lia.
Qed.

Lemma dtf_payload_seq_roundtrip_witness :
  exists mem, dtf_payload_set_seq (Some [1; 0; 0; 0; 0; 0; 0; 0; 3; 0; 0; 0]) 258 = Ok mem /\
    dtf_payload_get_seq (Some mem) = Ok 258.
Proof.
  destruct (dtf_payload_seq_roundtrip [1; 0; 0; 0] [0; 0; 0; 0] [3; 0; 0; 0] 258) as (mem & H1 & H2 & _);
    [reflexivity..|]. exists mem. split; [exact H1|exact H2].
Defined.
