(* ===== verification/Packet.v ===== *)
(** * Packets (src/wirefmt/packet.c)

    A packet owns a payload. This file has the kinds of packets and operations, the
    constructors of hello and bye packets, the accessors that interpret a packet, the
    forwarding of a message under another path, and [dicey_packet_load], which takes one packet
    off a stream and validates it, recursively, down to the last element. *)

From stdpp Require Import strings.
From S2P Require Import Prelude Errors Types Views Writer ValueWrite ValueProbe Value Codec Payload.

(** ** Enumerations *)

Inductive dicey_packet_kind : Type :=
  | DICEY_PACKET_KIND_INVALID
  | DICEY_PACKET_KIND_HELLO
  | DICEY_PACKET_KIND_BYE
  | DICEY_PACKET_KIND_MESSAGE.

#[export] Instance dicey_packet_kind_eq_dec : EqDecision dicey_packet_kind.
Proof. solve_decision. Defined.

Inductive dicey_bye_reason : Type :=
  | DICEY_BYE_REASON_INVALID
  | DICEY_BYE_REASON_SHUTDOWN
  | DICEY_BYE_REASON_ERROR
  | DICEY_BYE_REASON_KICKED
  | DICEY_BYE_REASON_UNKNOWN (code : Z).

#[export] Instance dicey_bye_reason_eq_dec : EqDecision dicey_bye_reason.
Proof. solve_decision. Defined.

Definition reason_code (reason : dicey_bye_reason) : Z :=
  match reason with
  | DICEY_BYE_REASON_INVALID => 0
  | DICEY_BYE_REASON_SHUTDOWN => 1
  | DICEY_BYE_REASON_ERROR => 2
  | DICEY_BYE_REASON_KICKED => 3
  | DICEY_BYE_REASON_UNKNOWN code => code
  end.

Definition reason_of_code (z : Z) : dicey_bye_reason :=
  match z with
  | 0 => DICEY_BYE_REASON_INVALID
  | 1 => DICEY_BYE_REASON_SHUTDOWN
  | 2 => DICEY_BYE_REASON_ERROR
  | 3 => DICEY_BYE_REASON_KICKED
  | _ => DICEY_BYE_REASON_UNKNOWN z
  end.

Definition dicey_bye_reason_is_valid (reason : dicey_bye_reason) : bool :=
  match reason with
  | DICEY_BYE_REASON_SHUTDOWN | DICEY_BYE_REASON_ERROR => true
  | _ => false
  end.

Definition dicey_bye_reason_to_string (reason : dicey_bye_reason) : string :=
  match reason with
  | DICEY_BYE_REASON_SHUTDOWN => "SHUTDOWN"
  | DICEY_BYE_REASON_ERROR => "ERROR"
  | _ => ">>invalid<<"
  end.

Definition dicey_op_is_valid (type : dicey_op) : bool :=
  match type with
  | DICEY_OP_GET | DICEY_OP_SET | DICEY_OP_EXEC | DICEY_OP_SIGNAL | DICEY_OP_RESPONSE => true
  | _ => false
  end.

Definition dicey_op_requires_payload (kind : dicey_op) : bool :=
  match kind with
  | DICEY_OP_SET | DICEY_OP_EXEC | DICEY_OP_SIGNAL | DICEY_OP_RESPONSE => true
  | _ => false
  end.

Definition dicey_op_to_string (type : dicey_op) : string :=
  match type with
  | DICEY_OP_GET => "GET"
  | DICEY_OP_SET => "SET"
  | DICEY_OP_EXEC => "EXEC"
  | DICEY_OP_SIGNAL => "SIGNAL"
  | DICEY_OP_RESPONSE => "RESPONSE"
  | _ => ">>invalid<<"
  end.

Definition dicey_packet_kind_is_valid (kind : dicey_packet_kind) : bool :=
  match kind with
  | DICEY_PACKET_KIND_HELLO | DICEY_PACKET_KIND_BYE | DICEY_PACKET_KIND_MESSAGE => true
  | _ => false
  end.

Definition dicey_packet_kind_to_string (kind : dicey_packet_kind) : string :=
  match kind with
  | DICEY_PACKET_KIND_INVALID => ">>invalid<<"
  | DICEY_PACKET_KIND_HELLO => "HELLO"
  | DICEY_PACKET_KIND_BYE => "BYE"
  | DICEY_PACKET_KIND_MESSAGE => "MESSAGE"
  end.

Definition is_valid_forward (from to : dicey_op) : bool :=
  Bool.eqb (bool_decide (from = DICEY_OP_GET)) (bool_decide (to = DICEY_OP_GET)).

Definition msgkind_from_dtf (kind : dtf_payload_kind) : res dicey_op :=
  match kind with
  | DTF_PAYLOAD_UNKNOWN _ => Fault AssertFailed
  | DTF_PAYLOAD_INVALID | DTF_PAYLOAD_HELLO | DTF_PAYLOAD_BYE => Ok DICEY_OP_INVALID
  | DTF_PAYLOAD_SET => Ok DICEY_OP_SET
  | DTF_PAYLOAD_GET => Ok DICEY_OP_GET
  | DTF_PAYLOAD_EXEC => Ok DICEY_OP_EXEC
  | DTF_PAYLOAD_EVENT => Ok DICEY_OP_SIGNAL
  | DTF_PAYLOAD_RESPONSE => Ok DICEY_OP_RESPONSE
  end.

(** The cast [(enum dtf_payload_kind) type]: the two enumerations share their codes. *)
Definition dtf_of_op (type : dicey_op) : dtf_payload_kind :=
  match type with
  | DICEY_OP_INVALID => DTF_PAYLOAD_INVALID
  | DICEY_OP_GET => DTF_PAYLOAD_GET
  | DICEY_OP_SET => DTF_PAYLOAD_SET
  | DICEY_OP_EXEC => DTF_PAYLOAD_EXEC
  | DICEY_OP_SIGNAL => DTF_PAYLOAD_EVENT
  | DICEY_OP_RESPONSE => DTF_PAYLOAD_RESPONSE
  | DICEY_OP_UNKNOWN code => kind_of_code code
  end.

Definition pktkind_from_dtf (kind : dtf_payload_kind) : res dicey_packet_kind :=
  match kind with
  | DTF_PAYLOAD_UNKNOWN _ => Fault AssertFailed
  | DTF_PAYLOAD_INVALID => Ok DICEY_PACKET_KIND_INVALID
  | DTF_PAYLOAD_HELLO => Ok DICEY_PACKET_KIND_HELLO
  | DTF_PAYLOAD_BYE => Ok DICEY_PACKET_KIND_BYE
  | DTF_PAYLOAD_SET | DTF_PAYLOAD_GET | DTF_PAYLOAD_EXEC | DTF_PAYLOAD_EVENT
  | DTF_PAYLOAD_RESPONSE => Ok DICEY_PACKET_KIND_MESSAGE
  end.

Definition version_from_dtf (version : Z) : dicey_version :=
  mk_version (u16 (Z.shiftr version 16)) (u16 (Z.land version UINT16_MAX)).

Definition version_to_dtf (version : dicey_version) : Z :=
  Z.lor (u32 (Z.shiftl (major version) 16)) (revision version).

(** ** Packets *)

Record dicey_packet : Type := mk_packet { payload : option (list Z); nbytes : Z }.

Definition DICEY_EMPTY_PACKET : dicey_packet := mk_packet None 0.

Definition dicey_packet_is_valid (packet : dicey_packet) : bool :=
  bool_decide (is_Some (payload packet)) && negb (nbytes packet =? 0).

Definition dicey_packet_as_bye (packet : dicey_packet) : res dicey_bye_reason :=
  let! _ := oassert (dicey_packet_is_valid packet) in
  let! kind := dtf_payload_get_kind (payload packet) in
  match kind, payload packet with
  | DTF_PAYLOAD_BYE, Some mem =>
      let! code := read_u32 mem 8 in
      let reason := reason_of_code code in
      if dicey_bye_reason_is_valid reason then Ok reason else Err DICEY_EINVAL
  | _, _ => Err DICEY_EINVAL
  end.

Definition dicey_packet_as_hello (packet : dicey_packet) : res dicey_version :=
  let! _ := oassert (dicey_packet_is_valid packet) in
  let! kind := dtf_payload_get_kind (payload packet) in
  match kind, payload packet with
  | DTF_PAYLOAD_HELLO, Some mem =>
      let! version := read_u32 mem 8 in Ok (version_from_dtf version)
  | _, _ => Err DICEY_EINVAL
  end.

(** The value of a message without payload is the zeroed struct. *)
Definition zero_value : dicey_value := mk_value DICEY_TYPE_INVALID InfoZero.

Definition dicey_packet_as_message (packet : dicey_packet) : res dicey_message :=
  let! _ := oassert (dicey_packet_is_valid packet) in
  let! pl_kind := dtf_payload_get_kind (payload packet) in
  if negb (dtf_payload_kind_is_message pl_kind) then Err DICEY_EINVAL else
  let! type := msgkind_from_dtf pl_kind in
  if bool_decide (type = DICEY_OP_INVALID) then Err DICEY_EINVAL else
  let! content := dtf_message_get_content (payload packet) (nbytes packet) in
  match mc_value content with
  | None => Ok (mk_message type (Some (mc_path content)) (mc_selector content) zero_value)
  | Some data =>
      if negb (dicey_op_requires_payload type) then Err DICEY_EBADMSG else
      let '(probed_bytes, value_view) := dtf_value_probe (mk_view (mc_value_len content) (Some data)) in
      let! (_, value) := probed_bytes in
      if negb (v_len value_view =? 0) then Err DICEY_EINVAL else
      Ok (mk_message type (Some (mc_path content)) (mc_selector content) value)
  end.

(** The packet is the block of a result, with its size. *)
Definition packet_of_result (r : dtf_result) (block : option (list Z)) : res dicey_packet :=
  match dr_result r with
  | inl e => Err e
  | inr _ => Ok (mk_packet (match dr_data r with Some off => zdrop off <$> block | None => None end) (dr_size r))
  end.

Definition dicey_packet_forward_message (calloc_ok : Z -> bool) (old : dicey_packet) (seq : Z)
    (type : dicey_op) (path : option cstr) (selector : dicey_selector) : res dicey_packet :=
  if negb (bool_decide (is_Some path) && dicey_op_is_valid type && dicey_selector_is_valid selector)
  then Err DICEY_EINVAL else
  if negb (dicey_packet_is_valid old) then Err DICEY_EBADMSG else
  match dicey_packet_as_message old with
  | Err _ => Err DICEY_EBADMSG
  | Fault f => Fault f
  | OutOfFuel => OutOfFuel
  | Ok msg =>
      if negb (is_valid_forward (msg_type msg) type) then Err DICEY_EINVAL else
      let dtf_kind := dtf_of_op type in
      let! old_header_size := dtf_message_estimate_header_size dtf_kind (msg_path msg) (msg_selector msg) in
      let! _ := oassert (old_header_size <=? nbytes old) in
      let value_size := nbytes old - old_header_size in
      let! (craft_res, block) :=
        dtf_message_write_with_raw_value calloc_ok DICEY_NULL [] dtf_kind seq path selector
          (dicey_view_from (zdrop old_header_size <$> payload old) value_size) in
      packet_of_result craft_res block
  end.

(** [dicey_packet_bye] and [dicey_packet_hello]: a zeroed struct is allocated, written, and
    becomes the payload. *)
Definition packet_from_fixed (calloc_ok : Z -> bool) (size : Z)
    (write : dicey_view_mut -> list Z -> res (dtf_result * list Z)) : res dicey_packet :=
  if negb (calloc_ok size) then Err DICEY_ENOMEM else
  let! (write_res, mem) := write (mk_view_mut size (Some 0)) (replicate (Z.to_nat size) 0) in
  match dr_result write_res with
  | inl e => let! _ := oassert (negb (bool_decide (e = DICEY_EOVERFLOW))) in Err e
  | inr _ => Ok (mk_packet (Some mem) size)
  end.

Definition dicey_packet_bye (calloc_ok : Z -> bool) (seq : Z) (reason : dicey_bye_reason) : res dicey_packet :=
  let! _ := oassert (dicey_bye_reason_is_valid reason) in
  packet_from_fixed calloc_ok BYE_SIZE (fun dest mem => dtf_bye_write calloc_ok dest mem seq (reason_code reason)).

Definition dicey_packet_hello (calloc_ok : Z -> bool) (seq : Z) (version : dicey_version) : res dicey_packet :=
  packet_from_fixed calloc_ok HELLO_SIZE (fun dest mem => dtf_hello_write calloc_ok dest mem seq (version_to_dtf version)).

Definition dicey_packet_deinit (packet : option dicey_packet) : option dicey_packet :=
  match packet with Some _ => Some DICEY_EMPTY_PACKET | None => None end.

(** The state is the destination ([data], [nbytes]) with the block it points into. *)
Definition dicey_packet_dump (packet : dicey_packet) : mst unit := fun '(dest, mem) =>
  (sassert (dicey_packet_is_valid packet && bool_decide (is_Some (vm_data dest))) ;;!
   do! _ <- dicey_view_mut_write_ptr (payload packet) (nbytes packet);
   sret tt) (dest, mem).

Definition dicey_packet_get_kind (packet : dicey_packet) : res dicey_packet_kind :=
  let! _ := oassert (dicey_packet_is_valid packet) in
  let! dtf_kind := dtf_payload_get_kind (payload packet) in
  pktkind_from_dtf dtf_kind.

Definition dicey_packet_get_seq (packet : dicey_packet) : res Z :=
  let! _ := oassert (dicey_packet_is_valid packet) in
  let! seq_val := dtf_payload_get_seq (payload packet) in
  Ok (u32 seq_val).

(** The payload is updated in place. *)
Definition dicey_packet_set_seq (packet : dicey_packet) (seq : Z) : res dicey_packet :=
  let! _ := oassert (dicey_packet_is_valid packet) in
  let! mem := dtf_payload_set_seq (payload packet) seq in
  Ok (mk_packet (Some mem) (nbytes packet)).

(** ** Validation *)

Section validate_list.
Variable validate_value : dicey_value -> res unit.

(** The loop of [validate_value_list]; [fuel] bounds the number of elements. *)
Fixpoint validate_value_list (fuel : nat) (iter : dicey_iterator) : res unit :=
  match fuel with
  | O => OutOfFuel
  | S fuel' =>
      if negb (dicey_iterator_has_next iter) then Ok tt else
      let '(next_err, iter') := dicey_iterator_next iter in
      let! value := next_err in
      let! _ := validate_value value in
      validate_value_list fuel' iter'
  end.

End validate_list.

(** [fuel] bounds the depth of the value. *)
Fixpoint validate_value (fuel : nat) (value : dicey_value) : res unit :=
  match fuel with
  | O => OutOfFuel
  | S fuel' =>
      match dicey_value_get_type (Some value) with
      | DICEY_TYPE_UNIT | DICEY_TYPE_BOOL | DICEY_TYPE_BYTE | DICEY_TYPE_FLOAT
      | DICEY_TYPE_INT16 | DICEY_TYPE_INT32 | DICEY_TYPE_INT64
      | DICEY_TYPE_UINT16 | DICEY_TYPE_UINT32 | DICEY_TYPE_UINT64 | DICEY_TYPE_UUID => Ok tt
      | DICEY_TYPE_BYTES =>
          match val_data value with
          | InfoBytes len (Some _) => if negb (len =? 0) then Ok tt else Err DICEY_EINVAL
          | InfoBytes len None => if len =? 0 then Ok tt else Err DICEY_EINVAL
          | _ => Fault WrongMember
          end
      | DICEY_TYPE_ARRAY =>
          let! list := dicey_value_get_array value in
          validate_value_list (validate_value fuel') fuel' (dicey_list_iter list)
      | DICEY_TYPE_TUPLE =>
          let! list := dicey_value_get_tuple value in
          validate_value_list (validate_value fuel') fuel' (dicey_list_iter list)
      | DICEY_TYPE_PAIR =>
          let! both := dicey_value_get_pair value in
          let! _ := validate_value fuel' (first both) in
          validate_value fuel' (second both)
      | DICEY_TYPE_STR => Ok tt
      | DICEY_TYPE_PATH =>
          match val_data value with
          | InfoStr (Some _) => Ok tt
          | InfoStr None => Err DICEY_EINVAL
          | _ => Fault WrongMember
          end
      | DICEY_TYPE_SELECTOR =>
          match val_data value with
          | InfoSelector sel => if dicey_selector_is_valid sel then Ok tt else Err DICEY_EINVAL
          | _ => Fault WrongMember
          end
      | DICEY_TYPE_ERROR => Ok tt
      | _ => Err DICEY_EINVAL
      end
  end.

Definition validate_bye (packet : dicey_packet) : res unit :=
  let! _ := dicey_packet_as_bye packet in Ok tt.

Definition validate_message (fuel : nat) (packet : dicey_packet) : res unit :=
  let! message := dicey_packet_as_message packet in
  if dicey_op_requires_payload (msg_type message) then validate_value fuel (msg_value message) else Ok tt.

(** [dicey_packet_load]; the stream is a view over [*data] and [*nbytes]. On failure the
    payload is freed and the stream is left where it was. *)
Definition dicey_packet_load (malloc_ok : Z -> bool) (fuel : nat) : vst dicey_packet := fun stream =>
  if negb (dicey_view_is_valid stream) then (Err DICEY_EINVAL, stream) else
  let '(load_res, src) := dtf_payload_load malloc_ok stream in
  let checked : res dicey_packet :=
    let! data := load_res in
    let! _ := oassert (negb (zlen data =? 0)) in
    let! dtf_kind := dtf_payload_get_kind (Some data) in
    let! kind := pktkind_from_dtf dtf_kind in
    if negb (dicey_packet_kind_is_valid kind) then Err DICEY_EBADMSG else
    let packet := mk_packet (Some data) (zlen data) in
    let validated :=
      match kind with
      | DICEY_PACKET_KIND_BYE => validate_bye packet
      | DICEY_PACKET_KIND_HELLO => Ok tt
      | DICEY_PACKET_KIND_MESSAGE => validate_message fuel packet
      | DICEY_PACKET_KIND_INVALID => Fault AssertFailed
      end in
    match validated with
    | Err DICEY_EINVAL => Err DICEY_EBADMSG
    | Err e => Err e
    | Ok _ => Ok packet
    | Fault f => Fault f
    | OutOfFuel => OutOfFuel
    end in
  match checked with
  | Ok packet => (Ok packet, src)
  | r => (r, stream)
  end.

(** ** Validation is safe and terminates *)

(** The values an iterator yields. *)
Inductive yields : dicey_iterator -> dicey_value -> Prop :=
  | yields_here it it' v :
      dicey_iterator_has_next it = true -> dicey_iterator_next it = (Ok v, it') -> yields it v
  | yields_later it it' w v :
      dicey_iterator_has_next it = true -> dicey_iterator_next it = (Ok w, it') -> yields it' v -> yields it v.

(** A value that contains an array of units whose byte count is not zero: its iterator yields
    units without ever moving. *)
Inductive stalls : dicey_value -> Prop :=
  | stalls_here n view :
      0 < v_len view -> stalls (mk_value DICEY_TYPE_ARRAY (InfoList (type_code DICEY_TYPE_UNIT) n view))
  | stalls_element v list w :
      dicey_value_get_list v = Ok list -> yields (dicey_list_iter list) w -> stalls w -> stalls v
  | stalls_first v both : dicey_value_get_pair v = Ok both -> stalls (first both) -> stalls v
  | stalls_second v both : dicey_value_get_pair v = Ok both -> stalls (second both) -> stalls v.

Lemma validate_list_safe vv k t bs tl :
  (forall n v, value_ok n v -> no_fault (vv v)) ->
  no_fault (validate_value_list vv k (mk_iter t (vw bs tl))).
Proof.
  intros Hvv. revert bs. induction k as [|k IH]; intros bs; [done|]. cbn [validate_value_list].
  destruct (dicey_iterator_has_next _); [|done]. cbn [negb].
  destruct (iterator_next_cases t bs tl) as [(v & a & b & -> & -> & Hv & _)|(e & ->)]; [|done].
  cbn [obind]. apply obind_no_fault; [by eapply Hvv|]. intros _ _. apply IH.
Qed.

(** The elements of an array or a tuple, as the accessors return them. *)
Lemma get_seq_ok n v :
  value_ok n v -> val_type v = DICEY_TYPE_ARRAY \/ val_type v = DICEY_TYPE_TUPLE ->
  exists t sub tl, (if bool_decide (val_type v = DICEY_TYPE_ARRAY) then dicey_value_get_array v
                    else dicey_value_get_tuple v) = Ok (mk_list t (vw sub tl)) /\
    dicey_value_get_list v = Ok (mk_list t (vw sub tl)) /\ zlen sub + 4 <= n.
Proof.
  intros Hv Ht. destruct (get_list_ok n v Hv Ht) as (t & sub & tl & E & Hl). exists t, sub, tl.
  unfold dicey_value_get_array, dicey_value_get_tuple. cbn [dicey_value_get_type].
  destruct Ht as [-> | ->]; auto.
Qed.

Lemma validate_value_seq fuel v :
  val_type v = DICEY_TYPE_ARRAY \/ val_type v = DICEY_TYPE_TUPLE ->
  validate_value (S fuel) v =
  (let! list := (if bool_decide (val_type v = DICEY_TYPE_ARRAY) then dicey_value_get_array v
                 else dicey_value_get_tuple v) in
   validate_value_list (validate_value fuel) fuel (dicey_list_iter list)).
Proof. intros Ht. cbn [validate_value dicey_value_get_type]. by destruct Ht as [-> | ->]. Qed.

Lemma validate_safe fuel n v : value_ok n v -> no_fault (validate_value fuel v).
Proof.
  revert n v. induction fuel as [|fuel IH]; intros n v Hv; [done|].
  destruct (decide (val_type v = DICEY_TYPE_ARRAY \/ val_type v = DICEY_TYPE_TUPLE)) as [Ht|Hnt].
  { rewrite validate_value_seq by done. destruct (get_seq_ok n v Hv Ht) as (t & sub & tl & -> & _).
    cbn [obind]. by apply validate_list_safe. }
  destruct (decide (val_type v = DICEY_TYPE_PAIR)) as [Ht|Hnp].
  { cbn [validate_value dicey_value_get_type]. rewrite Ht.
    destruct (get_pair_cases n v Hv Ht) as [(x & y & -> & Hx & Hy)| ->]; [|done].
    cbn [obind first second]. apply obind_no_fault; [by eapply IH|]. intros _ _. by eapply IH. }
  destruct v as [t i], Hv as (Hval & Hm & _). cbn [val_type val_data] in *.
  cbn [validate_value dicey_value_get_type val_type val_data].
  destruct t; try done; try (by destruct Hnt; auto); destruct i; try done.
  - destruct data; [|done]. by destruct (negb _).
  - by destruct str.
  - by destruct (dicey_selector_is_valid _).
Qed.

(** Elements of an array of units do not advance the iterator; all others do. *)
Lemma validate_list_terminates vv k t bs tl :
  (forall v m, value_ok m v -> m <= zlen bs -> vv v = OutOfFuel -> stalls v) ->
  type_of_code t <> DICEY_TYPE_UNIT -> zlen bs < Z.of_nat k ->
  validate_value_list vv k (mk_iter t (vw bs tl)) = OutOfFuel ->
  exists w, yields (mk_iter t (vw bs tl)) w /\ stalls w.
Proof.
  intros Hvv Hu. revert bs Hvv. induction k as [|k IH]; intros bs Hvv Hk; [pose proof (zlen_nonneg bs); lia|].
  cbn [validate_value_list]. destruct (dicey_iterator_has_next _) eqn:Hn; [|done]. cbn [negb].
  destruct (iterator_next_cases t bs tl) as [(v & a & b & -> & E & Hv & _ & Ha)|(e & ->)]; [|done].
  rewrite E. cbn [obind]. specialize (Ha Hu). rewrite zlen_app in *. pose proof (zlen_nonneg b).
  destruct (vv v) as [[]|e|f|] eqn:Ev; cbn [obind]; try done.
  - intros Hrec. destruct (IH b) as (w & Hw & Hs); [|lia|done|].
    + intros w m Hw Hm. apply (Hvv w m Hw). lia.
    + exists w. split; [|done]. by eapply yields_later.
  - intros _. exists v. split; [by eapply yields_here|]. apply (Hvv v (zlen a)); auto. lia.
Qed.

Lemma validate_empty_list vv k t tl : (0 < k)%nat -> validate_value_list vv k (mk_iter t (vw [] tl)) = Ok tt.
Proof. destruct k; [lia|done]. Qed.

(** An array or tuple either holds elements that take space, or stalls, or is empty. *)
Lemma seq_inner n v t sub tl :
  value_ok n v -> val_type v = DICEY_TYPE_ARRAY \/ val_type v = DICEY_TYPE_TUPLE ->
  dicey_value_get_list v = Ok (mk_list t (vw sub tl)) ->
  type_of_code t <> DICEY_TYPE_UNIT \/ stalls v \/ sub = [].
Proof.
  destruct v as [ty i]. intros (_ & Hm & _) Ht E. cbn [val_type val_data] in *.
  destruct (decide (type_of_code t = DICEY_TYPE_UNIT)) as [Hu|]; [|by left]. right.
  destruct i; try (by destruct Ht; subst). assert (inner_type = t /\ data = vw sub tl) as [-> ->].
  { destruct Ht; subst; by injection E. }
  destruct Ht; subst ty; [|by cbn in Hm; subst t].
  assert (t = type_code DICEY_TYPE_UNIT) as -> by (by rewrite <- Hu, type_code_of_code).
  destruct sub as [|x sub]; [by right|left]. constructor. cbn. rewrite zlen_cons.
  pose proof (zlen_nonneg sub). lia.
Qed.

(** With more fuel than the value has bytes, validation can only run out of it on a value that
    contains an array of units with a non-zero byte count. *)
Lemma validate_terminates fuel n v :
  value_ok n v -> 0 <= n < Z.of_nat fuel -> validate_value fuel v = OutOfFuel -> stalls v.
Proof.
  revert n v. induction fuel as [|fuel IH]; intros n v Hv Hn; [lia|].
  destruct (decide (val_type v = DICEY_TYPE_ARRAY \/ val_type v = DICEY_TYPE_TUPLE)) as [Ht|Hnt].
  { rewrite validate_value_seq by done. destruct (get_seq_ok n v Hv Ht) as (t & sub & tl & -> & E & Hl).
    pose proof (zlen_nonneg sub). cbn [obind]. unfold dicey_list_iter. cbn [list_type list_data].
    destruct (seq_inner n v t sub tl Hv Ht E) as [Hu|[Hs| ->]]; [|done|by rewrite validate_empty_list by lia].
    intros Hout. destruct (validate_list_terminates (validate_value fuel) fuel t sub tl) as (w & Hw & Hs); try done; [|lia|].
    - intros w m Hw Hm Ho. pose proof (value_ok_mono m (zlen sub) w Hw Hm) as Hw'. apply (IH (zlen sub)); (done || lia).
    - by eapply stalls_element. }
  destruct (decide (val_type v = DICEY_TYPE_PAIR)) as [Ht|Hnp].
  { cbn [validate_value dicey_value_get_type]. rewrite Ht. pose proof Hv as (_ & Hm & Hw).
    destruct (get_pair_cases n v Hv Ht) as [(x & y & E & Hx & Hy)| ->]; [|done].
    assert (4 <= n) by (destruct v as [ty []]; cbn in *; subst; try done; destruct Hw as (sub & ? & _ & ?); pose proof (zlen_nonneg sub); lia).
    rewrite E. cbn [obind first second].
    destruct (validate_value fuel x) as [[]|e|f|] eqn:Ex; cbn [obind]; try done.
    - intros Ey. eapply stalls_second; [exact E|]. apply (IH (n - 4)); (done || lia).
    - intros _. eapply stalls_first; [exact E|]. apply (IH (n - 4)); (done || lia). }
  destruct v as [t i], Hv as (Hval & Hm & _). cbn [val_type val_data] in *.
  cbn [validate_value dicey_value_get_type val_type val_data].
  destruct t; try done; try (by destruct Hnt; auto); destruct i; try done.
  - destruct data; [|done]. by destruct (negb _).
  - by destruct str.
  - by destruct (dicey_selector_is_valid _).
Qed.

(** Conversely, an array of units with a non-zero byte count is never done being validated. *)
Lemma unit_iterator_stuck view :
  0 < v_len view -> is_Some (v_data view) ->
  let it := mk_iter (type_code DICEY_TYPE_UNIT) view in
  dicey_iterator_has_next it = true /\ dicey_iterator_next it = (Ok (mk_value DICEY_TYPE_UNIT InfoZero), it).
Proof.
  destruct view as [len [d|]]; cbn [v_len v_data]; intros Hl [? Hd]; [|done].
  assert (dicey_iterator_has_next (mk_iter (type_code DICEY_TYPE_UNIT) (mk_view len (Some d))) = true) as Hn.
  { unfold dicey_iterator_has_next. cbn. zbool; (lia || done). }
  split; [done|]. unfold dicey_iterator_next. rewrite Hn. cbn [negb it_type it_data].
  unfold dtf_value_probe_as, dicey_view_read_ptr, dicey_view_read, sbind, mem_read, dicey_view_advance, slift.
  pose proof (zlen_nonneg d). cbn. zbool; cbn in *; try lia; zbool; try lia.
  by rewrite Z.sub_0_r, zdrop_0.
Qed.

Lemma validate_unit_array_loops fuel n view :
  0 < v_len view -> is_Some (v_data view) ->
  validate_value fuel (mk_value DICEY_TYPE_ARRAY (InfoList (type_code DICEY_TYPE_UNIT) n view)) = OutOfFuel.
Proof.
  intros Hl Hd. destruct (unit_iterator_stuck view Hl Hd) as [Hn E].
  destruct fuel as [|fuel]; [done|]. rewrite validate_value_seq by (by left). cbn [obind bool_decide].
  assert (forall k, validate_value_list (validate_value fuel) k (mk_iter (type_code DICEY_TYPE_UNIT) view) = OutOfFuel) as H.
  { induction k as [|k IH]; [done|]. cbn [validate_value_list]. rewrite Hn, E. cbn [negb obind].
    destruct fuel; [done|]. cbn [validate_value dicey_value_get_type val_type obind]. exact IH. }
  apply H.
Qed.

(** ** Interpreting loaded payloads *)

(** The packet that owns exactly the payload [p]. *)
Definition packet_of (p : list Z) : dicey_packet := mk_packet (Some p) (zlen p).

Lemma is_kind_invalid_valid kind : payload_kind_is_valid kind = true -> is_kind_invalid kind = Ok false.
Proof. by destruct kind. Qed.

Lemma get_kind_ok p : payload_ok p -> dtf_payload_get_kind (Some p) = Ok (payload_kind p).
Proof.
  intros (Hb & Hk & H12 & Hz). change MESSAGE_HEAD_SIZE with 12 in *.
  unfold dtf_payload_get_kind. rewrite read_u32_ok by lia. cbn [obind]. rewrite zdrop_0.
  fold (payload_kind p). by rewrite is_kind_invalid_valid.
Qed.

Lemma packet_of_valid p : payload_ok p -> dicey_packet_is_valid (packet_of p) = true.
Proof.
  intros (_ & _ & H12 & _). change MESSAGE_HEAD_SIZE with 12 in *.
  unfold dicey_packet_is_valid, packet_of. cbn. zbool; (lia || done).
Qed.

Definition op_of_kind (kind : dtf_payload_kind) : dicey_op :=
  match msgkind_from_dtf kind with Ok op => op | _ => DICEY_OP_INVALID end.

Lemma msgkind_message kind :
  is_message kind = true ->
  msgkind_from_dtf kind = Ok (op_of_kind kind) /\ bool_decide (op_of_kind kind = DICEY_OP_INVALID) = false.
Proof. by destruct kind. Qed.

(** The value of a message, given the bytes that follow the selector. *)
Definition message_value (op : dicey_op) (value : list Z) : res dicey_value :=
  if zlen value =? 0 then Ok zero_value else
  if negb (dicey_op_requires_payload op) then Err DICEY_EBADMSG else
  let '(r, view) := dtf_value_probe (vw value []) in
  let! (_, v) := r in
  if negb (v_len view =? 0) then Err DICEY_EINVAL else Ok v.

Lemma as_message_eq p path t e value :
  payload_ok p -> is_message (payload_kind p) = true ->
  dtf_message_get_content (Some p) (zlen p) = Ok (content_of path t e value []) ->
  dicey_packet_as_message (packet_of p) =
  let! v := message_value (op_of_kind (payload_kind p)) value in
  Ok (mk_message (op_of_kind (payload_kind p)) (Some path) (mk_selector (Some t) (Some e)) v).
Proof.
  intros Hp Hm E. unfold dicey_packet_as_message. rewrite packet_of_valid by done. cbn [oassert obind packet_of payload nbytes].
  rewrite get_kind_ok by done. cbn [obind]. unfold dtf_payload_kind_is_message. rewrite Hm. cbn [negb].
  destruct (msgkind_message _ Hm) as [Ek Ei]. rewrite Ek. cbn [obind]. rewrite Ei. rewrite E. cbn [obind]. unfold content_of, message_value.
  cbn [mc_path mc_selector mc_value mc_value_len].
  destruct (zlen value =? 0); [done|]. destruct (negb _); [done|].
  change (mk_view (zlen value) (Some (value ++ []))) with (vw value []).
  destruct (dtf_value_probe (vw value [])) as [[[n v]|er|f|] view]; cbn [obind]; try done.
  by destruct (negb _).
Qed.

Lemma message_value_cases op value :
  (exists v, message_value op value = Ok v /\
     (v = zero_value \/ (value_ok (zlen value) v /\ dicey_op_requires_payload op = true))) \/
  (exists e, message_value op value = Err e).
Proof.
  unfold message_value. destruct (zlen value =? 0); [by left; eauto|].
  destruct (dicey_op_requires_payload op); cbn [negb]; [|by right; eauto].
  pose proof (reads_probe value []) as H. unfold reads_at in H.
  destruct (dtf_value_probe (vw value [])) as [[[n v]|er|f|] view]; cbn [obind]; try done; [|by right; eauto].
  destruct H as (a & b & -> & -> & Hn & Hl & Hv & Hm & Hw). cbn [fst snd] in *.
  destruct (negb _); [by right; eauto|]. left. exists v. split; [done|]. right. split; [|done].
  rewrite zlen_app. pose proof (zlen_nonneg b). split_and!; auto. eapply info_within_mono; [done|lia].
Qed.

Lemma as_message_cases p :
  payload_ok p ->
  (exists m, dicey_packet_as_message (packet_of p) = Ok m /\
     (msg_value m = zero_value \/ value_ok (zlen p) (msg_value m))) \/
  (exists e, dicey_packet_as_message (packet_of p) = Err e).
Proof.
  intros Hp. destruct (is_message (payload_kind p)) eqn:Hm.
  - destruct (get_content_cases p Hp Hm) as [(path & t & e & value & E & Ep & _)|(er & E)].
    + rewrite (as_message_eq p path t e value) by done.
      destruct (message_value_cases (op_of_kind (payload_kind p)) value) as [(v & -> & Hv)|(er & ->)];
        cbn [obind]; [left|by right; eauto].
      eexists. split; [done|]. cbn [msg_value]. destruct Hv as [-> | [Hv _]]; [by left|right].
      eapply value_ok_mono; [exact Hv|]. rewrite Ep. unfold message_trailer. rewrite !zlen_app.
      pose proof (zlen_nonneg (ztake MESSAGE_HEAD_SIZE p)). pose proof (zlen_nonneg (cstr_mem path)).
      pose proof (zlen_nonneg (cstr_mem t)). pose proof (zlen_nonneg (cstr_mem e)). lia.
    + right. exists er. unfold dicey_packet_as_message. rewrite packet_of_valid by done. cbn [oassert obind packet_of payload nbytes].
      rewrite get_kind_ok by done. cbn [obind]. unfold dtf_payload_kind_is_message. rewrite Hm. cbn [negb].
      destruct (msgkind_message _ Hm) as [Ek Ei]. rewrite Ek. cbn [obind]. rewrite Ei. by rewrite E.
  - right. exists DICEY_EINVAL. unfold dicey_packet_as_message. rewrite packet_of_valid by done.
    cbn [oassert obind packet_of payload]. rewrite get_kind_ok by done. cbn [obind].
    unfold dtf_payload_kind_is_message. by rewrite Hm.
Qed.

Lemma as_bye_cases p :
  payload_ok p ->
  (exists r, dicey_packet_as_bye (packet_of p) = Ok r) \/ (exists e, dicey_packet_as_bye (packet_of p) = Err e).
Proof.
  intros Hp. unfold dicey_packet_as_bye. rewrite packet_of_valid by done. cbn [oassert obind packet_of payload].
  rewrite get_kind_ok by done. cbn [obind]. destruct Hp as (_ & _ & H12 & _). change MESSAGE_HEAD_SIZE with 12 in *.
  destruct (payload_kind p); eauto. rewrite read_u32_ok by lia. cbn [obind].
  destruct (dicey_bye_reason_is_valid _); eauto.
Qed.

(** ** Loading a packet *)

(** The checks [dicey_packet_load] makes on a payload. *)
Definition validate_packet (fuel : nat) (p : list Z) : res unit :=
  match payload_kind p with
  | DTF_PAYLOAD_HELLO => Ok tt
  | DTF_PAYLOAD_BYE => validate_bye (packet_of p)
  | _ => validate_message fuel (packet_of p)
  end.

Definition as_bad_message {A} (r : res A) : res A :=
  match r with Err DICEY_EINVAL => Err DICEY_EBADMSG | r => r end.

Lemma payload_load_ok malloc_ok bs p :
  bytes_ok bs -> payload_load_spec malloc_ok bs = Ok p ->
  payload_ok p /\ bs = p ++ zdrop (payload_size bs) bs /\ malloc_ok (zlen p) = true.
Proof.
  intros Hb. unfold payload_load_spec. pose proof (payload_size_bound bs Hb).
  change PAYLOAD_HEAD_SIZE with 8. change MESSAGE_HEAD_SIZE with 12 in *.
  destruct (Z.ltb_spec (zlen bs) 8); [done|].
  destruct (payload_kind_is_valid (payload_kind bs)) eqn:Hk; cbn [negb]; [|done].
  destruct (Z.ltb_spec (zlen bs) 12); [done|].
  destruct (Z.ltb_spec (zlen bs) (payload_size bs)); [done|].
  destruct (malloc_ok _) eqn:Hm; [|done]. intros [= <-].
  destruct (zsplit (payload_size bs) bs ltac:(lia)) as (a & b & -> & Ha). rewrite <- Ha in *.
  rewrite ztake_app_eq, zdrop_app_eq by done. apply Forall_app in Hb as [Hba _].
  rewrite payload_kind_app in Hk by lia. rewrite payload_size_app in Ha by (change MESSAGE_HEAD_SIZE with 12; lia).
  split; [|done]. split; [done|]. split; [done|]. split; [exact (proj1 H)|done].
Qed.

Lemma packet_load_eq malloc_ok fuel bs tl :
  bytes_ok bs ->
  dicey_packet_load malloc_ok fuel (vw bs tl) =
  match payload_load_spec malloc_ok bs with
  | Ok p =>
      match as_bad_message (validate_packet fuel p) with
      | Ok _ => (Ok (packet_of p), vw (zdrop (payload_size bs) bs) tl)
      | Err e => (Err e, vw bs tl)
      | Fault f => (Fault f, vw bs tl)
      | OutOfFuel => (OutOfFuel, vw bs tl)
      end
  | Err e => (Err e, vw bs tl)
  | Fault f => (Fault f, vw bs tl)
  | OutOfFuel => (OutOfFuel, vw bs tl)
  end.
Proof.
  intros Hb. unfold dicey_packet_load. cbn [dicey_view_is_valid vw v_data negb]. fold (vw bs tl).
  rewrite payload_load_eq by done. destruct (payload_load_spec malloc_ok bs) as [p|e|f|] eqn:E; try done.
  destruct (payload_load_ok _ _ _ Hb E) as (Hp & _ & _). pose proof Hp as (_ & Hk & H12 & _).
  change MESSAGE_HEAD_SIZE with 12 in *. cbn [obind]. destruct (Z.eqb_spec (zlen p) 0); [lia|]. cbn [negb oassert obind].
  rewrite get_kind_ok by done. cbn [obind]. unfold validate_packet. fold (packet_of p).
  destruct (payload_kind p); try done; cbn [pktkind_from_dtf obind dicey_packet_kind_is_valid negb].
  - by destruct (validate_bye _) as [|[]| |].
  - by destruct (validate_message _ _) as [[]|[]| |].
  - by destruct (validate_message _ _) as [[]|[]| |].
  - by destruct (validate_message _ _) as [[]|[]| |].
  - by destruct (validate_message _ _) as [[]|[]| |].
  - by destruct (validate_message _ _) as [[]|[]| |].
Qed.

Lemma validate_message_safe fuel p : payload_ok p -> no_fault (validate_message fuel (packet_of p)).
Proof.
  intros Hp. unfold validate_message. destruct (as_message_cases p Hp) as [(m & -> & Hv)|(e & ->)]; [|done].
  cbn [obind]. destruct (dicey_op_requires_payload _); [|done].
  destruct Hv as [-> | Hv]; [by destruct fuel|]. by eapply validate_safe.
Qed.

Lemma validate_packet_safe fuel p : payload_ok p -> no_fault (as_bad_message (validate_packet fuel p)).
Proof.
  intros Hp. assert (no_fault (validate_packet fuel p)) as H.
  { pose proof (validate_message_safe fuel p Hp). unfold validate_packet, validate_bye.
    destruct (payload_kind p); try done. by destruct (as_bye_cases p Hp) as [[r ->]|[e ->]]. }
  by destruct (validate_packet fuel p) as [|[]| |].
Qed.

(** ** Written messages are loaded back *)

(** Arguments that survive validation: those without empty byte strings. *)
Fixpoint loadable (a : dicey_arg) : Prop :=
  match a with
  | ArgBytes len _ => len <> 0
  | ArgArray _ l | ArgTuple l => foldr (fun x P => loadable x /\ P) True l
  | ArgPair x y => loadable x /\ loadable y
  | ArgPath s => is_Some s
  | ArgSelector sel => dicey_selector_is_valid sel = true
  | _ => True
  end.

Lemma loadable_list l : foldr (fun x P => loadable x /\ P) True l <-> Forall loadable l.
Proof.
  induction l as [|x l IH]; cbn; [split; [constructor|done]|].
  rewrite IH. split; [intros []; by constructor|by inversion 1].
Qed.

Definition validates (v : dicey_value) : Prop :=
  exists f0, forall f, (f0 <= f)%nat -> validate_value f v = Ok tt.

Definition validates_all (it : dicey_iterator) : Prop :=
  exists f0, forall f k, (f0 <= f)%nat -> (f0 <= k)%nat -> validate_value_list (validate_value f) k it = Ok tt.

Lemma validates_fixed v : validate_value 1 v = Ok tt -> (forall f, validate_value (S f) v = validate_value 1 v) -> validates v.
Proof. intros H1 Hf. exists 1%nat. intros [|f] Hle; [lia|]. by rewrite Hf. Qed.

Lemma validates_seq v it list :
  val_type v = DICEY_TYPE_ARRAY \/ val_type v = DICEY_TYPE_TUPLE ->
  (if bool_decide (val_type v = DICEY_TYPE_ARRAY) then dicey_value_get_array v else dicey_value_get_tuple v) = Ok list ->
  dicey_list_iter list = it -> validates_all it -> validates v.
Proof.
  intros Ht E <- [f0 H]. exists (S f0). intros [|f] Hle; [lia|]. rewrite validate_value_seq, E by done.
  cbn [obind]. apply H; lia.
Qed.

Lemma validates_step it it' v k f :
  dicey_iterator_has_next it = true -> dicey_iterator_next it = (Ok v, it') ->
  validate_value_list (validate_value f) (S k) it =
  let! _ := validate_value f v in validate_value_list (validate_value f) k it'.
Proof. intros Hn E. cbn [validate_value_list]. by rewrite Hn, E. Qed.

Lemma validates_pair x y view :
  iterates (mk_iter DICEY_VARIANT_ID view) [x; y] -> validates_all (mk_iter DICEY_VARIANT_ID view) ->
  validates (mk_value DICEY_TYPE_PAIR (InfoList DICEY_VARIANT_ID 2 view)).
Proof.
  intros Hi [f0 H]. inversion Hi as [|? it1 v1 ? ? Hn1 E1 _ Hi1]; subst.
  inversion Hi1 as [|? it2 v2 ? ? Hn2 E2 _ Hi2]; subst.
  exists (S (S (S f0))). intros [|f] Hle; [lia|].
  assert (validate_value f v1 = Ok tt /\ validate_value f v2 = Ok tt) as [Hv1 Hv2].
  { specialize (H f (S (S f0)) ltac:(lia) ltac:(lia)).
    rewrite (validates_step _ _ _ _ _ Hn1 E1) in H. apply obind_Ok_inv in H as ([] & Hv1 & H).
    rewrite (validates_step _ _ _ _ _ Hn2 E2) in H. apply obind_Ok_inv in H as ([] & Hv2 & H). done. }
  cbn [validate_value dicey_value_get_type val_type].
  assert (dicey_value_get_pair (mk_value DICEY_TYPE_PAIR (InfoList DICEY_VARIANT_ID 2 view)) = Ok (mk_pair v1 v2)) as ->.
  { unfold dicey_value_get_pair. cbn [dicey_value_get_type val_type val_data list_field obind list_data].
    unfold dicey_list_iter, sbind, pair_item. cbn [list_type list_data]. rewrite E1. cbn. by rewrite E2. }
  cbn [obind first second]. by rewrite Hv1.
Qed.

(** A value that denotes a loadable argument passes validation. *)
Lemma denotes_validates v a : denotes v a -> loadable a -> validates v.
Proof.
  revert v a. apply (denotes_mut (fun v a => loadable a -> validates v)
    (fun it l => Forall loadable l -> validates_all it));
    try (intros; by apply validates_fixed).
  - intros d Hd. apply validates_fixed; [|done]. cbn in *. destruct (Z.eqb_spec (zlen d) 0); done.
  - intros s Hs. cbn in Hs. by apply validates_fixed; cbn; rewrite Hs.
  - intros t l view Ht _ IH Hl. cbn [loadable] in Hl. rewrite loadable_list in Hl.
    eapply validates_seq; [by left|done|done|auto].
  - intros l view _ IH Hl. cbn [loadable] in Hl. rewrite loadable_list in Hl.
    eapply validates_seq; [by right|done|done|auto].
  - intros x y view Hi IH [Hx Hy]. apply (validates_pair x y); [done|]. apply IH. by repeat constructor.
  - intros it Hn _. exists 1%nat. intros f [|k] Hf Hk; [lia|]. cbn [validate_value_list]. by rewrite Hn.
  - intros it it' v x l Hn E _ IHx _ IHl Hall. apply Forall_cons_iff in Hall as [Hx Hl].
    destruct (IHx Hx) as [f1 H1], (IHl Hl) as [f2 H2]. exists (S (f1 `max` f2))%nat.
    intros f [|k] Hf Hk; [lia|]. rewrite (validates_step _ _ _ _ _ Hn E), H1 by lia. cbn [obind]. apply H2; lia.
Qed.

(** *** The encoding consists of bytes *)

Lemma bytes_ok_app a b : bytes_ok a -> bytes_ok b -> bytes_ok (a ++ b).
Proof. intros. by apply Forall_app. Qed.

Lemma bytes_ok_cstr s : cstr_ok s -> bytes_ok (cstr_mem s).
Proof.
  intros Hs. apply bytes_ok_app; [|by repeat constructor].
  revert Hs. apply Forall_impl. unfold is_byte. lia.
Qed.

Lemma bytes_ok_concat {A} (f : A -> list Z) l : (forall x, In x l -> bytes_ok (f x)) -> bytes_ok (concat (map f l)).
Proof.
  induction l as [|x l IH]; intros H; [constructor|]. cbn [map concat].
  apply bytes_ok_app; [apply H; by left|]. apply IH. intros y Hy. apply H. by right.
Qed.

Lemma bytes_ok_type t : dicey_type_is_valid t = true -> bytes_ok [type_code t].
Proof. intros Ht. constructor; [|constructor]. by apply type_code_bound. Qed.

#[local] Hint Resolve bytes_ok_app bytes_ok_cstr le_bytes_ok bytes_ok_type : dicey.

Lemma bytes_ok_content a : arg_ok a -> bytes_ok (encode_content a).
Proof.
  revert a. apply (dicey_arg_ind' (fun a => arg_ok a -> bytes_ok (encode_content a)));
    [intros a|intros t l IH|intros l IH|intros x y IHx IHy].
  - destruct a; try done; cbn [arg_ok encode_content]; try (intros; constructor; fail); try (intros; apply le_bytes_ok).
    + intros (d & -> & -> & Hd). cbn [default from_option id]. auto with dicey.
    + intros [Hs _]. auto with dicey.
    + by intros [_ Hb].
    + intros (s & -> & Hs & _). cbn [default from_option id trait elem]. auto with dicey.
    + intros (t & e & -> & [Ht _] & [He _]). cbn [default from_option id trait elem]. auto with dicey.
    + intros (_ & Hm & _). auto with dicey.
  - cbn [arg_ok encode_content]. rewrite arg_ok_list, !Forall_forall in *. intros (Ht & _ & _ & _ & Hl).
    repeat apply bytes_ok_app; auto with dicey. apply bytes_ok_concat. auto.
  - cbn [arg_ok encode_content]. rewrite arg_ok_list, !Forall_forall in *. intros (_ & Hl).
    repeat apply bytes_ok_app; auto with dicey. apply bytes_ok_concat. intros x Hx.
    apply (bytes_ok_app [_]); [by apply bytes_ok_type, arg_ok_type, Hl|auto].
  - cbn [arg_ok encode_content]. intros [Hx Hy]. apply bytes_ok_app; [apply le_bytes_ok|].
    apply (bytes_ok_app (_ :: _)); [apply (bytes_ok_app [_])|apply (bytes_ok_app [_])]; auto using bytes_ok_type, arg_ok_type.
Qed.

(** *** Message payloads are well formed *)

Lemma kind_of_code_code kind : payload_kind_is_valid kind = true -> kind_of_code (kind_code kind) = kind.
Proof. by destruct kind. Qed.

Lemma payload_kind_head3 kind seq x rest :
  payload_kind_is_valid kind = true -> payload_kind (head3 kind seq x ++ rest) = kind.
Proof.
  intros Hk. unfold payload_kind, head3. rewrite <- !app_assoc, ztake_app_eq by (by rewrite zlen_le_bytes).
  rewrite le4 by (destruct kind; done). by apply kind_of_code_code.
Qed.

Lemma payload_third kind seq x rest :
  0 <= x <= UINT32_MAX -> le_val (ztake 4 (zdrop 8 (head3 kind seq x ++ rest))) = x.
Proof.
  intros Hx. unfold head3. rewrite <- !app_assoc, app_assoc.
  rewrite zdrop_app_eq, ztake_app_eq by (by autorewrite with zlen). by apply le4.
Qed.

Lemma bytes_ok_head3 kind seq x : bytes_ok (head3 kind seq x).
Proof. unfold head3. auto using bytes_ok_app, le_bytes_ok. Qed.

Lemma payload_ok_message kind seq path t e value :
  is_message kind = true -> cstr_ok path -> cstr_ok t -> cstr_ok e -> bytes_ok value ->
  header_len path t e + zlen value <= UINT32_MAX ->
  payload_ok (message_bytes kind seq path t e value).
Proof.
  intros Hk Hp Ht He Hv Hl. pose proof (is_message_valid _ Hk) as Hkv.
  pose proof (header_len_pos path t e). pose proof (zlen_nonneg value). unfold payload_ok.
  assert (zlen (message_trailer path t e value) = header_len path t e + zlen value - MESSAGE_HEAD_SIZE) as Htr.
  { unfold message_trailer, header_len. autorewrite with zlen. lia. }
  change MESSAGE_HEAD_SIZE with 12 in *.
  assert (payload_kind (message_bytes kind seq path t e value) = kind) as Ek by (by apply payload_kind_head3).
  rewrite Ek. split_and!; [|done|rewrite zlen_message; lia|].
  - unfold message_bytes, message_trailer. auto 10 using bytes_ok_app, bytes_ok_head3, bytes_ok_cstr.
  - unfold payload_size. rewrite Ek, Hk, zlen_message. unfold message_bytes. rewrite payload_third by lia.
    change MESSAGE_HEAD_SIZE with 12. lia.
Qed.

Lemma payload_ok_fixed kind seq x :
  kind = DTF_PAYLOAD_HELLO \/ kind = DTF_PAYLOAD_BYE -> payload_ok (head3 kind seq x).
Proof.
  intros Hk. assert (payload_kind (head3 kind seq x) = kind) as Ek.
  { rewrite <- (app_nil_r (head3 _ _ _)). apply payload_kind_head3. by destruct Hk; subst. }
  unfold payload_ok, payload_size. rewrite Ek, zlen_head3.
  split_and!; [apply bytes_ok_head3|by destruct Hk; subst..].
Qed.

(** Loading a well-formed payload off a stream comes down to validating it. *)
Lemma packet_load_whole malloc_ok fuel p rest tl :
  payload_ok p -> bytes_ok rest -> malloc_ok (zlen p) = true ->
  dicey_packet_load malloc_ok fuel (vw (p ++ rest) tl) =
  match as_bad_message (validate_packet fuel p) with
  | Ok _ => (Ok (packet_of p), vw rest tl)
  | Err e => (Err e, vw (p ++ rest) tl)
  | Fault f => (Fault f, vw (p ++ rest) tl)
  | OutOfFuel => (OutOfFuel, vw (p ++ rest) tl)
  end.
Proof.
  intros Hp Hr Hm. pose proof Hp as (Hb & _). rewrite packet_load_eq by (by apply Forall_app).
  pose proof (payload_load_whole malloc_ok p rest Hp Hr Hm tl) as E.
  rewrite payload_load_eq in E by (by apply Forall_app).
  destruct (payload_load_spec malloc_ok (p ++ rest)) as [p'| | |]; [|by discriminate E..].
  injection E as -> El Ed. assert (zdrop (payload_size (p ++ rest)) (p ++ rest) = rest) as ->; [|done].
  apply (app_inv_tail tl). by rewrite Ed.
Qed.

(** The operations that are messages, with their payload kinds. *)
Lemma dtf_of_op_message op :
  dicey_op_is_valid op = true ->
  is_message (dtf_of_op op) = true /\ op_of_kind (dtf_of_op op) = op /\
  (dicey_op_requires_payload op = true <-> dtf_of_op op <> DTF_PAYLOAD_GET).
Proof. by destruct op. Qed.

(** Representable parts of a message. *)
Definition message_ok (op : dicey_op) (path t e : cstr) (value : option dicey_arg) : Prop :=
  dicey_op_is_valid op = true /\ cstr_ok path /\ cstr_ok t /\ cstr_ok e /\
  value_presence (dtf_of_op op) value /\
  match value with Some a => arg_ok a | None => True end /\
  header_len path t e + zlen (value_bytes value) <= UINT32_MAX.

Section written_message.
Variables (op : dicey_op) (seq : Z) (path t e : cstr) (value : option dicey_arg).
Hypothesis Hok : message_ok op path t e value.

Definition written : list Z := message_bytes (dtf_of_op op) seq path t e (value_bytes value).

Lemma written_payload : payload_ok written /\ payload_kind written = dtf_of_op op.
Proof.
  destruct Hok as (Hop & Hp & Ht & He & _ & Ha & Hl). destruct (dtf_of_op_message op Hop) as (Hm & _ & _).
  split; [|by apply payload_kind_head3, is_message_valid]. apply payload_ok_message; try done.
  destruct value as [a|]; [|constructor]. apply bytes_ok_app; [|by apply bytes_ok_content].
  by apply bytes_ok_type, arg_ok_type.
Qed.

Lemma written_value :
  exists v, message_value op (value_bytes value) = Ok v /\
    match value with Some a => denotes v a | None => v = zero_value end.
Proof.
  destruct Hok as (Hop & _ & _ & _ & Hv & Ha & Hl). destruct (dtf_of_op_message op Hop) as (_ & _ & Hreq).
  pose proof (header_len_pos path t e). change MESSAGE_HEAD_SIZE with 12 in *.
  destruct value as [a|]; [|by exists zero_value]. cbn [value_bytes] in *.
  destruct (probe_encoded a [] [] Ha ltac:(lia)) as (v & E & Hd). rewrite app_nil_r in E.
  exists v. split; [|done]. unfold message_value. pose proof (zlen_encode_variant a).
  pose proof (zlen_nonneg (encode_content a)). destruct (Z.eqb_spec (zlen (encode_variant a)) 0); [lia|].
  assert (dicey_op_requires_payload op = true) as -> by (apply Hreq; intros Eg; by apply Hv in Eg).
  cbn [negb]. rewrite E. done.
Qed.

Lemma written_as_message :
  exists v, dicey_packet_as_message (packet_of written) =
    Ok (mk_message op (Some path) (mk_selector (Some t) (Some e)) v) /\
    match value with Some a => denotes v a | None => v = zero_value end.
Proof.
  destruct written_payload as [Hp Hk]. pose proof Hok as (Hop & Hps & Ht & He & _ & _ & Hl).
  destruct (dtf_of_op_message op Hop) as (Hm & Eop & _). destruct written_value as (v & Ev & Hd).
  exists v. split; [|done]. rewrite (as_message_eq written path t e (value_bytes value));
    [by rewrite Hk, Eop, Ev|done|by rewrite Hk|].
  apply get_content_message; by (apply cstr_ok_nonzero || idtac).
Qed.

Lemma written_validated :
  match value with Some a => loadable a | None => True end ->
  exists f0, forall fuel, (f0 <= fuel)%nat -> validate_packet fuel written = Ok tt.
Proof.
  intros Hload. destruct written_payload as [_ Hk]. destruct written_as_message as (v & E & Hd).
  destruct Hok as (Hop & _ & _ & _ & Hv & _ & _). destruct (dtf_of_op_message op Hop) as (Hm & _ & Hreq).
  assert (forall fuel, validate_packet fuel written =
    if dicey_op_requires_payload op then validate_value fuel v else Ok tt) as Eq.
  { intros fuel. unfold validate_packet, validate_message. rewrite Hk, E. cbn [obind msg_type msg_value].
    by destruct (dtf_of_op op). }
  destruct value as [a|].
  - destruct (denotes_validates v a Hd Hload) as [f0 H]. exists f0. intros fuel Hf. rewrite Eq, H by done.
    by destruct (dicey_op_requires_payload op).
  - exists O. intros fuel _. rewrite Eq. destruct (dicey_op_requires_payload op) eqn:Er; [|done].
    exfalso. apply Hreq; [done|]. by apply Hv.
Qed.

End written_message.

(** ** Properties *)

(** C1: loading a packet is memory safe on every stream of bytes: no access outside the stream
    or the payload, no failed assertion, no wrong union member, at every depth of the value.
    The stream is moved only on success, by exactly the bytes the packet owns. *)
Theorem dicey_packet_load_safe malloc_ok fuel bs tl :
  bytes_ok bs ->
  match dicey_packet_load malloc_ok fuel (vw bs tl) with
  | (Ok packet, stream) =>
      exists p rest, bs = p ++ rest /\ packet = mk_packet (Some p) (zlen p) /\ stream = vw rest tl
  | (Err _, stream) | (OutOfFuel, stream) => stream = vw bs tl
  | (Fault _, _) => False
  end.
Proof.
  intros Hb. rewrite packet_load_eq by done.
  destruct (payload_load_spec malloc_ok bs) as [p|e|f|] eqn:E; try done.
  - destruct (payload_load_ok _ _ _ Hb E) as (Hp & Eb & _). pose proof (validate_packet_safe fuel p Hp) as Hs.
    destruct (as_bad_message _); try done. eauto.
  - unfold payload_load_spec in E. repeat case_match; discriminate E.
Qed.

Lemma dicey_packet_load_safe_witness :
  (dicey_packet_load (fun _ => true) 10 (vw [1; 0; 0; 0; 0; 0; 0; 0; 0; 0; 2; 0; 9] [])).2 = vw [9] [].
Proof.
  pose proof (dicey_packet_load_safe (fun _ => true) 10 [1; 0; 0; 0; 0; 0; 0; 0; 0; 0; 2; 0; 9] []) as H.
  destruct H as (p & rest & E & Ep & Es).
  - repeat (constructor; [split; [lia|reflexivity]|]). constructor.
  - reflexivity.
Defined.

(** C6: loading terminates: with more fuel than the stream has bytes it gives an answer, unless
    the message carries, at some depth, an array of units with a non-zero byte count. *)
Theorem dicey_packet_load_terminates malloc_ok fuel bs tl :
  bytes_ok bs -> zlen bs < Z.of_nat fuel ->
  (dicey_packet_load malloc_ok fuel (vw bs tl)).1 = OutOfFuel ->
  exists p rest m, bs = p ++ rest /\
    dicey_packet_as_message (mk_packet (Some p) (zlen p)) = Ok m /\ stalls (msg_value m).
Proof.
  intros Hb Hf. rewrite packet_load_eq by done.
  destruct (payload_load_spec malloc_ok bs) as [p|e|f|] eqn:E; try done.
  2:{ unfold payload_load_spec in E. repeat case_match; discriminate E. }
  destruct (payload_load_ok _ _ _ Hb E) as (Hp & Eb & _). rewrite Eb, zlen_app in Hf.
  pose proof (zlen_nonneg (zdrop (payload_size bs) bs)). pose proof (zlen_nonneg p).
  intros Hout. exists p, (zdrop (payload_size bs) bs). fold (packet_of p).
  assert (validate_packet fuel p = OutOfFuel) as Hv by (by destruct (validate_packet fuel p) as [|[]| |]).
  assert (validate_message fuel (packet_of p) = OutOfFuel) as Hvm.
  { unfold validate_packet, validate_bye in Hv. destruct (payload_kind p); try done.
    by destruct (as_bye_cases p Hp) as [[r Er]|[e Er]]; rewrite Er in Hv. }
  unfold validate_message in Hvm. destruct (as_message_cases p Hp) as [(m & Em & Hval)|(e & Em)]; rewrite Em in Hvm; [|done].
  cbn [obind] in Hvm. exists m. split_and!; [done|done|].
  destruct (dicey_op_requires_payload _); [|done].
  destruct Hval as [Ez|Hval]; [rewrite Ez in Hvm; destruct fuel; [lia|done]|].
  apply (validate_terminates fuel (zlen p)); [done|lia|done].
Qed.

(** A response whose value is an array that declares one unit in one byte. *)
Definition unit_array_packet : list Z :=
  [58; 0; 0; 0; 1; 0; 0; 0; 15; 0; 0; 0; 47; 0; 97; 0; 98; 0; 91; 1; 0; 0; 0; 1; 0; 36; 7].

Lemma unit_array_packet_ok : bytes_ok unit_array_packet.
Proof. repeat (constructor; [split; [lia|reflexivity]|]). constructor. Defined.

Lemma dicey_packet_load_terminates_witness :
  exists p rest m, unit_array_packet = p ++ rest /\
    dicey_packet_as_message (mk_packet (Some p) (zlen p)) = Ok m /\ stalls (msg_value m).
Proof.
  apply (dicey_packet_load_terminates (fun _ => true) 30 unit_array_packet []).
  - exact unit_array_packet_ok.
  - reflexivity.
  - vm_compute. reflexivity.
Defined.

(** the exception to termination is real: a 27-byte packet from a peer makes
    [dicey_packet_load] loop for ever, because the iterator over an array of units never
    advances. No amount of fuel gives an answer. *)
Theorem unit_array_packet_hangs fuel tl :
  (dicey_packet_load (fun _ => true) fuel (vw unit_array_packet tl)).1 = OutOfFuel.
Proof.
  rewrite packet_load_eq by apply unit_array_packet_ok.
  change (payload_load_spec (fun _ => true) unit_array_packet) with (Ok unit_array_packet : res (list Z)).
  unfold validate_packet. change (payload_kind unit_array_packet) with DTF_PAYLOAD_RESPONSE.
  unfold validate_message.
  set (m := dicey_packet_as_message (packet_of unit_array_packet)). vm_compute in m. unfold m. clear m.
  cbn [obind msg_type msg_value dicey_op_requires_payload].
  pose proof (validate_unit_array_loops fuel 1 (vw [7] []) ltac:(done) ltac:(by eexists)) as H.
  change (vw [7] []) with (mk_view 1 (Some [7])) in H. cbn [type_code] in H. by rewrite H.
Qed.

(** C2: a message of well-formed parts that [dtf_message_write] has written is loaded back, whatever
    follows it in the stream: the packet owns the same bytes, it has the same sequence number and
    kind, and [dicey_packet_as_message] returns the operation, path, selector and value that were
    written. Well-formed ([message_ok], [loadable]): a valid operation with a value precisely
    when it takes one, strings without inner NUL, integers in range, arrays of elements of
    their declared type, none of units but the empty one, no byte string of length 0 (the validation
    of packets refuses it, see [empty_bytes_rejected]), and at most [UINT32_MAX] bytes in all; memory
    is available. *)
Theorem message_roundtrip alloc_ok op seq path t e value rest tl :
  message_ok op path t e value -> match value with Some a => loadable a | None => True end ->
  bytes_ok rest -> (forall n, alloc_ok n = true) ->
  let sel := mk_selector (Some t) (Some e) in
  exists bs n,
    dtf_message_write alloc_ok DICEY_NULL [] (dtf_of_op op) seq (Some path) sel value =
      Ok (mk_dtf_result (inr n) n (Some 0), Some bs) /\
    let packet := mk_packet (Some bs) n in
    (exists f0, forall fuel, (f0 <= fuel)%nat ->
       dicey_packet_load alloc_ok fuel (vw (bs ++ rest) tl) = (Ok packet, vw rest tl)) /\
    dicey_packet_get_kind packet = Ok DICEY_PACKET_KIND_MESSAGE /\
    dicey_packet_get_seq packet = Ok (u32 seq) /\
    exists v, dicey_packet_as_message packet = Ok (mk_message op (Some path) sel v) /\
      match value with Some a => denotes v a | None => v = zero_value end.
Proof.
  intros Hok Hload Hrest Halloc sel. exists (written op seq path t e value), (zlen (written op seq path t e value)).
  destruct (written_payload op seq path t e value Hok) as [Hp Hk].
  pose proof Hok as (Hop & _ & _ & _ & Hpres & Ha & Hl). destruct (dtf_of_op_message op Hop) as (Hm & _ & _).
  cbv zeta. split_and!.
  - apply message_write_alloc; [done|done| |done]. destruct value; [by apply arg_ok_writable|done].
  - destruct (written_validated op seq path t e value Hok Hload) as [f0 H]. exists f0. intros fuel Hf.
    rewrite packet_load_whole, H by done. done.
  - fold (packet_of (written op seq path t e value)). unfold dicey_packet_get_kind. rewrite packet_of_valid by done.
    cbn [oassert obind packet_of payload]. rewrite get_kind_ok by done. cbn [obind]. rewrite Hk. by destruct op.
  - fold (packet_of (written op seq path t e value)). unfold dicey_packet_get_seq. rewrite packet_of_valid by done.
    cbn [oassert obind packet_of payload dtf_payload_get_seq]. pose proof Hp as (_ & _ & H12 & _).
    change MESSAGE_HEAD_SIZE with 12 in *. rewrite read_u32_ok by lia. cbn [obind].
    unfold written, message_bytes, head3. rewrite <- !app_assoc.
    rewrite zdrop_app_eq, ztake_app_eq by (by rewrite zlen_le_bytes). rewrite le_val_le_bytes.
    unfold u32, wrap. change (8 * Z.of_nat 4) with 32. by rewrite Z.mod_mod.
  - by apply written_as_message.
Qed.

Lemma message_roundtrip_witness :
  exists bs n, dtf_message_write (fun _ => true) DICEY_NULL [] (dtf_of_op DICEY_OP_SET) 3 (Some [47])
    (mk_selector (Some [97]) (Some [98])) (Some (ArgTuple [ArgU16 500; ArgBytes 2 (Some [1; 2])])) =
    Ok (mk_dtf_result (inr n) n (Some 0), Some bs) /\
  dicey_packet_get_seq (mk_packet (Some bs) n) = Ok 3.
Proof.
  destruct (message_roundtrip (fun _ => true) DICEY_OP_SET 3 [47] [97] [98]
    (Some (ArgTuple [ArgU16 500; ArgBytes 2 (Some [1; 2])])) [] []) as (bs & n & H & _ & _ & Hs & _).
  - unfold message_ok. split_and!; try reflexivity; try (repeat constructor; lia).
    + split; discriminate.
    + cbn. unfold in_unsigned. split_and!; try (vm_compute; discriminate); try reflexivity; try exact I.
      exists [1; 2]. split_and!; try reflexivity. repeat constructor; lia.
    + vm_compute. discriminate.
  - cbn. split_and!; try exact I. discriminate.
  - constructor.
  - reflexivity.
  - exists bs, n. split; [exact H|exact Hs].
Defined.

(** An empty byte string is written without complaint and read back by
    [dicey_packet_as_message], but [dicey_packet_load] rejects every message that carries one. *)
Theorem empty_bytes_rejected alloc_ok fuel op seq path t e rest tl :
  message_ok op path t e (Some (ArgBytes 0 (Some []))) -> bytes_ok rest -> (forall n, alloc_ok n = true) ->
  exists bs n,
    dtf_message_write alloc_ok DICEY_NULL [] (dtf_of_op op) seq (Some path) (mk_selector (Some t) (Some e))
      (Some (ArgBytes 0 (Some []))) = Ok (mk_dtf_result (inr n) n (Some 0), Some bs) /\
    (dicey_packet_load alloc_ok (S fuel) (vw (bs ++ rest) tl)).1 = Err DICEY_EBADMSG.
Proof.
  intros Hok Hrest Halloc. set (value := Some (ArgBytes 0 (Some []))) in *.
  exists (written op seq path t e value), (zlen (written op seq path t e value)).
  destruct (written_payload op seq path t e value Hok) as [Hp Hk].
  destruct (written_as_message op seq path t e value Hok) as (v & E & Hd).
  pose proof Hok as (Hop & _ & _ & _ & Hpres & Ha & Hl). destruct (dtf_of_op_message op Hop) as (Hm & _ & Hreq).
  split; [by apply message_write_alloc; try done; apply (arg_ok_writable (ArgBytes 0 (Some [])))|].
  rewrite packet_load_whole by done.
  assert (validate_packet (S fuel) (written op seq path t e value) = Err DICEY_EINVAL) as ->; [|done].
  unfold validate_packet, validate_message. rewrite Hk, E. cbn [obind msg_type msg_value].
  assert (dicey_op_requires_payload op = true) as -> by (apply Hreq; intros Eg; by apply Hpres in Eg).
  assert (validate_value (S fuel) v = Err DICEY_EINVAL) as ->; [|by destruct (dtf_of_op op)].
  by inversion Hd; subst.
Qed.

Lemma empty_bytes_rejected_witness :
  exists bs : list Z, (dicey_packet_load (fun _ => true) 5 (vw (bs ++ []) [])).1 = Err DICEY_EBADMSG.
Proof.
  destruct (empty_bytes_rejected (fun _ => true) 4 DICEY_OP_EXEC 3 [47] [97] [98] [] []) as (bs & n & _ & H).
  - unfold message_ok. split_and!; try reflexivity; try (repeat constructor; lia).
    + split; discriminate.
    + exists []. split_and!; try reflexivity. constructor.
    + vm_compute. discriminate.
  - constructor.
  - reflexivity.
  - exists bs. exact H.
Defined.

(** A hello or bye packet holds the three words of its struct. *)
Lemma packet_from_fixed_ok calloc_ok kind seq x :
  (forall n, calloc_ok n = true) ->
  packet_from_fixed calloc_ok 12 (fun dest mem => fixed_write calloc_ok 12 (head3 kind seq x) dest mem) =
  Ok (packet_of (head3 kind seq x)).
Proof.
  intros Hc. unfold packet_from_fixed. rewrite Hc. cbn [negb]. unfold fixed_write, dicey_view_mut_ensure_cap.
  cbn [vm_len vm_data]. rewrite Z.ltb_irrefl.
  pose proof (wst_write_ptr [] (replicate (Z.to_nat 12) 0) [] [] (head3 kind seq x) 12) as H.
  unfold wst in H. rewrite zlen_head3, !app_nil_r in H. cbn [app] in H.
  change (zlen (replicate (Z.to_nat 12) 0)) with 12 in H. change (zlen []) with 0 in H.
  rewrite (H eq_refl eq_refl). cbn [obind dr_result]. unfold packet_of. by rewrite zlen_head3.
Qed.

Lemma fixed_third kind seq x : read_u32 (head3 kind seq x) 8 = Ok (u32 x).
Proof.
  rewrite read_u32_ok by (rewrite ?zlen_head3; done). unfold head3. rewrite app_assoc.
  rewrite zdrop_app_eq by (by autorewrite with zlen). rewrite ztake_all by (by rewrite zlen_le_bytes).
  by rewrite le_val_le_bytes.
Qed.

Definition version_ok (v : dicey_version) : Prop := 0 <= major v <= UINT16_MAX /\ 0 <= revision v <= UINT16_MAX.

Lemma version_dtf_roundtrip v : version_ok v -> version_from_dtf (u32 (version_to_dtf v)) = v.
Proof.
  destruct v as [a b]. unfold version_ok, version_from_dtf, version_to_dtf. cbn [major revision].
  change UINT16_MAX with 65535. intros [Ha Hb].
  rewrite Z.shiftl_mul_pow2 by lia. change (2 ^ 16) with 65536.
  rewrite (u32_small (a * 65536)) by (change UINT32_MAX with 4294967295; lia).
  pose proof (lor_add 16 a b) as Hlor. change (2 ^ 16) with 65536 in Hlor. rewrite Hlor by lia. change (2 ^ 16) with 65536.
  rewrite u32_small by (change UINT32_MAX with 4294967295; lia). rewrite Z.shiftr_div_pow2 by lia.
  change 65535 with (Z.ones 16). rewrite Z.land_ones by lia. change (2 ^ 16) with 65536.
  unfold u16, wrap. change (2 ^ 16) with 65536. f_equal.
  - rewrite Z.div_add_l, (Z.div_small b) by lia. rewrite Z.add_0_r. apply Z.mod_small. lia.
  - rewrite Z.add_comm, Z.mod_add, (Z.mod_small b) by lia. apply Z.mod_small. lia.
Qed.

(** Hello and bye packets are loaded back as they were made: the stream moves past them and
    the version, or the reason, is the one given. *)
Theorem hello_bye_roundtrip alloc_ok fuel seq version reason rest tl :
  (forall n, alloc_ok n = true) -> bytes_ok rest -> version_ok version -> dicey_bye_reason_is_valid reason = true ->
  (exists p packet, dicey_packet_hello alloc_ok seq version = Ok packet /\ payload packet = Some p /\
     dicey_packet_load alloc_ok fuel (vw (p ++ rest) tl) = (Ok packet, vw rest tl) /\
     dicey_packet_as_hello packet = Ok version) /\
  (exists p packet, dicey_packet_bye alloc_ok seq reason = Ok packet /\ payload packet = Some p /\
     dicey_packet_load alloc_ok fuel (vw (p ++ rest) tl) = (Ok packet, vw rest tl) /\
     dicey_packet_as_bye packet = Ok reason).
Proof.
  intros Hc Hrest Hver Hre. split.
  - exists (head3 DTF_PAYLOAD_HELLO seq (version_to_dtf version)), (packet_of (head3 DTF_PAYLOAD_HELLO seq (version_to_dtf version))).
    pose proof (payload_ok_fixed DTF_PAYLOAD_HELLO seq (version_to_dtf version) ltac:(by left)) as Hp.
    split_and!; [by apply packet_from_fixed_ok|done| |].
    + rewrite packet_load_whole by done. done.
    + unfold dicey_packet_as_hello. rewrite packet_of_valid by done. cbn [oassert obind packet_of payload].
      rewrite get_kind_ok by done. cbn [obind]. change (payload_kind (head3 DTF_PAYLOAD_HELLO _ _)) with DTF_PAYLOAD_HELLO.
      cbn [obind]. rewrite fixed_third. cbn [obind]. by rewrite version_dtf_roundtrip.
  - exists (head3 DTF_PAYLOAD_BYE seq (reason_code reason)), (packet_of (head3 DTF_PAYLOAD_BYE seq (reason_code reason))).
    pose proof (payload_ok_fixed DTF_PAYLOAD_BYE seq (reason_code reason) ltac:(by right)) as Hp.
    assert (dicey_packet_as_bye (packet_of (head3 DTF_PAYLOAD_BYE seq (reason_code reason))) = Ok reason) as Hbye.
    { unfold dicey_packet_as_bye. rewrite packet_of_valid by done. cbn [oassert obind packet_of payload].
      rewrite get_kind_ok by done. cbn [obind]. change (payload_kind (head3 DTF_PAYLOAD_BYE _ _)) with DTF_PAYLOAD_BYE.
      rewrite fixed_third. cbn [obind]. by destruct reason. }
    split_and!; [|done| |done].
    + unfold dicey_packet_bye. rewrite Hre. by apply packet_from_fixed_ok.
    + rewrite packet_load_whole by done. unfold validate_packet, validate_bye.
      change (payload_kind (head3 DTF_PAYLOAD_BYE _ _)) with DTF_PAYLOAD_BYE. by rewrite Hbye.
Qed.

Lemma hello_bye_roundtrip_witness :
  exists packet, dicey_packet_bye (fun _ => true) 5 DICEY_BYE_REASON_ERROR = Ok packet /\
    dicey_packet_as_bye packet = Ok DICEY_BYE_REASON_ERROR.
Proof.
  destruct (hello_bye_roundtrip (fun _ => true) 0 5 (mk_version 2 0) DICEY_BYE_REASON_ERROR [1; 2] [])
    as (_ & p & packet & H1 & _ & _ & H2).
  - reflexivity.
  - repeat constructor; lia.
  - split; vm_compute; split; discriminate.
  - reflexivity.
  - exists packet. split; [exact H1|exact H2].
Defined.

(** The bye reason [KICKED] can be neither sent nor received: building the packet fails an
    assertion, and a bye packet that carries it is rejected as malformed. *)
Theorem kicked_reason_unusable alloc_ok malloc_ok fuel seq rest tl :
  bytes_ok rest -> malloc_ok BYE_SIZE = true ->
  dicey_packet_bye alloc_ok seq DICEY_BYE_REASON_KICKED = Fault AssertFailed /\
  (dicey_packet_load malloc_ok fuel
     (vw (head3 DTF_PAYLOAD_BYE seq (reason_code DICEY_BYE_REASON_KICKED) ++ rest) tl)).1 = Err DICEY_EBADMSG.
Proof.
  intros Hrest Hm. split; [done|].
  pose proof (payload_ok_fixed DTF_PAYLOAD_BYE seq (reason_code DICEY_BYE_REASON_KICKED) ltac:(by right)) as Hp.
  rewrite packet_load_whole by (done || by rewrite zlen_head3).
  unfold validate_packet, validate_bye. change (payload_kind (head3 DTF_PAYLOAD_BYE _ _)) with DTF_PAYLOAD_BYE.
  unfold dicey_packet_as_bye. rewrite packet_of_valid by done. cbn [oassert obind packet_of payload].
  rewrite get_kind_ok by done. cbn [obind]. change (payload_kind (head3 DTF_PAYLOAD_BYE _ _)) with DTF_PAYLOAD_BYE.
  by rewrite fixed_third.
Qed.

Lemma kicked_reason_unusable_witness :
  dicey_packet_bye (fun _ => true) 1 DICEY_BYE_REASON_KICKED = Fault AssertFailed.
Proof.
  apply (kicked_reason_unusable (fun _ => true) (fun _ => true) 0 1 [] []); [constructor|reflexivity].
Defined.

Lemma forward_presence op op' {A} (value : option A) :
  dicey_op_is_valid op = true -> dicey_op_is_valid op' = true -> is_valid_forward op op' = true ->
  value_presence (dtf_of_op op) value -> value_presence (dtf_of_op op') value.
Proof. unfold value_presence. destruct op, op'; try done; intros _ _ _ [H1 H2]; split; intros H; first [done|by apply H1|by apply H2 in H]. Qed.

(** forwarding a message yields the same value under the new operation, path, selector and
    sequence number: the result is byte for byte the message that would have been written with
    that value, and reading it gives the value of the original. *)
Theorem forward_message_correct alloc_ok op seq path t e value op' seq' path' t' e' :
  message_ok op path t e value -> (forall n, alloc_ok n = true) ->
  is_valid_forward op op' = true -> dicey_op_is_valid op' = true ->
  cstr_ok path' -> cstr_ok t' -> cstr_ok e' ->
  header_len path' t' e' + zlen (value_bytes value) <= UINT32_MAX ->
  let old := message_bytes (dtf_of_op op) seq path t e (value_bytes value) in
  let new := message_bytes (dtf_of_op op') seq' path' t' e' (value_bytes value) in
  dicey_packet_forward_message alloc_ok (mk_packet (Some old) (zlen old)) seq' op' (Some path')
    (mk_selector (Some t') (Some e')) = Ok (mk_packet (Some new) (zlen new)) /\
  exists v, dicey_packet_as_message (mk_packet (Some new) (zlen new)) =
      Ok (mk_message op' (Some path') (mk_selector (Some t') (Some e')) v) /\
    match value with Some a => denotes v a | None => v = zero_value end.
Proof.
  intros Hok Halloc Hf Hop' Hp' Ht' He' Hl' old new.
  pose proof Hok as (Hop & _ & _ & _ & Hpres & Ha & Hl).
  pose proof (zlen_nonneg (value_bytes value)). pose proof (header_len_pos path t e).
  change MESSAGE_HEAD_SIZE with 12 in *.
  destruct (dtf_of_op_message op Hop) as (Hm & _ & _). destruct (dtf_of_op_message op' Hop') as (Hm' & _ & _).
  split.
  - unfold dicey_packet_forward_message. rewrite Hop'.
    change (negb (bool_decide (is_Some (Some path')) && true && dicey_selector_is_valid (mk_selector (Some t') (Some e')))) with false.
    cbv iota.
    destruct (written_payload op seq path t e value Hok) as [Hpay _].
    fold (packet_of old). unfold written in Hpay. fold old in Hpay. rewrite packet_of_valid by done. cbn [negb].
    destruct (written_as_message op seq path t e value Hok) as (v & E & _). unfold written in E. fold old in E.
    rewrite E. cbn [msg_type msg_path msg_selector]. rewrite Hf. cbn [negb].
    rewrite estimate_header_ok by (done || lia). cbn [obind nbytes packet_of payload].
    assert (zlen old = header_len path t e + zlen (value_bytes value)) as Hz by apply zlen_message.
    destruct (Z.leb_spec (header_len path t e) (zlen old)); [|lia]. cbn [oassert obind fmap option_fmap option_map].
    assert (zdrop (header_len path t e) old = value_bytes value) as ->.
    { unfold old. rewrite message_bytes_prefix. apply zdrop_app_eq. unfold prefix_bytes, header_len. autorewrite with zlen. lia. }
    replace (zlen old - header_len path t e) with (zlen (value_bytes value)) by lia.
    replace (dicey_view_from (Some (value_bytes value)) (zlen (value_bytes value))) with (vw (value_bytes value) [])
      by (unfold vw, dicey_view_from; by rewrite app_nil_r).
    rewrite raw_message_write_alloc by done. cbn [obind packet_of_result dr_result dr_data dr_size fmap option_fmap option_map].
    by rewrite zdrop_0.
  - apply (written_as_message op' seq' path' t' e' value). split_and!; try done. by apply (forward_presence op op').
Qed.

Lemma forward_message_correct_witness :
  let old := message_bytes DTF_PAYLOAD_EXEC 1 [47] [97] [98] (encode_variant (ArgBool 1)) in
  exists packet, dicey_packet_forward_message (fun _ => true) (mk_packet (Some old) (zlen old)) 9
    DICEY_OP_RESPONSE (Some [47; 120]) (mk_selector (Some [99]) (Some [100])) = Ok packet.
Proof.
  destruct (forward_message_correct (fun _ => true) DICEY_OP_EXEC 1 [47] [97] [98] (Some (ArgBool 1))
    DICEY_OP_RESPONSE 9 [47; 120] [99] [100]) as [H _].
  - unfold message_ok. split_and!; try reflexivity; try (repeat constructor; lia).
    + split; discriminate.
    + vm_compute. discriminate.
  - reflexivity.
  - reflexivity.
  - reflexivity.
  - repeat constructor; lia.
  - repeat constructor; lia.
  - repeat constructor; lia.
  - vm_compute. discriminate.
  - eexists. exact H.
Defined.

(** Dumping a packet copies exactly its payload to the destination and advances it, or
    reports [EOVERFLOW] and leaves it alone when it does not fit; a dumped packet is loaded back
    as the same packet. *)
Theorem dump_load_roundtrip malloc_ok fuel p pre area post :
  payload_ok p -> malloc_ok (zlen p) = true ->
  let dump := dicey_packet_dump (mk_packet (Some p) (zlen p))
                (mk_view_mut (zlen area) (Some (zlen pre)), pre ++ area ++ post) in
  (zlen area < zlen p -> dump = (Err DICEY_EOVERFLOW, (mk_view_mut (zlen area) (Some (zlen pre)), pre ++ area ++ post))) /\
  (zlen p <= zlen area ->
     dump = (Ok tt, (mk_view_mut (zlen area - zlen p) (Some (zlen pre + zlen p)),
                     pre ++ p ++ zdrop (zlen p) area ++ post))) /\
  (forall packet, (dicey_packet_load malloc_ok fuel (vw p [])).1 = Ok packet -> packet = mk_packet (Some p) (zlen p)).
Proof.
  intros Hp Hm dump. pose proof (packet_of_valid p Hp) as Hv. unfold packet_of in Hv.
  assert (vw p [] = mk_view (zlen p) (Some p)) as Evw by (unfold vw; by rewrite app_nil_r).
  split_and!.
  - intros Hl. unfold dump, dicey_packet_dump. rewrite Hv. cbn [vm_data]. rewrite bool_decide_eq_true_2 by done.
    cbn [andb]. srun. unfold dicey_view_mut_write_ptr, dicey_view_from. cbn [payload nbytes]. rewrite <- Evw.
   
    pose proof (wst_write_full pre area post p [] Hl) as H. unfold wst in H.
    by rewrite (sbind_Err _ _ _ _ _ H).
  - intros Hl. unfold dump, dicey_packet_dump. rewrite Hv. cbn [vm_data]. rewrite bool_decide_eq_true_2 by done.
    cbn [andb]. srun. cbn [payload nbytes]. pose proof (zlen_nonneg p).
    destruct (zsplit (zlen p) area ltac:(lia)) as (r1 & r2 & -> & Hr).
    pose proof (wst_write_ptr pre r1 r2 post p (zlen p) Hr eq_refl) as H'. unfold wst in H'.
    rewrite (sbind_Ok _ _ _ _ _ H'). unfold sret. rewrite <- !app_assoc, zdrop_app_eq, !zlen_app by done.
    replace (zlen r1 + zlen r2 - zlen p) with (zlen r2) by lia. done.
  - intros packet E. rewrite <- (app_nil_r p) in E. rewrite packet_load_whole in E by (done || constructor).
    by destruct (as_bad_message _); simplify_eq/=.
Qed.

Lemma dump_load_roundtrip_witness :
  dicey_packet_dump (mk_packet (Some [1; 0; 0; 0; 0; 0; 0; 0; 0; 0; 2; 0]) 12) (mk_view_mut 3 (Some 0), [0; 0; 0]) =
  (Err DICEY_EOVERFLOW, (mk_view_mut 3 (Some 0), [0; 0; 0])).
Proof.
  apply (dump_load_roundtrip (fun _ => true) 0 [1; 0; 0; 0; 0; 0; 0; 0; 0; 0; 2; 0] [] [0; 0; 0] []).
  - split; [|split; [|split]]; [|reflexivity|vm_compute; discriminate|reflexivity].
    repeat (constructor; [split; [lia|reflexivity]|]). constructor.
  - reflexivity.
  - reflexivity.
Defined.
