(* ===== verification/Typedescr.v ===== *)
(** * Signatures (src/wirefmt/typedescr.c)

    The recursive-descent parser of type signatures, as written, and the grammar that
    include/dicey/core/typedescr.h documents as a type of syntax trees with a printer. The
    theorems show that the parser accepts exactly the printed trees. *)

From S2P Require Import Prelude Errors Types Views.

(** The parser moves a pointer towards a fixed end: the state is what is left to read. *)
Abbreviation pst := (stm (list Z) dicey_error).

Definition ARRAY_END : Z := 93.   (* ']' *)
Definition PAIR_END : Z := 125.   (* '}' *)
Definition TUPLE_END : Z := 41.   (* ')' *)

Definition is_valid_type (ch : Z) : bool :=
  dicey_type_is_valid (type_of_code ch) || (ch =? DICEY_VARIANT_ID).

Fixpoint match_exact (tag : list Z) : pst bool := fun cur =>
  match tag with
  | [] => (Ok true, cur)
  | t :: tag' =>
      match cur with
      | [] => (Ok false, cur)
      | c :: cur' => if c =? t then match_exact tag' cur' else (Ok false, cur)
      end
  end.

(** [isspace] in the C locale. Its argument must be an [unsigned char] or [EOF]. *)
Definition isspace (c : Z) : res bool :=
  if (c <? 0) || (UINT8_MAX <? c) then Fault OutOfBounds
  else Ok ((c =? 32) || ((9 <=? c) && (c <=? 13))).

(** The conversion of a [char] (signed, held here as its byte) to [unsigned short]. *)
Definition char_to_ushort (c : Z) : Z := u16 (to_signed 8 c).

Fixpoint skip_whitespace_loop (cur : list Z) : res (list Z) :=
  match cur with
  | [] => Ok []
  | c :: cur' =>
      let! space := isspace (char_to_ushort c) in
      if space then skip_whitespace_loop cur' else Ok cur
  end.

Definition skip_whitespace : pst unit := fun cur =>
  match skip_whitespace_loop cur with
  | Ok cur' => (Ok tt, cur')
  | Err e => (Err e, cur)
  | Fault f => (Fault f, cur)
  | OutOfFuel => (OutOfFuel, cur)
  end.

Definition take_one : pst Z := fun cur =>
  match cur with
  | [] => (Ok 0, [])
  | c :: cur' => (Ok c, cur')
  end.

(** "->" *)
Definition parse_arrow : pst bool :=
  do! _ <- skip_whitespace;
  do! ok <- match_exact [45; 62];
  if negb ok then sret false else
  do! _ <- skip_whitespace;
  sret true.

Section containers.
Variable parse_type : pst bool.

Definition parse_array : pst bool :=
  do! ok <- parse_type;
  if negb ok then sret false else
  do! c <- take_one;
  sret (c =? ARRAY_END).

Definition parse_pair : pst bool :=
  do! ok <- parse_type;
  if negb ok then sret false else
  do! ok <- parse_type;
  if negb ok then sret false else
  do! c <- take_one;
  sret (c =? PAIR_END).

(** The loop of [parse_tuple]; [fuel] bounds the number of elements. *)
Fixpoint parse_tuple (fuel : nat) : pst bool :=
  match fuel with
  | O => slift OutOfFuel
  | S fuel' =>
      do! ok <- parse_type;
      if negb ok then sret false else
      do! cur <- sget;
      match cur with
      | [] => sret false
      | c :: _ => if c =? TUPLE_END then (do! _ <- take_one; sret true) else parse_tuple fuel'
      end
  end.

End containers.

(** [fuel] bounds the depth of nesting. *)
Fixpoint parse_type (fuel : nat) : pst bool :=
  match fuel with
  | O => slift OutOfFuel
  | S fuel' =>
      do! cur <- sget;
      match cur with
      | [] => sret true
      | _ :: _ =>
          do! first <- take_one;
          match type_of_code first with
          | DICEY_TYPE_ARRAY => parse_array (parse_type fuel')
          | DICEY_TYPE_PAIR => parse_pair (parse_type fuel')
          | DICEY_TYPE_TUPLE => parse_tuple (parse_type fuel') fuel'
          | _ => sret (is_valid_type first)
          end
      end
  end.

(** Enough fuel for an input: each level of nesting and each element takes a character. *)
Definition enough (cur : list Z) : nat := S (length cur).

(** The parser with the fuel its input needs. *)
Definition run_type : pst bool := fun cur => parse_type (enough cur) cur.

Definition dicey_typedescr_in_view : vst bool := fun view =>
  match v_data view with
  | None => (Fault AssertFailed, view)
  | Some d =>
      match mem_read d (v_len view) with
      | Ok beg =>
          let '(r, cur) := run_type beg in
          match r with
          | Ok true =>
              let bytes_read := zlen beg - zlen cur in
              (Ok true, dicey_view_from (Some (zdrop bytes_read d)) (v_len view - bytes_read))
          | Ok false => (Ok false, view)
          | Err e => (Err e, view)
          | Fault f => (Fault f, view)
          | OutOfFuel => (OutOfFuel, view)
          end
      | Err e => (Err e, view)
      | Fault f => (Fault f, view)
      | OutOfFuel => (OutOfFuel, view)
      end
  end.

(** [struct dicey_typedescr]: the kind with the active member of the union. *)
Inductive dicey_typedescr : Type :=
  | DICEY_TYPEDESCR_INVALID
  | DICEY_TYPEDESCR_VALUE (value : cstr)
  | DICEY_TYPEDESCR_FUNCTIONAL (input output : dicey_view).

(** Returns the description, or [None] where the source returns false. *)
Definition dicey_typedescr_parse (typedescr : cstr) : res (option dicey_typedescr) :=
  let root := typedescr in
  let '(r, cur1) := run_type typedescr in
  let! ok := r in
  if negb ok then Ok None else
  match cur1 with
  | [] => Ok (Some (DICEY_TYPEDESCR_VALUE root))
  | _ :: _ =>
      let input := dicey_view_from (Some (cstr_mem root)) (zlen root - zlen cur1) in
      let '(r, cur2) := parse_arrow cur1 in
      let! arrow := r in
      if negb arrow then Ok None else
      match cur2 with
      | [] => Ok None
      | _ :: _ =>
          let '(r, cur3) := run_type cur2 in
          let! ok := r in
          match cur3 with
          | [] =>
              if ok then Ok (Some (DICEY_TYPEDESCR_FUNCTIONAL input
                               (dicey_view_from (Some (cstr_mem cur2)) (zlen cur2))))
              else Ok None
          | _ :: _ => Ok None
          end
      end
  end.

Definition dicey_typedescr_is_valid (typedescr : cstr) : res bool :=
  let! descr := dicey_typedescr_parse typedescr in
  Ok (match descr with Some _ => true | None => false end).

(** ** The grammar *)

(** Values of the grammar: [SigAtom] is the character of a type that is not a container, or of
    the variant. A tuple has at least one element. *)
#[warnings="-register-all"]
Inductive sig : Type :=
  | SigAtom (c : Z)
  | SigArray (s : sig)
  | SigPair (s1 s2 : sig)
  | SigTuple (s : sig) (l : list sig).

Definition atom_ok (c : Z) : bool :=
  is_valid_type c && negb (dicey_type_is_container (type_of_code c)).

Fixpoint sig_ok (s : sig) : Prop :=
  match s with
  | SigAtom c => atom_ok c = true
  | SigArray s => sig_ok s
  | SigPair s1 s2 => sig_ok s1 /\ sig_ok s2
  | SigTuple s l => sig_ok s /\ foldr (fun x P => sig_ok x /\ P) True l
  end.

Fixpoint print_sig (s : sig) : list Z :=
  match s with
  | SigAtom c => [c]
  | SigArray s => type_code DICEY_TYPE_ARRAY :: print_sig s ++ [ARRAY_END]
  | SigPair s1 s2 => type_code DICEY_TYPE_PAIR :: print_sig s1 ++ print_sig s2 ++ [PAIR_END]
  | SigTuple s l => type_code DICEY_TYPE_TUPLE :: print_sig s ++ concat (map print_sig l) ++ [TUPLE_END]
  end.

Section sig_induction.
Variable P : sig -> Prop.
Hypothesis Hatom : forall c, P (SigAtom c).
Hypothesis Harray : forall s, P s -> P (SigArray s).
Hypothesis Hpair : forall s1 s2, P s1 -> P s2 -> P (SigPair s1 s2).
Hypothesis Htuple : forall s l, P s -> Forall P l -> P (SigTuple s l).

Lemma sig_ind' : forall s, P s.
Proof.
  fix IH 1. intros [c|s|s1 s2|s l].
  - apply Hatom.
  - apply Harray, IH.
  - apply Hpair; apply IH.
  - apply Htuple; [apply IH|]. induction l as [|x l IHl]; constructor; [apply IH|apply IHl].
Qed.

End sig_induction.

Lemma sig_ok_list l : foldr (fun x P => sig_ok x /\ P) True l <-> Forall sig_ok l.
Proof.
  induction l as [|x l IH]; cbn; [split; [constructor|done]|].
  rewrite IH. split; [intros []; by constructor|by inversion 1].
Qed.

(** ** The parser accepts exactly the grammar *)

(** The first character of a value is never one of the closing brackets. *)
Lemma print_sig_head s : sig_ok s -> exists c l, print_sig s = c :: l /\ is_valid_type c = true.
Proof.
  destruct s; cbn; intros H; eexists _, _; (split; [reflexivity|]); try reflexivity.
  unfold atom_ok in H. by apply andb_true_iff in H as [? _].
Qed.

Lemma valid_not_end c : is_valid_type c = true -> c <> TUPLE_END /\ c <> ARRAY_END /\ c <> PAIR_END.
Proof. intros H. split_and!; intros ->; discriminate H. Qed.

Lemma parse_type_cons fuel c rest :
  parse_type (S fuel) (c :: rest) =
  match type_of_code c with
  | DICEY_TYPE_ARRAY => parse_array (parse_type fuel) rest
  | DICEY_TYPE_PAIR => parse_pair (parse_type fuel) rest
  | DICEY_TYPE_TUPLE => parse_tuple (parse_type fuel) fuel rest
  | _ => (Ok (is_valid_type c), rest)
  end.
Proof. cbn [parse_type]. unfold sbind, sget, take_one. by destruct (type_of_code c). Qed.

Lemma atom_step fuel c rest : atom_ok c = true -> parse_type (S fuel) (c :: rest) = (Ok true, rest).
Proof.
  intros H. unfold atom_ok in H. apply andb_true_iff in H as [Hv Hc].
  rewrite parse_type_cons. destruct (type_of_code c); cbn in Hc; try discriminate Hc; by rewrite Hv.
Qed.

(** *** Completeness *)

Definition parses (s : sig) : Prop := forall fuel rest,
  (length (print_sig s ++ rest) < fuel)%nat -> parse_type fuel (print_sig s ++ rest) = (Ok true, rest).

Lemma parse_tuple_step pt fuel cs c rest :
  pt cs = (Ok true, c :: rest) ->
  parse_tuple pt (S fuel) cs = if c =? TUPLE_END then (Ok true, rest) else parse_tuple pt fuel (c :: rest).
Proof. intros E. cbn [parse_tuple]. rewrite (sbind_Ok _ _ _ _ _ E). cbn. by destruct (c =? TUPLE_END). Qed.

Lemma parse_tuple_complete fuel n s l rest :
  parses s -> Forall (fun x => sig_ok x /\ parses x) l ->
  (length (print_sig s ++ concat (map print_sig l) ++ TUPLE_END :: rest) < fuel)%nat -> (length l < n)%nat ->
  parse_tuple (parse_type fuel) n (print_sig s ++ concat (map print_sig l) ++ TUPLE_END :: rest) = (Ok true, rest).
Proof.
  intros Hs Hl. revert n s Hs. induction Hl as [|x l [Hxo Hx] Hl IH]; intros n s Hs Hf Hn; (destruct n as [|n]; [lia|]).
  - rewrite (parse_tuple_step _ _ _ TUPLE_END rest); [done|]. by apply Hs.
  - cbn [map concat] in *. destruct (print_sig_head x Hxo) as (c & k & Ex & Hc).
    rewrite <- app_assoc in *. rewrite Ex in *. cbn [app] in *.
    rewrite (parse_tuple_step _ _ _ c (k ++ concat (map print_sig l) ++ TUPLE_END :: rest)) by (by apply Hs).
    destruct (Z.eqb_spec c TUPLE_END); [by destruct (valid_not_end c Hc)|].
    specialize (IH n x Hx). rewrite Ex in IH. cbn [app] in IH. apply IH; [|cbn in Hn; lia].
    revert Hf. rewrite !length_app. cbn. rewrite !length_app. cbn. lia.
Qed.

Lemma print_sig_pos s : sig_ok s -> (0 < length (print_sig s))%nat.
Proof. intros Hs. destruct (print_sig_head s Hs) as (c & l & -> & _). cbn. lia. Qed.

Lemma length_concat_sig l : Forall sig_ok l -> (length l <= length (concat (map print_sig l)))%nat.
Proof.
  induction 1 as [|x l Hx Hl IH]; [done|]. cbn [map concat length]. rewrite length_app.
  pose proof (print_sig_pos x Hx). lia.
Qed.

Lemma parse_complete s : sig_ok s -> parses s.
Proof.
  revert s. apply (sig_ind' (fun s => sig_ok s -> parses s)).
  - intros c Hc [|fuel] rest Hf; [cbn in Hf; lia|]. by apply atom_step.
  - intros s IH Hs [|fuel] rest Hf; [lia|]. cbn [print_sig app] in *. rewrite parse_type_cons.
    change (type_of_code (type_code _)) with DICEY_TYPE_ARRAY. cbv iota. rewrite <- app_assoc in *. unfold parse_array.
    rewrite (sbind_Ok _ _ _ true (ARRAY_END :: rest)); [done|]. apply IH; [done|]. cbn in *. lia.
  - intros s1 s2 IH1 IH2 [Hs1 Hs2] [|fuel] rest Hf; [lia|]. cbn [print_sig app] in *. rewrite parse_type_cons.
    change (type_of_code (type_code _)) with DICEY_TYPE_PAIR. cbv iota. rewrite <- !app_assoc in *. unfold parse_pair.
    rewrite (sbind_Ok _ _ _ true (print_sig s2 ++ PAIR_END :: rest)) by (apply IH1; [done|]; cbn in *; lia).
    cbn [negb]. rewrite (sbind_Ok _ _ _ true (PAIR_END :: rest)); [done|]. apply IH2; [done|].
    revert Hf. cbn. rewrite !length_app. cbn. rewrite ?length_app. cbn. lia.
  - intros s l IH IHl [Hs Hl] [|fuel] rest Hf; [lia|]. cbn [print_sig app] in *. rewrite parse_type_cons.
    change (type_of_code (type_code _)) with DICEY_TYPE_TUPLE. cbv iota. rewrite <- !app_assoc in *.
    rewrite sig_ok_list in Hl. pose proof (length_concat_sig l Hl).
    revert Hf. cbn. rewrite !length_app. cbn. intros Hf.
    apply parse_tuple_complete; [by apply IH| |rewrite !length_app; cbn; lia|lia].
    rewrite !Forall_forall in *. auto.
Qed.

(** *** Soundness *)

(** The parser answers, never moves backwards, and what it accepts is a printed value (or
    nothing, at the very end of the input). *)
Definition sound_on (m : pst bool) (cs : list Z) (Q : list Z -> Prop) : Prop :=
  exists b rest, m cs = (Ok b, rest) /\ (length rest <= length cs)%nat /\ (b = true -> Q rest).

Definition value_or_end (cs rest : list Z) : Prop :=
  (cs = [] /\ rest = []) \/ exists s, sig_ok s /\ cs = print_sig s ++ rest.

Definition type_sound (pt : pst bool) (cs : list Z) : Prop := sound_on pt cs (value_or_end cs).

(** Sequencing: a failed first step stops, a successful one goes on with what it left. *)
Lemma sound_bind (m k : pst bool) cs Q R :
  sound_on m cs Q ->
  (forall rest, (length rest <= length cs)%nat -> Q rest -> sound_on k rest R) ->
  sound_on (do! ok <- m; if negb ok then sret false else k) cs R.
Proof.
  intros (b & rest & E & Hl & HQ) Hk. unfold sound_on, sbind. rewrite E.
  destruct b; cbn [negb]; [|by exists false, rest].
  destruct (Hk rest Hl (HQ eq_refl)) as (b & rest' & -> & Hl' & HR). exists b, rest'. split_and!; [done|lia|done].
Qed.

(** A closing bracket. *)
Lemma sound_close c cs : c <> 0 -> sound_on (do! x <- take_one; sret (x =? c)) cs (fun rest => cs = c :: rest).
Proof.
  intros Hc. unfold sound_on, sbind, take_one, sret. destruct cs as [|x cs].
  - exists (0 =? c), []. split_and!; [done|done|]. intros H. by apply Z.eqb_eq in H.
  - exists (x =? c), cs. split_and!; [done|cbn; lia|]. intros H. by apply Z.eqb_eq in H as ->.
Qed.

Lemma array_sound pt cs :
  (forall cs', (length cs' <= length cs)%nat -> type_sound pt cs') ->
  sound_on (parse_array pt) cs (fun rest => exists s, sig_ok s /\ cs = print_sig s ++ ARRAY_END :: rest).
Proof.
  intros Hpt. eapply sound_bind; [by apply Hpt|]. intros rest Hl Hq.
  destruct (sound_close ARRAY_END rest ltac:(done)) as (b & rest' & E & Hl' & HR). exists b, rest'.
  split_and!; [done..|]. intros Hb. apply HR in Hb as ->.
  destruct Hq as [[_ ?]|(s & Hs & ->)]; [done|]. eauto.
Qed.

Lemma pair_sound pt cs :
  (forall cs', (length cs' <= length cs)%nat -> type_sound pt cs') ->
  sound_on (parse_pair pt) cs
    (fun rest => exists s1 s2, sig_ok s1 /\ sig_ok s2 /\ cs = print_sig s1 ++ print_sig s2 ++ PAIR_END :: rest).
Proof.
  intros Hpt. eapply sound_bind; [by apply Hpt|]. intros rest Hl Hq.
  eapply sound_bind; [by apply Hpt|]. intros rest2 Hl2 Hq2.
  destruct (sound_close PAIR_END rest2 ltac:(done)) as (b & rest' & E & Hl' & HR). exists b, rest'.
  split_and!; [done..|]. intros Hb. apply HR in Hb as ->.
  destruct Hq2 as [[_ ?]|(s2 & Hs2 & ->)]; [done|].
  destruct Hq as [[_ Hnil]|(s1 & Hs1 & ->)]; [|eauto 10].
  destruct (print_sig_head s2 Hs2) as (c & k & Ek & _). by rewrite Ek in Hnil.
Qed.

Lemma tuple_sound pt n cs :
  (forall cs', (length cs' <= length cs)%nat -> type_sound pt cs') -> (length cs < n)%nat ->
  sound_on (parse_tuple pt n) cs
    (fun rest => exists s l, sig_ok s /\ Forall sig_ok l /\
       cs = print_sig s ++ concat (map print_sig l) ++ TUPLE_END :: rest).
Proof.
  revert cs. induction n as [|n IH]; intros cs Hpt Hn; [lia|]. cbn [parse_tuple].
  eapply sound_bind; [by apply Hpt|]. intros rest Hl Hq. unfold sound_on, sbind, sget.
  destruct rest as [|c rest]; [by exists false, []|].
  destruct Hq as [[_ ?]|(s & Hs & ->)]; [done|].
  destruct (Z.eqb_spec c TUPLE_END) as [->|Hne].
  - exists true, rest. split_and!; [done|cbn; lia|]. intros _. exists s, []. by split_and!.
  - pose proof (print_sig_pos s Hs). rewrite length_app in *.
    destruct (IH (c :: rest)) as (b & rest' & -> & Hl' & HR); [intros; apply Hpt; lia|lia|].
    exists b, rest'. split_and!; [done|lia|]. intros Hb. destruct (HR Hb) as (s' & l & Hs' & Hl'' & ->).
    exists s, (s' :: l). split_and!; [done|by constructor|]. cbn [map concat]. by rewrite <- !app_assoc.
Qed.

Lemma type_code_eq c t : type_of_code c = t -> c = type_code t.
Proof. intros <-. by rewrite type_code_of_code. Qed.

Lemma parse_sound fuel cs : (length cs < fuel)%nat -> type_sound (parse_type fuel) cs.
Proof.
  revert cs. induction fuel as [|fuel IH]; intros cs Hf; [lia|].
  destruct cs as [|c cs]; [exists true, []; split_and!; [done|done|by left]|].
  unfold type_sound, sound_on. rewrite parse_type_cons. cbn [length] in Hf.
  assert (forall cs', (length cs' <= length cs)%nat -> type_sound (parse_type fuel) cs') as Hpt
    by (intros; apply IH; lia).
  destruct (decide (type_of_code c = DICEY_TYPE_ARRAY)) as [Ec|Hna].
  { rewrite Ec. apply type_code_eq in Ec as ->. destruct (array_sound _ cs Hpt) as (b & rest & -> & Hl & HR).
    exists b, rest. split_and!; [done|cbn; lia|]. intros Hb. destruct (HR Hb) as (s & Hs & ->).
    right. exists (SigArray s). split; [done|]. cbn. by rewrite <- app_assoc. }
  destruct (decide (type_of_code c = DICEY_TYPE_PAIR)) as [Ec|Hnp].
  { rewrite Ec. apply type_code_eq in Ec as ->. destruct (pair_sound _ cs Hpt) as (b & rest & -> & Hl & HR).
    exists b, rest. split_and!; [done|cbn; lia|]. intros Hb. destruct (HR Hb) as (s1 & s2 & Hs1 & Hs2 & ->).
    right. exists (SigPair s1 s2). split; [done|]. cbn. by rewrite <- !app_assoc. }
  destruct (decide (type_of_code c = DICEY_TYPE_TUPLE)) as [Ec|Hnt].
  { rewrite Ec. apply type_code_eq in Ec as ->. destruct (tuple_sound _ fuel cs Hpt) as (b & rest & -> & Hl & HR); [lia|].
    exists b, rest. split_and!; [done|cbn; lia|]. intros Hb. destruct (HR Hb) as (s & l & Hs & Hl' & ->).
    right. exists (SigTuple s l). split; [by split; [|apply sig_ok_list]|]. cbn. by rewrite <- !app_assoc. }
  assert (match type_of_code c with
    | DICEY_TYPE_ARRAY => parse_array (parse_type fuel) cs
    | DICEY_TYPE_PAIR => parse_pair (parse_type fuel) cs
    | DICEY_TYPE_TUPLE => parse_tuple (parse_type fuel) fuel cs
    | _ => (Ok (is_valid_type c), cs) end = (Ok (is_valid_type c), cs)) as -> by (by destruct (type_of_code c)).
  exists (is_valid_type c), cs. split_and!; [done|cbn; lia|]. intros Hv. right. exists (SigAtom c).
  split; [|done]. cbn. unfold atom_ok. rewrite Hv. by destruct (type_of_code c).
Qed.

(** ** Properties *)

(** The characters between the two halves of a functional signature. *)
Definition arrow (w1 w2 : list Z) : list Z := w1 ++ [45; 62] ++ w2.

Definition white (w : list Z) : Prop := Forall (fun c => c = 32 \/ 9 <= c <= 13) w.

(** What a string means as a signature, by the grammar. *)
Inductive describes : cstr -> dicey_typedescr -> Prop :=
  | describes_value s : sig_ok s -> describes (print_sig s) (DICEY_TYPEDESCR_VALUE (print_sig s))
  | describes_functional s1 w1 w2 s2 :
      sig_ok s1 -> sig_ok s2 -> white w1 -> white w2 ->
      describes (print_sig s1 ++ arrow w1 w2 ++ print_sig s2)
        (DICEY_TYPEDESCR_FUNCTIONAL
           (vw (print_sig s1) (arrow w1 w2 ++ cstr_mem (print_sig s2)))
           (vw (print_sig s2) [0])).

Definition ascii_str (s : cstr) : Prop := Forall (fun c => 0 < c < 128) s.

Lemma isspace_ascii c : 0 < c < 128 -> isspace (char_to_ushort c) = Ok ((c =? 32) || ((9 <=? c) && (c <=? 13))).
Proof.
  intros Hc. unfold char_to_ushort, to_signed, u16, wrap. change (2 ^ (8 - 1)) with 128. change (2 ^ 16) with 65536.
  destruct (Z.ltb_spec c 128); [|lia]. rewrite Z.mod_small by lia. unfold isspace. change UINT8_MAX with 255.
  destruct (Z.ltb_spec c 0); [lia|]. destruct (Z.ltb_spec 255 c); [lia|]. done.
Qed.

(** Skipping whitespace in an ASCII string: the longest white prefix goes. *)
Lemma skip_whitespace_spec cs :
  ascii_str cs -> exists w rest, cs = w ++ rest /\ white w /\ skip_whitespace cs = (Ok tt, rest) /\
    (forall c k, rest = c :: k -> ~ (c = 32 \/ 9 <= c <= 13)).
Proof.
  unfold skip_whitespace. induction 1 as [|c cs Hc Hcs (w & rest & -> & Hw & E & Hr)].
  { exists [], []. split_and!; [done|constructor|done|done]. }
  cbn [skip_whitespace_loop]. rewrite isspace_ascii by done. cbn [obind].
  destruct ((c =? 32) || ((9 <=? c) && (c <=? 13))) eqn:Es.
  - exists (c :: w), rest. split_and!; [done| |by destruct (skip_whitespace_loop _); simplify_eq|done]. constructor; [|done]. zbool; cbn in Es; (discriminate Es || lia).
  - exists [], (c :: w ++ rest). split_and!; [done|constructor|done|]. intros ? ? [= -> _]. zbool; cbn in Es; (discriminate Es || lia).
Qed.

Lemma skip_whitespace_white w rest :
  white w -> (forall c k, rest = c :: k -> 0 < c < 128 /\ ~ (c = 32 \/ 9 <= c <= 13)) ->
  skip_whitespace (w ++ rest) = (Ok tt, rest).
Proof.
  intros Hw Hr. unfold skip_whitespace. induction Hw as [|c w Hc Hw IH]; cbn [app skip_whitespace_loop].
  - destruct rest as [|c k]; [done|]. destruct (Hr c k eq_refl) as [Hc Hn]. cbn [skip_whitespace_loop].
    rewrite isspace_ascii by done. cbn [obind].
    destruct ((c =? 32) || ((9 <=? c) && (c <=? 13))) eqn:Es; [|done].
    exfalso. apply Hn. zbool; cbn in Es; (discriminate Es || lia).
  - rewrite isspace_ascii by lia. cbn [obind].
    destruct ((c =? 32) || ((9 <=? c) && (c <=? 13))) eqn:Es; [|zbool; cbn in Es; (discriminate Es || lia)].
    by destruct (skip_whitespace_loop _); simplify_eq.
Qed.

Lemma run_type_complete s rest : sig_ok s -> run_type (print_sig s ++ rest) = (Ok true, rest).
Proof. intros Hs. apply parse_complete; [done|]. unfold enough. lia. Qed.

(** The parser on any input: what it accepts, and that it accepts all it should. *)
Lemma run_type_cases cs :
  (exists s rest, sig_ok s /\ cs = print_sig s ++ rest /\ run_type cs = (Ok true, rest)) \/
  (cs = [] /\ run_type cs = (Ok true, [])) \/
  (exists rest, run_type cs = (Ok false, rest) /\ forall s r, sig_ok s -> cs <> print_sig s ++ r).
Proof.
  destruct (parse_sound (enough cs) cs) as (b & rest & E & _ & HQ); [unfold enough; lia|]. unfold run_type. rewrite E.
  destruct b.
  - destruct (HQ eq_refl) as [[-> ->]|(s & Hs & ->)]; [by right; left|]. left. eauto.
  - right. right. exists rest. split; [done|]. intros s r Hs ->. pose proof (run_type_complete s r Hs) as Ht.
    unfold run_type in Ht. by rewrite E in Ht.
Qed.

Lemma arrow_head_ok c : c = 45 -> 0 < c < 128 /\ ~ (c = 32 \/ 9 <= c <= 13).
Proof. lia. Qed.

Lemma sig_head_ok s c k : sig_ok s -> print_sig s = c :: k -> 0 < c < 128 /\ ~ (c = 32 \/ 9 <= c <= 13).
Proof.
  intros Hs E. destruct (print_sig_head s Hs) as (c' & k' & E' & Hv). rewrite E in E'. injection E' as <- <-.
  unfold is_valid_type in Hv. apply orb_true_iff in Hv as [Hv|Hv].
  - rewrite <- (type_code_of_code c). destruct (type_of_code c); (discriminate Hv || (cbn; lia)).
  - apply Z.eqb_eq in Hv as ->. unfold DICEY_VARIANT_ID. lia.
Qed.

Lemma parse_arrow_complete w1 w2 rest :
  white w1 -> white w2 -> (forall c k, rest = c :: k -> 0 < c < 128 /\ ~ (c = 32 \/ 9 <= c <= 13)) ->
  parse_arrow (arrow w1 w2 ++ rest) = (Ok true, rest).
Proof.
  intros Hw1 Hw2 Hr. unfold parse_arrow, arrow. rewrite <- !app_assoc.
  rewrite (sbind_Ok _ _ _ tt ([45; 62] ++ w2 ++ rest)) by (apply skip_whitespace_white; [done|]; intros ? ? [= <- _]; lia).
  cbn [app]. rewrite (sbind_Ok _ _ _ true (w2 ++ rest)) by done. cbn [negb].
  by rewrite (sbind_Ok _ _ _ _ _ (skip_whitespace_white w2 rest Hw2 Hr)).
Qed.

Lemma match_arrow_cases cs :
  (exists rest, cs = [45; 62] ++ rest /\ match_exact [45; 62] cs = (Ok true, rest)) \/
  (exists rest, match_exact [45; 62] cs = (Ok false, rest)).
Proof.
  destruct cs as [|a cs]; [by right; eauto|]. cbn [match_exact]. destruct (Z.eqb_spec a 45) as [->|]; [|by right; eauto].
  destruct cs as [|b cs]; [by right; eauto|]. destruct (Z.eqb_spec b 62) as [->|]; [left|right]; eauto.
Qed.

Lemma parse_arrow_sound cs :
  ascii_str cs ->
  (exists w1 w2 rest, cs = arrow w1 w2 ++ rest /\ white w1 /\ white w2 /\ parse_arrow cs = (Ok true, rest)) \/
  (exists rest, parse_arrow cs = (Ok false, rest)).
Proof.
  intros Ha. destruct (skip_whitespace_spec cs Ha) as (w1 & r1 & -> & Hw1 & E1 & _). apply Forall_app in Ha as [_ Ha1].
  unfold parse_arrow. rewrite !(sbind_Ok _ _ _ _ _ E1).
  destruct (match_arrow_cases r1) as [(r2 & -> & E2)|(r2 & E2)]; rewrite !(sbind_Ok _ _ _ _ _ E2); cbn [negb]; [|by right; eauto].
  apply Forall_app in Ha1 as [_ Ha2]. destruct (skip_whitespace_spec r2 Ha2) as (w2 & r3 & -> & Hw2 & E3 & _).
  left. exists w1, w2, r3. rewrite (sbind_Ok _ _ _ _ _ E3). unfold arrow. rewrite <- !app_assoc. auto.
Qed.

Lemma arrow_cons w1 w2 rest : exists c k, arrow w1 w2 ++ rest = c :: k.
Proof. destruct w1; cbn; eauto. Qed.

Lemma parse_describes str d : describes str d -> dicey_typedescr_parse str = Ok (Some d).
Proof.
  destruct 1 as [s Hs|s1 w1 w2 s2 Hs1 Hs2 Hw1 Hw2]; unfold dicey_typedescr_parse.
  - pose proof (run_type_complete s [] Hs) as E. rewrite app_nil_r in E. by rewrite E.
  - rewrite run_type_complete by done. cbn [obind negb].
    destruct (arrow_cons w1 w2 (print_sig s2)) as (c & k & Ec). rewrite Ec.
    cbv iota. rewrite <- Ec. rewrite parse_arrow_complete by (done || (intros c0 k0 E0; exact (sig_head_ok s2 c0 k0 Hs2 E0))).
    cbn [obind negb]. destruct (print_sig_head s2 Hs2) as (c2 & k2 & E2 & _). rewrite E2. cbv iota. rewrite <- E2.
    pose proof (run_type_complete s2 [] Hs2) as E. rewrite app_nil_r in E. rewrite E. cbn [obind].
    unfold dicey_view_from, vw, cstr_mem. rewrite !zlen_app, <- !app_assoc. do 4 f_equal. f_equal. lia.
Qed.

(** *** The grammar as it is documented *)

(** The characters in the grammar of typedescr.h, which has no entry for UUIDs. *)
Definition documented_atom (c : Z) : bool :=
  existsb (Z.eqb c) [36; 98; 99; 102; 110; 105; 120; 113; 117; 116; 121; 115; 64; 37; 101; 118].

Fixpoint documented (s : sig) : Prop :=
  match s with
  | SigAtom c => documented_atom c = true
  | SigArray s => documented s
  | SigPair s1 s2 => documented s1 /\ documented s2
  | SigTuple s l => documented s /\ foldr (fun x P => documented x /\ P) True l
  end.

(** The strings the documented grammar derives, with their descriptions. *)
Inductive derives : cstr -> dicey_typedescr -> Prop :=
  | derives_value s : documented s -> derives (print_sig s) (DICEY_TYPEDESCR_VALUE (print_sig s))
  | derives_operation s1 w1 w2 s2 :
      documented s1 -> documented s2 -> white w1 -> white w2 ->
      derives (print_sig s1 ++ arrow w1 w2 ++ print_sig s2)
        (DICEY_TYPEDESCR_FUNCTIONAL
           (vw (print_sig s1) (arrow w1 w2 ++ cstr_mem (print_sig s2)))
           (vw (print_sig s2) [0])).

(** "#" *)
Definition UUID_CHAR : Z := 35.

Lemma atom_documented c : atom_ok c = documented_atom c || (c =? UUID_CHAR).
Proof.
  destruct (Z.eqb_spec DICEY_VARIANT_ID c) as [<-|Hv]; [reflexivity|].
  unfold atom_ok, is_valid_type, type_of_code. rewrite (proj2 (Z.eqb_neq c DICEY_VARIANT_ID)) by congruence.
  unfold enum_types. cbn [List.find].
  repeat match goal with
  | |- context [if ?k =? c then _ else _] => destruct (Z.eqb_spec k c) as [<-|?]; [reflexivity|]
  end.
  unfold documented_atom, UUID_CHAR, DICEY_VARIANT_ID in *. cbn [existsb].
  repeat match goal with |- context [c =? ?k] => rewrite (proj2 (Z.eqb_neq c k)) by (cbn in *; congruence) end.
  reflexivity.
Qed.

Lemma sig_documented s : ~ In UUID_CHAR (print_sig s) -> (sig_ok s <-> documented s).
Proof.
  revert s. apply (sig_ind' (fun s => ~ In UUID_CHAR (print_sig s) -> (sig_ok s <-> documented s))); cbn [print_sig sig_ok documented].
  - intros c Hc. rewrite atom_documented. destruct (Z.eqb_spec c UUID_CHAR) as [->|_]; [by destruct Hc; left|]. by rewrite orb_false_r.
  - intros s IH Hn. apply IH. intros H. apply Hn. right. apply in_or_app. by left.
  - intros s1 s2 IH1 IH2 Hn. rewrite IH1, IH2; [done|intros H; apply Hn; right; apply in_or_app..]; [right; apply in_or_app; by left|by left].
  - intros s l IH IHl Hn. rewrite IH by (intros H; apply Hn; right; apply in_or_app; by left). apply and_iff_compat_l.
    assert (forall x, In x l -> ~ In UUID_CHAR (print_sig x)) as Hl.
    { intros x Hx H. apply Hn. right. apply in_or_app. right. apply in_or_app. left. apply in_concat. exists (print_sig x). split; [by apply in_map|done]. }
    clear Hn. induction IHl as [|x l Hx _ IH2]; cbn; [done|]. rewrite Hx by (apply Hl; by left). apply and_iff_compat_l, IH2.
    intros y Hy. apply Hl. by right.
Qed.

Lemma describes_derives str d : ~ In UUID_CHAR str -> (describes str d <-> derives str d).
Proof.
  intros Hn. split; destruct 1 as [s Hs|s1 w1 w2 s2 Hs1 Hs2 Hw1 Hw2]; constructor; try done;
    (apply sig_documented; [|done]); intros H; apply Hn; try done; rewrite !in_app_iff; auto.
Qed.

Lemma parse_grammar str :
  ascii_str str ->
  (exists r, dicey_typedescr_parse str = Ok r) /\
  forall d, dicey_typedescr_parse str = Ok (Some d) <->
            describes str d \/ (str = [] /\ d = DICEY_TYPEDESCR_VALUE []).
Proof.
  intros Ha. assert ((exists d, dicey_typedescr_parse str = Ok (Some d) /\ (describes str d \/ (str = [] /\ d = DICEY_TYPEDESCR_VALUE []))) \/
    dicey_typedescr_parse str = Ok None) as Hc.
  { unfold dicey_typedescr_parse.
    destruct (run_type_cases str) as [(s & rest & Hs & -> & E)|[[-> E]|(rest & E & _)]]; rewrite E; cbn [obind negb];
      [|by left; eauto|by right].
    destruct rest as [|c k].
    { left. eexists. split; [done|]. left. rewrite app_nil_r. by constructor. }
    apply Forall_app in Ha as [_ Ha].
    destruct (parse_arrow_sound (c :: k) Ha) as [(w1 & w2 & r2 & Er & Hw1 & Hw2 & E2)|(r2 & E2)]; rewrite E2; cbn [obind negb]; [|by right].
    destruct r2 as [|c2 k2]; [by right|].
    destruct (run_type_cases (c2 :: k2)) as [(s2 & r3 & Hs2 & Es2 & E3)|[[? _]|(r3 & E3 & _)]]; [|done|];
      rewrite E3; cbn [obind]; [|by right; destruct r3].
    destruct r3 as [|]; [|by right]. rewrite app_nil_r in Es2. left. eexists. split; [done|]. left.
    rewrite Er, Es2. pose proof (describes_functional s w1 w2 s2 Hs Hs2 Hw1 Hw2) as Hd.
    assert (dicey_view_from (Some (cstr_mem (print_sig s ++ arrow w1 w2 ++ print_sig s2)))
      (zlen (print_sig s ++ arrow w1 w2 ++ print_sig s2) - zlen (arrow w1 w2 ++ print_sig s2)) =
      vw (print_sig s) (arrow w1 w2 ++ cstr_mem (print_sig s2))) as ->; [|exact Hd].
    unfold dicey_view_from, vw, cstr_mem. rewrite !zlen_app, <- !app_assoc. f_equal. lia. }
  split; [destruct Hc as [(d & -> & _)| ->]; eauto|].
  intros d. split.
  - intros E. destruct Hc as [(d' & E' & Hd)|E']; rewrite E in E'; simplify_eq; done.
  - intros [Hd|[-> ->]]; [by apply parse_describes|done].
Qed.

(** C36: the signature parser accepts exactly the grammar that typedescr.h documents, with two
    additions that the documentation does not have: the empty string, which is accepted as a value,
    and "#", the type of UUIDs, wherever a type of one character may stand. On every ASCII string it
    gives an answer. It accepts a string without "#" precisely when the documented grammar derives it,
    as a value or as two values around an arrow, and the description then has the views of the two
    halves ([derives]); with "#" as one more character of the grammar ([describes]) the same holds of
    every ASCII string. *)
Theorem dicey_typedescr_parse_correct str :
  ascii_str str ->
  (exists r, dicey_typedescr_parse str = Ok r) /\
  (~ In UUID_CHAR str -> forall d, dicey_typedescr_parse str = Ok (Some d) <->
     derives str d \/ (str = [] /\ d = DICEY_TYPEDESCR_VALUE [])) /\
  (forall c, atom_ok c = documented_atom c || (c =? UUID_CHAR)) /\
  (forall d, dicey_typedescr_parse str = Ok (Some d) <->
     describes str d \/ (str = [] /\ d = DICEY_TYPEDESCR_VALUE [])).
Proof.
  intros Ha. destruct (parse_grammar str Ha) as [H1 H2]. split_and!; [done| |apply atom_documented|done].
  intros Hn d. by rewrite H2, describes_derives.
Qed.

(** "[{sv}] -> y" *)
Lemma dicey_typedescr_parse_correct_witness :
  (exists r, dicey_typedescr_parse [91; 123; 115; 118; 125; 93; 32; 45; 62; 32; 121] = Ok r) /\
  exists d, derives [91; 123; 115; 118; 125; 93; 32; 45; 62; 32; 121] d.
Proof.
  destruct (dicey_typedescr_parse_correct [91; 123; 115; 118; 125; 93; 32; 45; 62; 32; 121]) as (H1 & H2 & _); [repeat constructor; lia|].
  split; [exact H1|]. eexists. refine (or_ind (fun x => x) _ (proj1 (H2 _ _) _)).
  - intros [E _]. discriminate E.
  - cbn. intros H. repeat destruct H as [H|H]; try discriminate H. exact H.
  - vm_compute. reflexivity.
Defined.

(** A signature with a character outside ASCII after a complete value makes the parser call
    [isspace] on a value that is neither an unsigned char nor [EOF], because the character is
    widened through [unsigned short]. *)
Theorem non_ascii_signature_faults s c rest :
  sig_ok s -> 128 <= c < 256 -> dicey_typedescr_parse (print_sig s ++ c :: rest) = Fault OutOfBounds.
Proof.
  intros Hs Hc. unfold dicey_typedescr_parse. rewrite run_type_complete by done. cbn [obind negb].
  unfold parse_arrow, sbind at 1, skip_whitespace. cbn [skip_whitespace_loop].
  assert (isspace (char_to_ushort c) = Fault OutOfBounds) as ->; [|done].
  unfold char_to_ushort, to_signed, u16, wrap. change (2 ^ (8 - 1)) with 128. change (2 ^ 16) with 65536.
  change (2 ^ 8) with 256. destruct (Z.ltb_spec c 128); [lia|].
  rewrite <- (Z.mod_add (c - 256) 1) by lia. rewrite Z.mod_small by lia. unfold isspace. change UINT8_MAX with 255.
  destruct (Z.ltb_spec (c - 256 + 1 * 65536) 0); [lia|].
  destruct (Z.ltb_spec 255 (c - 256 + 1 * 65536)); [done|lia].
Qed.

Lemma non_ascii_signature_faults_witness : dicey_typedescr_parse [105; 200] = Fault OutOfBounds.
Proof. exact (non_ascii_signature_faults (SigAtom 105) 200 [] eq_refl ltac:(lia)). Defined.
