(* ===== verification/ValueValidate.v ===== *)
(** * Checking values against signatures (src/wirefmt/value-validate.c)

    [checksig] walks a signature and a parsed value together. [conforms] is the relation that the
    documentation asks for, between the argument that the value denotes and the syntax tree of the
    signature; [verdict] says what the checker makes of the two, and where it differs. *)

From S2P Require Import Prelude Errors Types Views Writer ValueWrite ValueProbe Value Codec Typedescr.

(** ** The checker *)

Definition is_compatible (value : dicey_type) (type : Z) : res bool :=
  let! _ := oassert (dicey_type_is_valid value) in
  Ok ((type =? DICEY_VARIANT_ID) || bool_decide (value = type_of_code type)).

(** On failure to read, the local stays zero. *)
Definition take_elem : vst Z := fun sig =>
  let '(r, sig') := dicey_view_read_ptr local_ptr 1 sig in
  match r with
  | Ok bs => (Ok (le_val bs), sig')
  | Err _ => (Ok (type_code DICEY_TYPE_INVALID), sig')
  | Fault f => (Fault f, sig')
  | OutOfFuel => (OutOfFuel, sig')
  end.

Definition skip_char : vst Z := fun sig =>
  let '(r, sig') := dicey_view_read_ptr local_ptr 1 sig in
  match r with
  | Ok bs => (Ok (le_val bs), sig')
  | Err _ => (Fault AssertFailed, sig')
  | Fault f => (Fault f, sig')
  | OutOfFuel => (OutOfFuel, sig')
  end.

(** [DICEY_ASSUME]: an error fails the assertion. *)
Definition assume {A} (r : res A) : res A :=
  match r with Err _ => Fault AssertFailed | r => r end.

(** The closing bracket of a container. *)
Definition expect (c : Z) : vst bool :=
  do! cpar <- skip_char;
  sassert (cpar =? c) ;;!
  sret true.

Section check_list.
Variable checksig : dicey_value -> vst bool.

(** The loop over the elements of a tuple. *)
Fixpoint checksig_items (fuel : nat) (iter : dicey_iterator) : vst bool :=
  match fuel with
  | O => slift OutOfFuel
  | S fuel' =>
      if negb (dicey_iterator_has_next iter) then expect TUPLE_END else
      let '(next, iter') := dicey_iterator_next iter in
      do! elem <- slift (assume next);
      do! ok <- checksig elem;
      if negb ok then sret false else checksig_items fuel' iter'
  end.

End check_list.

Fixpoint checksig (fuel : nat) (value : dicey_value) : vst bool :=
  match fuel with
  | O => slift OutOfFuel
  | S fuel' =>
      do! sig <- sget;
      sassert (dicey_view_is_valid sig) ;;!
      do! elem_ty <- take_elem;
      do! compatible <- slift (is_compatible (dicey_value_get_type (Some value)) elem_ty);
      if negb compatible then sret false else
      match type_of_code elem_ty with
      | DICEY_TYPE_ARRAY =>
          do! list <- slift (assume (dicey_value_get_array value));
          do! sig_copy <- sget;
          do! array_ty <- slift (take_elem sig_copy).1;
          sassert (negb (array_ty =? type_code DICEY_TYPE_INVALID)) ;;!
          do! inner <- slift (is_compatible (type_of_code (dicey_list_type list)) array_ty);
          if negb inner then sret false else
          do! valid <- dicey_typedescr_in_view;
          sassert valid ;;!
          expect ARRAY_END
      | DICEY_TYPE_TUPLE =>
          do! list <- slift (assume (dicey_value_get_tuple value));
          checksig_items (checksig fuel') fuel' (dicey_list_iter list)
      | DICEY_TYPE_PAIR =>
          do! both <- slift (assume (dicey_value_get_pair value));
          do! ok <- checksig fuel' (first both);
          if negb ok then sret false else
          do! ok <- checksig fuel' (second both);
          if negb ok then sret false else
          expect PAIR_END
      | _ => sret true
      end
  end.

Definition dicey_value_can_be_returned_from (fuel : nat) (value : dicey_value) (sigstr : cstr) : res bool :=
  if bool_decide (dicey_value_get_type (Some value) = DICEY_TYPE_ERROR) then Ok true else
  let! descr := dicey_typedescr_parse sigstr in
  match descr with
  | None => Ok false
  | Some DICEY_TYPEDESCR_INVALID => Fault AssertFailed
  | Some (DICEY_TYPEDESCR_VALUE value') =>
      let! sig := dicey_view_from_str (Some value') in (checksig fuel value sig).1
  | Some (DICEY_TYPEDESCR_FUNCTIONAL _ output) => (checksig fuel value output).1
  end.

Definition dicey_value_is_compatible_with (fuel : nat) (value : dicey_value) (sigstr : cstr) : res bool :=
  let! descr := dicey_typedescr_parse sigstr in
  match descr with
  | None => Ok false
  | Some DICEY_TYPEDESCR_INVALID => Fault AssertFailed
  | Some (DICEY_TYPEDESCR_VALUE value') =>
      let! sig := dicey_view_from_str (Some value') in (checksig fuel value sig).1
  | Some (DICEY_TYPEDESCR_FUNCTIONAL input _) => (checksig fuel value input).1
  end.

(** ** What the checker decides *)

(** The character a signature starts with. *)
Definition sig_head (s : sig) : Z :=
  match s with
  | SigAtom c => c
  | SigArray _ => type_code DICEY_TYPE_ARRAY
  | SigPair _ _ => type_code DICEY_TYPE_PAIR
  | SigTuple _ _ => type_code DICEY_TYPE_TUPLE
  end.

Definition head_matches (c : Z) (t : dicey_type) : bool :=
  (c =? DICEY_VARIANT_ID) || bool_decide (t = type_of_code c).

(** What the checker answers. The elements of a tuple against the checks of its signature: missing
    elements fail an assertion, extra ones are refused. *)
Fixpoint verdict_items (checks : list (dicey_arg -> res bool)) (xs : list dicey_arg) : res bool :=
  match checks, xs with
  | [], [] => Ok true
  | _ :: _, [] => Fault AssertFailed
  | [], _ :: _ => Ok false
  | c :: checks', x :: xs' => let! ok := c x in if ok then verdict_items checks' xs' else Ok false
  end.

(** An array is only checked for the type of its elements, not for what is inside them. *)
Fixpoint verdict (s : sig) (a : dicey_arg) : res bool :=
  match s, a with
  | SigAtom c, _ => Ok (head_matches c (arg_type a))
  | SigArray s', ArgArray t _ => Ok (head_matches (sig_head s') t)
  | SigPair s1 s2, ArgPair x y => let! ok := verdict s1 x in if ok then verdict s2 y else Ok false
  | SigTuple s' l, ArgTuple xs => verdict_items (verdict s' :: map verdict l) xs
  | _, _ => Ok false
  end.

(** ** Compatibility

    When a value is compatible with a signature, following the signature format of typedescr.h: the
    variant stands for any type, an array has elements of its type, a pair two parts and a tuple as
    many elements as its signature has values, each compatible with its part of the signature. *)

Fixpoint all_conform (checks : list (dicey_arg -> bool)) (xs : list dicey_arg) : bool :=
  match checks, xs with
  | [], [] => true
  | c :: checks', x :: xs' => c x && all_conform checks' xs'
  | _, _ => false
  end.

Fixpoint conforms (s : sig) (a : dicey_arg) : bool :=
  match s, a with
  | SigAtom c, _ => head_matches c (arg_type a)
  | SigArray s', ArgArray t l => head_matches (sig_head s') t && forallb (conforms s') l
  | SigPair s1 s2, ArgPair x y => conforms s1 x && conforms s2 y
  | SigTuple s' l, ArgTuple xs => all_conform (conforms s' :: map conforms l) xs
  | _, _ => false
  end.

(** No tuple of the value is shorter than its signature. *)
Fixpoint full_items (full : list (dicey_arg -> bool)) (xs : list dicey_arg) : bool :=
  match full, xs with
  | [], _ => true
  | _ :: _, [] => false
  | c :: full', x :: xs' => c x && full_items full' xs'
  end.

Fixpoint full (s : sig) (a : dicey_arg) : bool :=
  match s, a with
  | SigPair s1 s2, ArgPair x y => full s1 x && full s2 y
  | SigTuple s' l, ArgTuple xs => full_items (full s' :: map full l) xs
  | _, _ => true
  end.

(** The signature has no array of containers. *)
Fixpoint flat (s : sig) : bool :=
  match s with
  | SigAtom _ => true
  | SigArray s' => match s' with SigAtom _ => true | _ => false end
  | SigPair s1 s2 => flat s1 && flat s2
  | SigTuple s' l => flat s' && forallb flat l
  end.

(** The answer [r] to whether [a] is compatible with [s]: it is yes or no, or, if a tuple is too
    short, a failed assertion; it is yes for every compatible value; and it is exactly whether the
    value is compatible, if no tuple is too short and the signature has no array of containers. *)
Definition settled (r : res bool) (s : sig) (a : dicey_arg) : Prop :=
  (r = Ok true \/ r = Ok false \/ (r = Fault AssertFailed /\ full s a = false)) /\
  (conforms s a = true -> r = Ok true) /\
  (flat s = true -> full s a = true -> r = Ok (conforms s a)).

(** ** Lemmas *)


Lemma denotes_type v a : denotes v a -> val_type v = arg_type a /\ dicey_type_is_valid (val_type v) = true.
Proof. by destruct 1. Qed.

Lemma read_one c k tl : dicey_view_read_ptr local_ptr 1 (vw (c :: k) tl) = (Ok [c], vw k tl).
Proof. apply (vw_read [c] k tl 0). done. Qed.

Lemma le_val_one c : le_val [c] = c.
Proof. cbn. lia. Qed.

Lemma take_elem_cons c k tl : take_elem (vw (c :: k) tl) = (Ok c, vw k tl).
Proof. unfold take_elem. by rewrite read_one, le_val_one. Qed.

Lemma expect_cons c x k tl :
  expect c (vw (x :: k) tl) = if x =? c then (Ok true, vw k tl) else (Fault AssertFailed, vw k tl).
Proof.
  unfold expect, skip_char, sbind. rewrite read_one, le_val_one. unfold sassert. by destruct (x =? c).
Qed.

(** The container cases of [checksig], after the type has been matched. *)
Definition check_container (fuel : nat) (value : dicey_value) (t : dicey_type) : vst bool :=
  match t with
  | DICEY_TYPE_ARRAY =>
      do! list <- slift (assume (dicey_value_get_array value));
      do! sig_copy <- sget;
      do! array_ty <- slift (take_elem sig_copy).1;
      sassert (negb (array_ty =? type_code DICEY_TYPE_INVALID)) ;;!
      do! inner <- slift (is_compatible (type_of_code (dicey_list_type list)) array_ty);
      if negb inner then sret false else
      do! valid <- dicey_typedescr_in_view;
      sassert valid ;;!
      expect ARRAY_END
  | DICEY_TYPE_TUPLE =>
      do! list <- slift (assume (dicey_value_get_tuple value));
      checksig_items (checksig fuel) fuel (dicey_list_iter list)
  | DICEY_TYPE_PAIR =>
      do! both <- slift (assume (dicey_value_get_pair value));
      do! ok <- checksig fuel (first both);
      if negb ok then sret false else
      do! ok <- checksig fuel (second both);
      if negb ok then sret false else
      expect PAIR_END
  | _ => sret true
  end.

Lemma checksig_cons fuel v c k tl :
  dicey_type_is_valid (val_type v) = true ->
  checksig (S fuel) v (vw (c :: k) tl) =
  if head_matches c (val_type v) then check_container fuel v (type_of_code c) (vw k tl) else (Ok false, vw k tl).
Proof.
  intros Hv. cbn [checksig]. unfold sbind at 1, sget. cbn [dicey_view_is_valid vw v_data]. fold (vw (c :: k) tl).
  unfold sassert at 1. unfold sbind at 1, sret at 1. rewrite (sbind_Ok _ _ _ _ _ (take_elem_cons c k tl)).
  unfold is_compatible at 1. cbn [dicey_value_get_type]. rewrite Hv. cbn [oassert obind].
  fold (head_matches c (val_type v)). unfold sbind at 1, slift at 1.
  destruct (head_matches c (val_type v)); cbn [negb]; [|done]. by destruct (type_of_code c).
Qed.

(** The checker agrees with a decision: on success the signature has been consumed. *)
Definition agrees (m : res bool * dicey_view) (r : res bool) (after : dicey_view) : Prop :=
  match r with Ok true => m = (Ok true, after) | r => m.1 = r end.

Lemma agrees_bind (m k : vst bool) v r r' w w' :
  agrees (m v) r w -> agrees (k w) r' w' ->
  agrees ((do! ok <- m; if negb ok then sret false else k) v) (let! ok := r in if ok then r' else Ok false) w'.
Proof.
  unfold agrees at 1, sbind. destruct (m v) as [x w1]. intros Hm Hk.
  destruct r as [[]|e|f|]; cbn [fst obind] in *; simplify_eq; done.
Qed.

Lemma in_view_sig s rest tl : sig_ok s -> dicey_typedescr_in_view (vw (print_sig s ++ rest) tl) = (Ok true, vw rest tl).
Proof.
  intros Hs. unfold dicey_typedescr_in_view. cbn [vw v_data v_len]. rewrite mem_read_app, run_type_complete by done.
  cbn. unfold dicey_view_from, vw. rewrite zlen_app. rewrite <- app_assoc, zdrop_app_eq by lia.
  do 2 f_equal. lia.
Qed.

Lemma print_sig_cons s : sig_ok s -> exists k, print_sig s = sig_head s :: k /\ is_valid_type (sig_head s) = true.
Proof.
  intros Hs. destruct (print_sig_head s Hs) as (c & k & E & Hc). exists k. destruct s; cbn in *; simplify_eq; auto.
Qed.

Lemma head_matches_end t : dicey_type_is_valid t = true -> head_matches TUPLE_END t = false.
Proof. by destruct t. Qed.

Lemma head_matches_other u t :
  dicey_type_is_valid u = true -> t <> u -> head_matches (type_code u) t = false.
Proof.
  intros Hu Ht. unfold head_matches. rewrite type_of_code_code by done. rewrite bool_decide_eq_false_2 by done.
  destruct (Z.eqb_spec (type_code u) DICEY_VARIANT_ID); [|done]. by destruct (type_code_not_variant u).
Qed.

Definition decides (s : sig) : Prop := forall v a, denotes v a -> exists f0, forall fuel rest tl,
  (f0 <= fuel)%nat -> agrees (checksig fuel v (vw (print_sig s ++ rest) tl)) (verdict s a) (vw rest tl).

(** The elements of a tuple. *)
Lemma decides_items it xs :
  iterates it xs -> forall l, Forall (fun s => sig_ok s /\ decides s) l ->
  exists f0, forall f n rest tl, (f0 <= f)%nat -> (f0 <= n)%nat ->
    agrees (checksig_items (checksig f) n it (vw (concat (map print_sig l) ++ TUPLE_END :: rest) tl))
           (verdict_items (map verdict l) xs) (vw rest tl).
Proof.
  revert it. induction xs as [|x xs IH]; intros it Hi l Hl.
  - inversion Hi as [? Hn|]; subst. exists 1%nat. intros f [|n] rest tl Hf Hn'; [lia|].
    cbn [checksig_items]. rewrite Hn. cbn [negb].
    destruct Hl as [|s l [Hs _] _]; cbn [map concat app verdict_items]; unfold agrees; rewrite ?expect_cons; [done|].
    destruct (print_sig_cons s Hs) as (k & -> & Hv). cbn [app]. rewrite expect_cons.
    destruct (Z.eqb_spec (sig_head s) TUPLE_END) as [E|]; [by destruct (valid_not_end _ Hv)|done].
  - inversion Hi as [|? it' v ? ? Hn E Hd Hi']; subst. destruct (denotes_type v x Hd) as [Ht Hvt].
    destruct Hl as [|s l [Hs Hdec] Hl].
    + exists 1%nat. intros [|f] [|n] rest tl Hf Hn'; try lia. cbn [checksig_items map concat app verdict_items]. rewrite Hn, E. cbn [negb].
      cbn [assume]. unfold agrees, sbind, slift. rewrite checksig_cons, head_matches_end by done. done.
    + destruct (Hdec v x Hd) as [f1 H1]. destruct (IH it' Hi' l Hl) as [f2 H2]. exists (S (f1 `max` f2))%nat.
      intros f [|n] rest tl Hf Hn'; [lia|]. cbn [checksig_items map concat verdict_items]. rewrite Hn, E. cbn [negb assume].
      rewrite <- app_assoc. unfold sbind at 1, slift at 1.
      eapply agrees_bind; [apply H1; lia|apply H2; lia].
Qed.

Lemma decides_sig s : sig_ok s -> decides s.
Proof.
  revert s. apply (sig_ind' (fun s => sig_ok s -> decides s)).
  - intros c Hc v a Hd. destruct (denotes_type v a Hd) as [Ht Hv]. exists 1%nat.
    intros [|f] rest tl Hf; [lia|]. cbn [print_sig app verdict]. rewrite checksig_cons, Ht by done.
    destruct (head_matches c (arg_type a)); [|done]. cbn in Hc. unfold atom_ok in Hc.
    apply andb_true_iff in Hc as [_ Hc]. unfold agrees. by destruct (type_of_code c).
  - intros s IH Hs v a Hd. cbn in Hs. destruct (denotes_type v a Hd) as [Ht Hv]. exists 1%nat.
    intros [|f] rest tl Hf; [lia|]. cbn [print_sig app]. rewrite checksig_cons, Ht by done.
    destruct (decide (arg_type a = DICEY_TYPE_ARRAY)) as [Ea|Hna].
    2:{ rewrite head_matches_other by done. by destruct a. }
    rewrite Ea. change (head_matches _ _) with true. cbv iota.
    inversion Hd as [| | | | | | | | | | | | | | | |t l view Htv Hi| |]; subst; try discriminate Ea.
    change (type_of_code (type_code DICEY_TYPE_ARRAY)) with DICEY_TYPE_ARRAY. cbn [check_container verdict].
    unfold sbind at 1, slift at 1. cbn [assume dicey_value_get_array dicey_value_get_type val_type dicey_value_get_list list_field val_data].
    unfold sbind at 1, sget at 1. rewrite <- app_assoc. destruct (print_sig_cons s Hs) as (k & Ek & Hvs).
    unfold sbind at 1. rewrite Ek at 1. cbn [app]. rewrite take_elem_cons. unfold slift at 1. cbn [fst].
    destruct (Z.eqb_spec (sig_head s) (type_code DICEY_TYPE_INVALID)) as [E0|_]; [by rewrite E0 in Hvs|].
    unfold sassert at 1. cbn [negb]. unfold sbind at 1, sret at 1. unfold is_compatible, dicey_list_type. cbn [list_type].
    rewrite type_of_code_code by done. rewrite Htv. cbn [oassert obind]. unfold sbind at 1, slift at 1.
    fold (head_matches (sig_head s) t). destruct (head_matches (sig_head s) t); cbn [negb]; [|done].
    unfold agrees. rewrite (sbind_Ok _ _ _ _ _ (in_view_sig s ([ARRAY_END] ++ rest) tl Hs)).
    unfold sassert. unfold sbind, sret. cbn [app]. by rewrite expect_cons.
  - intros s1 s2 IH1 IH2 [Hs1 Hs2] v a Hd. destruct (denotes_type v a Hd) as [Ht Hv].
    destruct (decide (arg_type a = DICEY_TYPE_PAIR)) as [Ea|Hna].
    2:{ exists 1%nat. intros [|f] rest tl Hf; [lia|]. cbn [print_sig app]. rewrite checksig_cons, Ht by done.
        rewrite head_matches_other by done. by destruct a. }
    inversion Hd as [| | | | | | | | | | | | | | | | | |x y view Hi]; subst; try discriminate Ea.
    inversion Hi as [|? it1 v1 ? ? Hn1 E1 Hd1 Hi1]; subst. inversion Hi1 as [|? it2 v2 ? ? Hn2 E2 Hd2 Hi2]; subst.
    destruct (IH1 Hs1 v1 x Hd1) as [f1 H1], (IH2 Hs2 v2 y Hd2) as [f2 H2]. exists (S (f1 `max` f2))%nat.
    intros [|f] rest tl Hf; [lia|]. cbn [print_sig app]. rewrite checksig_cons by done.
    change (head_matches _ _) with true. cbv iota.
    change (type_of_code (type_code DICEY_TYPE_PAIR)) with DICEY_TYPE_PAIR. cbn [check_container verdict].
    assert (dicey_value_get_pair (mk_value DICEY_TYPE_PAIR (InfoList DICEY_VARIANT_ID 2 view)) = Ok (mk_pair v1 v2)) as ->.
    { unfold dicey_value_get_pair. cbn [dicey_value_get_type val_type val_data list_field obind list_data].
      unfold dicey_list_iter, sbind, pair_item. cbn [list_type list_data]. rewrite E1. cbn. by rewrite E2. }
    cbn [assume]. unfold sbind at 1, slift at 1. cbn [first second]. rewrite <- !app_assoc.
    eapply agrees_bind; [apply H1; lia|].
    assert (verdict s2 y = let! ok := verdict s2 y in if ok then Ok true else Ok false) as ->
      by (by destruct (verdict s2 y) as [[]| | |]).
    eapply agrees_bind; [apply H2; lia|]. unfold agrees. cbn [app]. by rewrite expect_cons.
  - intros s l IH IHl [Hs Hl] v a Hd. rewrite sig_ok_list in Hl. destruct (denotes_type v a Hd) as [Ht Hv].
    destruct (decide (arg_type a = DICEY_TYPE_TUPLE)) as [Ea|Hna].
    2:{ exists 1%nat. intros [|f] rest tl Hf; [lia|]. cbn [print_sig app]. rewrite checksig_cons, Ht by done.
        rewrite head_matches_other by done. by destruct a. }
    inversion Hd as [| | | | | | | | | | | | | | | | |xs view Hi|]; subst; try discriminate Ea.
    destruct (decides_items _ _ Hi (s :: l)) as [f0 H0].
    { constructor; [by split; [|apply IH]|]. rewrite !Forall_forall in *. auto. }
    exists (S f0). intros [|f] rest tl Hf; [lia|]. cbn [print_sig app]. rewrite checksig_cons by done.
    change (head_matches _ _) with true. cbv iota.
    change (type_of_code (type_code DICEY_TYPE_TUPLE)) with DICEY_TYPE_TUPLE. cbn [check_container verdict].
    unfold sbind at 1, slift at 1. cbn [assume dicey_value_get_tuple dicey_value_get_type val_type dicey_value_get_list list_field val_data].
    specialize (H0 f f rest tl ltac:(lia) ltac:(lia)). cbn [map concat] in H0. rewrite <- !app_assoc in *. exact H0.
Qed.

(** ** Properties *)

Lemma agrees_fst m r w : agrees m r w -> m.1 = r.
Proof. unfold agrees. by destruct r as [[]| | |]; intros ->. Qed.

(** *** Decoded arrays have elements of their type *)

Fixpoint typed (a : dicey_arg) : Prop :=
  match a with
  | ArgArray t l => Forall (fun x => arg_type x = t) l /\ foldr (fun x P => typed x /\ P) True l
  | ArgTuple l => foldr (fun x P => typed x /\ P) True l
  | ArgPair x y => typed x /\ typed y
  | _ => True
  end.

Lemma next_typed it it' v t :
  dicey_type_is_valid t = true -> it_type it = type_code t -> dicey_iterator_next it = (Ok v, it') ->
  val_type v = t /\ it_type it' = type_code t.
Proof.
  intros Ht Hty. unfold dicey_iterator_next. destruct (negb _); [done|]. rewrite Hty.
  destruct (Z.eqb_spec (type_code t) DICEY_VARIANT_ID) as [E|_]; [by destruct (type_code_not_variant t Ht)|].
  unfold sbind. destruct (dtf_value_probe_as _ _) as [[[n d]|e|f|] w]; cbn; try done. intros [= <- <-]. cbn.
  by rewrite type_of_code_code.
Qed.

Lemma denotes_typed v a : denotes v a -> typed a.
Proof.
  revert v a. apply (denotes_mut (fun _ a => typed a)
    (fun it l => foldr (fun x P => typed x /\ P) True l /\
       forall t, dicey_type_is_valid t = true -> it_type it = type_code t -> Forall (fun x => arg_type x = t) l)); try done.
  - intros t l view Ht _ [H1 H2]. split; [by apply H2|done].
  - by intros l view _ [H1 _].
  - intros x y view _ [(Hx & Hy & _) _]. done.
  - intros it it' v x l Hn E Hd Hx _ [H1 H2]. split; [done|]. intros t Ht Hty. destruct (next_typed it it' v t Ht Hty E) as [Hv Hit].
    constructor; [|by apply H2]. destruct (denotes_type v x Hd) as [<- _]. done.
Qed.

(** *** The verdict settles compatibility *)

Definition weighed (r : res bool) (k g f : bool) : Prop :=
  (r = Ok true \/ r = Ok false \/ (r = Fault AssertFailed /\ f = false)) /\ (k = true -> r = Ok true) /\ (g = true -> f = true -> r = Ok k).

Lemma weighed_bind (r1 r2 : res bool) k1 k2 g1 g2 f1 f2 :
  weighed r1 k1 g1 f1 -> weighed r2 k2 g2 f2 ->
  weighed (let! ok := r1 in if ok then r2 else Ok false) (k1 && k2) (g1 && g2) (f1 && f2).
Proof.
  intros (A1 & K1 & G1) (A2 & K2 & G2). split_and!.
  - destruct A1 as [-> | [-> | [-> ->]]]; cbn; auto. destruct A2 as [-> | [-> | [-> ->]]]; auto. right. right. by rewrite andb_false_r.
  - intros [Hk1 Hk2]%andb_true_iff. rewrite (K1 Hk1). cbn. auto.
  - intros [Hg1 Hg2]%andb_true_iff [Hf1 Hf2]%andb_true_iff. rewrite (G1 Hg1 Hf1). cbn. destruct k1; [cbn; auto|done].
Qed.

Lemma weighed_same b g f : weighed (Ok b) b g f.
Proof. split_and!; [destruct b; auto|by intros ->|done]. Qed.

Lemma items_weighed l : forall xs, Forall (fun s => forall a, typed a -> settled (verdict s a) s a) l ->
  foldr (fun x P => typed x /\ P) True xs ->
  weighed (verdict_items (map verdict l) xs) (all_conform (map conforms l) xs) (forallb flat l) (full_items (map full l) xs).
Proof.
  induction l as [|s l IH]; intros [|x xs] Hl Hxs; cbn [map verdict_items all_conform full_items forallb]; try apply weighed_same.
  - repeat split; auto; discriminate.
  - apply Forall_cons_iff in Hl as [Hs Hl]. destruct Hxs as [Hx Hxs]. apply weighed_bind; [by apply Hs|by apply IH].
Qed.

Lemma verdict_settled s : forall a, typed a -> settled (verdict s a) s a.
Proof.
  revert s. apply (sig_ind' (fun s => forall a, typed a -> settled (verdict s a) s a)).
  - intros c a _. apply weighed_same.
  - intros s IH a Ha. unfold settled. cbn [verdict conforms flat full]. destruct a as [| | | | | | | | | | |t l| | | | | | | |]; try apply weighed_same.
    destruct Ha as [Ht _]. split_and!; [destruct (head_matches _ _); auto|by intros [-> _]%andb_true_iff|].
    destruct s as [c| | |]; try done. intros _ _. cbn [sig_head]. f_equal. destruct (head_matches c t) eqn:Hm; [|done]. cbn [andb].
    symmetry. apply forallb_forall. intros x Hx. change (head_matches c (arg_type x) = true). rewrite Forall_forall in Ht. by rewrite (Ht x Hx).
  - intros s1 s2 IH1 IH2 a Ha. unfold settled. cbn [verdict conforms flat full]. destruct a; try apply weighed_same. destruct Ha as [Hx Hy].
    apply weighed_bind; [by apply IH1|by apply IH2].
  - intros s l IH IHl a Ha. unfold settled. cbn [verdict conforms flat full]. destruct a; try apply weighed_same.
    apply (items_weighed (s :: l)); [by constructor|done].
Qed.

Definition returned (s : sig) (a : dicey_arg) : res bool :=
  if bool_decide (arg_type a = DICEY_TYPE_ERROR) then Ok true else verdict s a.

(** As [settled], for a value that is returned: an error is always accepted. *)
Definition settled_return (r : res bool) (s : sig) (a : dicey_arg) : Prop :=
  if bool_decide (arg_type a = DICEY_TYPE_ERROR) then r = Ok true else settled r s a.

Lemma signature_verdict v a s1 s2 w1 w2 :
  denotes v a -> sig_ok s1 -> sig_ok s2 -> white w1 -> white w2 -> zlen (print_sig s1) <= UINT32_MAX ->
  let functional := print_sig s1 ++ arrow w1 w2 ++ print_sig s2 in
  exists f0, forall fuel, (f0 <= fuel)%nat ->
    dicey_value_is_compatible_with fuel v (print_sig s1) = verdict s1 a /\
    dicey_value_can_be_returned_from fuel v (print_sig s1) = returned s1 a /\
    dicey_value_is_compatible_with fuel v functional = verdict s1 a /\
    dicey_value_can_be_returned_from fuel v functional = returned s2 a.
Proof.
  intros Hd Hs1 Hs2 Hw1 Hw2 Hl functional. destruct (denotes_type v a Hd) as [Ht _].
  destruct (decides_sig s1 Hs1 v a Hd) as [f1 H1], (decides_sig s2 Hs2 v a Hd) as [f2 H2].
  exists (f1 `max` f2)%nat. intros fuel Hf. subst functional.
  unfold dicey_value_is_compatible_with, dicey_value_can_be_returned_from, returned. cbn [dicey_value_get_type].
  rewrite !Ht. rewrite !(parse_describes _ _ (describes_value s1 Hs1)).
  rewrite !(parse_describes _ _ (describes_functional s1 w1 w2 s2 Hs1 Hs2 Hw1 Hw2)). cbn [obind].
  rewrite !view_from_str_ok by done. cbn [obind].
  assert ((checksig fuel v (vw (cstr_mem (print_sig s1)) [])).1 = verdict s1 a) as ->.
  { eapply agrees_fst. apply (H1 fuel [0] []). lia. }
  assert (forall tl, (checksig fuel v (vw (print_sig s1) tl)).1 = verdict s1 a) as E1.
  { intros tl. eapply agrees_fst. pose proof (H1 fuel [] tl ltac:(lia)) as H. rewrite app_nil_r in H. exact H. }
  assert (forall tl, (checksig fuel v (vw (print_sig s2) tl)).1 = verdict s2 a) as E2.
  { intros tl. eapply agrees_fst. pose proof (H2 fuel [] tl ltac:(lia)) as H. rewrite app_nil_r in H. exact H. }
  rewrite E1, E2. by destruct (bool_decide _).
Qed.

(** C37: checking a decoded value against a signature: a plain signature, the left half of a
    functional signature when the value is an argument, and its right half when the value is returned,
    where errors are always accepted. The check accepts every compatible value. Its answer is exactly
    whether the value is compatible, unless the signature has an array of containers, whose elements
    are not looked into, or the value has a tuple with fewer elements than its signature; only in the
    last case the check can fail an assertion, and it never ends in any other way. *)
Theorem signature_check_correct v a s1 s2 w1 w2 :
  denotes v a -> sig_ok s1 -> sig_ok s2 -> white w1 -> white w2 -> zlen (print_sig s1) <= UINT32_MAX ->
  let functional := print_sig s1 ++ arrow w1 w2 ++ print_sig s2 in
  exists f0, forall fuel, (f0 <= fuel)%nat ->
    settled (dicey_value_is_compatible_with fuel v (print_sig s1)) s1 a /\
    settled_return (dicey_value_can_be_returned_from fuel v (print_sig s1)) s1 a /\
    settled (dicey_value_is_compatible_with fuel v functional) s1 a /\
    settled_return (dicey_value_can_be_returned_from fuel v functional) s2 a.
Proof.
  intros Hd Hs1 Hs2 Hw1 Hw2 Hl functional. destruct (signature_verdict v a s1 s2 w1 w2 Hd Hs1 Hs2 Hw1 Hw2 Hl) as [f0 H].
  exists f0. intros fuel Hf. subst functional. destruct (H fuel Hf) as (-> & -> & -> & ->). pose proof (denotes_typed v a Hd) as Ht.
  unfold settled_return, returned. split_and!; try (by apply verdict_settled); destruct (bool_decide _); try done; by apply verdict_settled.
Qed.

Lemma signature_check_correct_witness :
  exists f0, dicey_value_is_compatible_with f0 (mk_value DICEY_TYPE_INT32 (InfoI32 5)) [105] = Ok true /\
    dicey_value_is_compatible_with f0 (mk_value DICEY_TYPE_INT32 (InfoI32 5)) [105; 45; 62; 32; 115] = Ok true /\
    dicey_value_can_be_returned_from f0 (mk_value DICEY_TYPE_INT32 (InfoI32 5)) [105; 45; 62; 32; 115] = Ok false.
Proof.
  destruct (signature_check_correct (mk_value DICEY_TYPE_INT32 (InfoI32 5)) (ArgI32 5) (SigAtom 105) (SigAtom 115) [] [32])
    as [f0 H].
  - constructor.
  - reflexivity.
  - reflexivity.
  - constructor.
  - constructor; [left; reflexivity|constructor].
  - vm_compute. discriminate.
  - exists f0. destruct (H f0 (le_n f0)) as ((_ & _ & E1) & _ & (_ & _ & E2) & (_ & _ & E3)).
    split; [exact (E1 eq_refl eq_refl)|]. split; [exact (E2 eq_refl eq_refl)|exact (E3 eq_refl eq_refl)].
Defined.

(** A tuple with fewer elements than its signature fails an assertion of the checker
    instead of being refused. *)
Theorem short_tuple_fails_assertion v xs s l :
  denotes v (ArgTuple xs) -> sig_ok (SigTuple s l) -> zlen (print_sig (SigTuple s l)) <= UINT32_MAX ->
  (length xs < S (length l))%nat ->
  (forall x c, In x xs -> In c (s :: l) -> verdict c x = Ok true) ->
  exists f0, forall fuel, (f0 <= fuel)%nat ->
    dicey_value_is_compatible_with fuel v (print_sig (SigTuple s l)) = Fault AssertFailed.
Proof.
  intros Hd Hs Hl Hn Hall. destruct (decides_sig _ Hs v _ Hd) as [f0 H0]. exists f0. intros fuel Hf.
  unfold dicey_value_is_compatible_with. rewrite (parse_describes _ _ (describes_value _ Hs)). cbn [obind].
  rewrite view_from_str_ok by done. cbn [obind].
  assert (verdict (SigTuple s l) (ArgTuple xs) = Fault AssertFailed) as E.
  { cbn [verdict]. change (verdict s :: map verdict l) with (map verdict (s :: l)).
    assert (length xs < length (s :: l))%nat as Hlen by (cbn; lia). revert Hlen Hall. generalize (s :: l). clear.
    induction xs as [|x xs IH]; intros [|c k] Hlen Hall; cbn in Hlen; try lia; [done|].
    cbn [map verdict_items]. rewrite Hall by (by left). cbn [obind]. apply IH; [lia|].
    intros y d Hy Hd. apply Hall; by right. }
  eapply agrees_fst. rewrite <- E. apply (H0 fuel [0] []). lia.
Qed.

Lemma short_tuple_fails_assertion_witness :
  exists f0, dicey_value_is_compatible_with f0
    (mk_value DICEY_TYPE_TUPLE (InfoList DICEY_VARIANT_ID 1 (vw [105; 1; 0; 0; 0] []))) [40; 105; 105; 41] =
    Fault AssertFailed.
Proof.
  destruct (short_tuple_fails_assertion
    (mk_value DICEY_TYPE_TUPLE (InfoList DICEY_VARIANT_ID 1 (vw [105; 1; 0; 0; 0] []))) [ArgI32 1] (SigAtom 105) [SigAtom 105])
    as [f0 H].
  - apply (den_tuple [ArgI32 1]). eapply it_more; [reflexivity|reflexivity|constructor|constructor; reflexivity].
  - cbn. split_and!; reflexivity.
  - vm_compute. discriminate.
  - cbn. lia.
  - intros x c [<-|[]] [<-|[<-|[]]]; reflexivity.
  - exists f0. exact (H f0 (le_n f0)).
Defined.

(** Only the type of the elements of an array is checked, never their contents: an array of
    tuples passes for any tuple signature. *)
Theorem array_elements_unchecked v l s k :
  denotes v (ArgArray DICEY_TYPE_TUPLE l) -> sig_ok (SigArray (SigTuple s k)) ->
  zlen (print_sig (SigArray (SigTuple s k))) <= UINT32_MAX ->
  exists f0, forall fuel, (f0 <= fuel)%nat ->
    dicey_value_is_compatible_with fuel v (print_sig (SigArray (SigTuple s k))) = Ok true.
Proof.
  intros Hd Hs Hl. destruct (decides_sig _ Hs v _ Hd) as [f0 H0]. exists f0. intros fuel Hf.
  unfold dicey_value_is_compatible_with. rewrite (parse_describes _ _ (describes_value _ Hs)). cbn [obind].
  rewrite view_from_str_ok by done. cbn [obind].
  eapply agrees_fst. apply (H0 fuel [0] []). lia.
Qed.

Lemma array_elements_unchecked_witness :
  exists f0, dicey_value_is_compatible_with f0
    (mk_value DICEY_TYPE_ARRAY (InfoList 40 1 (vw [3; 0; 0; 0; 1; 0; 115; 120; 0] []))) [91; 40; 105; 41; 93] = Ok true.
Proof.
  destruct (array_elements_unchecked
    (mk_value DICEY_TYPE_ARRAY (InfoList 40 1 (vw [3; 0; 0; 0; 1; 0; 115; 120; 0] [])))
    [ArgTuple [ArgStr (Some [120])]] (SigAtom 105) []) as [f0 H].
  - apply (den_array DICEY_TYPE_TUPLE [ArgTuple [ArgStr (Some [120])]]); [reflexivity|].
    eapply it_more; [reflexivity|reflexivity| |constructor; reflexivity].
    apply (den_tuple [ArgStr (Some [120])]).
    eapply it_more; [reflexivity|reflexivity|apply (den_str (Some [120]))|constructor; reflexivity].
  - cbn. split_and!; reflexivity.
  - vm_compute. discriminate.
  - exists f0. exact (H f0 (le_n f0)).
Defined.
