(* ===== verification/Uuid.v ===== *)
(** * UUIDs (src/wirefmt/uuid.c)

    Parsing of the textual form of UUIDs, with the C library's [strtoul] as the source calls it
    (base 16, on two characters), and the reading of the string by pointer, one NUL-terminated
    object, so that walking past its end is visible. *)

From S2P Require Import Prelude Errors Types Views.

(** ** [strtoul] in base 16 *)

Definition hexval (c : Z) : option Z :=
  if (48 <=? c) && (c <=? 57) then Some (c - 48)
  else if (97 <=? c) && (c <=? 102) then Some (c - 87)
  else if (65 <=? c) && (c <=? 70) then Some (c - 55)
  else None.

Definition is_space (c : Z) : bool := (c =? 32) || ((9 <=? c) && (c <=? 13)).

Fixpoint skip_spaces (s : list Z) : list Z :=
  match s with c :: s' => if is_space c then skip_spaces s' else s | [] => [] end.

(** The digits: their value, clamped, and what follows them. *)
Fixpoint hex_digits (acc : Z) (s : list Z) : Z * list Z :=
  match s with
  | c :: s' =>
      match hexval c with
      | Some d => hex_digits (Z.min SIZE_MAX (16 * acc + d)) s'
      | None => (acc, s)
      end
  | [] => (acc, [])
  end.

Definition has_digit (s : list Z) : bool :=
  match s with c :: _ => bool_decide (is_Some (hexval c)) | [] => false end.

(** [strtoul(s, &end, 16)]: the value and the string at [end]. Without any digit nothing is
    consumed. *)
Definition strtoul16 (s : list Z) : Z * list Z :=
  let s1 := skip_spaces s in
  let '(neg, s2) :=
    match s1 with
    | c :: s' => if c =? 45 then (true, s') else if c =? 43 then (false, s') else (false, s1)
    | [] => (false, s1)
    end in
  let s3 :=
    match s2 with
    | z :: x :: s' => if (z =? 48) && ((x =? 120) || (x =? 88)) && has_digit s' then s' else s2
    | _ => s2
    end in
  if has_digit s3 then
    let '(v, rest) := hex_digits 0 s3 in
    ((if neg then u64 (- v) else v), rest)
  else (0, s).

(** ** Parsing *)

(** [str] is the array of three characters with its NUL. *)
Definition hextobyte (str : list Z) : option Z :=
  let '(res, endp) := strtoul16 str in
  let at_end := match endp with c :: _ => c | [] => 0 end in
  if (UINT8_MAX <? res) || ((res =? 0) && negb (at_end =? 0)) then None else Some (u8 res).

(** The loop over the [n] bytes still to fill; [mem] is what can be read at the pointer, up to
    and including the NUL. Returns whether parsing succeeded, with the bytes stored. *)
Fixpoint parse_uuid_loop (n : nat) (mem : list Z) (bytes : list Z) : res (bool * list Z) :=
  match n with
  | O =>
      match mem with
      | [] => Fault OutOfBounds
      | c :: _ => Ok (c =? 0, bytes)
      end
  | S n' =>
      match mem with
      | c0 :: c1 :: mem' =>
          match hextobyte [c0; c1; 0] with
          | None => Ok (false, bytes)
          | Some b =>
              match mem' with
              | [] => Fault OutOfBounds
              | c :: mem'' => parse_uuid_loop n' (if c =? 45 then mem'' else mem') (bytes ++ [b])
              end
          end
      | _ => Fault OutOfBounds
      end
  end.

Definition parse_uuid (uuid : cstr) : res (bool * list Z) :=
  if (zlen uuid =? 32) || (zlen uuid =? 36)
  then parse_uuid_loop (Z.to_nat DICEY_UUID_SIZE) (cstr_mem uuid) []
  else Ok (false, []).

Definition dicey_uuid_from_bytes (bytes : list Z) (len : Z) : res (list Z) :=
  if negb (len =? DICEY_UUID_SIZE) then Err DICEY_EUUID_NOT_VALID
  else mem_read bytes DICEY_UUID_SIZE.

Definition dicey_uuid_from_string (str : cstr) : res (list Z) :=
  let! (ok, bytes) := parse_uuid str in
  if negb ok then Err DICEY_EUUID_NOT_VALID else Ok bytes.

(** ** Textual forms *)

(** A byte in two hexadecimal digits, of either case. *)
Definition hex_byte (b : Z) (txt : list Z) : Prop :=
  exists c0 c1 d0 d1, txt = [c0; c1] /\ hexval c0 = Some d0 /\ hexval c1 = Some d1 /\ b = 16 * d0 + d1.

(** The bytes in order, each optionally followed by a dash (the count says how many). *)
Inductive hex_text : list Z -> list Z -> Prop :=
  | hex_nil : hex_text [] []
  | hex_plain b bs txt rest : hex_byte b txt -> hex_text bs rest -> hex_text (b :: bs) (txt ++ rest)
  | hex_dash b bs txt rest : hex_byte b txt -> hex_text bs rest -> hex_text (b :: bs) (txt ++ 45 :: rest).

(** ** Lemmas *)

Lemma hexval_range c d : hexval c = Some d -> 0 <= d < 16 /\ 48 <= c <= 102 /\ is_space c = false.
Proof.
  unfold hexval, is_space. zbool; cbn; intros; simplify_eq; try lia; (split_and!; [lia..|done]).
Qed.

Lemma hexval_not c d : hexval c = Some d -> c <> 43 /\ c <> 45 /\ c <> 120 /\ c <> 88.
Proof. intros H. split_and!; intros ->; discriminate H. Qed.

(** On a digit, [strtoul] goes straight to the digits, unless they start with a "0x" prefix. *)
Lemma strtoul16_digit c d x s :
  hexval c = Some d -> (c = 48 -> x <> 120 /\ x <> 88) -> strtoul16 (c :: x :: s) = hex_digits 0 (c :: x :: s).
Proof.
  intros Hc Hx. destruct (hexval_range _ _ Hc) as (_ & _ & Hs). destruct (hexval_not _ _ Hc) as (Hn1 & Hn2 & _).
  unfold strtoul16. cbn [skip_spaces]. rewrite Hs.
  destruct (Z.eqb_spec c 45); [done|]. destruct (Z.eqb_spec c 43); [done|].
  assert ((c =? 48) && ((x =? 120) || (x =? 88)) && has_digit s = false) as ->.
  { destruct (Z.eqb_spec c 48) as [E|]; [|done]. destruct (Hx E).
    destruct (Z.eqb_spec x 120); [done|]. by destruct (Z.eqb_spec x 88). }
  cbn [has_digit]. rewrite Hc, bool_decide_eq_true_2 by eauto. by destruct (hex_digits 0 (c :: x :: s)).
Qed.

Lemma hex_digit_acc d acc : 0 <= d < 16 -> 0 <= acc < 16 -> Z.min SIZE_MAX (16 * acc + d) = 16 * acc + d.
Proof. intros. apply Z.min_r. change SIZE_MAX with 18446744073709551615. lia. Qed.

(** A digit followed by something that is not one. *)
Lemma strtoul16_one c d x s :
  hexval c = Some d -> hexval x = None -> (c = 48 -> x <> 120 /\ x <> 88) -> strtoul16 (c :: x :: s) = (d, x :: s).
Proof.
  intros Hc Hx Hp. destruct (hexval_range _ _ Hc) as (Hd & _). rewrite (strtoul16_digit _ _ _ _ Hc Hp).
  cbn [hex_digits]. rewrite Hc, Hx, hex_digit_acc by lia. done.
Qed.

Lemma strtoul16_hex c0 c1 d0 d1 :
  hexval c0 = Some d0 -> hexval c1 = Some d1 -> strtoul16 [c0; c1; 0] = (16 * d0 + d1, [0]).
Proof.
  intros H0 H1. destruct (hexval_range _ _ H0) as (Hd0 & _). destruct (hexval_range _ _ H1) as (Hd1 & _).
  destruct (hexval_not _ _ H1) as (_ & _ & Hx & HX). rewrite (strtoul16_digit _ _ _ _ H0) by done.
  cbn [hex_digits]. rewrite H0, H1. change (hexval 0) with (None : option Z). cbv iota.
  rewrite (hex_digit_acc d0 0), Z.mul_0_r, Z.add_0_l, hex_digit_acc by lia. done.
Qed.

(** The conversion accepts a byte value that is not zero, and zero when nothing is left. *)
Lemma hextobyte_of v x k s :
  strtoul16 s = (v, x :: k) -> 0 <= v < 256 -> v <> 0 \/ x = 0 -> hextobyte s = Some v.
Proof.
  intros E Hv Hx. unfold hextobyte. rewrite E. change UINT8_MAX with 255.
  destruct (Z.ltb_spec 255 v); [lia|]. cbn [orb]. unfold u8, wrap. change (2 ^ 8) with 256. rewrite Z.mod_small by lia.
  destruct Hx as [Hv0| ->]; [|by rewrite andb_false_r]. by destruct (Z.eqb_spec v 0).
Qed.

Lemma hextobyte_hex c0 c1 d0 d1 :
  hexval c0 = Some d0 -> hexval c1 = Some d1 -> hextobyte [c0; c1; 0] = Some (16 * d0 + d1).
Proof.
  intros H0 H1. destruct (hexval_range _ _ H0) as (Hd0 & _). destruct (hexval_range _ _ H1) as (Hd1 & _).
  eapply hextobyte_of; [by apply strtoul16_hex|lia|by right].
Qed.

Lemma parse_hex_text bs txt acc :
  hex_text bs txt -> parse_uuid_loop (length bs) (txt ++ [0]) acc = Ok (true, acc ++ bs).
Proof.
  intros H. revert acc. induction H as [|b bs txt rest Hb Hr IH|b bs txt rest Hb Hr IH]; intros acc.
  - cbn. by rewrite app_nil_r.
  - destruct Hb as (c0 & c1 & d0 & d1 & -> & H0 & H1 & ->). cbn [length parse_uuid_loop app].
    rewrite (hextobyte_hex _ _ _ _ H0 H1).
    assert (exists c k, rest ++ [0] = c :: k /\ c <> 45) as (c & k & E & Hc).
    { destruct Hr as [|? ? ? ? Hb' _|? ? ? ? Hb' _]; [by eexists _, _| |];
        destruct Hb' as (x0 & x1 & y0 & y1 & -> & Hx & _); destruct (hexval_not _ _ Hx) as (_ & ? & _); cbn; eauto. }
    rewrite E. destruct (Z.eqb_spec c 45); [done|]. rewrite <- E, IH. by rewrite <- app_assoc.
  - destruct Hb as (c0 & c1 & d0 & d1 & -> & H0 & H1 & ->). cbn [length parse_uuid_loop app].
    rewrite (hextobyte_hex _ _ _ _ H0 H1). cbn. rewrite IH. by rewrite <- app_assoc.
Qed.

(** ** Properties *)

(** every UUID written in hexadecimal digits of either case, as 32 digits or with four
    dashes between bytes (the canonical form among them), is read back as its 16 bytes. *)
Theorem dicey_uuid_from_string_correct bs txt :
  zlen bs = DICEY_UUID_SIZE -> hex_text bs txt -> zlen txt = 32 \/ zlen txt = 36 ->
  dicey_uuid_from_string txt = Ok bs.
Proof.
  intros Hb Ht Hl. unfold dicey_uuid_from_string, parse_uuid.
  assert ((zlen txt =? 32) || (zlen txt =? 36) = true) as -> by (destruct Hl as [-> | ->]; done).
  assert (Z.to_nat DICEY_UUID_SIZE = length bs) as -> by (unfold zlen, DICEY_UUID_SIZE in *; lia).
  unfold cstr_mem. by rewrite parse_hex_text.
Qed.

Lemma dicey_uuid_from_string_correct_witness :
  dicey_uuid_from_string
    [48;48;49;49;50;50;51;51;45; 52;52;53;53;45; 54;54;55;55;45; 56;56;57;57;45; 65;97;66;98;67;99;68;100;69;101;70;102] =
  Ok [0; 17; 34; 51; 68; 85; 102; 119; 136; 153; 170; 187; 204; 221; 238; 255].
Proof.
  apply dicey_uuid_from_string_correct; [reflexivity| |right; reflexivity].
  do 3 (eapply (hex_plain _ _ [_; _]); [eexists _, _, _, _; split_and!; reflexivity|]).
  eapply (hex_dash _ _ [_; _]); [eexists _, _, _, _; split_and!; reflexivity|].
  do 3 (eapply (hex_plain _ _ [_; _]); [eexists _, _, _, _; split_and!; reflexivity|];
        eapply (hex_dash _ _ [_; _]); [eexists _, _, _, _; split_and!; reflexivity|]).
  do 6 (eapply (hex_plain _ _ [_; _]); [eexists _, _, _, _; split_and!; reflexivity|]).
  constructor.
Defined.


(** Characters that are not hexadecimal digits are accepted after a non-zero digit, because
    the end pointer of [strtoul] is only examined when the value is zero. *)
Theorem uuid_accepts_garbage c d x :
  hexval c = Some d -> d <> 0 -> hexval x = None -> x <> 45 ->
  dicey_uuid_from_string (concat (replicate 16 [c; x])) = Ok (replicate 16 d).
Proof.
  intros Hc Hd Hx Hx45. destruct (hexval_range _ _ Hc) as (Hdr & _). destruct (hexval_not _ _ Hc) as (_ & Hn & _).
  assert (hextobyte [c; x; 0] = Some d) as E.
  { eapply hextobyte_of; [apply (strtoul16_one _ _ _ _ Hc Hx)|lia|by left]. intros ->. by injection Hc as <-. }
  assert (forall n acc, parse_uuid_loop n (concat (replicate n [c; x]) ++ [0]) acc = Ok (true, acc ++ replicate n d)) as H.
  { induction n as [|n IH]; intros acc; [cbn; by rewrite app_nil_r|].
    cbn [replicate concat app parse_uuid_loop]. rewrite E.
    assert (exists y k, concat (replicate n [c; x]) ++ [0] = y :: k /\ y <> 45) as (y & k & Ey & Hy) by (destruct n; cbn; eauto).
    rewrite Ey. destruct (Z.eqb_spec y 45); [done|]. rewrite <- Ey, IH. by rewrite <- app_assoc. }
  unfold dicey_uuid_from_string, parse_uuid. change (zlen (concat (replicate 16 [c; x]))) with 32.
  change (Z.to_nat DICEY_UUID_SIZE) with 16%nat. cbn [Z.eqb Pos.eqb orb]. unfold cstr_mem. by rewrite H.
Qed.

Lemma uuid_accepts_garbage_witness :
  dicey_uuid_from_string (concat (replicate 16 [49; 103])) = Ok (replicate 16 1).
Proof. apply (uuid_accepts_garbage 49 1 103); [reflexivity|discriminate|reflexivity|discriminate]. Defined.

(** A pair whose second half is the NUL. *)
Lemma hextobyte_last c d : hexval c = Some d -> hextobyte [c; 0; 0] = Some d.
Proof.
  intros Hc. destruct (hexval_range _ _ Hc) as (Hdr & _).
  eapply hextobyte_of; [by apply (strtoul16_one _ _ _ _ Hc)|lia|by right].
Qed.

Lemma parse_hex_then bs txt c k n acc :
  hex_text bs txt -> c <> 45 -> parse_uuid_loop (length bs + n) (txt ++ c :: k) acc = parse_uuid_loop n (c :: k) (acc ++ bs).
Proof.
  intros H Hc. revert acc. induction H as [|b bs txt rest Hb Hr IH|b bs txt rest Hb Hr IH]; intros acc.
  - cbn [length Nat.add app]. by rewrite app_nil_r.
  - destruct Hb as (c0 & c1 & d0 & d1 & -> & H0 & H1 & ->). cbn [length Nat.add app].
    cbn [parse_uuid_loop]. rewrite (hextobyte_hex _ _ _ _ H0 H1).
    assert (exists x l, rest ++ c :: k = x :: l /\ x <> 45) as (x & l & E & Hx).
    { destruct Hr as [|? ? ? ? Hb' _|? ? ? ? Hb' _]; [by eexists _, _| |];
        destruct Hb' as (x0 & x1 & y0 & y1 & -> & Hx & _); destruct (hexval_not _ _ Hx) as (_ & ? & _); cbn; eauto. }
    rewrite E. destruct (Z.eqb_spec x 45); [done|]. rewrite <- E, IH. by rewrite <- app_assoc.
  - destruct Hb as (c0 & c1 & d0 & d1 & -> & H0 & H1 & ->). cbn [length Nat.add app]. cbn [parse_uuid_loop].
    rewrite (hextobyte_hex _ _ _ _ H0 H1). cbn [Z.eqb Pos.eqb]. rewrite IH. by rewrite <- app_assoc.
Qed.

(** A string of 32 characters made of fifteen bytes with one dash among them and a last lone
    digit makes the parser read past the terminating NUL. *)
Theorem uuid_dash_reads_past_end bs txt c d :
  hex_text bs txt -> length bs = 15%nat -> zlen txt = 31 -> hexval c = Some d ->
  dicey_uuid_from_string (txt ++ [c]) = Fault OutOfBounds.
Proof.
  intros Ht Hb Hl Hc. destruct (hexval_not _ _ Hc) as (_ & Hn & _).
  unfold dicey_uuid_from_string, parse_uuid. rewrite zlen_app, Hl. cbn.
  change (Z.to_nat DICEY_UUID_SIZE) with (15 + 1)%nat. rewrite <- Hb. unfold cstr_mem. rewrite <- app_assoc. cbn [app].
  rewrite parse_hex_then by done. cbn [parse_uuid_loop]. by rewrite (hextobyte_last _ _ Hc).
Qed.

Lemma uuid_dash_reads_past_end_witness :
  dicey_uuid_from_string ([48; 48; 45] ++ concat (replicate 14 [49; 49]) ++ [50]) = Fault OutOfBounds.
Proof.
  apply (uuid_dash_reads_past_end (0 :: replicate 14 17) ([48; 48; 45] ++ concat (replicate 14 [49; 49])) 50 2);
    [|reflexivity..].
  eapply (hex_dash _ _ [_; _]); [eexists _, _, _, _; split_and!; reflexivity|].
  cbn. do 14 (eapply (hex_plain _ _ [_; _]); [eexists _, _, _, _; split_and!; reflexivity|]). constructor.
Defined.
