(* ===== verification/Hashtable.v ===== *)
(** * Hash tables (src/sup/hashtable.c)

    A chained hash table in one array of cells: the first [buckets_no] cells are the heads of
    the buckets, the others are allocated in order and linked from a bucket by index. Removed
    cells stay in their chain and are reused. The table grows by half when the array is full and
    is rebuilt with the next prime number of buckets when it is 75% full.

    Keys are strings, values are pointers ([None] is NULL). Copying and freeing of keys has no
    effect on their value; allocation failures are modelled by the two oracles. The theorems show
    that the table refines a finite map. *)

From S2P Require Import Prelude Errors Types Views.
From stdpp Require Import gmap list.

#[local] Open Scope Z_scope.


Definition REHASH_THRESHOLD : Z := 75.

Definition primes : list Z :=
  [53; 97; 193; 389; 769; 1543; 3079; 6151; 12289; 24593; 49157; 98317; 196613; 393241; 786433;
   1572869; 3145739; 6291469; 12582917; 25165843; 50331653; 100663319; 201326611; 402653189;
   805306457; 1610612741; -1].

Inductive dicey_hash_set_result : Type :=
  | DICEY_HASH_SET_FAILED
  | DICEY_HASH_SET_ADDED
  | DICEY_HASH_SET_UPDATED.

#[export] Instance dicey_hash_set_result_eq_dec : EqDecision dicey_hash_set_result.
Proof. solve_decision. Defined.

Section hashtable.
Context {A : Type}.

(** [alloc_ok n]: a table of [n] cells can be (re)allocated; [strdup_ok k]: so can a copy of [k]. *)
Variable alloc_ok : nat -> bool.
Variable strdup_ok : cstr -> bool.

Record table_entry : Type := mk_entry { te_key : option cstr; te_value : option A; te_next : nat }.

(** [buckets_no] points into [primes]: it is the list from there on. *)
Record dicey_hashtable : Type := mk_table {
  ht_len : Z; ht_cap : nat; ht_buckets_no : list Z; ht_free_cur : nat; ht_entries : list table_entry;
}.

Definition empty_entry : table_entry := mk_entry None None 0.

(** What a search in a bucket finds: the entry, the first free cell seen, the last cell. *)
Record found : Type := mk_found { f_entry : option nat; f_first_free : option nat; f_bucket_end : nat }.

Fixpoint bucket_find_loop (fuel : nat) (cells : list table_entry) (key : cstr) (first_free : option nat)
    (current_offs : nat) : res found :=
  match fuel with
  | O => OutOfFuel
  | S fuel' =>
      match cells !! current_offs with
      | None => Fault AssertFailed
      | Some entry =>
          match te_key entry with
          | Some k =>
              if decide (k = key) then Ok (mk_found (Some current_offs) first_free current_offs)
              else if decide (te_next entry = 0%nat) then Ok (mk_found None first_free current_offs)
              else bucket_find_loop fuel' cells key first_free (te_next entry)
          | None =>
              let first_free' := match first_free with Some _ => first_free | None => Some current_offs end in
              if decide (te_next entry = 0%nat) then Ok (mk_found None first_free' current_offs)
              else bucket_find_loop fuel' cells key first_free' (te_next entry)
          end
      end
  end.

Definition buckets (ht : dicey_hashtable) : Z := hd 0 (ht_buckets_no ht).

Definition bucket_find_entry (ht : dicey_hashtable) (bucket_offs : nat) (key : cstr) : res found :=
  let! _ := oassert (bool_decide (Z.of_nat bucket_offs < buckets ht)) in
  bucket_find_loop (ht_cap ht) (ht_entries ht) key None bucket_offs.

Definition djb2_step (hash c : Z) : Z := u32 (u32 (u32 (Z.shiftl hash 5) + hash) + c).

Definition djb2 (str : cstr) : Z := fold_left djb2_step str 5381.

Definition hash_get_entry_for_set (ht : dicey_hashtable) (key : cstr) : res found :=
  let! _ := oassert (0 <? buckets ht) in
  let! _ := oassert (buckets ht <=? Z.of_nat (ht_cap ht)) in
  bucket_find_entry ht (Z.to_nat (djb2 key mod buckets ht)) key.

(** NULL for the table or the key finds nothing. *)
Definition hash_get_entry (ht : option dicey_hashtable) (key : option cstr) : res (option nat) :=
  match ht, key with
  | Some ht, Some key => let! f := hash_get_entry_for_set ht key in Ok (f_entry f)
  | _, _ => Ok None
  end.

Definition hash_new (primes_list : list Z) (extra_cap : nat) : option dicey_hashtable :=
  let p := hd 0 primes_list in
  if p <=? 0 then None
  else if negb (alloc_ok (Z.to_nat p + extra_cap)) then None
  else Some (mk_table 0 (Z.to_nat p) primes_list (Z.to_nat p) (replicate (Z.to_nat p) empty_entry)).

Definition hash_new_default : option dicey_hashtable := hash_new primes 0.

(** [maybe_take]: an owned key is moved, another one is copied. *)
Definition maybe_take (str : cstr) (owned : bool) : option cstr :=
  if owned then Some str else if strdup_ok str then Some str else None.

Definition hash_grow (table : dicey_hashtable) : res (option dicey_hashtable) :=
  let! _ := oassert (0 <? buckets table) in
  let old_cap := Z.of_nat (ht_cap table) in
  let! _ := oassert (buckets table <=? old_cap) in
  let new_cap := u32 (old_cap * 3) / 2 in
  if new_cap <=? old_cap then Ok None
  else if negb (alloc_ok (Z.to_nat new_cap)) then Ok None
  else Ok (Some (mk_table (ht_len table) (Z.to_nat new_cap) (ht_buckets_no table) (ht_free_cur table)
         (ht_entries table ++ replicate (Z.to_nat (new_cap - old_cap)) empty_entry))).

Definition set_next (e : table_entry) (next : nat) : table_entry := mk_entry (te_key e) (te_value e) next.

(** The second half of [hash_bucket_append], once there is a free cell. *)
Definition append_at (table : dicey_hashtable) (last_item : nat) (key : cstr) (owned : bool)
    (value : option A) : res (bool * dicey_hashtable) :=
  let! _ := oassert (bool_decide (ht_free_cur table < ht_cap table)%nat) in
  match maybe_take key owned with
  | None => Ok (false, table)
  | Some new_key =>
      let new_entry_offs := ht_free_cur table in
      let cells := <[new_entry_offs := mk_entry (Some new_key) value 0]> (ht_entries table) in
      match cells !! last_item with
      | None => Fault OutOfBounds
      | Some last =>
          Ok (true, mk_table (u32 (ht_len table + 1)) (ht_cap table) (ht_buckets_no table)
                (S new_entry_offs) (<[last_item := set_next last new_entry_offs]> cells))
      end
  end.

(** Returns whether it succeeded, with the table (which may have grown either way). *)
Definition hash_bucket_append (table : dicey_hashtable) (last_item : nat) (key : cstr) (owned : bool)
    (value : option A) : res (bool * dicey_hashtable) :=
  let! _ := oassert (bool_decide (last_item < ht_cap table)%nat) in
  if bool_decide (ht_cap table <= ht_free_cur table)%nat then
    let! grown := hash_grow table in
    match grown with
    | None => Ok (false, table)
    | Some table => append_at table last_item key owned value
    end
  else append_at table last_item key owned value.

Definition load_factor (len buckets_no : Z) : res Z :=
  let! _ := oassert (len <=? u32 (len * 100)) in
  Ok (u32 (len * 100) / buckets_no).

(** The result of a set: what happened, the old value, and the table. *)
Definition set_outcome : Type := dicey_hash_set_result * option A * dicey_hashtable.

Section rehash.
Variable hash_set : dicey_hashtable -> cstr -> bool -> option A -> res set_outcome.

(** The loop that moves the entries; [None] when one could not be added. *)
Fixpoint steal_entries (entries : list table_entry) (new_table : dicey_hashtable) : res (option dicey_hashtable) :=
  match entries with
  | [] => Ok (Some new_table)
  | it :: entries' =>
      match te_key it with
      | None => steal_entries entries' new_table
      | Some k =>
          let! (r, _, new_table') := hash_set new_table k true (te_value it) in
          let! _ := oassert (negb (bool_decide (r = DICEY_HASH_SET_UPDATED))) in
          match r with
          | DICEY_HASH_SET_FAILED => Ok None
          | _ => steal_entries entries' new_table'
          end
      end
  end.

Definition hash_rehash_and_set_new (table : dicey_hashtable) (key : cstr) (owned : bool) (value : option A)
    : res (option dicey_hashtable) :=
  let! _ := oassert (0 <? buckets table) in
  match hash_new (tl (ht_buckets_no table)) 0 with
  | None => Ok None
  | Some new_table =>
      let! stolen := steal_entries (take (ht_cap table) (ht_entries table)) new_table in
      match stolen with
      | None => Ok None
      | Some new_table =>
          let! (r, _, new_table') := hash_set new_table key owned value in
          match r with
          | DICEY_HASH_SET_FAILED => Ok None
          | _ => Ok (Some new_table')
          end
      end
  end.

End rehash.

(** [fuel] bounds the nesting of rehashes. *)
Fixpoint hash_set (fuel : nat) (table : dicey_hashtable) (key : cstr) (owned : bool) (value : option A)
    : res set_outcome :=
  match fuel with
  | O => OutOfFuel
  | S fuel' =>
      let! f := hash_get_entry_for_set table key in
      match f_entry f with
      | Some existing =>
          match ht_entries table !! existing with
          | None => Fault OutOfBounds
          | Some e =>
              Ok (DICEY_HASH_SET_UPDATED, te_value e,
                  mk_table (ht_len table) (ht_cap table) (ht_buckets_no table) (ht_free_cur table)
                    (<[existing := mk_entry (te_key e) value (te_next e)]> (ht_entries table)))
          end
      | None =>
          let new_len := u32 (ht_len table + 1) in
          let! load := load_factor new_len (buckets table) in
          if REHASH_THRESHOLD <=? load then
            let! rehashed := hash_rehash_and_set_new (hash_set fuel') table key owned value in
            match rehashed with
            | Some table' => Ok (DICEY_HASH_SET_ADDED, None, table')
            | None => Ok (DICEY_HASH_SET_FAILED, None, table)
            end
          else
          match f_first_free f with
          | Some free =>
              match ht_entries table !! free, maybe_take key owned with
              | None, _ => Fault OutOfBounds
              | _, None => Ok (DICEY_HASH_SET_FAILED, None, table)
              | Some e, Some new_key =>
                  Ok (DICEY_HASH_SET_ADDED, None,
                      mk_table new_len (ht_cap table) (ht_buckets_no table) (ht_free_cur table)
                        (<[free := mk_entry (Some new_key) value (te_next e)]> (ht_entries table)))
              end
          | None =>
              let! (ok, table') := hash_bucket_append table (f_bucket_end f) key owned value in
              Ok ((if ok then DICEY_HASH_SET_ADDED else DICEY_HASH_SET_FAILED), None, table')
          end
      end
  end.

(** ** The interface *)

Definition dicey_hashtable_set (table_ptr : option dicey_hashtable) (key : cstr) (value : option A)
    : res (dicey_hash_set_result * option A * option dicey_hashtable) :=
  match (match table_ptr with Some t => Some t | None => hash_new_default end) with
  | None => Ok (DICEY_HASH_SET_FAILED, None, None)
  | Some table =>
      let! (r, old, table') := hash_set (length primes) table key false value in
      Ok (r, old, Some table')
  end.

(** The key and value of the entry, [None] where the source returns NULL without an entry. *)
Definition dicey_hashtable_get_entry (table : option dicey_hashtable) (key : option cstr)
    : res (option (cstr * option A)) :=
  let! f := hash_get_entry table key in
  match f, table with
  | Some i, Some t =>
      match ht_entries t !! i with
      | Some (mk_entry (Some k) v _) => Ok (Some (k, v))
      | _ => Fault NullDeref
      end
  | _, _ => Ok None
  end.

Definition dicey_hashtable_get (table : option dicey_hashtable) (key : option cstr) : res (option A) :=
  let! e := dicey_hashtable_get_entry table key in
  Ok (match e with Some (_, v) => v | None => None end).

(** The pointer is converted to [bool]. *)
Definition dicey_hashtable_contains (table : option dicey_hashtable) (key : option cstr) : res bool :=
  let! v := dicey_hashtable_get table key in
  Ok (bool_decide (is_Some v)).

Definition dicey_hashtable_remove (table : option dicey_hashtable) (key : option cstr)
    : res (option A * option dicey_hashtable) :=
  let! f := hash_get_entry table key in
  match f, table with
  | Some i, Some t =>
      let! _ := oassert (negb (ht_len t =? 0)) in
      match ht_entries t !! i with
      | Some e =>
          Ok (te_value e, Some (mk_table (u32 (ht_len t - 1)) (ht_cap t) (ht_buckets_no t) (ht_free_cur t)
                                  (<[i := mk_entry None None (te_next e)]> (ht_entries t))))
      | None => Fault OutOfBounds
      end
  | _, _ => Ok (None, table)
  end.

Definition dicey_hashtable_size (table : option dicey_hashtable) : Z :=
  match table with Some t => ht_len t | None => 0 end.

(** The iterator: the table, and the cell to look at next, [None] at the end. *)
Record dicey_hashtable_iter : Type := mk_hiter { hi_table : option dicey_hashtable; hi_current : option nat }.

Definition dicey_hashtable_iter_start (table : option dicey_hashtable) : dicey_hashtable_iter :=
  mk_hiter table (match table with Some _ => Some O | None => None end).

Fixpoint skip_empty (cells : list table_entry) (off : nat) : option (nat * table_entry) :=
  match cells with
  | [] => None
  | e :: cells' => match te_key e with Some _ => Some (off, e) | None => skip_empty cells' (S off) end
  end.

Definition dicey_hashtable_iter_next (iter : dicey_hashtable_iter)
    : option (cstr * option A) * dicey_hashtable_iter :=
  match hi_table iter, hi_current iter with
  | Some ht, Some cell =>
      match skip_empty (drop cell (take (ht_cap ht) (ht_entries ht))) cell with
      | Some (off, mk_entry (Some k) v _) => (Some (k, v), mk_hiter (Some ht) (Some (S off)))
      | _ => (None, mk_hiter (Some ht) None)
      end
  | ht, _ => (None, mk_hiter ht None)
  end.

(** [dicey_hashtable_delete]: the values given to [free_fn], in order; every cell is visited. *)
Definition dicey_hashtable_delete (table : option dicey_hashtable) : list (option A) :=
  match table with
  | None => []
  | Some t => te_value <$> take (ht_cap t) (ht_entries t)
  end.

(** ** The abstraction: a finite map *)

Definition pair_of (e : table_entry) : list (cstr * option A) :=
  match te_key e with Some k => [(k, te_value e)] | None => [] end.

Definition pairs (cells : list table_entry) : list (cstr * option A) := concat (map pair_of cells).

Definition contents (t : dicey_hashtable) : gmap cstr (option A) := list_to_map (pairs (ht_entries t)).

Lemma pairs_app a b : pairs (a ++ b) = pairs a ++ pairs b.
Proof. unfold pairs. by rewrite map_app, concat_app. Qed.

Lemma pairs_empty n : pairs (replicate n empty_entry) = [].
Proof. by induction n. Qed.

(** Replacing a cell replaces its pair. *)
Lemma pairs_insert cells i e :
  cells !! i = Some e -> exists p q, pairs cells = p ++ pair_of e ++ q /\
    forall e', pairs (<[i := e']> cells) = p ++ pair_of e' ++ q.
Proof.
  intros Hi. exists (pairs (take i cells)), (pairs (drop (S i) cells)). split.
  - rewrite <- (take_drop_middle cells i e Hi) at 1. rewrite pairs_app. done.
  - intros e'. rewrite insert_take_drop by (by eapply lookup_lt_Some). by rewrite pairs_app.
Qed.

Lemma elem_of_pairs cells k v :
  (k, v) ∈ pairs cells <-> exists i e, cells !! i = Some e /\ te_key e = Some k /\ te_value e = v.
Proof.
  unfold pairs. induction cells as [|e cells IH]; cbn [map concat].
  - split; [by intros ?%elem_of_nil|]. intros (i & e & H & _). done.
  - rewrite elem_of_app, IH. unfold pair_of. split.
    + intros [H|(i & e' & H & Hk & Hv)].
      * destruct (te_key e) eqn:Ek; [|by apply elem_of_nil in H]. apply list_elem_of_singleton in H as [= -> ->].
        by exists O, e.
      * by exists (S i), e'.
    + intros ([|i] & e' & H & Hk & Hv); cbn in H; simplify_eq.
      * left. rewrite Hk. by apply list_elem_of_singleton.
      * right. by exists i, e'.
Qed.

Lemma map_mid (p q : list (cstr * option A)) k v :
  NoDup ((p ++ (k, v) :: q).*1) ->
  list_to_map (p ++ (k, v) :: q) =@{gmap cstr (option A)} <[k := v]> (list_to_map (p ++ q)) /\
  (list_to_map (p ++ q) : gmap cstr (option A)) !! k = None /\ NoDup ((p ++ q).*1).
Proof.
  intros Hd. assert (NoDup (((k, v) :: p ++ q).*1)) as Hd'.
  { by rewrite Permutation_middle. }
  rewrite <- (list_to_map_proper ((k, v) :: p ++ q)) by (done || by rewrite Permutation_middle).
  cbn [list_to_map foldr]. rewrite fmap_cons in Hd'. apply NoDup_cons in Hd' as [Hn Hd'].
  split_and!; [done| |done]. by apply not_elem_of_list_to_map_1.
Qed.

(** ** Chains *)

Definition nxt (cells : list table_entry) (i : nat) : option nat := te_next <$> cells !! i.

(** The cells of a bucket, from its head along the links. *)
Inductive chain (cells : list table_entry) : nat -> list nat -> Prop :=
  | chain_end i : nxt cells i = Some O -> chain cells i [i]
  | chain_link i j l : nxt cells i = Some j -> j <> O -> chain cells j l -> chain cells i (i :: l).

Lemma chain_head cells i l : chain cells i l -> i ∈ l.
Proof. destruct 1; by left. Qed.

Lemma chain_ext cells cells' i l :
  chain cells i l -> (forall j, j ∈ l -> nxt cells' j = nxt cells j) -> chain cells' i l.
Proof.
  induction 1 as [i Hn|i j l Hn Hj Hc IH]; intros Hx.
  - constructor. rewrite Hx; [done|by left].
  - apply (chain_link _ _ j); [rewrite Hx; [done|by left]|done|]. apply IH. intros z Hz. apply Hx. by right.
Qed.

Lemma chain_append cells cells' i l z new :
  chain cells i l -> last l = Some z -> NoDup l -> new ∉ l -> new <> O ->
  nxt cells' z = Some new -> nxt cells' new = Some O ->
  (forall j, j ∈ l -> j <> z -> nxt cells' j = nxt cells j) -> chain cells' i (l ++ [new]).
Proof.
  intros Hc. revert z. induction Hc as [i Hn|i j l Hn Hj Hc IH]; intros z Hl Hd Hnew H0 Hz Hend Hx.
  - cbn in Hl. simplify_eq. apply (chain_link _ _ new); [done|done|]. by constructor.
  - apply NoDup_cons in Hd as [Hil Hd]. assert (last l = Some z) as Hlz by (destruct Hc; done).
    assert (z ∈ l) as Hzl by (by apply last_Some_elem_of).
    cbn [app]. apply (chain_link _ _ j); [|done|].
    + rewrite Hx; [done|by left|]. intros ->. done.
    + apply (IH z); try done; [by intros H; apply Hnew; right|]. intros y Hy Hyz. apply Hx; [by right|done].
Qed.

(** Walking a chain finds the key if it is there, and otherwise the last cell and the first free
    cell. *)
Lemma find_chain cells key i l fuel ff :
  chain cells i l -> (length l <= fuel)%nat ->
  exists r, bucket_find_loop fuel cells key ff i = Ok r /\
    match f_entry r with
    | Some j => j ∈ l /\ exists e, cells !! j = Some e /\ te_key e = Some key
    | None =>
        (forall j e, j ∈ l -> cells !! j = Some e -> te_key e <> Some key) /\
        last l = Some (f_bucket_end r) /\
        match f_first_free r with
        | Some j => ff = Some j \/ (j ∈ l /\ exists e, cells !! j = Some e /\ te_key e = None)
        | None => True
        end
    end.
Proof.
  intros Hc. revert fuel ff. induction Hc as [i Hn|i j l Hn Hj Hc IH]; intros [|fuel] ff Hf; cbn in Hf; try lia.
  - cbn [bucket_find_loop]. unfold nxt in Hn. destruct (cells !! i) as [e|] eqn:Ei; [|done]. cbn in Hn. injection Hn as Hn.
    destruct (te_key e) as [k|] eqn:Ek.
    + destruct (decide (k = key)) as [->|Hk].
      * eexists. split; [done|]. cbn. split; [by left|eauto].
      * rewrite decide_True by done. eexists. split; [done|]. cbn. split_and!; [|done|destruct ff; auto].
        intros j e' [->|H]%elem_of_cons; [|by apply elem_of_nil in H]. rewrite Ei. intros [= <-]. congruence.
    + rewrite decide_True by done. eexists. split; [done|]. cbn. split_and!; [|done|].
      * intros j e' [->|H]%elem_of_cons; [|by apply elem_of_nil in H]. rewrite Ei. intros [= <-]. congruence.
      * destruct ff; [by left|]. right. split; [by left|eauto].
  - cbn [bucket_find_loop]. unfold nxt in Hn. destruct (cells !! i) as [e|] eqn:Ei; [|done]. cbn in Hn. injection Hn as Hn.
    assert (last l = last (i :: l)) as Hlast by (destruct Hc; done).
    destruct (te_key e) as [k|] eqn:Ek.
    + destruct (decide (k = key)) as [->|Hk].
      { eexists. split; [done|]. cbn. split; [by left|eauto]. }
      rewrite decide_False by congruence. rewrite Hn. destruct (IH fuel ff ltac:(lia)) as (r & -> & Hr).
      exists r. split; [done|]. destruct (f_entry r); [destruct Hr as [? ?]; split; [by right|done]|].
      destruct Hr as (H1 & H2 & H3). split_and!; [|by rewrite <- Hlast|].
      * intros z e' [->|Hz]%elem_of_cons; [rewrite Ei; intros [= <-]; congruence|by apply H1].
      * destruct (f_first_free r); [|done]. destruct H3 as [?|[? ?]]; [by left|right; split; [by right|done]].
    + rewrite decide_False by congruence. rewrite Hn.
      destruct (IH fuel (match ff with Some _ => ff | None => Some i end) ltac:(lia)) as (r & -> & Hr).
      exists r. split; [done|]. destruct (f_entry r); [destruct Hr as [? ?]; split; [by right|done]|].
      destruct Hr as (H1 & H2 & H3). split_and!; [|by rewrite <- Hlast|].
      * intros z e' [->|Hz]%elem_of_cons; [rewrite Ei; intros [= <-]; congruence|by apply H1].
      * destruct (f_first_free r) as [z|]; [|done]. destruct H3 as [H3|[? ?]]; [|right; split; [by right|done]].
        destruct ff; [by left|]. injection H3 as <-. right. split; [by left|eauto].
Qed.

(** ** The invariant *)

Definition nb (t : dicey_hashtable) : nat := Z.to_nat (buckets t).
Definition bucket_of (t : dicey_hashtable) (k : cstr) : nat := Z.to_nat (djb2 k mod buckets t).

(** [ch b] is the chain of the bucket [b]. The chains are disjoint and lie below [free_cur]; every
    cell with a key is in the chain its hash selects; keys are unique and counted by [len]. *)
Record wf_with (t : dicey_hashtable) (ch : nat -> list nat) : Prop := {
  wf_primes : exists pre, primes = pre ++ ht_buckets_no t;
  wf_pos : 0 < buckets t;
  wf_size : length (ht_entries t) = ht_cap t;
  wf_free : (nb t <= ht_free_cur t <= ht_cap t)%nat;
  wf_grown : (2 * ht_cap t <= 3 * ht_free_cur t)%nat;
  wf_chain : forall b, (b < nb t)%nat -> chain (ht_entries t) b (ch b);
  wf_nodup : forall b, (b < nb t)%nat -> NoDup (ch b);
  wf_disjoint : forall b b' j, (b < nb t)%nat -> (b' < nb t)%nat -> j ∈ ch b -> j ∈ ch b' -> b = b';
  wf_bound : forall b j, (b < nb t)%nat -> j ∈ ch b -> (j < ht_free_cur t)%nat;
  wf_keyed : forall i e k, ht_entries t !! i = Some e -> te_key e = Some k -> i ∈ ch (bucket_of t k);
  wf_keys : NoDup ((pairs (ht_entries t)).*1);
  wf_len : ht_len t = Z.of_nat (length (pairs (ht_entries t)));
}.

Definition wf (t : dicey_hashtable) : Prop := exists ch, wf_with t ch.

Lemma bucket_of_lt t k : 0 < buckets t -> (bucket_of t k < nb t)%nat.
Proof. intros H. unfold bucket_of, nb. pose proof (Z.mod_pos_bound (djb2 k) (buckets t) H). lia. Qed.

Lemma NoDup_bounded (l : list nat) n : NoDup l -> (forall j, j ∈ l -> (j < n)%nat) -> (length l <= n)%nat.
Proof.
  intros Hd Hb. rewrite <- (length_seq n 0). apply submseteq_length, NoDup_submseteq; [done|].
  intros j Hj. apply elem_of_seq. specialize (Hb j Hj). lia.
Qed.

Lemma contents_lookup t k e i :
  NoDup ((pairs (ht_entries t)).*1) -> ht_entries t !! i = Some e -> te_key e = Some k ->
  contents t !! k = Some (te_value e).
Proof.
  intros Hd Hi Hk. unfold contents. apply elem_of_list_to_map_1; [done|]. apply elem_of_pairs. eauto.
Qed.

Lemma contents_none t k :
  (forall i e, ht_entries t !! i = Some e -> te_key e <> Some k) -> contents t !! k = None.
Proof.
  intros H. unfold contents. apply not_elem_of_list_to_map_1. intros ((k', v) & -> & Hin)%list_elem_of_fmap.
  apply elem_of_pairs in Hin as (i & e & Hi & Hk & _). by apply (H i e).
Qed.

(** Searching finds the entry of the key, or else the end of its bucket and a free cell. *)
Lemma find_spec t ch key :
  wf_with t ch ->
  exists r, hash_get_entry_for_set t key = Ok r /\
    match f_entry r with
    | Some j => exists e, ht_entries t !! j = Some e /\ te_key e = Some key /\ j ∈ ch (bucket_of t key) /\
                          contents t !! key = Some (te_value e)
    | None =>
        contents t !! key = None /\ last (ch (bucket_of t key)) = Some (f_bucket_end r) /\
        match f_first_free r with
        | Some j => j ∈ ch (bucket_of t key) /\ exists e, ht_entries t !! j = Some e /\ te_key e = None
        | None => True
        end
    end.
Proof.
  intros W. pose proof (bucket_of_lt t key (wf_pos _ _ W)) as Hb. unfold hash_get_entry_for_set, bucket_find_entry.
  pose proof (wf_pos _ _ W). pose proof (wf_free _ _ W). unfold nb in *.
  assert ((0 <? buckets t) = true) as -> by lia. assert ((buckets t <=? Z.of_nat (ht_cap t)) = true) as -> by lia.
  cbn [oassert obind]. fold (bucket_of t key). rewrite bool_decide_true by lia. cbn [oassert obind].
  destruct (find_chain (ht_entries t) key (bucket_of t key) (ch (bucket_of t key)) (ht_cap t) None) as (r & -> & Hr).
  - by apply (wf_chain _ _ W).
  - apply NoDup_bounded; [by apply (wf_nodup _ _ W)|]. intros j Hj. pose proof (wf_bound _ _ W _ _ Hb Hj). lia.
  - exists r. split; [done|]. destruct (f_entry r) as [j|].
    + destruct Hr as (Hj & e & He & Hk). exists e. split_and!; try done. eapply contents_lookup; eauto using wf_keys.
    + destruct Hr as (H1 & H2 & H3). split_and!; [|done|].
      * apply contents_none. intros i e Hi Hk. apply (H1 i e); [|done|done]. by apply (wf_keyed _ _ W i e).
      * destruct (f_first_free r); [|done]. by destruct H3 as [?|?].
Qed.

(** ** Changing one cell *)

Definition with_cell (t : dicey_hashtable) (i : nat) (e : table_entry) (len : Z) : dicey_hashtable :=
  mk_table len (ht_cap t) (ht_buckets_no t) (ht_free_cur t) (<[i := e]> (ht_entries t)).

Lemma nxt_insert cells i e e' j :
  cells !! i = Some e -> te_next e' = te_next e -> nxt (<[i := e']> cells) j = nxt cells j.
Proof.
  intros Hi Hn. unfold nxt. destruct (decide (j = i)) as [->|Hj].
  - rewrite list_lookup_insert_eq by (by eapply lookup_lt_Some). rewrite Hi. cbn. by rewrite Hn.
  - by rewrite list_lookup_insert_ne.
Qed.

(** A cell keeps the table well formed when its link does not change, its key (if any) belongs to
    the chain it is in and is not used elsewhere, and the length is adjusted. *)
Lemma wf_with_cell t ch i e e' p q len :
  wf_with t ch -> ht_entries t !! i = Some e -> te_next e' = te_next e ->
  (forall k, te_key e' = Some k -> i ∈ ch (bucket_of t k)) ->
  pairs (<[i := e']> (ht_entries t)) = p ++ pair_of e' ++ q -> NoDup ((p ++ pair_of e' ++ q).*1) ->
  len = Z.of_nat (length (p ++ pair_of e' ++ q)) -> wf_with (with_cell t i e' len) ch.
Proof.
  intros W Hi Hn Hk Hp Hd Hl. destruct W. constructor; try done.
  - cbn. by rewrite length_insert.
  - intros b Hb. apply (chain_ext (ht_entries t)); [by apply wf_chain0|]. intros j _. by apply (nxt_insert _ _ e).
  - intros j x k. cbn. intros [(-> & -> & _)|(Hj & Hx)]%list_lookup_insert_Some; [by apply Hk|]. by apply wf_keyed0.
  - cbn [with_cell ht_entries]. by rewrite Hp.
  - cbn [with_cell ht_entries ht_len]. by rewrite Hp.
Qed.

Lemma set_existing t ch i e k v :
  wf_with t ch -> ht_entries t !! i = Some e -> te_key e = Some k ->
  let t' := with_cell t i (mk_entry (te_key e) v (te_next e)) (ht_len t) in
  wf t' /\ contents t' = <[k := v]> (contents t).
Proof.
  intros W Hi Hk t'. destruct (pairs_insert _ _ _ Hi) as (p & q & Hp & Hins).
  pose proof (wf_keys _ _ W) as Hd. pose proof (wf_len _ _ W) as Hl. rewrite Hp in Hd, Hl.
  unfold pair_of in Hd, Hl, Hp. rewrite Hk in Hd, Hl, Hp. cbn [app] in *.
  assert (NoDup ((p ++ (k, v) :: q).*1)) as Hd' by (rewrite fmap_app in *; exact Hd).
  split.
  - exists ch. eapply wf_with_cell; eauto; cbn; rewrite Hk.
    + intros k' [= <-]. by apply (wf_keyed _ _ W i e).
    + done.
    + rewrite Hl, !length_app. done.
  - unfold contents. cbn [t' with_cell ht_entries]. rewrite Hins, Hp. unfold pair_of. cbn. rewrite Hk. cbn [app].
    destruct (map_mid _ _ _ _ Hd) as (-> & _). destruct (map_mid _ _ _ _ Hd') as (-> & _).
    by rewrite insert_insert_eq.
Qed.

Lemma fill_free t ch i e k v :
  wf_with t ch -> ht_entries t !! i = Some e -> te_key e = None -> i ∈ ch (bucket_of t k) -> contents t !! k = None ->
  let t' := with_cell t i (mk_entry (Some k) v (te_next e)) (ht_len t + 1) in
  wf t' /\ contents t' = <[k := v]> (contents t).
Proof.
  intros W Hi Hk Hc Hn t'. destruct (pairs_insert _ _ _ Hi) as (p & q & Hp & Hins).
  pose proof (wf_keys _ _ W) as Hd. pose proof (wf_len _ _ W) as Hl. unfold contents in Hn. rewrite Hp in Hd, Hl, Hn.
  unfold pair_of in Hd, Hl, Hp, Hn. rewrite Hk in Hd, Hl, Hp, Hn. cbn [app] in *.
  apply not_elem_of_list_to_map_2 in Hn.
  assert (NoDup ((p ++ (k, v) :: q).*1)) as Hd' by (rewrite <- Permutation_middle; cbn; by apply NoDup_cons).
  split.
  - exists ch. eapply wf_with_cell; eauto; cbn.
    + by intros k' [= <-].
    + rewrite Hl, !length_app. cbn. lia.
  - unfold contents. cbn [t' with_cell ht_entries]. rewrite Hins, Hp. unfold pair_of. cbn.
    by destruct (map_mid _ _ _ _ Hd') as (-> & _).
Qed.

Lemma clear_cell t ch i e k :
  wf_with t ch -> ht_entries t !! i = Some e -> te_key e = Some k ->
  let t' := with_cell t i (mk_entry None None (te_next e)) (ht_len t - 1) in
  0 < ht_len t /\ wf t' /\ contents t' = delete k (contents t).
Proof.
  intros W Hi Hk t'. destruct (pairs_insert _ _ _ Hi) as (p & q & Hp & Hins).
  pose proof (wf_keys _ _ W) as Hd. pose proof (wf_len _ _ W) as Hl. rewrite Hp in Hd, Hl.
  unfold pair_of in Hd, Hl, Hp. rewrite Hk in Hd, Hl, Hp. cbn [app] in *.
  destruct (map_mid _ _ _ _ Hd) as (E & Hn & Hd'). rewrite length_app in Hl. cbn in Hl.
  split_and!; [lia| |].
  - exists ch. eapply wf_with_cell; eauto; cbn; [done|]. rewrite Hl, length_app. lia.
  - unfold contents. cbn [t' with_cell ht_entries]. rewrite Hins, Hp. unfold pair_of. cbn [te_key app].
    rewrite E, delete_insert_id; [done|exact Hn].
Qed.

(** ** Growing and appending *)

Definition grown (t : dicey_hashtable) (n : nat) : dicey_hashtable :=
  mk_table (ht_len t) (ht_cap t + n) (ht_buckets_no t) (ht_free_cur t) (ht_entries t ++ replicate n empty_entry).

Lemma chain_cell cells i l j : chain cells i l -> j ∈ l -> is_Some (cells !! j).
Proof.
  assert (forall i n, nxt cells i = Some n -> is_Some (cells !! i)) as H.
  { intros x n. unfold nxt. destruct (cells !! x); [eauto|done]. }
  induction 1 as [i Hn|i z l Hn Hz Hc IH]; intros [->|Hj]%elem_of_cons; eauto. by apply elem_of_nil in Hj.
Qed.

Lemma wf_grow t ch n :
  wf_with t ch -> (2 * (ht_cap t + n) <= 3 * ht_free_cur t)%nat ->
  wf_with (grown t n) ch /\ contents (grown t n) = contents t.
Proof.
  intros W Hn. assert (pairs (ht_entries t ++ replicate n empty_entry) = pairs (ht_entries t)) as Hp.
  { by rewrite pairs_app, pairs_empty, app_nil_r. }
  split; [|unfold contents, grown; cbn [ht_entries]; by rewrite Hp].
  destruct W. constructor; try done; unfold grown; cbn [ht_entries ht_len ht_cap ht_free_cur] in *.
  - by rewrite length_app, length_replicate, wf_size0.
  - unfold nb, buckets in *. cbn [ht_buckets_no] in *. lia.
  - intros b Hb. apply (chain_ext (ht_entries t)); [by apply wf_chain0|]. intros j Hj.
    destruct (chain_cell _ _ _ _ (wf_chain0 b Hb) Hj) as [e He]. unfold nxt. by rewrite lookup_app_l by (by eapply lookup_lt_Some).
  - intros i e k [H|[_ H]]%lookup_app_Some Hk; [by apply (wf_keyed0 i e)|].
    apply lookup_replicate in H as [-> _]. done.
  - by rewrite Hp.
  - by rewrite Hp.
Qed.

(** [hash_grow] adds empty cells or, out of memory or at the limit of the counter, does nothing. *)
Lemma hash_grow_spec t ch :
  wf_with t ch -> ht_free_cur t = ht_cap t ->
  hash_grow t = Ok None /\ ((exists n, alloc_ok n = false) \/ 1431655765 < Z.of_nat (ht_free_cur t)) \/
  exists n, (0 < n)%nat /\ hash_grow t = Ok (Some (grown t n)) /\ wf_with (grown t n) ch /\
            contents (grown t n) = contents t.
Proof.
  intros W Hf. unfold hash_grow. pose proof (wf_pos _ _ W). pose proof (wf_free _ _ W). unfold nb in *.
  assert (2 <= Z.of_nat (ht_cap t)) as Hc.
  { destruct (wf_primes _ _ W) as [pre E]. unfold buckets in *. assert (Forall (fun p => p < 0 \/ 2 <= p) primes) as F.
    { unfold primes. repeat (constructor; [lia|]). constructor. }
    rewrite E in F. apply Forall_app in F as [_ F]. destruct (ht_buckets_no t); [cbn in *; lia|].
    apply Forall_cons in F as [F _]. cbn in *. lia. }
  assert ((0 <? buckets t) = true) as -> by lia. assert ((buckets t <=? Z.of_nat (ht_cap t)) = true) as -> by lia.
  cbn [oassert obind]. unfold u32, wrap. change (2 ^ 32) with 4294967296.
  set (m := (Z.of_nat (ht_cap t) * 3) mod 4294967296 / 2).
  assert (0 <= m <= Z.of_nat (ht_cap t) * 3 / 2) as Hm.
  { unfold m. split; [apply Z.div_pos; [apply Z.mod_pos_bound; lia|lia]|]. apply Z.div_le_mono; [lia|]. apply Z.mod_le; lia. }
  destruct (Z.leb_spec m (Z.of_nat (ht_cap t))) as [Hle|Hgt].
  { left. split; [done|]. right. rewrite Hf. destruct (Z.le_gt_cases (Z.of_nat (ht_cap t)) 1431655765); [|lia].
    unfold m in Hle. rewrite Z.mod_small in Hle by lia. clear Hm m. Z.to_euclidean_division_equations; lia. }
  destruct (alloc_ok (Z.to_nat m)) eqn:Ea; cbn [negb]; [|left; eauto].
  right. exists (Z.to_nat (m - Z.of_nat (ht_cap t))). split; [lia|]. split.
  - unfold grown. replace (Z.to_nat m) with (ht_cap t + Z.to_nat (m - Z.of_nat (ht_cap t)))%nat by lia. done.
  - apply wf_grow; [done|]. clearbody m. Z.to_euclidean_division_equations; lia.
Qed.

Definition appended (t : dicey_hashtable) (z : nat) (e : table_entry) (k : cstr) (v : option A) : dicey_hashtable :=
  mk_table (ht_len t + 1) (ht_cap t) (ht_buckets_no t) (S (ht_free_cur t))
    (<[z := set_next e (ht_free_cur t)]> (<[ht_free_cur t := mk_entry (Some k) v 0]> (ht_entries t))).

Lemma free_cell_unkeyed t ch :
  wf_with t ch -> (ht_free_cur t < ht_cap t)%nat ->
  exists e, ht_entries t !! ht_free_cur t = Some e /\ te_key e = None.
Proof.
  intros W Hf. rewrite <- (wf_size _ _ W) in Hf. destruct (lookup_lt_is_Some_2 _ _ Hf) as [e He].
  exists e. split; [done|]. destruct (te_key e) as [k|] eqn:Hk; [|done].
  pose proof (wf_bound _ _ W _ _ (bucket_of_lt t k (wf_pos _ _ W)) (wf_keyed _ _ W _ _ _ He Hk)). lia.
Qed.

Lemma pairs_set_next cells i e n : cells !! i = Some e -> pairs (<[i := set_next e n]> cells) = pairs cells.
Proof. intros Hi. destruct (pairs_insert _ _ _ Hi) as (p & q & -> & ->). done. Qed.

(** The chains after an append to the bucket [bk]. *)
Definition chains_append (ch : nat -> list nat) (bk new : nat) (b : nat) : list nat :=
  if decide (b = bk) then ch b ++ [new] else ch b.

Lemma elem_of_chains_append ch bk new b j :
  j ∈ chains_append ch bk new b <-> j ∈ ch b \/ (b = bk /\ j = new).
Proof.
  unfold chains_append. destruct (decide (b = bk)) as [->|Hb]; [rewrite elem_of_app, list_elem_of_singleton|]; intuition.
Qed.

Lemma appended_pairs t ch z e k v :
  wf_with t ch -> (ht_free_cur t < ht_cap t)%nat -> (z < ht_free_cur t)%nat -> ht_entries t !! z = Some e ->
  exists p q, pairs (ht_entries t) = p ++ q /\ pairs (ht_entries (appended t z e k v)) = p ++ (k, v) :: q.
Proof.
  intros W Hf Hz He. destruct (free_cell_unkeyed t ch W Hf) as (e0 & H0 & Hk0).
  destruct (pairs_insert _ _ _ H0) as (p & q & Hp & Hins). exists p, q. unfold pair_of in Hp. rewrite Hk0 in Hp.
  split; [done|]. cbn [appended ht_entries]. rewrite pairs_set_next; [by rewrite Hins|].
  by rewrite list_lookup_insert_ne by lia.
Qed.

Lemma appended_nxt t ch z e k v :
  wf_with t ch -> (ht_free_cur t < ht_cap t)%nat -> (z < ht_free_cur t)%nat -> ht_entries t !! z = Some e ->
  let cells := ht_entries (appended t z e k v) in
  nxt cells z = Some (ht_free_cur t) /\ nxt cells (ht_free_cur t) = Some O /\
  forall j, j <> z -> j <> ht_free_cur t -> nxt cells j = nxt (ht_entries t) j.
Proof.
  intros W Hf Hz He. pose proof (wf_size _ _ W). unfold nxt. cbn [appended ht_entries]. split_and!.
  - rewrite list_lookup_insert_eq; [done|]. rewrite length_insert. lia.
  - rewrite list_lookup_insert_ne by lia. by rewrite list_lookup_insert_eq by lia.
  - intros j H1 H2. by rewrite !list_lookup_insert_ne by congruence.
Qed.

Lemma wf_append t ch z e k v :
  wf_with t ch -> (ht_free_cur t < ht_cap t)%nat -> last (ch (bucket_of t k)) = Some z ->
  ht_entries t !! z = Some e -> contents t !! k = None ->
  wf (appended t z e k v) /\ contents (appended t z e k v) = <[k := v]> (contents t).
Proof.
  intros W Hf Hlast He Hn. pose proof (bucket_of_lt t k (wf_pos _ _ W)) as Hb.
  assert (z ∈ ch (bucket_of t k)) as Hzc by (by apply last_Some_elem_of).
  pose proof (wf_bound _ _ W _ _ Hb Hzc) as Hz.
  destruct (appended_pairs t ch z e k v W Hf Hz He) as (p & q & Hp & Hp').
  destruct (appended_nxt t ch z e k v W Hf Hz He) as (N1 & N2 & N3).
  assert (NoDup ((p ++ (k, v) :: q).*1)) as Hd.
  { unfold contents in Hn. rewrite Hp in Hn. apply not_elem_of_list_to_map_2 in Hn.
    pose proof (wf_keys _ _ W) as Hd. rewrite Hp in Hd. rewrite <- Permutation_middle. cbn. by apply NoDup_cons. }
  split; [|unfold contents; rewrite Hp, Hp'; by destruct (map_mid _ _ _ _ Hd) as (-> & _)].
  assert (forall b, (b < nb t)%nat -> ht_free_cur t ∉ ch b) as Hfresh.
  { intros b Hb' Hin. pose proof (wf_bound _ _ W _ _ Hb' Hin). lia. }
  exists (chains_append ch (bucket_of t k) (ht_free_cur t)). pose proof W as W'. destruct W'. constructor; try done.
  - cbn. by rewrite !length_insert.
  - change (nb (appended t z e k v)) with (nb t). cbn. lia.
  - cbn. lia.
  - intros b Hb'. change (nb (appended t z e k v)) with (nb t) in Hb'. unfold chains_append.
    destruct (decide (b = bucket_of t k)) as [->|Hne].
    + eapply chain_append; eauto; [lia|]. intros j Hj Hjz. apply N3; [done|]. intros ->. by apply (Hfresh _ Hb).
    + apply (chain_ext (ht_entries t)); [by apply wf_chain0|]. intros j Hj. apply N3.
      * intros ->. apply Hne. by apply (wf_disjoint0 _ _ z).
      * intros ->. by apply (Hfresh _ Hb').
  - intros b Hb'. change (nb (appended t z e k v)) with (nb t) in Hb'. unfold chains_append.
    destruct (decide (b = bucket_of t k)) as [->|Hne]; [|by apply wf_nodup0].
    apply NoDup_app. split_and!; [by apply wf_nodup0| |apply NoDup_singleton].
    intros j Hj ->%list_elem_of_singleton. by apply (Hfresh _ Hb).
  - intros b b' j Hb1 Hb2. change (nb (appended t z e k v)) with (nb t) in Hb1, Hb2. rewrite !elem_of_chains_append.
    intros [H1|[-> ->]] [H2|[-> H2]]; [by apply (wf_disjoint0 _ _ j)|subst; by destruct (Hfresh _ Hb1)| |done].
    by destruct (Hfresh _ Hb2).
  - intros b j Hb'. change (nb (appended t z e k v)) with (nb t) in Hb'. rewrite elem_of_chains_append. cbn.
    intros [Hj|[_ ->]]; [|lia]. pose proof (wf_bound0 _ _ Hb' Hj). lia.
  - intros i x k' Hx Hk. change (bucket_of (appended t z e k v) k') with (bucket_of t k'). rewrite elem_of_chains_append.
    cbn in Hx. apply list_lookup_insert_Some in Hx as [(<- & <- & _)|(Hne & Hx)].
    + left. by apply (wf_keyed0 _ e).
    + apply list_lookup_insert_Some in Hx as [(<- & <- & _)|(Hne' & Hx)]; [cbn in Hk; simplify_eq; by right|].
      left. by apply (wf_keyed0 _ x).
  - by rewrite Hp'.
  - rewrite Hp'. cbn [appended ht_len]. rewrite wf_len0, Hp, !length_app. cbn. lia.
Qed.

Definition lacks_memory : Prop := (exists n, alloc_ok n = false) \/ (exists k, strdup_ok k = false).

Lemma maybe_take_spec k owned : maybe_take k owned = Some k \/ maybe_take k owned = None /\ lacks_memory.
Proof.
  unfold maybe_take. destruct owned; [by left|]. destruct (strdup_ok k) eqn:E; [by left|]. right. split; [done|]. right. eauto.
Qed.

(** What an append does to a table: its contents and the cells used. *)
Definition append_post (t : dicey_hashtable) (k : cstr) (v : option A) (ok : bool) (t' : dicey_hashtable) : Prop :=
  wf t' /\ ht_buckets_no t' = ht_buckets_no t /\ (ht_free_cur t' <= ht_free_cur t + 1)%nat /\
  contents t' = (if ok then <[k := v]> (contents t) else contents t).

Lemma append_at_spec t ch k owned v z :
  wf_with t ch -> (ht_free_cur t < ht_cap t)%nat -> last (ch (bucket_of t k)) = Some z -> contents t !! k = None ->
  ht_len t + 1 <= UINT32_MAX ->
  exists ok t', append_at t z k owned v = Ok (ok, t') /\ append_post t k v ok t' /\ (ok = false -> lacks_memory).
Proof.
  intros W Hf Hlast Hn Hlen. unfold append_at. rewrite bool_decide_true by done. cbn [oassert obind].
  destruct (maybe_take_spec k owned) as [->|[-> Hm]].
  - assert (z ∈ ch (bucket_of t k)) as Hzc by (by apply last_Some_elem_of).
    pose proof (wf_bound _ _ W _ _ (bucket_of_lt t k (wf_pos _ _ W)) Hzc) as Hz.
    assert (is_Some (ht_entries t !! z)) as [e He] by (apply lookup_lt_is_Some_2; rewrite (wf_size _ _ W); lia).
    rewrite list_lookup_insert_ne by lia. rewrite He. exists true, (appended t z e k v).
    destruct (wf_append t ch z e k v) as [Hw Hc]; try done. split; [|split; [split_and!; try done; cbn; lia|done]].
    unfold appended. rewrite u32_small; [done|]. pose proof (wf_len _ _ W). lia.
  - exists false, t. split; [done|]. split; [split_and!; try done; [by exists ch|lia]|done].
Qed.

Lemma hash_bucket_append_spec t ch k owned v z :
  wf_with t ch -> last (ch (bucket_of t k)) = Some z -> contents t !! k = None -> ht_len t + 1 <= UINT32_MAX ->
  exists ok t', hash_bucket_append t z k owned v = Ok (ok, t') /\ append_post t k v ok t' /\
    (ok = false -> lacks_memory \/ 1431655765 < Z.of_nat (ht_free_cur t)).
Proof.
  intros W Hlast Hn Hlen. assert (z ∈ ch (bucket_of t k)) as Hzc by (by apply last_Some_elem_of).
  pose proof (wf_bound _ _ W _ _ (bucket_of_lt t k (wf_pos _ _ W)) Hzc) as Hz. pose proof (wf_free _ _ W) as Hf.
  unfold hash_bucket_append. rewrite bool_decide_true by lia. cbn [oassert obind].
  destruct (decide (ht_cap t <= ht_free_cur t)%nat) as [Hge|Hlt].
  - rewrite bool_decide_true by done. destruct (hash_grow_spec t ch W) as [[-> Hbad]|(n & Hn0 & -> & Wg & Hcg)]; [lia| |]; cbn [obind].
    + exists false, t. split; [done|]. split; [split_and!; try done; [by exists ch|lia]|]. intros _. destruct Hbad; [left; by left|by right].
    + destruct (append_at_spec (grown t n) ch k owned v z) as (ok & t' & E & H1 & H2); try done; [cbn; lia|by rewrite Hcg|].
      exists ok, t'. split_and!; [done| |auto]. unfold append_post in *. by rewrite Hcg in H1.
  - rewrite bool_decide_false by done.
    destruct (append_at_spec t ch k owned v z) as (ok & t' & E & H1 & H2); try done; [lia|].
    exists ok, t'. split_and!; auto.
Qed.

(** ** Rehashing *)

(** The most entries for which [load_factor] does not overflow, the largest number of buckets that
    a table with so few entries is rehashed to, and the cells beyond which a table may not grow. *)
Definition MAX_LEN : Z := 42949672.
Definition MAX_BUCKETS : Z := 100663319.
Definition MAX_CELLS : Z := 1431655765.

Lemma wf_size_contents t : wf t -> ht_len t = Z.of_nat (size (contents t)).
Proof.
  intros [ch W]. rewrite (wf_len _ _ W). unfold contents. rewrite map_size_list_to_map by (by apply (wf_keys _ _ W)). done.
Qed.

Lemma load_factor_spec len b :
  0 <= len <= MAX_LEN -> load_factor len b = Ok (len * 100 / b).
Proof.
  intros H. unfold load_factor, MAX_LEN in *. rewrite u32_small by (unfold UINT32_MAX; lia).
  assert ((len <=? len * 100) = true) as -> by lia. done.
Qed.

Fixpoint primes_check (l : list Z) : bool :=
  match l with
  | [] => true
  | p :: l' => ((p <=? 0) || (57266229 <? p) || ((0 <? hd 0 l') && (hd 0 l' <=? MAX_BUCKETS))) && primes_check l'
  end.

Lemma next_prime pre l :
  primes = pre ++ l -> 0 < hd 0 l -> hd 0 l * 75 <= MAX_LEN * 100 -> 0 < hd 0 (tl l) <= MAX_BUCKETS.
Proof.
  intros E Hp Hl. assert (primes_check primes = true) as Hc by (vm_compute; done). rewrite E in Hc. clear E.
  unfold MAX_LEN in *. induction pre as [|p pre IH]; cbn [app primes_check] in Hc.
  - destruct l as [|p l]; [cbn in Hp; lia|]. cbn [hd tl primes_check] in *. lia.
  - apply IH. apply andb_true_iff in Hc. tauto.
Qed.

Lemma hash_new_spec pre l :
  primes = pre ++ l -> 0 < hd 0 l ->
  hash_new l 0 = None /\ lacks_memory \/
  exists t, hash_new l 0 = Some t /\ wf t /\ contents t = ∅ /\ ht_buckets_no t = l /\ ht_free_cur t = Z.to_nat (hd 0 l).
Proof.
  intros E Hp. unfold hash_new. destruct (Z.leb_spec (hd 0 l) 0); [lia|].
  destruct (alloc_ok (Z.to_nat (hd 0 l) + 0)) eqn:Ea; cbn [negb]; [|left; split; [done|]; left; eauto].
  right. eexists. split; [done|]. set (n := Z.to_nat (hd 0 l)).
  split_and!; [|unfold contents; cbn [ht_entries]; by rewrite pairs_empty|done|done].
  exists (fun b => [b]). constructor; cbn [ht_len ht_cap ht_buckets_no ht_free_cur ht_entries]; unfold nb, buckets; cbn [ht_buckets_no]; fold n.
  - by exists pre.
  - done.
  - apply length_replicate.
  - lia.
  - lia.
  - intros b Hb. constructor. unfold nxt. by rewrite lookup_replicate_2.
  - intros b _. apply NoDup_singleton.
  - intros b b' j _ _ ->%list_elem_of_singleton ->%list_elem_of_singleton. done.
  - intros b j Hb ->%list_elem_of_singleton. done.
  - intros i e k [-> _]%lookup_replicate. done.
  - rewrite pairs_empty. apply NoDup_nil_2.
  - by rewrite pairs_empty.
Qed.

(** What a set does: the table stays well formed, its contents change as a map does, and it fails
    only without memory or beyond the limit on cells. *)
Definition set_post (t : dicey_hashtable) (k : cstr) (v : option A) (out : set_outcome) : Prop :=
  let '(r, old, t') := out in
  wf t' /\ (length (ht_buckets_no t') <= length (ht_buckets_no t))%nat /\
  Z.of_nat (ht_free_cur t') <= Z.max (Z.of_nat (ht_free_cur t)) (MAX_BUCKETS + ht_len t) + 1 /\
  match r with
  | DICEY_HASH_SET_UPDATED => contents t !! k = Some old /\ contents t' = <[k := v]> (contents t)
  | DICEY_HASH_SET_ADDED => contents t !! k = None /\ old = None /\ contents t' = <[k := v]> (contents t)
  | DICEY_HASH_SET_FAILED => contents t !! k = None /\ old = None /\ contents t' = contents t /\
                             (lacks_memory \/ MAX_CELLS < Z.of_nat (ht_free_cur t))
  end.

Section rehash_spec.
Variable hs : dicey_hashtable -> cstr -> bool -> option A -> res set_outcome.
Variable bound : nat.
Hypothesis hs_spec : forall t k owned v, wf t -> (length (ht_buckets_no t) <= bound)%nat -> ht_len t + 1 <= MAX_LEN ->
  exists out, hs t k owned v = Ok out /\ set_post t k v out.

Definition steal_inv (t : dicey_hashtable) : Prop :=
  wf t /\ (length (ht_buckets_no t) <= bound)%nat /\ Z.of_nat (ht_free_cur t) <= MAX_BUCKETS + ht_len t.

(** One insertion of a new key into a table being rebuilt. *)
Lemma steal_one t k owned v :
  steal_inv t -> contents t !! k = None -> ht_len t + 1 <= MAX_LEN ->
  exists r old t', hs t k owned v = Ok (r, old, t') /\ r <> DICEY_HASH_SET_UPDATED /\
    (r = DICEY_HASH_SET_FAILED -> lacks_memory) /\
    (r = DICEY_HASH_SET_ADDED -> steal_inv t' /\ contents t' = <[k := v]> (contents t)).
Proof.
  intros (W & Hb & Hf) Hn Hl. destruct (hs_spec t k owned v W Hb Hl) as ([[r old] t'] & E & W' & Hb' & Hf' & Hr).
  exists r, old, t'. split; [done|]. pose proof (wf_size_contents t W) as L. pose proof (wf_size_contents t' W') as L'.
  unfold MAX_BUCKETS, MAX_LEN, MAX_CELLS in *. split_and!.
  - intros ->. destruct Hr as [Hr _]. congruence.
  - intros ->. destruct Hr as (_ & _ & _ & [?|?]); [done|lia].
  - intros ->. destruct Hr as (_ & _ & Hc). split; [|done]. rewrite Hc, map_size_insert_None in L' by done.
    split_and!; [done|lia|unfold MAX_BUCKETS; lia].
Qed.

Lemma steal_spec cells t :
  steal_inv t -> NoDup ((pairs cells).*1) -> (forall k, k ∈ (pairs cells).*1 -> contents t !! k = None) ->
  ht_len t + Z.of_nat (length (pairs cells)) <= MAX_LEN ->
  steal_entries hs cells t = Ok None /\ lacks_memory \/
  exists t', steal_entries hs cells t = Ok (Some t') /\ steal_inv t' /\ contents t' = list_to_map (pairs cells) ∪ contents t.
Proof.
  revert t. induction cells as [|e cells IH]; intros t Hi Hd Hn Hl.
  - right. exists t. split_and!; try done; [apply Hi..|]. cbn. by rewrite map_empty_union.
  - cbn [steal_entries]. change (pairs (e :: cells)) with (pair_of e ++ pairs cells) in *. unfold pair_of in *.
    destruct (te_key e) as [k|] eqn:Ek; [|by apply IH]. cbn [app fmap list_fmap fst length] in *.
    apply NoDup_cons in Hd as [Hk Hd].
    destruct (steal_one t k true (te_value e) Hi) as (r & old & t' & -> & Hu & Hfail & Hadd); [apply Hn; by left|lia|].
    cbn [obind]. rewrite bool_decide_false by done. cbn [negb oassert obind]. destruct r; [left; auto| |done].
    destruct Hadd as [Hi' Hc]; [done|].
    assert (contents t !! k = None) as Hkn by (apply Hn; by left).
    destruct (IH t' Hi' Hd) as [?|(t2 & E2 & Hi2 & Hc2)]; [| |by left|].
    + intros k' Hk'. rewrite Hc, lookup_insert_ne by (intros ->; done). apply Hn. by right.
    + rewrite (wf_size_contents t' (proj1 Hi')), Hc, map_size_insert_None by done.
      rewrite (wf_size_contents t (proj1 Hi)) in Hl. lia.
    + right. exists t2. split_and!; try done; [apply Hi2..|]. rewrite Hc2, Hc. cbn.
      rewrite <- insert_union_r; [by rewrite insert_union_l|]. by apply not_elem_of_list_to_map_1.
Qed.

Lemma rehash_spec t ch k owned v :
  wf_with t ch -> contents t !! k = None -> ht_len t + 1 <= MAX_LEN -> (length (ht_buckets_no t) <= S bound)%nat ->
  buckets t * 75 <= (ht_len t + 1) * 100 ->
  hash_rehash_and_set_new hs t k owned v = Ok None /\ lacks_memory \/
  exists t', hash_rehash_and_set_new hs t k owned v = Ok (Some t') /\ steal_inv t' /\ contents t' = <[k := v]> (contents t).
Proof.
  intros W Hn Hl Hb Hload. destruct (wf_primes _ _ W) as [pre E]. pose proof (wf_pos _ _ W) as Hp.
  assert (wf t) as Wt by (by exists ch). unfold buckets in *.
  destruct (next_prime pre (ht_buckets_no t) E Hp) as [Hq1 Hq2]; [lia|].
  unfold hash_rehash_and_set_new, buckets. assert ((0 <? hd 0 (ht_buckets_no t)) = true) as -> by lia. cbn [oassert obind].
  destruct (ht_buckets_no t) as [|p l] eqn:El; [cbn in Hp; lia|]. cbn [hd tl length] in *.
  destruct (hash_new_spec (pre ++ [p]) l) as [[-> Hm]|(t0 & -> & W0 & Hc0 & Hb0 & Hf0)]; [by rewrite <- app_assoc|done|by left|].
  rewrite take_ge by (by rewrite (wf_size _ _ W)).
  assert (steal_inv t0) as Hi0.
  { pose proof (wf_size_contents t0 W0). split_and!; [done|rewrite Hb0; lia|]. rewrite Hf0. lia. }
  pose proof (wf_size_contents t Wt) as L. pose proof (wf_len _ _ W) as L'. pose proof (wf_size_contents t0 W0) as L0.
  rewrite Hc0, map_size_empty in L0.
  destruct (steal_spec (ht_entries t) t0 Hi0 (wf_keys _ _ W)) as [[-> Hm]|(t1 & -> & Hi1 & Hc1)]; [by intros; rewrite Hc0|lia|by left|].
  cbn [obind]. rewrite Hc0, map_union_empty in Hc1. fold (contents t) in Hc1.
  pose proof (wf_size_contents t1 (proj1 Hi1)) as L1. rewrite Hc1 in L1.
  destruct (steal_one t1 k owned v Hi1) as (r & old & t2 & -> & Hu & Hfail & Hadd); [by rewrite Hc1|lia|].
  cbn [obind]. destruct r; [left; auto| |done]. right. exists t2. destruct Hadd as [Hi2 Hc2]; [done|].
  split_and!; try done; [apply Hi2..|]. by rewrite Hc2, Hc1.
Qed.

End rehash_spec.

(** The specification of [hash_set]: the fuel it needs is the number of table sizes left. *)
Lemma hash_set_spec fuel t k owned v :
  wf t -> (length (ht_buckets_no t) <= fuel)%nat -> ht_len t + 1 <= MAX_LEN ->
  exists out, hash_set fuel t k owned v = Ok out /\ set_post t k v out.
Proof.
  revert t k owned v. induction fuel as [|fuel IH]; intros t k owned v [ch W] Hb Hl.
  { pose proof (wf_pos _ _ W) as Hp. unfold buckets in Hp. destruct (ht_buckets_no t); cbn in *; lia. }
  pose proof (wf_size_contents t (ex_intro _ ch W)) as L. assert (MAX_LEN <= UINT32_MAX) as HM by done.
  cbn [hash_set]. destruct (find_spec t ch k W) as (r & -> & Hr). cbn [obind]. destruct (f_entry r) as [j|].
  { destruct Hr as (e & He & Hk & _ & Hv). rewrite He. eexists. split; [done|].
    destruct (set_existing t ch j e k v W He Hk) as [Hw Hc]. split_and!; try done. cbn. lia. }
  destruct Hr as (Hn & Hlast & Hfree). rewrite u32_small by lia. rewrite load_factor_spec by lia. cbn [obind].
  destruct (Z.leb_spec REHASH_THRESHOLD ((ht_len t + 1) * 100 / buckets t)) as [Hload|Hload].
  { assert (buckets t * 75 <= (ht_len t + 1) * 100) as Hload'.
    { pose proof (wf_pos _ _ W) as Hp. unfold REHASH_THRESHOLD in Hload. pose proof (Z.mul_div_le ((ht_len t + 1) * 100) (buckets t) Hp). nia. }
    destruct (rehash_spec (hash_set fuel) (pred (length (ht_buckets_no t)))) with (t := t) (ch := ch) (k := k) (owned := owned) (v := v)
       as [[-> Hm]|(t' & -> & (W' & Hb' & Hf') & Hc)]; try done; cbn [obind].
    - intros t1 k1 o1 v1 W1 Hb1. apply IH; [done|lia].
    - lia.
    - eexists. split; [done|]. split_and!; try done; [by exists ch|lia|by left].
    - eexists. split; [done|]. pose proof (wf_size_contents t' W') as L'. rewrite Hc, map_size_insert_None in L' by done.
      split_and!; try done; lia. }
  destruct (f_first_free r) as [j|].
  { destruct Hfree as (Hj & e & He & Hk). rewrite He. destruct (maybe_take_spec k owned) as [->|[-> Hm]].
    - eexists. split; [done|]. destruct (fill_free t ch j e k v W He Hk Hj Hn) as [Hw Hc]. split_and!; try done. cbn. lia.
    - eexists. split; [done|]. split_and!; try done; [by exists ch|lia|by left]. }
  destruct (hash_bucket_append_spec t ch k owned v (f_bucket_end r) W Hlast Hn) as (ok & t' & -> & (W' & Hb' & Hf' & Hc) & Hfail); [lia|].
  cbn [obind]. eexists. split; [done|]. unfold set_post. rewrite Hb'. destruct ok; split_and!; try done; try lia. auto.
Qed.

(** ** The interface against a finite map *)

(** A table pointer is NULL or points to a well-formed table; NULL is the empty map. *)
Definition valid (table : option dicey_hashtable) : Prop := match table with Some t => wf t /\ ht_len t <= MAX_LEN | None => True end.
Definition model (table : option dicey_hashtable) : gmap cstr (option A) :=
  match table with Some t => contents t | None => ∅ end.
Definition cells_used (table : option dicey_hashtable) : Z :=
  match table with Some t => Z.of_nat (ht_free_cur t) | None => 0 end.

Lemma size_model table : valid table -> dicey_hashtable_size table = Z.of_nat (size (model table)).
Proof. destruct table; [intros [? _]; by apply wf_size_contents|done]. Qed.

Definition table_set_post (table : option dicey_hashtable) (k : cstr) (v : option A)
    (r : dicey_hash_set_result) (old : option A) (table' : option dicey_hashtable) : Prop :=
  valid table' /\ cells_used table' <= Z.max (cells_used table) (MAX_BUCKETS + Z.of_nat (size (model table))) + 1 /\
  match r with
  | DICEY_HASH_SET_UPDATED => model table !! k = Some old /\ model table' = <[k := v]> (model table)
  | DICEY_HASH_SET_ADDED => model table !! k = None /\ old = None /\ model table' = <[k := v]> (model table)
  | DICEY_HASH_SET_FAILED =>
      model table !! k = None /\ old = None /\ model table' = model table /\
      (lacks_memory \/ MAX_CELLS < cells_used table)
  end.

Lemma suffix_primes_length pre l : primes = pre ++ l -> (length l <= length primes)%nat.
Proof. intros ->. rewrite length_app. lia. Qed.

(** The length of the table a set returns. *)
Lemma set_post_len t k v r old t' : wf t -> set_post t k v (r, old, t') -> ht_len t' <= ht_len t + 1.
Proof.
  intros W (W' & _ & _ & Hr). rewrite (wf_size_contents t W), (wf_size_contents t' W').
  destruct r; [destruct Hr as (_ & _ & -> & _); lia| |]; [destruct Hr as (Hn & _ & ->)|destruct Hr as (Hn & ->)].
  - rewrite map_size_insert_None by done. lia.
  - rewrite map_size_insert_Some by done. lia.
Qed.

Lemma set_lemma table k v :
  valid table -> Z.of_nat (size (model table)) + 1 <= MAX_LEN ->
  exists r old table', dicey_hashtable_set table k v = Ok (r, old, table') /\ table_set_post table k v r old table'.
Proof.
  intros Hv Hl. unfold dicey_hashtable_set. destruct table as [t|].
  - cbn [valid model] in *. destruct Hv as [Hv _]. assert ((length (ht_buckets_no t) <= length primes)%nat) as Hb.
    { destruct Hv as [ch W]. destruct (wf_primes _ _ W) as [pre E]. by eapply suffix_primes_length. }
    rewrite <- wf_size_contents in Hl by done.
    destruct (hash_set_spec (length primes) t k false v Hv Hb Hl) as ([[r old] t'] & -> & Hp).
    cbn [obind]. exists r, old, (Some t'). split; [done|]. pose proof (set_post_len _ _ _ _ _ _ Hv Hp) as Hl'.
    destruct Hp as (W' & _ & Hf & Hr). rewrite (wf_size_contents t Hv) in Hf. split_and!; try done. split; [done|lia].
  - unfold hash_new_default. destruct (hash_new_spec [] primes) as [[-> Hm]|(t0 & -> & W0 & Hc0 & Hb0 & Hf0)]; [done|done| |].
    + do 3 eexists. split; [done|]. split_and!; try done. by left.
    + pose proof (wf_size_contents t0 W0) as L0. rewrite Hc0, map_size_empty in L0.
      destruct (hash_set_spec (length primes) t0 k false v W0) as ([[r old] t'] & -> & Hp);
        [by rewrite Hb0|by rewrite L0|]. cbn [obind]. exists r, old, (Some t'). split; [done|].
      pose proof (set_post_len _ _ _ _ _ _ W0 Hp) as Hl'. destruct Hp as (W' & _ & Hf & Hr). rewrite L0, Hf0 in Hf.
      assert (Z.of_nat (ht_free_cur t0) = 53) as Hf53 by (rewrite Hf0; done).
      cbn [valid model cells_used]. rewrite Hc0 in Hr. split; [|split].
      * split; [done|]. unfold MAX_LEN. lia.
      * change (hd 0 primes) with 53 in Hf. unfold MAX_BUCKETS in *. cbn [model cells_used]. rewrite map_size_empty. lia.
      * destruct r; try done. destruct Hr as (H1 & H2 & H3 & [H4|H4]); [by split_and!; auto|]. unfold MAX_CELLS in H4. lia.
Qed.

Lemma hash_get_entry_spec table key :
  valid table ->
  exists o, hash_get_entry table (Some key) = Ok o /\
    match o with
    | Some i => exists t ch e, table = Some t /\ wf_with t ch /\ ht_entries t !! i = Some e /\ te_key e = Some key /\
                            model table !! key = Some (te_value e)
    | None => model table !! key = None
    end.
Proof.
  destruct table as [t|]; [|by exists None]. intros [[ch W] _]. destruct (find_spec t ch key W) as (r & E & Hr).
  exists (f_entry r). unfold hash_get_entry. rewrite E. split; [done|]. destruct (f_entry r); [|tauto].
  destruct Hr as (e & He & Hk & _ & Hv). eauto 10.
Qed.

Lemma get_entry_lemma table key :
  valid table -> dicey_hashtable_get_entry table (Some key) = Ok ((fun v => (key, v)) <$> model table !! key).
Proof.
  intros Hv. unfold dicey_hashtable_get_entry. destruct (hash_get_entry_spec table key Hv) as ([i|] & -> & H); cbn [obind].
  - destruct H as (t & ch & [k v n] & -> & W & He & Hk & Hm). cbn in Hk. subst k. rewrite He, Hm. done.
  - by rewrite H.
Qed.

Lemma get_lemma table key :
  valid table -> dicey_hashtable_get table (Some key) = Ok (default None (model table !! key)).
Proof.
  intros Hv. unfold dicey_hashtable_get. rewrite get_entry_lemma by done. cbn [obind].
  destruct (model table !! key); done.
Qed.

Lemma remove_lemma table key :
  valid table ->
  exists table', dicey_hashtable_remove table (Some key) = Ok (default None (model table !! key), table') /\
    valid table' /\ model table' = delete key (model table) /\ cells_used table' = cells_used table.
Proof.
  intros Hv. unfold dicey_hashtable_remove. destruct (hash_get_entry_spec table key Hv) as ([i|] & -> & H); cbn [obind].
  - destruct H as (t & ch & e & -> & W & He & Hk & Hm). destruct (clear_cell t ch i e key W He Hk) as (Hl & Hw & Hc).
    destruct (Z.eqb_spec (ht_len t) 0); [lia|]. cbn [negb oassert obind]. rewrite He, Hm. eexists. split; [done|].
    destruct Hv as [_ Hv]. unfold MAX_LEN in *. rewrite u32_small by (unfold UINT32_MAX; lia).
    split_and!; try done. split; [done|]. cbn. unfold MAX_LEN. lia.
  - exists table. rewrite H. split_and!; try done. by rewrite delete_id.
Qed.

(** ** Iteration *)

(** The loop [while (dicey_hashtable_iter_next(&iter, &key, &value))] of a client. *)
Fixpoint iterate (fuel : nat) (iter : dicey_hashtable_iter) : res (list (cstr * option A)) :=
  match fuel with
  | O => OutOfFuel
  | S fuel' =>
      match dicey_hashtable_iter_next iter with
      | (None, _) => Ok []
      | (Some kv, iter') => let! l := iterate fuel' iter' in Ok (kv :: l)
      end
  end.

Lemma skip_empty_spec cells off :
  match skip_empty cells off with
  | None => pairs cells = []
  | Some (off', e) => exists k n, off' = (off + n)%nat /\ te_key e = Some k /\ (n < length cells)%nat /\
                                  pairs cells = (k, te_value e) :: pairs (drop (S n) cells)
  end.
Proof.
  revert off. induction cells as [|e cells IH]; intros off; [done|]. cbn [skip_empty].
  change (pairs (e :: cells)) with (pair_of e ++ pairs cells). unfold pair_of. destruct (te_key e) as [k|] eqn:Ek.
  - exists k, O. split_and!; [lia|done|cbn; lia|done].
  - specialize (IH (S off)). destruct (skip_empty cells (S off)) as [[off' x]|]; [|done].
    destruct IH as (k & n & -> & Hk & Hn & E). exists k, (S n). split_and!; [lia|done|cbn; lia|done].
Qed.

Lemma iterate_from t c fuel :
  length (ht_entries t) = ht_cap t -> (ht_cap t - c < fuel)%nat ->
  iterate fuel (mk_hiter (Some t) (Some c)) = Ok (pairs (drop c (ht_entries t))).
Proof.
  intros Hc. revert c. induction fuel as [|fuel IH]; intros c Hf; [lia|]. cbn [iterate].
  unfold dicey_hashtable_iter_next. cbn [hi_table hi_current]. rewrite take_ge by lia.
  pose proof (skip_empty_spec (drop c (ht_entries t)) c) as Hs.
  destruct (skip_empty _ c) as [[off' [k0 v n0]]|]; [|by rewrite Hs].
  destruct Hs as (k & n & -> & Hk & Hn & E). cbn in Hk. subst k0. rewrite length_drop in Hn.
  rewrite IH by lia. cbn [obind]. rewrite E. rewrite drop_drop. do 3 f_equal. f_equal. lia.
Qed.

(** ** Sequences of operations *)

Inductive table_op : Type :=
  | OpSet (k : cstr) (v : option A)
  | OpGet (k : cstr)
  | OpContains (k : cstr)
  | OpRemove (k : cstr)
  | OpSize.

Inductive table_obs : Type :=
  | ObsSet (r : dicey_hash_set_result) (old : option A)
  | ObsValue (v : option A)
  | ObsBool (b : bool)
  | ObsSize (n : Z).

Definition table_step (op : table_op) (table : option dicey_hashtable) : res (table_obs * option dicey_hashtable) :=
  match op with
  | OpSet k v => let! (r, old, table') := dicey_hashtable_set table k v in Ok (ObsSet r old, table')
  | OpGet k => let! v := dicey_hashtable_get table (Some k) in Ok (ObsValue v, table)
  | OpContains k => let! b := dicey_hashtable_contains table (Some k) in Ok (ObsBool b, table)
  | OpRemove k => let! (v, table') := dicey_hashtable_remove table (Some k) in Ok (ObsValue v, table')
  | OpSize => Ok (ObsSize (dicey_hashtable_size table), table)
  end.

Fixpoint table_run (ops : list table_op) (table : option dicey_hashtable) : res (list table_obs * option dicey_hashtable) :=
  match ops with
  | [] => Ok ([], table)
  | op :: ops' =>
      let! (o, table') := table_step op table in
      let! (os, table'') := table_run ops' table' in
      Ok (o :: os, table'')
  end.

(** Values that are not NULL. *)
Definition set_op (op : table_op) : Prop := match op with OpSet _ None => False | _ => True end.

Definition all_set (m : gmap cstr (option A)) : Prop := forall k v, m !! k = Some v -> is_Some v.

Lemma all_set_insert (m : gmap cstr (option A)) k v : all_set m -> all_set (<[k := Some v]> m).
Proof. intros H k' v'. rewrite lookup_insert_Some. intros [[_ <-]|[_ Hv]]; [eauto|by apply (H k')]. Qed.

Lemma all_set_delete (m : gmap cstr (option A)) k : all_set m -> all_set (delete k m).
Proof. intros H k' v'. rewrite lookup_delete_Some. intros [_ Hv]. by apply (H k'). Qed.

(** The same operations on a finite map: a key is contained when the map has an entry for it. *)
Definition map_step (op : table_op) (m : gmap cstr (option A)) : table_obs * gmap cstr (option A) :=
  match op with
  | OpSet k v =>
      (match m !! k with
       | Some old => ObsSet DICEY_HASH_SET_UPDATED old
       | None => ObsSet DICEY_HASH_SET_ADDED None
       end, <[k := v]> m)
  | OpGet k => (ObsValue (default None (m !! k)), m)
  | OpContains k => (ObsBool (bool_decide (is_Some (m !! k))), m)
  | OpRemove k => (ObsValue (default None (m !! k)), delete k m)
  | OpSize => (ObsSize (Z.of_nat (size m)), m)
  end.

Fixpoint map_run (ops : list table_op) (m : gmap cstr (option A)) : list table_obs * gmap cstr (option A) :=
  match ops with
  | [] => ([], m)
  | op :: ops' => let '(o, m') := map_step op m in let '(os, m'') := map_run ops' m' in (o :: os, m'')
  end.

(** The tables that [n] operations can have produced. *)
Definition within (n : Z) (table : option dicey_hashtable) : Prop :=
  valid table /\ Z.of_nat (size (model table)) <= n /\ cells_used table <= MAX_BUCKETS + n /\ all_set (model table).

Lemma step_refines op table n :
  ~ lacks_memory -> within n table -> n + 1 <= MAX_LEN -> set_op op ->
  exists table', table_step op table = Ok ((map_step op (model table)).1, table') /\
    within (n + 1) table' /\ model table' = (map_step op (model table)).2.
Proof.
  intros Hm (Hv & Hs & Hc & Ha) Hn Ho. assert (within (n + 1) table) as Hw by (split_and!; [done|lia|lia|done]).
  destruct op as [k v|k|k|k|]; cbn [table_step map_step fst snd].
  - destruct (set_lemma table k v Hv) as (r & old & table' & -> & Hv' & Hc' & Hr); [lia|]. cbn [obind].
    exists table'. assert (model table' = <[k := v]> (model table) /\
      ObsSet r old = match model table !! k with Some old => ObsSet DICEY_HASH_SET_UPDATED old | None => ObsSet DICEY_HASH_SET_ADDED None end) as [E ->].
    { unfold MAX_CELLS, MAX_BUCKETS, MAX_LEN in *. destruct r.
      - destruct Hr as (_ & _ & _ & [?|?]); [done|lia].
      - by destruct Hr as (-> & -> & ->).
      - by destruct Hr as (-> & ->). }
    split; [done|]. split; [|done]. split_and!; [done| |unfold MAX_BUCKETS in *; lia|].
    + rewrite E, map_size_insert. destruct (model table !! k); cbn; lia.
    + rewrite E. destruct v as [x|]; [by apply all_set_insert|done].
  - rewrite get_lemma by done. by exists table.
  - unfold dicey_hashtable_contains. rewrite get_lemma by done. exists table. split_and!; try done. cbn [obind]. do 3 f_equal.
    apply bool_decide_ext. destruct (model table !! k) as [v|] eqn:E; cbn; [|by split; intros [? ?]]. destruct (Ha k v E) as [x ->]. by split; eauto.
  - destruct (remove_lemma table k Hv) as (table' & -> & Hv' & E & Hu). cbn [obind]. exists table'.
    split; [done|]. split; [|done]. split_and!; [done| |lia|rewrite E; by apply all_set_delete].
    rewrite E, map_size_delete. destruct (model table !! k); cbn; lia.
  - rewrite size_model by done. by exists table.
Qed.

Lemma run_refines ops table n :
  ~ lacks_memory -> within n table -> n + zlen ops <= MAX_LEN -> Forall set_op ops ->
  exists table', table_run ops table = Ok ((map_run ops (model table)).1, table') /\
    within (n + zlen ops) table' /\ model table' = (map_run ops (model table)).2.
Proof.
  intros Hm. revert table n. induction ops as [|op ops IH]; intros table n Hw Hn Ho; cbn [table_run map_run].
  - exists table. change (zlen []) with 0. by rewrite Z.add_0_r.
  - rewrite zlen_cons in *. apply Forall_cons in Ho as [Ho1 Ho].
    destruct (step_refines op table n Hm Hw) as (t1 & -> & Hw1 & E1); [pose proof (zlen_nonneg ops); lia|done|].
    cbn [obind]. destruct (IH t1 (n + 1) Hw1) as (t2 & -> & Hw2 & E2); [lia|done|]. cbn [obind]. exists t2.
    rewrite E1 in E2 |- *. destruct (map_step op (model table)) as [o m']. cbn [fst snd] in *.
    destruct (map_run ops m') as [os m'']. cbn [fst snd] in *. split_and!; try done; by replace (n + (1 + zlen ops)) with (n + 1 + zlen ops) by lia.
Qed.

(** ** Properties of the table *)

(** Setting a key never faults and always returns: it updates the key and reports the old
    value, or adds it, or fails and leaves the contents as they were. It fails only when memory
    cannot be allocated or the table already has more than 1431655765 cells. The table stays well
    formed, so every other operation works on it. *)
Theorem dicey_hashtable_set_spec table k v :
  valid table -> Z.of_nat (size (model table)) + 1 <= MAX_LEN ->
  exists r old table', dicey_hashtable_set table k v = Ok (r, old, table') /\ table_set_post table k v r old table'.
Proof. apply set_lemma. Qed.

(** C35: with memory available, any sequence of up to 42949672 sets of values that are not NULL,
    gets, removals, membership tests and size queries on a table that starts as NULL runs without a
    fault and gives exactly the results the same operations give on a finite map. A value that is NULL
    is left out, because the membership test then denies an entry that is in the table. *)
Theorem hashtable_refines_map ops :
  ~ lacks_memory -> zlen ops <= MAX_LEN -> Forall set_op ops ->
  exists table, table_run ops None = Ok ((map_run ops ∅).1, table) /\ valid table /\ model table = (map_run ops ∅).2.
Proof.
  intros Hm Hl Ho. destruct (run_refines ops None 0 Hm) as (table & E & (Hv & _) & H); [by split_and!|lia|done|].
  exists table. done.
Qed.

Lemma iteration_lemma table :
  valid table ->
  exists l, iterate (S (match table with Some t => ht_cap t | None => O end)) (dicey_hashtable_iter_start table) = Ok l /\
    l ≡ₚ map_to_list (model table).
Proof.
  destruct table as [t|]; [|by exists []]. intros [[ch W] _]. exists (pairs (ht_entries t)). split.
  - apply (iterate_from t 0); [apply (wf_size _ _ W)|lia].
  - cbn [model]. unfold contents. by rewrite map_to_list_to_map by apply (wf_keys _ _ W).
Qed.

(** Iterating over a table visits every entry exactly once and nothing else, and comes to an
    end after at most as many steps as there are cells. *)
Theorem hashtable_iteration_complete table :
  valid table ->
  exists l, iterate (S (match table with Some t => ht_cap t | None => O end)) (dicey_hashtable_iter_start table) = Ok l /\
    l ≡ₚ map_to_list (model table).
Proof. apply iteration_lemma. Qed.

(** An entry with a NULL value is in the table and is counted, but [contains] denies it. *)
Theorem null_value_not_contained table k :
  valid table -> Z.of_nat (size (model table)) + 1 <= MAX_LEN -> model table !! k = None ->
  forall r old table', dicey_hashtable_set table k None = Ok (r, old, table') -> r = DICEY_HASH_SET_ADDED ->
    dicey_hashtable_size table' = dicey_hashtable_size table + 1 /\
    dicey_hashtable_get_entry table' (Some k) = Ok (Some (k, None)) /\
    dicey_hashtable_contains table' (Some k) = Ok false.
Proof.
  intros Hv Hl Hn r old table' E ->. destruct (set_lemma table k None Hv Hl) as (r & old2 & t2 & E2 & Hv' & _ & Hr).
  rewrite E in E2. injection E2 as <- <- <-. destruct Hr as (_ & _ & Hm). split_and!.
  - rewrite !size_model, Hm, map_size_insert_None by done. lia.
  - rewrite get_entry_lemma, Hm, lookup_insert_eq by done. done.
  - unfold dicey_hashtable_contains. rewrite get_lemma, Hm, lookup_insert_eq by done. done.
Qed.

End hashtable.

Lemma dicey_hashtable_set_spec_witness :
  exists r old table', dicey_hashtable_set (A := nat) (fun _ => true) (fun _ => true) None [97] (Some 5%nat) = Ok (r, old, table') /\
    table_set_post (fun _ => true) (fun _ => true) None [97] (Some 5%nat) r old table'.
Proof. apply dicey_hashtable_set_spec; [exact I|]. vm_compute. discriminate. Defined.

Definition sample_ops : list (table_op (A := nat)) :=
  [OpSet [97] (Some 1%nat); OpSet [98] (Some 2%nat); OpSet [97] (Some 3%nat); OpGet [97]; OpRemove [98]; OpContains [98]; OpSize].

Lemma hashtable_refines_map_witness :
  exists table, table_run (fun _ => true) (fun _ => true) sample_ops None =
      Ok ([ObsSet DICEY_HASH_SET_ADDED None; ObsSet DICEY_HASH_SET_ADDED None; ObsSet DICEY_HASH_SET_UPDATED (Some 1%nat);
           ObsValue (Some 3%nat); ObsValue (Some 2%nat); ObsBool false; ObsSize 1], table) /\
    valid table /\ model table = {[ [97] := Some 3%nat ]}.
Proof.
  pose proof (hashtable_refines_map (fun _ => true) (fun _ => true) sample_ops) as H.
  assert (map_run sample_ops ∅ =
    ([ObsSet DICEY_HASH_SET_ADDED None; ObsSet DICEY_HASH_SET_ADDED None; ObsSet DICEY_HASH_SET_UPDATED (Some 1%nat);
      ObsValue (Some 3%nat); ObsValue (Some 2%nat); ObsBool false; ObsSize 1], {[ [97] := Some 3%nat ]})) as E by (vm_compute; reflexivity).
  rewrite E in H. apply H; [|vm_compute; discriminate|repeat constructor].
  intros [[n Hn]|[k Hk]]; discriminate.
Defined.

Lemma hashtable_iteration_complete_witness :
  exists os t l, table_run (fun _ => true) (fun _ => true) sample_ops None = Ok (os, Some t) /\
    iterate (S (ht_cap t)) (dicey_hashtable_iter_start (Some t)) = Ok l /\ l ≡ₚ [([97], Some 3%nat)].
Proof.
  destruct (run_refines (fun _ => true) (fun _ => true) sample_ops None 0) as (table & E & (Hv & _) & Hm).
  - intros [[n Hn]|[k Hk]]; discriminate.
  - by split_and!.
  - vm_compute. discriminate.
  - repeat constructor.
  - assert (model table = {[ [97] := Some 3%nat ]}) as Hm' by (rewrite Hm; vm_compute; reflexivity).
    destruct table as [t|]; [|discriminate].
    destruct (hashtable_iteration_complete (Some t) Hv) as (l & Hl & Hp).
    exists (map_run sample_ops (model None)).1, t, l. split; [exact E|]. split; [exact Hl|].
    rewrite Hp, Hm', map_to_list_singleton. reflexivity.
Defined.

Lemma null_value_not_contained_witness :
  match dicey_hashtable_set (A := nat) (fun _ => true) (fun _ => true) None [97] None with
  | Ok (r, old, table') => dicey_hashtable_contains table' (Some [97]) = Ok false
  | _ => False
  end.
Proof.
  destruct (dicey_hashtable_set (A := nat) (fun _ => true) (fun _ => true) None [97] None) as [[[r old] table']|e|f|] eqn:E.
  - assert (r = DICEY_HASH_SET_ADDED) as Hr by (vm_compute in E; injection E as <- _ _; reflexivity).
    refine (proj2 (proj2 (null_value_not_contained (fun _ => true) (fun _ => true) None [97] I _ _ r old table' E Hr))).
    + vm_compute. discriminate.
    + reflexivity.
  - vm_compute in E. discriminate.
  - vm_compute in E. discriminate.
  - vm_compute in E. discriminate.
Defined.
