(* ===== verification/Hashset.v ===== *)
(** * Hash sets (src/sup/hashset.c)

    A hash set is a hash table whose values are all the address of a marker. The theorem shows that
    it refines a finite set, from the refinement of the table in Hashtable. *)

From S2P Require Import Prelude Errors Types Hashtable.
From stdpp Require Import gmap list.

#[local] Open Scope Z_scope.

Section hashset.
Variable alloc_ok : nat -> bool.
Variable strdup_ok : cstr -> bool.

Definition dicey_hashset : Type := dicey_hashtable (A := unit).

(** The address of the marker: not NULL. *)
Definition phony : option unit := Some tt.

Definition dicey_hashset_add (set : option dicey_hashset) (key : cstr)
    : res (dicey_hash_set_result * option dicey_hashset) :=
  let! (r, _, map) := dicey_hashtable_set alloc_ok strdup_ok set key phony in Ok (r, map).

Definition dicey_hashset_contains (table : option dicey_hashset) (key : option cstr) : res bool :=
  dicey_hashtable_contains table key.

Definition dicey_hashset_remove (table : option dicey_hashset) (key : option cstr)
    : res (bool * option dicey_hashset) :=
  let! (v, table') := dicey_hashtable_remove table key in Ok (bool_decide (is_Some v), table').

Definition dicey_hashset_size (table : option dicey_hashset) : Z := dicey_hashtable_size table.

Definition dicey_hashset_iter_start (table : option dicey_hashset) : dicey_hashtable_iter (A := unit) :=
  dicey_hashtable_iter_start table.

Definition dicey_hashset_iter_next (iter : dicey_hashtable_iter (A := unit))
    : option cstr * dicey_hashtable_iter (A := unit) :=
  let '(kv, iter') := dicey_hashtable_iter_next iter in (fst <$> kv, iter').

(** ** Sequences of operations *)

Inductive set_op : Type :=
  | SetAdd (k : cstr)
  | SetContains (k : cstr)
  | SetRemove (k : cstr)
  | SetSize.

Inductive set_obs : Type :=
  | ObsAdded (r : dicey_hash_set_result)
  | ObsTest (b : bool)
  | ObsCount (n : Z).

Definition hashset_step (op : set_op) (set : option dicey_hashset) : res (set_obs * option dicey_hashset) :=
  match op with
  | SetAdd k => let! (r, set') := dicey_hashset_add set k in Ok (ObsAdded r, set')
  | SetContains k => let! b := dicey_hashset_contains set (Some k) in Ok (ObsTest b, set)
  | SetRemove k => let! (b, set') := dicey_hashset_remove set (Some k) in Ok (ObsTest b, set')
  | SetSize => Ok (ObsCount (dicey_hashset_size set), set)
  end.

Fixpoint hashset_run (ops : list set_op) (set : option dicey_hashset) : res (list set_obs * option dicey_hashset) :=
  match ops with
  | [] => Ok ([], set)
  | op :: ops' =>
      let! (o, set') := hashset_step op set in
      let! (os, set'') := hashset_run ops' set' in
      Ok (o :: os, set'')
  end.

Definition gset_step (op : set_op) (s : gset cstr) : set_obs * gset cstr :=
  match op with
  | SetAdd k => (ObsAdded (if decide (k ∈ s) then DICEY_HASH_SET_UPDATED else DICEY_HASH_SET_ADDED), {[k]} ∪ s)
  | SetContains k => (ObsTest (bool_decide (k ∈ s)), s)
  | SetRemove k => (ObsTest (bool_decide (k ∈ s)), s ∖ {[k]})
  | SetSize => (ObsCount (Z.of_nat (size s)), s)
  end.

Fixpoint gset_run (ops : list set_op) (s : gset cstr) : list set_obs * gset cstr :=
  match ops with
  | [] => ([], s)
  | op :: ops' => let '(o, s') := gset_step op s in let '(os, s'') := gset_run ops' s' in (o :: os, s'')
  end.

(** ** Refinement *)

(** The table operation behind each set operation. *)
Definition table_op_of (op : set_op) : table_op (A := unit) :=
  match op with
  | SetAdd k => OpSet k phony
  | SetContains k => OpContains k
  | SetRemove k => OpRemove k
  | SetSize => OpSize
  end.

Definition obs_of (o : table_obs (A := unit)) : set_obs :=
  match o with
  | ObsSet r _ => ObsAdded r
  | ObsValue v => ObsTest (bool_decide (is_Some v))
  | ObsBool b => ObsTest b
  | ObsSize n => ObsCount n
  end.

Lemma hashset_step_table op set o set' :
  table_step alloc_ok strdup_ok (table_op_of op) set = Ok (o, set') -> hashset_step op set = Ok (obs_of o, set').
Proof.
  destruct op; cbn [table_step table_op_of hashset_step];
    unfold dicey_hashset_add, dicey_hashset_contains, dicey_hashset_remove, dicey_hashset_size.
  - destruct (dicey_hashtable_set _ _ _ _ _) as [[[r old] t]| | |]; cbn; intros E; simplify_eq; done.
  - destruct (dicey_hashtable_contains _ _); cbn; intros E; simplify_eq; done.
  - destruct (dicey_hashtable_remove _ _) as [[v t]| | |]; cbn; intros E; simplify_eq; done.
  - intros E. by simplify_eq.
Qed.

(** The map of a set holds the marker for every key. *)
Definition marked (m : gmap cstr (option unit)) : Prop := forall k v, m !! k = Some v -> v = phony.

Lemma marked_lookup m k : marked m -> m !! k = if decide (k ∈ dom m) then Some phony else None.
Proof.
  intros Hm. destruct (decide (k ∈ dom m)) as [Hk|Hk].
  - apply elem_of_dom in Hk as [v Hv]. rewrite Hv. f_equal. by apply (Hm k).
  - by apply not_elem_of_dom in Hk.
Qed.

Lemma gset_step_map op m :
  marked m ->
  let '(o, m') := map_step (table_op_of op) m in marked m' /\ gset_step op (dom m) = (obs_of o, dom m').
Proof.
  intros Hm. destruct op as [k|k|k|]; cbn [map_step table_op_of gset_step].
  - split.
    + intros k' v. rewrite lookup_insert_Some. intros [[_ <-]|[_ H]]; [done|by apply (Hm k')].
    + rewrite marked_lookup, dom_insert_L by done. destruct (decide (k ∈ dom m)); done.
  - split; [done|]. rewrite marked_lookup by done. destruct (decide (k ∈ dom m)); cbn; repeat f_equal.
    + by rewrite !bool_decide_true by eauto.
    + by rewrite !bool_decide_false by (done || by intros []).
  - split; [intros k' v; rewrite lookup_delete_Some; intros [_ H]; by apply (Hm k')|].
    rewrite marked_lookup, dom_delete_L by done. destruct (decide (k ∈ dom m)); cbn; repeat f_equal.
    + by rewrite !bool_decide_true by eauto.
    + by rewrite !bool_decide_false by (done || by intros []).
  - split; [done|]. by rewrite size_dom.
Qed.

Lemma hashset_run_refines ops set n :
  ~ lacks_memory alloc_ok strdup_ok -> within n set -> marked (model set) -> n + zlen ops <= MAX_LEN ->
  exists set', hashset_run ops set = Ok ((gset_run ops (dom (model set))).1, set') /\ valid set' /\
    dom (model set') = (gset_run ops (dom (model set))).2 /\ marked (model set').
Proof.
  intros Hmem. revert set n. induction ops as [|op ops IH]; intros set n Hw Hm Hn; cbn [hashset_run gset_run].
  - exists set. split_and!; try done. apply Hw.
  - rewrite zlen_cons in Hn. destruct (step_refines alloc_ok strdup_ok (table_op_of op) set n Hmem Hw) as (s1 & E1 & Hw1 & M1).
    { pose proof (zlen_nonneg ops). lia. } { by destruct op. }
    rewrite (hashset_step_table _ _ _ _ E1). cbn [obind]. pose proof (gset_step_map op (model set) Hm) as G.
    destruct (map_step (table_op_of op) (model set)) as [o m']. cbn [fst snd] in *. destruct G as [Hm' G]. rewrite G.
    destruct (IH s1 (n + 1) Hw1) as (s2 & -> & Hv2 & D2 & Hm2); [by rewrite M1|lia|]. cbn [obind]. exists s2.
    rewrite M1 in D2 |- *. destruct (gset_run ops (dom m')) as [os s'']. done.
Qed.

(** With memory available, any sequence of up to 42949672 additions, removals, membership
    tests and size queries on a hash set that starts as NULL gives exactly the results of a finite
    set, and iterating over the final set visits each member once. *)
Theorem hashset_refines_set ops :
  ~ lacks_memory alloc_ok strdup_ok -> zlen ops <= MAX_LEN ->
  exists set, hashset_run ops None = Ok ((gset_run ops ∅).1, set) /\
    exists l, iterate (S (match set with Some t => ht_cap t | None => O end)) (dicey_hashset_iter_start set) = Ok l /\
      l.*1 ≡ₚ elements (gset_run ops ∅).2.
Proof.
  intros Hmem Hl. destruct (hashset_run_refines ops None 0 Hmem) as (set & E & Hv & D & _); [by split_and!|by intros k v|lia|].
  change (dom (model None)) with (∅ : gset cstr) in *. exists set. split; [done|].
  destruct (iteration_lemma set Hv) as (l & El & Hp). exists l. split; [done|].
  rewrite Hp, <- D. apply NoDup_Permutation.
  - apply NoDup_fst_map_to_list.
  - apply NoDup_elements.
  - intros k. rewrite elem_of_elements, elem_of_dom, list_elem_of_fmap. split.
    + intros ([k' v] & -> & H%elem_of_map_to_list). by exists v.
    + intros [v H]. exists (k, v). split; [done|]. by apply elem_of_map_to_list.
Qed.

End hashset.

Lemma hashset_refines_set_witness :
  exists set, hashset_run (fun _ => true) (fun _ => true) [SetAdd [97]; SetAdd [98]; SetAdd [97]; SetRemove [98]; SetContains [97]; SetSize] None =
      Ok ([ObsAdded DICEY_HASH_SET_ADDED; ObsAdded DICEY_HASH_SET_ADDED; ObsAdded DICEY_HASH_SET_UPDATED; ObsTest true; ObsTest true; ObsCount 1], set) /\
    exists l, iterate (S (match set with Some t => ht_cap t | None => O end)) (dicey_hashset_iter_start set) = Ok l /\ l.*1 ≡ₚ [[97]].
Proof.
  apply (hashset_refines_set (fun _ => true) (fun _ => true) [SetAdd [97]; SetAdd [98]; SetAdd [97]; SetRemove [98]; SetContains [97]; SetSize]).
  - intros [[n Hn]|[k Hk]]; discriminate.
  - vm_compute. discriminate.
Defined.
