(* ===== verification/Queue.v ===== *)
(** * The request queue (src/ipc/queue.c)

    A circular buffer of 128 slots protected by a mutex and a condition variable. A call is a
    sequence of critical sections, separated by waits on the condition variable: the local
    variables of a thread survive a wait, the queue may have changed. The threads are modelled by
    a schedule of events, so that every interleaving of the sections is a list of events.

    With one producer the queue is a bounded FIFO under every schedule. With two producers that
    wait for room, a request is lost. *)

From S2P Require Import Prelude Errors Types.

(** Indices are never negative, so they are natural numbers. *)
Definition REQUEST_QUEUE_CAP : nat := 128.

Inductive dicey_locking_policy : Type :=
  | DICEY_LOCKING_POLICY_BLOCKING
  | DICEY_LOCKING_POLICY_NONBLOCKING.

(** What a critical section does: complete the call, give up, or wait for a signal. *)
Inductive progress (A : Type) : Type :=
  | Done (a : A)
  | GaveUp
  | Waits.
Arguments Done {A} a.
Arguments GaveUp {A}.
Arguments Waits {A}.

Section queue.
Context {V : Type}.

(** [None] is a NULL slot. *)
Record dicey_queue : Type := mk_queue { q_data : list (option V); q_head : nat; q_tail : nat }.

(** The results of [uv_mutex_init] and [uv_cond_init] are arguments; negative ones are errors. *)
Definition dicey_queue_init (mutex_err cond_err : Z) : Z + dicey_queue :=
  if mutex_err <? 0 then inl mutex_err
  else if cond_err <? 0 then inl cond_err
  else inr (mk_queue (replicate REQUEST_QUEUE_CAP None) 0 0).

(** The body of [dicey_queue_pop] from locking the mutex to unlocking it or waiting. *)
Definition dicey_queue_pop (policy : dicey_locking_policy) (queue : dicey_queue)
    : res (progress (option V) * dicey_queue) :=
  if bool_decide (q_head queue = q_tail queue) then
    match policy with
    | DICEY_LOCKING_POLICY_NONBLOCKING => Ok (GaveUp, queue)
    | DICEY_LOCKING_POLICY_BLOCKING => Ok (Waits, queue)
    end
  else
    match q_data queue !! q_head queue with
    | None => Fault OutOfBounds
    | Some val =>
        Ok (Done val, mk_queue (<[q_head queue := None]> (q_data queue))
                        ((q_head queue + 1) mod REQUEST_QUEUE_CAP) (q_tail queue))
    end.

Definition push_new_tail (queue : dicey_queue) : nat := (q_tail queue + 1) mod REQUEST_QUEUE_CAP.

(** One turn of the loop of [dicey_queue_push], with the [new_tail] computed when the call began,
    and the store when there is room. *)
Definition push_section (policy : dicey_locking_policy) (new_tail : nat) (req : V) (queue : dicey_queue)
    : res (progress unit * dicey_queue) :=
  if bool_decide (new_tail = q_head queue) then
    match policy with
    | DICEY_LOCKING_POLICY_NONBLOCKING => Ok (GaveUp, queue)
    | DICEY_LOCKING_POLICY_BLOCKING => Ok (Waits, queue)
    end
  else
    match q_data queue !! q_tail queue with
    | None => Fault OutOfBounds
    | Some (Some _) => Fault AssertFailed
    | Some None =>
        Ok (Done tt, mk_queue (<[q_tail queue := Some req]> (q_data queue)) (q_head queue) new_tail)
    end.

(** The first section of [dicey_queue_push]. *)
Definition dicey_queue_push (policy : dicey_locking_policy) (req : V) (queue : dicey_queue)
    : res (progress unit * dicey_queue) :=
  push_section policy (push_new_tail queue) req queue.

Definition dicey_queue_size (queue : dicey_queue) : nat :=
  (q_tail queue + REQUEST_QUEUE_CAP - q_head queue) mod REQUEST_QUEUE_CAP.

(** The values given to [free_data], in order. *)
Fixpoint deinit_loop (fuel : nat) (queue : dicey_queue) (i : nat) : res (list (option V)) :=
  match fuel with
  | O => OutOfFuel
  | S fuel' =>
      if bool_decide (i = q_tail queue) then Ok []
      else
        match q_data queue !! i with
        | None => Fault OutOfBounds
        | Some v => let! l := deinit_loop fuel' queue ((i + 1) mod REQUEST_QUEUE_CAP) in Ok (v :: l)
        end
  end.

Definition dicey_queue_deinit (queue : dicey_queue) : res (list (option V)) :=
  deinit_loop (S REQUEST_QUEUE_CAP) queue (q_head queue).

(** ** Threads *)

(** A producer is between calls, or waits inside a push. *)
Inductive producer : Type :=
  | Idle
  | Waiting (req : V) (new_tail : nat).

(** The queue, the producers, and what the completed calls pushed and popped, in order. *)
Record system : Type := mk_system {
  s_queue : dicey_queue; s_producers : list producer; s_pushed : list V; s_popped : list (option V);
}.

Inductive event : Type :=
  | EvPush (thread : nat) (policy : dicey_locking_policy) (req : V)
  | EvResume (thread : nat)
  | EvPop.

Definition push_event (s : system) (thread : nat) (policy : dicey_locking_policy) (new_tail : nat) (req : V)
    : res system :=
  let! (p, queue) := push_section policy new_tail req (s_queue s) in
  match p with
  | Done _ => Ok (mk_system queue (<[thread := Idle]> (s_producers s)) (s_pushed s ++ [req]) (s_popped s))
  | GaveUp => Ok (mk_system queue (<[thread := Idle]> (s_producers s)) (s_pushed s) (s_popped s))
  | Waits => Ok (mk_system queue (<[thread := Waiting req new_tail]> (s_producers s)) (s_pushed s) (s_popped s))
  end.

(** An event that the state of its thread does not allow does nothing. *)
Definition exec (e : event) (s : system) : res system :=
  match e with
  | EvPush thread policy req =>
      match s_producers s !! thread with
      | Some Idle => push_event s thread policy (push_new_tail (s_queue s)) req
      | _ => Ok s
      end
  | EvResume thread =>
      match s_producers s !! thread with
      | Some (Waiting req new_tail) => push_event s thread DICEY_LOCKING_POLICY_BLOCKING new_tail req
      | _ => Ok s
      end
  | EvPop =>
      let! (p, queue) := dicey_queue_pop DICEY_LOCKING_POLICY_NONBLOCKING (s_queue s) in
      match p with
      | Done v => Ok (mk_system queue (s_producers s) (s_pushed s) (s_popped s ++ [v]))
      | _ => Ok s
      end
  end.

Fixpoint run (es : list event) (s : system) : res system :=
  match es with
  | [] => Ok s
  | e :: es' => let! s' := exec e s in run es' s'
  end.

Definition empty_queue : dicey_queue := mk_queue (replicate REQUEST_QUEUE_CAP None) 0 0.

Definition start (producers : nat) : system := mk_system empty_queue (replicate producers Idle) [] [].

(** ** The abstraction: a list *)

(** The slots from the head on hold the elements, the others are NULL. *)
Definition rep (q : dicey_queue) (l : list V) : Prop :=
  length (q_data q) = REQUEST_QUEUE_CAP /\ (q_head q < REQUEST_QUEUE_CAP)%nat /\ (length l < REQUEST_QUEUE_CAP)%nat /\
  q_tail q = ((q_head q + length l) mod REQUEST_QUEUE_CAP)%nat /\
  forall i, (i < REQUEST_QUEUE_CAP)%nat -> q_data q !! ((q_head q + i) mod REQUEST_QUEUE_CAP)%nat = Some (l !! i).

Lemma mod_cap a :
  (a < 2 * REQUEST_QUEUE_CAP)%nat ->
  (a < REQUEST_QUEUE_CAP /\ a mod REQUEST_QUEUE_CAP = a \/
   REQUEST_QUEUE_CAP <= a /\ a mod REQUEST_QUEUE_CAP = a - REQUEST_QUEUE_CAP)%nat.
Proof.
  intros H. destruct (Nat.lt_ge_cases a REQUEST_QUEUE_CAP) as [Ha|Ha].
  - left. split; [done|]. by apply Nat.mod_small.
  - right. split; [done|]. replace a with (a - REQUEST_QUEUE_CAP + 1 * REQUEST_QUEUE_CAP)%nat at 1 by lia.
    rewrite Nat.Div0.mod_add. apply Nat.mod_small. lia.
Qed.

(** Distinct offsets from the head are distinct slots. *)
Lemma slot_inj h i j :
  (h < REQUEST_QUEUE_CAP)%nat -> (i < REQUEST_QUEUE_CAP)%nat -> (j < REQUEST_QUEUE_CAP)%nat ->
  ((h + i) mod REQUEST_QUEUE_CAP = (h + j) mod REQUEST_QUEUE_CAP)%nat -> i = j.
Proof.
  intros Hh Hi Hj. destruct (mod_cap (h + i)) as [[? ->]|[? ->]]; [lia| |]; destruct (mod_cap (h + j)) as [[? ->]|[? ->]]; lia.
Qed.

Lemma slot_succ h i : ((((h + i) mod REQUEST_QUEUE_CAP) + 1) mod REQUEST_QUEUE_CAP = (h + S i) mod REQUEST_QUEUE_CAP)%nat.
Proof. rewrite Nat.Div0.add_mod_idemp_l. f_equal. lia. Qed.

Lemma rep_empty : rep empty_queue [].
Proof.
  split_and!; try done; cbn [empty_queue q_data q_head q_tail]; try (unfold REQUEST_QUEUE_CAP; cbn; lia).
  intros i Hi. rewrite lookup_nil. apply lookup_replicate_2. apply Nat.mod_upper_bound. done.
Qed.

(** [new_tail] meets the head exactly when 127 elements are stored. *)
Lemma rep_full q l : rep q l -> (push_new_tail q = q_head q <-> length l = (REQUEST_QUEUE_CAP - 1)%nat).
Proof.
  intros (_ & Hh & Hl & Ht & _). unfold push_new_tail. rewrite Ht, slot_succ. split.
  - intros E. destruct (Nat.eq_dec (S (length l)) REQUEST_QUEUE_CAP) as [Ee|Ee]; [lia|].
    assert (S (length l) = 0%nat) as H0; [|done]. apply (slot_inj (q_head q)); [done|lia|unfold REQUEST_QUEUE_CAP; lia|].
    rewrite E, Nat.add_0_r. by rewrite Nat.mod_small.
  - intros E. replace (S (length l)) with REQUEST_QUEUE_CAP by (rewrite E; unfold REQUEST_QUEUE_CAP; lia).
    replace (q_head q + REQUEST_QUEUE_CAP)%nat with (q_head q + 1 * REQUEST_QUEUE_CAP)%nat by lia.
    rewrite Nat.Div0.mod_add. by apply Nat.mod_small.
Qed.

Lemma push_section_rep policy req q l :
  rep q l ->
  if decide (length l = (REQUEST_QUEUE_CAP - 1)%nat)
  then push_section policy (push_new_tail q) req q =
         Ok (match policy with DICEY_LOCKING_POLICY_BLOCKING => Waits | _ => GaveUp end, q)
  else exists q', push_section policy (push_new_tail q) req q = Ok (Done tt, q') /\ rep q' (l ++ [req]).
Proof.
  intros Hr. pose proof (rep_full q l Hr) as Hf. unfold push_section.
  destruct (decide (length l = (REQUEST_QUEUE_CAP - 1)%nat)) as [Hfull|Hfull].
  { rewrite bool_decide_true by tauto. by destruct policy. }
  rewrite bool_decide_false by tauto. destruct Hr as (Hd & Hh & Hl & Ht & Hs).
  assert (q_data q !! q_tail q = Some None) as -> by (rewrite Ht, Hs by done; by rewrite lookup_ge_None_2).
  eexists. split; [done|]. split_and!; cbn [q_data q_head q_tail].
  - by rewrite length_insert.
  - done.
  - rewrite length_app. cbn. lia.
  - unfold push_new_tail. rewrite Ht, slot_succ, length_app. cbn [length]. by rewrite Nat.add_1_r.
  - intros i Hi. destruct (decide (i = length l)) as [->|Hne].
    + rewrite Ht, list_lookup_insert_eq by (rewrite Hd; by apply Nat.mod_upper_bound).
      by rewrite lookup_app_r, Nat.sub_diag by done.
    + rewrite list_lookup_insert_ne by (rewrite Ht; intros E; apply Hne; symmetry; by apply (slot_inj (q_head q))).
      rewrite Hs by done. f_equal. destruct (Nat.lt_ge_cases i (length l)).
      * by rewrite lookup_app_l.
      * rewrite lookup_ge_None_2 by done. symmetry. apply lookup_ge_None_2. rewrite length_app. cbn. lia.
Qed.

Lemma pop_rep policy q l :
  rep q l ->
  match l with
  | [] => dicey_queue_pop policy q = Ok (match policy with DICEY_LOCKING_POLICY_BLOCKING => Waits | _ => GaveUp end, q)
  | v :: l' => exists q', dicey_queue_pop policy q = Ok (Done (Some v), q') /\ rep q' l'
  end.
Proof.
  intros (Hd & Hh & Hl & Ht & Hs). unfold dicey_queue_pop. destruct l as [|v l'].
  { rewrite bool_decide_true; [by destruct policy|]. rewrite Ht. cbn [length]. rewrite Nat.add_0_r. symmetry. by apply Nat.mod_small. }
  assert (q_data q !! q_head q = Some (Some v)) as E0.
  { specialize (Hs 0%nat ltac:(unfold REQUEST_QUEUE_CAP; lia)). rewrite Nat.add_0_r, Nat.mod_small in Hs by done. done. }
  rewrite bool_decide_false.
  2:{ intros E. assert (length (v :: l') = 0%nat) as H0; [|done]. apply (slot_inj (q_head q)); [done|done|unfold REQUEST_QUEUE_CAP; lia|].
      rewrite <- Ht, <- E, Nat.add_0_r. symmetry. by apply Nat.mod_small. }
  rewrite E0. eexists. split; [done|]. cbn [length] in *. split_and!; cbn [q_data q_head q_tail].
  - by rewrite length_insert.
  - by apply Nat.mod_upper_bound.
  - lia.
  - rewrite Ht, Nat.Div0.add_mod_idemp_l. f_equal. lia.
  - intros i Hi. rewrite Nat.Div0.add_mod_idemp_l. replace (q_head q + 1 + i)%nat with (q_head q + S i)%nat by lia.
    destruct (decide (S i = REQUEST_QUEUE_CAP)) as [Ee|Ee].
    + rewrite Ee. replace (q_head q + REQUEST_QUEUE_CAP)%nat with (q_head q + 1 * REQUEST_QUEUE_CAP)%nat by lia.
      rewrite Nat.Div0.mod_add, Nat.mod_small by done. rewrite list_lookup_insert_eq by lia.
      f_equal. symmetry. apply lookup_ge_None_2. lia.
    + rewrite list_lookup_insert_ne.
      * by rewrite Hs by lia.
      * intros E. assert (0%nat = S i) as H0; [|done]. apply (slot_inj (q_head q)); [done|unfold REQUEST_QUEUE_CAP; lia|lia|].
        rewrite Nat.add_0_r, <- E. by apply Nat.mod_small.
Qed.

Lemma size_rep q l : rep q l -> dicey_queue_size q = length l.
Proof.
  intros (_ & Hh & Hl & Ht & _). unfold dicey_queue_size. rewrite Ht.
  destruct (mod_cap (q_head q + length l)) as [[? ->]|[? ->]]; [lia| |].
  - replace (q_head q + length l + REQUEST_QUEUE_CAP - q_head q)%nat with (length l + 1 * REQUEST_QUEUE_CAP)%nat by lia.
    rewrite Nat.Div0.mod_add. by apply Nat.mod_small.
  - replace (q_head q + length l - REQUEST_QUEUE_CAP + REQUEST_QUEUE_CAP - q_head q)%nat with (length l) by lia.
    by apply Nat.mod_small.
Qed.

Lemma deinit_rep q l n :
  rep q l -> (n <= length l)%nat -> forall fuel, (length l - n < fuel)%nat ->
  deinit_loop fuel q ((q_head q + n) mod REQUEST_QUEUE_CAP) = Ok (Some <$> drop n l).
Proof.
  intros (Hd & Hh & Hl & Ht & Hs) Hn fuel. revert n Hn. induction fuel as [|fuel IH]; intros n Hn Hf; [lia|].
  cbn [deinit_loop]. destruct (decide (n = length l)) as [->|Hne].
  - rewrite bool_decide_true by done. by rewrite drop_all.
  - rewrite bool_decide_false by (rewrite Ht; intros E; apply Hne; apply (slot_inj (q_head q)); [done|lia|lia|done]).
    rewrite Hs by lia. destruct (lookup_lt_is_Some_2 l n) as [v Hv]; [lia|].
    rewrite slot_succ, IH by lia. cbn [obind]. rewrite Hv, (drop_S l v n Hv). done.
Qed.

Lemma deinit_all q l : rep q l -> dicey_queue_deinit q = Ok (Some <$> l).
Proof.
  intros Hr. unfold dicey_queue_deinit. pose proof (deinit_rep _ _ 0 Hr ltac:(lia) (S REQUEST_QUEUE_CAP)) as H.
  destruct Hr as (_ & Hh & Hl & _). rewrite Nat.add_0_r, Nat.mod_small in H by done. by rewrite H by lia.
Qed.

(** ** One producer *)

(** The producer waits with the [new_tail] of the current queue. *)
Definition fresh_tail (s : system) : Prop :=
  s_producers s = [Idle] \/ exists req, s_producers s = [Waiting req (push_new_tail (s_queue s))].

Definition fifo (s : system) (l : list V) : Prop :=
  rep (s_queue s) l /\ Some <$> s_pushed s = s_popped s ++ (Some <$> l) /\ fresh_tail s.

Lemma push_event_fifo s l policy req :
  fifo s l ->
  exists s' l', push_event s 0 policy (push_new_tail (s_queue s)) req = Ok s' /\ fifo s' l' /\
    ((length l < REQUEST_QUEUE_CAP - 1)%nat -> s_producers s' = [Idle] /\ s_pushed s' = s_pushed s ++ [req]).
Proof.
  intros (Hr & Hp & Hf). pose proof (push_section_rep policy req (s_queue s) l Hr) as H. unfold push_event.
  assert (forall p, <[0%nat := p]> (s_producers s) = [p]) as Hins by (intros p; by destruct Hf as [->|[r ->]]).
  destruct (decide (length l = (REQUEST_QUEUE_CAP - 1)%nat)) as [Hfull|Hfull].
  - rewrite H. cbn [obind]. destruct policy; eexists _, l; (split; [done|]); (split; [|lia]);
      (split_and!; [done|done|]); unfold fresh_tail; cbn; rewrite Hins; eauto.
  - destruct H as (q' & -> & Hr'). cbn [obind]. eexists _, (l ++ [req]). split; [done|]. split.
    + split_and!; [done| |left; by rewrite <- Hins]. cbn. by rewrite !fmap_app, Hp, app_assoc.
    + intros _. cbn. by rewrite Hins.
Qed.

Lemma exec_fifo e s l : fifo s l -> exists s' l', exec e s = Ok s' /\ fifo s' l'.
Proof.
  intros Hs. pose proof Hs as (Hr & Hp & Hf). destruct e as [[|t] policy req|[|t]|]; cbn [exec].
  - destruct Hf as [E|[r E]]; rewrite E; cbn; [|by exists s, l].
    destruct (push_event_fifo s l policy req Hs) as (s' & l' & H & Hf & _). eauto.
  - destruct Hf as [E|[r E]]; rewrite E; by exists s, l.
  - destruct Hf as [E|[r E]]; rewrite E; cbn; [by exists s, l|].
    destruct (push_event_fifo s l DICEY_LOCKING_POLICY_BLOCKING r Hs) as (s' & l' & H & Hf & _). eauto.
  - destruct Hf as [E|[r E]]; rewrite E; by exists s, l.
  - pose proof (pop_rep DICEY_LOCKING_POLICY_NONBLOCKING (s_queue s) l Hr) as H. destruct l as [|v l'].
    + rewrite H. by exists s, [].
    + unfold dicey_queue_pop in *. destruct (bool_decide _); [by destruct H as (? & ? & _)|].
      destruct (q_data (s_queue s) !! q_head (s_queue s)) as [v'|]; [|by destruct H as (? & ? & _)].
      destruct H as (q' & [= -> <-] & Hr'). cbn [obind]. eexists _, l'. split; [done|].
      split_and!; [done|cbn in *; by rewrite Hp, <- app_assoc|]. destruct Hf as [E|[r E]]; [by left|]. right. exists r. done.
Qed.

Lemma run_fifo es s l : fifo s l -> exists s' l', run es s = Ok s' /\ fifo s' l'.
Proof.
  revert s l. induction es as [|e es IH]; intros s l Hs; [by exists s, l|]. cbn [run].
  destruct (exec_fifo e s l Hs) as (s' & l' & -> & Hs'). cbn [obind]. by apply (IH s' l').
Qed.

(** C27: under every schedule of one producer and any consumers, with blocking and non-blocking
    calls in any order, no assertion fails and the queue is a FIFO: the values popped followed by
    the values still stored are the values pushed. The size is the number of stored values,
    [dicey_queue_deinit] releases exactly those, and a producer that waits completes its push as
    soon as it runs after there is room. *)
Theorem queue_fifo_one_producer es :
  exists s l, run es (start 1) = Ok s /\ rep (s_queue s) l /\ Some <$> s_pushed s = s_popped s ++ (Some <$> l) /\
    dicey_queue_size (s_queue s) = length l /\ dicey_queue_deinit (s_queue s) = Ok (Some <$> l) /\
    forall req new_tail, s_producers s = [Waiting req new_tail] -> (length l < REQUEST_QUEUE_CAP - 1)%nat ->
      exists s', exec (EvResume 0) s = Ok s' /\ s_producers s' = [Idle] /\ s_pushed s' = s_pushed s ++ [req].
Proof.
  destruct (run_fifo es (start 1) []) as (s & l & E & Hs).
  { split_and!; [apply rep_empty|done|by left]. }
  exists s, l. pose proof Hs as (Hr & Hp & Hf). split_and!; try done.
  - by apply size_rep.
  - by apply deinit_all.
  - intros req nt Hw Hl. cbn [exec]. rewrite Hw. destruct Hf as [Hi|[r Hi]]; rewrite Hw in Hi; [done|]. injection Hi as -> ->.
    destruct (push_event_fifo s l DICEY_LOCKING_POLICY_BLOCKING r Hs) as (s' & l' & H & _ & Hd).
    exists s'. split; [done|]. by apply Hd.
Qed.

End queue.

#[export] Instance dicey_queue_eq_dec {V} `{EqDecision V} : EqDecision (dicey_queue (V := V)).
Proof. solve_decision. Defined.

(** ** Two producers *)

Definition block (t v : nat) : event := EvPush t DICEY_LOCKING_POLICY_BLOCKING v.

(** Two producers find the queue full and wait; one element is popped; both are woken. *)
Definition crossing_schedule : list event :=
  (block 0 <$> seq 0 127) ++ [block 0 127; block 1 128; EvPop; EvResume 0; EvResume 1].

(** With two producers that wait for room a request is lost. Both pushes report success, but
    the second one keeps the tail it computed before waiting: its value is never popped, the
    queue looks empty once the others are, and the next push fails an assertion. *)
Theorem queue_two_producers_lose_request :
  exists s s', run crossing_schedule (start 2) = Ok s /\ s_producers s = [Idle; Idle] /\ In 128%nat (s_pushed s) /\
    run (replicate 127 EvPop) s = Ok s' /\ ~ In (Some 128%nat) (s_popped s') /\ dicey_queue_size (s_queue s') = 0%nat /\
    dicey_queue_pop DICEY_LOCKING_POLICY_BLOCKING (s_queue s') = Ok (Waits, s_queue s') /\
    forall v, dicey_queue_push DICEY_LOCKING_POLICY_BLOCKING v (s_queue s') = Fault AssertFailed.
Proof.
  do 2 eexists. split; [vm_compute; reflexivity|]. split; [reflexivity|]. split; [vm_compute; tauto|].
  split; [vm_compute; reflexivity|]. split.
  - apply (bool_decide_unpack (~ In (Some 128%nat) _)). vm_compute. exact I.
  - split; [vm_compute; reflexivity|]. split; [vm_compute; reflexivity|]. intros v. vm_compute. reflexivity.
Qed.
