(* ===== verification/TaskList.v ===== *)
(** * The list of pending tasks (src/ipc/tasks/list.c)

    A growable array of tasks with increasing identifiers and deadlines on the monotonic clock.
    The clock is read through libuv: the time it returns is an argument. *)

From S2P Require Import Prelude Errors Types Views.

Definition BASE_CAP : Z := 128.
Definition WAIT_FOREVER : Z := -1.
Definition INT64_MAX : Z := 9223372036854775807.

(** [uv_timespec64_t] *)
Record timespec : Type := mk_timespec { tv_sec : Z; tv_nsec : Z }.

Definition FOREVER_TIME : timespec := mk_timespec 0 0.

(** Conversion to [int32_t]. *)
Definition i32 (z : Z) : Z := to_signed 32 (u32 z).

(** The new value of [*a] and the result. *)
Definition add_wrapping (a b max : Z) : Z * Z :=
  let a_quot := Z.quot a max in
  let a_rem := Z.rem a max in
  let b_quot := Z.quot b max in
  let b_rem := Z.rem b max in
  (Z.rem (i32 (a_rem + b_rem)) max, i32 (a_quot + b_quot)).

Definition now_plus (now : timespec) (ms : Z) : timespec :=
  let nsec := i32 (Z.rem ms 1000 * 1000000) in
  let '(tv_nsec', carry) := add_wrapping (tv_nsec now) nsec 1000000000 in
  let sec := i32 (Z.quot ms 1000 + carry) in
  mk_timespec (tv_sec now + sec) tv_nsec'.

Definition is_wait_forever (ts : timespec) : bool := (tv_sec ts =? 0) && (tv_nsec ts =? 0).

Definition b2z (b : bool) : Z := if b then 1 else 0.

Definition timespec_cmp (a b : timespec) : Z :=
  let sec_cmp := b2z (tv_sec b <? tv_sec a) - b2z (tv_sec a <? tv_sec b) in
  if negb (sec_cmp =? 0) then sec_cmp else b2z (tv_nsec b <? tv_nsec a) - b2z (tv_nsec a <? tv_nsec b).

Section list.
Context {D : Type}.

Record dicey_task_entry : Type := mk_task { task_id : Z; expires_at : timespec; task_data : D }.

(** [len] is the length of [waiting]; the cells after it are not initialised. *)
Record dicey_task_list : Type := mk_task_list { next_id : Z; tl_cap : Z; waiting : list dicey_task_entry }.

(** The pointer to the list: NULL, a list, or memory that was freed and is still pointed to. *)
Inductive list_ptr : Type :=
  | NoList
  | AList (list : dicey_task_list)
  | FreedList.

Variable alloc_ok : Z -> bool.

Definition task_list_erase_at (list : dicey_task_list) (entry : nat) : dicey_task_list :=
  if bool_decide (length (waiting list) <= entry)%nat then list
  else mk_task_list (next_id list) (tl_cap list) (take entry (waiting list) ++ drop (S entry) (waiting list)).

Fixpoint find_index (entries : list dicey_task_entry) (id : Z) : option nat :=
  match entries with
  | [] => None
  | e :: entries' => if task_id e =? id then Some O else option_map S (find_index entries' id)
  end.

(** [None] stands for -1. *)
Definition task_list_find_index (list : dicey_task_list) (id : Z) : option nat := find_index (waiting list) id.

(** Whether there is room, and the pointer afterwards. *)
Definition task_list_grow_if_needed (ptr : list_ptr) : res (bool * list_ptr) :=
  match ptr with
  | FreedList => Fault UseAfterFree
  | _ =>
      let len := match ptr with AList l => zlen (waiting l) | _ => 0 end in
      let old_cap := match ptr with AList l => tl_cap l | _ => 0 end in
      if INT64_MAX <? len then Ok (false, ptr)
      else if len <? old_cap then Ok (true, ptr)
      else
        let new_cap := if negb (old_cap =? 0) then u64 (old_cap * 3) / 2 else BASE_CAP in
        if new_cap <? old_cap then Ok (false, ptr)
        else if alloc_ok new_cap then
          match ptr with
          | AList l => Ok (true, AList (mk_task_list (next_id l) new_cap (waiting l)))
          | _ => Ok (true, AList (mk_task_list 0 new_cap []))
          end
        else
          (* free( *list_ptr): the pointer itself is not reset *)
          Ok (false, match ptr with AList _ => FreedList | _ => NoList end)
  end.

(** The identifier, -1 on failure. *)
Definition dicey_task_list_append (now : timespec) (ptr : list_ptr) (entry_data : D) (delay_ms : Z)
    : res (Z * list_ptr) :=
  let! (ok, ptr') := task_list_grow_if_needed ptr in
  if negb ok then Ok (-1, ptr') else
  match ptr' with
  | AList list =>
      let id := next_id list in
      let expires := if delay_ms =? WAIT_FOREVER then FOREVER_TIME else now_plus now delay_ms in
      Ok (id, AList (mk_task_list (id + 1) (tl_cap list) (waiting list ++ [mk_task id expires entry_data])))
  | NoList => Fault NullDeref
  | FreedList => Fault UseAfterFree
  end.

(** [assert(list)], then the list. *)
Definition the_list (ptr : list_ptr) : res dicey_task_list :=
  match ptr with NoList => Fault AssertFailed | AList l => Ok l | FreedList => Fault UseAfterFree end.

Definition dicey_task_list_erase (ptr : list_ptr) (id : Z) : res (bool * list_ptr) :=
  let! list := the_list ptr in
  match task_list_find_index list id with
  | None => Ok (false, ptr)
  | Some index => Ok (true, AList (task_list_erase_at list index))
  end.

Definition dicey_task_list_find (ptr : list_ptr) (id : Z) : res (option dicey_task_entry) :=
  let! list := the_list ptr in
  Ok (match task_list_find_index list id with Some index => waiting list !! index | None => None end).

(** From [dicey_task_list_begin] to [dicey_task_list_end]. *)
Definition dicey_task_list_entries (ptr : list_ptr) : res (list dicey_task_entry) :=
  match ptr with NoList => Ok [] | AList l => Ok (waiting l) | FreedList => Fault UseAfterFree end.

Definition expired (now : timespec) (e : dicey_task_entry) : bool :=
  negb (is_wait_forever (expires_at e)) && (timespec_cmp (expires_at e) now <? 0).

Section prune.
Context {S : Type}.

(** The callback runs on a state that holds the list (the context the caller passes). *)
Variable list_of : S -> list_ptr.
Variable with_list : list_ptr -> S -> S.
Variable expired_cb : Z -> D -> S -> res S.

(** The loop of [dicey_task_list_prune]: it stops after the first expired task. *)
Fixpoint prune_from (now : timespec) (fuel index : nat) (s : S) : res S :=
  match fuel with
  | O => OutOfFuel
  | Datatypes.S fuel' =>
      match list_of s with
      | AList list =>
          match waiting list !! index with
          | None => Ok s
          | Some item =>
              if expired now item then
                let! s' := expired_cb (task_id item) (task_data item) s in
                match list_of s' with
                | AList list' => Ok (with_list (AList (task_list_erase_at list' index)) s')
                | _ => Fault UseAfterFree
                end
              else prune_from now fuel' (Datatypes.S index) s
          end
      | NoList => Ok s
      | FreedList => Fault UseAfterFree
      end
  end.

Definition dicey_task_list_prune (now : timespec) (s : S) : res S :=
  prune_from now (Datatypes.S (match list_of s with AList l => length (waiting l) | _ => O end)) 0 s.

End prune.

(** ** Well-formed lists *)

(** Identifiers increase along the list and are below the next one. *)
Record tl_wf (l : dicey_task_list) : Prop := {
  wf_ids : forall i j a b, (i < j)%nat -> waiting l !! i = Some a -> waiting l !! j = Some b -> task_id a < task_id b;
  wf_next : forall i a, waiting l !! i = Some a -> 0 <= task_id a < next_id l;
  wf_next_pos : 0 <= next_id l;
  wf_cap : zlen (waiting l) <= tl_cap l;
}.

Lemma find_index_spec entries i e :
  (forall i j a b, (i < j)%nat -> entries !! i = Some a -> entries !! j = Some b -> task_id a < task_id b) ->
  entries !! i = Some e -> find_index entries (task_id e) = Some i.
Proof.
  revert i. induction entries as [|x entries IH]; intros [|i] Hs Hi; try done; cbn in Hi |- *.
  - injection Hi as ->. by rewrite Z.eqb_refl.
  - pose proof (Hs 0%nat (S i) x e ltac:(lia) eq_refl Hi). destruct (Z.eqb_spec (task_id x) (task_id e)); [lia|].
    rewrite (IH i); [done| |done]. intros a b y z Hab Ha Hb. by apply (Hs (S a) (S b)); [lia| |].
Qed.

Lemma find_index_none entries id : (forall i a, entries !! i = Some a -> task_id a <> id) -> find_index entries id = None.
Proof.
  induction entries as [|x entries IH]; intros H; cbn; [done|]. destruct (Z.eqb_spec (task_id x) id) as [E|E].
  - by destruct (H 0%nat x).
  - rewrite IH; [done|]. intros i a Ha. by apply (H (S i)).
Qed.

Lemma find_index_inv entries id i : find_index entries id = Some i -> exists e, entries !! i = Some e /\ task_id e = id.
Proof.
  revert i. induction entries as [|x entries IH]; intros i; cbn; [done|]. destruct (Z.eqb_spec (task_id x) id) as [E|E].
  - intros [= <-]. by exists x.
  - destruct (find_index entries id) as [j|]; [|done]. intros [= <-]. by apply IH.
Qed.

Lemma lookup_remove {A} (l : list A) i j x :
  (take i l ++ drop (S i) l) !! j = Some x -> exists k, l !! k = Some x /\ k = (if (j <? i)%nat then j else S j).
Proof.
  intros [H|[Hle H]]%lookup_app_Some.
  - pose proof (lookup_lt_Some _ _ _ H) as Hj. rewrite length_take in Hj. apply lookup_take_Some in H as [H Hlt]. exists j.
    destruct (Nat.ltb_spec j i); [done|lia].
  - rewrite lookup_drop in H. rewrite length_take in *. pose proof (lookup_lt_Some _ _ _ H).
    exists (S i + (j - i `min` length l))%nat. split; [done|]. destruct (Nat.ltb_spec j i); lia.
Qed.

Lemma erase_at_wf l i : tl_wf l -> tl_wf (task_list_erase_at l i).
Proof.
  intros W. unfold task_list_erase_at. destruct (bool_decide _) eqn:E; [done|]. apply bool_decide_eq_false in E.
  constructor; cbn [waiting next_id tl_cap].
  - intros a b x y Hab Ha Hb. apply lookup_remove in Ha as (ka & Ha & ->). apply lookup_remove in Hb as (kb & Hb & ->).
    eapply (wf_ids _ W); [|exact Ha|exact Hb]. destruct (Nat.ltb_spec a i), (Nat.ltb_spec b i); lia.
  - intros a x Ha. apply lookup_remove in Ha as (ka & Ha & ->). by eapply (wf_next _ W).
  - apply W.
  - pose proof (wf_cap _ W). unfold zlen in *. rewrite length_app, length_take, length_drop. lia.
Qed.

(** A pointer that the operations can use; sizes are far from the limits of [size_t]. *)
Definition ptr_ok (ptr : list_ptr) : Prop :=
  match ptr with
  | NoList => True
  | AList l => tl_wf l /\ BASE_CAP <= tl_cap l <= 2 ^ 62
  | FreedList => False
  end.

Definition entries_of (ptr : list_ptr) : list dicey_task_entry := match ptr with AList l => waiting l | _ => [] end.
Definition id_of (ptr : list_ptr) : Z := match ptr with AList l => next_id l | _ => 0 end.

Definition new_entry (now : timespec) (ptr : list_ptr) (data : D) (delay_ms : Z) : dicey_task_entry :=
  mk_task (id_of ptr) (if delay_ms =? WAIT_FOREVER then FOREVER_TIME else now_plus now delay_ms) data.

Lemma append_wf l e cap :
  tl_wf l -> task_id e = next_id l -> zlen (waiting l) + 1 <= cap ->
  tl_wf (mk_task_list (next_id l + 1) cap (waiting l ++ [e])).
Proof.
  intros W He Hc. assert (forall i x, (waiting l ++ [e]) !! i = Some x ->
    (waiting l !! i = Some x /\ (i < length (waiting l))%nat) \/ (i = length (waiting l) /\ x = e)) as Hcase.
  { intros i x [H|[Hge H]]%lookup_app_Some; [left; split; [done|by eapply lookup_lt_Some]|].
    right. destruct (i - length (waiting l))%nat as [|n] eqn:E; cbn in H; [injection H as <-; split; [lia|done]|done]. }
  pose proof (wf_next_pos _ W). constructor; cbn [waiting next_id tl_cap].
  - intros i j a b Hij [[Ha Hi]|[-> ->]]%Hcase [[Hb Hj]|[-> ->]]%Hcase; [by apply (wf_ids _ W i j)| |lia|lia].
    rewrite He. by eapply (wf_next _ W).
  - intros i a [[Ha Hi]|[-> ->]]%Hcase; [pose proof (wf_next _ W _ _ Ha); lia|lia].
  - lia.
  - rewrite zlen_app. change (zlen [e]) with 1. lia.
Qed.

Lemma append_lemma now ptr data delay_ms :
  ptr_ok ptr -> zlen (entries_of ptr) < 2 ^ 61 ->
  (exists l', dicey_task_list_append now ptr data delay_ms = Ok (id_of ptr, AList l') /\ tl_wf l' /\ BASE_CAP <= tl_cap l' <= 2 ^ 62 /\
     waiting l' = entries_of ptr ++ [new_entry now ptr data delay_ms] /\ next_id l' = id_of ptr + 1) \/
  (exists n, alloc_ok n = false) /\
  dicey_task_list_append now ptr data delay_ms = Ok (-1, match ptr with AList _ => FreedList | _ => NoList end).
Proof.
  intros Hp Hl. unfold dicey_task_list_append, task_list_grow_if_needed, new_entry. destruct ptr as [|l|]; [| |done]; cbn [entries_of id_of] in *.
  - change (INT64_MAX <? 0) with false. change (0 <? 0) with false. cbn. destruct (alloc_ok BASE_CAP) eqn:Ea; [left|right; eauto].
    eexists. split; [done|]. split_and!; try done. apply (append_wf (mk_task_list 0 BASE_CAP [])); [|done|done].
    constructor; cbn; try done; intros; by rewrite lookup_nil in *.
  - destruct Hp as [W Hc]. unfold BASE_CAP in Hc. destruct (Z.ltb_spec INT64_MAX (zlen (waiting l))); [unfold INT64_MAX in *; lia|].
    destruct (Z.ltb_spec (zlen (waiting l)) (tl_cap l)) as [Hlt|Hge].
    + left. cbn. eexists. split; [done|]. split_and!; try done; cbn [tl_cap]; unfold BASE_CAP; try lia. apply (append_wf l); [done|done|lia].
    + destruct (Z.eqb_spec (tl_cap l) 0); [lia|]. cbn [negb]. pose proof (wf_cap _ W).
      assert (u64 (tl_cap l * 3) = tl_cap l * 3) as -> by (apply Z.mod_small; lia).
      set (nc := tl_cap l * 3 / 2). assert (tl_cap l < nc <= 2 ^ 62) as Hn by (unfold nc, BASE_CAP in *; Z.to_euclidean_division_equations; lia).
      destruct (Z.ltb_spec nc (tl_cap l)); [lia|]. destruct (alloc_ok nc) eqn:Ea; [left|right; eauto].
      cbn [obind negb]. eexists. split; [done|]. split_and!; try done; cbn [tl_cap]; unfold BASE_CAP; try lia. apply (append_wf l); [done|done|lia].
Qed.

Lemma erase_lemma l id :
  tl_wf l ->
  (exists i e, waiting l !! i = Some e /\ task_id e = id /\
     dicey_task_list_find (AList l) id = Ok (Some e) /\
     dicey_task_list_erase (AList l) id = Ok (true, AList (task_list_erase_at l i)) /\
     waiting (task_list_erase_at l i) = take i (waiting l) ++ drop (S i) (waiting l)) \/
  ((forall i e, waiting l !! i = Some e -> task_id e <> id) /\
     dicey_task_list_find (AList l) id = Ok None /\ dicey_task_list_erase (AList l) id = Ok (false, AList l)).
Proof.
  intros W. unfold dicey_task_list_find, dicey_task_list_erase, task_list_find_index. cbn [the_list obind].
  destruct (find_index (waiting l) id) as [i|] eqn:E.
  - left. destruct (find_index_inv _ _ _ E) as (e & He & Hid). exists i, e. split_and!; try done; [by rewrite He|].
    unfold task_list_erase_at. rewrite bool_decide_false; [done|]. apply lookup_lt_Some in He. lia.
  - right. split_and!; try done. intros i e He Hid. subst id. by rewrite (find_index_spec _ i e (wf_ids _ W) He) in E.
Qed.

(** ** Properties *)

(** Appending gives a new identifier, larger than all the others, and puts the task at the end
    with its deadline; it fails only when memory is exhausted. A failure frees the whole list and
    leaves the caller's pointer to it, so that every later operation uses freed memory. *)
Theorem dicey_task_list_append_spec now ptr data delay_ms :
  ptr_ok ptr -> zlen (entries_of ptr) < 2 ^ 61 ->
  (exists ptr', dicey_task_list_append now ptr data delay_ms = Ok (id_of ptr, ptr') /\ ptr_ok ptr' /\
     entries_of ptr' = entries_of ptr ++ [new_entry now ptr data delay_ms] /\ id_of ptr < id_of ptr') \/
  (exists n, alloc_ok n = false) /\
  exists ptr', dicey_task_list_append now ptr data delay_ms = Ok (-1, ptr') /\
    (entries_of ptr <> [] -> forall id, dicey_task_list_find ptr' id = Fault UseAfterFree /\
      dicey_task_list_erase ptr' id = Fault UseAfterFree).
Proof.
  intros Hp Hl. destruct (append_lemma now ptr data delay_ms Hp Hl) as [(l' & E & W & Hc & Hw & Hn)|(Ha & E)].
  - left. exists (AList l'). split_and!; try done. cbn. lia.
  - right. split; [done|]. eexists. split; [exact E|]. intros Hne id. destruct ptr; done.
Qed.

(** Finding a task by its identifier returns it exactly when it is in the list; erasing it
    removes that task, keeps the order of the others and keeps the list well formed. *)
Theorem task_list_find_erase_correct l id :
  tl_wf l ->
  (exists before e after, waiting l = before ++ e :: after /\ task_id e = id /\ dicey_task_list_find (AList l) id = Ok (Some e) /\
     exists l', dicey_task_list_erase (AList l) id = Ok (true, AList l') /\ tl_wf l' /\ waiting l' = before ++ after) \/
  ((forall e, In e (waiting l) -> task_id e <> id) /\
     dicey_task_list_find (AList l) id = Ok None /\ dicey_task_list_erase (AList l) id = Ok (false, AList l)).
Proof.
  intros W. destruct (erase_lemma l id W) as [(i & e & He & Hid & Hf & Hx & Hw)|(Hno & Hf & Hx)].
  - left. exists (take i (waiting l)), e, (drop (S i) (waiting l)). split_and!; try done; [by rewrite take_drop_middle|].
    eexists. split; [exact Hx|]. split; [by apply erase_at_wf|done].
  - right. split_and!; try done. intros e He. apply list_elem_of_In, list_elem_of_lookup in He as [i Hi]. by apply (Hno i).
Qed.

End list.

Definition nanoseconds (t : timespec) : Z := tv_sec t * 1000000000 + tv_nsec t.

(** A deadline is the current time plus the delay, except that the carry of the nanoseconds
    into the seconds is lost: then the deadline is one second too early, and a delay of less than
    a second has already expired when it is set. *)
Theorem now_plus_loses_carry now ms :
  0 <= tv_nsec now < 1000000000 -> 0 <= ms < 2 ^ 31 ->
  let carry := 1000000000 <=? tv_nsec now + ms mod 1000 * 1000000 in
  nanoseconds (now_plus now ms) = nanoseconds now + ms * 1000000 - (if carry then 1000000000 else 0) /\
  (carry = true -> ms < 1000 -> timespec_cmp (now_plus now ms) now < 0).
Proof.
  intros Hn Hm carry. assert (forall z, - 2 ^ 31 <= z < 2 ^ 31 -> i32 z = z) as Hi.
  { intros z Hz. by apply (to_signed_mod 32). }
  pose proof (Z.mod_pos_bound ms 1000 ltac:(lia)) as Hr. change (2 ^ 31) with 2147483648 in *.
  unfold now_plus, add_wrapping. rewrite Z.rem_mod_nonneg, Z.quot_div_nonneg by lia. rewrite (Hi (ms mod 1000 * 1000000)) by lia.
  rewrite (Z.rem_small (tv_nsec now)), (Z.rem_small (ms mod 1000 * 1000000)), !Z.quot_small by lia.
  change (0 + 0) with 0. rewrite (Hi 0), (Hi (tv_nsec now + _)) by lia. rewrite Z.add_0_r.
  assert (0 <= ms / 1000 <= ms) as Hq by (Z.to_euclidean_division_equations; lia). rewrite Hi by lia.
  pose proof (Z.div_mod ms 1000 ltac:(lia)) as Hdm. unfold nanoseconds, carry. cbn [tv_sec tv_nsec].
  destruct (Z.leb_spec 1000000000 (tv_nsec now + ms mod 1000 * 1000000)) as [Hc|Hc].
  - assert (Z.rem (tv_nsec now + ms mod 1000 * 1000000) 1000000000 = tv_nsec now + ms mod 1000 * 1000000 - 1000000000) as ->.
    { rewrite Z.rem_mod_nonneg by lia. symmetry. apply (Z.mod_unique_pos _ _ 1); lia. }
    split; [lia|]. intros _ Hms. rewrite Z.div_small by lia. unfold timespec_cmp. cbn [tv_sec tv_nsec].
    rewrite Z.add_0_r, Z.ltb_irrefl. cbn. destruct (Z.ltb_spec (tv_nsec now) (tv_nsec now + ms mod 1000 * 1000000 - 1000000000)); [lia|].
    destruct (Z.ltb_spec (tv_nsec now + ms mod 1000 * 1000000 - 1000000000) (tv_nsec now)); [done|lia].
  - rewrite Z.rem_small by lia. split; [lia|done].
Qed.

Lemma now_plus_loses_carry_witness :
  timespec_cmp (now_plus (mk_timespec 10 700000000) 500) (mk_timespec 10 700000000) < 0.
Proof. apply now_plus_loses_carry; vm_compute; try (split; discriminate || reflexivity); reflexivity. Defined.

Lemma dicey_task_list_append_spec_witness :
  (exists ptr', dicey_task_list_append (fun _ => true) (mk_timespec 10 0) NoList 7%nat 1000 = Ok (0, ptr') /\ ptr_ok ptr' /\
     entries_of ptr' = [mk_task 0 (mk_timespec 11 0) 7%nat] /\ 0 < id_of ptr') \/
  (exists n : Z, true = false) /\ exists ptr', dicey_task_list_append (fun _ => true) (mk_timespec 10 0) NoList 7%nat 1000 = Ok (-1, ptr') /\
    (@nil (@dicey_task_entry nat) <> [] -> forall id, dicey_task_list_find ptr' id = Fault UseAfterFree /\ dicey_task_list_erase ptr' id = Fault UseAfterFree).
Proof. apply (dicey_task_list_append_spec (fun _ => true) (mk_timespec 10 0) NoList 7%nat 1000); [exact I|reflexivity]. Defined.

Lemma task_list_find_erase_correct_witness :
  let l := mk_task_list 3 128 [mk_task 0 FOREVER_TIME 5%nat; mk_task 2 FOREVER_TIME 6%nat] in
  exists l', dicey_task_list_erase (AList l) 0 = Ok (true, AList l') /\ waiting l' = [mk_task 2 FOREVER_TIME 6%nat].
Proof.
  intros l. assert (tl_wf l) as W.
  { constructor; cbn; try lia.
    - intros i j a b Hij Ha Hb. destruct i as [|[|i]], j as [|[|j]]; cbn in *; try lia; try discriminate; simplify_eq; cbn; lia.
    - intros i a Ha. destruct i as [|[|i]]; cbn in *; try discriminate; simplify_eq; cbn; lia.
    - vm_compute. discriminate. }
  destruct (task_list_find_erase_correct l 0 W) as [(b & e & a & Hw & Hid & _ & l' & Hx & _ & Hl')|(Hno & _)].
  - exists l'. split; [exact Hx|]. vm_compute in Hx. injection Hx as <-. reflexivity.
  - destruct (Hno (mk_task 0 FOREVER_TIME 5%nat)); [left; reflexivity|reflexivity].
Defined.
