(* ===== verification/TaskLoop.v ===== *)
(** * The task loop (src/ipc/tasks/loop.c)

    Tasks are sequences of work functions. A task is submitted through the queue, gets an entry in
    the list of pending tasks, and its steps run one after the other, some of them only when the
    loop is told to advance it; it ends when its steps are over, when one of them fails, when its
    deadline passes or when the loop is stopped. At its end its callback is called and it is freed.

    A task request is an object in a heap, named by its address, so that the pointers to it held by
    the queue and the list can dangle. Work functions and callbacks are arguments: they act on a
    state of their own, the world (what their contexts point to), and do not touch the loop. The
    calls of [at_end] are recorded. The threads and libuv handles around the callbacks are not part
    of the model.

    The invariant of the loop is proved for every world with an invariant of its own that the
    steps and callbacks keep; whether these may fail an assertion is a parameter too. The client
    (Client) is such a world. *)

From S2P Require Import Prelude Errors Types Views Queue TaskList.
From stdpp Require Import gmap list.

#[local] Open Scope Z_scope.

Section loop.
Context {I C W : Type}.
Variable alloc_ok : Z -> bool.

(** The error is a pointer: [None] when it could not be allocated. *)
Inductive dicey_task_result : Type :=
  | DICEY_TASK_CONTINUE
  | DICEY_TASK_NEXT
  | DICEY_TASK_ERROR (error : option dicey_error)
  | DICEY_TASK_RETRY.

(** A step gets the identifier of its task, the context and the input; a callback the identifier,
    the error and the context. *)
Definition work_fn : Type := Z -> C -> option I -> W -> res (dicey_task_result * W).
Definition at_end_fn : Type := Z -> option dicey_error -> C -> W -> res W.

(** [work] points into an array of functions that ends with NULL: the functions left. *)
Record dicey_task_request : Type := mk_task_request { work : list work_fn; at_end : at_end_fn; task_ctx : C; timeout_ms : Z }.

(** A call of [at_end]: the identifier, the task, the error. *)
Record ending : Type := mk_ending { end_id : Z; end_task : nat; end_error : option dicey_error }.

Record dicey_task_loop : Type := mk_loop {
  heap : gmap nat dicey_task_request;
  queue : dicey_queue (V := nat);
  pending_tasks : list_ptr (D := nat);
  ended : list ending;
  world : W;
}.

(** The callback of the loop at the end of every task. *)
Variable global_at_end : Z -> option dicey_error -> W -> res W.

Definition with_pending (ptr : list_ptr (D := nat)) (s : dicey_task_loop) : dicey_task_loop :=
  mk_loop (heap s) (queue s) ptr (ended s) (world s).

Definition with_world (w : W) (s : dicey_task_loop) : dicey_task_loop :=
  mk_loop (heap s) (queue s) (pending_tasks s) (ended s) w.

Definition the_task (s : dicey_task_loop) (task : nat) : res dicey_task_request :=
  match heap s !! task with Some r => Ok r | None => Fault UseAfterFree end.

(** The callbacks at the end of a task. *)
Definition call_at_end (r : dicey_task_request) (id : Z) (err : option dicey_error) (w : W) : res W :=
  let! w := global_at_end id err w in at_end r id err (task_ctx r) w.

Definition complete_task (id : Z) (task : nat) (err : option dicey_error) (s : dicey_task_loop) : res dicey_task_loop :=
  let! r := the_task s task in
  let! w := call_at_end r id err (world s) in
  let s := mk_loop (delete task (heap s)) (queue s) (pending_tasks s) (ended s ++ [mk_ending id task err]) w in
  let! (success, ptr) := dicey_task_list_erase (pending_tasks s) id in
  let! _ := oassert (success || (id <? 0)) in
  Ok (with_pending ptr s).

Definition fail_task (id : Z) (task : nat) (err : option dicey_error) (s : dicey_task_loop) : res dicey_task_loop :=
  let! _ := oassert (bool_decide (is_Some err)) in
  complete_task id task err s.

Definition set_work (task : nat) (ws : list work_fn) (s : dicey_task_loop) : res dicey_task_loop :=
  let! r := the_task s task in
  Ok (mk_loop (<[task := mk_task_request ws (at_end r) (task_ctx r) (timeout_ms r)]> (heap s)) (queue s) (pending_tasks s) (ended s) (world s)).

(** [step_task] with the functions left in [ws] and the context: whether the task is done. *)
Fixpoint step_from (ws : list work_fn) (id : Z) (task : nat) (ctx : C) (input : option I) (s : dicey_task_loop)
    : res (bool * dicey_task_loop) :=
  match ws with
  | [] => Fault AssertFailed
  | f :: ws' =>
      let! (result, w) := f id ctx input (world s) in
      let s := with_world w s in
      match result with
      | DICEY_TASK_CONTINUE =>
          let! s := set_work task ws' s in
          match ws' with
          | [] => let! s := complete_task id task None s in Ok (true, s)
          | _ => Ok (false, s)
          end
      | DICEY_TASK_NEXT =>
          let! s := set_work task ws' s in
          match ws' with
          | [] => Fault AssertFailed
          | _ => step_from ws' id task ctx None s
          end
      | DICEY_TASK_ERROR error => let! s := fail_task id task error s in Ok (true, s)
      | DICEY_TASK_RETRY => Ok (true, s)
      end
  end.

Definition step_task (id : Z) (task : nat) (input : option I) (s : dicey_task_loop) : res (bool * dicey_task_loop) :=
  let! r := the_task s task in step_from (work r) id task (task_ctx r) input s.

Definition start_task (id : Z) (task : nat) (s : dicey_task_loop) : res (bool * dicey_task_loop) :=
  step_task id task None s.

Definition erase_pending (id : Z) (s : dicey_task_loop) : res dicey_task_loop :=
  let! (_, ptr) := dicey_task_list_erase (pending_tasks s) id in Ok (with_pending ptr s).

(** One turn of [process_queue], for the task taken from the queue. *)
Definition process_one (now : timespec) (task : nat) (s : dicey_task_loop) : res dicey_task_loop :=
  let! req := the_task s task in
  let! _ := oassert (negb (bool_decide (length (work req) = 0%nat))) in
  let! (id, ptr) := dicey_task_list_append alloc_ok now (pending_tasks s) task (timeout_ms req) in
  let s := with_pending ptr s in
  if 0 <=? id then
    let! (done, s) := start_task id task s in
    if (done : bool) then erase_pending id s else Ok s
  else fail_task (-1) task (Some DICEY_ENOMEM) s.

Definition with_queue (q : dicey_queue (V := nat)) (s : dicey_task_loop) : dicey_task_loop :=
  mk_loop (heap s) q (pending_tasks s) (ended s) (world s).

Fixpoint process_loop (fuel : nat) (now : timespec) (s : dicey_task_loop) : res dicey_task_loop :=
  match fuel with
  | O => OutOfFuel
  | S fuel' =>
      let! (p, q) := dicey_queue_pop DICEY_LOCKING_POLICY_NONBLOCKING (queue s) in
      match p with
      | Done (Some task) => let! s := process_one now task (with_queue q s) in process_loop fuel' now s
      | Done None => Fault AssertFailed
      | _ => Ok s
      end
  end.

Definition process_queue (now : timespec) (s : dicey_task_loop) : res dicey_task_loop :=
  process_loop (S REQUEST_QUEUE_CAP) now s.

Definition task_timed_out (id : Z) (task : nat) (s : dicey_task_loop) : res dicey_task_loop :=
  fail_task id task (Some DICEY_ETIMEDOUT) s.

Definition check_timeout (now : timespec) (s : dicey_task_loop) : res dicey_task_loop :=
  dicey_task_list_prune pending_tasks with_pending task_timed_out now s.

Definition dicey_task_loop_advance (id : Z) (input : option I) (s : dicey_task_loop) : res dicey_task_loop :=
  let! entry := dicey_task_list_find (pending_tasks s) id in
  match entry with
  | None => Ok s
  | Some e =>
      let! (done, s) := step_task id (task_data e) input s in
      if (done : bool) then erase_pending id s else Ok s
  end.

Definition dicey_task_loop_fail_with (id : Z) (err : option dicey_error) (s : dicey_task_loop) : res dicey_task_loop :=
  let! entry := dicey_task_list_find (pending_tasks s) id in
  match entry with
  | None => Ok s
  | Some e => let! s := fail_task id (task_data e) err s in erase_pending id s
  end.

(** The loop of [cancel_all_pending] over the entries, from the last to the first. *)
Fixpoint cancel_from (k : nat) (err : option dicey_error) (s : dicey_task_loop) : res dicey_task_loop :=
  match k with
  | O => Ok s
  | S k' =>
      let! entries := dicey_task_list_entries (pending_tasks s) in
      match entries !! k' with
      | None => Fault OutOfBounds
      | Some e => let! s := complete_task (task_id e) (task_data e) err s in cancel_from k' err s
      end
  end.

(** [free_incoming_task] on the elements of the queue. *)
Fixpoint free_incoming (tasks : list (option nat)) (err : option dicey_error) (s : dicey_task_loop) : res dicey_task_loop :=
  match tasks with
  | [] => Ok s
  | None :: _ => Fault AssertFailed
  | Some task :: tasks' => let! s := complete_task (-1) task err s in free_incoming tasks' err s
  end.

Definition cancel_all_pending (err : option dicey_error) (s : dicey_task_loop) : res dicey_task_loop :=
  let! entries := dicey_task_list_entries (pending_tasks s) in
  let! s := cancel_from (length entries) err s in
  let s := with_pending (match pending_tasks s with NoList => NoList | _ => FreedList end) s in
  let! queued := dicey_queue_deinit (queue s) in
  free_incoming queued err s.

(** [dicey_task_loop_submit] on a running loop; the address is that of the new request. When the
    queue is full the caller waits: nothing happens yet. *)
Definition dicey_task_loop_submit (task : nat) (req : dicey_task_request) (s : dicey_task_loop) : res dicey_task_loop :=
  let! (p, q) := dicey_queue_push DICEY_LOCKING_POLICY_BLOCKING task (queue s) in
  match p with
  | Done _ => Ok (mk_loop (<[task := req]> (heap s)) q (pending_tasks s) (ended s) (world s))
  | _ => Ok s
  end.

(** ** Well-formed loops *)

(** An invariant of the world. It may mention the tasks submitted so far, the pending tasks, by identifier, and the queued ones;
    a task is known by its context and the number of steps left. And whether steps and callbacks may
    fail assertions of their own. *)
Variable world_ok : list nat -> list (Z * option (C * nat)) -> list (option (C * nat)) -> W -> Prop.
Variable aborts : Prop.

(** A run gives a result with a property, or fails an assertion where that is allowed. *)
Definition safe {A} (P : A -> Prop) (m : res A) : Prop :=
  match m with Ok a => P a | Fault AssertFailed => aborts | _ => False end.

Lemma safe_bind {A B} (P : A -> Prop) (Q : B -> Prop) m k :
  safe P m -> (forall a, P a -> safe Q (k a)) -> safe Q (obind m k).
Proof. destruct m as [a|e|[]|]; cbn; auto; tauto. Qed.

Lemma safe_mono {A} (P Q : A -> Prop) m : safe P m -> (forall a, P a -> Q a) -> safe Q m.
Proof. destruct m as [a|e|f|]; cbn; auto. Qed.

Lemma safe_ok {A} (P : A -> Prop) m : safe P m -> (exists a, m = Ok a /\ P a) \/ (m = Fault AssertFailed /\ aborts).
Proof. destruct m as [a|e|[]|]; cbn; try done; eauto. Qed.

(** Steps that keep to the documented protocol: the last one does not ask for a next one, an error
    is not NULL, and none asks for a retry. [n] steps are left afterwards. *)
Definition step_ok (ctx : C) (n : nat) (f : work_fn) : Prop := forall U b a Q id input w,
  world_ok U (b ++ (id, Some (ctx, S n)) :: a) Q w -> id ∉ (b ++ a).*1 ->
  safe (fun '(result, w') =>
    match result with
    | DICEY_TASK_CONTINUE => world_ok U (b ++ (id, Some (ctx, n)) :: a) Q w'
    | DICEY_TASK_NEXT => n <> O /\ world_ok U (b ++ (id, Some (ctx, n)) :: a) Q w'
    | DICEY_TASK_ERROR error => (is_Some error \/ aborts) /\ world_ok U (b ++ (id, Some (ctx, S n)) :: a) Q w'
    | DICEY_TASK_RETRY => False
    end) (f id ctx input w).

Fixpoint works_ok (ctx : C) (ws : list work_fn) : Prop :=
  match ws with
  | [] => True
  | f :: ws' => step_ok ctx (length ws') f /\ works_ok ctx ws'
  end.

(** The end of a task, at any of its steps: it is no longer one of the pending tasks, or of the
    queued ones. *)
Definition end_ok (r : dicey_task_request) : Prop := forall U err n w,
  (forall b id a Q, world_ok U (b ++ (id, Some (task_ctx r, n)) :: a) Q w -> id ∉ (b ++ a).*1 ->
     safe (world_ok U (b ++ a) Q) (call_at_end r id err w)) /\
  (forall P Q, world_ok U P (Some (task_ctx r, n) :: Q) w -> (forall id, id ∈ P.*1 -> 0 <= id) ->
     safe (world_ok U P Q) (call_at_end r (-1) err w)).

Record request_ok (r : dicey_task_request) : Prop := {
  r_some : work r <> []; r_works : works_ok (task_ctx r) (work r); r_end : end_ok r;
}.

Definition tasks_of (ptr : list_ptr (D := nat)) : list nat := task_data <$> entries_of ptr.
Definition ended_tasks (s : dicey_task_loop) : list nat := end_task <$> ended s.

(** What the world knows of a task, and of the entries of the list. *)
Definition ctx_at (h : gmap nat dicey_task_request) (task : nat) : option (C * nat) :=
  (fun r => (task_ctx r, length (work r))) <$> h !! task.
Definition pend (h : gmap nat dicey_task_request) (l : list (dicey_task_entry (D := nat))) : list (Z * option (C * nat)) :=
  (fun e => (task_id e, ctx_at h (task_data e))) <$> l.
Definition pending_of (s : dicey_task_loop) : list (Z * option (C * nat)) := pend (heap s) (entries_of (pending_tasks s)).

(** Every task submitted has ended, is pending or is queued, and is exactly one of these; the
    tasks that have not ended are in the heap with steps left; identifiers are few; the world is as
    the pending and the queued tasks need it. *)
Record loop_inv (s : dicey_task_loop) (queued submitted : list nat) : Prop := {
  l_queue : rep (queue s) queued;
  l_pending : ptr_ok (pending_tasks s);
  l_heap : forall t, t ∈ tasks_of (pending_tasks s) ++ queued -> exists r, heap s !! t = Some r /\ request_ok r;
  l_nodup : NoDup (ended_tasks s ++ tasks_of (pending_tasks s) ++ queued);
  l_all : submitted ≡ₚ ended_tasks s ++ tasks_of (pending_tasks s) ++ queued;
  l_next : id_of (pending_tasks s) + zlen queued <= zlen submitted;
  l_world : world_ok submitted (pending_of s) (ctx_at (heap s) <$> queued) (world s);
}.

Lemma pend_ids h l : (pend h l).*1 = task_id <$> l.
Proof. unfold pend. rewrite <- list_fmap_compose. by apply list_fmap_ext. Qed.

Lemma pend_app h l1 l2 : pend h (l1 ++ l2) = pend h l1 ++ pend h l2.
Proof. apply fmap_app. Qed.

Lemma pend_cons h e l : pend h (e :: l) = (task_id e, ctx_at h (task_data e)) :: pend h l.
Proof. done. Qed.

(** Requests of other tasks do not matter. *)
Lemma pend_ext h h' l : (forall t, t ∈ task_data <$> l -> ctx_at h t = ctx_at h' t) -> pend h l = pend h' l.
Proof.
  intros H. apply list_fmap_ext. intros i e He. f_equal. apply H. apply list_elem_of_fmap_2. by eapply list_elem_of_lookup_2.
Qed.

Lemma ctxs_ext h h' (l : list nat) : (forall t, t ∈ l -> ctx_at h t = ctx_at h' t) -> ctx_at h <$> l = ctx_at h' <$> l.
Proof. intros H. apply list_fmap_ext. intros i t Ht. apply H. by eapply list_elem_of_lookup_2. Qed.

Lemma ctx_at_delete h t x : x <> t -> ctx_at (delete t h) x = ctx_at h x.
Proof. intros Hne. unfold ctx_at. by rewrite lookup_delete_ne. Qed.

Lemma ctx_at_insert h t r x : x <> t -> ctx_at (<[t := r]> h) x = ctx_at h x.
Proof. intros Hne. unfold ctx_at. by rewrite lookup_insert_ne. Qed.

Lemma ctx_at_request h t r : h !! t = Some r -> ctx_at h t = Some (task_ctx r, length (work r)).
Proof. intros Hr. unfold ctx_at. by rewrite Hr. Qed.

(** The identifiers of a well-formed list do not repeat. *)
Lemma id_split (l : dicey_task_list (D := nat)) before e after :
  tl_wf l -> waiting l = before ++ e :: after -> task_id e ∉ (task_id <$> before) ++ (task_id <$> after).
Proof.
  intros Wf Hw. assert (waiting l !! length before = Some e) as Hi by (by rewrite Hw, list_lookup_middle).
  intros [H|H]%elem_of_app; apply list_elem_of_fmap in H as (x & Hx & H); apply list_elem_of_lookup in H as [j Hj].
  - assert (waiting l !! j = Some x) as Hjl by (rewrite Hw; apply lookup_app_l_Some, Hj).
    pose proof (lookup_lt_Some _ _ _ Hj). pose proof (wf_ids _ Wf _ _ _ _ ltac:(eassumption) Hjl Hi). lia.
  - assert (waiting l !! (length before + S j)%nat = Some x) as Hjl.
    { rewrite Hw, lookup_app_r by lia. by replace (length before + S j - length before)%nat with (S j) by lia. }
    pose proof (wf_ids _ Wf (length before) (length before + S j) _ _ ltac:(lia) Hi Hjl). lia.
Qed.

(** Erasing the entry of a task, and a second time. *)
Lemma erase_split (l : dicey_task_list (D := nat)) before e after :
  tl_wf l -> waiting l = before ++ e :: after ->
  exists l', dicey_task_list_erase (AList l) (task_id e) = Ok (true, AList l') /\
    tl_wf l' /\ tl_cap l' = tl_cap l /\ next_id l' = next_id l /\ waiting l' = before ++ after /\
    dicey_task_list_erase (AList l') (task_id e) = Ok (false, AList l').
Proof.
  intros Wf Hw. assert (waiting l !! length before = Some e) as Hi by (by rewrite Hw, list_lookup_middle).
  destruct (erase_lemma l (task_id e) Wf) as [(i & e' & He' & Hid & _ & Hx & Hw')|(Hno & _)]; [|by destruct (Hno _ _ Hi)].
  assert (i = length before) as ->.
  { destruct (Nat.lt_trichotomy i (length before)) as [H|[H|H]]; [|done|].
    - pose proof (wf_ids _ Wf _ _ _ _ H He' Hi). lia.
    - pose proof (wf_ids _ Wf _ _ _ _ H Hi He'). lia. }
  exists (task_list_erase_at l (length before)). rewrite Hw in Hw'.
  rewrite take_app_length, (drop_app_ge before (e :: after) (S (length before))) in Hw' by lia.
  replace (S (length before) - length before)%nat with 1%nat in Hw' by lia. cbn [drop] in Hw'. rewrite drop_0 in Hw'.
  assert (tl_wf (task_list_erase_at l (length before))) as W' by (by apply erase_at_wf). split_and!; try done.
  - unfold task_list_erase_at. by destruct (bool_decide _).
  - unfold task_list_erase_at. by destruct (bool_decide _).
  - destruct (erase_lemma _ (task_id e) W') as [(j & x & Hj & Hid' & _)|(_ & _ & H)]; [|done]. exfalso.
    apply (id_split l before e after Wf Hw). rewrite <- fmap_app, <- Hw', <- Hid'. clear -Hj. by apply list_elem_of_fmap_2, list_elem_of_lookup_2 with j.
Qed.

Lemma pending_ids_nonneg (ptr : list_ptr (D := nat)) : ptr_ok ptr -> forall id, id ∈ task_id <$> entries_of ptr -> 0 <= id.
Proof.
  intros Hp id (e & -> & H)%list_elem_of_fmap. apply list_elem_of_lookup in H as [i Hi]. destruct ptr as [|l|]; [done| |done].
  destruct Hp as [Wf _]. by apply (wf_next _ Wf i).
Qed.

(** Completing the task of an entry: it ends, leaves the heap and the list. *)
Lemma complete_task_spec s l before e after r err n U B A Q :
  pending_tasks s = AList l -> tl_wf l -> waiting l = before ++ e :: after -> heap s !! task_data e = Some r -> end_ok r ->
  world_ok U (B ++ (task_id e, Some (task_ctx r, n)) :: A) Q (world s) -> task_id e ∉ (B ++ A).*1 ->
  safe (fun s' => exists l' w', s' =
      mk_loop (delete (task_data e) (heap s)) (queue s) (AList l') (ended s ++ [mk_ending (task_id e) (task_data e) err]) w' /\
    world_ok U (B ++ A) Q w' /\
    tl_wf l' /\ tl_cap l' = tl_cap l /\ next_id l' = next_id l /\ waiting l' = before ++ after /\
    dicey_task_list_erase (AList l') (task_id e) = Ok (false, AList l')) (complete_task (task_id e) (task_data e) err s).
Proof.
  intros Hp Wf Hw Hr Hend Hworld Hn. destruct (erase_split l before e after Wf Hw) as (l' & E & H).
  unfold complete_task, the_task. rewrite Hr. cbn [obind]. apply (safe_bind (world_ok U (B ++ A) Q)).
  { by apply (Hend U err n (world s)). }
  intros w' Hw'. cbn [pending_tasks]. rewrite Hp, E. cbn [obind orb oassert with_pending]. exists l', w'. split_and!; try done; apply H.
Qed.

(** What a run of steps of the task [e] leads to: it waits for more input with its entry in place,
    or it has ended and its entry is gone. *)
Definition stepped (s : dicey_task_loop) (l : dicey_task_list) (before after : list dicey_task_entry) (e : dicey_task_entry)
    (U : list nat) (B A : list (Z * option (C * nat))) (Q : list (option (C * nat))) (done : bool) (s' : dicey_task_loop) : Prop :=
  queue s' = queue s /\
  (if done then
    exists l' err, pending_tasks s' = AList l' /\ tl_wf l' /\ tl_cap l' = tl_cap l /\ next_id l' = next_id l /\
      waiting l' = before ++ after /\ heap s' = delete (task_data e) (heap s) /\
      ended s' = ended s ++ [mk_ending (task_id e) (task_data e) err] /\ world_ok U (B ++ A) Q (world s') /\
      dicey_task_list_erase (AList l') (task_id e) = Ok (false, AList l')
  else
    pending_tasks s' = AList l /\ ended s' = ended s /\
    exists r, request_ok r /\ heap s' = <[task_data e := r]> (heap s) /\
      world_ok U (B ++ (task_id e, Some (task_ctx r, length (work r))) :: A) Q (world s')).

Lemma completed s l before e after r err n U B A Q :
  pending_tasks s = AList l -> tl_wf l -> waiting l = before ++ e :: after -> heap s !! task_data e = Some r -> end_ok r ->
  world_ok U (B ++ (task_id e, Some (task_ctx r, n)) :: A) Q (world s) -> task_id e ∉ (B ++ A).*1 ->
  safe (stepped s l before after e U B A Q true) (complete_task (task_id e) (task_data e) err s).
Proof.
  intros Hp Wf Hw Hr Hend Hworld Hn. eapply safe_mono; [by apply (complete_task_spec s l before e after r err n U B A Q)|].
  intros s' (l' & w' & -> & H). split; [done|]. exists l', err. cbn. tauto.
Qed.

(** The steps of a task only look at what its request, its entry and the world say. *)
Lemma stepped_from s l before after e U B A Q done r w s' :
  stepped (mk_loop (<[task_data e := r]> (heap s)) (queue s) (pending_tasks s) (ended s) w) l before after e U B A Q done s' ->
  stepped s l before after e U B A Q done s'.
Proof.
  intros (Hq & H). split; [done|]. cbn [heap ended queue] in H. destruct done.
  - by rewrite delete_insert_eq in H.
  - destruct H as (H1 & H2 & x & H4 & H5 & H6). rewrite insert_insert_eq in H5. eauto 8.
Qed.

Lemma step_from_spec ws l before e after U B A Q : forall s r input,
  pending_tasks s = AList l -> tl_wf l -> waiting l = before ++ e :: after -> heap s !! task_data e = Some r -> end_ok r ->
  world_ok U (B ++ (task_id e, Some (task_ctx r, length ws)) :: A) Q (world s) -> task_id e ∉ (B ++ A).*1 ->
  ws <> [] -> works_ok (task_ctx r) ws ->
  safe (fun '(done, s') => stepped s l before after e U B A Q done s') (step_from ws (task_id e) (task_data e) (task_ctx r) input s).
Proof.
  induction ws as [|f ws IH]; intros s r input Hp Wf Hw Hr Hend Hworld Hn Hne Hok; [done|]. cbn [step_from].
  destruct Hok as [Hstep Hrest]. eapply safe_bind; [by apply (Hstep U B A Q)|].
  intros [result w] Hres. set (r' := mk_task_request ws (at_end r) (task_ctx r) (timeout_ms r)).
  assert (set_work (task_data e) ws (with_world w s) = Ok (mk_loop (<[task_data e := r']> (heap s)) (queue s) (pending_tasks s) (ended s) w)) as Hset.
  { unfold set_work, the_task. cbn. by rewrite Hr. }
  assert (end_ok r') as Hend' by exact Hend. destruct result as [| |error|]; rewrite ?Hset; cbn [obind].
  - destruct ws as [|f' ws'].
    + eapply safe_bind; [apply (completed _ l before e after r' None 0 U B A Q); try done; apply lookup_insert_eq|].
      intros s' H. by apply stepped_from in H.
    + apply (stepped_from s l before after e U B A Q false r' w). split; [done|]. split_and!; try done.
      exists r'. split_and!; [by constructor|by cbn [heap]; rewrite insert_insert_eq|exact Hres].
  - destruct Hres as [Hn0 Hres]. destruct ws as [|f' ws']; [done|].
    eapply safe_mono; [apply (IH _ r' None); try done; apply lookup_insert_eq|].
    intros [done s'] H. by apply stepped_from in H.
  - destruct Hres as [Herr Hres]. unfold fail_task. destruct error as [x|]; [|destruct Herr as [[? ?]|Ha]; [done|exact Ha]].
    rewrite bool_decide_true by eauto. cbn [oassert obind].
    eapply safe_bind; [by apply (completed (with_world w s) l before e after r (Some x) (S (length ws)) U B A Q)|]. intros s' H. exact H.
  - done.
Qed.

Lemma erase_pending_id s l id :
  pending_tasks s = AList l -> dicey_task_list_erase (AList l) id = Ok (false, AList l) -> erase_pending id s = Ok s.
Proof. intros Hp He. unfold erase_pending. rewrite Hp, He. cbn [obind]. unfold with_pending. rewrite <- Hp. by destruct s. Qed.

Lemma stepped_inv s l before after e done s' q subs :
  pending_tasks s = AList l -> waiting l = before ++ e :: after -> loop_inv s q subs ->
  stepped s l before after e subs (pend (heap s) before) (pend (heap s) after) (ctx_at (heap s) <$> q) done s' ->
  loop_inv s' q subs /\ (done = true -> erase_pending (task_id e) s' = Ok s').
Proof.
  intros Hp Hw [Hq Hok Hheap Hnd Hall Hnext _] [Hqs H]. unfold tasks_of in *. rewrite Hp in *. cbn [entries_of ptr_ok id_of] in *.
  rewrite Hw in Hheap, Hnd, Hall. rewrite fmap_app, fmap_cons in Hheap, Hnd, Hall. destruct Hok as [Wf Hc].
  assert (forall t, t ∈ (task_data <$> before ++ after) ++ q -> t <> task_data e) as Hne.
  { assert (((task_data <$> before) ++ task_data e :: (task_data <$> after)) ++ q ≡ₚ task_data e :: (task_data <$> before ++ after) ++ q) as Hperm.
    { rewrite fmap_app. solve_Permutation. }
    intros t Ht ->. rewrite Hperm in Hnd. apply NoDup_app in Hnd as (_ & _ & Hnd). by apply NoDup_cons in Hnd as [Hnd _]. }
  assert (forall t, t ∈ (task_data <$> before) ++ (task_data <$> after) ++ q -> t <> task_data e) as Hne'.
  { intros t Ht. apply Hne. by rewrite fmap_app, <- app_assoc. }
  destruct done.
  - destruct H as (l' & err & H1 & H2 & H3 & H4 & H5 & H6 & H7 & Hworld & H8). split; [|by intros _; apply (erase_pending_id s' l')].
    assert (ended_tasks s' ++ (task_data <$> entries_of (pending_tasks s')) ++ q ≡ₚ
            ended_tasks s ++ ((task_data <$> before) ++ task_data e :: (task_data <$> after)) ++ q) as Hperm.
    { unfold ended_tasks. rewrite H7, H1. cbn [entries_of]. rewrite H5, !fmap_app. cbn. solve_Permutation. }
    constructor; unfold tasks_of, pending_of.
    + by rewrite Hqs.
    + rewrite H1. split; [done|lia].
    + intros t Ht. rewrite H1 in Ht. cbn [entries_of] in Ht. rewrite H5 in Ht. rewrite H6. specialize (Hne t Ht).
      destruct (Hheap t) as (r & Hr & Hws); [|exists r; by rewrite lookup_delete_ne].
      rewrite fmap_app in Ht. clear -Ht. set_solver.
    + by rewrite Hperm.
    + by rewrite Hperm.
    + rewrite H1. cbn [id_of]. lia.
    + rewrite H1, H6. cbn [entries_of]. rewrite H5.
      rewrite (pend_ext _ (heap s)) by (intros t Ht; apply ctx_at_delete, Hne; apply elem_of_app; by left).
      rewrite (ctxs_ext _ (heap s)) by (intros t Ht; apply ctx_at_delete, Hne; apply elem_of_app; by right). by rewrite pend_app.
  - destruct H as (H1 & H2 & r & Hws & Hh & Hworld). split; [|done].
    constructor; unfold tasks_of, ended_tasks, pending_of; rewrite ?H1, ?H2; cbn [entries_of id_of].
    + by rewrite Hqs.
    + done.
    + intros t Ht. rewrite Hw, fmap_app, fmap_cons in Ht. rewrite Hh. destruct (decide (t = task_data e)) as [->|Hxt].
      * exists r. by rewrite lookup_insert_eq.
      * rewrite lookup_insert_ne by done. by apply Hheap.
    + by rewrite Hw, fmap_app, fmap_cons.
    + by rewrite Hw, fmap_app, fmap_cons.
    + done.
    + rewrite Hw, Hh, pend_app, pend_cons. rewrite (ctx_at_request _ _ r) by apply lookup_insert_eq.
      rewrite (ctxs_ext _ (heap s)) by (intros t Ht; apply ctx_at_insert, Hne'; clear -Ht; set_solver).
      rewrite (pend_ext _ (heap s) before) by (intros t Ht; apply ctx_at_insert, Hne'; clear -Ht; set_solver).
      rewrite (pend_ext _ (heap s) after) by (intros t Ht; apply ctx_at_insert, Hne'; clear -Ht; set_solver). done.
Qed.

(** The request of a pending task, and the world for it. *)
Lemma pending_request s q subs l before e after :
  loop_inv s q subs -> pending_tasks s = AList l -> waiting l = before ++ e :: after ->
  exists r, heap s !! task_data e = Some r /\ request_ok r /\
    world_ok subs (pend (heap s) before ++ (task_id e, Some (task_ctx r, length (work r))) :: pend (heap s) after) (ctx_at (heap s) <$> q) (world s) /\
    task_id e ∉ (pend (heap s) before ++ pend (heap s) after).*1 /\ tl_wf l.
Proof.
  intros Hi Hp Hw. destruct (l_heap _ _ _ Hi (task_data e)) as (r & Hr & Hok).
  { unfold tasks_of. rewrite Hp. cbn [entries_of]. rewrite Hw, fmap_app, fmap_cons. set_solver. }
  pose proof (l_pending _ _ _ Hi) as Hp'. pose proof (l_world _ _ _ Hi) as Hworld. unfold pending_of in Hworld.
  rewrite Hp in Hp', Hworld. cbn [entries_of] in Hworld. rewrite Hw, pend_app, pend_cons in Hworld.
  rewrite (ctx_at_request _ _ r Hr) in Hworld. destruct Hp' as [Wf _]. exists r. split_and!; try done.
  rewrite fmap_app, !pend_ids. by apply (id_split l).
Qed.

(** Running the steps of a pending task. *)
Lemma step_task_inv s q subs l before e after input :
  loop_inv s q subs -> pending_tasks s = AList l -> waiting l = before ++ e :: after ->
  safe (fun '(done, s') => loop_inv s' q subs /\ (done = true -> erase_pending (task_id e) s' = Ok s'))
    (step_task (task_id e) (task_data e) input s).
Proof.
  intros Hi Hp Hw. destruct (pending_request s q subs l before e after Hi Hp Hw) as (r & Hr & [Hnil Hws Hend] & Hworld & Hnin & Wf).
  unfold step_task, the_task. rewrite Hr. cbn [obind].
  eapply safe_mono; [by apply (step_from_spec (work r) l before e after subs (pend (heap s) before) (pend (heap s) after) (ctx_at (heap s) <$> q) s r input)|].
  intros [done s'] Hst. by apply (stepped_inv s l before after e).
Qed.

Hypothesis memory : forall n, alloc_ok n = true.

(** A queued task is given an identifier. *)
Hypothesis world_start : forall U P Q c id w,
  world_ok U P (c :: Q) w -> id ∉ P.*1 -> 0 <= id < 2 ^ 61 -> world_ok U (P ++ [(id, c)]) Q w.

Lemma process_one_inv now s t q subs :
  zlen subs < 2 ^ 61 -> rep (queue s) q -> ptr_ok (pending_tasks s) ->
  (forall x, x ∈ tasks_of (pending_tasks s) ++ t :: q -> exists r, heap s !! x = Some r /\ request_ok r) ->
  NoDup (ended_tasks s ++ tasks_of (pending_tasks s) ++ t :: q) -> subs ≡ₚ ended_tasks s ++ tasks_of (pending_tasks s) ++ t :: q ->
  id_of (pending_tasks s) + zlen (t :: q) <= zlen subs ->
  world_ok subs (pending_of s) (ctx_at (heap s) <$> t :: q) (world s) ->
  safe (fun s' => loop_inv s' q subs) (process_one now t s).
Proof.
  intros Hlen Hq Hok Hheap Hnd Hall Hnext Hworld. unfold process_one, the_task. destruct (Hheap t) as (r & Hr & [Hws _ _]); [set_solver|]. rewrite Hr. cbn [obind].
  rewrite bool_decide_false by (by destruct (work r)). cbn [negb oassert obind]. rewrite zlen_cons in Hnext. pose proof (zlen_nonneg q).
  assert (zlen (entries_of (pending_tasks s)) < 2 ^ 61) as Hsmall.
  { pose proof (Permutation_length Hall) as Hpl. unfold tasks_of in Hpl. rewrite !length_app, length_fmap in Hpl. unfold zlen in *. lia. }
  destruct (append_lemma alloc_ok now (pending_tasks s) t (timeout_ms r) Hok Hsmall) as [(l & -> & Wf & Hc & Hw & Hid')|([n Hn] & _)]; [|by rewrite memory in Hn].
  cbn [obind]. set (e := new_entry now (pending_tasks s) t (timeout_ms r)) in *. change (id_of (pending_tasks s)) with (task_id e) in *.
  assert (0 <= task_id e) as Hid.
  { eapply (wf_next _ Wf). rewrite Hw, lookup_app_r by done. by rewrite Nat.sub_diag. }
  destruct (Z.leb_spec 0 (task_id e)); [|lia]. set (s1 := with_pending (AList l) s).
  assert (tasks_of (AList l) ++ q = tasks_of (pending_tasks s) ++ t :: q) as Ht.
  { unfold tasks_of. cbn [entries_of]. rewrite Hw, fmap_app, <- app_assoc. done. }
  assert (loop_inv s1 q subs) as Hi.
  { constructor; cbn [s1 with_pending queue pending_tasks heap world]; rewrite ?Ht; try done.
    - cbn [id_of]. lia.
    - unfold pending_of. cbn [s1 with_pending pending_tasks heap entries_of]. rewrite Hw, pend_app. apply world_start; [exact Hworld| |lia].
      pose proof (id_split l _ e [] Wf Hw) as H'. rewrite app_nil_r in H'. by rewrite pend_ids. }
  change t with (task_data e). unfold start_task.
  eapply safe_bind; [apply (step_task_inv s1 q subs l (entries_of (pending_tasks s)) e [] None Hi eq_refl Hw)|].
  intros [done s'] [Hi' Hdone]. destruct done; [rewrite Hdone by done|]; done.
Qed.

Lemma process_loop_inv now q : forall s subs fuel,
  zlen subs < 2 ^ 61 -> loop_inv s q subs -> (length q < fuel)%nat ->
  safe (fun s' => loop_inv s' [] subs) (process_loop fuel now s).
Proof.
  induction q as [|t q IH]; intros s subs [|fuel] Hlen Hi Hf; cbn in Hf; try lia; cbn [process_loop].
  - pose proof (pop_rep DICEY_LOCKING_POLICY_NONBLOCKING _ _ (l_queue _ _ _ Hi)) as Hpop. cbn in Hpop. rewrite Hpop. exact Hi.
  - destruct (pop_rep DICEY_LOCKING_POLICY_NONBLOCKING _ _ (l_queue _ _ _ Hi)) as (q' & -> & Hr). cbn [obind].
    eapply safe_bind; [apply (process_one_inv now (with_queue q' s) t q subs Hlen Hr); apply Hi|].
    intros s' Hi'. apply IH; [done|done|lia].
Qed.

Lemma process_queue_inv now s q subs :
  zlen subs < 2 ^ 61 -> loop_inv s q subs -> safe (fun s' => loop_inv s' [] subs) (process_queue now s).
Proof. intros Hlen Hi. apply (process_loop_inv now q); [done|done|]. destruct (l_queue _ _ _ Hi) as (_ & _ & Hq & _). lia. Qed.

(** ** Runs of the loop *)

Inductive loop_op : Type :=
  | OpSubmit (task : nat) (req : dicey_task_request)
  | OpProcess (now : timespec)
  | OpAdvance (id : Z) (input : option I)
  | OpFail (id : Z) (error : dicey_error).

(** Only a submission that finds room in the queue is accepted. Addresses are not used twice. *)
Definition accept (task : nat) (req : dicey_task_request) (st : dicey_task_loop * list nat) : res (dicey_task_loop * list nat) :=
  let '(s, subs) := st in
  if decide (task ∈ subs) then Ok st
  else
    let! s' := dicey_task_loop_submit task req s in
    Ok (s', if decide (queue s' = queue s) then subs else subs ++ [task]).

(** The loop and the tasks that were accepted. No task can be advanced or failed before the first
    one was taken from the queue. *)
Definition exec_op (op : loop_op) (st : dicey_task_loop * list nat) : res (dicey_task_loop * list nat) :=
  let '(s, subs) := st in
  match op with
  | OpSubmit task req => accept task req st
  | OpProcess now => let! s' := process_queue now s in Ok (s', subs)
  | OpAdvance id input =>
      match pending_tasks s with
      | NoList => Ok st
      | _ => let! s' := dicey_task_loop_advance id input s in Ok (s', subs)
      end
  | OpFail id error =>
      match pending_tasks s with
      | NoList => Ok st
      | _ => let! s' := dicey_task_loop_fail_with id (Some error) s in Ok (s', subs)
      end
  end.

Fixpoint exec_ops (ops : list loop_op) (st : dicey_task_loop * list nat) : res (dicey_task_loop * list nat) :=
  match ops with
  | [] => Ok st
  | op :: ops' => let! st' := exec_op op st in exec_ops ops' st'
  end.

Definition new_loop (w : W) : dicey_task_loop := mk_loop ∅ empty_queue NoList [] w.

(** A request that can be submitted at any time. *)
Definition op_ok (op : loop_op) : Prop :=
  match op with
  | OpSubmit task req => request_ok req /\ forall U P Q w, world_ok U P Q w -> world_ok (U ++ [task]) P (Q ++ [Some (task_ctx req, length (work req))]) w
  | _ => True
  end.

(** The world is prepared for the task before it is submitted. *)
Lemma submit_inv s q subs t r w :
  loop_inv s q subs -> t ∉ subs -> request_ok r -> world_ok (subs ++ [t]) (pending_of s) ((ctx_at (heap s) <$> q) ++ [Some (task_ctx r, length (work r))]) w ->
  dicey_task_loop_submit t r (with_world w s) = Ok (with_world w s) \/
  exists s', dicey_task_loop_submit t r (with_world w s) = Ok s' /\ queue s' <> queue s /\ loop_inv s' (q ++ [t]) (subs ++ [t]).
Proof.
  intros [Hq Hok Hheap Hnd Hall Hnext _] Hn Hws Hworld. unfold dicey_task_loop_submit, dicey_queue_push. cbn [with_world queue heap pending_tasks ended world].
  pose proof (push_section_rep DICEY_LOCKING_POLICY_BLOCKING t (queue s) q Hq) as H.
  destruct (decide _) as [Hfull|Hroom]; [left; by rewrite H|]. destruct H as (q' & E & Hr). rewrite E. cbn [obind]. right.
  assert (t ∉ ended_tasks s ++ tasks_of (pending_tasks s) ++ q) as Hn' by (by rewrite <- Hall).
  eexists. split; [done|]. split.
  - cbn [queue]. intros ->. pose proof (size_rep _ _ Hr). pose proof (size_rep _ _ Hq). rewrite length_app in *. cbn in *. lia.
  - assert (forall x, x ∈ tasks_of (pending_tasks s) ++ q -> x <> t) as Hne.
    { intros x Hx ->. apply Hn'. apply elem_of_app. by right. }
    constructor; cbn [queue pending_tasks heap]; unfold ended_tasks in *; cbn [ended]; try done.
    + intros x Hx. destruct (decide (x = t)) as [->|Hxt]; [exists r; by rewrite lookup_insert_eq|]. rewrite lookup_insert_ne by done.
      apply Hheap. clear -Hx Hxt. set_solver.
    + rewrite !app_assoc in *. apply NoDup_app. split_and!; [done| |apply NoDup_singleton].
      intros x Hx ->%list_elem_of_singleton. done.
    + rewrite Hall, !app_assoc. done.
    + rewrite !zlen_app. change (zlen [t]) with 1. lia.
    + unfold pending_of in *. cbn [pending_tasks heap world]. rewrite fmap_app. cbn [fmap list_fmap].
      rewrite (pend_ext _ (heap s)) by (intros x Hx; apply ctx_at_insert, Hne, elem_of_app; by left).
      rewrite (ctxs_ext _ (heap s) q) by (intros x Hx; apply ctx_at_insert, Hne, elem_of_app; by right).
      by rewrite (ctx_at_request _ _ r) by apply lookup_insert_eq.
Qed.

(** With room in the queue the task is taken. *)
Lemma submit_room s q t r : rep (queue s) q -> (dicey_queue_size (queue s) < REQUEST_QUEUE_CAP - 1)%nat -> dicey_task_loop_submit t r s <> Ok s.
Proof.
  intros Hq Hroom. rewrite (size_rep _ _ Hq) in Hroom. unfold dicey_task_loop_submit, dicey_queue_push.
  pose proof (push_section_rep DICEY_LOCKING_POLICY_BLOCKING t (queue s) q Hq) as H. rewrite decide_False in H by lia.
  destruct H as (q' & -> & Hr). cbn [obind]. intros Es. injection Es as Es. apply (f_equal queue) in Es. cbn [queue] in Es. subst q'.
  pose proof (size_rep _ _ Hr) as H. rewrite (size_rep _ _ Hq), length_app in H. cbn in H. lia.
Qed.

Lemma accept_inv s q subs t r :
  loop_inv s q subs -> request_ok r -> world_ok (subs ++ [t]) (pending_of s) ((ctx_at (heap s) <$> q) ++ [Some (task_ctx r, length (work r))]) (world s) ->
  exists s' q' subs', accept t r (s, subs) = Ok (s', subs') /\ loop_inv s' q' subs' /\ zlen subs' <= zlen subs + 1.
Proof.
  intros Hi Hok Hworld. unfold accept. destruct (decide (t ∈ subs)); [exists s, q, subs; split_and!; [done|done|lia]|].
  replace (dicey_task_loop_submit t r s) with (dicey_task_loop_submit t r (with_world (world s) s)) by (by destruct s).
  destruct (submit_inv s q subs t r (world s) Hi) as [->|(s' & -> & Hne & Hi')]; [done|exact Hok|done| |]; cbn [obind with_world queue].
  - rewrite decide_True by done. exists s, q, subs. split_and!; [by destruct s|done|lia].
  - rewrite decide_False by done. exists s', (q ++ [t]), (subs ++ [t]). split_and!; [done|done|]. rewrite zlen_app. done.
Qed.

(** The entry of an identifier, in its place. *)
Lemma find_split (l : dicey_task_list (D := nat)) id :
  tl_wf l ->
  (exists before e after, waiting l = before ++ e :: after /\ task_id e = id /\ dicey_task_list_find (AList l) id = Ok (Some e)) \/
  dicey_task_list_find (AList l) id = Ok None.
Proof.
  intros Wf. destruct (erase_lemma l id Wf) as [(i & e & He & Hid & Hf & _)|(_ & Hf & _)]; [left|by right].
  exists (take i (waiting l)), e, (drop (S i) (waiting l)). by rewrite take_drop_middle.
Qed.

(** The list of a loop that took a task from its queue. *)
Lemma pending_list s q subs : loop_inv s q subs -> pending_tasks s <> NoList -> exists l, pending_tasks s = AList l /\ tl_wf l.
Proof. intros Hi Hne. pose proof (l_pending _ _ _ Hi) as Hok. destruct (pending_tasks s) as [|l|]; try done. destruct Hok. eauto. Qed.

Lemma advance_inv s q subs id input :
  loop_inv s q subs -> pending_tasks s <> NoList -> safe (fun s' => loop_inv s' q subs) (dicey_task_loop_advance id input s).
Proof.
  intros Hi Hne. destruct (pending_list s q subs Hi Hne) as (l & Hp & Wf). unfold dicey_task_loop_advance. rewrite Hp.
  destruct (find_split l id Wf) as [(b & e & a & Hw & <- & ->)| ->]; cbn [obind]; [|exact Hi].
  eapply safe_bind; [apply (step_task_inv s q subs l b e a input Hi Hp Hw)|]. intros [done s'] [Hi' Hd].
  destruct done; [rewrite Hd by done|]; done.
Qed.

Lemma fail_inv s q subs id error :
  loop_inv s q subs -> pending_tasks s <> NoList -> safe (fun s' => loop_inv s' q subs) (dicey_task_loop_fail_with id (Some error) s).
Proof.
  intros Hi Hne. destruct (pending_list s q subs Hi Hne) as (l & Hp & Wf). unfold dicey_task_loop_fail_with. rewrite Hp.
  destruct (find_split l id Wf) as [(b & e & a & Hw & <- & ->)| ->]; cbn [obind]; [|exact Hi].
  destruct (pending_request s q subs l b e a Hi Hp Hw) as (r & Hr & [_ _ Hend] & Hworld & Hnin & Wf').
  unfold fail_task. rewrite bool_decide_true by eauto. cbn [oassert obind].
  eapply safe_bind; [by apply (completed s l b e a r (Some error) (length (work r)) subs (pend (heap s) b) (pend (heap s) a) (ctx_at (heap s) <$> q))|]. intros s' Hst.
  destruct (stepped_inv s l b a e true s' q subs Hp Hw Hi Hst) as [Hi' Hd]. by rewrite Hd.
Qed.

(** The last step of a task that goes well ends it. *)
Lemma advance_last s l before e after f finish ctx timeout input w1 w2 :
  pending_tasks s = AList l -> tl_wf l -> waiting l = before ++ e :: after ->
  heap s !! task_data e = Some (mk_task_request [f] finish ctx timeout) ->
  f (task_id e) ctx input (world s) = Ok (DICEY_TASK_CONTINUE, w1) ->
  call_at_end (mk_task_request [] finish ctx timeout) (task_id e) None w1 = Ok w2 ->
  exists l', waiting l' = before ++ after /\ dicey_task_loop_advance (task_id e) input s =
    Ok (mk_loop (delete (task_data e) (heap s)) (queue s) (AList l') (ended s ++ [mk_ending (task_id e) (task_data e) None]) w2).
Proof.
  intros Hp Wf Hw Hh Hf Hend. destruct (erase_split l before e after Wf Hw) as (l' & E1 & _ & _ & _ & Hw' & E2). exists l'. split; [done|].
  unfold dicey_task_loop_advance. rewrite Hp. destruct (find_split l (task_id e) Wf) as [(b & e' & a & Hw2 & Hid & ->)|Hnone].
  - assert (e' = e) as ->.
    { assert (waiting l !! length before = Some e) as H1 by (by rewrite Hw, list_lookup_middle).
      assert (waiting l !! length b = Some e') as H2 by (by rewrite Hw2, list_lookup_middle).
      destruct (Nat.lt_trichotomy (length before) (length b)) as [H|[H|H]]; [|congruence|].
      - pose proof (wf_ids _ Wf _ _ _ _ H H1 H2). lia.
      - pose proof (wf_ids _ Wf _ _ _ _ H H2 H1). lia. }
    cbn [obind]. unfold step_task, the_task. rewrite Hh. cbn [obind work task_ctx step_from]. rewrite Hf. cbn [obind].
    unfold set_work, the_task. cbn [with_world heap]. rewrite Hh. cbn [obind]. unfold complete_task, the_task. cbn [heap world pending_tasks queue ended].
    rewrite lookup_insert_eq. cbn [obind at_end task_ctx timeout_ms with_world world pending_tasks queue ended heap]. rewrite Hend. cbn [obind pending_tasks]. rewrite Hp, E1. cbn [obind orb oassert].
    unfold erase_pending. cbn [with_pending pending_tasks]. rewrite E2. cbn [obind with_pending heap queue ended world]. by rewrite delete_insert_eq.
  - exfalso. unfold dicey_task_list_find in Hnone. cbn [the_list obind] in Hnone.
    destruct (erase_lemma l (task_id e) Wf) as [(i & x & _ & _ & Hx & _)|(Hno & _)]; [unfold dicey_task_list_find in Hx; cbn [the_list obind] in Hx; congruence|].
    by apply (Hno (length before) e); [rewrite Hw, list_lookup_middle|].
Qed.

(** The world changes outside the loop. *)
Lemma world_inv s q subs w :
  loop_inv s q subs -> world_ok subs (pending_of s) (ctx_at (heap s) <$> q) w -> loop_inv (with_world w s) q subs.
Proof. intros [H1 H2 H3 H4 H5 H6 _] Hw. by constructor. Qed.

Lemma exec_op_inv op s q subs :
  loop_inv s q subs -> op_ok op -> zlen subs < 2 ^ 61 ->
  safe (fun '(s', subs') => exists q', loop_inv s' q' subs' /\ zlen subs' <= zlen subs + 1) (exec_op op (s, subs)).
Proof.
  intros Hi Hop Hlen. assert (exists q', loop_inv s q' subs /\ zlen subs <= zlen subs + 1) as Hsame by (exists q; split; [done|lia]).
  assert (forall s' q', loop_inv s' q' subs -> exists q'', loop_inv s' q'' subs /\ zlen subs <= zlen subs + 1) as Hnext.
  { intros s' q' H. exists q'. split; [done|lia]. }
  destruct op as [t r|now|id input|id error]; cbn [exec_op].
  - destruct Hop as [Hr Hw]. destruct (accept_inv s q subs t r Hi Hr (Hw _ _ _ _ (l_world _ _ _ Hi))) as (s' & q' & subs' & -> & H). by exists q'.
  - eapply safe_bind; [by apply (process_queue_inv now s q subs)|]. intros s' Hi'. exact (Hnext s' _ Hi').
  - destruct (pending_tasks s) eqn:Hp; [exact Hsame| |]; (eapply safe_bind; [apply (advance_inv s q subs id input Hi); rewrite Hp; discriminate|]);
      intros s' Hi'; exact (Hnext s' _ Hi').
  - destruct (pending_tasks s) eqn:Hp; [exact Hsame| |]; (eapply safe_bind; [apply (fail_inv s q subs id error Hi); rewrite Hp; discriminate|]);
      intros s' Hi'; exact (Hnext s' _ Hi').
Qed.

Lemma exec_ops_inv ops : forall s q subs,
  loop_inv s q subs -> Forall op_ok ops -> zlen subs + zlen ops < 2 ^ 61 ->
  safe (fun '(s', subs') => exists q', loop_inv s' q' subs') (exec_ops ops (s, subs)).
Proof.
  induction ops as [|op ops IH]; intros s q subs Hi Hops Hlen; cbn [exec_ops]; [by exists q|].
  apply Forall_cons in Hops as [Hop Hops]. rewrite zlen_cons in Hlen. pose proof (zlen_nonneg ops).
  eapply safe_bind; [apply (exec_op_inv op s q subs Hi Hop); lia|]. intros [s1 subs1] (q1 & Hi1 & Hl1).
  apply (IH s1 q1); [done|done|lia].
Qed.

Lemma new_loop_inv w : world_ok [] [] [] w -> loop_inv (new_loop w) [] [].
Proof. intros Hw. constructor; try done; [apply rep_empty|by intros t ?%elem_of_nil|apply NoDup_nil_2]. Qed.

(** ** Properties *)

(** C26: in a run without timeouts, retries and cancellations the loop ends every task exactly once.
    The run is any sequence of submissions by one producer, processing of the queue, advances and
    failures; memory is available; a submission that finds the queue full, or a task that
    was submitted before, is not accepted. The steps follow the protocol (the last one does not ask
    for a next one, an error is not NULL, none asks for a retry), and steps and callbacks keep an
    invariant of the state they act on. Then the loop has used no freed task and no assertion of the
    loop has failed (the run stops only where a step or a callback may fail an assertion of its
    own); the tasks accepted are exactly those whose [at_end] was called, those pending and those
    queued, without repetition, and the invariant holds for the pending and the queued ones. *)
Theorem tasks_end_exactly_once ops w :
  world_ok [] [] [] w -> Forall op_ok ops -> zlen ops < 2 ^ 61 ->
  (exists s queued submitted, exec_ops ops (new_loop w, []) = Ok (s, submitted) /\ rep (queue s) queued /\
    submitted ≡ₚ ended_tasks s ++ tasks_of (pending_tasks s) ++ queued /\ NoDup submitted /\
    world_ok submitted (pending_of s) (ctx_at (heap s) <$> queued) (world s)) \/
  (exec_ops ops (new_loop w, []) = Fault AssertFailed /\ aborts).
Proof.
  intros Hw Hops Hl. pose proof (exec_ops_inv ops (new_loop w) [] [] (new_loop_inv w Hw) Hops) as H.
  destruct (safe_ok _ _ (H ltac:(by rewrite Z.add_0_l))) as [([s subs] & E & q & [H1 H2 H3 H4 H5 H6 H7])|?]; [left|by right].
  exists s, q, subs. split_and!; try done. by rewrite H5.
Qed.

(** The index of the first task that has expired. *)
Definition first_expired (now : timespec) (l : list (dicey_task_entry (D := nat))) (i : nat) (e : dicey_task_entry) : Prop :=
  l !! i = Some e /\ expired now e = true /\ forall j x, (j < i)%nat -> l !! j = Some x -> expired now x = false.

Lemma prune_from_skip now s l i k fuel :
  pending_tasks s = AList l -> (k <= i)%nat -> (i < length (waiting l))%nat ->
  (forall j x, (k <= j < i)%nat -> waiting l !! j = Some x -> expired now x = false) -> (i - k < fuel)%nat ->
  prune_from pending_tasks with_pending task_timed_out now fuel k s =
  prune_from pending_tasks with_pending task_timed_out now (fuel - (i - k)) i s.
Proof.
  intros Hp. revert k. induction fuel as [|fuel IH]; intros k Hki Hi Hno Hf; [lia|].
  destruct (decide (k = i)) as [->|Hne]; [by rewrite Nat.sub_diag, Nat.sub_0_r|].
  cbn [prune_from]. rewrite Hp. destruct (lookup_lt_is_Some_2 (waiting l) k) as [x Hx]; [lia|]. rewrite Hx.
  rewrite (Hno k x) by (done || lia). rewrite IH; [|lia|done|intros j y Hj; apply Hno; lia|lia].
  replace (S fuel - (i - k))%nat with (fuel - (i - S k))%nat by lia. done.
Qed.

(** A timeout loses a task. When a task expires, its callback ends it and removes it from the
    list; then the list removes the entry at the same index once more, which is the entry of the
    next task: that one is dropped without ever being ended. *)
Theorem timeout_drops_next_task s q subs l now i e next :
  loop_inv s q subs -> pending_tasks s = AList l -> first_expired now (waiting l) i e -> waiting l !! S i = Some next ->
  safe (fun s' => exists l', pending_tasks s' = AList l' /\
    ended s' = ended s ++ [mk_ending (task_id e) (task_data e) (Some DICEY_ETIMEDOUT)] /\
    waiting l' = take i (waiting l) ++ drop (S (S i)) (waiting l) /\
    ~ In (task_data next) (ended_tasks s') /\ ~ In (task_data next) (tasks_of (pending_tasks s'))) (check_timeout now s).
Proof.
  intros Hi Hp (He & Hx & Hno) Hn. pose proof (lookup_lt_Some _ _ _ Hn) as Hlen.
  set (b := take i (waiting l)). set (a := drop (S (S i)) (waiting l)).
  assert (waiting l = b ++ e :: next :: a) as Hw.
  { unfold b, a. rewrite <- (drop_S _ _ _ Hn). by rewrite take_drop_middle. }
  assert (length b = i) as Hb by (unfold b; rewrite length_take; lia).
  destruct (pending_request s q subs l b e (next :: a) Hi Hp Hw) as (r & Hr & [_ _ Hend] & Hworld & Hnin & Wf).
  unfold check_timeout, dicey_task_list_prune. rewrite Hp.
  rewrite (prune_from_skip now s l i 0) by (done || lia || (intros j x Hj; apply Hno; lia)).
  replace (S (length (waiting l)) - (i - 0))%nat with (S (length (waiting l) - i)) by lia. cbn [prune_from].
  rewrite Hp, He, Hx. unfold task_timed_out, fail_task. rewrite bool_decide_true by eauto. cbn [oassert obind].
  eapply safe_bind; [exact (complete_task_spec s l b e (next :: a) r (Some DICEY_ETIMEDOUT) _ _ _ _ _ Hp Wf Hw Hr Hend Hworld Hnin)|].
  intros s' (l' & w' & -> & Hworld' & W' & _ & _ & Hw' & _). cbn [pending_tasks].
  assert (waiting (task_list_erase_at l' i) = b ++ a) as Hw''.
  { unfold task_list_erase_at. rewrite Hw'. rewrite bool_decide_false by (rewrite length_app; cbn; lia). cbn [waiting].
    rewrite <- Hb at 1. rewrite take_app_length. rewrite drop_app_ge by lia. by replace (S i - length b)%nat with 1%nat by lia. }
  exists (task_list_erase_at l' i). split; [done|]. split; [done|]. split; [done|].
  pose proof (l_nodup _ _ _ Hi) as Hnd. unfold tasks_of, ended_tasks in *. rewrite Hp in Hnd. cbn [entries_of pending_tasks with_pending ended] in *.
  rewrite Hw, Hw'' in *. rewrite !fmap_app, !fmap_cons in *. cbn [fmap list_fmap] in *. rewrite <- !list_elem_of_In. split.
  - intros [H|H]%elem_of_app.
    + apply NoDup_app in Hnd as (_ & Hnd & _). apply (Hnd _ H). clear. set_solver.
    + apply list_elem_of_singleton in H. cbn [end_task] in H. apply NoDup_app in Hnd as (_ & _ & Hnd).
      apply NoDup_app in Hnd as (Hnd & _). apply NoDup_app in Hnd as (_ & _ & Hnd). apply NoDup_cons in Hnd as [Hnd _].
      apply Hnd. rewrite H. by left.
  - intros H. apply NoDup_app in Hnd as (_ & _ & Hnd). apply NoDup_app in Hnd as (Hnd & _).
    assert (NoDup (task_data next :: (task_data <$> b) ++ task_data e :: (task_data <$> a))) as Hnd'.
    { assert (task_data next :: (task_data <$> b) ++ task_data e :: (task_data <$> a) ≡ₚ
        (task_data <$> b) ++ task_data e :: task_data next :: (task_data <$> a)) as -> by solve_Permutation. done. }
    apply NoDup_cons in Hnd' as [Hnd' _]. apply Hnd'. clear -H. set_solver.
Qed.

(** A step that asks to be retried loses its task: the entry is erased as if the task were
    done, but the task is neither ended nor freed. *)
Theorem retry_drops_task s l b e a input f ws finish ctx timeout w' :
  tl_wf l -> pending_tasks s = AList l -> waiting l = b ++ e :: a ->
  heap s !! task_data e = Some (mk_task_request (f :: ws) finish ctx timeout) -> f (task_id e) ctx input (world s) = Ok (DICEY_TASK_RETRY, w') ->
  exists s' l', dicey_task_loop_advance (task_id e) input s = Ok s' /\ pending_tasks s' = AList l' /\ waiting l' = b ++ a /\
    ended s' = ended s /\ heap s' = heap s.
Proof.
  intros Wf Hp Hw Hh Hretry.
  assert (waiting l !! length b = Some e) as He by (by rewrite Hw, list_lookup_middle).
  assert (task_list_find_index l (task_id e) = Some (length b)) as Hf by (apply find_index_spec; [apply Wf|done]).
  unfold dicey_task_loop_advance, dicey_task_list_find. rewrite Hp. cbn [the_list obind]. rewrite Hf, He.
  unfold step_task, the_task. rewrite Hh. cbn [obind work task_ctx step_from]. rewrite Hretry. cbn [obind].
  unfold erase_pending, dicey_task_list_erase. cbn [with_world pending_tasks]. rewrite Hp. cbn [the_list obind]. rewrite Hf. cbn [obind].
  eexists _, _. split; [done|]. split; [done|]. split; [|done]. unfold task_list_erase_at.
  rewrite bool_decide_false by (apply lookup_lt_Some in He; lia). cbn [waiting]. rewrite Hw, take_app_length.
  rewrite drop_app_ge by lia. by replace (S (length b) - length b)%nat with 1%nat by lia.
Qed.

(** ** Stopping *)

Lemma cancel_from_spec err entries : forall s q subs l,
  loop_inv s q subs -> pending_tasks s = AList l -> waiting l = entries ->
  safe (fun s' => exists l', loop_inv s' q subs /\ pending_tasks s' = AList l' /\
    ended s' = ended s ++ ((fun e => mk_ending (task_id e) (task_data e) err) <$> reverse entries)) (cancel_from (length entries) err s).
Proof.
  induction entries as [|e b IH] using rev_ind; intros s q subs l Hi Hp Hw.
  { exists l. cbn. by rewrite app_nil_r. }
  rewrite length_app, Nat.add_1_r. cbn [cancel_from]. rewrite Hp. cbn [dicey_task_list_entries obind]. rewrite Hw, list_lookup_middle by done.
  destruct (pending_request s q subs l b e [] Hi Hp Hw) as (r & Hr & [_ _ Hend] & Hworld & Hnin & Wf).
  eapply safe_bind; [exact (complete_task_spec s l b e [] r err _ _ _ _ _ Hp Wf Hw Hr Hend Hworld Hnin)|].
  intros s1 (l1 & w1 & E1 & Hworld1 & W1 & H1 & H2 & H3 & H4).
  destruct (stepped_inv s l b [] e true s1 q subs Hp Hw Hi) as [Hi1 _].
  { subst s1. split; [done|]. exists l1, err. done. }
  rewrite app_nil_r in H3. eapply safe_mono; [apply (IH s1 q subs l1 Hi1); [by subst s1|done]|].
  intros s' (l' & Hi' & Hp' & He'). exists l'. split_and!; try done.
  rewrite He'. subst s1. cbn [ended]. rewrite reverse_snoc, fmap_cons, <- app_assoc. done.
Qed.

(** Freeing what is left in the queue, once there is no list of pending tasks. *)
Lemma free_incoming_queued s q err ptr subs :
  loop_inv s q subs -> (forall l, ptr <> AList l) ->
  match q with
  | [] => (let! queued := dicey_queue_deinit (queue s) in free_incoming queued err (with_pending ptr s)) = Ok (with_pending ptr s)
  | _ :: _ => exists f, (let! queued := dicey_queue_deinit (queue s) in free_incoming queued err (with_pending ptr s)) = Fault f /\
      (f = match ptr with NoList => AssertFailed | _ => UseAfterFree end \/ f = AssertFailed /\ aborts)
  end.
Proof.
  intros Hi Hptr. rewrite (deinit_all _ _ (l_queue _ _ _ Hi)). cbn [obind]. destruct q as [|t q']; [done|]. cbn [fmap list_fmap free_incoming].
  destruct (l_heap _ _ _ Hi t) as (r & Hr & [_ _ Hend]); [clear; set_solver|]. unfold complete_task, the_task.
  cbn [with_pending heap world pending_tasks]. rewrite Hr. cbn [obind].
  destruct (Hend subs err (length (work r)) (world s)) as [_ Hq]. pose proof (l_world _ _ _ Hi) as Hworld. cbn [fmap list_fmap] in Hworld.
  rewrite (ctx_at_request _ _ r Hr) in Hworld. specialize (Hq _ _ Hworld).
  assert (forall id, id ∈ (pending_of s).*1 -> 0 <= id) as Hids.
  { unfold pending_of. rewrite pend_ids. apply pending_ids_nonneg, Hi. }
  destruct (safe_ok _ _ (Hq Hids)) as [(w & -> & _)|[-> ?]]; cbn [obind]; [|eauto].
  destruct ptr as [|l|]; [eauto|by destruct (Hptr l)|eauto].
Qed.

(** Stopping the loop ends every pending task, the most recent first. But if a task is still in
    the queue, ending it searches the list of pending tasks after that list was freed (or fails an
    assertion when there never was a list). *)
Theorem stop_ends_pending_only s q subs err :
  loop_inv s q subs ->
  match q with
  | [] => safe (fun s' => ended s' =
      ended s ++ ((fun e => mk_ending (task_id e) (task_data e) err) <$> reverse (entries_of (pending_tasks s)))) (cancel_all_pending err s)
  | _ :: _ => exists f, cancel_all_pending err s = Fault f /\
      (f = match pending_tasks s with NoList => AssertFailed | _ => UseAfterFree end \/ f = AssertFailed /\ aborts)
  end.
Proof.
  intros Hi. unfold cancel_all_pending.
  pose proof (l_pending _ _ _ Hi) as Hok. destruct (pending_tasks s) as [|l|] eqn:Hp; [| |done]; cbn [dicey_task_list_entries obind entries_of].
  - cbn [length cancel_from obind]. rewrite Hp. pose proof (free_incoming_queued s q err NoList subs Hi ltac:(done)) as H.
    cbn [with_pending queue]. destruct q as [|t q]; [|exact H]. rewrite H. cbn. by rewrite app_nil_r.
  - pose proof (cancel_from_spec err (waiting l) s q subs l Hi Hp eq_refl) as H.
    destruct (safe_ok _ _ H) as [(s' & -> & l' & Hi' & Hp' & He')|[-> ?]]; cbn [obind]; [|by destruct q; eauto].
    rewrite Hp'. pose proof (free_incoming_queued s' q err FreedList subs Hi' ltac:(done)) as H'. cbn [with_pending queue].
    destruct q as [|t q]; [|exact H']. rewrite H'. cbn. by rewrite He'.
Qed.

End loop.

Arguments dicey_task_request : clear implicits.
Arguments dicey_task_loop : clear implicits.
Arguments work_fn : clear implicits.
Arguments loop_op : clear implicits.

(** ** Samples *)

(** A task that waits for input after its first step and counts its steps and its end in the
    world. *)
Definition count (result : dicey_task_result) : work_fn unit unit nat := fun _ _ _ w => Ok (result, S w).

Definition waiting_task (ms : Z) : dicey_task_request unit unit nat :=
  mk_task_request [count DICEY_TASK_CONTINUE; count DICEY_TASK_CONTINUE] (fun _ _ _ w => Ok (S w)) tt ms.

Definition no_global : Z -> option dicey_error -> nat -> res nat := fun _ _ w => Ok w.

Definition two_tasks : list (loop_op unit unit nat) :=
  [OpSubmit 1 (waiting_task 1000); OpSubmit 2 (waiting_task 60000); OpProcess (mk_timespec 10 0)].

Definition any_world (submitted : list nat) (pending : list (Z * option (unit * nat))) (queued : list (option (unit * nat))) (w : nat) : Prop := True.

Lemma two_tasks_ok : Forall (op_ok no_global any_world False) two_tasks.
Proof.
  do 2 (constructor; [split; [split; [done|by split_and!|done]|done]|]). by repeat constructor.
Qed.

Lemma two_tasks_inv :
  exists (s : dicey_task_loop unit unit nat) subs l, loop_inv no_global any_world False s [] subs /\ pending_tasks s = AList l /\
    waiting l = [mk_task 0 (mk_timespec 11 0) 1%nat; mk_task 1 (mk_timespec 70 0) 2%nat] /\ ended s = [].
Proof.
  destruct (safe_ok _ _ _ (exec_ops_inv (fun _ => true) no_global any_world False (fun _ => eq_refl) (fun _ _ _ _ _ _ _ _ _ => I) two_tasks (new_loop (I := unit) (C := unit) 0%nat) [] []
    (new_loop_inv _ _ _ 0%nat I) two_tasks_ok eq_refl)) as [([s subs] & E & q & Hi)|[_ []]].
  assert (match exec_ops (fun _ => true) no_global two_tasks (new_loop (I := unit) (C := unit) 0%nat, []) with
    | Ok (s, _) => dicey_queue_size (queue s) = 0%nat /\ ended s = [] /\
        match pending_tasks s with AList l => waiting l = [mk_task 0 (mk_timespec 11 0) 1%nat; mk_task 1 (mk_timespec 70 0) 2%nat] | _ => False end
    | _ => False end) as H by (vm_compute; auto).
  rewrite E in H. destruct H as (Hq & He & Hl). destruct (pending_tasks s) as [|l|] eqn:Hp; [done| |done].
  rewrite (size_rep _ _ (l_queue _ _ _ _ _ _ Hi)) in Hq. apply length_zero_iff_nil in Hq. subst q. by exists s, subs, l.
Qed.

Lemma tasks_end_exactly_once_witness :
  (exists s queued submitted, exec_ops (fun _ => true) no_global two_tasks (new_loop (I := unit) (C := unit) 0%nat, []) = Ok (s, submitted) /\ rep (queue s) queued /\
    submitted ≡ₚ ended_tasks s ++ tasks_of (pending_tasks s) ++ queued /\ NoDup submitted /\ any_world submitted (pending_of s) (ctx_at (heap s) <$> queued) (world s)) \/
  (exec_ops (fun _ => true) no_global two_tasks (new_loop (I := unit) (C := unit) 0%nat, []) = Fault AssertFailed /\ False).
Proof. apply tasks_end_exactly_once; [reflexivity|intros; exact I|exact I|exact two_tasks_ok|reflexivity]. Defined.

Lemma timeout_drops_next_task_witness :
  exists (s s' : dicey_task_loop unit unit nat) l', ended s = [] /\ length (tasks_of (pending_tasks s)) = 2%nat /\
    check_timeout no_global (mk_timespec 20 0) s = Ok s' /\ pending_tasks s' = AList l' /\ waiting l' = [] /\
    ended s' = [mk_ending 0 1 (Some DICEY_ETIMEDOUT)].
Proof.
  destruct two_tasks_inv as (s & subs & l & Hi & Hp & Hw & He).
  pose proof (timeout_drops_next_task no_global any_world False s [] subs l (mk_timespec 20 0) 0 (mk_task 0 (mk_timespec 11 0) 1%nat) (mk_task 1 (mk_timespec 70 0) 2%nat) Hi Hp) as H.
  destruct (safe_ok _ _ _ (H ltac:(rewrite Hw; split; [reflexivity|]; split; [reflexivity|]; intros j x Hj; lia) ltac:(rewrite Hw; reflexivity)))
    as [(s' & E & l' & Hp' & He' & Hw' & _)|[_ []]].
  exists s, s', l'. rewrite Hw in Hw'. rewrite He in He'. split; [exact He|]. split; [unfold tasks_of; rewrite Hp; cbn [entries_of]; rewrite Hw; reflexivity|].
  split; [exact E|]. split; [exact Hp'|]. split; [exact Hw'|exact He'].
Defined.

Lemma stop_ends_pending_only_witness :
  exists (s s' : dicey_task_loop unit unit nat), cancel_all_pending no_global (Some DICEY_ECANCELLED) s = Ok s' /\
    ended s' = [mk_ending 1 2 (Some DICEY_ECANCELLED); mk_ending 0 1 (Some DICEY_ECANCELLED)].
Proof.
  destruct two_tasks_inv as (s & subs & l & Hi & Hp & Hw & He).
  destruct (safe_ok _ _ _ (stop_ends_pending_only no_global any_world False s [] subs (Some DICEY_ECANCELLED) Hi)) as [(s' & E & He')|[_ []]].
  exists s, s'. split; [exact E|]. rewrite He', He, Hp. cbn [entries_of]. rewrite Hw. reflexivity.
Defined.

Lemma retry_drops_task_witness :
  let s := mk_loop {[ 1%nat := mk_task_request [count DICEY_TASK_RETRY] (fun _ _ _ w => Ok w) tt 0 ]} empty_queue
             (AList (mk_task_list 1 128 [mk_task 0 FOREVER_TIME 1%nat])) [] 0%nat in
  exists s' l', dicey_task_loop_advance no_global 0 None s = Ok s' /\ pending_tasks s' = AList l' /\ waiting l' = [] /\
    ended s' = [] /\ heap s' = heap s.
Proof.
  intros s. apply (retry_drops_task no_global s (mk_task_list 1 128 [mk_task 0 FOREVER_TIME 1%nat]) [] (mk_task 0 FOREVER_TIME 1%nat) [] None
    (count DICEY_TASK_RETRY) [] (fun _ _ _ w => Ok w) tt 0 1%nat); try reflexivity.
  constructor; cbn; try lia.
  - intros i j a b Hij Ha Hb. destruct i as [|i], j as [|j]; cbn in *; try lia; discriminate.
  - intros i a Ha. destruct i as [|i]; cbn in *; [injection Ha as <-; cbn; lia|discriminate].
  - vm_compute. discriminate.
Defined.
