(* ===== verification/WaitingList.v ===== *)
(** * Dynamic arrays and the client's waiting list (src/sup/array.inc, src/ipc/client/waiting-list.c)

    An array is one block, a header with its length and capacity followed by the elements; the
    pointer to it moves when it grows. The waiting list is the array of the requests a client has
    sent: which sequence number the answer will carry, and which task waits for it. *)

From S2P Require Import Prelude Errors Types Views.
From stdpp Require Import list.

#[local] Open Scope Z_scope.

Section array.
Context {V : Type}.

(** [sizeof] of an element, and which blocks can be allocated. *)
Variable value_size : Z.
Variable alloc_ok : Z -> bool.

Definition ARRAY_BASE_CAP : Z := 128.
Definition ARRAY_HEADER : Z := 16.

(** [len] is the length of [ar_data]; the cells after it are not initialised. *)
Record array : Type := mk_array { ar_cap : Z; ar_data : list V }.

(** The pointer to an array: NULL, an array, or memory that was freed and is still pointed to. *)
Inductive array_ptr : Type :=
  | NoArray
  | AnArray (list : array)
  | FreedArray.

(** Reading the array behind a pointer that is not NULL. *)
Definition array_at (ptr : array_ptr) : res (option array) :=
  match ptr with NoArray => Ok None | AnArray list => Ok (Some list) | FreedArray => Fault UseAfterFree end.

Definition array_grow_if_needed (ptr : array_ptr) : res (bool * array_ptr) :=
  let! list := array_at ptr in
  let len := match list with Some a => zlen (ar_data a) | None => 0 end in
  let old_cap := match list with Some a => ar_cap a | None => 0 end in
  if len <? old_cap then Ok (true, ptr) else
  let new_cap := if negb (old_cap =? 0) then u64 (old_cap * 3) / 2 else ARRAY_BASE_CAP in
  if new_cap <? old_cap then Ok (false, ptr) else
  if alloc_ok (u64 (ARRAY_HEADER + new_cap * value_size))
  then Ok (true, AnArray (mk_array new_cap (match list with Some a => ar_data a | None => [] end)))
  else
    (* free( *list_ptr): the pointer itself is not reset *)
    Ok (false, match ptr with AnArray _ => FreedArray | _ => NoArray end).

(** The location of the new element is its index. *)
Definition array_append (ptr : array_ptr) (value : V) : res (option nat * array_ptr) :=
  let! (ok, ptr') := array_grow_if_needed ptr in
  if negb ok then Ok (None, ptr') else
  let! list := array_at ptr' in
  match list with
  | None => Fault NullDeref
  | Some a =>
      let! _ := (if zlen (ar_data a) <? ar_cap a then Ok tt else Fault OutOfBounds) in
      Ok (Some (length (ar_data a)), AnArray (mk_array (ar_cap a) (ar_data a ++ [value])))
  end.

(** The elements from [begin] to [end]: none when the pointer is NULL. *)
Definition array_elements (ptr : array_ptr) : res (list V) :=
  let! list := array_at ptr in Ok (match list with Some a => ar_data a | None => [] end).

Definition array_clear (ptr : array_ptr) : res array_ptr :=
  let! list := array_at ptr in Ok (match list with Some a => AnArray (mk_array (ar_cap a) []) | None => ptr end).

Definition array_delete (ptr : array_ptr) : res array_ptr :=
  let! list := array_at ptr in Ok (match list with Some _ => FreedArray | None => ptr end).

Definition array_erase_at (ptr : array_ptr) (entry : nat) : res (V * array_ptr) :=
  let! list := array_at ptr in
  match list with
  | None => Fault AssertFailed
  | Some a =>
      match ar_data a !! entry with
      | None => Fault AssertFailed
      | Some value => Ok (value, AnArray (mk_array (ar_cap a) (take entry (ar_data a) ++ drop (S entry) (ar_data a))))
      end
  end.

(** [erase] takes a pointer to an element: its index. *)
Definition array_erase (ptr : array_ptr) (value : nat) : res (V * array_ptr) :=
  let! list := array_at ptr in
  match list with
  | None => Fault AssertFailed
  | Some a => let! _ := oassert (bool_decide (value < length (ar_data a))%nat) in array_erase_at ptr value
  end.

(** ** Well-formed arrays *)

Definition array_ok (ptr : array_ptr) : Prop :=
  match ptr with
  | NoArray => True
  | AnArray a => zlen (ar_data a) <= ar_cap a /\ ARRAY_BASE_CAP <= ar_cap a < 2 ^ 64
  | FreedArray => False
  end.

Definition array_values (ptr : array_ptr) : list V := match ptr with AnArray a => ar_data a | _ => [] end.

Lemma array_elements_ok ptr : array_ok ptr -> array_elements ptr = Ok (array_values ptr).
Proof. by destruct ptr. Qed.

(** Appending: the element is last; or the array is as large as it can be; or there is no memory,
    and the array is gone. *)
Lemma append_ok ptr value :
  array_ok ptr ->
  (exists ptr', array_append ptr value = Ok (Some (length (array_values ptr)), ptr') /\ array_ok ptr' /\
     array_values ptr' = array_values ptr ++ [value]) \/
  (2 ^ 62 <= zlen (array_values ptr) /\ array_append ptr value = Ok (None, ptr)) \/
  ((exists n, alloc_ok n = false) /\
   array_append ptr value = Ok (None, match ptr with AnArray _ => FreedArray | _ => NoArray end)).
Proof.
  intros Hok. unfold array_append, array_grow_if_needed. destruct ptr as [|a|]; [| |done]; cbn [array_at obind array_values] in *.
  - change (0 <? 0) with false. cbn -[Z.ltb]. change (ARRAY_BASE_CAP <? 0) with false. destruct (alloc_ok _) eqn:Ea; [left|right; right; eauto].
    cbn. eexists. split; [done|]. split; [|done]. by vm_compute.
  - destruct Hok as [Hle Hcap]. unfold ARRAY_BASE_CAP in *. pose proof (zlen_nonneg (ar_data a)).
    destruct (Z.ltb_spec (zlen (ar_data a)) (ar_cap a)) as [Hroom|Hfull].
    + cbn. destruct (Z.ltb_spec (zlen (ar_data a)) (ar_cap a)); [|lia]. left. cbn. eexists. split; [done|]. split; [|done].
      cbn. rewrite zlen_app. change (zlen [value]) with 1. unfold ARRAY_BASE_CAP. lia.
    + destruct (Z.eqb_spec (ar_cap a) 0); [lia|]. cbn [negb]. set (nc := u64 (ar_cap a * 3) / 2).
      destruct (Z.ltb_spec nc (ar_cap a)) as [Hlt|Hge].
      { right; left. split; [|done]. unfold nc, u64, wrap in Hlt. Z.to_euclidean_division_equations; nia. }
      assert (ar_cap a < nc < 2 ^ 64) as Hn by (unfold nc, u64, wrap in *; Z.to_euclidean_division_equations; nia).
      destruct (alloc_ok _) eqn:Ea; [left|right; right; eauto]. cbn.
      destruct (Z.ltb_spec (zlen (ar_data a)) nc); [|lia]. cbn. eexists. split; [done|]. split; [|done].
      cbn. rewrite zlen_app. change (zlen [value]) with 1. unfold ARRAY_BASE_CAP. lia.
Qed.

Lemma erase_ok ptr i v :
  array_ok ptr -> array_values ptr !! i = Some v ->
  exists ptr', array_erase ptr i = Ok (v, ptr') /\ array_ok ptr' /\ ptr' <> NoArray /\ array_values ptr' = take i (array_values ptr) ++ drop (S i) (array_values ptr).
Proof.
  intros Hok Hi. destruct ptr as [|a|]; [done| |done]. cbn [array_values] in *. unfold array_erase, array_erase_at. cbn [array_at obind].
  rewrite bool_decide_true by (by eapply lookup_lt_Some). cbn [oassert obind]. rewrite Hi. eexists. split; [done|]. split; [|split; [|done]]; [|discriminate].
  destruct Hok as [Hle Hcap]. cbn. unfold zlen in *. rewrite length_app, length_take, length_drop. lia.
Qed.

End array.

Arguments array : clear implicits.
Arguments array_ptr : clear implicits.

(** ** The waiting list *)

Record dicey_waiting_task : Type := mk_waiting { packet_seq : Z; waiting_id : Z }.

#[export] Instance dicey_waiting_task_eq_dec : EqDecision dicey_waiting_task.
Proof. solve_decision. Defined.

Definition WAITING_TASK_SIZE : Z := 16.

Abbreviation dicey_waiting_list := (array dicey_waiting_task).
Abbreviation waiting_ptr := (array_ptr dicey_waiting_task).

Definition dicey_waiting_list_append (alloc_ok : Z -> bool) (ptr : waiting_ptr) (task : dicey_waiting_task)
    : res (option nat * waiting_ptr) :=
  array_append WAITING_TASK_SIZE alloc_ok ptr task.

(** The loop over the elements: the index of the first one that satisfies the test. *)
Fixpoint search (test : dicey_waiting_task -> bool) (l : list dicey_waiting_task) (i : nat) : option nat :=
  match l with
  | [] => None
  | t :: l' => if test t then Some i else search test l' (S i)
  end.

(** The task that waited for the sequence number, if any. *)
Definition dicey_waiting_list_remove_seq (ptr : waiting_ptr) (seq : Z) : res (option Z * waiting_ptr) :=
  let! _ := oassert (match ptr with NoArray => false | _ => true end) in
  let! l := array_elements ptr in
  match search (fun t => packet_seq t =? seq) l 0 with
  | Some i => let! (t, ptr') := array_erase ptr i in Ok (Some (waiting_id t), ptr')
  | None => Ok (None, ptr)
  end.

(** The sequence number the task waited for, if any. *)
Definition dicey_waiting_list_remove_task (ptr : waiting_ptr) (task_id : Z) : res (option Z * waiting_ptr) :=
  match ptr with
  | NoArray => Ok (None, ptr)
  | _ =>
      let! l := array_elements ptr in
      match search (fun t => waiting_id t =? task_id) l 0 with
      | Some i => let! (t, ptr') := array_erase ptr i in Ok (Some (packet_seq t), ptr')
      | None => Ok (None, ptr)
      end
  end.

Definition dicey_waiting_list_clear (ptr : waiting_ptr) : res waiting_ptr := array_clear ptr.

(** ** Lemmas *)

Lemma search_spec test l : forall k,
  match search test l k with
  | Some i => exists b t a, l = b ++ t :: a /\ i = (k + length b)%nat /\ test t = true /\ Forall (fun x => test x = false) b
  | None => Forall (fun x => test x = false) l
  end.
Proof.
  induction l as [|x l IH]; intros k; cbn; [constructor|]. destruct (test x) eqn:E.
  - exists [], x, l. split_and!; [done|cbn; lia|done|constructor].
  - specialize (IH (S k)). destruct (search test l (S k)) as [i|]; [|by constructor].
    destruct IH as (b & t & a & -> & -> & Ht & Hb). exists (x :: b), t, a. split_and!; [done|cbn; lia|done|by constructor].
Qed.

(** The first element that satisfies a test, and its removal. *)
Lemma search_erase test ptr :
  array_ok ptr ->
  (exists i b t a ptr', search test (array_values ptr) 0 = Some i /\ array_erase ptr i = Ok (t, ptr') /\ array_values ptr = b ++ t :: a /\
     test t = true /\ Forall (fun x => test x = false) b /\ array_ok ptr' /\ ptr' <> NoArray /\ array_values ptr' = b ++ a) \/
  (search test (array_values ptr) 0 = None /\ Forall (fun x => test x = false) (array_values ptr)).
Proof.
  intros Hok. pose proof (search_spec test (array_values ptr) 0) as H. destruct (search test (array_values ptr) 0) as [i|] eqn:Ei; [left|by right].
  destruct H as (b & t & a & Hl & -> & Ht & Hb). cbn in *.
  destruct (erase_ok ptr (length b) t Hok) as (ptr' & He & Hok' & Hne' & Hl'); [by rewrite Hl, list_lookup_middle|].
  exists (length b), b, t, a, ptr'. split_and!; try done. rewrite Hl', Hl, take_app_length, drop_app_ge by lia.
  by replace (S (length b) - length b)%nat with 1%nat by lia.
Qed.

Lemma remove_seq_lemma ptr seq :
  array_ok ptr -> ptr <> NoArray ->
  (exists b t a ptr', dicey_waiting_list_remove_seq ptr seq = Ok (Some (waiting_id t), ptr') /\ array_values ptr = b ++ t :: a /\
     packet_seq t = seq /\ (seq ∉ packet_seq <$> b) /\ array_ok ptr' /\ ptr' <> NoArray /\ array_values ptr' = b ++ a) \/
  (dicey_waiting_list_remove_seq ptr seq = Ok (None, ptr) /\ (seq ∉ packet_seq <$> array_values ptr)).
Proof.
  intros Hok Hne. unfold dicey_waiting_list_remove_seq. rewrite array_elements_ok by done. destruct ptr as [|l|]; [done| |done].
  cbn [oassert obind].
  assert (forall b, Forall (fun t => (packet_seq t =? seq) = false) b -> seq ∉ (packet_seq <$> b)) as Hn.
  { intros b Hb (x & -> & Hx)%list_elem_of_fmap. rewrite Forall_forall in Hb. apply Hb in Hx. by rewrite Z.eqb_refl in Hx. }
  destruct (search_erase (fun t => packet_seq t =? seq) (AnArray l) Hok) as [(i & b & t & a & ptr' & -> & -> & Hl & Ht & Hb & Hok' & Hne' & Hl')|[-> Hall]]; [left|right].
  - exists b, t, a, ptr'. cbn [obind]. apply Z.eqb_eq in Ht. split_and!; auto.
  - auto.
Qed.

Lemma remove_task_lemma ptr id :
  array_ok ptr ->
  (exists b t a ptr', dicey_waiting_list_remove_task ptr id = Ok (Some (packet_seq t), ptr') /\ array_values ptr = b ++ t :: a /\
     waiting_id t = id /\ array_ok ptr' /\ (ptr <> NoArray -> ptr' <> NoArray) /\ array_values ptr' = b ++ a) \/
  (dicey_waiting_list_remove_task ptr id = Ok (None, ptr) /\ id ∉ (waiting_id <$> array_values ptr)).
Proof.
  intros Hok. unfold dicey_waiting_list_remove_task. rewrite array_elements_ok by done. destruct ptr as [|l|]; [right|cbn [obind]|done].
  { split; [done|]. apply not_elem_of_nil. }
  destruct (search_erase (fun t => waiting_id t =? id) (AnArray l) Hok) as [(i & b & t & a & ptr' & -> & He & Hl & Ht & Hb & Hok' & Hne' & Hl')|[-> Hall]]; [left|right].
  - exists b, t, a, ptr'. rewrite He. cbn [obind]. apply Z.eqb_eq in Ht. split_and!; auto.
  - split; [done|]. intros (x & -> & Hx)%list_elem_of_fmap. rewrite Forall_forall in Hall. apply Hall in Hx. by rewrite Z.eqb_refl in Hx.
Qed.
