(* ===== verification/PendingReqs.v ===== *)
(** * Pending requests (src/ipc/server/pending-reqs.c)

    For each client the server keeps the requests it has accepted and not yet answered in a
    circular buffer ordered by sequence number, with holes where requests were answered out of
    order, and finds them by binary search.

    The model keeps the indices at the width of [size_t]. Of a request it has the fields that this
    file looks at; the others are one value of a type [R]. *)

From S2P Require Import Prelude Errors Types Views Writer ValueWrite ValueProbe Value Codec Payload Packet.

Section pending.
Context {R : Type}.

(** The zero value of the other fields; and which blocks of how many requests can be allocated. *)
Variable rest0 : R.
Variable calloc_ok : Z -> bool.

Record dicey_request : Type := mk_request {
  packet_seq : Z; req_op : dicey_op; req_message : dicey_message; req_rest : R;
}.

Definition zero_message : dicey_message := mk_message DICEY_OP_INVALID None (mk_selector None None) zero_value.
Definition zero_request : dicey_request := mk_request 0 DICEY_OP_INVALID zero_message rest0.

Record dicey_pending_requests : Type := mk_pending {
  last_seq : Z; p_start : Z; p_end : Z; p_len : Z; p_cap : Z; p_reqs : list dicey_request;
}.

Definition FIRST_SEQ : Z := 2.
Definition STARTING_CAP : Z := 12.

Definition index_of (reqs : dicey_pending_requests) (i : Z) : Z := u64 (p_start reqs + i) mod p_cap reqs.

Definition is_hole (req : dicey_request) : bool := negb (bool_decide (is_Some (msg_path (req_message req)))).

Definition next_index (reqs : dicey_pending_requests) (i : Z) : Z := u64 (i + 1) mod p_cap reqs.

Definition next_seq (cur_seq : Z) : Z := if cur_seq <? UINT32_MAX - 2 then u32 (cur_seq + 2) else FIRST_SEQ.

Definition req_at (reqs : dicey_pending_requests) (i : Z) : res dicey_request :=
  match p_reqs reqs !! Z.to_nat i with Some req => Ok req | None => Fault OutOfBounds end.

Definition pending_request_invalidate (reqs : dicey_pending_requests) (m : Z) : res dicey_pending_requests :=
  let i := index_of reqs m in
  let! req := req_at reqs i in
  let! _ := oassert (negb (is_hole req)) in
  let cells := <[Z.to_nat i := mk_request (packet_seq req) (req_op req) zero_message (req_rest req)]> (p_reqs reqs) in
  let start := if i =? p_start reqs then next_index reqs i else p_start reqs in
  let end_ :=
    if i =? p_start reqs then p_end reqs
    else if next_index reqs i =? p_end reqs then next_index reqs (p_end reqs) else p_end reqs in
  Ok (mk_pending (last_seq reqs) start end_ (u64 (p_len reqs - 1)) (p_cap reqs) cells).

Definition pending_request_is_valid (req : dicey_request) : bool :=
  negb (bool_decide (req_op req = DICEY_OP_INVALID)) && bool_decide (is_Some (msg_path (req_message req))) &&
  dicey_selector_is_valid (msg_selector (req_message req)).

Definition total_len (reqs : dicey_pending_requests) : res Z :=
  let diff := Z.abs (p_end reqs - p_start reqs) in
  let! _ := oassert (diff <=? p_cap reqs) in
  Ok (if p_start reqs <=? p_end reqs then diff else p_cap reqs - diff).

Definition request_at (reqs : dicey_pending_requests) (i : Z) : res dicey_request := req_at reqs (index_of reqs i).

(** The loop of [search_seq]: the request and its position, [None] when there is none. *)
Fixpoint search_loop (fuel : nat) (reqs : dicey_pending_requests) (seq l r : Z) : res (option (dicey_request * Z)) :=
  match fuel with
  | O => OutOfFuel
  | S fuel' =>
      if negb (l <=? r) then Ok None else
      let m := u64 (l + r) / 2 in
      let! req := request_at reqs m in
      if packet_seq req <? seq then search_loop fuel' reqs seq (u64 (m + 1)) r
      else if seq <? packet_seq req then search_loop fuel' reqs seq l (u64 (m - 1))
      else if pending_request_is_valid req then Ok (Some (req, m))
      else search_loop fuel' reqs seq l r
  end.

Definition search_seq (fuel : nat) (reqs : dicey_pending_requests) (seq : Z) : res (option (dicey_request * Z)) :=
  let! _ := oassert (negb (seq =? 0)) in
  if p_len reqs =? 0 then Ok None else
  let! total := total_len reqs in
  search_loop fuel reqs seq 0 (u64 (total - 1)).

(** The copying loop of [pending_requests_make_room]: the non-holes from [i] on go to consecutive
    cells from [o] on. In place, the cells read are the cells being written. *)
Fixpoint compact_loop (fuel : nat) (in_place : bool) (old : dicey_pending_requests) (new_cap : Z)
    (cells : list dicey_request) (i o : Z) : res (list dicey_request) :=
  match fuel with
  | O => OutOfFuel
  | S fuel' =>
      match (if in_place then cells else p_reqs old) !! Z.to_nat i with
      | None => Fault OutOfBounds
      | Some req =>
          let '(cells', o') :=
            (if is_hole req then (cells, o) else (<[Z.to_nat o := req]> cells, u64 (o + 1) mod new_cap)) in
          let i' := next_index old i in
          if i' =? p_end old then Ok cells' else compact_loop fuel' in_place old new_cap cells' i' o'
      end
  end.

(** Fails with [DICEY_ENOMEM], or returns the requests with room in them. *)
Definition pending_requests_make_room (reqs : dicey_pending_requests) : res dicey_pending_requests :=
  let! _ := oassert (p_len reqs <=? p_cap reqs) in
  let occupation := u64 (p_len reqs * 100) / p_cap reqs in
  let reallocd := 80 <? occupation in
  let new_cap := u64 (p_cap reqs * 3) / 2 in
  if reallocd && negb (calloc_ok new_cap) then Err DICEY_ENOMEM else
  let new :=
    if reallocd
    then mk_pending (last_seq reqs) 0 (p_len reqs) (p_len reqs) new_cap (replicate (Z.to_nat new_cap) zero_request)
    else reqs in
  if p_len reqs =? 0 then Ok new else
  let! cells := compact_loop (Z.to_nat (p_cap reqs)) (negb reallocd) reqs (p_cap new) (p_reqs new)
                  (p_start reqs) (p_start new) in
  Ok (mk_pending (last_seq new) (p_start new) (p_end new) (p_len new) (p_cap new) cells).

Definition pending_requests_new (last_seq : Z) : option dicey_pending_requests :=
  if calloc_ok STARTING_CAP
  then Some (mk_pending last_seq 0 0 0 STARTING_CAP (replicate (Z.to_nat STARTING_CAP) zero_request))
  else None.

Definition room_available (reqs : dicey_pending_requests) : bool :=
  negb (p_cap reqs =? 0) && negb (p_start reqs =? p_end reqs).

Definition validate_seqnum (reqs : option dicey_pending_requests) (seq : Z) : bool :=
  match reqs with
  | None => seq =? FIRST_SEQ
  | Some reqs => seq =? next_seq (last_seq reqs)
  end.

Definition set_last_seq (reqs : dicey_pending_requests) (seq : Z) : dicey_pending_requests :=
  mk_pending seq (p_start reqs) (p_end reqs) (p_len reqs) (p_cap reqs) (p_reqs reqs).

(** The store at the end of [dicey_pending_requests_add]; returns the index of the new request. *)
Definition add_at_end (reqs : dicey_pending_requests) (req : dicey_request) : res (Z * dicey_pending_requests) :=
  let! _ := req_at reqs (p_end reqs) in
  Ok (p_end reqs,
      mk_pending (last_seq reqs) (p_start reqs) (next_index reqs (p_end reqs)) (u64 (p_len reqs + 1)) (p_cap reqs)
        (<[Z.to_nat (p_end reqs) := req]> (p_reqs reqs))).

(** The error or the index of the request, and the pointer afterwards. *)
Definition dicey_pending_requests_add (reqs_ptr : option dicey_pending_requests) (req : dicey_request)
    : res ((dicey_error + Z) * option dicey_pending_requests) :=
  let! _ := oassert (pending_request_is_valid req) in
  if negb (validate_seqnum reqs_ptr (packet_seq req)) then Ok (inl DICEY_ESEQNUM_MISMATCH, reqs_ptr) else
  match reqs_ptr with
  | Some reqs =>
      let reqs := set_last_seq reqs (packet_seq req) in
      match (if room_available reqs then Ok reqs else pending_requests_make_room reqs) with
      | Ok reqs => let! (i, reqs') := add_at_end reqs req in Ok (inr i, Some reqs')
      | Err e => Ok (inl e, Some reqs)
      | Fault f => Fault f
      | OutOfFuel => OutOfFuel
      end
  | None =>
      match pending_requests_new (packet_seq req) with
      | None => Ok (inl DICEY_ENOMEM, None)
      | Some reqs => let! (i, reqs') := add_at_end reqs req in Ok (inr i, Some reqs')
      end
  end.

Definition dicey_pending_requests_complete (fuel : nat) (reqs : option dicey_pending_requests) (seq : Z)
    : res (dicey_request * option dicey_pending_requests) :=
  match reqs with
  | None => Err DICEY_ENOENT
  | Some reqs =>
      if p_len reqs =? 0 then Err DICEY_ENOENT else
      let! sres := search_seq fuel reqs seq in
      match sres with
      | None => Err DICEY_ENOENT
      | Some (req, index) =>
          let! reqs' := pending_request_invalidate reqs index in Ok (req, Some reqs')
      end
  end.

Definition dicey_pending_requests_get (fuel : nat) (reqs : option dicey_pending_requests) (seq : Z)
    : res (option dicey_request) :=
  match reqs with
  | None => Ok None
  | Some reqs =>
      if p_len reqs =? 0 then Ok None else
      let! sres := search_seq fuel reqs seq in Ok (fst <$> sres)
  end.

Definition dicey_pending_requests_is_pending (fuel : nat) (reqs : option dicey_pending_requests) (seq : Z) : res bool :=
  let! r := dicey_pending_requests_get fuel reqs seq in Ok (bool_decide (is_Some r)).

(** The callback may act on the state [S] of the server. *)
Section prune.
Context {S : Type}.
Variable prune_fn : dicey_request -> stm S dicey_error bool.

Fixpoint prune_loop (fuel : nat) (reqs : dicey_pending_requests) (i : Z) : stm S dicey_error dicey_pending_requests :=
  match fuel with
  | O => slift OutOfFuel
  | Datatypes.S fuel' =>
      if i =? p_end reqs then sret reqs else
      do! req <- slift (req_at reqs i) ;
      do! prune <- (if is_hole req then sret false else prune_fn req) ;
      do! reqs' <- slift
        (if prune then
           let! r := pending_request_invalidate reqs i in
           Ok (mk_pending (last_seq r) (p_start r) (p_end r) (u64 (p_len r - 1)) (p_cap r) (p_reqs r))
         else Ok reqs) ;
      prune_loop fuel' reqs' (next_index reqs' i)
  end.

Definition dicey_pending_requests_prune (fuel : nat) (reqs : option dicey_pending_requests)
    : stm S dicey_error (option dicey_pending_requests) :=
  match reqs with
  | None => sret None
  | Some reqs =>
      if p_len reqs =? 0 then sret (Some reqs) else do! reqs' <- prune_loop fuel reqs (p_start reqs) ; sret (Some reqs')
  end.

End prune.

Definition dicey_pending_request_skip (reqs_ptr : option dicey_pending_requests) (seq : Z)
    : dicey_error * option dicey_pending_requests :=
  if negb (validate_seqnum reqs_ptr seq) then (DICEY_ESEQNUM_MISMATCH, reqs_ptr) else
  match reqs_ptr with
  | Some reqs => (DICEY_OK, Some (set_last_seq reqs seq))
  | None =>
      match pending_requests_new seq with
      | Some reqs => (DICEY_OK, Some reqs)
      | None => (DICEY_ENOMEM, None)
      end
  end.

(** ** Requests answered in order *)

(** The buffer holds the requests [l] and no holes, ordered by sequence number. *)
Record in_order (p : dicey_pending_requests) (l : list dicey_request) : Prop := {
  o_cap : STARTING_CAP <= p_cap p <= 2 ^ 33;
  o_reqs : zlen (p_reqs p) = p_cap p;
  o_start : 0 <= p_start p < p_cap p;
  o_len : p_len p = zlen l;
  o_le : zlen l <= p_cap p;
  o_end : p_end p = (p_start p + zlen l) mod p_cap p;
  o_slots : forall i r, l !! i = Some r -> p_reqs p !! Z.to_nat ((p_start p + Z.of_nat i) mod p_cap p) = Some r;
  o_valid : forall i r, l !! i = Some r -> pending_request_is_valid r = true;
  o_sorted : forall i j a b, (i < j)%nat -> l !! i = Some a -> l !! j = Some b -> packet_seq a < packet_seq b;
  o_seqs : forall i r, l !! i = Some r -> 0 < packet_seq r <= last_seq p;
  o_last : 0 < last_seq p <= UINT32_MAX;
}.

Lemma mod_cases a c : 0 < c -> 0 <= a < 2 * c -> (a < c /\ a mod c = a) \/ (c <= a /\ a mod c = a - c).
Proof.
  intros Hc Ha. destruct (Z.lt_ge_cases a c) as [H|H]; [left|right]; (split; [done|]).
  - apply Z.mod_small. lia.
  - symmetry. apply (Z.mod_unique_pos _ _ 1); lia.
Qed.

Lemma u64_small z : 0 <= z < 2 ^ 64 -> u64 z = z.
Proof. intros. by apply Z.mod_small. Qed.

Lemma lookup_zlen {A} (l : list A) (i : Z) : 0 <= i < zlen l -> exists r, l !! Z.to_nat i = Some r.
Proof. intros H. destruct (lookup_lt_is_Some_2 l (Z.to_nat i)) as [r Hr]; [unfold zlen in H; lia|eauto]. Qed.

(** Sequence numbers are distinct positive 32-bit numbers, so there are not many requests. *)
Lemma in_order_small p l : in_order p l -> zlen l <= UINT32_MAX.
Proof.
  intros O. assert (forall i r, l !! i = Some r -> Z.of_nat i < packet_seq r) as H.
  { induction i as [|i IH]; intros r Hr; [pose proof (o_seqs _ _ O _ _ Hr); lia|].
    destruct (lookup_lt_is_Some_2 l i) as [a Ha]; [apply lookup_lt_Some in Hr; lia|].
    pose proof (IH _ Ha). pose proof (o_sorted _ _ O i (S i) _ _ ltac:(lia) Ha Hr). lia. }
  destruct l as [|x l']; [done|]. destruct (lookup_lt_is_Some_2 (x :: l') (length l')) as [r Hr]; [cbn; lia|].
  pose proof (H _ _ Hr). pose proof (o_seqs _ _ O _ _ Hr). pose proof (o_last _ _ O). rewrite zlen_cons. unfold zlen. lia.
Qed.

Lemma request_at_in_order p l m r :
  in_order p l -> 0 <= m -> l !! Z.to_nat m = Some r -> request_at p m = Ok r.
Proof.
  intros O Hm Hr. pose proof (o_slots _ _ O _ _ Hr) as H. rewrite Z2Nat.id in H by done.
  apply lookup_lt_Some in Hr. pose proof (o_cap _ _ O) as Hc. unfold STARTING_CAP in Hc. pose proof (o_start _ _ O). pose proof (o_le _ _ O). unfold zlen in *.
  unfold request_at, index_of, req_at. rewrite u64_small by lia. by rewrite H.
Qed.

(** Binary search finds the request at [t] from any interval that contains it. *)
Lemma search_finds p l t r :
  in_order p l -> 0 <= t -> l !! Z.to_nat t = Some r -> forall fuel lo hi,
  0 <= lo <= t -> t <= hi < zlen l -> hi - lo < Z.of_nat fuel -> search_loop fuel p (packet_seq r) lo hi = Ok (Some (r, t)).
Proof.
  intros O Ht Hr. pose proof (in_order_small p l O) as Hs. unfold UINT32_MAX in Hs.
  induction fuel as [|fuel IH]; intros lo hi Hlo Hhi Hf; [lia|]. cbn [search_loop].
  destruct (Z.leb_spec lo hi); [|lia]. cbn [negb]. rewrite (u64_small (lo + hi)) by lia.
  set (m := (lo + hi) / 2). assert (lo <= m <= hi) as Hm by (unfold m; Z.to_euclidean_division_equations; lia). clearbody m.
  destruct (lookup_zlen l m) as [x Hx]; [lia|]. rewrite (request_at_in_order p l m x) by (done || lia). cbn [obind].
  destruct (Z.lt_trichotomy m t) as [Hmt|[->|Hmt]].
  - pose proof (o_sorted _ _ O (Z.to_nat m) (Z.to_nat t) _ _ ltac:(lia) Hx Hr). destruct (Z.ltb_spec (packet_seq x) (packet_seq r)); [|lia].
    rewrite u64_small by lia. apply IH; lia.
  - rewrite Hr in Hx. injection Hx as <-. rewrite Z.ltb_irrefl. by rewrite (o_valid _ _ O _ _ Hr).
  - pose proof (o_sorted _ _ O (Z.to_nat t) (Z.to_nat m) _ _ ltac:(lia) Hr Hx). destruct (Z.ltb_spec (packet_seq x) (packet_seq r)); [lia|].
    destruct (Z.ltb_spec (packet_seq r) (packet_seq x)); [|lia]. rewrite u64_small by lia. apply IH; lia.
Qed.

(** A number after all the others is not found. *)
Lemma search_misses p l seq :
  in_order p l -> last_seq p < seq -> forall fuel lo,
  0 <= lo <= zlen l -> zlen l - lo < Z.of_nat fuel -> zlen l <> 0 -> search_loop fuel p seq lo (zlen l - 1) = Ok None.
Proof.
  intros O Hq. pose proof (in_order_small p l O) as Hs. unfold UINT32_MAX in Hs.
  induction fuel as [|fuel IH]; intros lo Hlo Hf Hne; [lia|]. cbn [search_loop].
  destruct (Z.leb_spec lo (zlen l - 1)); [|done]. cbn [negb]. rewrite (u64_small (lo + (zlen l - 1))) by lia.
  set (m := (lo + (zlen l - 1)) / 2). assert (lo <= m <= zlen l - 1) as Hm by (unfold m; Z.to_euclidean_division_equations; lia). clearbody m.
  destruct (lookup_zlen l m) as [x Hx]; [lia|]. rewrite (request_at_in_order p l m x) by (done || lia). cbn [obind].
  pose proof (o_seqs _ _ O _ _ Hx). destruct (Z.ltb_spec (packet_seq x) seq); [|lia]. rewrite u64_small by lia. apply IH; lia.
Qed.

Lemma total_len_in_order p l : in_order p l -> zlen l < p_cap p -> total_len p = Ok (zlen l).
Proof.
  intros O Hl. pose proof (o_cap _ _ O) as Hc. unfold STARTING_CAP in Hc. pose proof (o_start _ _ O). pose proof (zlen_nonneg l). unfold total_len. rewrite (o_end _ _ O).
  destruct (mod_cases (p_start p + zlen l) (p_cap p)) as [[? ->]|[? ->]]; [lia|lia| |].
  - destruct (Z.leb_spec (Z.abs (p_start p + zlen l - p_start p)) (p_cap p)); [|lia]. cbn [oassert obind].
    destruct (Z.leb_spec (p_start p) (p_start p + zlen l)); [|lia]. f_equal. lia.
  - destruct (Z.leb_spec (Z.abs (p_start p + zlen l - p_cap p - p_start p)) (p_cap p)); [|lia]. cbn [oassert obind].
    destruct (Z.leb_spec (p_start p) (p_start p + zlen l - p_cap p)); [lia|]. f_equal. lia.
Qed.

Lemma search_seq_in_order p l i r fuel :
  in_order p l -> zlen l < p_cap p -> l !! i = Some r -> zlen l <= Z.of_nat fuel ->
  search_seq fuel p (packet_seq r) = Ok (Some (r, Z.of_nat i)).
Proof.
  intros O Hl Hr Hf. pose proof (o_seqs _ _ O _ _ Hr). pose proof (in_order_small p l O) as Hs. unfold UINT32_MAX in Hs.
  pose proof (lookup_lt_Some _ _ _ Hr) as Hi. unfold search_seq. destruct (Z.eqb_spec (packet_seq r) 0); [lia|]. cbn [negb oassert obind].
  rewrite (o_len _ _ O). destruct (Z.eqb_spec (zlen l) 0); [unfold zlen in *; lia|].
  rewrite (total_len_in_order p l) by done. cbn [obind]. rewrite u64_small by (unfold zlen in *; lia).
  apply (search_finds p l); try done; rewrite ?Nat2Z.id; try done; unfold zlen in *; lia.
Qed.

(** Slots at different distances from the start are different cells. *)
Lemma slot_ne s c i j :
  0 < c -> 0 <= s < c -> 0 <= i < c -> 0 <= j < c -> i <> j ->
  Z.to_nat ((s + i) mod c) <> Z.to_nat ((s + j) mod c).
Proof.
  intros Hc Hs Hi Hj Hne. destruct (mod_cases (s + i) c) as [[? ->]|[? ->]]; [lia|lia| |];
    destruct (mod_cases (s + j) c) as [[? ->]|[? ->]]; lia.
Qed.

Lemma mod_step a b c : 0 < c -> ((a + b) mod c + 1) mod c = (a + (b + 1)) mod c.
Proof. intros Hc. rewrite Zplus_mod_idemp_l. f_equal. lia. Qed.

Lemma valid_not_hole r : pending_request_is_valid r = true -> is_hole r = false.
Proof. unfold pending_request_is_valid, is_hole. destruct (bool_decide (is_Some (msg_path (req_message r)))); [done|]. rewrite andb_false_r. done. Qed.

(** Invalidating the oldest request removes it. *)
Lemma invalidate_first p r l :
  in_order p (r :: l) -> exists p', pending_request_invalidate p 0 = Ok p' /\ in_order p' l /\ last_seq p' = last_seq p.
Proof.
  intros O. pose proof (o_cap _ _ O) as Hc. unfold STARTING_CAP in Hc. pose proof (o_start _ _ O) as Hs. pose proof (o_le _ _ O) as Hle.
  pose proof (o_len _ _ O) as Hlen. pose proof (zlen_nonneg l) as Hl0. rewrite zlen_cons in *.
  assert (index_of p 0 = p_start p) as Ei by (unfold index_of; rewrite Z.add_0_r, u64_small by lia; apply Z.mod_small; lia).
  assert (p_reqs p !! Z.to_nat (p_start p) = Some r) as Er.
  { pose proof (o_slots _ _ O 0%nat r eq_refl) as H. rewrite Z.add_0_r, Z.mod_small in H by lia. done. }
  unfold pending_request_invalidate, req_at. rewrite Ei, Er. cbn [obind].
  rewrite (valid_not_hole r (o_valid _ _ O 0%nat r eq_refl)). cbn [negb oassert obind]. rewrite Z.eqb_refl.
  eexists. split; [done|]. split; [|done]. unfold next_index. rewrite (u64_small (p_start p + 1)) by lia. rewrite Hlen, u64_small by lia.
  assert (forall i, ((p_start p + 1) mod p_cap p + i) mod p_cap p = (p_start p + (i + 1)) mod p_cap p) as Hsh.
  { intros i. rewrite Zplus_mod_idemp_l. f_equal. lia. }
  constructor; cbn [p_cap p_reqs p_start p_len p_end last_seq].
  - done.
  - unfold zlen. rewrite length_insert. apply (o_reqs _ _ O).
  - apply Z.mod_pos_bound. lia.
  - lia.
  - lia.
  - rewrite Hsh, (o_end _ _ O), zlen_cons. f_equal. lia.
  - intros i x Hx. pose proof (lookup_lt_Some _ _ _ Hx). unfold zlen in *. rewrite Hsh, list_lookup_insert_ne.
    + replace (Z.of_nat i + 1) with (Z.of_nat (S i)) by lia. by apply (o_slots _ _ O (S i)).
    + replace (p_start p) with ((p_start p + 0) mod p_cap p) at 1 by (rewrite Z.add_0_r; apply Z.mod_small; lia).
      apply slot_ne; lia.
  - intros i x Hx. by apply (o_valid _ _ O (S i)).
  - intros i j a b Hij Ha Hb. by apply (o_sorted _ _ O (S i) (S j)); [lia| |].
  - intros i x Hx. by apply (o_seqs _ _ O (S i)).
  - apply (o_last _ _ O).
Qed.

(** Adding a request with the latest number to a buffer with room. *)
Lemma add_at_end_in_order p l req :
  in_order p l -> zlen l < p_cap p -> pending_request_is_valid req = true -> packet_seq req = last_seq p ->
  (forall i r, l !! i = Some r -> packet_seq r < packet_seq req) ->
  exists i p', add_at_end p req = Ok (i, p') /\ in_order p' (l ++ [req]) /\ last_seq p' = last_seq p /\ p_cap p' = p_cap p.
Proof.
  intros O Hl Hv Hq Hmax. pose proof (o_cap _ _ O) as Hc. unfold STARTING_CAP in Hc. pose proof (o_start _ _ O) as Hs. pose proof (zlen_nonneg l) as Hl0.
  pose proof (Z.mod_pos_bound (p_start p + zlen l) (p_cap p) ltac:(lia)) as He. pose proof (o_reqs _ _ O) as Hr.
  unfold add_at_end, req_at. rewrite (o_end _ _ O). destruct (lookup_zlen (p_reqs p) ((p_start p + zlen l) mod p_cap p)) as [x ->]; [lia|].
  cbn [obind]. do 2 eexists. split; [done|]. split; [|done]. unfold next_index.
  rewrite (u64_small _) by lia. rewrite (o_len _ _ O), (u64_small (zlen l + 1)) by lia.
  assert (forall i r, (l ++ [req]) !! i = Some r -> (l !! i = Some r /\ Z.of_nat i < zlen l) \/ (i = length l /\ r = req)) as Hcase.
  { intros i r [H|[Hge H]]%lookup_app_Some; [left; split; [done|]; apply lookup_lt_Some in H; unfold zlen; lia|].
    right. destruct (i - length l)%nat as [|n] eqn:E; cbn in H; [injection H as <-; split; [lia|done]|done]. }
  constructor; cbn [p_cap p_reqs p_start p_len p_end last_seq].
  - done.
  - unfold zlen. by rewrite length_insert.
  - done.
  - rewrite zlen_app. done.
  - rewrite zlen_app. change (zlen [req]) with 1. lia.
  - rewrite zlen_app. change (zlen [req]) with 1. apply mod_step. lia.
  - intros i r [[H Hi]|[-> ->]]%Hcase.
    + rewrite list_lookup_insert_ne by (apply slot_ne; lia). by apply (o_slots _ _ O).
    + apply list_lookup_insert_eq. unfold zlen in *. lia.
  - intros i r [[H _]|[-> ->]]%Hcase; [by apply (o_valid _ _ O i)|done].
  - intros i j a b Hij [[Ha Hi]|[-> ->]]%Hcase [[Hb Hj]|[-> ->]]%Hcase.
    + by apply (o_sorted _ _ O i j).
    + by apply (Hmax i).
    + unfold zlen in Hj. lia.
    + lia.
  - intros i r [[H _]|[-> ->]]%Hcase; [by apply (o_seqs _ _ O i)|]. pose proof (o_last _ _ O). lia.
  - apply (o_last _ _ O).
Qed.

(** ** Growing a full buffer *)

Lemma compact_new p l new_cap :
  in_order p l -> zlen l = p_cap p -> zlen l < new_cap <= 2 ^ 33 -> forall fuel k cells,
  0 <= k < zlen l -> zlen l - k <= Z.of_nat fuel -> zlen cells = new_cap ->
  (forall i, Z.of_nat i < k -> cells !! i = l !! i) ->
  exists cells', compact_loop fuel false p new_cap cells ((p_start p + k) mod p_cap p) k = Ok cells' /\
    zlen cells' = new_cap /\ forall i, Z.of_nat i < zlen l -> cells' !! i = l !! i.
Proof.
  intros O Hfull Hnew. pose proof (o_cap _ _ O) as Hc. pose proof (o_start _ _ O) as Hs. unfold STARTING_CAP in Hc.
  induction fuel as [|fuel IH]; intros k cells Hk Hf Hlen Hpre; [lia|]. cbn [compact_loop].
  destruct (lookup_zlen l k) as [r Hr]; [lia|]. pose proof (o_slots _ _ O _ _ Hr) as Hslot. rewrite Z2Nat.id in Hslot by lia.
  rewrite Hslot, (valid_not_hole r) by (by apply (o_valid _ _ O (Z.to_nat k))).
  pose proof (Z.mod_pos_bound (p_start p + k) (p_cap p) ltac:(lia)).
  unfold next_index. rewrite (u64_small _) by lia. rewrite (u64_small (k + 1)) by lia. rewrite mod_step by lia.
  rewrite (Z.mod_small (k + 1)) by lia.
  assert (zlen (<[Z.to_nat k := r]> cells) = new_cap) as Hlen' by (unfold zlen in *; by rewrite length_insert).
  assert (forall i, Z.of_nat i < k + 1 -> <[Z.to_nat k := r]> cells !! i = l !! i) as Hpre'.
  { intros i Hi. destruct (decide (i = Z.to_nat k)) as [->|Hne]; [rewrite Hr; apply list_lookup_insert_eq; unfold zlen in *; lia|].
    rewrite list_lookup_insert_ne by done. apply Hpre. lia. }
  rewrite (o_end _ _ O). destruct (Z.eqb_spec ((p_start p + (k + 1)) mod p_cap p) ((p_start p + zlen l) mod p_cap p)) as [E|E].
  - eexists. split; [done|]. split; [done|]. destruct (decide (k + 1 = zlen l)) as [<-|Hne]; [done|]. exfalso.
    assert ((p_start p + zlen l) mod p_cap p = (p_start p + 0) mod p_cap p) as E0.
    { rewrite Hfull. replace (p_start p + p_cap p) with (p_start p + 0 + 1 * p_cap p) by lia. apply Z_mod_plus_full. }
    apply (slot_ne (p_start p) (p_cap p) (k + 1) 0); try lia.
  - apply IH; try done; [|lia]. split; [lia|]. destruct (decide (k + 1 = zlen l)) as [He|]; [|lia]. by rewrite He in E.
Qed.

Lemma room_unavailable p l : in_order p l -> room_available p = false <-> zlen l = 0 \/ zlen l = p_cap p.
Proof.
  intros O. pose proof (o_cap _ _ O) as Hc. pose proof (o_start _ _ O) as Hs. pose proof (o_le _ _ O). pose proof (zlen_nonneg l).
  unfold STARTING_CAP in Hc. unfold room_available. rewrite (o_end _ _ O).
  destruct (Z.eqb_spec (p_cap p) 0); [lia|]. cbn [negb andb].
  destruct (mod_cases (p_start p + zlen l) (p_cap p)) as [[? ->]|[? ->]]; [lia|lia| |];
    match goal with |- context [?a =? ?b] => destruct (Z.eqb_spec a b) end; cbn; split; intros; try done; lia.
Qed.

Lemma make_room_in_order p l :
  in_order p l -> zlen l = 0 \/ zlen l = p_cap p ->
  pending_requests_make_room p = Err DICEY_ENOMEM /\ (exists n, calloc_ok n = false) \/
  exists p', pending_requests_make_room p = Ok p' /\ in_order p' l /\ zlen l < p_cap p' /\ last_seq p' = last_seq p.
Proof.
  intros O Hl. pose proof (o_cap _ _ O) as Hc. pose proof (in_order_small p l O) as Hsm. unfold STARTING_CAP, UINT32_MAX in *.
  pose proof (o_le _ _ O) as Hle. unfold pending_requests_make_room. rewrite (o_len _ _ O).
  destruct (Z.leb_spec (zlen l) (p_cap p)); [|lia]. cbn [oassert obind]. pose proof (zlen_nonneg l). rewrite (u64_small (zlen l * 100)) by lia.
  destruct Hl as [Hzero|Hfull].
  - rewrite Hzero, Z.div_0_l by lia. cbn. right. exists p. split_and!; try done. lia.
  - rewrite Hfull, Z.mul_comm, Z.div_mul by lia. change (80 <? 100) with true. cbn [andb negb].
    rewrite (u64_small (p_cap p * 3)) by lia. set (nc := p_cap p * 3 / 2).
    assert (p_cap p < nc <= 2 ^ 33) as Hnc by (unfold nc; Z.to_euclidean_division_equations; lia). clearbody nc.
    destruct (calloc_ok nc) eqn:Ea; [|left; eauto]. cbn [negb]. right.
    destruct (Z.eqb_spec (p_cap p) 0); [lia|]. cbn [p_cap p_reqs p_start last_seq p_end p_len].
    destruct (compact_new p l nc O Hfull ltac:(lia) (Z.to_nat (p_cap p)) 0 (replicate (Z.to_nat nc) zero_request)) as (cells & E & Hlen & Hcells);
      [lia|lia|unfold zlen; rewrite length_replicate; lia|lia|].
    rewrite Z.add_0_r, Z.mod_small in E by (pose proof (o_start _ _ O); lia). rewrite E. cbn [obind].
    eexists. split; [done|]. cbn [p_cap last_seq]. split_and!; [|lia|done].
    constructor; cbn [p_cap p_reqs p_start p_len p_end last_seq]; try lia; try (by apply O); try done.
    + unfold STARTING_CAP. lia.
    + rewrite Z.add_0_l. symmetry. rewrite Hfull. apply Z.mod_small. lia.
    + intros i r Hr. pose proof (lookup_lt_Some _ _ _ Hr). unfold zlen in *. rewrite Z.add_0_l, Z.mod_small by lia.
      rewrite Nat2Z.id, Hcells by lia. done.
Qed.

Lemma in_order_set_last p l seq :
  in_order p l -> last_seq p <= seq <= UINT32_MAX -> in_order (set_last_seq p seq) l.
Proof.
  intros O Hs. pose proof (o_last _ _ O). destruct O. constructor; try done; cbn [set_last_seq last_seq]; [|lia].
  intros i r Hr. pose proof (o_seqs0 _ _ Hr). lia.
Qed.

Lemma in_order_new seq : 0 < seq <= UINT32_MAX -> calloc_ok STARTING_CAP = true ->
  exists p, pending_requests_new seq = Some p /\ in_order p [] /\ last_seq p = seq.
Proof.
  intros Hs Ha. unfold pending_requests_new. rewrite Ha. eexists. split; [done|]. split; [|done].
  constructor; cbn [p_cap p_reqs p_start p_len p_end last_seq]; unfold STARTING_CAP; try done; try lia.
Qed.

(** What adding does to the requests of a client: [l] before, [l'] after. *)
Definition pending (ptr : option dicey_pending_requests) (l : list dicey_request) : Prop :=
  match ptr with Some p => in_order p l | None => l = [] end.

Definition expected_seq (ptr : option dicey_pending_requests) : Z :=
  match ptr with Some p => last_seq p + 2 | None => FIRST_SEQ end.

Lemma add_lemma ptr l req :
  pending ptr l -> (forall p, ptr = Some p -> last_seq p < UINT32_MAX - 2) -> pending_request_is_valid req = true ->
  0 <= packet_seq req -> (forall n, calloc_ok n = true) ->
  if packet_seq req =? expected_seq ptr
  then exists i p', dicey_pending_requests_add ptr req = Ok (inr i, Some p') /\ in_order p' (l ++ [req]) /\ last_seq p' = packet_seq req
  else dicey_pending_requests_add ptr req = Ok (inl DICEY_ESEQNUM_MISMATCH, ptr).
Proof.
  intros Hp Hlast Hv Hq Ha. unfold dicey_pending_requests_add. rewrite Hv. cbn [oassert obind]. destruct ptr as [p|]; cbn [validate_seqnum expected_seq pending] in *.
  - specialize (Hlast p eq_refl). pose proof (o_last _ _ Hp) as Hls. unfold next_seq. destruct (Z.ltb_spec (last_seq p) (UINT32_MAX - 2)); [|lia].
    rewrite u32_small by lia. destruct (Z.eqb_spec (packet_seq req) (last_seq p + 2)) as [E|E]; [|done]. cbn [negb].
    pose proof (in_order_set_last p l (packet_seq req) Hp ltac:(lia)) as O. set (q := set_last_seq p (packet_seq req)) in *.
    assert (forall q', in_order q' l -> zlen l < p_cap q' -> last_seq q' = packet_seq req ->
      exists i p', add_at_end q' req = Ok (i, p') /\ in_order p' (l ++ [req]) /\ last_seq p' = packet_seq req) as Hadd.
    { intros q' O' Hl Hlq. destruct (add_at_end_in_order q' l req O' Hl Hv) as (i & p' & H1 & H2 & H3 & _); [done| |by exists i, p'; rewrite H3].
      intros i r Hr. pose proof (o_seqs _ _ Hp _ _ Hr). lia. }
    destruct (room_available q) eqn:Er.
    + destruct (Hadd q O) as (i & p' & -> & H2 & H3); [|done|cbn [obind]; eauto 10]. destruct (Z.lt_ge_cases (zlen l) (p_cap q)); [done|].
      pose proof (proj2 (room_unavailable q l O)) as Hno. pose proof (o_le _ _ O). rewrite Er in Hno. discriminate Hno. right. lia.
    + apply (room_unavailable q l O) in Er. destruct (make_room_in_order q l O Er) as [[_ [n Hn]]|(q' & -> & O' & Hl' & Hq')]; [by rewrite Ha in Hn|].
      destruct (Hadd q' O' Hl' Hq') as (i & p' & -> & H2 & H3). cbn [obind]. eauto 10.
  - subst l. destruct (Z.eqb_spec (packet_seq req) FIRST_SEQ) as [E|E]; [|done]. cbn [negb].
    destruct (in_order_new (packet_seq req)) as (p & -> & O & Hq'); [rewrite E; done|done|].
    destruct (add_at_end_in_order p [] req O) as (i & p' & -> & H2 & H3 & _); [pose proof (o_cap _ _ O) as Hc; unfold STARTING_CAP in Hc; change (zlen (@nil dicey_request)) with 0; lia|done|done|done|].
    cbn [obind]. exists i, p'. split_and!; try done. by rewrite H3.
Qed.

(** C28: requests that are answered in the order they came are handled correctly, as long as memory
    is available and the last sequence number is below [UINT32_MAX - 2]. A request with the expected
    sequence number is appended (in a larger buffer when it was full) and any other number is
    refused. When the buffer is not full (on a full one the search does not end, see
    [full_buffer_search_hangs]) every pending request is found by its number, a number not yet used
    is not found, and completing the oldest request returns it and removes just it. *)
Theorem pending_in_order_correct ptr l :
  pending ptr l -> (forall p, ptr = Some p -> last_seq p < UINT32_MAX - 2) -> (forall n, calloc_ok n = true) ->
  (forall req, pending_request_is_valid req = true -> 0 <= packet_seq req ->
    if packet_seq req =? expected_seq ptr
    then exists i p', dicey_pending_requests_add ptr req = Ok (inr i, Some p') /\ pending (Some p') (l ++ [req])
    else dicey_pending_requests_add ptr req = Ok (inl DICEY_ESEQNUM_MISMATCH, ptr)) /\
  forall fuel, zlen l < Z.of_nat fuel -> (forall p, ptr = Some p -> zlen l < p_cap p) ->
    (forall r, In r l -> dicey_pending_requests_get fuel ptr (packet_seq r) = Ok (Some r)) /\
    (forall seq, expected_seq ptr <= seq -> dicey_pending_requests_get fuel ptr seq = Ok None) /\
    match l with
    | [] => True
    | r :: l' => exists ptr', dicey_pending_requests_complete fuel ptr (packet_seq r) = Ok (r, ptr') /\ pending ptr' l'
    end.
Proof.
  intros Hp Hlast Ha. split.
  { intros req Hv Hq. pose proof (add_lemma ptr l req Hp Hlast Hv Hq Ha) as H. destruct (packet_seq req =? expected_seq ptr); [|done].
    destruct H as (i & p' & ? & ? & _). eauto. }
  intros fuel Hf Hroom. destruct ptr as [p|]; cbn [pending expected_seq] in *.
  2:{ subst l. split_and!; [by intros|done|done]. }
  specialize (Hroom p eq_refl). assert (forall i r, l !! i = Some r -> search_seq fuel p (packet_seq r) = Ok (Some (r, Z.of_nat i))) as Hfind.
  { intros i r Hr. apply (search_seq_in_order p l); try done. lia. }
  pose proof (o_len _ _ Hp) as Hlen. split_and!.
  - intros r Hr. apply list_elem_of_In, list_elem_of_lookup in Hr as [i Hi]. unfold dicey_pending_requests_get. rewrite (Hfind i r Hi), Hlen.
    destruct (Z.eqb_spec (zlen l) 0); [apply lookup_lt_Some in Hi; unfold zlen in *; lia|done].
  - intros seq Hseq. unfold dicey_pending_requests_get. rewrite Hlen. destruct (Z.eqb_spec (zlen l) 0); [done|].
    unfold search_seq. pose proof (o_last _ _ Hp). destruct (Z.eqb_spec seq 0); [lia|]. cbn [negb oassert obind]. rewrite Hlen.
    destruct (Z.eqb_spec (zlen l) 0); [done|]. rewrite (total_len_in_order p l) by done. cbn [obind].
    pose proof (in_order_small p l Hp). pose proof (zlen_nonneg l). unfold UINT32_MAX in *. rewrite u64_small by lia.
    rewrite (search_misses p l) by (done || lia). done.
  - destruct l as [|r l']; [done|]. unfold dicey_pending_requests_complete. rewrite Hlen. pose proof (zlen_nonneg l'). rewrite zlen_cons.
    destruct (Z.eqb_spec (1 + zlen l') 0); [lia|]. rewrite (Hfind 0%nat r eq_refl). cbn [obind]. change (Z.of_nat 0) with 0.
    destruct (invalidate_first p r l' Hp) as (p' & -> & O' & _). cbn [obind]. by exists (Some p').
Qed.

(** ** Sequences of operations on one client *)

Inductive pending_op : Type :=
  | OpAdd (req : dicey_request)
  | OpComplete (seq : Z).

(** Runs operations that succeed; [fuel] is for each search. *)
Fixpoint pending_run (fuel : nat) (ops : list pending_op) (ptr : option dicey_pending_requests)
    : res (option dicey_pending_requests) :=
  match ops with
  | [] => Ok ptr
  | OpAdd req :: ops' =>
      let! (r, ptr') := dicey_pending_requests_add ptr req in
      match r with inl e => Err e | inr _ => pending_run fuel ops' ptr' end
  | OpComplete seq :: ops' =>
      let! (_, ptr') := dicey_pending_requests_complete fuel ptr seq in pending_run fuel ops' ptr'
  end.

(** ** Searches that do not end *)

(** One turn of the search that goes on: the new interval. *)
Definition search_turn (p : dicey_pending_requests) (seq : Z) (lr : Z * Z) : option (Z * Z) :=
  let '(l, r) := lr in
  if negb (l <=? r) then None else
  let m := u64 (l + r) / 2 in
  match request_at p m with
  | Ok req =>
      if packet_seq req <? seq then Some (u64 (m + 1), r)
      else if seq <? packet_seq req then Some (l, u64 (m - 1))
      else if pending_request_is_valid req then None
      else Some (l, r)
  | _ => None
  end.

Fixpoint search_turns (n : nat) (p : dicey_pending_requests) (seq : Z) (lr : Z * Z) : option (Z * Z) :=
  match n with
  | O => Some lr
  | S n' => match search_turn p seq lr with Some lr' => search_turns n' p seq lr' | None => None end
  end.

Lemma search_turns_loop n p seq lr lr' fuel :
  search_turns n p seq lr = Some lr' -> search_loop (n + fuel) p seq lr.1 lr.2 = search_loop fuel p seq lr'.1 lr'.2.
Proof.
  revert lr. induction n as [|n IH]; intros [l r] H; cbn [search_turns Nat.add] in *; [by injection H as <-|].
  cbn [search_loop fst snd]. unfold search_turn in H. destruct (l <=? r); [|done]. cbn [negb] in *.
  destruct (request_at p (u64 (l + r) / 2)) as [req| | |]; try done. cbn [obind].
  destruct (packet_seq req <? seq); [by apply (IH (_, _))|]. destruct (seq <? packet_seq req); [by apply (IH (_, _))|].
  destruct (pending_request_is_valid req); [done|]. by apply (IH (_, _)).
Qed.

Lemma search_turns_short n p seq lr lr' fuel :
  search_turns n p seq lr = Some lr' -> (fuel <= n)%nat -> search_loop fuel p seq lr.1 lr.2 = OutOfFuel.
Proof.
  revert lr fuel. induction n as [|n IH]; intros [l r] [|fuel] H Hf; try done; [lia|]. cbn [search_turns] in H.
  cbn [search_loop fst snd]. unfold search_turn in H. destruct (l <=? r); [|done]. cbn [negb] in *.
  destruct (request_at p (u64 (l + r) / 2)) as [req| | |]; try done. cbn [obind].
  destruct (packet_seq req <? seq); [apply (IH (_, _)); [done|lia]|].
  destruct (seq <? packet_seq req); [apply (IH (_, _)); [done|lia]|].
  destruct (pending_request_is_valid req); [done|]. apply (IH (_, _)); [done|lia].
Qed.

(** A search that comes back to an interval it had before never ends. *)
Lemma search_diverges n p seq lr :
  (0 < n)%nat -> search_turns n p seq lr = Some lr -> forall fuel, search_loop fuel p seq lr.1 lr.2 = OutOfFuel.
Proof.
  intros Hn H. induction fuel as [fuel IH] using lt_wf_ind. destruct (Nat.le_gt_cases fuel n) as [Hf|Hf].
  - by apply (search_turns_short n p seq lr lr).
  - replace fuel with (n + (fuel - n))%nat by lia. rewrite (search_turns_loop n p seq lr lr) by done. apply IH. lia.
Qed.

Lemma complete_search fuel p seq total :
  (p_len p =? 0) = false -> (seq =? 0) = false -> total_len p = Ok total ->
  dicey_pending_requests_complete fuel (Some p) seq =
  let! sres := search_loop fuel p seq 0 (u64 (total - 1)) in
  match sres with
  | None => Err DICEY_ENOENT
  | Some (req, index) => let! p' := pending_request_invalidate p index in Ok (req, Some p')
  end.
Proof. intros Hl Hs Ht. unfold dicey_pending_requests_complete, search_seq. rewrite Hl, Hs, Ht. done. Qed.

Lemma complete_diverges n k p seq total lr :
  (p_len p =? 0) = false -> (seq =? 0) = false -> total_len p = Ok total ->
  search_turns n p seq (0, u64 (total - 1)) = Some lr -> search_turns (S k) p seq lr = Some lr ->
  forall fuel, dicey_pending_requests_complete fuel (Some p) seq = OutOfFuel.
Proof.
  intros Hl Hs Ht Hn Hk fuel. rewrite (complete_search fuel p seq total) by done.
  assert (search_loop fuel p seq 0 (u64 (total - 1)) = OutOfFuel) as ->; [|done].
  destruct (Nat.le_gt_cases fuel n) as [Hf|Hf]; [by apply (search_turns_short n p seq (0, u64 (total - 1)) lr)|].
  replace fuel with (n + (fuel - n))%nat by lia. rewrite (search_turns_loop n p seq (0, u64 (total - 1)) lr) by done.
  apply (search_diverges (S k)); [lia|done].
Qed.

Lemma complete_misses n p seq total l r :
  (p_len p =? 0) = false -> (seq =? 0) = false -> total_len p = Ok total ->
  search_turns n p seq (0, u64 (total - 1)) = Some (l, r) -> (l <=? r) = false ->
  forall fuel, dicey_pending_requests_complete (n + S fuel) (Some p) seq = Err DICEY_ENOENT.
Proof.
  intros Hl Hs Ht Hn Hlr fuel. rewrite (complete_search _ p seq total) by done.
  rewrite (search_turns_loop n p seq (0, u64 (total - 1)) (l, r)) by done. cbn [search_loop fst snd]. by rewrite Hlr.
Qed.

End pending.

(** ** Requests answered out of order *)

Section defects.
Context {R : Type}.
Variable rest0 : R.

(** Read requests for any elements, by sequence number. *)
Variables path trait elem : Z -> cstr.
Variable rest : Z -> R.

Definition get_request (s : Z) : dicey_request (R := R) :=
  mk_request s DICEY_OP_GET
    (mk_message DICEY_OP_GET (Some (path s)) (mk_selector (Some (trait s)) (Some (elem s))) zero_value) (rest s).

Definition requests (seqs : list Z) : list pending_op := (fun s => OpAdd (get_request s)) <$> seqs.

Definition up_to_24 : list Z := [2; 4; 6; 8; 10; 12; 14; 16; 18; 20; 22; 24].

(** A request that takes longer than two later ones is lost. When the newest request is
    answered, the end of the buffer moves forward instead of back and leaves a cell with sequence
    number zero among the others: after the answers to 4 and 6, the answer to 2, which is still
    pending, is refused. *)
Theorem slow_request_lost :
  exists p, pending_run rest0 (fun _ => true) 64
      (requests [2; 4] ++ [OpComplete 4] ++ requests [6] ++ [OpComplete 6]) None = Ok (Some p) /\
    p_len p = 1 /\ In (get_request 2) (p_reqs p) /\
    forall fuel, dicey_pending_requests_complete (2 + S fuel) (Some p) 2 = Err DICEY_ENOENT.
Proof.
  eexists. split; [vm_compute; reflexivity|]. split; [reflexivity|]. split; [left; reflexivity|].
  apply (complete_misses 2 _ 2 5 3 2); vm_compute; reflexivity.
Qed.

(** With exactly twelve pending requests the buffer is full, its length is taken for zero and
    the interval of the search is the whole range of [size_t]: answering the ninth request never
    returns. *)
Theorem full_buffer_search_hangs :
  exists p, pending_run rest0 (fun _ => true) 64 (requests up_to_24) None = Ok (Some p) /\ p_len p = 12 /\
    In (get_request 18) (p_reqs p) /\ forall fuel, dicey_pending_requests_complete fuel (Some p) 18 = OutOfFuel.
Proof.
  eexists. split; [vm_compute; reflexivity|]. split; [reflexivity|]. split; [cbn; tauto|].
  apply (complete_diverges 64 0 _ 18 0 (1, SIZE_MAX)); vm_compute; reflexivity.
Qed.

(** Making room in a full buffer with holes compacts it but leaves the end where it was: the
    next request overwrites the oldest one, which is still pending, and answering that one never
    returns. *)
Theorem compaction_loses_oldest :
  exists p, pending_run rest0 (fun _ => true) 64
      (requests up_to_24 ++ [OpComplete 4; OpComplete 6; OpComplete 8] ++ requests [26]) None = Ok (Some p) /\
    p_len p = 10 /\ ~ In (get_request 2) (p_reqs p) /\
    forall fuel, dicey_pending_requests_complete fuel (Some p) 2 = OutOfFuel.
Proof.
  eexists. split; [vm_compute; reflexivity|]. split; [reflexivity|]. split.
  - intros H. apply (in_map packet_seq) in H. vm_compute in H. repeat destruct H as [H|H]; discriminate || destruct H.
  - apply (complete_diverges 1 63 _ 2 1 (0, SIZE_MAX)); vm_compute; reflexivity.
Qed.

(** A request that was answered leaves a hole with its sequence number; answering it again
    makes the search examine the hole for ever. *)
Theorem second_completion_hangs :
  exists p, pending_run rest0 (fun _ => true) 64 (requests [2; 4; 6] ++ [OpComplete 4]) None = Ok (Some p) /\
    forall fuel, dicey_pending_requests_complete fuel (Some p) 4 = OutOfFuel.
Proof.
  eexists. split; [vm_compute; reflexivity|].
  apply (complete_diverges 0 0 _ 4 3 (0, 2)); vm_compute; reflexivity.
Qed.

(** Pruning passes the index of a cell where the distance from the start is expected: when the
    first two pending requests match, the second one is looked up in the wrong cell and an
    assertion fails. *)
Theorem prune_fails_assertion :
  exists p, pending_run rest0 (fun _ => true) 64 (requests [2; 4]) None = Ok (Some p) /\
    forall fuel, (dicey_pending_requests_prune (fun _ => sret true) (2 + fuel) (Some p) tt).1 = Fault AssertFailed.
Proof. eexists. split; [vm_compute; reflexivity|]. intros fuel. vm_compute. reflexivity. Qed.

End defects.

Lemma pending_in_order_correct_witness :
  let mk := get_request (fun _ => [47]) (fun _ => [116]) (fun _ => [101]) (fun _ => tt) in
  match dicey_pending_requests_add tt (fun _ => true) None (mk 2) with
  | Ok (_, ptr) =>
      dicey_pending_requests_get 5 ptr 2 = Ok (Some (mk 2)) /\
      exists ptr', dicey_pending_requests_complete 5 ptr 2 = Ok (mk 2, ptr') /\ pending ptr' []
  | _ => False
  end.
Proof.
  intros mk. destruct (add_lemma tt (fun _ => true) None [] (mk 2)) as (i & p & E & O & Hl).
  - reflexivity.
  - discriminate.
  - reflexivity.
  - vm_compute. discriminate.
  - reflexivity.
  - rewrite E. destruct (pending_in_order_correct tt (fun _ => true) (Some p) [mk 2] O) as [_ H].
    + intros p' [= <-]. rewrite Hl. reflexivity.
    + reflexivity.
    + destruct (H 5%nat) as (Hget & _ & Hdone).
      * reflexivity.
      * intros p' [= <-]. pose proof (o_cap _ _ O) as Hc. unfold STARTING_CAP in Hc. change (zlen [mk 2]) with 1. lia.
      * split; [apply (Hget (mk 2)); left; reflexivity|exact Hdone].
Defined.
