(* ===== verification/Table.v ===== *)
(** * What the registry needs from its containers

    The class [Table] is the contract between the hash tables and the components that use them:
    string keys, values that are never NULL, and operations that act on a finite map. The hash
    table of Hashtable is an instance; the theorems about traits and the registry are proved
    against the class. *)

From S2P Require Import Prelude Errors Types Views Hashtable.
From stdpp Require Import gmap list.

#[local] Open Scope Z_scope.

Class Table (T : Type -> Type) : Type := {
  (** The operations. *)
  tbl_empty {A} : T A;
  tbl_set {A} : T A -> cstr -> A -> res (dicey_hash_set_result * option A * T A);
  tbl_get {A} : T A -> cstr -> res (option A);
  tbl_remove {A} : T A -> cstr -> res (option A * T A);
  tbl_entries {A} : T A -> res (list (cstr * A));
  tbl_is_null {A} : T A -> bool;
  (** The map, when a table is well formed, when all allocations succeed, and the cells in use, which
      removals do not give back. *)
  tbl_map {A} : T A -> gmap cstr A;
  tbl_ok {A} : T A -> Prop;
  tbl_memory : Prop;
  tbl_used {A} : T A -> Z;
  (** The laws. *)
  tbl_empty_ok {A} : tbl_ok (@tbl_empty A) /\ tbl_map (@tbl_empty A) = ∅ /\ tbl_is_null (@tbl_empty A) = true;
  tbl_null {A} (t : T A) : tbl_is_null t = true -> t = tbl_empty;
  tbl_set_ok {A} (t : T A) k v : tbl_ok t -> Z.of_nat (size (tbl_map t)) < MAX_LEN ->
    exists r old t', tbl_set t k v = Ok (r, old, t') /\ tbl_ok t' /\
      match r with
      | DICEY_HASH_SET_UPDATED => is_Some old /\ tbl_map t !! k = old /\ tbl_map t' = <[k := v]> (tbl_map t) /\ tbl_is_null t' = false
      | DICEY_HASH_SET_ADDED => old = None /\ tbl_map t !! k = None /\ tbl_map t' = <[k := v]> (tbl_map t) /\ tbl_is_null t' = false
      | DICEY_HASH_SET_FAILED => old = None /\ tbl_map t !! k = None /\ tbl_map t' = tbl_map t /\ ~ (tbl_memory /\ tbl_used t <= MAX_CELLS)
      end;
  tbl_get_ok {A} (t : T A) k : tbl_ok t -> tbl_get t k = Ok (tbl_map t !! k);
  tbl_remove_ok {A} (t : T A) k : tbl_ok t ->
    exists t', tbl_remove t k = Ok (tbl_map t !! k, t') /\ tbl_ok t' /\ tbl_map t' = delete k (tbl_map t) /\ tbl_is_null t' = tbl_is_null t;
  tbl_entries_ok {A} (t : T A) : tbl_ok t -> exists l, tbl_entries t = Ok l /\ l ≡ₚ map_to_list (tbl_map t);
  tbl_empty_used {A} : tbl_used (@tbl_empty A) = 0;
  tbl_set_used {A} (t : T A) k v r old t' : tbl_ok t -> Z.of_nat (size (tbl_map t)) < MAX_LEN -> tbl_set t k v = Ok (r, old, t') ->
    tbl_used t' <= Z.max (tbl_used t) (MAX_BUCKETS + Z.of_nat (size (tbl_map t))) + 1;
  tbl_remove_used {A} (t : T A) k v t' : tbl_ok t -> tbl_remove t k = Ok (v, t') -> tbl_used t' = tbl_used t;
}.

(** One more entry fits for sure. *)
Definition tbl_room {T : Type -> Type} `{Table T} {A} (t : T A) : Prop := tbl_memory /\ tbl_used t <= MAX_CELLS.

Lemma no_room {T : Type -> Type} `{Table T} {A} (t : T A) : ~ tbl_room t -> ~ tbl_memory \/ MAX_CELLS < tbl_used t.
Proof. intros Hr. destruct (Z.le_gt_cases (tbl_used t) MAX_CELLS) as [Hu|Hu]; [left|by right]. intros Hm. by apply Hr. Qed.

(** ** The hash table as an instance *)

Section instance.
Variable alloc_ok : nat -> bool.
Variable strdup_ok : cstr -> bool.

(** A pointer to a hash table: NULL or a table. *)
Definition table_ptr (A : Type) : Type := option (dicey_hashtable (A := A)).

Definition ptr_is_null {A} (t : table_ptr A) : bool := match t with None => true | Some _ => false end.

Definition non_null {A} (m : gmap cstr (option A)) : gmap cstr A := omap id m.

Fixpoint set_pairs {A} (l : list (cstr * option A)) : list (cstr * A) :=
  match l with
  | [] => []
  | (k, Some v) :: l' => (k, v) :: set_pairs l'
  | (_, None) :: l' => set_pairs l'
  end.

Definition hash_entries {A} (t : table_ptr A) : res (list (cstr * A)) :=
  let! l := iterate (S (match t with Some t => ht_cap t | None => O end)) (dicey_hashtable_iter_start t) in
  Ok (set_pairs l).

Lemma non_null_lookup {A} (m : gmap cstr (option A)) k : non_null m !! k = default None (m !! k).
Proof. unfold non_null. rewrite lookup_omap. by destruct (m !! k). Qed.

Lemma non_null_insert {A} (m : gmap cstr (option A)) k v : non_null (<[k := Some v]> m) = <[k := v]> (non_null m).
Proof. unfold non_null. by erewrite omap_insert_Some. Qed.

Lemma non_null_delete {A} (m : gmap cstr (option A)) k : non_null (delete k m) = delete k (non_null m).
Proof. unfold non_null. by rewrite omap_delete. Qed.

Lemma size_non_null {A} (m : gmap cstr (option A)) : all_set m -> size (non_null m) = size m.
Proof.
  intros H. assert (dom (non_null m) = dom m) as E.
  { apply set_eq. intros k. rewrite !elem_of_dom. rewrite non_null_lookup. destruct (m !! k) as [v|] eqn:Ek; [|by cbn].
    destruct (H k v Ek) as [x ->]. cbn. by split; eauto. }
  by rewrite <- !size_dom, E.
Qed.

Lemma elem_of_set_pairs {A} (l : list (cstr * option A)) k v : (k, v) ∈ set_pairs l <-> (k, Some v) ∈ l.
Proof.
  induction l as [|[k' [v'|]] l IH]; cbn [set_pairs].
  - split; by intros ?%elem_of_nil.
  - rewrite !elem_of_cons, IH. split; intros [H|H]; auto; left; congruence.
  - rewrite elem_of_cons, IH. split; [auto|]. intros [H|H]; [done|done].
Qed.

Lemma set_pairs_perm {A} (l : list (cstr * option A)) m :
  l ≡ₚ map_to_list m -> set_pairs l ≡ₚ map_to_list (non_null m).
Proof.
  intros Hp. apply NoDup_Permutation.
  - assert (NoDup l) as Hd by (rewrite Hp; apply NoDup_map_to_list). clear Hp. induction l as [|[k [v|]] l IH]; cbn [set_pairs].
    + apply NoDup_nil_2.
    + apply NoDup_cons in Hd as [Hn Hd]. apply NoDup_cons. split; [by rewrite elem_of_set_pairs|by apply IH].
    + apply NoDup_cons in Hd as [Hn Hd]. by apply IH.
  - apply NoDup_map_to_list.
  - intros [k v]. rewrite elem_of_set_pairs, Hp, !elem_of_map_to_list, non_null_lookup.
    destruct (m !! k) as [x|]; cbn; split; congruence.
Qed.

#[export] Program Instance hash_table : Table table_ptr := {
  tbl_empty A := None;
  tbl_set A t k v := dicey_hashtable_set alloc_ok strdup_ok t k (Some v);
  tbl_get A t k := dicey_hashtable_get t (Some k);
  tbl_remove A t k := dicey_hashtable_remove t (Some k);
  tbl_entries A t := hash_entries t;
  tbl_is_null A t := ptr_is_null t;
  tbl_map A t := non_null (model t);
  tbl_ok A t := valid t /\ all_set (model t);
  tbl_memory := ~ lacks_memory alloc_ok strdup_ok;
  tbl_used A t := cells_used t;
}.
Next Obligation. done. Qed.
Next Obligation. intros A [t|]; done. Qed.
Next Obligation.
  intros A t k v [Hv Hs] Hl. rewrite size_non_null in Hl by done.
  destruct (set_lemma alloc_ok strdup_ok t k (Some v) Hv) as (r & old & t' & E & Hv' & _ & Hr); [lia|].
  assert (t' <> None \/ r = DICEY_HASH_SET_FAILED) as Ht'.
  { unfold dicey_hashtable_set in E. destruct (match t with Some _ => _ | None => _ end) as [x|]; [|right; congruence].
    destruct (hash_set _ _ _ _ _ _ _) as [[[? ?] ?]| | |]; cbn in E; simplify_eq. by left. }
  assert (r <> DICEY_HASH_SET_FAILED -> ptr_is_null t' = false) as Hnull.
  { intros Hr'. destruct t'; [done|]. by destruct Ht'. }
  exists r, old, t'. split; [done|]. destruct r; rewrite non_null_lookup.
  - destruct Hr as (H1 & H2 & H3 & H4). split; [split; [done|by rewrite H3]|]. rewrite H1, H3. split_and!; try done.
    intros [Hm Hc]. destruct H4; [done|lia].
  - destruct Hr as (H1 & H2 & H3). split; [split; [done|rewrite H3; by apply all_set_insert]|].
    rewrite H1, H3, non_null_insert. split_and!; try done. by apply Hnull.
  - destruct Hr as (H1 & H2). split; [split; [done|rewrite H2; by apply all_set_insert]|].
    rewrite H1, H2, non_null_insert. split_and!; try done; [by apply (Hs k)|by apply Hnull].
Qed.
Next Obligation. intros A t k [Hv Hs]. rewrite get_lemma by done. by rewrite non_null_lookup. Qed.
Next Obligation.
  intros A t k [Hv Hs]. destruct (remove_lemma strdup_ok t k Hv) as (t' & E & Hv' & Hm & Hc). exists t'. rewrite non_null_lookup.
  split_and!; try done; [by rewrite Hm; apply all_set_delete|by rewrite Hm, non_null_delete|].
  unfold dicey_hashtable_remove in E. destruct (hash_get_entry t (Some k)) as [[i|]| | |]; cbn in E; try done.
  - destruct t as [x|]; [|congruence]. destruct (negb _); cbn in E; [|done]. destruct (ht_entries x !! i); [|done]. by simplify_eq.
  - by simplify_eq.
Qed.
Next Obligation.
  intros A t [Hv Hs]. destruct (iteration_lemma t Hv) as (l & E & Hp). exists (set_pairs l). unfold hash_entries. rewrite E.
  split; [done|]. by apply set_pairs_perm.
Qed.
Next Obligation. done. Qed.
Next Obligation.
  intros A t k v r old t' [Hv Hs] Hl E. rewrite size_non_null in Hl |- * by done.
  destruct (set_lemma alloc_ok strdup_ok t k (Some v) Hv) as (r2 & old2 & t2 & E2 & _ & Hu & _); [lia|]. rewrite E in E2. by simplify_eq.
Qed.
Next Obligation.
  intros A t k v t' [Hv Hs] E. destruct (remove_lemma strdup_ok t k Hv) as (t2 & E2 & _ & _ & Hc). rewrite E in E2. by simplify_eq.
Qed.

End instance.

(** ** Finite maps as an instance

    The reference implementation, which never runs out of memory. *)

Definition map_ptr (A : Type) : Type := option (gmap cstr A).

Definition the_map {A} (t : map_ptr A) : gmap cstr A := default ∅ t.

Definition map_set {A} (t : map_ptr A) (k : cstr) (v : A) : res (dicey_hash_set_result * option A * map_ptr A) :=
  Ok (match the_map t !! k with Some _ => DICEY_HASH_SET_UPDATED | None => DICEY_HASH_SET_ADDED end,
      the_map t !! k, Some (<[k := v]> (the_map t))).

Definition map_remove {A} (t : map_ptr A) (k : cstr) : res (option A * map_ptr A) :=
  Ok (the_map t !! k, match t with Some m => Some (delete k m) | None => None end).

Definition map_is_null {A} (t : map_ptr A) : bool := match t with None => true | Some _ => false end.

#[export] Program Instance map_table : Table map_ptr := {
  tbl_empty A := None;
  tbl_set A t k v := map_set t k v;
  tbl_get A t k := Ok (the_map t !! k);
  tbl_remove A t k := map_remove t k;
  tbl_entries A t := Ok (map_to_list (the_map t));
  tbl_is_null A t := map_is_null t;
  tbl_map A t := the_map t;
  tbl_ok A t := True;
  tbl_memory := True;
  tbl_used A t := 0;
}.
Next Obligation. done. Qed.
Next Obligation. intros A [t|]; done. Qed.
Next Obligation.
  intros A t k v _ _. unfold map_set. do 3 eexists. split; [done|]. split; [done|].
  destruct (the_map t !! k) as [x|]; split_and!; eauto.
Qed.
Next Obligation. done. Qed.
Next Obligation. intros A [t|] k _; eexists; split_and!; done. Qed.
Next Obligation. intros A t _. eauto. Qed.
Next Obligation. done. Qed.
Next Obligation. intros. unfold MAX_BUCKETS. lia. Qed.
Next Obligation. done. Qed.
