(* ===== verification/Traits.v ===== *)
(** * Traits and their elements (src/ipc/server/traits.c)

    A trait is a named table of elements: operations, properties and signals, each with a
    signature. The operations are written over the interface [Table]; the theorems hold for
    every implementation of it. *)

From S2P Require Import Prelude Errors Types Views Typedescr Hashtable Table.
From stdpp Require Import gmap list.

#[local] Open Scope Z_scope.

Inductive dicey_element_type : Type :=
  | DICEY_ELEMENT_TYPE_INVALID
  | DICEY_ELEMENT_TYPE_OPERATION
  | DICEY_ELEMENT_TYPE_PROPERTY
  | DICEY_ELEMENT_TYPE_SIGNAL.

#[export] Instance dicey_element_type_eq_dec : EqDecision dicey_element_type.
Proof. solve_decision. Defined.

Definition DICEY_ELEMENT_READONLY : Z := 1.
Definition DICEY_ELEMENT_INTERNAL : Z := 2.

Record dicey_element : Type := mk_element {
  el_type : dicey_element_type;
  el_signature : option cstr;
  el_flags : Z;
  el_tag : Z;
}.

#[export] Instance dicey_element_eq_dec : EqDecision dicey_element.
Proof. solve_decision. Defined.

Record dicey_element_entry : Type := mk_element_entry { ee_sel : dicey_selector; ee_element : dicey_element }.

(** "operation", "property", "signal" *)
Definition dicey_element_type_name (type : dicey_element_type) : res cstr :=
  match type with
  | DICEY_ELEMENT_TYPE_OPERATION => Ok [111; 112; 101; 114; 97; 116; 105; 111; 110]
  | DICEY_ELEMENT_TYPE_PROPERTY => Ok [112; 114; 111; 112; 101; 114; 116; 121]
  | DICEY_ELEMENT_TYPE_SIGNAL => Ok [115; 105; 103; 110; 97; 108]
  | DICEY_ELEMENT_TYPE_INVALID => Fault AssertFailed
  end.

(** [elem_alloc_ok]: the memory for a copy of the element is there; [strdup_ok]: for a string. *)
Section traits.
Context {T : Type -> Type} `{Table T}.
Variable elem_alloc_ok : dicey_element -> bool.
Variable strdup_ok : cstr -> bool.

Record dicey_trait : Type := mk_trait { tr_name : cstr; tr_elems : T dicey_element }.

(** A copy of the structure with its own copy of the signature; [strdup(NULL)] faults. *)
Definition elem_dup (elem : dicey_element) : res (option dicey_element) :=
  if negb (elem_alloc_ok elem) then Ok None else
  match el_signature elem with
  | None => Fault NullDeref
  | Some s => Ok (if strdup_ok s then Some (mk_element (el_type elem) (Some s) (el_flags elem) (el_tag elem)) else None)
  end.

Definition is_functional (d : dicey_typedescr) : bool :=
  match d with DICEY_TYPEDESCR_FUNCTIONAL _ _ => true | _ => false end.

Definition non_empty (s : option cstr) : bool := match s with Some (_ :: _) => true | _ => false end.

Definition is_op (elem : dicey_element) : bool := bool_decide (el_type elem = DICEY_ELEMENT_TYPE_OPERATION).

Definition dicey_trait_add_element (name : cstr) (elem : dicey_element) : stm dicey_trait dicey_error unit :=
  sassert (non_empty (el_signature elem) && negb (bool_decide (el_type elem = DICEY_ELEMENT_TYPE_INVALID))) ;;!
  do! descr <- slift (dicey_typedescr_parse (default [] (el_signature elem))) ;
  match descr with
  | None => sfail DICEY_ESIGNATURE_MALFORMED
  | Some descr =>
      if negb (eqb (is_op elem) (is_functional descr)) then sfail DICEY_ESIGNATURE_MISMATCH else
      do! trait <- sget ;
      do! known <- slift (tbl_get (tr_elems trait) name) ;
      if bool_decide (is_Some known) then sfail DICEY_EINVAL else
      do! elem_val <- slift (elem_dup elem) ;
      match elem_val with
      | None => sfail DICEY_ENOMEM
      | Some elem_val =>
          do! (r, old, elems) <- slift (tbl_set (tr_elems trait) name elem_val) ;
          sput (mk_trait (tr_name trait) elems) ;;!
          match r with
          | DICEY_HASH_SET_FAILED => sfail DICEY_ENOMEM
          | DICEY_HASH_SET_UPDATED => sfault AssertFailed
          | DICEY_HASH_SET_ADDED => sassert (bool_decide (old = None))
          end
      end
  end.

(** The table must exist. *)
Definition dicey_trait_delete (trait : dicey_trait) : res unit := oassert (negb (tbl_is_null (tr_elems trait))).

Definition dicey_trait_get_element (trait : dicey_trait) (name : cstr) : res (option dicey_element) :=
  let! _ := oassert (non_empty (Some name)) in
  tbl_get (tr_elems trait) name.

Definition dicey_trait_contains_element (trait : dicey_trait) (name : cstr) : res bool :=
  let! _ := oassert (non_empty (Some name)) in
  let! e := dicey_trait_get_element trait name in
  Ok (bool_decide (is_Some e)).

(** The key of the table entry is equal to the name looked up. *)
Definition dicey_trait_get_element_entry (trait : dicey_trait) (name : cstr) : res (option dicey_element_entry) :=
  let! _ := oassert (non_empty (Some name)) in
  let! e := tbl_get (tr_elems trait) name in
  Ok ((fun e => mk_element_entry (mk_selector (Some (tr_name trait)) (Some name)) e) <$> e).

Definition dicey_trait_new (trait_alloc_ok : bool) (name : cstr) : res (option dicey_trait) :=
  let! _ := oassert (non_empty (Some name)) in
  Ok (if strdup_ok name && trait_alloc_ok then Some (mk_trait name tbl_empty) else None).

(** [dicey_trait_iter_start] and [dicey_trait_iter_next] until it returns false. *)
Definition dicey_trait_iter_all (trait : option dicey_trait) : res (list (cstr * dicey_element)) :=
  tbl_entries (match trait with Some t => tr_elems t | None => tbl_empty end).

(** ** Well-formed elements and traits *)

(** An element can be registered: its signature is in the grammar, and it is a function precisely
    when the element is an operation. *)
Definition elem_ok (e : dicey_element) : Prop :=
  el_type e <> DICEY_ELEMENT_TYPE_INVALID /\
  exists s d, el_signature e = Some s /\ s <> [] /\ dicey_typedescr_parse s = Ok (Some d) /\ is_op e = is_functional d.

Definition elem_map (t : dicey_trait) : gmap cstr dicey_element := tbl_map (tr_elems t).

Definition trait_wf (t : dicey_trait) : Prop :=
  tbl_ok (tr_elems t) /\ map_Forall (fun _ e => elem_ok e) (elem_map t).

Definition trait_small (t : dicey_trait) : Prop := Z.of_nat (size (elem_map t)) < MAX_LEN.

(** Which refusals are due to memory: the copy or the table. *)
Definition elem_no_memory (t : dicey_trait) (e : dicey_element) : Prop :=
  elem_alloc_ok e = false \/ (exists s, el_signature e = Some s /\ strdup_ok s = false) \/ ~ tbl_room (tr_elems t).

(** What adding an element does, as a function of the map of elements. *)
Definition add_element_verdict (m : gmap cstr dicey_element) (name : cstr) (e : dicey_element) : option dicey_error :=
  match dicey_typedescr_parse (default [] (el_signature e)) with
  | Ok (Some d) =>
      if negb (eqb (is_op e) (is_functional d)) then Some DICEY_ESIGNATURE_MISMATCH
      else if decide (is_Some (m !! name)) then Some DICEY_EINVAL else None
  | _ => Some DICEY_ESIGNATURE_MALFORMED
  end.

Lemma parse_total s : ascii_str s -> exists r, dicey_typedescr_parse s = Ok r.
Proof.
  intros Ha. unfold dicey_typedescr_parse.
  destruct (run_type_cases s) as [(g & rest & Hs & -> & E)|[[-> E]|(rest & E & _)]]; rewrite E; cbn [obind negb]; eauto.
  destruct rest as [|c k]; [eauto|]. apply Forall_app in Ha as [_ Ha].
  destruct (parse_arrow_sound (c :: k) Ha) as [(w1 & w2 & r2 & Er & Hw1 & Hw2 & E2)|(r2 & E2)]; rewrite E2; cbn [obind negb]; [|eauto].
  destruct r2 as [|c2 k2]; [eauto|].
  destruct (run_type_cases (c2 :: k2)) as [(s2 & r3 & Hs2 & Es2 & E3)|[[? _]|(r3 & E3 & _)]]; [|done|];
    rewrite E3; cbn [obind]; destruct r3; eauto.
Qed.

Lemma elem_dup_spec e s : el_signature e = Some s ->
  elem_dup e = Ok (Some e) \/ elem_dup e = Ok None /\ (elem_alloc_ok e = false \/ strdup_ok s = false).
Proof.
  intros E. unfold elem_dup. destruct (elem_alloc_ok e); cbn; [|by auto]. rewrite E.
  destruct (strdup_ok s); [|by auto]. left. destruct e; cbn in *. by rewrite E.
Qed.

(** The refusals that have nothing to do with memory, and the success. *)
Definition add_element_post (t : dicey_trait) (name : cstr) (e : dicey_element) (out : res unit * dicey_trait) : Prop :=
  let '(r, t') := out in
  trait_wf t' /\ tr_name t' = tr_name t /\
  match add_element_verdict (elem_map t) name e with
  | Some err => r = Err err /\ t' = t
  | None =>
      (r = Ok tt /\ elem_map t' = <[name := e]> (elem_map t) /\ tbl_is_null (tr_elems t') = false) \/
      (r = Err DICEY_ENOMEM /\ elem_map t' = elem_map t /\ elem_no_memory t e)
  end.

Lemma add_element_lemma t name e s :
  trait_wf t -> trait_small t -> el_type e <> DICEY_ELEMENT_TYPE_INVALID ->
  el_signature e = Some s -> s <> [] -> ascii_str s ->
  add_element_post t name e (dicey_trait_add_element name e t).
Proof.
  intros [Hok Hall] Hsm Ht Hs Hne Ha. unfold dicey_trait_add_element, add_element_post, add_element_verdict.
  rewrite bool_decide_eq_false_2 by done. rewrite Hs. destruct s as [|c s]; [done|]. cbn [non_empty andb negb sassert from_option id].
  destruct (parse_total (c :: s) Ha) as [d Ed]. srun. rewrite Ed. srun. destruct d as [d|]; srun; [|by split_and!].
  destruct (eqb (is_op e) (is_functional d)) eqn:Ef; cbn [negb]; srun; [|by split_and!].
  apply eqb_prop in Ef. rewrite (tbl_get_ok _ name Hok). srun. unfold elem_map.
  case_decide as Hk; [rewrite bool_decide_eq_true_2 by done; srun; by split_and!|].
  rewrite bool_decide_eq_false_2 by done. srun. apply eq_None_not_Some in Hk.
  destruct (elem_dup_spec e _ Hs) as [-> |[-> Hm]]; srun; cycle 1.
  { split_and!; try done. right. split_and!; try done. destruct Hm; [by left|right; left; eauto]. }
  destruct (tbl_set_ok (tr_elems t) name e Hok Hsm) as (r & old & t' & -> & Hok' & Hr). srun.
  destruct r; [|destruct Hr as (-> & _ & Hm & Hn)|destruct Hr as ([? ->] & Hc & _); congruence].
  - destruct Hr as (-> & _ & Hm & Hroom). srun. unfold trait_wf, elem_map. cbn. rewrite Hm. split_and!; try done.
    right. split_and!; try done. by right; right.
  - srun. rewrite bool_decide_eq_true_2 by done. srun. unfold trait_wf, elem_map. cbn. rewrite Hm. split_and!; try done; [|by left].
    apply map_Forall_insert_2; [|done]. split; [done|]. by exists (c :: s), d.
Qed.

(** ** Theorems *)

(** adding an element to a trait. On every element with a type and a non-empty ASCII signature
    the call answers: a signature outside the grammar is [DICEY_ESIGNATURE_MALFORMED], a
    function signature on something that is not an operation (or the other way round) is
    [DICEY_ESIGNATURE_MISMATCH], a name already taken is [DICEY_EINVAL], and in these cases the
    trait is untouched; otherwise the element is added under its name and nothing else changes,
    or memory was missing and no element is added. The trait stays well formed: every element
    it holds has a signature of the grammar, functional precisely for operations. *)
Theorem dicey_trait_add_element_spec t name e s :
  trait_wf t -> trait_small t -> el_type e <> DICEY_ELEMENT_TYPE_INVALID ->
  el_signature e = Some s -> s <> [] -> ascii_str s ->
  add_element_post t name e (dicey_trait_add_element name e t).
Proof. apply add_element_lemma. Qed.

(** Every element added to a trait is found under its name and listed, and lookups fail for
    every other name. *)
Theorem trait_lookup_and_iteration t :
  trait_wf t ->
  (forall name, name <> [] -> dicey_trait_get_element t name = Ok (elem_map t !! name)) /\
  (exists l, dicey_trait_iter_all (Some t) = Ok l /\ l ≡ₚ map_to_list (elem_map t)).
Proof.
  intros [Hok _]. split; [|by apply tbl_entries_ok]. intros name Hn. unfold dicey_trait_get_element.
  destruct name; [done|]. cbn [non_empty oassert obind]. by apply tbl_get_ok.
Qed.

(** Deleting a trait that never received an element violates an assertion: the table of the
    elements is only created by the first insertion. *)
Theorem empty_trait_delete_aborts alloc name t :
  dicey_trait_new alloc name = Ok (Some t) -> dicey_trait_delete t = Fault AssertFailed.
Proof.
  unfold dicey_trait_new, dicey_trait_delete. destruct (non_empty _); cbn; [|done]. destruct (strdup_ok name && alloc); [|done].
  intros [= <-]. cbn. destruct (tbl_empty_ok (A := dicey_element)) as (_ & _ & E). by rewrite E.
Qed.

End traits.

(** ** Witnesses, with the hash table of src/sup/hashtable.c *)

Definition wide_alloc (_ : nat) : bool := true.
Definition wide_strdup (_ : cstr) : bool := true.
Definition wide_elem (_ : dicey_element) : bool := true.

#[export] Instance wide_table : Table table_ptr := hash_table wide_alloc wide_strdup.

(** Property "p" of signature "[i]" and operation "f" of signature "i->s" *)
Definition sample_property : dicey_element := mk_element DICEY_ELEMENT_TYPE_PROPERTY (Some [91; 105; 93]) 1 0.
Definition sample_operation : dicey_element := mk_element DICEY_ELEMENT_TYPE_OPERATION (Some [105; 45; 62; 115]) 0 0.

Definition sample_trait : dicey_trait (T := table_ptr) :=
  snd (dicey_trait_add_element wide_elem wide_strdup [112] sample_property (mk_trait [65] tbl_empty)).

Lemma sample_trait_wf : trait_wf sample_trait /\ trait_small sample_trait.
Proof.
  destruct (tbl_empty_ok (T := table_ptr) (A := dicey_element)) as (Hok & Hm & _).
  pose proof (add_element_lemma wide_elem wide_strdup (mk_trait [65] tbl_empty) [112] sample_property [91; 105; 93]) as H.
  assert (map_Forall (fun _ e => elem_ok e) (elem_map (mk_trait [65] (tbl_empty (T := table_ptr))))) as Hall.
  { unfold elem_map. cbn [tr_elems]. rewrite Hm. apply map_Forall_empty. }
  assert (trait_small (mk_trait [65] (tbl_empty (T := table_ptr)))) as Hs.
  { unfold trait_small, elem_map. cbn [tr_elems]. rewrite Hm. vm_compute. reflexivity. }
  specialize (H (conj Hok Hall) Hs). unfold sample_trait.
  destruct (dicey_trait_add_element _ _ _ _ _) as [r t] eqn:E. destruct H as (Hw & _ & Hv); try done.
  { repeat constructor; lia. }
  split; [done|]. unfold trait_small. replace (elem_map t) with ({[ [112] := sample_property ]} : gmap cstr dicey_element).
  - vm_compute. reflexivity.
  - vm_compute in E. injection E as <- <-. reflexivity.
Qed.

Lemma dicey_trait_add_element_spec_witness :
  add_element_post wide_elem wide_strdup sample_trait [102] sample_operation
    (dicey_trait_add_element wide_elem wide_strdup [102] sample_operation sample_trait) /\
  fst (dicey_trait_add_element wide_elem wide_strdup [102] sample_operation sample_trait) = Ok tt /\
  fst (dicey_trait_add_element wide_elem wide_strdup [102] (mk_element DICEY_ELEMENT_TYPE_SIGNAL (Some [105; 45; 62; 115]) 0 0)
         sample_trait) = Err DICEY_ESIGNATURE_MISMATCH /\
  fst (dicey_trait_add_element wide_elem wide_strdup [112] sample_property sample_trait) = Err DICEY_EINVAL.
Proof.
  split; [|vm_compute; done].
  apply (dicey_trait_add_element_spec wide_elem wide_strdup sample_trait [102] sample_operation [105; 45; 62; 115]);
    [apply sample_trait_wf|apply sample_trait_wf|done|done|done|repeat constructor; lia].
Defined.

Lemma trait_lookup_and_iteration_witness :
  dicey_trait_get_element sample_trait [112] = Ok (elem_map sample_trait !! [112]) /\
  dicey_trait_get_element sample_trait [112] = Ok (Some sample_property).
Proof. split; [apply (trait_lookup_and_iteration sample_trait (proj1 sample_trait_wf)); done|vm_compute; done]. Defined.

Lemma empty_trait_delete_aborts_witness :
  dicey_trait_new (T := table_ptr) wide_strdup true [65] = Ok (Some (mk_trait [65] tbl_empty)) /\
  dicey_trait_delete (T := table_ptr) (mk_trait [65] tbl_empty) = Fault AssertFailed.
Proof. split; [done|]. apply (empty_trait_delete_aborts wide_strdup true [65]). done. Defined.
