(* ===== verification/Registry.v ===== *)
(** * The registry of objects and traits (src/ipc/server/registry.c)

    The registry maps paths to objects, which are shared: an object has a main path and any
    number of aliases, and counts the paths that lead to it. It also owns the traits. Objects
    and traits live in a heap, so freeing, sharing and dangling pointers are part of the model:
    the main path of an object is a pointer to the key of an entry of the table of paths, and
    reading it after the entry is gone is a use after free.

    The operations are written over the interface [Table]. *)

From S2P Require Import Prelude Errors Types Views Typedescr Hashtable Table Traits.
From stdpp Require Import gmap list.

#[local] Open Scope Z_scope.

(** "dicey.Introspection", "dicey.Trait", "/dicey/registry/traits/" *)
Definition DICEY_INTROSPECTION_TRAIT_NAME : cstr :=
  [100; 105; 99; 101; 121; 46; 73; 110; 116; 114; 111; 115; 112; 101; 99; 116; 105; 111; 110].
Definition DICEY_TRAIT_TRAIT_NAME : cstr := [100; 105; 99; 101; 121; 46; 84; 114; 97; 105; 116].
Definition METATRAIT_PREFIX : cstr :=
  [47; 100; 105; 99; 101; 121; 47; 114; 101; 103; 105; 115; 116; 114; 121; 47; 116; 114; 97; 105; 116; 115; 47].
Definition INT_MAX : Z := 2147483647.

(** An entry of the table of paths: the address of its key and the object. *)
Record path_cell : Type := mk_cell { pc_key : nat; pc_object : nat }.

Section registry.
Context {T : Type -> Type} `{Table T}.

(** Which allocations succeed: of the object, of the trait, of an element, of a copy of a string,
    of the scratch buffer. *)
Variable object_alloc_ok : nat -> bool.
Variable trait_alloc_ok : cstr -> bool.
Variable elem_alloc_ok : dicey_element -> bool.
Variable strdup_ok : cstr -> bool.
Variable realloc_ok : Z -> bool.

Record dicey_object : Type := mk_object {
  ob_traits : T unit; ob_main_path : option (nat * cstr); ob_aliases : T unit; ob_refcount : Z;
}.

(** [struct dicey_registry] ([rg_buffer] is the size of the scratch buffer), then the heap: the
    objects and traits that are allocated, and the next address. *)
Record dicey_registry : Type := mk_registry {
  rg_paths : T path_cell; rg_traits : T nat; rg_buffer : Z;
  rg_objects : gmap nat dicey_object; rg_trait_heap : gmap nat (dicey_trait (T := T)); rg_next : nat;
}.

Definition rst : Type -> Type := stm dicey_registry dicey_error.

Definition set_paths (t : T path_cell) (r : dicey_registry) : dicey_registry :=
  mk_registry t (rg_traits r) (rg_buffer r) (rg_objects r) (rg_trait_heap r) (rg_next r).
Definition set_traits (t : T nat) (r : dicey_registry) : dicey_registry :=
  mk_registry (rg_paths r) t (rg_buffer r) (rg_objects r) (rg_trait_heap r) (rg_next r).
Definition set_buffer (n : Z) (r : dicey_registry) : dicey_registry :=
  mk_registry (rg_paths r) (rg_traits r) n (rg_objects r) (rg_trait_heap r) (rg_next r).
Definition set_objects (h : gmap nat dicey_object) (r : dicey_registry) : dicey_registry :=
  mk_registry (rg_paths r) (rg_traits r) (rg_buffer r) h (rg_trait_heap r) (rg_next r).
Definition set_trait_heap (h : gmap nat (dicey_trait (T := T))) (r : dicey_registry) : dicey_registry :=
  mk_registry (rg_paths r) (rg_traits r) (rg_buffer r) (rg_objects r) h (rg_next r).
Definition set_next_address (n : nat) (r : dicey_registry) : dicey_registry :=
  mk_registry (rg_paths r) (rg_traits r) (rg_buffer r) (rg_objects r) (rg_trait_heap r) n.

Definition supd (f : dicey_registry -> dicey_registry) : rst unit := fun r => (Ok tt, f r).

(** The error code a call returns, as a value. *)
Definition scatch {A} (m : rst A) : rst (dicey_error + A) := fun r =>
  match m r with
  | (Ok a, r') => (Ok (inr a), r')
  | (Err e, r') => (Ok (inl e), r')
  | (Fault f, r') => (Fault f, r')
  | (OutOfFuel, r') => (OutOfFuel, r')
  end.

(** ** Memory *)

(** An address never used before. *)
Definition fresh_address : rst nat := fun r => (Ok (rg_next r), set_next_address (S (rg_next r)) r).

Definition obj_read (o : nat) : rst dicey_object := fun r =>
  (match rg_objects r !! o with Some ob => Ok ob | None => Fault UseAfterFree end, r).

Definition obj_write (o : nat) (ob : dicey_object) : rst unit :=
  supd (fun r => set_objects (<[o := ob]> (rg_objects r)) r).

Definition obj_free (o : nat) : rst unit := supd (fun r => set_objects (delete o (rg_objects r)) r).

Definition trait_read (t : nat) : rst (dicey_trait (T := T)) := fun r =>
  (match rg_trait_heap r !! t with Some tr => Ok tr | None => Fault UseAfterFree end, r).

Definition with_traits (s : T unit) (ob : dicey_object) : dicey_object :=
  mk_object s (ob_main_path ob) (ob_aliases ob) (ob_refcount ob).
Definition with_main_path (m : nat * cstr) (ob : dicey_object) : dicey_object :=
  mk_object (ob_traits ob) (Some m) (ob_aliases ob) (ob_refcount ob).
Definition with_aliases (s : T unit) (ob : dicey_object) : dicey_object :=
  mk_object (ob_traits ob) (ob_main_path ob) s (ob_refcount ob).
Definition with_refcount (n : Z) (ob : dicey_object) : dicey_object :=
  mk_object (ob_traits ob) (ob_main_path ob) (ob_aliases ob) n.

(** Reading the string [main_path] points to: the key must still be in the table. *)
Definition read_main_path (ob : dicey_object) : rst cstr :=
  match ob_main_path ob with
  | None => sfault NullDeref
  | Some (k, m) =>
      do! r <- sget ;
      do! c <- slift (tbl_get (rg_paths r) m) ;
      match c with
      | Some c => if Nat.eqb (pc_key c) k then sret m else sfault UseAfterFree
      | None => sfault UseAfterFree
      end
  end.

(** ** Objects *)

Definition object_ref (o : nat) : rst unit :=
  do! ob <- obj_read o ;
  sassert (0 <? ob_refcount ob) ;;!
  obj_write o (with_refcount (ob_refcount ob + 1) ob).

Definition object_deref (o : nat) : rst unit :=
  do! ob <- obj_read o ;
  sassert (0 <? ob_refcount ob) ;;!
  if ob_refcount ob - 1 <=? 0 then obj_free o else obj_write o (with_refcount (ob_refcount ob - 1) ob).

(** The address of the object, or [None] without memory. *)
Definition object_new_with (traits : T unit) : rst (option nat) :=
  do! o <- fresh_address ;
  if negb (object_alloc_ok o) then sret None else
  do! (res, _, traits) <- slift (tbl_set traits DICEY_INTROSPECTION_TRAIT_NAME tt) ;
  match res with
  | DICEY_HASH_SET_FAILED => sret None
  | _ => obj_write o (mk_object traits None tbl_empty 1) ;;! sret (Some o)
  end.

Definition object_new : rst (option nat) := object_new_with tbl_empty.

Definition path_is_valid (path : cstr) : bool :=
  match path with
  | 47 :: _ => negb (bool_decide (last path = Some 47))
  | _ => false
  end.

(** ** Lookups *)

Definition registry_get_object_entry (path : cstr) : rst (nat * cstr * nat) :=
  if negb (path_is_valid path) then sfail DICEY_EPATH_MALFORMED else
  do! r <- sget ;
  do! c <- slift (tbl_get (rg_paths r) path) ;
  match c with
  | None => sfail DICEY_EPATH_NOT_FOUND
  | Some c => sret (pc_key c, path, pc_object c)
  end.

Definition dicey_registry_get_object_entry (path : cstr) : rst (option (nat * cstr * nat)) :=
  do! e <- scatch (registry_get_object_entry path) ;
  match e with
  | inl _ => sret None
  | inr (k, p, o) => sassert (bool_decide (p = path)) ;;! sret (Some (k, p, o))
  end.

Definition dicey_registry_get_object (path : cstr) : rst (option nat) :=
  do! e <- dicey_registry_get_object_entry path ;
  sret (snd <$> e).

Definition dicey_registry_contains_object (path : cstr) : rst bool :=
  do! o <- dicey_registry_get_object path ; sret (bool_decide (is_Some o)).

Definition dicey_registry_get_object_mut (path : cstr) : rst (option nat) :=
  if negb (path_is_valid path) then sret None else
  do! r <- sget ;
  do! c <- slift (tbl_get (rg_paths r) path) ;
  sret (pc_object <$> c).

Definition registry_trait_exists (trait : cstr) : rst bool :=
  do! r <- sget ;
  do! t <- slift (tbl_get (rg_traits r) trait) ;
  sret (bool_decide (is_Some t)).

Definition dicey_registry_contains_trait (name : cstr) : rst bool := registry_trait_exists name.

Definition dicey_registry_get_trait (name : cstr) : rst (option nat) :=
  do! r <- sget ; slift (tbl_get (rg_traits r) name).

(** The pointer, which is not read. *)
Definition get_main_path_ptr (path : cstr) : rst (option (nat * cstr)) :=
  do! o <- dicey_registry_get_object path ;
  match o with
  | None => sret None
  | Some o => do! ob <- obj_read o ; sret (ob_main_path ob)
  end.

(** ... and the string it points to, as the caller sees it. *)
Definition dicey_registry_get_main_path (path : cstr) : rst (option cstr) :=
  do! o <- dicey_registry_get_object path ;
  match o with
  | None => sret None
  | Some o => do! ob <- obj_read o ; do! m <- read_main_path ob ; sret (Some m)
  end.

Definition dicey_registry_is_alias (path : cstr) : rst unit :=
  if negb (path_is_valid path) then sfail DICEY_EPATH_MALFORMED else
  do! o <- dicey_registry_get_object path ;
  match o with
  | None => sfail DICEY_EPATH_NOT_FOUND
  | Some o =>
      do! ob <- obj_read o ;
      sassert (bool_decide (is_Some (ob_main_path ob))) ;;!
      do! m <- read_main_path ob ;
      if bool_decide (m = path) then sfail DICEY_EPATH_NOT_ALIAS else sret tt
  end.

Definition dicey_object_has_alias (o : nat) (alias : cstr) : rst bool :=
  do! ob <- obj_read o ;
  do! v <- slift (tbl_get (ob_aliases ob) alias) ;
  sret (bool_decide (is_Some v)).

Definition dicey_object_implements (o : nat) (trait : cstr) : rst bool :=
  do! ob <- obj_read o ;
  sassert (negb (tbl_is_null (ob_traits ob))) ;;!
  do! v <- slift (tbl_get (ob_traits ob) trait) ;
  sret (bool_decide (is_Some v)).

Record dicey_object_element_entry : Type := mk_object_element_entry {
  oe_main_path : option (nat * cstr); oe_sel : dicey_selector; oe_element : dicey_element;
}.

Definition dicey_object_element_entry_to_element_entry (entry : dicey_object_element_entry) : dicey_element_entry :=
  mk_element_entry (oe_sel entry) (oe_element entry).

Definition dicey_registry_get_element_entry (path trait_name elem : cstr) : rst (option dicey_object_element_entry) :=
  do! e <- scatch (registry_get_object_entry path) ;
  match e with
  | inl _ => sret None
  | inr (_, p, o) =>
      sassert (bool_decide (p = path)) ;;!
      do! impl <- dicey_object_implements o trait_name ;
      if negb impl then sret None else
      do! t <- dicey_registry_get_trait trait_name ;
      match t with
      | None => sret None
      | Some t =>
          do! tr <- trait_read t ;
          do! ee <- slift (dicey_trait_get_element_entry tr elem) ;
          match ee with
          | None => sret None
          | Some ee =>
              do! ob <- obj_read o ;
              sret (Some (mk_object_element_entry (ob_main_path ob) (ee_sel ee) (ee_element ee)))
          end
      end
  end.

Definition dicey_registry_get_element (path trait_name elem : cstr) : rst (option dicey_element) :=
  do! e <- dicey_registry_get_element_entry path trait_name elem ;
  sret (oe_element <$> e).

Definition dicey_registry_contains_element (path trait_name elem : cstr) : rst bool :=
  do! e <- dicey_registry_get_element path trait_name elem ; sret (bool_decide (is_Some e)).

(** ** Adding objects *)

Definition registry_add_object (path : cstr) (o : nat) : rst unit :=
  do! k <- fresh_address ;
  do! r <- sget ;
  do! (res, old, paths) <- slift (tbl_set (rg_paths r) path (mk_cell k o)) ;
  supd (set_paths paths) ;;!
  match res with
  | DICEY_HASH_SET_FAILED => sfail DICEY_ENOMEM
  | DICEY_HASH_SET_UPDATED => sfault AssertFailed
  | DICEY_HASH_SET_ADDED =>
      sassert (bool_decide (old = None)) ;;!
      do! ob <- obj_read o ;
      match ob_main_path ob with
      | Some _ => sret tt
      | None =>
          do! e <- scatch (registry_get_object_entry path) ;
          match e with
          | inl _ => sfault AssertFailed
          | inr (k', p, _) => obj_write o (with_main_path (k', p) ob)
          end
      end
  end.

(** The body of the loops over the names of traits: the error of one addition. *)
Definition object_add_trait (o : nat) (trait : cstr) : rst unit :=
  do! known <- registry_trait_exists trait ;
  if negb known then sfail DICEY_ETRAIT_NOT_FOUND else
  do! ob <- obj_read o ;
  do! (res, _, set) <- slift (tbl_set (ob_traits ob) trait tt) ;
  obj_write o (with_traits set ob) ;;!
  match res with
  | DICEY_HASH_SET_ADDED => sret tt
  | DICEY_HASH_SET_UPDATED => sfail DICEY_EINVAL
  | DICEY_HASH_SET_FAILED => sfail DICEY_ENOMEM
  end.

(** The loop of [dicey_registry_add_object_with]: it stops at the first error. *)
Fixpoint object_add_traits (o : nat) (traits : list cstr) : rst unit :=
  match traits with
  | [] => sret tt
  | trait :: traits' => object_add_trait o trait ;;! object_add_traits o traits'
  end.

(** [err = registry_add_object(...); if (err) object_deref(object); return err;] *)
Definition publish_object (path : cstr) (o : nat) : rst unit :=
  do! e <- scatch (registry_add_object path o) ;
  match e with
  | inl err => object_deref o ;;! sfail err
  | inr _ => sret tt
  end.

Definition dicey_registry_add_object_with (path : cstr) (traits : list cstr) : rst unit :=
  if negb (path_is_valid path) then sfail DICEY_EPATH_MALFORMED else
  do! known <- dicey_registry_contains_object path ;
  if known then sfail DICEY_EEXIST else
  do! o <- object_new ;
  match o with
  | None => sfail DICEY_ENOMEM
  | Some o =>
      do! e <- scatch (object_add_traits o traits) ;
      match e with
      | inl err => object_deref o ;;! sfail err
      | inr _ => publish_object path o
      end
  end.

(** The loop of [dicey_registry_add_object_with_trait_list]: it releases the object itself. *)
Fixpoint trait_list_loop (o : nat) (traits : list cstr) : rst unit :=
  match traits with
  | [] => sret tt
  | trait :: traits' =>
      do! e <- scatch (object_add_trait o trait) ;
      match e with
      | inl err => object_deref o ;;! sfail err
      | inr _ => trait_list_loop o traits'
      end
  end.

Definition dicey_registry_add_object_with_trait_list (path : cstr) (traits : list cstr) : rst unit :=
  if negb (path_is_valid path) then sfail DICEY_EPATH_MALFORMED else
  do! known <- dicey_registry_contains_object path ;
  if known then sfail DICEY_EEXIST else
  do! o <- object_new ;
  match o with
  | None => sfail DICEY_ENOMEM
  | Some o => trait_list_loop o traits ;;! publish_object path o
  end.

Fixpoint check_traits (l : list (cstr * unit)) : rst unit :=
  match l with
  | [] => sret tt
  | (trait, _) :: l' =>
      do! known <- registry_trait_exists trait ;
      if negb known then sfail DICEY_ETRAIT_NOT_FOUND else check_traits l'
  end.

(** The iterator is zero-initialised: it iterates over no table. *)
Definition dicey_registry_add_object_with_trait_set (path : cstr) (set : T unit) : rst unit :=
  if negb (path_is_valid path) then sfail DICEY_EPATH_MALFORMED else
  do! known <- dicey_registry_contains_object path ;
  if known then sfail DICEY_EEXIST else
  do! l <- slift (tbl_entries (tbl_empty (A := unit))) ;
  check_traits l ;;!
  do! o <- object_new_with set ;
  match o with
  | None => sfail DICEY_ENOMEM
  | Some o => publish_object path o
  end.

(** ** Removing paths, aliases *)

Definition dicey_registry_remove_object (path : cstr) : rst unit :=
  if negb (path_is_valid path) then sfail DICEY_EPATH_MALFORMED else
  do! r <- sget ;
  do! (c, paths) <- slift (tbl_remove (rg_paths r) path) ;
  supd (set_paths paths) ;;!
  match c with
  | None => sfail DICEY_EPATH_NOT_FOUND
  | Some c => object_deref (pc_object c)
  end.

Definition registry_remove_path (path : cstr) : rst unit :=
  do! r <- sget ;
  do! (c, paths) <- slift (tbl_remove (rg_paths r) path) ;
  supd (set_paths paths) ;;!
  match c with
  | None => sfail DICEY_EPATH_NOT_FOUND
  | Some c => object_deref (pc_object c)
  end.

(** The loops over the aliases of an object: each turn reads the set, which the object owns, and
    asserts that the path is registered. *)
Fixpoint remove_aliases (o : nat) (l : list (cstr * unit)) : rst unit :=
  match l with
  | [] => do! _ <- obj_read o ; sret tt
  | (alias, _) :: l' =>
      do! _ <- obj_read o ;
      do! e <- scatch (registry_remove_path alias) ;
      match e with
      | inl _ => sfault AssertFailed
      | inr _ => remove_aliases o l'
      end
  end.

Definition registry_del_object (path : cstr) : rst unit :=
  if negb (path_is_valid path) then sfail DICEY_EPATH_MALFORMED else
  do! o <- dicey_registry_get_object_mut path ;
  match o with
  | None => sfail DICEY_EPATH_NOT_FOUND
  | Some o =>
      do! ob <- obj_read o ;
      do! l <- slift (tbl_entries (ob_aliases ob)) ;
      remove_aliases o l ;;!
      do! ob <- obj_read o ;
      do! m <- read_main_path ob ;
      do! r <- sget ;
      do! (c, paths) <- slift (tbl_remove (rg_paths r) m) ;
      supd (set_paths paths) ;;!
      sassert (bool_decide (is_Some c)) ;;!
      object_deref o
  end.

Definition dicey_registry_delete_object (name : cstr) : rst unit := registry_del_object name.

Definition dicey_registry_remove_all_object_aliases (path : cstr) : rst unit :=
  if negb (path_is_valid path) then sfail DICEY_EPATH_MALFORMED else
  do! o <- dicey_registry_get_object_mut path ;
  match o with
  | None => sfail DICEY_EPATH_NOT_FOUND
  | Some o =>
      do! ob <- obj_read o ;
      do! m <- read_main_path ob ;
      if negb (bool_decide (m = path)) then sfail DICEY_EINVAL else
      do! l <- slift (tbl_entries (ob_aliases ob)) ;
      remove_aliases o l ;;!
      do! ob <- obj_read o ;
      obj_write o (with_aliases tbl_empty ob)
  end.

Definition dicey_registry_alias_object (path alias : cstr) : rst unit :=
  if negb (path_is_valid path) || negb (path_is_valid alias) then sfail DICEY_EPATH_MALFORMED else
  if bool_decide (path = alias) then sfail DICEY_EINVAL else
  do! r <- sget ;
  do! c <- slift (tbl_get (rg_paths r) path) ;
  match c with
  | None => sfail DICEY_EPATH_NOT_FOUND
  | Some c =>
      let o := pc_object c in
      do! existing <- dicey_registry_get_main_path alias ;
      match existing with
      | Some existing =>
          do! ob <- obj_read o ;
          do! same <- (if bool_decide (existing = alias) then sret false
                       else do! m <- read_main_path ob ; sret (bool_decide (existing = m))) ;
          if same then sfail DICEY_EEXIST else sfail DICEY_EINVAL
      | None =>
          object_ref o ;;!
          registry_add_object alias o ;;!
          do! e <- dicey_registry_get_object_entry alias ;
          match e with
          | None => sfault AssertFailed
          | Some (_, p, o') =>
              sassert (bool_decide (o' = o) && bool_decide (p = alias)) ;;!
              do! ob <- obj_read o ;
              do! (res, _, set) <- slift (tbl_set (ob_aliases ob) p tt) ;
              obj_write o (with_aliases set ob) ;;!
              match res with
              | DICEY_HASH_SET_ADDED => sret tt
              | DICEY_HASH_SET_UPDATED => sfault AssertFailed
              | DICEY_HASH_SET_FAILED => dicey_registry_remove_object alias
              end
          end
      end
  end.

Definition dicey_registry_unalias_object (alias : cstr) : rst unit :=
  if negb (path_is_valid alias) then sfail DICEY_EPATH_MALFORMED else
  do! o <- dicey_registry_get_object_mut alias ;
  match o with
  | None => sfail DICEY_EPATH_NOT_FOUND
  | Some o =>
      do! ob <- obj_read o ;
      do! (success, set) <- slift (tbl_remove (ob_aliases ob) alias) ;
      obj_write o (with_aliases set ob) ;;!
      if negb (bool_decide (is_Some success)) then sfail DICEY_EPATH_NOT_ALIAS else
      do! e <- scatch (registry_remove_path alias) ;
      match e with
      | inl _ => sfault AssertFailed
      | inr _ => sret tt
      end
  end.

(** ** Traits *)

(** [dicey_metaname_vformat_to]: [s] is what the format expands to; [buffer] is the size of the
    buffer behind the view, if a view is given. The buffer is reallocated when it is too short; a
    string of more than [INT_MAX] bytes cannot be formatted. Returns the string, or [None], and
    the new size. *)
Definition dicey_metaname_vformat_to (buffer : option Z) (s : cstr) : res (option cstr * Z) :=
  match buffer with
  | None => Fault AssertFailed
  | Some len =>
      if INT_MAX <? zlen s then Ok (None, len) else
      let needed := zlen s + 1 in
      if len <? needed then Ok (if realloc_ok needed then (Some s, needed) else (None, len)) else Ok (Some s, len)
  end.

(** It passes no view. *)
Definition dicey_metaname_format (s : cstr) : res (option cstr * Z) := dicey_metaname_vformat_to None s.

Definition dicey_metaname_format_to (buffer : option Z) (s : cstr) : res (option cstr * Z) :=
  let! _ := oassert (bool_decide (is_Some buffer)) in dicey_metaname_vformat_to buffer s.

Definition dicey_registry_format_metaname (s : cstr) : rst (option cstr) :=
  do! r <- sget ;
  do! (name, len) <- slift (dicey_metaname_vformat_to (Some (rg_buffer r)) s) ;
  supd (set_buffer len) ;;! sret name.

Definition registry_add_trait (trait_name : cstr) (t : nat) : rst unit :=
  do! metapath <- dicey_registry_format_metaname (METATRAIT_PREFIX ++ trait_name) ;
  match metapath with
  | None => sfail DICEY_ENOMEM
  | Some metapath =>
      do! r <- sget ;
      do! (res, old, traits) <- slift (tbl_set (rg_traits r) trait_name t) ;
      supd (set_traits traits) ;;!
      match res with
      | DICEY_HASH_SET_FAILED => sfail DICEY_ENOMEM
      | DICEY_HASH_SET_UPDATED => sfault AssertFailed
      | DICEY_HASH_SET_ADDED =>
          sassert (bool_decide (old = None)) ;;!
          dicey_registry_add_object_with metapath [DICEY_TRAIT_TRAIT_NAME]
      end
  end.

Definition dicey_registry_add_trait (t : nat) : rst unit :=
  do! tr <- trait_read t ;
  do! known <- dicey_registry_contains_trait (tr_name tr) ;
  if known then sfail DICEY_EEXIST else registry_add_trait (tr_name tr) t.

(** A new trait on the heap. *)
Definition trait_new (name : cstr) : rst (option nat) :=
  do! tr <- slift (dicey_trait_new (T := T) strdup_ok (trait_alloc_ok name) name) ;
  match tr with
  | None => sret None
  | Some tr =>
      do! t <- fresh_address ;
      supd (fun r => set_trait_heap (<[t := tr]> (rg_trait_heap r)) r) ;;! sret (Some t)
  end.

Definition trait_add_element (t : nat) (name : cstr) (elem : dicey_element) : rst unit :=
  do! tr <- trait_read t ;
  let '(res, tr') := dicey_trait_add_element elem_alloc_ok strdup_ok name elem tr in
  supd (fun r => set_trait_heap (<[t := tr']> (rg_trait_heap r)) r) ;;!
  slift res.

Definition trait_free (t : nat) : rst unit :=
  do! tr <- trait_read t ;
  slift (dicey_trait_delete tr) ;;!
  supd (fun r => set_trait_heap (delete t (rg_trait_heap r)) r).

(** The loops over the elements of a new trait, which is deleted at the first error. *)
Fixpoint trait_add_elements (t : nat) (elems : list (cstr * dicey_element)) : rst unit :=
  match elems with
  | [] => sret tt
  | (name, elem) :: elems' =>
      do! e <- scatch (trait_add_element t name elem) ;
      match e with
      | inl err => trait_free t ;;! sfail err
      | inr _ => trait_add_elements t elems'
      end
  end.

(** The error of [registry_add_trait] is not returned. *)
Definition dicey_registry_add_trait_with (name : cstr) (elems : list (cstr * dicey_element)) : rst unit :=
  do! known <- dicey_registry_contains_trait name ;
  if known then sfail DICEY_EEXIST else
  do! t <- trait_new name ;
  match t with
  | None => sfail DICEY_ENOMEM
  | Some t =>
      trait_add_elements t elems ;;!
      do! e <- scatch (registry_add_trait name t) ;
      match e with
      | inl _ => trait_free t ;;! sret tt
      | inr _ => sret tt
      end
  end.

(** [struct dicey_element_new_entry] *)
Record dicey_element_new_entry : Type := mk_new_entry {
  ne_type : dicey_element_type; ne_name : cstr; ne_signature : option cstr;
}.

Definition new_entry_element (e : dicey_element_new_entry) : cstr * dicey_element :=
  (ne_name e, mk_element (ne_type e) (ne_signature e) 0 0).

Definition dicey_registry_add_trait_with_element_list (name : cstr) (elems : list dicey_element_new_entry) : rst unit :=
  do! t <- trait_new name ;
  match t with
  | None => sfail DICEY_ENOMEM
  | Some t =>
      trait_add_elements t (new_entry_element <$> elems) ;;!
      do! e <- scatch (registry_add_trait name t) ;
      match e with
      | inl err => trait_free t ;;! sfail err
      | inr _ => sret tt
      end
  end.

(** ** The end of the registry *)

Fixpoint deref_all (l : list (cstr * path_cell)) : rst unit :=
  match l with
  | [] => sret tt
  | (_, c) :: l' => object_deref (pc_object c) ;;! deref_all l'
  end.

Fixpoint free_traits (l : list (cstr * nat)) : rst unit :=
  match l with
  | [] => sret tt
  | (_, t) :: l' => trait_free t ;;! free_traits l'
  end.

Definition dicey_registry_deinit : rst unit :=
  do! r <- sget ;
  do! paths <- slift (tbl_entries (rg_paths r)) ;
  deref_all paths ;;!
  do! traits <- slift (tbl_entries (rg_traits r)) ;
  free_traits traits ;;!
  supd (fun r => mk_registry tbl_empty tbl_empty 0 (rg_objects r) (rg_trait_heap r) (rg_next r)).

Definition empty_registry : dicey_registry := mk_registry tbl_empty tbl_empty 0 ∅ ∅ 0.

End registry.
