(* ===== verification/RegistryGrowth.v ===== *)
(** * How the tables of the registry grow

    A hash table does not give the cells of removed entries back, so that it can refuse an entry in
    the end even when it is small. This file bounds the cells the registry uses: an operation on
    objects and aliases uses at most two more cells of each of its tables. *)

From S2P Require Import Prelude Errors Types Views Typedescr Hashtable Table Traits Registry.
From stdpp Require Import gmap list.

#[local] Open Scope Z_scope.

Section growth.
Context {T : Type -> Type} `{Table T}.
Variable object_alloc_ok : nat -> bool.
Abbreviation registry := (dicey_registry (T := T)).

(** A table that [n] additions can have produced, with removals in between. *)
Definition table_fits {A} (n : Z) (t : T A) : Prop :=
  tbl_ok t /\ Z.of_nat (size (tbl_map t)) <= n /\ tbl_used t <= MAX_BUCKETS + n.

Definition object_fits (n : Z) (ob : dicey_object (T := T)) : Prop := table_fits n (ob_aliases ob).

Definition fits (n : Z) (r : registry) : Prop :=
  0 <= n /\ table_fits n (rg_paths r) /\ forall o ob, rg_objects r !! o = Some ob -> object_fits n ob.

Lemma table_fits_mono {A} n n' (t : T A) : table_fits n t -> n <= n' -> table_fits n' t.
Proof. intros (H1 & H2 & H3) Hn. split_and!; [done|lia|lia]. Qed.

Lemma fits_mono n n' r : fits n r -> n <= n' -> fits n' r.
Proof. intros (H1 & H2 & H3) Hn. split_and!; [lia|by eapply table_fits_mono|]. intros o ob E. eapply table_fits_mono; [by eapply H3|done]. Qed.

Lemma table_fits_empty {A} n : 0 <= n -> table_fits n (tbl_empty : T A).
Proof.
  intros Hn. destruct (tbl_empty_ok (T := T) (A := A)) as (H1 & H2 & _).
  split_and!; [done|rewrite H2, map_size_empty; lia|rewrite tbl_empty_used; unfold MAX_BUCKETS; lia].
Qed.

Lemma table_fits_set {A} n (t : T A) k v r old t' :
  table_fits n t -> n + 1 <= MAX_LEN -> tbl_set t k v = Ok (r, old, t') -> table_fits (n + 1) t'.
Proof.
  intros (H1 & H2 & H3) Hn E. pose proof (tbl_set_used t k v r old t' H1 ltac:(lia) E) as Hu.
  destruct (tbl_set_ok t k v H1 ltac:(lia)) as (r2 & old2 & t2 & E2 & Hok & Hr). rewrite E in E2. simplify_eq.
  assert (tbl_map t2 = tbl_map t \/ tbl_map t2 = <[k := v]> (tbl_map t)) as Hm by (destruct r2; [left|right|right]; apply Hr).
  split_and!; [done| |lia]. destruct Hm as [-> | ->]; [lia|]. rewrite map_size_insert. destruct (_ !! k); unfold id; lia.
Qed.

Lemma table_fits_remove {A} n (t : T A) k v t' : table_fits n t -> tbl_remove t k = Ok (v, t') -> table_fits n t'.
Proof.
  intros (H1 & H2 & H3) E. pose proof (tbl_remove_used t k v t' H1 E) as Hu.
  destruct (tbl_remove_ok t k H1) as (t2 & E2 & Hok & Hm & _). rewrite E in E2. simplify_eq.
  split_and!; [done| |lia]. rewrite Hm, map_size_delete. destruct (_ !! k); unfold id; lia.
Qed.

(** ** Computations that grow the tables from [n] to [n'] additions *)

Definition grows {A} (n n' : Z) (m : rst (T := T) A) (Q : A -> Prop) : Prop :=
  forall r, fits n r -> fits n' (m r).2 /\ match (m r).1 with Ok a => Q a | _ => True end.

Lemma grows_bind {A B} n n1 n2 (m : rst (T := T) A) (k : A -> rst (T := T) B) P Q :
  n1 <= n2 -> grows n n1 m P -> (forall a, P a -> grows n1 n2 (k a) Q) -> grows n n2 (sbind m k) Q.
Proof.
  intros Hn Hm Hk r Hr. unfold sbind. destruct (Hm r Hr) as [H1 H2]. destruct (m r) as [[a|e|f|] r1]; cbn in *; [by apply (Hk a)|..];
    (split; [by eapply fits_mono|done]).
Qed.

Lemma grows_ret {A} n (a : A) (Q : A -> Prop) : Q a -> grows n n (sret a) Q.
Proof. by intros HQ r Hr. Qed.
Lemma grows_lift {A} n (x : res A) (Q : A -> Prop) : (forall a, x = Ok a -> Q a) -> grows n n (slift x) Q.
Proof. intros HQ r Hr. split; [done|]. cbn. destruct x; auto. Qed.
Lemma grows_fail {A} n e (Q : A -> Prop) : grows n n (sfail e) Q.
Proof. by intros r Hr. Qed.
Lemma grows_fault {A} n f (Q : A -> Prop) : grows n n (sfault f) Q.
Proof. by intros r Hr. Qed.
Lemma grows_assert n b : grows n n (sassert b) (fun _ => True).
Proof. by destruct b; intros r Hr. Qed.
Lemma grows_get n : grows n n sget (fits n).
Proof. by intros r Hr. Qed.
Lemma grows_catch {A} n n' (m : rst (T := T) A) Q : grows n n' m Q -> grows n n' (scatch m) (fun e => match e with inr a => Q a | inl _ => True end).
Proof. intros Hm r Hr. unfold scatch. destruct (Hm r Hr) as [H1 H2]. by destruct (m r) as [[a|e|f|] r1]. Qed.
Lemma grows_fresh n : grows n n fresh_address (fun _ => True).
Proof. by intros r Hr. Qed.
Lemma grows_read n o : grows n n (obj_read o) (object_fits n).
Proof. intros r Hr. split; [done|]. unfold obj_read. cbn. destruct (rg_objects r !! o) as [ob|] eqn:E; [|done]. by apply (proj2 (proj2 Hr) o). Qed.
Lemma grows_write n o ob : object_fits n ob -> grows n n (obj_write o ob) (fun _ => True).
Proof.
  intros Ho r (H1 & H2 & H3). split; [|done]. split_and!; [done|done|]. intros o' ob'. cbn. rewrite lookup_insert_Some.
  intros [[_ <-]|[_ E]]; [done|by apply (H3 o')].
Qed.
Lemma grows_free n o : grows n n (obj_free o) (fun _ => True).
Proof. intros r (H1 & H2 & H3). split; [|done]. split_and!; [done|done|]. intros o' ob'. cbn. rewrite lookup_delete_Some. intros [_ E]. by apply (H3 o'). Qed.
Lemma grows_paths n t : table_fits n t -> grows n n (supd (set_paths t)) (fun _ => True).
Proof. intros Ht r (H1 & H2 & H3). split; [|done]. by split_and!. Qed.

Lemma grows_weaken {A} n n' n'' (m : rst (T := T) A) (P Q : A -> Prop) : grows n n' m P -> n' <= n'' -> (forall a, P a -> Q a) -> grows n n'' m Q.
Proof. intros Hm Hn HQ r Hr. destruct (Hm r Hr) as [H1 H2]. split; [by eapply fits_mono|]. destruct (m r).1; auto. Qed.

Lemma grows_pre {A} n (m : rst (T := T) A) n' Q : (0 <= n -> grows n n' m Q) -> grows n n' m Q.
Proof. intros Hm r Hr. apply Hm; [apply Hr|done]. Qed.

End growth.

Create HintDb grows discriminated.
#[export] Hint Resolve grows_fresh grows_read grows_get grows_assert grows_free grows_catch : grows.

(** Steps that leave the tables alone, and calls that have a rule in the database. *)
Ltac grow_step := first
  [ eapply grows_weaken; [first [apply (grows_ret _ _ (fun _ => True)); done|apply (grows_fail _ _ (fun _ => True))|apply (grows_fault _ _ (fun _ => True))]|lia|done]
  | eapply grows_weaken; [solve [eauto with grows]|lia|done]
  | eapply grows_bind; [|solve [eauto with grows]|intros ? ?]; [lia|]
  | eapply grows_bind; [|apply (grows_lift _ _ (fun _ => True)); done|intros ? ?]; [lia|]
  | case_match ].
Ltac grow := repeat grow_step.

Section operations.
Context {T : Type -> Type} `{Table T}.
Variable object_alloc_ok : nat -> bool.
Variable n : Z.

Lemma grows_main ob : grows n n (read_main_path (T := T) ob) (fun _ => True).
Proof. unfold read_main_path. grow. Qed.
#[local] Hint Resolve grows_main : grows.

Lemma grows_ref o : grows n n (object_ref (T := T) o) (fun _ => True).
Proof. unfold object_ref. grow. by apply grows_write. Qed.

Lemma grows_deref o : grows n n (object_deref (T := T) o) (fun _ => True).
Proof. unfold object_deref. grow. by apply grows_write. Qed.
#[local] Hint Resolve grows_ref grows_deref : grows.

Lemma grows_entry p : grows n n (registry_get_object_entry (T := T) p) (fun _ => True).
Proof. unfold registry_get_object_entry. grow. Qed.
#[local] Hint Resolve grows_entry : grows.

Lemma grows_get_entry p : grows n n (dicey_registry_get_object_entry (T := T) p) (fun _ => True).
Proof. unfold dicey_registry_get_object_entry. grow. Qed.
#[local] Hint Resolve grows_get_entry : grows.

Lemma grows_get_object p : grows n n (dicey_registry_get_object (T := T) p) (fun _ => True).
Proof. unfold dicey_registry_get_object. grow. Qed.
#[local] Hint Resolve grows_get_object : grows.

Lemma grows_get_main p : grows n n (dicey_registry_get_main_path (T := T) p) (fun _ => True).
Proof. unfold dicey_registry_get_main_path. grow. Qed.

Lemma grows_get_mut p : grows n n (dicey_registry_get_object_mut (T := T) p) (fun _ => True).
Proof. unfold dicey_registry_get_object_mut. grow. Qed.

Lemma grows_contains p : grows n n (dicey_registry_contains_object (T := T) p) (fun _ => True).
Proof. unfold dicey_registry_contains_object. grow. Qed.

Lemma grows_trait_exists t : grows n n (registry_trait_exists (T := T) t) (fun _ => True).
Proof. unfold registry_trait_exists. grow. Qed.
#[local] Hint Resolve grows_get_main grows_get_mut grows_contains grows_trait_exists : grows.

(** A path is taken out of the table. *)
Lemma grows_take {A} p (k : option path_cell -> rst (T := T) A) Q :
  (forall c, grows n n (k c) Q) ->
  grows n n (do! r <- sget ; do! (c, paths) <- slift (tbl_remove (rg_paths r) p) ; supd (set_paths paths) ;;! k c) Q.
Proof.
  intros Hk. eapply grows_bind; [|apply grows_get|]; [lia|]. intros r Hr.
  eapply grows_bind; [|apply (grows_lift _ _ (fun x => table_fits n x.2))|]; [lia| |].
  - intros [v t] E. eapply table_fits_remove; [apply Hr|exact E].
  - intros [v t] Ht. eapply grows_bind; [|by apply grows_paths|intros _ _]; [lia|]. apply Hk.
Qed.

Lemma grows_remove_path p : grows n n (registry_remove_path (T := T) p) (fun _ => True).
Proof. apply grows_take. intros c. grow. Qed.
#[local] Hint Resolve grows_remove_path : grows.

Lemma grows_remove_object p : grows n n (dicey_registry_remove_object (T := T) p) (fun _ => True).
Proof. unfold dicey_registry_remove_object. case_match; [apply grows_fail|apply grows_remove_path]. Qed.

Lemma grows_remove_aliases o l : grows n n (remove_aliases (T := T) o l) (fun _ => True).
Proof. induction l as [|[a u] l IH]; cbn [remove_aliases]; grow. Qed.

Lemma grows_add_trait o t : grows n n (object_add_trait (T := T) o t) (fun _ => True).
Proof. unfold object_add_trait. grow; by apply grows_write. Qed.

End operations.

#[export] Hint Resolve grows_main grows_ref grows_deref grows_entry grows_get_entry grows_get_object grows_get_main grows_get_mut grows_contains
  grows_trait_exists grows_remove_path grows_remove_object grows_remove_aliases grows_add_trait : grows.

Section additions.
Context {T : Type -> Type} `{Table T}.
Variable object_alloc_ok : nat -> bool.

Lemma grows_add_traits n o ts : grows n n (object_add_traits (T := T) o ts) (fun _ => True).
Proof. induction ts as [|t ts IH]; cbn [object_add_traits]; grow. Qed.
#[local] Hint Resolve grows_add_traits : grows.

Lemma grows_new n : grows n n (object_new (T := T) object_alloc_ok) (fun _ => True).
Proof.
  apply grows_pre. intros Hn. unfold object_new, object_new_with. grow;
    (eapply grows_bind; [|apply grows_write, table_fits_empty; exact Hn|intros _ _]; [lia|]); by apply grows_ret.
Qed.
#[local] Hint Resolve grows_new : grows.

Lemma grows_publish n p o : n + 1 <= MAX_LEN -> grows n (n + 1) (registry_add_object (T := T) p o) (fun _ => True).
Proof.
  intros Hn. unfold registry_add_object. eapply grows_bind; [|apply grows_fresh|intros k _]; [lia|].
  eapply grows_bind; [|apply grows_get|]; [lia|]. intros r Hr.
  eapply grows_bind; [|apply (grows_lift _ _ (fun x => table_fits (n + 1) x.2))|]; [lia| |].
  - intros [[res old] t] E. eapply table_fits_set; [apply Hr|done|exact E].
  - intros [[res old] t] Ht. eapply (grows_bind n (n + 1) (n + 1) _ _ (fun _ => True)); [lia| |intros _ _].
    + intros r' Hr'. destruct (fits_mono n (n + 1) r' Hr' ltac:(lia)) as (H1 & _ & H3). split; [|done]. split_and!; [done|exact Ht|exact H3].
    + grow. by apply grows_write.
Qed.

Lemma grows_add n p ts : n + 1 <= MAX_LEN -> grows n (n + 1) (dicey_registry_add_object_with (T := T) object_alloc_ok p ts) (fun _ => True).
Proof.
  intros Hn. pose proof (grows_publish n p) as Hp. unfold dicey_registry_add_object_with, publish_object. grow.
Qed.

(** The object's set of aliases takes one more. *)
Lemma grows_add_alias n o ob a b :
  n + 1 <= MAX_LEN -> object_fits n ob ->
  grows n (n + 1) (do! (res, _, set) <- slift (tbl_set (ob_aliases ob) a tt) ;
    obj_write o (with_aliases set ob) ;;!
    match res with
    | DICEY_HASH_SET_ADDED => sret tt
    | DICEY_HASH_SET_UPDATED => sfault AssertFailed
    | DICEY_HASH_SET_FAILED => dicey_registry_remove_object b
    end) (fun _ => True).
Proof.
  intros Hn Ho. eapply grows_bind; [|apply (grows_lift _ _ (fun x => table_fits (n + 1) x.2))|]; [lia| |].
  - intros [[res old] t] E. eapply table_fits_set; [exact Ho|done|exact E].
  - intros [[res old] t] Ht. eapply (grows_bind n (n + 1) (n + 1) _ _ (fun _ => True)); [lia| |intros _ _; grow].
    intros r Hr. apply (grows_write (n + 1) o (with_aliases t ob) Ht). eapply fits_mono; [exact Hr|lia].
Qed.

Lemma grows_alias n p a : n + 2 <= MAX_LEN -> grows n (n + 2) (dicey_registry_alias_object (T := T) p a) (fun _ => True).
Proof.
  intros Hn. pose proof (fun o => grows_publish n a o ltac:(lia)) as Hp. replace (n + 2) with (n + 1 + 1) by lia.
  unfold dicey_registry_alias_object. repeat first [apply grows_add_alias; [lia|done] | grow_step].
  eapply (grows_bind n n _ _ _ (fun _ => True)); [lia|grow|]. intros; grow.
Qed.

Lemma grows_unalias n a : grows n n (dicey_registry_unalias_object (T := T) a) (fun _ => True).
Proof.
  unfold dicey_registry_unalias_object. do 4 grow_step. eapply grows_bind; [|apply (grows_lift _ _ (fun x => table_fits n x.2))|]; [lia| |].
  - intros [v t] E. by eapply table_fits_remove.
  - intros [v t] Ht. eapply grows_bind; [|by apply grows_write|intros _ _]; [lia|]. grow.
Qed.

Lemma grows_remove_all n p : grows n n (dicey_registry_remove_all_object_aliases (T := T) p) (fun _ => True).
Proof. apply grows_pre. intros Hn. unfold dicey_registry_remove_all_object_aliases. grow. apply grows_write. by apply table_fits_empty. Qed.

Lemma grows_delete n p : grows n n (dicey_registry_delete_object (T := T) p) (fun _ => True).
Proof. unfold dicey_registry_delete_object, registry_del_object. repeat first [apply grows_take; intros ? | grow_step]. Qed.

End additions.
