(* ===== verification/RegistrySpec.v ===== *)
(** * What the registry promises

    The invariant of the registry, the directory it implements (every path with the main path and
    the traits of its object), and the proof that the operations on objects and aliases act on
    the directory as specified, for every implementation of [Table]. *)

From S2P Require Import Prelude Errors Types Views Typedescr Hashtable Table Traits Registry RegistryGrowth.
From stdpp Require Import gmap list.

#[local] Open Scope Z_scope.

(** ** The specification: a directory *)

(** Each path, with the main path of the object it leads to and the traits of the object. *)
Abbreviation directory := (gmap cstr (cstr * gset cstr)).

Inductive registry_op : Type :=
  | AddObject (path : cstr) (traits : list cstr)
  | AliasObject (path alias : cstr)
  | UnaliasObject (alias : cstr)
  | RemoveAllAliases (path : cstr)
  | DeleteObject (path : cstr).

(** The traits of a new object, or the error of the first name that is unknown or repeated. *)
Fixpoint spec_traits (known : gset cstr) (acc : gset cstr) (traits : list cstr) : dicey_error + gset cstr :=
  match traits with
  | [] => inr acc
  | t :: traits' =>
      if decide (t ∈ known) then
        if decide (t ∈ acc) then inl DICEY_EINVAL else spec_traits known ({[t]} ∪ acc) traits'
      else inl DICEY_ETRAIT_NOT_FOUND
  end.

Definition spec_step (known : gset cstr) (op : registry_op) (d : directory) : res unit * directory :=
  match op with
  | AddObject p traits =>
      if negb (path_is_valid p) then (Err DICEY_EPATH_MALFORMED, d) else
      match d !! p with
      | Some _ => (Err DICEY_EEXIST, d)
      | None =>
          match spec_traits known {[DICEY_INTROSPECTION_TRAIT_NAME]} traits with
          | inl e => (Err e, d)
          | inr s => (Ok tt, <[p := (p, s)]> d)
          end
      end
  | AliasObject p a =>
      if negb (path_is_valid p) || negb (path_is_valid a) then (Err DICEY_EPATH_MALFORMED, d) else
      if decide (p = a) then (Err DICEY_EINVAL, d) else
      match d !! p with
      | None => (Err DICEY_EPATH_NOT_FOUND, d)
      | Some (m, s) =>
          match d !! a with
          | Some (m', _) =>
              if decide (m' <> a /\ m' = m) then (Err DICEY_EEXIST, d) else (Err DICEY_EINVAL, d)
          | None => (Ok tt, <[a := (m, s)]> d)
          end
      end
  | UnaliasObject a =>
      if negb (path_is_valid a) then (Err DICEY_EPATH_MALFORMED, d) else
      match d !! a with
      | None => (Err DICEY_EPATH_NOT_FOUND, d)
      | Some (m, _) => if decide (m = a) then (Err DICEY_EPATH_NOT_ALIAS, d) else (Ok tt, delete a d)
      end
  | RemoveAllAliases p =>
      if negb (path_is_valid p) then (Err DICEY_EPATH_MALFORMED, d) else
      match d !! p with
      | None => (Err DICEY_EPATH_NOT_FOUND, d)
      | Some (m, _) =>
          if decide (m = p) then (Ok tt, filter (fun kv => kv.2.1 <> p \/ kv.1 = p) d) else (Err DICEY_EINVAL, d)
      end
  | DeleteObject p =>
      if negb (path_is_valid p) then (Err DICEY_EPATH_MALFORMED, d) else
      match d !! p with
      | None => (Err DICEY_EPATH_NOT_FOUND, d)
      | Some (m, _) => (Ok tt, filter (fun kv => kv.2.1 <> m) d)
      end
  end.

Section spec.
Context {T : Type -> Type} `{Table T}.
Variable object_alloc_ok : nat -> bool.

Implicit Types (P : gmap cstr path_cell) (O : gmap nat (dicey_object (T := T))) (r : dicey_registry (T := T)).

Definition registry_step (op : registry_op) : rst (T := T) unit :=
  match op with
  | AddObject p traits => dicey_registry_add_object_with object_alloc_ok p traits
  | AliasObject p a => dicey_registry_alias_object p a
  | UnaliasObject a => dicey_registry_unalias_object a
  | RemoveAllAliases p => dicey_registry_remove_all_object_aliases p
  | DeleteObject p => dicey_registry_delete_object p
  end.

(** ** The graph of paths and objects *)

Abbreviation amap ob := (tbl_map (ob_aliases ob)).
Abbreviation tset ob := (dom (tbl_map (ob_traits ob)) : gset cstr).

(** An object that a path leads to: its main path and its aliases lead to it, it counts them, and
    [leak] more (references that no path holds). *)
Definition obj_wf P (leak : nat -> Z) (o : nat) (ob : dicey_object (T := T)) : Prop :=
  tbl_ok (ob_traits ob) /\ tbl_ok (ob_aliases ob) /\ tbl_is_null (ob_traits ob) = false /\
  ob_refcount ob = 1 + Z.of_nat (size (amap ob)) + leak o /\
  (exists k m, ob_main_path ob = Some (k, m) /\ P !! m = Some (mk_cell k o) /\ amap ob !! m = None) /\
  (forall a, is_Some (amap ob !! a) -> exists k, P !! a = Some (mk_cell k o)).

Record graph_wf (leak : nat -> Z) P O : Prop := {
  gw_path p c : P !! p = Some c -> path_is_valid p = true /\
    exists ob, O !! pc_object c = Some ob /\ obj_wf P leak (pc_object c) ob /\
      (ob_main_path ob = Some (pc_key c, p) \/ is_Some (amap ob !! p));
  gw_heap o ob : O !! o = Some ob -> (exists p k, P !! p = Some (mk_cell k o)) \/ 0 < leak o;
  gw_leak o : 0 <= leak o;
}.

Definition view_cell O (c : path_cell) : option (cstr * gset cstr) :=
  O !! pc_object c ≫= fun ob => (fun km => (km.2, tset ob)) <$> ob_main_path ob.

Definition dir P O : directory := omap (view_cell O) P.

Lemma dir_lookup P O p : dir P O !! p = P !! p ≫= view_cell O.
Proof. unfold dir. by rewrite lookup_omap. Qed.

(** The path is in the table: what is known about it. *)
Lemma graph_get leak P O p c :
  graph_wf leak P O -> P !! p = Some c ->
  exists ob k m, O !! pc_object c = Some ob /\ obj_wf P leak (pc_object c) ob /\ ob_main_path ob = Some (k, m) /\
    P !! m = Some (mk_cell k (pc_object c)) /\ amap ob !! m = None /\ path_is_valid p = true /\
    dir P O !! p = Some (m, tset ob) /\ (m <> p <-> is_Some (amap ob !! p)).
Proof.
  intros W E. destruct (gw_path _ _ _ W p c E) as (Hv & ob & Ho & Hw & Hr).
  destruct (Hw) as (_ & _ & _ & _ & (k & m & Hm & Hp & Hn) & _). exists ob, k, m. split_and!; try done.
  - rewrite dir_lookup, E. cbn. unfold view_cell. rewrite Ho. cbn. by rewrite Hm.
  - destruct Hr as [Hr|Hr]; [|split; [done|]; intros _ ->; rewrite Hn in Hr; by destruct Hr].
    rewrite Hm in Hr. injection Hr as -> ->. rewrite Hn. split; [done|]. by intros [? ?].
Qed.

Lemma graph_get_none P O p : P !! p = None -> dir P O !! p = None.
Proof. intros E. by rewrite dir_lookup, E. Qed.

(** Objects with the same main path and traits look the same. *)
Lemma view_same O o ob ob' c :
  O !! o = Some ob -> ob_main_path ob' = ob_main_path ob -> tbl_map (ob_traits ob') = tbl_map (ob_traits ob) ->
  view_cell (<[o := ob']> O) c = view_cell O c.
Proof.
  intros Ho Hm Ht. unfold view_cell. destruct (decide (o = pc_object c)) as [<-|Hne].
  - rewrite lookup_insert_eq, Ho. cbn. by rewrite Hm, Ht.
  - by rewrite lookup_insert_ne.
Qed.

Lemma view_other O o c : pc_object c <> o -> view_cell (delete o O) c = view_cell O c.
Proof. intros Hne. unfold view_cell. by rewrite lookup_delete_ne. Qed.

(** Changing the paths and the references of other objects does not matter to an object. *)
Lemma obj_wf_ext P P' leak leak' o ob :
  obj_wf P leak o ob -> leak' o = leak o -> (forall p k, P !! p = Some (mk_cell k o) -> P' !! p = Some (mk_cell k o)) ->
  obj_wf P' leak' o ob.
Proof.
  intros (H1 & H2 & H3 & H4 & (k & m & Hm & Hp & Hn) & H6) Hl HP. split_and!; try done; [by rewrite Hl|by exists k, m; auto|].
  intros a Ha. destruct (H6 a Ha) as [k' ?]. eauto.
Qed.

(** ** Changes of the graph *)

Lemma graph_add leak P O o p k ob :
  graph_wf leak P O -> O !! o = None -> leak o = 0 -> P !! p = None -> path_is_valid p = true ->
  tbl_ok (ob_traits ob) -> tbl_ok (ob_aliases ob) -> tbl_is_null (ob_traits ob) = false ->
  amap ob = ∅ -> ob_main_path ob = Some (k, p) -> ob_refcount ob = 1 ->
  graph_wf leak (<[p := mk_cell k o]> P) (<[o := ob]> O) /\
  dir (<[p := mk_cell k o]> P) (<[o := ob]> O) = <[p := (p, tset ob)]> (dir P O).
Proof.
  intros W Ho Hl Hp Hv H1 H2 H3 H4 H5 H6.
  assert (forall q c, P !! q = Some c -> pc_object c <> o) as Hne.
  { intros q c E <-. destruct (gw_path _ _ _ W q c E) as (_ & ob' & E' & _). congruence. }
  split; [split|].
  - intros q c. rewrite lookup_insert_Some. intros [[<- <-]|[Hq E]]; cbn [pc_object pc_key].
    + split; [done|]. exists ob. rewrite lookup_insert_eq. split; [done|]. split; [|by left]. split_and!; try done.
      * rewrite H4, map_size_empty. lia.
      * exists k, p. rewrite lookup_insert_eq, H4. done.
      * intros a. rewrite H4, lookup_empty. by intros [? ?].
    + destruct (gw_path _ _ _ W q c E) as (Hvq & ob' & E' & Hw & Hr). split; [done|]. exists ob'.
      rewrite lookup_insert_ne by (pose proof (Hne q c E); congruence). split_and!; try done.
      eapply obj_wf_ext; [exact Hw|done|]. intros q' k' Hq'. rewrite lookup_insert_ne; [done|]. intros ->. congruence.
  - intros o' ob'. rewrite lookup_insert_Some. intros [[<- <-]|[Hq E]]; [left; exists p, k; by rewrite lookup_insert_eq|].
    destruct (gw_heap _ _ _ W o' ob' E) as [(q & k' & Hq')|?]; [|by right]. left. exists q, k'. rewrite lookup_insert_ne; [done|].
    intros ->. congruence.
  - apply (gw_leak _ _ _ W).
  - apply map_eq. intros q. rewrite dir_lookup, !lookup_insert. case_decide as Hq; subst.
    + cbn. unfold view_cell. cbn. rewrite lookup_insert_eq. cbn. by rewrite H5.
    + rewrite dir_lookup. destruct (P !! q) as [c|] eqn:E; [|done]. cbn. unfold view_cell.
      by rewrite lookup_insert_ne by (pose proof (Hne q c E); congruence).
Qed.

(** The same object, in its place, after a change that keeps its main path and traits: its aliases,
    its references and the paths that lead to it may change. *)
Definition same_view (ob ob' : dicey_object (T := T)) : Prop :=
  ob_main_path ob' = ob_main_path ob /\ ob_traits ob' = ob_traits ob.

Lemma graph_change leak leak' P P' O o ob ob' :
  graph_wf leak P O -> O !! o = Some ob -> same_view ob ob' ->
  (forall o', o' <> o -> leak' o' = leak o') -> 0 <= leak' o ->
  obj_wf P' leak' o ob' ->
  (forall q c, pc_object c <> o -> P' !! q = Some c <-> P !! q = Some c) ->
  (forall q k, P' !! q = Some (mk_cell k o) -> path_is_valid q = true /\ (ob_main_path ob = Some (k, q) \/ is_Some (amap ob' !! q))) ->
  graph_wf leak' P' (<[o := ob']> O).
Proof.
  intros W Ho [Hm Ht] Hl Hl0 Hw Hne Hq. split.
  - intros q [k o'] E. cbn [pc_object pc_key]. destruct (decide (o' = o)) as [->|Hd].
    + destruct (Hq q k E) as [Hv Hr]. split; [done|]. exists ob'. rewrite lookup_insert_eq, Hm. done.
    + apply Hne in E; [|done]. destruct (gw_path _ _ _ W q _ E) as (Hv & ob2 & E2 & Hw2 & Hr). split; [done|].
      exists ob2. rewrite lookup_insert_ne by done. split_and!; try done.
      eapply obj_wf_ext; [exact Hw2|by apply Hl|]. intros q' k' E'. by apply Hne.
  - intros o' ob2. rewrite lookup_insert_Some. intros [[<- <-]|[Hd E]].
    + destruct Hw as (_ & _ & _ & _ & (k & m & _ & E & _) & _). left. eauto.
    + destruct (gw_heap _ _ _ W o' ob2 E) as [(q & k & E')|Hlk]; [left|right; by rewrite Hl].
      exists q, k. apply Hne; [done|done].
  - intros o'. destruct (decide (o' = o)) as [->|Hd]; [done|]. rewrite Hl by done. apply (gw_leak _ _ _ W).
Qed.

Lemma obj_wf_amap P leak o ob ob' rc :
  obj_wf P leak o ob -> same_view ob ob' -> amap ob' = amap ob -> tbl_ok (ob_aliases ob') ->
  ob_refcount ob' = ob_refcount ob + rc -> obj_wf P (fun o => leak o + rc) o ob'.
Proof.
  intros (H1 & H2 & H3 & H4 & H5 & H6) [Hm Ht] Ha Hok Hr. unfold obj_wf. rewrite Hm, Ht, Ha, Hr. split_and!; try done. lia.
Qed.

(** References that no path holds: [leak] changes at one object. *)
Definition leak_at (leak : nat -> Z) (o : nat) (n : Z) (o' : nat) : Z := leak o' + (if decide (o' = o) then n else 0).

Lemma graph_touch leak P O o ob ob' n :
  graph_wf leak P O -> O !! o = Some ob -> obj_wf P leak o ob -> same_view ob ob' -> amap ob' = amap ob ->
  tbl_ok (ob_aliases ob') -> 0 <= n -> ob_refcount ob' = ob_refcount ob + n ->
  graph_wf (leak_at leak o n) P (<[o := ob']> O) /\ dir P (<[o := ob']> O) = dir P O.
Proof.
  intros W Ho Hw Hs Ha Hok Hn Hr. split.
  - eapply graph_change; try done.
    + intros o' Hd. unfold leak_at. rewrite decide_False by done. lia.
    + unfold leak_at. rewrite decide_True by done. pose proof (gw_leak _ _ _ W o). lia.
    + eapply (obj_wf_ext P P (fun o => leak o + n)); [by eapply obj_wf_amap| |done]. unfold leak_at. by rewrite decide_True.
    + intros q k E. destruct (gw_path _ _ _ W q _ E) as (Hv & ob2 & E2 & _ & Hq). cbn in E2. simplify_eq. by rewrite Ha.
  - apply map_eq. intros q. rewrite !dir_lookup. destruct (P !! q); [|done]. cbn. destruct Hs as [Hm Ht].
    eapply view_same; [done|done|by rewrite Ht].
Qed.

Lemma graph_alias leak P O o ob ob' a k :
  graph_wf leak P O -> O !! o = Some ob -> obj_wf P leak o ob -> same_view ob ob' -> P !! a = None -> path_is_valid a = true ->
  amap ob' = <[a := tt]> (amap ob) -> tbl_ok (ob_aliases ob') -> ob_refcount ob' = ob_refcount ob + 1 ->
  graph_wf leak (<[a := mk_cell k o]> P) (<[o := ob']> O).
Proof.
  intros W Ho Hw Hs Hp Hv Ha Hok Hr. destruct (Hw) as (H1 & H2 & H3 & H4 & (k0 & m & Hm & Hpm & Hn) & H6).
  assert (amap ob !! a = None) as Hna. { apply eq_None_not_Some. intros Hx. destruct (H6 a Hx). congruence. }
  eapply graph_change; try done.
  - apply (gw_leak _ _ _ W).
  - destruct Hs as [Hs1 Hs2]. unfold obj_wf. rewrite Hs1, Hs2, Ha, Hr, map_size_insert_None by done. split_and!; try done; [lia| |].
    + exists k0, m. assert (m <> a) by congruence. by rewrite !lookup_insert_ne by done.
    + intros a'. rewrite lookup_insert_is_Some'. intros [<-|Hx]; [exists k; by rewrite lookup_insert_eq|].
      destruct (H6 a' Hx) as [k' E]. exists k'. rewrite lookup_insert_ne; [done|]. congruence.
  - intros q c Hd. rewrite lookup_insert_Some. split; [by intros [[_ <-]|[_ ?]]|]. intros E. right. split; [congruence|done].
  - intros q k'. rewrite lookup_insert_Some. rewrite Ha. intros [[<- _]|[Hd E]].
    + split; [done|]. right. rewrite lookup_insert_eq. eauto.
    + destruct (gw_path _ _ _ W q _ E) as (Hvq & ob2 & E2 & _ & Hq). cbn in E2, Hq. simplify_eq. split; [done|].
      destruct Hq; [by left|right]. by rewrite lookup_insert_ne.
Qed.

Lemma dir_alias P O o ob ob' a k m :
  O !! o = Some ob -> same_view ob ob' -> ob_main_path ob = Some (k, m) ->
  forall k', dir (<[a := mk_cell k' o]> P) (<[o := ob']> O) = <[a := (m, tset ob)]> (dir P O).
Proof.
  intros Ho [Hs1 Hs2] Hm k'. apply map_eq. intros q. rewrite dir_lookup, !lookup_insert. case_decide as Hq.
  - cbn. rewrite (view_same _ _ _ _ _ Ho Hs1) by (by rewrite Hs2). unfold view_cell. cbn. rewrite Ho. cbn. by rewrite Hm.
  - rewrite dir_lookup. destruct (P !! q); [|done]. cbn. eapply view_same; [done|done|by rewrite Hs2].
Qed.

(** Paths that stop leading to an object: aliases in [S]. *)
Lemma graph_drop leak P P' O o ob ob' (S : list cstr) :
  graph_wf leak P O -> O !! o = Some ob -> obj_wf P leak o ob -> same_view ob ob' ->
  (forall q, P' !! q = if decide (q ∈ S) then None else P !! q) ->
  (forall q, q ∈ S -> is_Some (amap ob !! q)) ->
  (forall q, amap ob' !! q = if decide (q ∈ S) then None else amap ob !! q) ->
  tbl_ok (ob_aliases ob') -> ob_refcount ob' = 1 + Z.of_nat (size (amap ob')) + leak o ->
  graph_wf leak P' (<[o := ob']> O) /\
  (forall q, dir P' (<[o := ob']> O) !! q = if decide (q ∈ S) then None else dir P O !! q).
Proof.
  intros W Ho Hw Hs HP HS Ha Hok Hr. destruct (Hw) as (H1 & H2 & H3 & H4 & (k0 & m & Hm & Hpm & Hn) & H6). split.
  - eapply graph_change; try done.
    + apply (gw_leak _ _ _ W).
    + destruct Hs as [Hs1 Hs2]. unfold obj_wf. rewrite Hs1, Hs2. split_and!; try done.
      * exists k0, m. rewrite HP, Ha, Hn. destruct (decide (m ∈ S)) as [Hx|]; [|done]. destruct (HS m Hx). congruence.
      * intros a. rewrite Ha, HP. case_decide; [by intros [? ?]|]. apply H6.
    + intros q c Hd. rewrite HP. case_decide as Hx; [|done]. split; [done|]. intros E.
      destruct (H6 q (HS q Hx)). by simplify_eq.
    + intros q k. rewrite HP, Ha. case_decide; [done|]. intros E.
      destruct (gw_path _ _ _ W q _ E) as (Hvq & ob2 & E2 & _ & Hq). cbn in E2, Hq. by simplify_eq.
  - intros q. rewrite !dir_lookup, HP. case_decide; [done|]. destruct (P !! q); [|done]. cbn. destruct Hs as [Hs1 Hs2].
    eapply view_same; [done|done|by rewrite Hs2].
Qed.

(** The last path to an object goes, and the object with it, unless it has references left. *)
Lemma graph_remove leak P O O' o ob k m :
  graph_wf leak P O -> O !! o = Some ob -> obj_wf P leak o ob -> ob_main_path ob = Some (k, m) -> amap ob = ∅ ->
  (forall o', o' <> o -> O' !! o' = O !! o') -> (O' !! o = None \/ 0 < leak o) ->
  graph_wf leak (delete m P) O' /\ dir (delete m P) O' = delete m (dir P O).
Proof.
  intros W Ho Hw Hm Ha HO HO'. destruct (Hw) as (_ & _ & _ & _ & (k0 & m0 & Hm0 & Hp & _) & _). simplify_eq.
  assert (forall q c, q <> m -> P !! q = Some c -> pc_object c <> o) as Hne.
  { intros q c Hq E Hc. destruct (gw_path _ _ _ W q c E) as (_ & ob2 & E2 & _ & Hr). rewrite Hc in E2. simplify_eq.
    rewrite Ha, lookup_empty in Hr. destruct Hr as [Hr|[? ?]]; [|done]. congruence. }
  split; [split|].
  - intros q c. rewrite lookup_delete_Some. intros [Hq E]. pose proof (Hne q c ltac:(done) E).
    destruct (gw_path _ _ _ W q c E) as (Hv & ob2 & E2 & Hw2 & Hr). split; [done|]. exists ob2. rewrite HO by done. split_and!; try done.
    eapply obj_wf_ext; [exact Hw2|done|]. intros q' k' E'. rewrite lookup_delete_ne; [done|]. intros ->. congruence.
  - intros o' ob2 E. destruct (decide (o' = o)) as [->|Hd]; [right; destruct HO'; [congruence|done]|].
    rewrite HO in E by done. destruct (gw_heap _ _ _ W o' ob2 E) as [(q & k' & E')|?]; [|by right].
    left. exists q, k'. rewrite lookup_delete_ne; [done|]. intros ->. congruence.
  - apply (gw_leak _ _ _ W).
  - apply map_eq. intros q. rewrite dir_lookup, !lookup_delete. case_decide as Hq; [done|]. rewrite dir_lookup.
    destruct (P !! q) as [c|] eqn:E; [|done]. cbn. unfold view_cell. rewrite HO; [done|]. by eapply Hne.
Qed.

(** ** The invariant of the registry *)

Definition traits_wf r : Prop :=
  tbl_ok (rg_traits r) /\
  (forall n t, tbl_map (rg_traits r) !! n = Some t ->
     exists tr, rg_trait_heap r !! t = Some tr /\ tr_name tr = n /\ trait_wf tr) /\
  (forall t, (rg_next r <= t)%nat -> rg_trait_heap r !! t = None).

Record reg_wf (leak : nat -> Z) r : Prop := {
  rw_paths : tbl_ok (rg_paths r);
  rw_graph : graph_wf leak (tbl_map (rg_paths r)) (rg_objects r);
  rw_fresh o : (rg_next r <= o)%nat -> rg_objects r !! o = None /\ leak o = 0;
  rw_traits : traits_wf r;
}.

Definition directory_of r : directory := dir (tbl_map (rg_paths r)) (rg_objects r).
Definition known_traits r : gset cstr := dom (tbl_map (rg_traits r)).
Definition reg_small r : Prop := Z.of_nat (size (tbl_map (rg_paths r))) < MAX_LEN.

Lemma reg_wf_lt leak r o ob : reg_wf leak r -> rg_objects r !! o = Some ob -> (o < rg_next r)%nat.
Proof. intros W E. destruct (decide (o < rg_next r)%nat) as [|Hn]; [done|]. destruct (rw_fresh _ _ W o); [lia|congruence]. Qed.

(** ** Running the lookups *)

Lemma catch_Ok {A B} (m : rst (T := T) A) (k : dicey_error + A -> rst (T := T) B) r a r' :
  m r = (Ok a, r') -> sbind (scatch m) k r = k (inr a) r'.
Proof. intros E. unfold scatch, sbind. by rewrite E. Qed.

Lemma catch_Err {A B} (m : rst (T := T) A) (k : dicey_error + A -> rst (T := T) B) r e r' :
  m r = (Err e, r') -> sbind (scatch m) k r = k (inl e) r'.
Proof. intros E. unfold scatch, sbind. by rewrite E. Qed.

Lemma run_write r o (ob : dicey_object (T := T)) : obj_write o ob r = (Ok tt, set_objects (<[o := ob]> (rg_objects r)) r).
Proof. done. Qed.

Lemma run_fresh r : fresh_address r = (Ok (rg_next r), set_next_address (S (rg_next r)) r).
Proof. done. Qed.

Lemma run_upd r (f : dicey_registry (T := T) -> dicey_registry (T := T)) : supd f r = (Ok tt, f r).
Proof. done. Qed.

Lemma run_get_entry r p : tbl_ok (rg_paths r) ->
  registry_get_object_entry p r =
    (if path_is_valid p then match tbl_map (rg_paths r) !! p with
                             | Some c => Ok (pc_key c, p, pc_object c)
                             | None => Err DICEY_EPATH_NOT_FOUND
                             end else Err DICEY_EPATH_MALFORMED, r).
Proof.
  intros Hok. unfold registry_get_object_entry. destruct (path_is_valid p); cbn [negb]; [|done]. srun. rewrite tbl_get_ok by done. srun.
  by destruct (_ !! p).
Qed.

Lemma run_get_object_entry r p : tbl_ok (rg_paths r) ->
  dicey_registry_get_object_entry p r =
    (Ok (if path_is_valid p then (fun c => (pc_key c, p, pc_object c)) <$> tbl_map (rg_paths r) !! p else None), r).
Proof.
  intros Hok. unfold dicey_registry_get_object_entry, scatch, sbind at 1. rewrite run_get_entry by done.
  destruct (path_is_valid p); [|done]. destruct (_ !! p) as [c|]; [|done]. cbn. by rewrite bool_decide_eq_true_2.
Qed.

Lemma run_get_object r p : tbl_ok (rg_paths r) ->
  dicey_registry_get_object p r = (Ok (if path_is_valid p then pc_object <$> tbl_map (rg_paths r) !! p else None), r).
Proof.
  intros Hok. unfold dicey_registry_get_object. srw (run_get_object_entry r p Hok). unfold sret. do 2 f_equal.
  destruct (path_is_valid p); [|done]. by destruct (_ !! p).
Qed.

Lemma run_contains_object r p : tbl_ok (rg_paths r) -> path_is_valid p = true ->
  dicey_registry_contains_object p r = (Ok (bool_decide (is_Some (tbl_map (rg_paths r) !! p))), r).
Proof.
  intros Hok Hv. unfold dicey_registry_contains_object. srw (run_get_object r p Hok). rewrite Hv. unfold sret. do 2 f_equal.
  apply bool_decide_ext. by rewrite fmap_is_Some.
Qed.

Lemma run_get_object_mut r p : tbl_ok (rg_paths r) -> path_is_valid p = true ->
  dicey_registry_get_object_mut p r = (Ok (pc_object <$> tbl_map (rg_paths r) !! p), r).
Proof. intros Hok Hv. unfold dicey_registry_get_object_mut. rewrite Hv. cbn [negb]. srun. by rewrite tbl_get_ok. Qed.

Lemma run_obj_read r o ob : rg_objects r !! o = Some ob -> obj_read o r = (Ok ob, r).
Proof. intros E. unfold obj_read. by rewrite E. Qed.

Lemma run_read_main r ob k m o : tbl_ok (rg_paths r) -> ob_main_path ob = Some (k, m) ->
  tbl_map (rg_paths r) !! m = Some (mk_cell k o) -> read_main_path ob r = (Ok m, r).
Proof.
  intros Hok Hm E. unfold read_main_path. rewrite Hm. srun. rewrite tbl_get_ok, E by done. srun. cbn. by rewrite Nat.eqb_refl.
Qed.

Lemma run_trait_exists r t : tbl_ok (rg_traits r) -> registry_trait_exists t r = (Ok (bool_decide (t ∈ known_traits r)), r).
Proof.
  intros Hok. unfold registry_trait_exists. srun. rewrite tbl_get_ok by done. srun. unfold sret. do 2 f_equal. apply bool_decide_ext.
  unfold known_traits. by rewrite elem_of_dom.
Qed.

(** ** References *)

Lemma run_ref r o ob : rg_objects r !! o = Some ob -> 0 < ob_refcount ob ->
  object_ref o r = (Ok tt, set_objects (<[o := with_refcount (ob_refcount ob + 1) ob]> (rg_objects r)) r).
Proof. intros E Hr. unfold object_ref. srw (run_obj_read r o ob E). destruct (Z.ltb_spec 0 (ob_refcount ob)); [done|lia]. Qed.

(** What [object_deref] leaves of the heap. *)
Definition deref_heap (o : nat) (ob : dicey_object (T := T)) O : gmap nat (dicey_object (T := T)) :=
  if ob_refcount ob - 1 <=? 0 then delete o O else <[o := with_refcount (ob_refcount ob - 1) ob]> O.

Lemma run_deref r o ob : rg_objects r !! o = Some ob -> 0 < ob_refcount ob ->
  object_deref o r = (Ok tt, set_objects (deref_heap o ob (rg_objects r)) r).
Proof.
  intros E Hr. unfold object_deref, deref_heap. srw (run_obj_read r o ob E).
  destruct (Z.ltb_spec 0 (ob_refcount ob)); [|lia]. srun. by destruct (_ <=? _).
Qed.

Lemma deref_heap_ne o ob O o' : o' <> o -> deref_heap o ob O !! o' = O !! o'.
Proof. intros Hn. unfold deref_heap. destruct (_ <=? _); [by rewrite lookup_delete_ne|by rewrite lookup_insert_ne]. Qed.

Lemma run_remove_path r p c ob : tbl_ok (rg_paths r) -> tbl_map (rg_paths r) !! p = Some c ->
  rg_objects r !! pc_object c = Some ob -> 0 < ob_refcount ob ->
  exists t, registry_remove_path p r = (Ok tt, set_objects (deref_heap (pc_object c) ob (rg_objects r)) (set_paths t r)) /\
    tbl_ok t /\ tbl_map t = delete p (tbl_map (rg_paths r)).
Proof.
  intros Hok E Ho Hr. destruct (tbl_remove_ok (rg_paths r) p Hok) as (t & Et & Hok' & Hm & _). exists t. split; [|done].
  unfold registry_remove_path. srun. rewrite Et, E. srun. unfold supd. srun. by rewrite (run_deref (set_paths t r) _ ob).
Qed.

(** The loop over aliases takes each path out and drops its reference. *)
Lemma run_remove_aliases l : forall r o ob,
  tbl_ok (rg_paths r) -> rg_objects r !! o = Some ob -> NoDup l.*1 -> zlen l < ob_refcount ob ->
  (forall a, a ∈ l.*1 -> exists k, tbl_map (rg_paths r) !! a = Some (mk_cell k o)) ->
  exists t, remove_aliases o l r =
      (Ok tt, set_objects (<[o := with_refcount (ob_refcount ob - zlen l) ob]> (rg_objects r)) (set_paths t r)) /\
    tbl_ok t /\ (forall q, tbl_map t !! q = if decide (q ∈ l.*1) then None else tbl_map (rg_paths r) !! q).
Proof.
  induction l as [|[a []] l IH]; intros r o ob Hok Ho Hd Hr Hl.
  - exists (rg_paths r). cbn [remove_aliases]. srw (run_obj_read r o ob Ho). rewrite Z.sub_0_r. split_and!; try done.
    replace (with_refcount (ob_refcount ob) ob) with ob by (by destruct ob). destruct r; cbn in *.
    unfold sret, set_objects, set_paths. cbn. by rewrite insert_id.
  - rewrite zlen_cons in Hr. pose proof (zlen_nonneg l). cbn [remove_aliases]. srw (run_obj_read r o ob Ho). apply NoDup_cons in Hd as [Hna Hd].
    destruct (Hl a) as [k Ek]; [by left|]. cbn [pc_object].
    destruct (run_remove_path r a _ ob Hok Ek Ho) as (t & Et & Hok' & Hm); [lia|]. cbn [pc_object] in Et.
    unfold scatch at 1, sbind at 1. rewrite Et.
    assert (deref_heap o ob (rg_objects r) = <[o := with_refcount (ob_refcount ob - 1) ob]> (rg_objects r)) as ->.
    { unfold deref_heap. destruct (Z.leb_spec (ob_refcount ob - 1) 0); [lia|done]. }
    destruct (IH (set_objects (<[o := with_refcount (ob_refcount ob - 1) ob]> (rg_objects r)) (set_paths t r)) o
                 (with_refcount (ob_refcount ob - 1) ob)) as (t' & Et' & Hok2 & Hm'); try done.
    + cbn. by rewrite lookup_insert_eq.
    + cbn. lia.
    + cbn. intros a' Ha'. destruct (Hl a') as [k' Ek']; [by right|]. exists k'. rewrite Hm, lookup_delete_ne; [done|]. by intros ->.
    + exists t'. rewrite Et'. split_and!; [|done|].
      * rewrite zlen_cons. unfold set_objects, set_paths. cbn. rewrite insert_insert_eq.
        unfold with_refcount. cbn. by replace (ob_refcount ob - 1 - zlen l) with (ob_refcount ob - (1 + zlen l)) by lia.
      * intros q. rewrite Hm'. cbn. rewrite Hm. destruct (decide (q ∈ l.*1)) as [Hq|Hq]; [by rewrite decide_True by (by right)|].
        destruct (decide (q = a)) as [->|Hqa]; [rewrite lookup_delete_eq, decide_True by (by left); done|].
        rewrite lookup_delete_ne by done. rewrite decide_False; [done|]. by rewrite elem_of_cons; intros [?|?].
Qed.

(** ** The operations *)

(** An allocation can be refused, or a table of the registry has used up its cells. *)
Definition no_memory r : Prop :=
  (exists o, object_alloc_ok o = false) \/ ~ tbl_memory \/ MAX_CELLS < tbl_used (rg_paths r) \/
  (exists o ob, rg_objects r !! o = Some ob /\ MAX_CELLS < tbl_used (ob_aliases ob)).

Lemma no_memory_paths r : ~ tbl_room (rg_paths r) -> no_memory r.
Proof. intros [Hm|Hu]%no_room; [right; by left|right; right; by left]. Qed.

Lemma no_memory_aliases r o ob : rg_objects r !! o = Some ob -> ~ tbl_room (ob_aliases ob) -> no_memory r.
Proof. intros Ho [Hm|Hu]%no_room; [right; by left|right; right; right; eauto]. Qed.

(** How a call that ran out of memory ends: with [DICEY_ENOMEM], or, for an alias, as if it had
    succeeded. *)
Definition refused (op : registry_op) (res : res unit) : Prop :=
  res = Err DICEY_ENOMEM \/ (exists p a, op = AliasObject p a) /\ res = Ok tt.

(** The operation acts on the directory as specified, and no reference leaks; or memory was
    missing and the directory is unchanged. The invariant holds in both cases. *)
Definition step_post (leak : nat -> Z) (op : registry_op) r (out : res unit * dicey_registry (T := T)) : Prop :=
  let '(res, r') := out in
  exists leak', reg_wf leak' r' /\ rg_traits r' = rg_traits r /\
    (((forall o, leak' o = leak o) /\ (res, directory_of r') = spec_step (known_traits r) op (directory_of r)) \/
     (no_memory r /\ refused op res /\ directory_of r' = directory_of r)).

Lemma step_same leak op r e :
  reg_wf leak r -> spec_step (known_traits r) op (directory_of r) = (Err e, directory_of r) -> step_post leak op r (Err e, r).
Proof. intros W E. exists leak. split_and!; try done. left. by rewrite E. Qed.

(** A registry whose paths and objects changed. *)
Definition moved r (t : T path_cell) O (n : nat) : dicey_registry (T := T) :=
  mk_registry t (rg_traits r) (rg_buffer r) O (rg_trait_heap r) n.

Lemma moved_wf leak leak' r t O n :
  reg_wf leak r -> tbl_ok t -> graph_wf leak' (tbl_map t) O -> (rg_next r <= n)%nat ->
  (forall o, (n <= o)%nat -> O !! o = None /\ leak' o = 0) -> reg_wf leak' (moved r t O n).
Proof.
  intros W Hok Hg Hn Hf. destruct (rw_traits _ _ W) as (H1 & H2 & H3). split; try done. split_and!; try done.
  intros t' Ht. apply H3. cbn in Ht. lia.
Qed.

Lemma moved_fresh leak r o ob' O :
  reg_wf leak r -> (o < rg_next r)%nat -> (forall o', o' <> o -> O !! o' = rg_objects r !! o') -> O !! o = ob' ->
  forall n o', (rg_next r <= n)%nat -> (n <= o')%nat -> O !! o' = None /\ leak o' = 0.
Proof. intros W Ho HO _ n o' Hn Ho'. rewrite HO by lia. apply (rw_fresh _ _ W). lia. Qed.

Lemma size_delete_S (m : gmap cstr unit) a v : m !! a = Some v -> size m = S (size (delete a m)).
Proof. intros E. pose proof (map_size_ne_0_lookup_2 m a (mk_is_Some _ _ E)). rewrite map_size_delete_Some by eauto. lia. Qed.

Lemma decide_singleton {A} (a q : cstr) (x : option A) :
  (if decide (q ∈ [a]) then None else x) = if decide (a = q) then None else x.
Proof. destruct (decide (a = q)) as [->|Hn]; [rewrite decide_True|rewrite decide_False]; rewrite ?list_elem_of_singleton; done. Qed.

Lemma unalias_lemma leak r a : reg_wf leak r -> step_post leak (UnaliasObject a) r (registry_step (UnaliasObject a) r).
Proof.
  intros W. pose proof (rw_paths _ _ W) as Hok. pose proof (rw_graph _ _ W) as G. cbn [registry_step]. unfold dicey_registry_unalias_object.
  destruct (path_is_valid a) eqn:Hv; cbn [negb]; [|apply step_same; [done|]; cbn; by rewrite Hv].
  srw (run_get_object_mut r a Hok Hv). destruct (tbl_map (rg_paths r) !! a) as [c|] eqn:E; cbn [fmap option_fmap option_map].
  2:{ apply step_same; [done|]. cbn. rewrite Hv. cbn. unfold directory_of. by rewrite graph_get_none. }
  destruct (graph_get leak _ _ a c G E) as (ob & k & m & Ho & Hw & Hm & Hpm & Hn & _ & Hdir & Hal).
  srw (run_obj_read r _ ob Ho). destruct Hw as (H1 & H2 & H3 & H4 & H5 & H6).
  destruct (tbl_remove_ok (ob_aliases ob) a H2) as (set & Es & Hset & Hms & _). rewrite Es. srun.
  pose proof (reg_wf_lt _ _ _ _ W Ho) as Hlt. pose proof (gw_leak _ _ _ G (pc_object c)) as Hlk.
  srw (run_write r (pc_object c) (with_aliases set ob)). destruct (amap ob !! a) as [[]|] eqn:Ea.
  - rewrite bool_decide_eq_true_2 by eauto. cbn [negb].
    set (ob1 := with_aliases set ob). set (r1 := set_objects (<[pc_object c := ob1]> (rg_objects r)) r).
    destruct (run_remove_path r1 a c ob1) as (t & Et & Hokt & Hmt).
    { done. } { done. } { cbn. by rewrite lookup_insert_eq. } { cbn. rewrite H4. lia. }
    rewrite (catch_Ok _ _ _ _ _ Et). unfold sret. cbn [rg_objects set_objects r1].
    assert (size (amap ob) = S (size (tbl_map set))) as Hsz by (rewrite Hms; by eapply size_delete_S).
    set (ob2 := with_refcount (ob_refcount ob - 1) ob1).
    assert (deref_heap (pc_object c) ob1 (<[pc_object c := ob1]> (rg_objects r)) = <[pc_object c := ob2]> (rg_objects r)) as ->.
    { unfold deref_heap. cbn [ob_refcount with_aliases ob1]. destruct (Z.leb_spec (ob_refcount ob - 1) 0); [lia|].
      by rewrite insert_insert_eq. }
    destruct (graph_drop leak _ (tbl_map t) _ _ ob ob2 [a] G Ho) as [Hg Hd].
    { by split_and!. } { done. }
    { intros q. by rewrite Hmt, lookup_delete, decide_singleton. }
    { intros q ->%list_elem_of_singleton. eauto. }
    { intros q. cbn. by rewrite Hms, lookup_delete, decide_singleton. }
    { done. } { cbn. lia. }
    exists leak. split; [|split; [done|left; split; [done|]]].
    + apply (moved_wf leak leak r t _ (rg_next r) W Hokt Hg); [lia|].
      intros o' Hge. rewrite lookup_insert_ne by lia. by apply (rw_fresh _ _ W).
    + cbn. rewrite Hv. cbn. unfold directory_of in *. rewrite Hdir. cbn.
      rewrite decide_False by (apply Hal; eauto). f_equal. apply map_eq. intros q. rewrite lookup_delete.
      etransitivity; [apply Hd|]. by rewrite decide_singleton.
  - rewrite bool_decide_eq_false_2 by (by intros [? ?]). cbn [negb]. srun.
    destruct (graph_touch leak _ _ _ ob (with_aliases set ob) 0 G Ho) as [Hg Hd]; try done.
    { cbn. by rewrite Hms, delete_id. } { cbn. lia. }
    exists (leak_at leak (pc_object c) 0). split; [|split; [done|left; split]].
    + apply (moved_wf leak _ r (rg_paths r) _ (rg_next r) W Hok Hg); [lia|].
      intros o' Hge. rewrite lookup_insert_ne by lia. destruct (rw_fresh _ _ W o' Hge) as [-> Hz]. split; [done|].
      unfold leak_at. case_decide; lia.
    + intros o'. unfold leak_at. case_decide; lia.
    + cbn. rewrite Hv. cbn. unfold directory_of in *. rewrite Hdir. cbn. rewrite Hd.
      destruct (decide (m = a)) as [|Hx]; [done|]. apply Hal in Hx as [? ?]. done.
Qed.

(** All the aliases of an object go. *)
Lemma drop_all leak r p c ob k m :
  reg_wf leak r -> tbl_map (rg_paths r) !! p = Some c -> rg_objects r !! pc_object c = Some ob ->
  obj_wf (tbl_map (rg_paths r)) leak (pc_object c) ob -> ob_main_path ob = Some (k, m) ->
  tbl_map (rg_paths r) !! m = Some (mk_cell k (pc_object c)) -> amap ob !! m = None ->
  exists l t, let ob1 := with_refcount (1 + leak (pc_object c)) ob in
    let ob2 := with_aliases tbl_empty ob1 in let O1 := <[pc_object c := ob1]> (rg_objects r) in
    let O2 := <[pc_object c := ob2]> (rg_objects r) in
    tbl_entries (ob_aliases ob) = Ok l /\ remove_aliases (pc_object c) l r = (Ok tt, set_objects O1 (set_paths t r)) /\
    tbl_ok t /\ tbl_map t !! m = Some (mk_cell k (pc_object c)) /\
    graph_wf leak (tbl_map t) O2 /\ obj_wf (tbl_map t) leak (pc_object c) ob2 /\
    dir (tbl_map t) O2 = filter (fun kv => kv.2.1 <> m \/ kv.1 = m) (directory_of r).
Proof.
  intros W E Ho Hw Hm Hpm Hn. pose proof (rw_graph _ _ W) as G. pose proof (gw_leak _ _ _ G (pc_object c)) as Hlk.
  destruct (Hw) as (H1 & H2 & H3 & H4 & H5 & H6). destruct (tbl_entries_ok (ob_aliases ob) H2) as (l & El & Hp).
  assert (forall q, q ∈ l.*1 <-> is_Some (amap ob !! q)) as Hin.
  { intros q. rewrite Hp, list_elem_of_fmap. split.
    - intros ([q' v] & -> & Hq). apply elem_of_map_to_list in Hq. cbn. eauto.
    - intros [v Hv]. exists (q, v). by rewrite elem_of_map_to_list. }
  assert (zlen l = Z.of_nat (size (amap ob))) as Hlen by (unfold zlen; by rewrite Hp, length_map_to_list).
  destruct (run_remove_aliases l r (pc_object c) ob) as (t & Et & Hok & Hmt); try done.
  { apply (rw_paths _ _ W). } { rewrite Hp. apply NoDup_fst_map_to_list. } { lia. } { intros a Ha. by apply H6, Hin. }
  exists l, t. cbv zeta. destruct (tbl_empty_ok (T := T) (A := unit)) as (Hok0 & Hm0 & _).
  set (ob2 := with_aliases tbl_empty _).
  assert (same_view ob ob2) as Hs by done.
  destruct (graph_drop leak _ (tbl_map t) _ _ ob ob2 l.*1 G Ho Hw Hs Hmt) as [Hg Hd]; try done.
  { intros q. by rewrite Hin. }
  { intros q. cbn. rewrite Hm0, lookup_empty. case_decide as Hq; [done|]. symmetry. apply eq_None_not_Some. by rewrite <- Hin. }
  { cbn. rewrite Hm0, map_size_empty. lia. }
  assert (tbl_map t !! m = Some (mk_cell k (pc_object c))) as Htm.
  { rewrite Hmt, decide_False; [done|]. rewrite Hin, Hn. by intros [? ?]. }
  split_and!; try done.
  - rewrite Et, Hlen, H4. do 4 f_equal. unfold with_refcount. f_equal. lia.
  - destruct (gw_path _ _ _ Hg m _ Htm) as (_ & ob' & Hob' & Hw' & _). cbn [pc_object] in *. rewrite lookup_insert_eq in Hob'. by simplify_eq.
  - apply map_eq. intros q. rewrite Hd, map_lookup_filter. unfold directory_of.
    destruct (tbl_map (rg_paths r) !! q) as [c'|] eqn:Eq; [|rewrite graph_get_none by done; by case_decide].
    destruct (graph_get leak _ _ q c' G Eq) as (ob' & k' & m' & Ho' & Hw' & Hm' & Hpm' & Hn' & _ & Hdir & Hal).
    rewrite Hdir. cbn. case_decide as Hq; cbn.
    + apply Hin in Hq. destruct (H6 q Hq) as [k2 E2]. rewrite Eq in E2. injection E2 as ->. cbn in Ho', Hal. simplify_eq.
      rewrite option_guard_False; [done|]. intros [?|Hqm]; [done|]. subst q. rewrite Hn in Hq. by destruct Hq.
    + rewrite option_guard_True; [done|]. destruct (decide (m' = m)) as [->|]; [right|by left].
      rewrite Hpm in Hpm'. injection Hpm' as <- Hoc. rewrite <- Hoc in Ho'. simplify_eq.
      destruct (decide (m = q)) as [|Hmq]; [done|]. apply Hal, Hin in Hmq. done.
Qed.

Lemma remove_all_lemma leak r p : reg_wf leak r -> step_post leak (RemoveAllAliases p) r (registry_step (RemoveAllAliases p) r).
Proof.
  intros W. pose proof (rw_paths _ _ W) as Hok. pose proof (rw_graph _ _ W) as G. cbn [registry_step].
  unfold dicey_registry_remove_all_object_aliases.
  destruct (path_is_valid p) eqn:Hv; cbn [negb]; [|apply step_same; [done|]; cbn; by rewrite Hv].
  srw (run_get_object_mut r p Hok Hv). destruct (tbl_map (rg_paths r) !! p) as [c|] eqn:E; cbn [fmap option_fmap option_map].
  2:{ apply step_same; [done|]. cbn. rewrite Hv. cbn. unfold directory_of. by rewrite graph_get_none. }
  destruct (graph_get leak _ _ p c G E) as (ob & k & m & Ho & Hw & Hm & Hpm & Hn & _ & Hdir & Hal).
  srw (run_obj_read r _ ob Ho). srw (run_read_main r ob k m _ Hok Hm Hpm). destruct (decide (m = p)) as [->|Hmp].
  2:{ rewrite bool_decide_eq_false_2 by done. cbn [negb]. apply step_same; [done|]. cbn. rewrite Hv. cbn. unfold directory_of.
      rewrite Hdir. by rewrite decide_False. }
  rewrite bool_decide_eq_true_2 by done. cbn [negb].
  destruct (drop_all leak r p c ob k p W E Ho Hw Hm Hpm Hn) as (l & t & El & Er & Hokt & Hpt & Hg & Hw2 & Hd).
  rewrite El. srun. srw Er. unfold sbind at 1, obj_read. cbn [rg_objects set_objects set_paths]. rewrite lookup_insert_eq.
  unfold obj_write, supd, set_objects, set_paths. cbn. rewrite insert_insert_eq.
  exists leak. split; [|split; [done|left; split; [done|]]].
  - apply (moved_wf leak leak r t _ (rg_next r) W Hokt Hg); [lia|]. pose proof (reg_wf_lt _ _ _ _ W Ho).
    intros o' Hge. rewrite lookup_insert_ne by lia. by apply (rw_fresh _ _ W).
  - cbn. rewrite Hv. cbn. unfold directory_of in *. rewrite Hdir. cbn. rewrite decide_True by done. f_equal. exact Hd.
Qed.

Lemma delete_lemma leak r p : reg_wf leak r -> step_post leak (DeleteObject p) r (registry_step (DeleteObject p) r).
Proof.
  intros W. pose proof (rw_paths _ _ W) as Hok. pose proof (rw_graph _ _ W) as G. cbn [registry_step].
  unfold dicey_registry_delete_object, registry_del_object.
  destruct (path_is_valid p) eqn:Hv; cbn [negb]; [|apply step_same; [done|]; cbn; by rewrite Hv].
  srw (run_get_object_mut r p Hok Hv). destruct (tbl_map (rg_paths r) !! p) as [c|] eqn:E; cbn [fmap option_fmap option_map].
  2:{ apply step_same; [done|]. cbn. rewrite Hv. cbn. unfold directory_of. by rewrite graph_get_none. }
  destruct (graph_get leak _ _ p c G E) as (ob & k & m & Ho & Hw & Hm & Hpm & Hn & _ & Hdir & Hal).
  srw (run_obj_read r _ ob Ho). pose proof (gw_leak _ _ _ G (pc_object c)) as Hlk.
  destruct (drop_all leak r p c ob k m W E Ho Hw Hm Hpm Hn) as (l & t & El & Er & Hokt & Hpt & Hg & Hw2 & Hd).
  rewrite El. srun. srw Er. set (ob1 := with_refcount _ ob) in *. set (O1 := <[pc_object c := ob1]> (rg_objects r)) in *.
  assert (O1 !! pc_object c = Some ob1) as Ho1 by (unfold O1; by rewrite lookup_insert_eq).
  set (r1 := set_objects O1 (set_paths t r)). srw (run_obj_read r1 (pc_object c) ob1 Ho1).
  srw (run_read_main r1 ob1 k m _ Hokt Hm Hpt).
  destruct (tbl_remove_ok t m Hokt) as (t' & Et' & Hokt' & Hmt' & _). cbn [rg_paths r1 set_objects set_paths]. rewrite Et', Hpt. srun.
  srw (run_upd r1 (set_paths t')). rewrite bool_decide_eq_true_2 by eauto. srun.
  rewrite (run_deref (set_paths t' r1) (pc_object c) ob1 Ho1) by (cbn; lia). set (O' := deref_heap _ _ _).
  assert (forall o', o' <> pc_object c -> O' !! o' = <[pc_object c := with_aliases tbl_empty ob1]> (rg_objects r) !! o') as HO'.
  { intros o' Hne. unfold O'. rewrite deref_heap_ne by done. cbn. unfold O1. by rewrite !lookup_insert_ne. }
  destruct (tbl_empty_ok (T := T) (A := unit)) as (_ & Hm0 & _).
  destruct (graph_remove leak (tbl_map t) _ O' (pc_object c) (with_aliases tbl_empty ob1) k m Hg) as [Hg' Hd']; try done.
  { by rewrite lookup_insert_eq. }
  { unfold O', deref_heap. cbn [ob_refcount ob1 with_refcount]. destruct (Z.leb_spec (1 + leak (pc_object c) - 1) 0); [left|right; lia].
    by rewrite lookup_delete_eq. }
  exists leak. split; [|split; [done|left; split; [done|]]].
  - apply (moved_wf leak leak r t' O' (rg_next r) W Hokt'); [by rewrite Hmt'|lia|]. pose proof (reg_wf_lt _ _ _ _ W Ho).
    intros o' Hge. rewrite HO', lookup_insert_ne by lia. by apply (rw_fresh _ _ W).
  - cbn. rewrite Hv. cbn. unfold directory_of in *. rewrite Hdir. cbn. f_equal. cbn. rewrite Hmt', Hd', Hd.
    apply map_eq. intros q. rewrite lookup_delete, !map_lookup_filter. destruct (dir _ _ !! q) as [[m' s']|] eqn:Eq; [|by case_decide]. cbn.
    destruct (decide (m = q)) as [->|Hmq].
    + rewrite option_guard_False; [done|]. intros Hx. rewrite dir_lookup, Hpm in Eq. cbn in Eq. unfold view_cell in Eq. cbn in Eq.
      rewrite Ho in Eq. cbn in Eq. rewrite Hm in Eq. cbn in Eq. congruence.
    + destruct (decide (m' = m)) as [->|Hne]; [rewrite !option_guard_False; [done|by intros ?|intros [?|?]; congruence]|].
      rewrite !option_guard_True by auto. done.
Qed.

(** Putting a path in the table: the four cases of [registry_add_object]. *)
Lemma run_add_object r p o ob :
  tbl_ok (rg_paths r) -> reg_small r -> path_is_valid p = true -> tbl_map (rg_paths r) !! p = None -> rg_objects r !! o = Some ob ->
  exists t, tbl_ok t /\
    ((tbl_map t = <[p := mk_cell (rg_next r) o]> (tbl_map (rg_paths r)) /\
      registry_add_object p o r =
        (Ok tt, moved r t (match ob_main_path ob with
                           | Some _ => rg_objects r
                           | None => <[o := with_main_path (rg_next r, p) ob]> (rg_objects r)
                           end) (S (rg_next r)))) \/
     (tbl_map t = tbl_map (rg_paths r) /\ ~ tbl_room (rg_paths r) /\
      registry_add_object p o r = (Err DICEY_ENOMEM, moved r t (rg_objects r) (S (rg_next r))))).
Proof.
  intros Hok Hsm Hv Hp Ho. unfold registry_add_object.
  destruct (tbl_set_ok (rg_paths r) p (mk_cell (rg_next r) o) Hok Hsm) as (res & old & t & Et & Hokt & Hr). exists t. split; [done|].
  srw (run_fresh r). srun. cbn [rg_paths set_next_address]. rewrite Et. srun. srw (run_upd (set_next_address (S (rg_next r)) r) (set_paths t)).
  destruct res.
  - right. destruct Hr as (-> & _ & Hm & Hroom). by split_and!.
  - left. destruct Hr as (-> & _ & Hm & _). split; [done|]. rewrite bool_decide_eq_true_2 by done. srun.
    set (r1 := set_paths t (set_next_address (S (rg_next r)) r)). srw (run_obj_read r1 o ob Ho). destruct (ob_main_path ob); [done|].
    erewrite catch_Ok; [|rewrite run_get_entry by done; rewrite Hv; cbn [rg_paths r1 set_paths]; rewrite Hm, lookup_insert_eq; done].
    done.
  - destruct Hr as ([? ->] & ? & _). congruence.
Qed.

(** The alias is already a path: the state is unchanged, the error is the specified one. *)
Lemma alias_existing leak r p a c ob k m c' :
  reg_wf leak r -> (negb (path_is_valid p) || negb (path_is_valid a)) = false -> p <> a ->
  rg_objects r !! pc_object c = Some ob -> ob_main_path ob = Some (k, m) ->
  tbl_map (rg_paths r) !! m = Some (mk_cell k (pc_object c)) -> directory_of r !! p = Some (m, tset ob) ->
  tbl_map (rg_paths r) !! a = Some c' ->
  exists ob' m', rg_objects r !! pc_object c' = Some ob' /\ read_main_path ob' r = (Ok m', r) /\
    step_post leak (AliasObject p a) r
      ((do! ob <- obj_read (pc_object c) ;
        do! same <- (if bool_decide (m' = a) then sret false else do! m <- read_main_path ob ; sret (bool_decide (m' = m))) ;
        if same then sfail DICEY_EEXIST else sfail DICEY_EINVAL) r).
Proof.
  intros W Hv Hpa Ho Hm Hpm Hdir Ea. pose proof (rw_paths _ _ W) as Hok. pose proof (rw_graph _ _ W) as G.
  destruct (graph_get leak _ _ a c' G Ea) as (ob' & k' & m' & Ho' & _ & Hm' & Hpm' & _ & _ & Hdir' & _).
  exists ob', m'. split; [done|]. split; [by eapply run_read_main|]. srw (run_obj_read r _ ob Ho).
  assert (forall e, (if decide (m' <> a /\ m' = m) then DICEY_EEXIST else DICEY_EINVAL) = e ->
    step_post leak (AliasObject p a) r (Err e, r)) as Hfin.
  { intros e He. apply step_same; [done|]. cbn [spec_step]. rewrite Hv. rewrite decide_False by done. unfold directory_of in *.
    rewrite Hdir, Hdir'. case_decide; congruence. }
  destruct (decide (m' = a)) as [->|Hma].
  { rewrite bool_decide_eq_true_2 by done. apply Hfin. by rewrite decide_False by tauto. }
  rewrite bool_decide_eq_false_2 by done. rewrite sbind_assoc. srw (run_read_main r ob k m _ Hok Hm Hpm).
  destruct (decide (m' = m)) as [->|Hmm].
  - rewrite bool_decide_eq_true_2 by done. apply Hfin. by rewrite decide_True.
  - rewrite bool_decide_eq_false_2 by done. apply Hfin. by rewrite decide_False by tauto.
Qed.

(** An object changed in place, its paths in a new table that is equal to the old one. *)
Lemma touch_wf leak r o ob ob' t n k :
  reg_wf leak r -> rg_objects r !! o = Some ob -> obj_wf (tbl_map (rg_paths r)) leak o ob -> same_view ob ob' -> amap ob' = amap ob ->
  tbl_ok (ob_aliases ob') -> 0 <= n -> ob_refcount ob' = ob_refcount ob + n -> tbl_ok t -> tbl_map t = tbl_map (rg_paths r) ->
  (rg_next r <= k)%nat ->
  reg_wf (leak_at leak o n) (moved r t (<[o := ob']> (rg_objects r)) k) /\
  directory_of (moved r t (<[o := ob']> (rg_objects r)) k) = directory_of r.
Proof.
  intros W Ho Hw Hs Ha Hok Hn Hr Hokt Hmt Hk. pose proof (reg_wf_lt _ _ _ _ W Ho) as Hlt.
  destruct (graph_touch leak _ _ _ ob ob' n (rw_graph _ _ W) Ho Hw Hs Ha Hok Hn Hr) as [Hg Hd]. split.
  - apply (moved_wf leak _ r t _ k W Hokt); [by rewrite Hmt|done|].
    intros o' Hge. rewrite lookup_insert_ne by lia. destruct (rw_fresh _ _ W o') as [-> Hz]; [lia|].
    split; [done|]. unfold leak_at. rewrite decide_False by lia. lia.
  - unfold directory_of. cbn [rg_paths rg_objects moved]. rewrite Hmt. exact Hd.
Qed.

(** Recording the alias in the object, or giving the path up when that fails. *)
Lemma alias_record leak r p a c ob k m t :
  reg_wf leak r -> reg_small r -> (negb (path_is_valid p) || negb (path_is_valid a)) = false -> p <> a ->
  rg_objects r !! pc_object c = Some ob -> obj_wf (tbl_map (rg_paths r)) leak (pc_object c) ob -> ob_main_path ob = Some (k, m) ->
  directory_of r !! p = Some (m, tset ob) -> tbl_map (rg_paths r) !! a = None -> path_is_valid a = true ->
  tbl_ok t -> tbl_map t = <[a := mk_cell (rg_next r) (pc_object c)]> (tbl_map (rg_paths r)) ->
  let ob1 := with_refcount (ob_refcount ob + 1) ob in
  step_post leak (AliasObject p a) r
    ((do! (res, _, set) <- slift (tbl_set (ob_aliases ob1) a tt) ;
      obj_write (pc_object c) (with_aliases set ob1) ;;!
      match res with
      | DICEY_HASH_SET_ADDED => sret tt
      | DICEY_HASH_SET_UPDATED => sfault AssertFailed
      | DICEY_HASH_SET_FAILED => dicey_registry_remove_object a
      end) (moved r t (<[pc_object c := ob1]> (rg_objects r)) (S (rg_next r)))).
Proof.
  intros W Hsm Hv Hpa Ho Hw Hm Hdir Ea Hva Hokt Hmt ob1. destruct (Hw) as (H1 & H2 & H3 & H4 & H5 & H6).
  pose proof (gw_leak _ _ _ (rw_graph _ _ W) (pc_object c)) as Hlk. pose proof (reg_wf_lt _ _ _ _ W Ho) as Hlt.
  assert (Z.of_nat (size (amap ob)) < MAX_LEN) as Hsa.
  { assert (dom (amap ob) ⊆ dom (tbl_map (rg_paths r))) as Hsub.
    { intros q. rewrite !elem_of_dom. intros Hq. destruct (H6 q Hq) as [? ->]. eauto. }
    apply subseteq_size in Hsub. rewrite !size_dom in Hsub. unfold reg_small in Hsm. lia. }
  assert (amap ob !! a = None) as Hna. { apply eq_None_not_Some. intros Hx. destruct (H6 a Hx). congruence. }
  set (r2 := moved r t _ _).
  destruct (tbl_set_ok (ob_aliases ob1) a tt H2 Hsa) as (res & old & set & Es & Hset & Hr). cbn [ob_aliases ob1 with_refcount] in Hr.
  rewrite Es. srun. set (ob2 := with_aliases set ob1). srw (run_write r2 (pc_object c) ob2).
  assert (<[pc_object c := ob2]> (rg_objects r2) = <[pc_object c := ob2]> (rg_objects r)) as HO2 by (cbn; by rewrite insert_insert_eq).
  rewrite HO2. clear HO2.
  destruct res; [destruct Hr as (_ & _ & Hms & Hroom)|destruct Hr as (_ & _ & Hms & _)|by destruct Hr as ([? ->] & ? & _); congruence].
  - set (r3 := set_objects _ r2). unfold dicey_registry_remove_object. rewrite Hva. cbn [negb]. srun.
    destruct (tbl_remove_ok t a Hokt) as (t' & Et' & Hokt' & Hmt' & _). cbn [rg_paths r3 r2 set_objects moved]. rewrite Et'.
    rewrite Hmt, lookup_insert_eq. srun. srw (run_upd r3 (set_paths t')). cbn [pc_object].
    erewrite (run_deref _ _ ob2); [|cbn; by rewrite lookup_insert_eq|cbn; lia].
    unfold deref_heap. cbn [ob_refcount ob2 with_aliases ob1 with_refcount rg_objects set_paths r3 set_objects].
    destruct (Z.leb_spec (ob_refcount ob + 1 - 1) 0); [lia|]. rewrite insert_insert_eq. set (ob3 := with_refcount _ _).
    destruct (touch_wf leak r (pc_object c) ob ob3 t' 0 (S (rg_next r)) W Ho Hw) as [Hg Hd]; try done; [cbn; lia| |lia|].
    { by rewrite Hmt', Hmt, delete_insert_id. }
    exists (leak_at leak (pc_object c) 0). split; [exact Hg|]. split; [done|]. right. split; [by apply (no_memory_aliases r (pc_object c) ob)|].
    split; [right; split; eauto|exact Hd].
  - exists leak. split; [|split; [done|left; split; [done|]]].
    + apply (moved_wf leak leak r t _ (S (rg_next r)) W Hokt); [|lia|].
      * rewrite Hmt. eapply graph_alias; try done. apply (rw_graph _ _ W).
      * intros o' Hge. rewrite lookup_insert_ne by lia. apply (rw_fresh _ _ W). lia.
    + cbn [spec_step]. rewrite Hv. rewrite decide_False by done. rewrite Hdir. unfold directory_of. rewrite graph_get_none by done. f_equal.
      cbn [rg_paths rg_objects set_objects r2 moved]. rewrite Hmt. by apply (dir_alias _ _ _ ob ob2 a k m).
Qed.

Lemma alias_lemma leak r p a :
  reg_wf leak r -> reg_small r -> step_post leak (AliasObject p a) r (registry_step (AliasObject p a) r).
Proof.
  intros W Hsm. pose proof (rw_paths _ _ W) as Hok. pose proof (rw_graph _ _ W) as G. cbn [registry_step].
  unfold dicey_registry_alias_object.
  destruct (negb (path_is_valid p) || negb (path_is_valid a)) eqn:Hv; [apply step_same; [done|]; cbn; by rewrite Hv|].
  destruct (decide (p = a)) as [->|Hpa].
  { rewrite bool_decide_eq_true_2 by done. apply step_same; [done|]. cbn [spec_step]. rewrite Hv. by rewrite decide_True. }
  rewrite bool_decide_eq_false_2 by done. srun. rewrite tbl_get_ok by done. srun.
  destruct (tbl_map (rg_paths r) !! p) as [c|] eqn:E.
  2:{ apply step_same; [done|]. cbn [spec_step]. rewrite Hv. rewrite decide_False by done. unfold directory_of. by rewrite graph_get_none. }
  destruct (graph_get leak _ _ p c G E) as (ob & k & m & Ho & Hw & Hm & Hpm & Hn & Hvp & Hdir & Hal).
  assert (path_is_valid a = true) as Hva by (destruct (path_is_valid a); [done|]; rewrite orb_true_r in Hv; done).
  unfold dicey_registry_get_main_path at 1. rewrite sbind_assoc. srw (run_get_object r a Hok). rewrite Hva.
  destruct (tbl_map (rg_paths r) !! a) as [c'|] eqn:Ea; cbn [fmap option_fmap option_map].
  { destruct (alias_existing leak r p a c ob k m c' W Hv Hpa Ho Hm Hpm Hdir Ea) as (ob' & m' & Ho' & Er & Hpost).
    rewrite sbind_assoc. srw (run_obj_read r _ ob' Ho'). rewrite sbind_assoc. srw Er. exact Hpost. }
  destruct (Hw) as (_ & _ & _ & H4 & _). pose proof (gw_leak _ _ _ G (pc_object c)) as Hlk.
  srun. srw (run_ref r _ ob Ho ltac:(lia)). set (ob1 := with_refcount (ob_refcount ob + 1) ob).
  set (O1 := <[pc_object c := ob1]> (rg_objects r)). set (r1 := set_objects O1 r).
  assert (O1 !! pc_object c = Some ob1) as Ho1 by (unfold O1; by rewrite lookup_insert_eq).
  destruct (run_add_object r1 a (pc_object c) ob1 Hok Hsm Hva Ea Ho1) as (t & Hokt & [(Hmt & Er)|(Hmt & Hnm & Er)]).
  2:{ erewrite sbind_Err by exact Er.
      destruct (touch_wf leak r (pc_object c) ob ob1 t 1 (S (rg_next r)) W Ho Hw) as [Hg Hd]; try done; [apply Hw|lia|].
      exists (leak_at leak (pc_object c) 1). split; [exact Hg|]. split; [done|]. right. split; [by apply no_memory_paths|]. split; [by left|exact Hd]. }
  replace (ob_main_path ob1) with (Some (k, m)) in Er by done. srw Er. set (r2 := moved r1 t (rg_objects r1) (S (rg_next r1))).
  srw (run_get_object_entry r2 a Hokt). rewrite Hva. cbn [rg_paths r2 moved]. rewrite Hmt, lookup_insert_eq.
  cbn [fmap option_fmap option_map pc_key pc_object]. rewrite !bool_decide_eq_true_2 by done. cbn [andb]. srun.
  srw (run_obj_read r2 _ ob1 Ho1). by apply (alias_record leak r p a c ob k m t).
Qed.

(** The loop over the names of traits. *)
Lemma run_add_traits ts : forall r o ob,
  tbl_ok (rg_traits r) -> rg_objects r !! o = Some ob -> tbl_ok (ob_traits ob) -> tbl_is_null (ob_traits ob) = false ->
  Z.of_nat (size (tbl_map (ob_traits ob))) + zlen ts <= MAX_LEN -> table_fits (Z.of_nat (size (tbl_map (ob_traits ob)))) (ob_traits ob) ->
  exists set res, object_add_traits o ts r = (res, set_objects (<[o := with_traits set ob]> (rg_objects r)) r) /\
    ((res = Err DICEY_ENOMEM /\ ~ tbl_memory) \/
     match spec_traits (known_traits r) (tset ob) ts with
     | inl e => res = Err e
     | inr s => res = Ok tt /\ tbl_ok set /\ tbl_is_null set = false /\ dom (tbl_map set) = s
     end).
Proof.
  induction ts as [|t ts IH]; intros r o ob Hokt Ho Hok Hnn Hlen Hfit.
  { exists (ob_traits ob), (Ok tt). split; [|by right]. cbn. unfold sret. replace (with_traits (ob_traits ob) ob) with ob by (by destruct ob).
    rewrite insert_id by done. by destruct r. }
  assert (forall res : res unit, (res, r) = (res, set_objects (<[o := with_traits (ob_traits ob) ob]> (rg_objects r)) r)) as Hsame.
  { intros res. replace (with_traits (ob_traits ob) ob) with ob by (by destruct ob). rewrite insert_id by done. by destruct r. }
  rewrite zlen_cons in Hlen. pose proof (zlen_nonneg ts). cbn [object_add_traits spec_traits]. unfold object_add_trait.
  rewrite sbind_assoc. srw (run_trait_exists r t Hokt). destruct (decide (t ∈ known_traits r)) as [Ht|Ht]; cycle 1.
  { rewrite bool_decide_eq_false_2 by done. cbn [negb]. exists (ob_traits ob), (Err DICEY_ETRAIT_NOT_FOUND). split; [apply Hsame|by right]. }
  rewrite bool_decide_eq_true_2 by done. cbn [negb]. rewrite sbind_assoc. srw (run_obj_read r o ob Ho).
  destruct (tbl_set_ok (ob_traits ob) t tt Hok ltac:(lia)) as (rs & old & set & Es & Hset & Hr). rewrite sbind_assoc, Es. srun.
  rewrite sbind_assoc. srw (run_write r o (with_traits set ob)).
  destruct rs.
  - exists set, (Err DICEY_ENOMEM). split; [done|]. left. split; [done|]. destruct Hr as (_ & _ & _ & [?|Hu]%no_room); [done|].
    destruct Hfit as (_ & _ & Hf). unfold MAX_BUCKETS, MAX_CELLS, MAX_LEN in *. lia.
  - destruct Hr as (_ & Hn & Hm & Hnn'). rewrite (decide_False (P := t ∈ _)) by (by rewrite elem_of_dom, Hn; intros [? ?]).
    set (r1 := set_objects _ r). destruct (IH r1 o (with_traits set ob)) as (set' & res & E' & Hres); try done.
    + cbn. by rewrite lookup_insert_eq.
    + cbn. rewrite Hm, map_size_insert_None by done. lia.
    + cbn. rewrite Hm, map_size_insert_None by done. replace (Z.of_nat _) with (Z.of_nat (size (tbl_map (ob_traits ob))) + 1) by lia.
      eapply table_fits_set; [exact Hfit|lia|exact Es].
    + exists set', res. srun. rewrite E'. split.
      * unfold r1, set_objects. cbn. by rewrite insert_insert_eq.
      * cbn [ob_traits with_traits] in Hres. rewrite Hm, dom_insert_L in Hres. exact Hres.
  - destruct Hr as (Hsome & Hn & _). exists set, (Err DICEY_EINVAL). split; [done|]. right.
    rewrite decide_True; [done|]. by rewrite elem_of_dom, Hn.
Qed.

(** A call that changed nothing but the next address. *)
Lemma step_refused leak op r n : reg_wf leak r -> no_memory r -> (rg_next r <= n)%nat ->
  step_post leak op r (Err DICEY_ENOMEM, moved r (rg_paths r) (rg_objects r) n).
Proof.
  intros W Hnm Hn. exists leak. split; [|split; [done|right; split_and!; [done|by left|done]]].
  apply (moved_wf leak leak); try done; [apply (rw_paths _ _ W)|apply (rw_graph _ _ W)|].
  intros o Ho. apply (rw_fresh _ _ W). lia.
Qed.

(** A new object: [None] without memory, or an object with the introspection trait. *)
Lemma run_object_new r :
  (no_memory r /\ object_new object_alloc_ok r = (Ok None, moved r (rg_paths r) (rg_objects r) (S (rg_next r)))) \/
  exists set, let ob := mk_object set None tbl_empty 1 in
    object_new object_alloc_ok r =
      (Ok (Some (rg_next r)), moved r (rg_paths r) (<[rg_next r := ob]> (rg_objects r)) (S (rg_next r))) /\
    tbl_ok set /\ tbl_is_null set = false /\ tbl_map set = {[ DICEY_INTROSPECTION_TRAIT_NAME := tt ]} /\ table_fits 1 set.
Proof.
  unfold object_new, object_new_with. destruct (tbl_empty_ok (T := T) (A := unit)) as (Hok & Hm & _).
  srw (run_fresh r). destruct (object_alloc_ok (rg_next r)) eqn:Ea; cbn [negb]; [|left; split; [left; eauto|done]].
  destruct (tbl_set_ok tbl_empty DICEY_INTROSPECTION_TRAIT_NAME tt Hok) as (rs & old & set & Es & Hset & Hr).
  { rewrite Hm, map_size_empty. by vm_compute. }
  rewrite Es. srun. destruct rs; [left|right|].
  - split; [|done]. right. left. destruct Hr as (_ & _ & _ & [?|Hu]%no_room); [done|]. by rewrite tbl_empty_used in Hu.
  - exists set. destruct Hr as (_ & _ & Hm' & Hnn). split; [done|]. rewrite Hm', Hm. split_and!; try done.
    apply (table_fits_set 0 tbl_empty DICEY_INTROSPECTION_TRAIT_NAME tt _ _ _ (table_fits_empty 0 ltac:(lia)) ltac:(done) Es).
  - destruct Hr as ([? ?] & Hx & _). rewrite Hm, lookup_empty in Hx. congruence.
Qed.

Lemma add_object_lemma leak r p ts :
  reg_wf leak r -> reg_small r -> 1 + zlen ts <= MAX_LEN -> step_post leak (AddObject p ts) r (registry_step (AddObject p ts) r).
Proof.
  intros W Hsm Hlen. pose proof (rw_paths _ _ W) as Hok. pose proof (rw_graph _ _ W) as G. cbn [registry_step].
  unfold dicey_registry_add_object_with.
  destruct (path_is_valid p) eqn:Hv; cbn [negb]; [|apply step_same; [done|]; cbn; by rewrite Hv].
  srw (run_contains_object r p Hok Hv). destruct (tbl_map (rg_paths r) !! p) as [c|] eqn:E.
  { rewrite bool_decide_eq_true_2 by eauto. apply step_same; [done|]. cbn. rewrite Hv. cbn.
    destruct (graph_get leak _ _ p c G E) as (ob & k & m & _ & _ & _ & _ & _ & _ & Hdir & _). unfold directory_of. by rewrite Hdir. }
  rewrite bool_decide_eq_false_2 by (by intros [? ?]).
  destruct (run_object_new r) as [[Hnm En]|(set & En & Hset & Hnn & Hms & Hfit)]; srw En; [by apply step_refused; [..|lia]|].
  set (o := rg_next r) in *. set (ob := mk_object set None tbl_empty 1). set (r1 := moved r (rg_paths r) (<[o := ob]> (rg_objects r)) (S o)).
  destruct (rw_fresh _ _ W o ltac:(lia)) as [Hfo Hfl]. destruct (rw_traits _ _ W) as (Hokt & _).
  destruct (run_add_traits ts r1 o ob Hokt) as (set' & res & Et & Hres); try done.
  { cbn. by rewrite lookup_insert_eq. } { cbn. rewrite Hms, map_size_singleton. lia. } { cbn. by rewrite Hms, map_size_singleton. }
  set (r2 := set_objects _ r1) in Et. set (ob2 := with_traits set' ob).
  assert (rg_objects r2 = <[o := ob2]> (rg_objects r)) as HO2 by (cbn; by rewrite insert_insert_eq).
  assert (rg_objects r2 !! o = Some ob2) as Ho2 by (rewrite HO2; by rewrite lookup_insert_eq).
  assert (forall t n, object_deref o (moved r t (rg_objects r2) n) = (Ok tt, moved r t (rg_objects r) n)) as Hderef.
  { intros t n. rewrite (run_deref (moved r t (rg_objects r2) n) o ob2 Ho2) by done. unfold deref_heap. cbn [ob_refcount ob2 with_traits ob].
    change (1 - 1 <=? 0) with true. cbv iota. cbn [rg_objects moved]. rewrite HO2, delete_insert_id by done. done. }
  assert (directory_of r !! p = None) as Hdn by (by apply graph_get_none).
  assert (forall e, res = Err e ->
    (do! e <- scatch (object_add_traits o ts) ; match e with inl err => object_deref o ;;! sfail err | inr _ => publish_object p o end) r1 =
    (Err e, moved r (rg_paths r) (rg_objects r) (S o))) as Hfail.
  { intros e ->. rewrite (catch_Err _ _ _ _ _ Et). by srw (Hderef (rg_paths r) (S o)). }
  destruct Hres as [[He Hnm]|Hres]; [rewrite (Hfail _ He); apply step_refused; [done|by right; left|lia]|].
  replace (known_traits r1) with (known_traits r) in Hres by done. cbn [ob_traits ob] in Hres. rewrite Hms, dom_singleton_L in Hres.
  destruct (spec_traits _ _ ts) as [e|s] eqn:Es.
  { rewrite (Hfail _ Hres). exists leak. split; [|split; [done|left; split; [done|]]].
    - apply (moved_wf leak leak); try done; [lia|]. intros o' Ho'. apply (rw_fresh _ _ W). lia.
    - cbn. rewrite Hv. cbn. change (directory_of (moved r (rg_paths r) (rg_objects r) (S o))) with (directory_of r). by rewrite Hdn, Es. }
  destruct Hres as (-> & Hset' & Hnn' & Hdom). rewrite (catch_Ok _ _ _ _ _ Et). unfold publish_object.
  destruct (run_add_object r2 p o ob2 Hok Hsm Hv E Ho2) as (t & Hokt2 & [(Hmt & Er)|(Hmt & Hnm & Er)]).
  2:{ rewrite (catch_Err _ _ _ _ _ Er). srw (Hderef t (S (S o))). exists leak. split; [|split; [done|right; split_and!; [by apply (no_memory_paths r)|by left|]]].
      - apply (moved_wf leak leak); try done; [by rewrite Hmt|lia|]. intros o' Ho'. apply (rw_fresh _ _ W). lia.
      - unfold directory_of. cbn. by rewrite Hmt. }
  rewrite (catch_Ok _ _ _ _ _ Er). cbn [ob_main_path ob2 with_traits ob]. rewrite HO2, insert_insert_eq. set (ob3 := with_main_path _ _).
  destruct (tbl_empty_ok (T := T) (A := unit)) as (Hoke & Hme & _).
  destruct (graph_add leak _ _ o p (rg_next r2) ob3 G Hfo Hfl E Hv) as [Hg Hd]; try done.
  exists leak. split; [|split; [done|left; split; [done|]]].
  - apply (moved_wf leak leak r t _ (S (S o)) W Hokt2); [by rewrite Hmt|lia|].
    intros o' Ho'. rewrite lookup_insert_ne by lia. apply (rw_fresh _ _ W). lia.
  - cbn. rewrite Hv. cbn. rewrite Hdn, Es. unfold directory_of. cbn [rg_paths rg_objects moved]. rewrite Hmt. f_equal.
    etransitivity; [exact Hd|]. cbn. by rewrite Hdom.
Qed.

(** ** Sequences of operations *)

Definition op_small (op : registry_op) : Prop :=
  match op with AddObject _ ts => 1 + zlen ts <= MAX_LEN | _ => True end.

Lemma step_lemma leak r op : reg_wf leak r -> reg_small r -> op_small op -> step_post leak op r (registry_step op r).
Proof.
  intros W Hs Ho. destruct op; [by apply add_object_lemma|by apply alias_lemma|by apply unalias_lemma|by apply remove_all_lemma|by apply delete_lemma].
Qed.

(** Two more cells of each table at most. *)
Lemma step_fits n r op : n + 2 <= MAX_LEN -> fits n r -> fits (n + 2) (registry_step op r).2.
Proof.
  intros Hn Hf. enough (grows n (n + 2) (registry_step op) (fun _ => True)) as Hg by (by apply Hg).
  destruct op; cbn [registry_step]; [|by apply grows_alias|..];
    eapply grows_weaken; first [by apply grows_add; lia | by apply grows_unalias | by apply grows_remove_all | by apply grows_delete | lia | done].
Qed.

Fixpoint registry_run (ops : list registry_op) r : list (res unit) * dicey_registry (T := T) :=
  match ops with
  | [] => ([], r)
  | op :: ops' => let '(res, r') := registry_step op r in let '(rs, r'') := registry_run ops' r' in (res :: rs, r'')
  end.

Lemma size_dir leak r : reg_wf leak r -> size (directory_of r) = size (tbl_map (rg_paths r)).
Proof.
  intros W. unfold directory_of. rewrite <- !size_dom. f_equal. apply set_eq. intros p. rewrite !elem_of_dom.
  destruct (tbl_map (rg_paths r) !! p) as [c|] eqn:E; [|by rewrite graph_get_none].
  destruct (graph_get leak _ _ p c (rw_graph _ _ W) E) as (ob & k & m & _ & _ & _ & _ & _ & _ & Hd & _). rewrite Hd. by split; eauto.
Qed.

End spec.

Fixpoint spec_run (known : gset cstr) (ops : list registry_op) (d : directory) : list (res unit) * directory :=
  match ops with
  | [] => ([], d)
  | op :: ops' => let '(res, d') := spec_step known op d in let '(rs, d'') := spec_run known ops' d' in (res :: rs, d'')
  end.

(** What a client of the directory relies on: every path leads to an object through its main
    path, which is a path of the same object, and the traits of an object are known. *)
Definition directory_ok (known : gset cstr) (d : directory) : Prop :=
  forall p m s, d !! p = Some (m, s) ->
    path_is_valid p = true /\ d !! m = Some (m, s) /\ DICEY_INTROSPECTION_TRAIT_NAME ∈ s /\
    s ⊆ {[DICEY_INTROSPECTION_TRAIT_NAME]} ∪ known.

Lemma spec_traits_ok known ts : forall acc s,
  spec_traits known acc ts = inr s -> acc ⊆ s /\ s ⊆ acc ∪ known.
Proof.
  induction ts as [|t ts IH]; intros acc s; cbn [spec_traits]; [intros [= <-]; set_solver|].
  case_decide as Hk; [|done]. case_decide as Ha; [done|]. intros E. destruct (IH _ _ E) as [H1 H2]. set_solver.
Qed.

Lemma spec_step_ok known op d :
  directory_ok known d -> directory_ok known (snd (spec_step known op d)).
Proof.
  intros Hd. destruct op as [p ts|p a|a|p|p]; cbn [spec_step].
  - destruct (path_is_valid p) eqn:Hv; cbn [negb]; [|done]. destruct (d !! p) eqn:E; [done|].
    destruct (spec_traits _ _ ts) as [e|s] eqn:Es; [done|]. destruct (spec_traits_ok _ _ _ _ Es) as [H1 H2]. cbn [snd].
    intros q m s'. rewrite lookup_insert_Some. intros [[<- [= <- <-]]|[Hq Eq]].
    + rewrite lookup_insert_eq. split_and!; try done; set_solver.
    + destruct (Hd q m s' Eq) as (? & ? & ? & ?). rewrite lookup_insert_ne by congruence. done.
  - destruct (path_is_valid p && path_is_valid a) eqn:Hv; [|by destruct (path_is_valid p), (path_is_valid a)].
    apply andb_prop in Hv as [Hvp Hva]. rewrite Hvp, Hva. cbn [negb orb]. case_decide; [done|].
    destruct (d !! p) as [[m s]|] eqn:E; [|done]. destruct (d !! a) as [[m' s']|] eqn:Ea; [by case_decide|]. cbn [snd].
    intros q m' s'. rewrite lookup_insert_Some. destruct (Hd p m s E) as (? & Hm & ? & ?). intros [[<- [= <- <-]]|[Hq Eq]].
    + rewrite lookup_insert_ne by congruence. done.
    + destruct (Hd q m' s' Eq) as (? & ? & ? & ?). rewrite lookup_insert_ne by congruence. done.
  - destruct (path_is_valid a) eqn:Hv; cbn [negb]; [|done]. destruct (d !! a) as [[m s]|] eqn:E; [|done]. case_decide as Hm; [done|].
    cbn [snd]. intros q m' s'. rewrite lookup_delete_Some. intros [Hq Eq]. destruct (Hd q m' s' Eq) as (? & Hm' & ? & ?).
    rewrite lookup_delete_ne; [done|]. intros <-. congruence.
  - destruct (path_is_valid p) eqn:Hv; cbn [negb]; [|done]. destruct (d !! p) as [[m s]|] eqn:E; [|done]. case_decide as Hm; [|done].
    cbn [snd]. intros q m' s'. rewrite !map_lookup_filter_Some. intros [Eq Hq]. destruct (Hd q m' s' Eq) as (? & Hm' & ? & ?).
    split_and!; try done. cbn in *. destruct (decide (m' = p)); auto.
  - destruct (path_is_valid p) eqn:Hv; cbn [negb]; [|done]. destruct (d !! p) as [[m s]|] eqn:E; [|done].
    cbn [snd]. intros q m' s'. rewrite !map_lookup_filter_Some. intros [Eq Hq]. destruct (Hd q m' s' Eq) as (? & Hm' & ? & ?). done.
Qed.

Lemma spec_step_size known op d : (size (snd (spec_step known op d)) <= S (size d))%nat.
Proof.
  assert (forall P `{!forall x, Decision (P x)}, size (filter P d) <= S (size d))%nat as Hf.
  { intros P ?. etransitivity; [|apply Nat.le_succ_diag_r].
    rewrite <- !size_dom. apply subseteq_size. apply dom_filter_subseteq. }
  destruct op as [p ts|p a|a|p|p]; cbn [spec_step]; repeat (case_match || case_decide); cbn [snd]; try lia; try apply Hf;
    rewrite ?map_size_insert, ?map_size_delete; case_match; cbn; lia.
Qed.

Section run.
Context {T : Type -> Type} `{Table T}.
Variable object_alloc_ok : nat -> bool.
Implicit Types r : dicey_registry (T := T).

Lemma run_lemma ops : forall leak r,
  reg_wf leak r -> Forall op_small ops -> (forall o, object_alloc_ok o = true) -> tbl_memory ->
  forall n, fits n r -> n + 2 * zlen ops <= MAX_LEN ->
  let '(rs, r') := registry_run object_alloc_ok ops r in
  (rs, directory_of r') = spec_run (known_traits r) ops (directory_of r) /\
  exists leak', reg_wf leak' r' /\ forall o, leak' o = leak o.
Proof.
  induction ops as [|op ops IH]; intros leak r W Hs Ha Hm n Hf Hlen; cbn [registry_run spec_run]; [split; eauto|].
  apply Forall_cons in Hs as [Hop Hs]. rewrite zlen_cons in Hlen. pose proof (zlen_nonneg ops).
  pose proof (step_fits object_alloc_ok n r op ltac:(lia) Hf) as Hf1. pose proof Hf as (Hn & (_ & Hsz & Hu) & Hal).
  pose proof (step_lemma object_alloc_ok leak r op W ltac:(unfold reg_small; lia) Hop) as Hst.
  destruct (registry_step object_alloc_ok op r) as [res r1].
  destruct Hst as (leak1 & W1 & Ht & [[Hl Hd]|[Hnm _]]).
  2:{ exfalso. assert (MAX_BUCKETS + MAX_LEN <= MAX_CELLS) as Hroom by done.
      destruct Hnm as [[o Ho]|[?|[?|(o & ob & Ho & ?)]]]; [by rewrite Ha in Ho|done|lia|]. destruct (Hal o ob Ho) as (_ & _ & ?). lia. }
  pose proof (IH leak1 r1 W1 Hs Ha Hm (n + 2) Hf1 ltac:(lia)) as IH1. destruct (registry_run object_alloc_ok ops r1) as [rs r2].
  destruct IH1 as [E (leak2 & W2 & Hl2)]. split.
  - rewrite <- Hd. unfold known_traits in *. rewrite Ht in E. by rewrite <- E.
  - exists leak2. split; [done|]. intros o. by rewrite Hl2.
Qed.

End run.
