(* ===== verification/RegistryTheorems.v ===== *)
(** * Theorems about the registry

    The refinement of the directory, the reference counts, the lookups through aliases, the end of
    the registry, and the calls that break its invariant. The witnesses run on the hash tables
    of src/sup/hashtable.c and on the reference maps. *)

From S2P Require Import Prelude Errors Types Views Typedescr Hashtable Table Traits Registry RegistryGrowth RegistrySpec.
From stdpp Require Import gmap list.

#[local] Open Scope Z_scope.

(** No reference is held by anything but a path. *)
Definition no_leak (_ : nat) : Z := 0.

Section theorems.
Context {T : Type -> Type} `{Table T}.
Variable object_alloc_ok : nat -> bool.
Implicit Types (r : dicey_registry (T := T)) (O : gmap nat (dicey_object (T := T))).

Lemma empty_wf : reg_wf no_leak (empty_registry (T := T)).
Proof.
  destruct (tbl_empty_ok (T := T) (A := path_cell)) as (H1 & H2 & _).
  destruct (tbl_empty_ok (T := T) (A := nat)) as (H3 & H4 & _).
  split; cbn; try done.
  - rewrite H2. split; [intros p c; by rewrite lookup_empty|intros o ob; by rewrite lookup_empty|done].
  - split_and!; [done|intros n t; cbn; by rewrite H4, lookup_empty|done].
Qed.

(** ** Reference counts *)

(** The paths that lead to an object. *)
Definition paths_of r (o : nat) : gmap cstr path_cell := filter (fun pc => pc_object pc.2 = o) (tbl_map (rg_paths r)).

Lemma dom_paths_of leak r o ob k m :
  reg_wf leak r -> rg_objects r !! o = Some ob -> ob_main_path ob = Some (k, m) -> tbl_map (rg_paths r) !! m = Some (mk_cell k o) ->
  dom (paths_of r o) = {[m]} ∪ dom (tbl_map (ob_aliases ob)).
Proof.
  intros W Ho Hm Hp. apply set_eq. intros q. unfold paths_of. rewrite elem_of_union, elem_of_singleton, !elem_of_dom. split.
  - intros [[k' o'] E]. apply map_lookup_filter_Some in E as [E Eo]. cbn in Eo. subst o'.
    destruct (gw_path _ _ _ (rw_graph _ _ W) q _ E) as (_ & ob' & E' & _ & Hr). cbn in E', Hr. simplify_eq.
    destruct Hr as [Hr|Hr]; [left; congruence|by right].
  - destruct (gw_path _ _ _ (rw_graph _ _ W) m _ Hp) as (_ & ob' & E' & (_ & _ & _ & _ & _ & H6) & _). cbn in E', H6. simplify_eq.
    intros [->|Hq]; [|destruct (H6 q Hq) as [k' E]]; eexists; by apply map_lookup_filter_Some.
Qed.

Lemma size_paths_of leak r p c :
  reg_wf leak r -> tbl_map (rg_paths r) !! p = Some c ->
  exists ob, rg_objects r !! pc_object c = Some ob /\
    ob_refcount ob = Z.of_nat (size (paths_of r (pc_object c))) + leak (pc_object c).
Proof.
  intros W E. destruct (graph_get leak _ _ p c (rw_graph _ _ W) E) as (ob & k & m & Ho & Hw & Hm & Hpm & Hn & _).
  exists ob. split; [done|]. destruct Hw as (_ & _ & _ & -> & _).
  rewrite <- (size_dom (paths_of r _)). rewrite (dom_paths_of leak r _ ob k m) by done.
  rewrite size_union by (apply disjoint_singleton_l; by rewrite not_elem_of_dom).
  rewrite size_singleton, size_dom. lia.
Qed.

(** ** The end of the registry *)

Definition uses (o : nat) (l : list (cstr * path_cell)) : Z := zlen (filter (fun e => pc_object e.2 = o) l).

(** Each object counts the entries left to release; the others are gone. *)
Definition counted (l : list (cstr * path_cell)) O : Prop :=
  forall o, match O !! o with Some ob => ob_refcount ob = uses o l /\ 0 < uses o l | None => uses o l = 0 end.

Lemma uses_cons o e l : uses o (e :: l) = (if decide (pc_object e.2 = o) then 1 else 0) + uses o l.
Proof. unfold uses. rewrite filter_cons. case_decide; [by rewrite zlen_cons|done]. Qed.

Lemma deref_all_lemma l : forall r, counted l (rg_objects r) ->
  deref_all l r = (Ok tt, set_objects ∅ r).
Proof.
  induction l as [|[p c] l IH]; intros r Hc.
  - cbn. unfold sret. replace (∅ : gmap nat (dicey_object (T := T))) with (rg_objects r); [by destruct r|].
    apply map_empty. intros o. specialize (Hc o). destruct (rg_objects r !! o); [|done]. destruct Hc as [_ Hc]. cbn in Hc. done.
  - cbn [deref_all]. pose proof (Hc (pc_object c)) as Ho. rewrite uses_cons in Ho. cbn [snd] in Ho. rewrite decide_True in Ho by done.
    assert (0 <= uses (pc_object c) l) as Hu by apply zlen_nonneg.
    destruct (rg_objects r !! pc_object c) as [ob|] eqn:E; [|lia]. destruct Ho as [Hr _].
    srw (run_deref r _ ob E ltac:(lia)). rewrite IH; [done|]. cbn [rg_objects set_objects]. intros o.
    specialize (Hc o). rewrite uses_cons in Hc. cbn [snd] in Hc. unfold deref_heap.
    destruct (decide (pc_object c = o)) as [<-|Hne].
    + destruct (Z.leb_spec (ob_refcount ob - 1) 0); [rewrite lookup_delete_eq; lia|rewrite lookup_insert_eq; cbn; lia].
    + destruct (_ <=? _); [rewrite lookup_delete_ne by done|rewrite lookup_insert_ne by done]; exact Hc.
Qed.

Lemma uses_perm o l l' : l ≡ₚ l' -> uses o l = uses o l'.
Proof. intros Hp. unfold uses, zlen. by rewrite Hp. Qed.

Lemma uses_map r o : uses o (map_to_list (tbl_map (rg_paths r))) = Z.of_nat (size (paths_of r o)).
Proof.
  unfold uses, paths_of, zlen. f_equal. rewrite <- length_map_to_list. symmetry. apply Permutation_length.
  apply NoDup_Permutation; [apply NoDup_map_to_list|apply NoDup_filter, NoDup_map_to_list|].
  intros [k c]. rewrite list_elem_of_filter, !elem_of_map_to_list, map_lookup_filter_Some. tauto.
Qed.

(** Every trait of the table is released once, when each has an element. *)
Lemma free_traits_lemma l : forall r,
  NoDup (l.*2) -> (forall n t, (n, t) ∈ l -> exists tr, rg_trait_heap r !! t = Some tr /\ tbl_is_null (tr_elems tr) = false) ->
  exists h, free_traits l r = (Ok tt, set_trait_heap h r) /\
    forall t, h !! t = if decide (t ∈ l.*2) then None else rg_trait_heap r !! t.
Proof.
  induction l as [|[n t] l IH]; intros r Hd Hl.
  - exists (rg_trait_heap r). split; [by destruct r|done].
  - apply NoDup_cons in Hd as [Hn Hd]. destruct (Hl n t) as (tr & E & Hnn); [by left|]. cbn [free_traits]. unfold trait_free.
    rewrite sbind_assoc. unfold sbind at 1, trait_read. rewrite E. rewrite sbind_assoc. unfold dicey_trait_delete. rewrite Hnn. srun.
    unfold sbind, supd. destruct (IH (set_trait_heap (delete t (rg_trait_heap r)) r) Hd) as (h & Eh & Hh).
    { intros n' t' Hin. destruct (Hl n' t') as (tr' & E' & Hnn'); [by right|]. exists tr'. cbn.
      rewrite lookup_delete_ne; [done|]. intros ->. apply Hn. apply list_elem_of_fmap. by exists (n', t'). }
    exists h. rewrite Eh. split; [done|]. intros t'. rewrite Hh. cbn. rewrite lookup_delete. cbn [fmap list_fmap].
    destruct (decide (t' ∈ l.*2)); [by rewrite decide_True by (by right)|].
    destruct (decide (t = t')) as [->|]; [by rewrite decide_True by (by left)|].
    rewrite decide_False; [done|]. intros [?|?]%elem_of_cons; congruence.
Qed.

(** A registry without paths has no objects. *)
Lemma no_paths r : reg_wf no_leak r -> rg_paths r = tbl_empty -> fits 0 r /\ directory_of r = ∅.
Proof.
  intros W Hp. destruct (tbl_empty_ok (T := T) (A := path_cell)) as (_ & Hm & _). split.
  - split_and!; [done|rewrite Hp; by apply table_fits_empty|]. intros o ob Ho.
    destruct (gw_heap _ _ _ (rw_graph _ _ W) o ob Ho) as [(p & k & E)|Hx]; [|done]. by rewrite Hp, Hm, lookup_empty in E.
  - unfold directory_of. rewrite Hp, Hm. apply map_empty. intros p. by apply graph_get_none.
Qed.

(** Releasing a trait without elements fails an assertion. *)
Lemma free_traits_null l : forall r,
  NoDup (l.*2) -> (forall n t, (n, t) ∈ l -> is_Some (rg_trait_heap r !! t)) ->
  (exists n t tr, (n, t) ∈ l /\ rg_trait_heap r !! t = Some tr /\ tbl_is_null (tr_elems tr) = true) ->
  (free_traits l r).1 = Fault AssertFailed.
Proof.
  induction l as [|[n t] l IH]; intros r Hd Hl (n0 & t0 & tr0 & Hin & Ht0 & Hnull); [by apply elem_of_nil in Hin|].
  apply NoDup_cons in Hd as [Hn Hd]. destruct (Hl n t) as [tr E]; [by left|]. cbn [free_traits]. unfold trait_free.
  rewrite sbind_assoc. unfold sbind at 1, trait_read. rewrite E. rewrite sbind_assoc. unfold dicey_trait_delete.
  destruct (tbl_is_null (tr_elems tr)) eqn:Hnn; [done|]. srun. unfold sbind, supd. apply IH; [done| |].
  - intros n' t' Hin'. cbn. rewrite lookup_delete_ne; [apply (Hl n'); by right|]. intros ->. apply Hn. apply list_elem_of_fmap. by exists (n', t').
  - apply elem_of_cons in Hin as [[= -> ->]|Hin]; [congruence|]. exists n0, t0, tr0. split; [done|]. split; [|done]. cbn.
    rewrite lookup_delete_ne; [done|]. intros ->. apply Hn. apply list_elem_of_fmap. by exists (n0, t0).
Qed.

(** ** Properties *)

(** C25: adding an object with [dicey_registry_add_object_with], adding or removing an alias, removing
    all aliases and deleting an object keep the invariant of the registry and act on it as the
    specification says. From every well-formed registry of fewer than 42949672 paths ([MAX_LEN], where
    the load of a hash table would overflow) each of them answers with the result of the
    directory and leaves a registry that implements the directory it specifies; no assertion fails,
    no freed object is used and no reference is lost. The one exception needs an allocation that is
    refused, or a hash table of this registry (of its paths or of the aliases of an object) that has
    used up its cells ([no_memory]): then the answer is [DICEY_ENOMEM], or success for an alias that was not added, the
    directory is unchanged and the invariant holds, but a reference to an object may be lost.
    [dicey_registry_remove_object] is not among these operations: it breaks the invariant. *)
Theorem registry_step_correct leak r op :
  reg_wf leak r -> reg_small r -> op_small op -> step_post object_alloc_ok leak op r (registry_step object_alloc_ok op r).
Proof. apply step_lemma. Qed.

(** C29: refinement over whole runs: when allocations succeed, every sequence of up to 21474836
    additions, aliases, removals of aliases and deletions (of objects with less than 42949672 traits
    each) on a well-formed registry without objects gives the
    results of the directory, which is what the registry implements at the end; and no reference has
    leaked. This holds for the hash tables of the code: the cells they have cannot be used up by so
    many operations. *)
Theorem registry_refines_directory r ops :
  reg_wf no_leak r -> rg_paths r = tbl_empty -> Forall op_small ops -> 2 * zlen ops <= MAX_LEN ->
  (forall o, object_alloc_ok o = true) -> tbl_memory ->
  let '(rs, r') := registry_run object_alloc_ok ops r in
  (rs, directory_of r') = spec_run (known_traits r) ops ∅ /\
  exists leak', reg_wf leak' r' /\ forall o, leak' o = 0.
Proof.
  intros W Hp Hs Hl Ha Hm. destruct (no_paths r W Hp) as [Hf Hd]. rewrite <- Hd. by apply (run_lemma object_alloc_ok ops no_leak r W Hs Ha Hm 0 Hf).
Qed.

(** reference counts are exact. In a well-formed registry without leaks an object is allocated
    precisely as long as a path leads to it, and its count is the number of these paths. *)
Theorem refcounts_exact leak r :
  reg_wf leak r -> (forall o, leak o = 0) ->
  forall o, match rg_objects r !! o with
            | Some ob => ob_refcount ob = Z.of_nat (size (paths_of r o)) /\ 0 < ob_refcount ob
            | None => paths_of r o = ∅
            end.
Proof.
  intros W Hl o. destruct (rg_objects r !! o) as [ob|] eqn:E.
  - destruct (gw_heap _ _ _ (rw_graph _ _ W) o ob E) as [(p & k & Ep)|Hp]; [|rewrite Hl in Hp; lia].
    destruct (size_paths_of leak r p _ W Ep) as (ob' & E' & Hr). cbn in E', Hr. simplify_eq. rewrite Hl in Hr. split; [lia|].
    destruct (graph_get leak _ _ p _ (rw_graph _ _ W) Ep) as (ob2 & k2 & m & Ho & (_ & _ & _ & Hc & _) & _). cbn in Ho, Hc. simplify_eq.
    rewrite Hl in Hc. lia.
  - apply map_empty. intros q. apply eq_None_not_Some. intros [[k' o'] Ec]. apply map_lookup_filter_Some in Ec as [Ec Eo].
    cbn in Eo. subst o'. destruct (gw_path _ _ _ (rw_graph _ _ W) q _ Ec) as (_ & ob & E' & _). cbn in E'. congruence.
Qed.

Lemma registry_lookup_lemma leak r p :
  reg_wf leak r ->
  dicey_registry_get_main_path p r = (Ok (fst <$> directory_of r !! p), r) /\
  dicey_registry_is_alias p r =
    (if path_is_valid p then match directory_of r !! p with
                             | Some (m, _) => if decide (m = p) then Err DICEY_EPATH_NOT_ALIAS else Ok tt
                             | None => Err DICEY_EPATH_NOT_FOUND
                             end else Err DICEY_EPATH_MALFORMED, r).
Proof.
  intros W. pose proof (rw_paths _ _ W) as Hok. unfold dicey_registry_get_main_path, dicey_registry_is_alias, directory_of.
  destruct (tbl_map (rg_paths r) !! p) as [c|] eqn:E.
  - destruct (graph_get leak _ _ p c (rw_graph _ _ W) E) as (ob & k & m & Ho & _ & Hm & Hpm & _ & Hv & Hd & _). rewrite Hd, Hv. cbn [negb].
    split; srw (run_get_object r p Hok); rewrite Hv, E; cbn [fmap option_fmap option_map]; srw (run_obj_read r _ ob Ho).
    + by srw (run_read_main r ob k m _ Hok Hm Hpm).
    + rewrite bool_decide_eq_true_2 by (rewrite Hm; eauto). srun. srw (run_read_main r ob k m _ Hok Hm Hpm).
      case_decide; [by rewrite bool_decide_eq_true_2|by rewrite bool_decide_eq_false_2].
  - rewrite graph_get_none by done. split.
    + srw (run_get_object r p Hok). rewrite E. by destruct (path_is_valid p).
    + destruct (path_is_valid p) eqn:Hv; cbn [negb]; [|done]. srw (run_get_object r p Hok). by rewrite Hv, E.
Qed.

(** Lookups see through aliases. In a well-formed registry the main path of every path is the
    one of the directory, [dicey_registry_is_alias] distinguishes main paths from aliases, and
    both leave the registry unchanged and never read a freed string. *)
Theorem registry_lookup_correct leak r p :
  reg_wf leak r ->
  dicey_registry_get_main_path p r = (Ok (fst <$> directory_of r !! p), r) /\
  dicey_registry_is_alias p r =
    (if path_is_valid p then match directory_of r !! p with
                             | Some (m, _) => if decide (m = p) then Err DICEY_EPATH_NOT_ALIAS else Ok tt
                             | None => Err DICEY_EPATH_NOT_FOUND
                             end else Err DICEY_EPATH_MALFORMED, r).
Proof. exact (registry_lookup_lemma leak r p). Qed.

Lemma registry_element_lemma leak r p tname e :
  reg_wf leak r -> e <> [] ->
  exists res, dicey_registry_get_element_entry p tname e r = (Ok res, r) /\
    match res with
    | Some entry =>
        exists m s t tr k, directory_of r !! p = Some (m, s) /\ tname ∈ s /\ tbl_map (rg_traits r) !! tname = Some t /\
          rg_trait_heap r !! t = Some tr /\ elem_map tr !! e = Some (oe_element entry) /\
          oe_main_path entry = Some (k, m) /\ oe_sel entry = mk_selector (Some tname) (Some e) /\
          exists o, tbl_map (rg_paths r) !! m = Some (mk_cell k o)
    | None =>
        directory_of r !! p = None \/
        (exists m s, directory_of r !! p = Some (m, s) /\ (tname ∉ s \/ tname ∉ known_traits r \/
           exists t tr, tbl_map (rg_traits r) !! tname = Some t /\ rg_trait_heap r !! t = Some tr /\ elem_map tr !! e = None))
    end.
Proof.
  intros W He. pose proof (rw_paths _ _ W) as Hok. destruct (rw_traits _ _ W) as (Hokt & Htr & _).
  unfold dicey_registry_get_element_entry, directory_of. destruct (tbl_map (rg_paths r) !! p) as [c|] eqn:E.
  2:{ exists None. rewrite graph_get_none by done. split; [|by left].
      destruct (path_is_valid p) eqn:Hv; erewrite catch_Err; [done| |done|]; rewrite run_get_entry by done; rewrite Hv, ?E; done. }
  destruct (graph_get leak _ _ p c (rw_graph _ _ W) E) as (ob & k & m & Ho & Hw & Hm & Hpm & _ & Hv & Hd & _). rewrite Hd.
  destruct Hw as (Hots & _ & Hnn & _).
  erewrite catch_Ok; [|rewrite run_get_entry by done; rewrite Hv, E; done]. cbv iota beta. rewrite bool_decide_eq_true_2 by done. srun.
  unfold dicey_object_implements. rewrite sbind_assoc. srw (run_obj_read r _ ob Ho). rewrite Hnn. cbn [negb]. srun.
  rewrite tbl_get_ok by done. srun. destruct (decide (tname ∈ dom (tbl_map (ob_traits ob)))) as [Hin|Hin].
  2:{ rewrite bool_decide_eq_false_2 by (by rewrite <- elem_of_dom). cbn [negb]. exists None. split; [done|]. right. do 2 eexists. eauto. }
  rewrite bool_decide_eq_true_2 by (by rewrite <- elem_of_dom). cbn [negb]. unfold dicey_registry_get_trait. srun.
  rewrite tbl_get_ok by done. srun. destruct (tbl_map (rg_traits r) !! tname) as [t|] eqn:Et.
  2:{ exists None. split; [done|]. right. do 2 eexists. split; [done|]. right. left. unfold known_traits. by rewrite not_elem_of_dom. }
  destruct (Htr tname t Et) as (tr & Eh & Hname & Hwt & _). unfold sbind at 1, trait_read. rewrite Eh.
  unfold dicey_trait_get_element_entry. destruct e as [|e0 e']; [done|]. cbn [non_empty]. srun. rewrite tbl_get_ok by apply Hwt. srun.
  destruct (tbl_map (tr_elems tr) !! (e0 :: e')) as [el|] eqn:Ee; cbn [fmap option_fmap option_map].
  - srw (run_obj_read r _ ob Ho). eexists. split; [done|]. cbn. exists m, (dom (tbl_map (ob_traits ob))), t, tr, k. rewrite Hname. split_and!; try done. by exists (pc_object c).
  - exists None. split; [done|]. right. do 2 eexists. split; [done|]. right. right. eauto.
Qed.

(** an element is found on an object precisely when the object implements the trait and the
    trait has the element; the answer names the trait, the element and the main path of the
    object, whichever path was asked for, and its pointer to that path is not dangling. *)
Theorem registry_element_lookup leak r p tname e :
  reg_wf leak r -> e <> [] ->
  exists res, dicey_registry_get_element_entry p tname e r = (Ok res, r) /\
    match res with
    | Some entry =>
        exists m s t tr k, directory_of r !! p = Some (m, s) /\ tname ∈ s /\ tbl_map (rg_traits r) !! tname = Some t /\
          rg_trait_heap r !! t = Some tr /\ elem_map tr !! e = Some (oe_element entry) /\
          oe_main_path entry = Some (k, m) /\ oe_sel entry = mk_selector (Some tname) (Some e) /\
          exists o, tbl_map (rg_paths r) !! m = Some (mk_cell k o)
    | None =>
        directory_of r !! p = None \/
        (exists m s, directory_of r !! p = Some (m, s) /\ (tname ∉ s \/ tname ∉ known_traits r \/
           exists t tr, tbl_map (rg_traits r) !! tname = Some t /\ rg_trait_heap r !! t = Some tr /\ elem_map tr !! e = None))
    end.
Proof. exact (registry_element_lemma leak r p tname e). Qed.

(** C32: the end of the registry. [dicey_registry_deinit] on a well-formed registry without leaks
    whose registered traits all have an element releases every object exactly once (none is left, and
    none is used after it was freed) and every registered trait, without failing an assertion. If a
    registered trait has no element, which [dicey_registry_add_trait] allows, it fails an assertion
    instead. *)
Theorem registry_deinit_frees leak r :
  reg_wf leak r -> (forall o, leak o = 0) ->
  ((forall n t tr, tbl_map (rg_traits r) !! n = Some t -> rg_trait_heap r !! t = Some tr -> tbl_is_null (tr_elems tr) = false) ->
   exists r', dicey_registry_deinit r = (Ok tt, r') /\ rg_objects r' = ∅ /\
     (forall n t, tbl_map (rg_traits r) !! n = Some t -> rg_trait_heap r' !! t = None)) /\
  ((exists n t tr, tbl_map (rg_traits r) !! n = Some t /\ rg_trait_heap r !! t = Some tr /\ tbl_is_null (tr_elems tr) = true) ->
   (dicey_registry_deinit r).1 = Fault AssertFailed).
Proof.
  intros W Hl. destruct (rw_traits _ _ W) as (Hokt & Htr & _).
  destruct (tbl_entries_ok _ (rw_paths _ _ W)) as (l & El & Hp). destruct (tbl_entries_ok _ Hokt) as (lt & Elt & Hpt).
  assert (counted l (rg_objects r)) as Hc.
  { intros o. rewrite (uses_perm o _ _ Hp), uses_map. destruct (rg_objects r !! o) as [ob|] eqn:E.
    - destruct (gw_heap _ _ _ (rw_graph _ _ W) o ob E) as [(p & k & Ep)|Hx]; [|rewrite Hl in Hx; lia].
      destruct (size_paths_of leak r p _ W Ep) as (ob' & E' & Hr). cbn in E', Hr. simplify_eq. rewrite Hl in Hr. split; [lia|].
      assert (paths_of r o !! p = Some (mk_cell k o)) as Hin by (by apply map_lookup_filter_Some).
      pose proof (map_size_ne_0_lookup_2 (paths_of r o) p ltac:(eauto)). lia.
    - replace (paths_of r o) with (∅ : gmap cstr path_cell); [done|]. symmetry. apply map_empty. intros q. apply eq_None_not_Some.
      intros [[k' o'] Ec]. apply map_lookup_filter_Some in Ec as [Ec Eo]. cbn in Eo. subst o'.
      destruct (gw_path _ _ _ (rw_graph _ _ W) q _ Ec) as (_ & ob & E' & _). cbn in E'. congruence. }
  assert (forall n t, (n, t) ∈ lt <-> tbl_map (rg_traits r) !! n = Some t) as Hlt.
  { intros n t. by rewrite Hpt, elem_of_map_to_list. }
  assert (NoDup (lt.*2)) as Hnd.
  { rewrite Hpt. apply NoDup_fmap_2_strong; [|apply NoDup_map_to_list]. intros [n t] [n' t'] H1 H2 Et. cbn in Et. subst t'.
    apply elem_of_map_to_list in H1, H2. destruct (Htr n t H1) as (tr & E1 & N1 & _), (Htr n' t H2) as (tr' & E2 & N2 & _). congruence. }
  unfold dicey_registry_deinit. split; intros Hnn; srun; rewrite El; srun; srw (deref_all_lemma l r Hc); cbn [rg_traits set_objects]; rewrite Elt; srun.
  - destruct (free_traits_lemma lt (set_objects ∅ r) Hnd) as (h & Eh & Hh).
    { intros n t Hin. apply Hlt in Hin. destruct (Htr n t Hin) as (tr & E1 & _). exists tr. split; [done|]. by eapply Hnn. }
    srw Eh. eexists. split; [done|]. split; [done|]. intros n t Hin. cbn. rewrite Hh. rewrite decide_True; [done|].
    apply list_elem_of_fmap. exists (n, t). split; [done|]. by apply Hlt.
  - pose proof (free_traits_null lt (set_objects ∅ r) Hnd) as Hf. unfold sbind. destruct (free_traits lt (set_objects ∅ r)) as [x y]. cbn in Hf.
    rewrite Hf; [done| |].
    + intros n t Hin. apply Hlt in Hin. destruct (Htr n t Hin) as (tr & E1 & _). by exists tr.
    + destruct Hnn as (n & t & tr & H1 & H2 & H3). exists n, t, tr. split_and!; [by apply Hlt|done|done].
Qed.

(** Removing an object by its main path while it has aliases leaves them with a main path that
    was freed: the next lookup through an alias reads it. *)
Theorem remove_object_leaves_dangling_path leak r m a s :
  reg_wf leak r -> directory_of r !! a = Some (m, s) -> a <> m ->
  exists r', dicey_registry_remove_object m r = (Ok tt, r') /\
    fst (dicey_registry_get_main_path a r') = Fault UseAfterFree.
Proof.
  intros W Hd Hne. pose proof (rw_paths _ _ W) as Hok. unfold directory_of in Hd.
  destruct (tbl_map (rg_paths r) !! a) as [c|] eqn:E; [|by rewrite graph_get_none in Hd].
  destruct (graph_get leak _ _ a c (rw_graph _ _ W) E) as (ob & k & m' & Ho & Hw & Hm & Hpm & Hn & Hv & Hd' & Hal).
  rewrite Hd in Hd'. injection Hd' as <- _. destruct (gw_path _ _ _ (rw_graph _ _ W) m _ Hpm) as (Hvm & _).
  destruct Hw as (_ & _ & _ & Hrc & _ & _). pose proof (gw_leak _ _ _ (rw_graph _ _ W) (pc_object c)) as Hlk.
  assert (size (tbl_map (ob_aliases ob)) <> 0%nat) as Hsz by (apply (map_size_ne_0_lookup_2 _ a), Hal; congruence).
  unfold dicey_registry_remove_object. rewrite Hvm. cbn [negb]. srun.
  destruct (tbl_remove_ok (rg_paths r) m Hok) as (t & Et & Hokt & Hmt & _). rewrite Et, Hpm. srun. srw (run_upd r (set_paths t)).
  cbn [pc_object]. rewrite (run_deref (set_paths t r) _ ob Ho) by lia. eexists. split; [done|].
  unfold deref_heap. destruct (Z.leb_spec (ob_refcount ob - 1) 0); [lia|]. set (r1 := set_objects _ _).
  unfold dicey_registry_get_main_path. srw (run_get_object r1 a Hokt). rewrite Hv. cbn [rg_paths r1 set_objects set_paths].
  rewrite Hmt, lookup_delete_ne, E by congruence. cbn [fmap option_fmap option_map].
  erewrite sbind_Ok by (apply run_obj_read; cbn; apply lookup_insert_eq).
  unfold read_main_path. cbn [ob_main_path with_refcount]. rewrite Hm, sbind_assoc. srun. rewrite sbind_assoc. cbn [rg_paths r1 set_objects set_paths].
  unfold sbind at 1, slift.
  rewrite tbl_get_ok, Hmt, lookup_delete_eq by done. done.
Qed.

End theorems.

(** ** Concrete registries *)

Definition all_objects (_ : nat) : bool := true.
Definition all_names (_ : cstr) : bool := true.
Definition all_sizes (_ : Z) : bool := true.

Section concrete.
Context {T : Type -> Type} `{Table T}.

(** The registry with the trait "dicey.Trait", and its metaobject. *)
Definition with_trait (name : cstr) (elems : list dicey_element_new_entry) : rst (T := T) unit :=
  dicey_registry_add_trait_with_element_list all_objects all_names wide_elem wide_strdup all_sizes name elems.

(** Property "p" of signature "[i]" *)
Definition one_property : list dicey_element_new_entry := [mk_new_entry DICEY_ELEMENT_TYPE_PROPERTY [112] (Some [91; 105; 93])].

Definition base_registry : dicey_registry (T := T) := snd (with_trait DICEY_TRAIT_TRAIT_NAME one_property empty_registry).

(** "/a", "/b", "/c" *)
Definition path_a : cstr := [47; 97].
Definition path_b : cstr := [47; 98].
Definition path_c : cstr := [47; 99].

Definition sample_ops : list registry_op :=
  [AddObject path_a [DICEY_TRAIT_TRAIT_NAME]; AliasObject path_a path_b; AliasObject path_b path_c].

End concrete.

(** Removing an alias with [dicey_registry_remove_object] leaves it in the set of its object,
    and deleting the object then fails an assertion. *)
Theorem remove_alias_then_delete_aborts :
  let r := snd (registry_run (T := table_ptr) all_objects sample_ops base_registry) in
  let '(res, r') := dicey_registry_remove_object path_b r in
  res = Ok tt /\ fst (dicey_registry_delete_object path_a r') = Fault AssertFailed.
Proof. vm_compute. done. Qed.

(** A trait is added twice: [dicey_registry_add_trait_with] reports [DICEY_EEXIST],
    [dicey_registry_add_trait_with_element_list] fails an assertion instead. *)
Theorem duplicate_trait_list_aborts :
  fst (dicey_registry_add_trait_with (T := table_ptr) all_objects all_names wide_elem wide_strdup all_sizes
         DICEY_TRAIT_TRAIT_NAME (new_entry_element <$> one_property) base_registry) = Err DICEY_EEXIST /\
  fst (with_trait (T := table_ptr) DICEY_TRAIT_TRAIT_NAME one_property base_registry) = Fault AssertFailed.
Proof. vm_compute. done. Qed.

(** When the metaobject of a new trait cannot be added (here because the name ends with a
    slash), [dicey_registry_add_trait_with] frees the trait, which stays in the table, and
    reports success: the end of the registry frees it again. *)
Theorem failed_trait_stays_registered :
  let '(res, r) := dicey_registry_add_trait_with (T := table_ptr) all_objects all_names wide_elem wide_strdup all_sizes
                     [65; 47] (new_entry_element <$> one_property) base_registry in
  res = Ok tt /\ fst (dicey_registry_contains_trait [65; 47] r) = Ok true /\ fst (dicey_registry_deinit r) = Fault UseAfterFree.
Proof. vm_compute. done. Qed.

(** The traits of a set are not checked: an object can be added with a trait that does not
    exist, which the other two functions refuse. *)
Theorem trait_set_not_checked :
  let set := match tbl_set (tbl_empty (T := table_ptr)) [88] tt with Ok (_, _, t) => t | _ => tbl_empty end in
  fst (dicey_registry_add_object_with_trait_set all_objects path_a set base_registry) = Ok tt /\
  fst (dicey_registry_add_object_with_trait_list (T := table_ptr) all_objects path_a [[88]] base_registry) = Err DICEY_ETRAIT_NOT_FOUND.
Proof. vm_compute. done. Qed.

(** A trait whose first element has a malformed signature is not refused with
    [DICEY_ESIGNATURE_MALFORMED]: releasing the trait fails an assertion. *)
Theorem malformed_first_element_aborts :
  fst (with_trait (T := table_ptr) [65] [mk_new_entry DICEY_ELEMENT_TYPE_PROPERTY [112] (Some [91])] base_registry) = Fault AssertFailed /\
  fst (with_trait (T := table_ptr) [65] (one_property ++ [mk_new_entry DICEY_ELEMENT_TYPE_PROPERTY [113] (Some [91])]) base_registry) =
    Err DICEY_ESIGNATURE_MALFORMED.
Proof. vm_compute. done. Qed.

(** ** Witnesses *)

(** A registry over the reference maps with the trait "T", which has the property "p". *)
Definition name_t : cstr := [84].
Definition trait_t : dicey_trait (T := map_ptr) := mk_trait name_t (Some {[ [112] := sample_property ]}).
Definition known_registry : dicey_registry (T := map_ptr) :=
  mk_registry None (Some {[ name_t := 0%nat ]}) 0 ∅ {[ 0%nat := trait_t ]} 1.

Lemma known_registry_wf : reg_wf no_leak known_registry.
Proof.
  split; cbn; try done. split_and!; [done| |].
  - intros n t. cbn. unfold the_map. cbn. intros [<- <-]%lookup_singleton_Some. exists trait_t. split_and!; try done.
    split; [done|]. unfold elem_map. cbn. unfold the_map. cbn. apply map_Forall_singleton. split; [done|].
    exists [91; 105; 93], (DICEY_TYPEDESCR_VALUE [91; 105; 93]). by vm_compute.
  - intros t Ht. cbn in *. apply lookup_singleton_None. lia.
Qed.

Definition witness_ops : list registry_op :=
  [AddObject path_a [name_t]; AliasObject path_a path_b; AliasObject path_b path_c; UnaliasObject path_c; AliasObject path_a path_a].

Definition witness_registry : dicey_registry (T := map_ptr) := snd (registry_run all_objects witness_ops known_registry).

Lemma witness_small : Forall op_small witness_ops.
Proof. repeat constructor. all: by vm_compute. Qed.

Lemma witness_wf : exists leak, reg_wf leak witness_registry /\ forall o, leak o = 0.
Proof.
  destruct (no_paths known_registry known_registry_wf eq_refl) as [Hf _].
  pose proof (run_lemma all_objects witness_ops no_leak known_registry known_registry_wf witness_small (fun _ => eq_refl) I 0 Hf) as Hr.
  unfold witness_registry. destruct (registry_run all_objects witness_ops known_registry) as [rs r'].
  destruct Hr as [_ (leak & W & Hl)]; [by vm_compute|]. by exists leak.
Qed.

Lemma registry_step_correct_witness :
  exists leak, step_post all_objects leak (DeleteObject path_b) witness_registry
    (registry_step all_objects (DeleteObject path_b) witness_registry).
Proof.
  destruct witness_wf as (leak & W & _). exists leak.
  apply (registry_step_correct all_objects leak witness_registry (DeleteObject path_b) W); by vm_compute.
Defined.

Lemma wide_memory : tbl_memory (T := table_ptr).
Proof. intros [[n Hn]|[k Hk]]; discriminate. Qed.

(** On the hash tables of the code. *)
Definition hash_ops : list registry_op :=
  [AddObject path_a []; AliasObject path_a path_b; AliasObject path_b path_c; UnaliasObject path_c; AddObject path_b []; DeleteObject path_b].

Lemma hash_ops_small : Forall op_small hash_ops.
Proof. repeat constructor. all: by vm_compute. Qed.

Lemma registry_refines_directory_witness :
  (let '(rs, r') := registry_run (T := table_ptr) all_objects hash_ops empty_registry in
   (rs, directory_of r') = spec_run (known_traits (T := table_ptr) empty_registry) hash_ops ∅ /\
   exists leak', reg_wf leak' r' /\ forall o, leak' o = 0) /\
  fst (registry_run (T := table_ptr) all_objects hash_ops empty_registry) = [Ok tt; Ok tt; Ok tt; Ok tt; Err DICEY_EEXIST; Ok tt].
Proof.
  split; [|vm_compute; done].
  apply (registry_refines_directory (T := table_ptr) all_objects empty_registry hash_ops empty_wf eq_refl hash_ops_small);
    [by vm_compute|done|apply wide_memory].
Defined.

Lemma refcounts_exact_witness :
  match rg_objects witness_registry !! 1%nat with
  | Some ob => ob_refcount ob = Z.of_nat (size (paths_of witness_registry 1)) /\ 0 < ob_refcount ob
  | None => paths_of witness_registry 1 = ∅
  end /\
  ob_refcount <$> rg_objects witness_registry !! 1%nat = Some 2.
Proof.
  split; [|vm_compute; done]. destruct witness_wf as (leak & W & Hl).
  exact (refcounts_exact leak witness_registry W Hl 1%nat).
Defined.

Lemma registry_lookup_correct_witness :
  dicey_registry_get_main_path path_b witness_registry = (Ok (fst <$> directory_of witness_registry !! path_b), witness_registry) /\
  fst <$> directory_of witness_registry !! path_b = Some path_a.
Proof.
  split; [|by vm_compute]. destruct witness_wf as (leak & W & _).
  apply (registry_lookup_correct leak witness_registry path_b W).
Defined.

Lemma registry_element_lookup_witness :
  (exists res, dicey_registry_get_element_entry path_b name_t [112] witness_registry = (Ok res, witness_registry)) /\
  match fst (dicey_registry_get_element_entry path_b name_t [112] witness_registry) with
  | Ok (Some e) => oe_element e = sample_property /\ option_map snd (oe_main_path e) = Some path_a
  | _ => False
  end.
Proof.
  split; [|vm_compute; done]. destruct witness_wf as (leak & W & _).
  destruct (registry_element_lookup leak witness_registry path_b name_t [112] W) as (res & E & _); [discriminate|].
  exists res. exact E.
Defined.

Lemma registry_deinit_frees_witness :
  exists r', dicey_registry_deinit witness_registry = (Ok tt, r') /\ rg_objects r' = ∅.
Proof.
  destruct witness_wf as (leak & W & Hl).
  destruct (proj1 (registry_deinit_frees all_objects leak witness_registry W Hl)) as (r' & E & Ho & _).
  - intros n t tr. replace (rg_traits witness_registry) with (rg_traits known_registry) by (vm_compute; done).
    replace (rg_trait_heap witness_registry) with (rg_trait_heap known_registry) by (vm_compute; done).
    cbn. unfold the_map. cbn. intros [_ <-]%lookup_singleton_Some. intros [_ <-]%lookup_singleton_Some. done.
  - exists r'. split; [exact E|exact Ho].
Defined.

Lemma remove_object_leaves_dangling_path_witness :
  exists r', dicey_registry_remove_object path_a witness_registry = (Ok tt, r') /\
    fst (dicey_registry_get_main_path path_b r') = Fault UseAfterFree.
Proof.
  destruct witness_wf as (leak & W & _).
  apply (remove_object_leaves_dangling_path leak witness_registry path_a path_b
           (default ∅ (snd <$> directory_of witness_registry !! path_b)) W); [vm_compute; reflexivity|discriminate].
Defined.

(** [dicey_metaname_format] cannot work: it hands a NULL view to a function that asserts it. *)
Theorem metaname_format_aborts realloc_ok s : dicey_metaname_format realloc_ok s = Fault AssertFailed.
Proof. done. Qed.
