(* ===== verification/Clients.v ===== *)
(** * The clients of a server (src/ipc/server/client-data.c, server-clients.c)

    The server keeps its clients in an array of pointers indexed by their identifier; free slots
    are NULL, and the array grows by half when it is full. The theorems show that it is a finite
    map in which a new client gets the smallest free identifier. *)

From S2P Require Import Prelude Errors Types Views.
From stdpp Require Import gmap list.

#[local] Open Scope Z_scope.

Definition CLIENT_BASE_CAP : Z := 128.

Inductive dicey_client_data_state : Type :=
  | CLIENT_DATA_STATE_CONNECTED
  | CLIENT_DATA_STATE_RUNNING
  | CLIENT_DATA_STATE_QUITTING
  | CLIENT_DATA_STATE_DEAD.

#[export] Instance dicey_client_data_state_eq_dec : EqDecision dicey_client_data_state.
Proof. solve_decision. Defined.

(** [C] are the clients: pointers that are not NULL. [alloc_ok n]: an array of [n] slots can be
    (re)allocated. *)
Section clients.
Context {C : Type}.
Variable alloc_ok : Z -> bool.

(** [struct dicey_client_list]: the capacity is the length. The pointer to it may be NULL. *)
Abbreviation dicey_client_list := (list (option C)).

Definition client_list_grow (list : option dicey_client_list) : option dicey_client_list :=
  let old_cap := match list with Some l => zlen l | None => 0 end in
  let new_cap := if old_cap =? 0 then CLIENT_BASE_CAP else u64 (old_cap * 3) / 2 in
  if PTRDIFF_MAX <? new_cap then None else
  if alloc_ok new_cap
  then Some (default [] list ++ replicate (Z.to_nat (new_cap - old_cap)) None)
  else None.

(** The first slot that is NULL. *)
Fixpoint first_empty (l : dicey_client_list) (i : nat) : option nat :=
  match l with
  | [] => None
  | None :: _ => Some i
  | Some _ :: l' => first_empty l' (S i)
  end.

(** The identifier, if there is one, and the array. The array is lost when it cannot grow. *)
Definition dicey_client_list_new_bucket (list_ptr : option dicey_client_list) : option Z * option dicey_client_list :=
  match (match list_ptr with Some l => first_empty l 0 | None => None end) with
  | Some i => (Some (Z.of_nat i), list_ptr)
  | None =>
      let old_cap := match list_ptr with Some l => zlen l | None => 0 end in
      match client_list_grow list_ptr with
      | None => (None, None)
      | Some l => (Some old_cap, Some l)
      end
  end.

Definition dicey_client_list_get_client (list : option dicey_client_list) (id : Z) : option C :=
  match list with
  | Some l => if (0 <=? id) && (id <? zlen l) then match l !! Z.to_nat id with Some c => c | None => None end else None
  | None => None
  end.

(** The list is not NULL. *)
Definition dicey_client_list_drop_client (list : option dicey_client_list) (id : Z) : res (option C * option dicey_client_list) :=
  match list with
  | None => Fault NullDeref
  | Some l =>
      if (0 <=? id) && (id <? zlen l)
      then Ok (match l !! Z.to_nat id with Some c => c | None => None end, Some (<[Z.to_nat id := None]> l))
      else Ok (None, list)
  end.

Fixpoint no_client (l : dicey_client_list) : bool :=
  match l with
  | [] => true
  | Some _ :: _ => false
  | None :: l' => no_client l'
  end.

Definition dicey_client_list_is_empty (list : option dicey_client_list) : bool :=
  match list with Some l => no_client l | None => true end.

(** The slots from [dicey_client_list_begin] to [dicey_client_list_end]. *)
Definition dicey_client_list_slots (clients : option dicey_client_list) : list (option C) := default [] clients.

(** [dicey_server_reserve_id], and the caller storing the client in the slot. *)
Definition dicey_server_reserve_id (list_ptr : option dicey_client_list) : res Z * option dicey_client_list :=
  match dicey_client_list_new_bucket list_ptr with
  | (Some id, l) => (Ok id, l)
  | (None, l) => (Err DICEY_ENOMEM, l)
  end.

Definition client_list_store (list : option dicey_client_list) (id : Z) (c : C) : option dicey_client_list :=
  match list with Some l => Some (<[Z.to_nat id := Some c]> l) | None => None end.

(** ** The map *)

Definition client_at (list : option dicey_client_list) (id : nat) : option C :=
  match list with Some l => match l !! id with Some c => c | None => None end | None => None end.

Definition list_ok (list : option dicey_client_list) : Prop :=
  match list with Some l => CLIENT_BASE_CAP <= zlen l < 2 ^ 61 | None => True end.

Lemma get_client_at list id : 0 <= id -> dicey_client_list_get_client list id = client_at list (Z.to_nat id).
Proof.
  intros Hid. unfold dicey_client_list_get_client, client_at. destruct list as [l|]; [|done].
  destruct (Z.leb_spec 0 id); [|lia]. destruct (Z.ltb_spec id (zlen l)); cbn [andb]; [done|].
  rewrite lookup_ge_None_2; [done|]. unfold zlen in *. lia.
Qed.

Lemma first_empty_spec l i :
  match first_empty l i with
  | Some j => (i <= j)%nat /\ l !! (j - i)%nat = Some None /\ forall k, (k < j - i)%nat -> exists c, l !! k = Some (Some c)
  | None => forall k x, l !! k = Some x -> is_Some x
  end.
Proof.
  revert i. induction l as [|[c|] l IH]; intros i; cbn [first_empty]; [done| |].
  - specialize (IH (S i)). destruct (first_empty l (S i)) as [j|].
    + destruct IH as (Hj & He & Hk). split; [lia|]. replace (j - i)%nat with (S (j - S i)) by lia. split; [done|].
      intros [|k] Hlt; cbn; [eauto|]. apply Hk. lia.
    + intros [|k] x; cbn; [intros [= <-]; eauto|apply IH].
  - rewrite Nat.sub_diag. split_and!; [lia|done|lia].
Qed.

Lemma grow_spec list :
  list_ok list ->
  match client_list_grow list with
  | Some l => list_ok (Some l) \/ 2 ^ 61 <= zlen l
  | None => exists n, alloc_ok n = false
  end.
Proof.
  intros Hok. unfold client_list_grow, CLIENT_BASE_CAP in *. destruct list as [l|]; cbn [list_ok default] in *.
  - unfold CLIENT_BASE_CAP in Hok. destruct (Z.eqb_spec (zlen l) 0); [lia|].
    assert (u64 (zlen l * 3) = zlen l * 3) as -> by (apply Z.mod_small; lia). set (nc := zlen l * 3 / 2).
    assert (zlen l < nc < 2 ^ 62) as Hn by (unfold nc; Z.to_euclidean_division_equations; lia).
    destruct (Z.ltb_spec PTRDIFF_MAX nc); [unfold PTRDIFF_MAX in *; lia|]. destruct (alloc_ok nc) eqn:Ea; [|eauto].
    unfold list_ok, CLIENT_BASE_CAP. rewrite zlen_app, zlen_replicate by lia. unfold id. destruct (Z.lt_ge_cases nc (2 ^ 61)); [left|right]; lia.
  - change (0 =? 0) with true. cbv iota. change (PTRDIFF_MAX <? 128) with false. cbv iota. destruct (alloc_ok 128) eqn:Ea; [|eauto]. left. unfold list_ok. cbn [app]. rewrite zlen_replicate by lia. unfold CLIENT_BASE_CAP. lia.
Qed.

Lemma grow_at list l id :
  client_list_grow list = Some l -> client_at (Some l) id = client_at list id.
Proof.
  unfold client_list_grow. destruct (_ <? _); [done|]. destruct (alloc_ok _); [|done]. intros [= <-]. cbn [client_at].
  destruct (decide (id < length (default [] list))%nat) as [Hlt|Hge].
  - rewrite lookup_app_l by done. by destruct list.
  - rewrite lookup_app_r by lia. destruct (replicate _ None !! _) as [x|] eqn:E.
    + apply lookup_replicate in E as [-> _]. destruct list as [l'|]; [|done]. cbn in *. by rewrite lookup_ge_None_2 by lia.
    + destruct list as [l'|]; [|done]. cbn in *. by rewrite lookup_ge_None_2 by lia.
Qed.

(** The new identifier is free, the smallest one that is, and has a slot; no other client moves. *)
Lemma new_bucket_spec list :
  list_ok list ->
  match dicey_client_list_new_bucket list with
  | (Some id, l) =>
      0 <= id /\ is_Some l /\ (forall i, client_at l i = client_at list i) /\ client_at list (Z.to_nat id) = None /\
      (forall i, (i < Z.to_nat id)%nat -> is_Some (client_at list i)) /\
      (forall c, client_at (client_list_store l id c) (Z.to_nat id) = Some c) /\
      (list_ok l \/ exists x, l = Some x /\ 2 ^ 61 <= zlen x)
  | (None, l) => l = None /\ exists n, alloc_ok n = false
  end.
Proof.
  intros Hok. unfold dicey_client_list_new_bucket. destruct list as [l|].
  - pose proof (first_empty_spec l 0) as Hf. destruct (first_empty l 0) as [j|].
    + destruct Hf as (_ & He & Hk). rewrite Nat.sub_0_r in *. rewrite Nat2Z.id. cbn [client_at client_list_store].
      split_and!; [lia|eauto|done|by rewrite He| | |by left].
      * intros i Hi. destruct (Hk i Hi) as [c ->]. eauto.
      * intros c. rewrite ?Nat2Z.id, list_lookup_insert_eq; [done|]. by eapply lookup_lt_Some.
    + pose proof (grow_spec (Some l) Hok) as Hg. destruct (client_list_grow (Some l)) as [l'|] eqn:E; [|done].
      pose proof (zlen_nonneg l). assert (length l = Z.to_nat (zlen l)) as Hlen by (unfold zlen; lia).
      split_and!; [lia|eauto|intros i; by apply grow_at| | | |].
      * cbn [client_at]. rewrite lookup_ge_None_2 by lia. done.
      * intros i Hi. cbn [client_at]. destruct (lookup_lt_is_Some_2 l i) as [x Hx]; [lia|]. rewrite Hx. by apply (Hf i).
      * intros c. cbn [client_list_store client_at]. rewrite list_lookup_insert_eq; [done|].
        unfold client_list_grow in E. destruct (_ <? _); [done|]. destruct (alloc_ok _); [|done]. injection E as <-. cbn [default].
        rewrite length_app, length_replicate. destruct Hok as [Hlo Hhi]. unfold CLIENT_BASE_CAP in *. destruct (Z.eqb_spec (zlen l) 0); [lia|].
        assert (u64 (zlen l * 3) = zlen l * 3) as -> by (apply Z.mod_small; lia). Z.to_euclidean_division_equations; lia.
      * destruct Hg as [Hg|Hg]; [by left|right; eauto].
  - pose proof (grow_spec None I) as Hg. destruct (client_list_grow None) as [l'|] eqn:E; [|done].
    split; [done|]. split; [eauto|]. split; [intros i; by apply grow_at|]. split; [done|]. split; [intros i; cbn; lia|].
    split; [|destruct Hg as [Hg|Hg]; [by left|right; eauto]]. intros c. unfold client_list_grow in E. destruct (_ <? _); [done|]. destruct (alloc_ok _); [|done]. injection E as <-. done.
Qed.

Lemma drop_client_spec l id :
  0 <= id -> exists l', dicey_client_list_drop_client (Some l) id = Ok (client_at (Some l) (Z.to_nat id), Some l') /\ zlen l' = zlen l /\
    forall i, client_at (Some l') i = if decide (i = Z.to_nat id) then None else client_at (Some l) i.
Proof.
  intros Hid. unfold dicey_client_list_drop_client. destruct (Z.leb_spec 0 id); [|lia].
  destruct (Z.ltb_spec id (zlen l)); cbn [andb].
  - eexists. split; [done|]. split; [unfold zlen; by rewrite length_insert|]. intros i. cbn [client_at].
    case_decide as Hi; [subst i; rewrite list_lookup_insert_eq by (unfold zlen in *; lia); done|by rewrite list_lookup_insert_ne by congruence].
  - exists l. cbn [client_at]. rewrite lookup_ge_None_2 by (unfold zlen in *; lia). split_and!; try done. intros i.
    case_decide; [subst i|done]. by rewrite lookup_ge_None_2 by (unfold zlen in *; lia).
Qed.

Lemma no_client_spec l : no_client l = true <-> forall i, client_at (Some l) i = None.
Proof.
  induction l as [|[c|] l IH]; cbn [no_client].
  - split; [by intros _ i|done].
  - split; [done|]. intros Hn. by specialize (Hn 0%nat).
  - rewrite IH. split; [intros Hn [|i]; [done|apply Hn]|intros Hn i; apply (Hn (S i))].
Qed.

(** ** Properties *)

(** The identifiers of clients. A new client gets the smallest identifier that is not in use,
    in a slot of the array, without moving any other client; removing a client returns it and
    frees just its identifier; the list is empty precisely when no identifier is in use. Growing
    can only fail without memory, but then the array, and with it every client, is lost. *)
Theorem client_list_correct list :
  list_ok list ->
  (forall id, 0 <= id -> dicey_client_list_get_client list id = client_at list (Z.to_nat id)) /\
  (dicey_client_list_is_empty list = true <-> forall i, client_at list i = None) /\
  (forall l id, list = Some l -> 0 <= id -> exists l', dicey_client_list_drop_client list id = Ok (client_at list (Z.to_nat id), Some l') /\
     forall i, client_at (Some l') i = if decide (i = Z.to_nat id) then None else client_at list i) /\
  match dicey_server_reserve_id list with
  | (Ok id, l) =>
      0 <= id /\ client_at list (Z.to_nat id) = None /\ (forall i, (i < Z.to_nat id)%nat -> is_Some (client_at list i)) /\
      forall c i, client_at (client_list_store l id c) i = if decide (i = Z.to_nat id) then Some c else client_at list i
  | (r, l) => r = Err DICEY_ENOMEM /\ l = None /\ exists n, alloc_ok n = false
  end.
Proof.
  intros Hok. split_and!.
  - apply get_client_at.
  - destruct list as [l|]; [apply no_client_spec|done].
  - intros l id -> Hid. destruct (drop_client_spec l id Hid) as (l' & E & _ & Hl'). eauto.
  - pose proof (new_bucket_spec list Hok) as Hb. unfold dicey_server_reserve_id.
    destruct (dicey_client_list_new_bucket list) as [[id|] l]; [|destruct Hb; by split].
    destruct Hb as (Hid & [x ->] & Hsame & Hfree & Hmin & Hst & _). split_and!; try done. intros c i.
    case_decide as Hi; [subst i; apply Hst|]. rewrite <- Hsame. cbn [client_list_store client_at]. by rewrite list_lookup_insert_ne by congruence.
Qed.

End clients.

Lemma client_list_correct_witness :
  list_ok (Some (Some 7%nat :: None :: replicate 126 (Some 9%nat))) /\
  match dicey_server_reserve_id (fun _ => true) (Some (Some 7%nat :: None :: replicate 126 (Some 9%nat))) with
  | (Ok id, _) => 0 <= id
  | _ => False
  end.
Proof.
  assert (list_ok (Some (Some 7%nat :: None :: replicate 126 (Some 9%nat)))) as Hok by (vm_compute; split; [discriminate|reflexivity]).
  split; [exact Hok|]. destruct (client_list_correct (fun _ => true) _ Hok) as (_ & _ & _ & Hr). apply Hr.
Defined.

(** When the array of clients cannot grow, the server forgets all of its clients. *)
Theorem failed_growth_loses_clients (l : list (option nat)) :
  (forall k x, l !! k = Some x -> is_Some x) -> dicey_server_reserve_id (fun _ => false) (Some l) = (Err DICEY_ENOMEM, None).
Proof.
  intros Hfull. unfold dicey_server_reserve_id, dicey_client_list_new_bucket.
  pose proof (first_empty_spec l 0) as Hf. destruct (first_empty l 0) as [j|].
  - destruct Hf as (_ & He & _). rewrite Nat.sub_0_r in He. destruct (Hfull j None He). done.
  - unfold client_list_grow. by destruct (_ <? _).
Qed.

Lemma failed_growth_loses_clients_witness :
  dicey_server_reserve_id (fun _ => false) (Some (replicate 128 (Some 5%nat))) = (Err DICEY_ENOMEM, None).
Proof. apply (failed_growth_loses_clients (replicate 128 (Some 5%nat))). intros k x E. apply lookup_replicate in E as [-> _]. eauto. Defined.
