(* ===== verification/Chunk.v ===== *)
(** * Receive buffers (src/ipc/chunk.c)

    Bytes read from a socket are collected in a chunk until they make a whole packet. The capacity
    of a chunk counts its header. *)

From S2P Require Import Prelude Errors Types Views.

Definition BUFFER_MINCAP : Z := 1024.
Definition CHUNK_HEADER : Z := 16.
Definition UINT_MAX : Z := 4294967295.

(** [struct dicey_chunk]: the bytes received so far, [len] of them, and the capacity. *)
Record dicey_chunk : Type := mk_chunk { ck_bytes : list Z; ck_cap : Z }.

Definition ck_len (c : dicey_chunk) : Z := zlen (ck_bytes c).

Section chunk.

(** [realloc_ok n]: a block of [n] bytes can be allocated. *)
Variable realloc_ok : Z -> bool.

Definition dicey_chunk_avail (cnk : option dicey_chunk) : Z :=
  match cnk with Some c => u64 (ck_cap c - ck_len c - CHUNK_HEADER) | None => 0 end.

(** The old chunk is not returned, and not freed, when it cannot grow. *)
Definition dicey_chunk_grow (buf : option dicey_chunk) : option dicey_chunk :=
  let new_cap :=
    match buf with
    | Some c => if ck_cap c =? 0 then BUFFER_MINCAP else u64 (ck_cap c * 3) / 2
    | None => BUFFER_MINCAP
    end in
  if realloc_ok new_cap
  then Some (match buf with Some c => mk_chunk (ck_bytes c) new_cap | None => mk_chunk [] new_cap end)
  else None.

(** The loop of [dicey_chunk_get_buf]: the bytes available, and the chunk. *)
Fixpoint get_buf_loop (fuel : nat) (buf : option dicey_chunk) (min : Z) : res (Z * option dicey_chunk) :=
  match fuel with
  | O => OutOfFuel
  | S fuel' =>
      let avail := dicey_chunk_avail buf in
      if min <=? avail then Ok (avail, buf) else get_buf_loop fuel' (dicey_chunk_grow buf) min
  end.

(** The length of the buffer handed to libuv, [None] for a NULL buffer. *)
Definition dicey_chunk_get_buf (fuel : nat) (buf : option dicey_chunk) (min : Z) : res (option Z * option dicey_chunk) :=
  let! (avail, cnk) := get_buf_loop fuel buf min in
  Ok (match cnk with Some _ => Some (if UINT_MAX <? avail then UINT_MAX else avail) | None => None end, cnk).

Definition dicey_chunk_clear (buffer : dicey_chunk) : dicey_chunk := mk_chunk [] (ck_cap buffer).

(** The bytes libuv reads into the buffer are counted by the caller. *)
Definition chunk_received (c : dicey_chunk) (bytes : list Z) : dicey_chunk := mk_chunk (ck_bytes c ++ bytes) (ck_cap c).

(** ** Lemmas *)

Definition chunk_ok (c : dicey_chunk) : Prop := BUFFER_MINCAP <= ck_cap c < 2 ^ 61 /\ ck_len c + CHUNK_HEADER <= ck_cap c.

Definition buf_ok (buf : option dicey_chunk) : Prop := match buf with Some c => chunk_ok c | None => True end.

Definition buf_bytes (buf : option dicey_chunk) : list Z := match buf with Some c => ck_bytes c | None => [] end.

(** How many more times the buffer can fail to have room for [need] bytes. *)
Definition turns (buf : option dicey_chunk) (need : Z) : Z :=
  match buf with
  | Some c => (Z.max 0 (need - ck_cap c) + 511) / 512
  | None => (Z.max 0 (need - BUFFER_MINCAP) + 511) / 512 + 1
  end.

Lemma avail_ok c : chunk_ok c -> dicey_chunk_avail (Some c) = ck_cap c - ck_len c - CHUNK_HEADER.
Proof.
  intros [[H1 H2] H3]. pose proof (zlen_nonneg (ck_bytes c)). unfold dicey_chunk_avail, ck_len, CHUNK_HEADER in *. apply Z.mod_small. lia.
Qed.

Lemma grow_ok c : chunk_ok c -> (forall n, realloc_ok n = true) -> ck_cap c < 2 ^ 60 ->
  exists c', dicey_chunk_grow (Some c) = Some c' /\ chunk_ok c' /\ ck_bytes c' = ck_bytes c /\ ck_cap c + 512 <= ck_cap c'.
Proof.
  intros [[H1 H2] H3] Ha Hc. unfold BUFFER_MINCAP in *. unfold dicey_chunk_grow. destruct (Z.eqb_spec (ck_cap c) 0); [lia|].
  assert (u64 (ck_cap c * 3) = ck_cap c * 3) as -> by (apply Z.mod_small; lia). rewrite Ha. eexists. split; [done|].
  set (nc := ck_cap c * 3 / 2). assert (ck_cap c + 512 <= nc < 2 ^ 61) as Hn by (unfold nc; Z.to_euclidean_division_equations; lia).
  split_and!; try done; [|cbn; lia]. unfold chunk_ok, ck_len, BUFFER_MINCAP in *. cbn. lia.
Qed.

Lemma get_buf_loop_ok min : forall fuel buf,
  buf_ok buf -> (forall n, realloc_ok n = true) -> 0 <= min -> zlen (buf_bytes buf) + CHUNK_HEADER + min < 2 ^ 60 ->
  turns buf (zlen (buf_bytes buf) + CHUNK_HEADER + min) < Z.of_nat fuel ->
  exists avail buf', get_buf_loop fuel buf min = Ok (avail, buf') /\ buf_ok buf' /\ buf_bytes buf' = buf_bytes buf /\
    avail = dicey_chunk_avail buf' /\ min <= avail.
Proof.
  induction fuel as [|fuel IH]; intros buf Hok Ha Hmin Hsz Hf.
  { unfold turns in Hf. destruct buf; Z.to_euclidean_division_equations; lia. }
  cbn [get_buf_loop]. destruct (Z.leb_spec min (dicey_chunk_avail buf)) as [Hle|Hgt]; [by do 2 eexists|]. destruct buf as [c|].
  - rewrite (avail_ok c Hok) in Hgt. unfold buf_bytes in Hsz, Hf. unfold ck_len in Hgt.
    assert (ck_cap c < 2 ^ 60) as Hc by lia. destruct (grow_ok c Hok Ha Hc) as (c' & -> & Hok' & Hb & Hcap).
    destruct (IH (Some c')) as (avail & buf' & E & H1 & H2 & H3 & H4); try done.
    + cbn [buf_bytes]. by rewrite Hb.
    + cbn [buf_bytes turns] in *. rewrite Hb. Z.to_euclidean_division_equations; lia.
    + exists avail, buf'. cbn [buf_bytes] in H2. rewrite Hb in H2. done.
  - unfold dicey_chunk_grow at 1. rewrite Ha. destruct (IH (Some (mk_chunk [] BUFFER_MINCAP))) as (avail & buf' & E & H1 & H2 & H3 & H4); try done.
    + cbn [buf_bytes turns ck_bytes ck_cap] in *. unfold BUFFER_MINCAP in *. Z.to_euclidean_division_equations; lia.
    + by exists avail, buf'.
Qed.

Lemma grow_never buf : (forall n, realloc_ok n = false) -> dicey_chunk_grow buf = None.
Proof. intros Ha. unfold dicey_chunk_grow. by rewrite Ha. Qed.

Lemma get_buf_never min fuel : (forall n, realloc_ok n = false) -> 0 < min -> get_buf_loop fuel None min = OutOfFuel.
Proof.
  intros Ha Hm. induction fuel as [|fuel IH]; [done|]. cbn [get_buf_loop dicey_chunk_avail]. destruct (Z.leb_spec min 0); [lia|].
  by rewrite grow_never.
Qed.

(** ** Properties *)

(** asking for room in a receive buffer. With memory, the loop ends with a buffer that has at
    least the room asked for, within the block, and keeps the bytes received before; the number
    of turns is bounded by the size asked for. *)
Theorem dicey_chunk_get_buf_ok buf min fuel :
  buf_ok buf -> (forall n, realloc_ok n = true) -> 0 <= min -> zlen (buf_bytes buf) + CHUNK_HEADER + min < 2 ^ 60 ->
  turns buf (zlen (buf_bytes buf) + CHUNK_HEADER + min) < Z.of_nat fuel -> 0 < min <= UINT_MAX ->
  exists n c, dicey_chunk_get_buf fuel buf min = Ok (Some n, Some c) /\ chunk_ok c /\ ck_bytes c = buf_bytes buf /\
    min <= n <= ck_cap c - CHUNK_HEADER - ck_len c /\
    forall bytes, zlen bytes <= n -> chunk_ok (chunk_received c bytes).
Proof.
  intros Hok Ha Hmin Hsz Hf Hm. destruct (get_buf_loop_ok min fuel buf Hok Ha Hmin Hsz Hf) as (avail & buf' & E & H1 & H2 & H3 & H4).
  unfold dicey_chunk_get_buf. rewrite E. cbn [obind]. destruct buf' as [c|]; [|cbn in H3; lia]. cbn [buf_ok buf_bytes] in *.
  rewrite (avail_ok c H1) in H3. do 2 eexists. split; [done|]. split_and!; try done; try (destruct (Z.ltb_spec UINT_MAX avail); lia).
  intros bytes Hb. destruct H1 as [H1 H1']. unfold chunk_ok, chunk_received, ck_len in *. cbn [ck_bytes ck_cap]. rewrite zlen_app.
  destruct (Z.ltb_spec UINT_MAX avail); lia.
Qed.

(** Without memory the loop of [dicey_chunk_get_buf] never ends, and bytes received before are
    forgotten. *)
Theorem get_buf_without_memory_hangs buf min fuel :
  (forall n, realloc_ok n = false) -> dicey_chunk_avail buf < min -> 0 < min ->
  dicey_chunk_grow buf = None /\ dicey_chunk_get_buf fuel buf min = OutOfFuel.
Proof.
  intros Ha Hav Hm. split; [by apply grow_never|]. unfold dicey_chunk_get_buf. destruct fuel as [|fuel]; [done|].
  cbn [get_buf_loop]. destruct (Z.leb_spec min (dicey_chunk_avail buf)); [lia|]. rewrite grow_never by done. by rewrite get_buf_never.
Qed.

End chunk.

Lemma dicey_chunk_get_buf_ok_witness :
  exists n c, dicey_chunk_get_buf (fun _ => true) 8 (Some (mk_chunk (repeat 7 900) 1024)) 256 = Ok (Some n, Some c) /\ chunk_ok c.
Proof.
  destruct (dicey_chunk_get_buf_ok (fun _ => true) (Some (mk_chunk (repeat 7 900) 1024)) 256 8) as (n & c & E & Hc & _).
  - vm_compute. split; [split|]; [discriminate|reflexivity|discriminate].
  - done.
  - lia.
  - vm_compute. reflexivity.
  - vm_compute. reflexivity.
  - vm_compute. split; [reflexivity|discriminate].
  - exists n, c. done.
Defined.

Lemma get_buf_without_memory_hangs_witness :
  dicey_chunk_get_buf (fun _ => false) 100 (Some (mk_chunk (repeat 7 900) 1024)) 256 = OutOfFuel.
Proof.
  apply (get_buf_without_memory_hangs (fun _ => false) (Some (mk_chunk (repeat 7 900) 1024)) 256 100); [done|vm_compute; reflexivity|lia].
Defined.
