(* ===== verification/Builders.v ===== *)
(** * Message and value builders, argument trees (src/wirefmt/builders.c, packet-args.c)

    A message is built step by step: a message builder holds its header and the root of its value,
    value builders fill the root and the elements of lists through pointers. The trees under
    construction live in a heap of blocks of argument cells, so that growing a list moves its
    block, and freeing, sharing and dangling pointers are part of the model. *)

From S2P Require Import Prelude Errors Types Views Writer ValueWrite ValueProbe Value Codec Payload Packet.
From stdpp Require Import gmap list.

#[local] Open Scope Z_scope.

Definition DEFAULT_VAL_CAP : Z := 16.

Inductive builder_state : Type :=
  | BUILDER_STATE_IDLE
  | BUILDER_STATE_PENDING
  | BUILDER_STATE_VALUE
  | BUILDER_STATE_ARRAY
  | BUILDER_STATE_PAIR
  | BUILDER_STATE_TUPLE.

#[export] Instance builder_state_eq_dec : EqDecision builder_state.
Proof. solve_decision. Defined.

(** ** The heap of arguments *)

(** [struct dicey_arg] in memory. [CZero t] is all zeros but for its type; [CForeign a] has the
    contents of an argument of the caller, whose lists and pairs the builder does not own. *)
Inductive cell : Type :=
  | CZero (type : dicey_type)
  | CLeaf (a : dicey_arg)
  | CArray (type : dicey_type) (nitems : Z) (elems : option nat)
  | CTuple (nitems : Z) (elems : option nat)
  | CPair (first second : option nat)
  | CForeign (a : dicey_arg).

Definition cell_type (c : cell) : dicey_type :=
  match c with
  | CZero t => t
  | CLeaf a | CForeign a => arg_type a
  | CArray _ _ _ => DICEY_TYPE_ARRAY
  | CTuple _ _ => DICEY_TYPE_TUPLE
  | CPair _ _ => DICEY_TYPE_PAIR
  end.

(** [struct _dicey_value_builder_list] and [struct dicey_value_builder]: the root is a block and an
    index in it. *)
Record value_builder_list : Type := mk_vlist { vl_type : dicey_type; vl_nitems : Z; vl_cap : Z; vl_elems : option nat }.
Record dicey_value_builder : Type := mk_vb { vb_state : builder_state; vb_root : option (nat * nat); vb_list : value_builder_list }.

Definition zero_vlist : value_builder_list := mk_vlist DICEY_TYPE_INVALID 0 0 None.
Definition zero_vb : dicey_value_builder := mk_vb BUILDER_STATE_IDLE None zero_vlist.

(** [struct dicey_message_builder]: the root is a block of one cell, the borrower a value builder. *)
Record dicey_message_builder : Type := mk_mb {
  mb_state : builder_state; mb_type : dicey_op; mb_seq : Z; mb_path : option cstr; mb_selector : dicey_selector;
  mb_root : option nat; mb_borrowed_to : option nat;
}.

Definition zero_mb : dicey_message_builder := mk_mb BUILDER_STATE_IDLE DICEY_OP_INVALID 0 None (mk_selector None None) None None.

(** The message builder, the value builders of the caller by their address, the blocks. *)
Record bstate : Type := mk_bstate {
  bs_msg : dicey_message_builder; bs_vals : gmap nat dicey_value_builder; bs_blocks : gmap nat (list cell); bs_next : nat;
}.

Section builders.

(** [alloc_ok n]: the allocation that would get address [n] succeeds; [calloc_ok]: of a packet. *)
Variable alloc_ok : nat -> bool.
Variable calloc_ok : Z -> bool.

Definition bst : Type -> Type := stm bstate dicey_error.

Definition put_msg (m : dicey_message_builder) : bst unit := fun s => (Ok tt, mk_bstate m (bs_vals s) (bs_blocks s) (bs_next s)).
Definition put_blocks (b : gmap nat (list cell)) : bst unit := fun s => (Ok tt, mk_bstate (bs_msg s) (bs_vals s) b (bs_next s)).
Definition put_val (v : nat) (vb : dicey_value_builder) : bst unit := fun s =>
  (Ok tt, mk_bstate (bs_msg s) (<[v := vb]> (bs_vals s)) (bs_blocks s) (bs_next s)).
Definition get_val (v : nat) : bst dicey_value_builder := fun s => (Ok (default zero_vb (bs_vals s !! v)), s).

Definition balloc (cells : list cell) : bst (option nat) := fun s =>
  let n := bs_next s in
  if alloc_ok n
  then (Ok (Some n), mk_bstate (bs_msg s) (bs_vals s) (<[n := cells]> (bs_blocks s)) (S n))
  else (Ok None, mk_bstate (bs_msg s) (bs_vals s) (bs_blocks s) (S n)).

Definition block_read (b : nat) : bst (list cell) := fun s =>
  (match bs_blocks s !! b with Some cells => Ok cells | None => Fault UseAfterFree end, s).

Definition cell_read (p : nat * nat) : bst cell :=
  do! cells <- block_read p.1 ;
  match cells !! p.2 with Some c => sret c | None => sfault OutOfBounds end.

Definition cell_write (p : nat * nat) (c : cell) : bst unit :=
  do! cells <- block_read p.1 ;
  match cells !! p.2 with
  | Some _ => do! s <- sget ; put_blocks (<[p.1 := <[p.2 := c]> cells]> (bs_blocks s))
  | None => sfault OutOfBounds
  end.

(** [free] of a block that is not allocated is a double free. *)
Definition bfree (b : nat) : bst unit :=
  do! s <- sget ;
  match bs_blocks s !! b with
  | Some _ => put_blocks (delete b (bs_blocks s))
  | None => sfault InvalidFree
  end.

(** ** Arguments (packet-args.c) *)

(** The elements an argument owns. *)
Definition dicey_arg_get_list (c : cell) : option (nat * Z) :=
  match c with
  | CArray _ n (Some p) | CTuple n (Some p) => Some (p, n)
  | _ => None
  end.

(** A loop over consecutive cells. *)
Fixpoint each_cell (f : cell -> bst unit) (cells : list cell) : bst unit :=
  match cells with
  | [] => sret tt
  | c :: cells' => f c ;;! each_cell f cells'
  end.

(** [free] of a cell in a block of its own, after [f] released its contents. *)
Definition free_with (f : cell -> bst unit) (p : option nat) : bst unit :=
  match p with
  | None => sret tt
  | Some p => do! c <- cell_read (p, O) ; f c ;;! bfree p
  end.

Fixpoint dicey_arg_free_contents (fuel : nat) (c : cell) : bst unit :=
  match fuel with
  | O => fun s => (OutOfFuel, s)
  | S fuel' =>
      match dicey_arg_get_list c with
      | Some (p, n) =>
          do! cells <- block_read p ; each_cell (dicey_arg_free_contents fuel') (take (Z.to_nat n) cells) ;;! bfree p
      | None =>
          match c with
          | CPair first second =>
              free_with (dicey_arg_free_contents fuel') first ;;! free_with (dicey_arg_free_contents fuel') second
          | CForeign (ArgArray _ _) | CForeign (ArgTuple _) | CForeign (ArgPair _ _) => sfault InvalidFree
          | _ => sret tt
          end
      end
  end.

(** Enough fuel: nested lists and pairs have blocks of their own. *)
Definition free_fuel (s : bstate) : nat := S (size (bs_blocks s)).

Definition free_contents (c : cell) : bst unit := fun s => dicey_arg_free_contents (free_fuel s) c s.

Definition dicey_arg_free (p : option nat) : bst unit := free_with free_contents p.

Definition dicey_arg_free_list (arglist : option nat) (nitems : Z) : bst unit :=
  match arglist with
  | None => sret tt
  | Some p =>
      if nitems =? 0 then sret tt else
      do! cells <- block_read p ; each_cell free_contents (take (Z.to_nat nitems) cells) ;;! bfree p
  end.

(** The loop of [arglist_copy]: [dup] into the cells of block [p], from [i] on. *)
Fixpoint dup_cells (dup : nat * nat -> dicey_arg -> bst bool) (p i : nat) (l : list dicey_arg) : bst bool :=
  match l with
  | [] => sret true
  | a :: l' => do! ok <- dup (p, i) a ; if ok then dup_cells dup p (S i) l' else sret false
  end.

(** [arglist_copy], which stores the copy in the cell [wrap] makes of it. *)
Definition arglist_copy (dup : nat * nat -> dicey_arg -> bst bool) (dest : nat * nat) (l : list dicey_arg)
    (wrap : nat -> cell) : bst bool :=
  do! p <- balloc (replicate (length l) (CZero DICEY_TYPE_INVALID)) ;
  match p with
  | None => sret false
  | Some p =>
      do! ok <- dup_cells dup p O l ;
      if ok then cell_write dest (wrap p) ;;! sret true else sret false
  end.

(** [dicey_arg_dup(NULL, src)] *)
Definition dup_new (dup : nat * nat -> dicey_arg -> bst bool) (a : dicey_arg) : bst (option nat) :=
  do! p <- balloc [CZero DICEY_TYPE_INVALID] ;
  match p with
  | None => sret None
  | Some p => do! ok <- dup (p, O) a ; sret (if ok then Some p else None)
  end.

(** A deep copy of an argument of the caller into a cell; [false] without memory, and then the
    cell may point into the argument of the caller. *)
Fixpoint dicey_arg_dup (dest : nat * nat) (src : dicey_arg) : bst bool :=
  match src with
  | ArgArray t l =>
      cell_write dest (CForeign src) ;;!
      arglist_copy dicey_arg_dup dest l (fun p => CArray t (zlen l) (Some p))
  | ArgTuple l =>
      cell_write dest (CForeign src) ;;!
      arglist_copy dicey_arg_dup dest l (fun p => CTuple (zlen l) (Some p))
  | ArgPair x y =>
      cell_write dest (CForeign src) ;;!
      do! first <- dup_new dicey_arg_dup x ;
      do! second <- dup_new dicey_arg_dup y ;
      match first, second with
      | Some _, Some _ => cell_write dest (CPair first second) ;;! sret true
      | _, _ => dicey_arg_free first ;;! dicey_arg_free second ;;! sret false
      end
  | _ => cell_write dest (CLeaf src) ;;! sret true
  end.

(** The contents of a cell go to a block of their own; the cell is cleared. *)
Definition dicey_arg_move (src : nat * nat) : bst (option nat) :=
  do! p <- balloc [CZero DICEY_TYPE_INVALID] ;
  match p with
  | None => sret None
  | Some p =>
      do! c <- cell_read src ;
      cell_write (p, O) c ;;! cell_write src (CZero DICEY_TYPE_INVALID) ;;! sret (Some p)
  end.

(** What the encoder reads from a cell. *)
Definition zero_arg (t : dicey_type) : res dicey_arg :=
  match t with
  | DICEY_TYPE_UNIT => Ok ArgUnit
  | DICEY_TYPE_BOOL => Ok (ArgBool 0)
  | DICEY_TYPE_BYTE => Ok (ArgByte 0)
  | DICEY_TYPE_FLOAT => Ok (ArgFloat 0)
  | DICEY_TYPE_INT16 => Ok (ArgI16 0)
  | DICEY_TYPE_INT32 => Ok (ArgI32 0)
  | DICEY_TYPE_INT64 => Ok (ArgI64 0)
  | DICEY_TYPE_UINT16 => Ok (ArgU16 0)
  | DICEY_TYPE_UINT32 => Ok (ArgU32 0)
  | DICEY_TYPE_UINT64 => Ok (ArgU64 0)
  | DICEY_TYPE_ARRAY => Ok (ArgArray DICEY_TYPE_INVALID [])
  | DICEY_TYPE_TUPLE => Ok (ArgTuple [])
  | DICEY_TYPE_PAIR => Fault NullDeref
  | DICEY_TYPE_BYTES => Ok (ArgBytes 0 None)
  | DICEY_TYPE_STR => Ok (ArgStr None)
  | DICEY_TYPE_UUID => Ok (ArgUuid (replicate 16 0))
  | DICEY_TYPE_PATH => Ok (ArgPath None)
  | DICEY_TYPE_SELECTOR => Ok (ArgSelector (mk_selector None None))
  | DICEY_TYPE_ERROR => Ok (ArgError (mk_errmsg 0 None))
  | _ => Ok (ArgInvalid t)
  end.

Fixpoint read_cells (f : cell -> res dicey_arg) (cells : list cell) : res (list dicey_arg) :=
  match cells with
  | [] => Ok []
  | c :: cells' => let! a := f c in let! l := read_cells f cells' in Ok (a :: l)
  end.

Definition read_list (f : cell -> res dicey_arg) (blocks : gmap nat (list cell)) (n : Z) (p : option nat) : res (list dicey_arg) :=
  if n =? 0 then Ok [] else
  match p with
  | None => Fault NullDeref
  | Some p =>
      match blocks !! p with
      | None => Fault UseAfterFree
      | Some cells => if zlen cells <? n then Fault OutOfBounds else read_cells f (take (Z.to_nat n) cells)
      end
  end.

Definition read_one (f : cell -> res dicey_arg) (blocks : gmap nat (list cell)) (p : option nat) : res dicey_arg :=
  match p with
  | None => Fault NullDeref
  | Some p =>
      match blocks !! p with
      | Some (c :: _) => f c
      | Some [] => Fault OutOfBounds
      | None => Fault UseAfterFree
      end
  end.

Fixpoint arg_of_cell (fuel : nat) (blocks : gmap nat (list cell)) (c : cell) : res dicey_arg :=
  match fuel with
  | O => OutOfFuel
  | S fuel' =>
      match c with
      | CZero t => zero_arg t
      | CLeaf a | CForeign a => Ok a
      | CArray t n p => let! l := read_list (arg_of_cell fuel' blocks) blocks n p in Ok (ArgArray t l)
      | CTuple n p => let! l := read_list (arg_of_cell fuel' blocks) blocks n p in Ok (ArgTuple l)
      | CPair p q =>
          let! x := read_one (arg_of_cell fuel' blocks) blocks p in
          let! y := read_one (arg_of_cell fuel' blocks) blocks q in Ok (ArgPair x y)
      end
  end.

(** ** Value builders *)

Definition valbuilder_is_valid (vb : dicey_value_builder) : bool := bool_decide (is_Some (vb_root vb)).

Definition arglist_grow (l : value_builder_list) : bst (option value_builder_list) :=
  let new_cap := if vl_cap l =? 0 then DEFAULT_VAL_CAP else u64 (vl_cap l * 3) / 2 in
  do! old <- match vl_elems l with Some p => block_read p | None => sret [] end ;
  do! p <- balloc (old ++ replicate (Z.to_nat new_cap - length old) (CZero DICEY_TYPE_INVALID)) ;
  match p with
  | None => sret None
  | Some p =>
      match vl_elems l with Some old => bfree old | None => sret tt end ;;!
      sret (Some (mk_vlist (vl_type l) (vl_nitems l) new_cap (Some p)))
  end.

Definition valbuilder_list_start (v : nat) (list_kind : builder_state) (type : dicey_type) : bst unit :=
  do! vb <- get_val v ;
  sassert (valbuilder_is_valid vb) ;;!
  if negb (bool_decide (vb_state vb = BUILDER_STATE_PENDING)) then sfail DICEY_EINVAL else
  sassert (if decide (list_kind = BUILDER_STATE_ARRAY) then dicey_type_is_valid type else true) ;;!
  put_val v (mk_vb list_kind (vb_root vb)
    (mk_vlist (if decide (list_kind = BUILDER_STATE_ARRAY) then type else DICEY_TYPE_INVALID) 0 0 None)).

Definition dicey_value_builder_array_start (v : nat) (type : dicey_type) : bst unit :=
  valbuilder_list_start v BUILDER_STATE_ARRAY type.

Definition dicey_value_builder_tuple_start (v : nat) : bst unit :=
  valbuilder_list_start v BUILDER_STATE_TUPLE DICEY_TYPE_INVALID.

Definition dicey_value_builder_pair_start (v : nat) : bst unit :=
  valbuilder_list_start v BUILDER_STATE_PAIR DICEY_TYPE_INVALID.

(** The end of an array or a tuple: [wrap] makes the root from the list. *)
Definition list_end (v : nat) (kind : builder_state) (wrap : value_builder_list -> cell) : bst unit :=
  do! vb <- get_val v ;
  sassert (valbuilder_is_valid vb) ;;!
  if negb (bool_decide (vb_state vb = kind)) then sfail DICEY_EINVAL else
  let l := vb_list vb in
  sassert ((vl_nitems l =? 0) || bool_decide (is_Some (vl_elems l))) ;;!
  match vb_root vb with
  | None => sfault NullDeref
  | Some root => cell_write root (wrap l) ;;! put_val v zero_vb
  end.

Definition dicey_value_builder_array_end (v : nat) : bst unit :=
  list_end v BUILDER_STATE_ARRAY (fun l => CArray (vl_type l) (vl_nitems l) (vl_elems l)).

Definition dicey_value_builder_tuple_end (v : nat) : bst unit :=
  list_end v BUILDER_STATE_TUPLE (fun l => CTuple (vl_nitems l) (vl_elems l)).

Definition dicey_value_builder_pair_end (v : nat) : bst unit :=
  do! vb <- get_val v ;
  sassert (valbuilder_is_valid vb) ;;!
  if negb (bool_decide (vb_state vb = BUILDER_STATE_PAIR)) then sfail DICEY_EINVAL else
  let l := vb_list vb in
  sassert (vl_nitems l <=? 2) ;;!
  if negb (vl_nitems l =? 2) then sfail DICEY_EAGAIN else
  match vl_elems l, vb_root vb with
  | Some p, Some root =>
      do! first <- dicey_arg_move (p, 0%nat) ;
      do! second <- dicey_arg_move (p, 1%nat) ;
      bfree p ;;!
      match first, second with
      | Some _, Some _ => cell_write root (CPair first second) ;;! put_val v zero_vb
      | _, _ => dicey_arg_free first ;;! dicey_arg_free second ;;! sfail DICEY_ENOMEM
      end
  | _, _ => sfault AssertFailed
  end.

(** The result of [arglist_grow] is not looked at. *)
Definition dicey_value_builder_next (v elem : nat) : bst unit :=
  do! vb <- get_val v ;
  sassert (valbuilder_is_valid vb) ;;!
  let l := vb_list vb in
  match vb_state vb with
  | BUILDER_STATE_ARRAY | BUILDER_STATE_TUPLE => sret tt
  | BUILDER_STATE_PAIR => if 2 <=? vl_nitems l then sfail DICEY_EOVERFLOW else sret tt
  | _ => sfail DICEY_EINVAL
  end ;;!
  do! grown <- (if vl_cap l <=? vl_nitems l then arglist_grow l else sret None) ;
  let l := default l grown in
  sassert (vl_nitems l <=? vl_cap l) ;;!
  match vl_elems l with
  | None => sfault NullDeref
  | Some p =>
      let i := Z.to_nat (vl_nitems l) in
      put_val v (mk_vb (vb_state vb) (vb_root vb) (mk_vlist (vl_type l) (u16 (vl_nitems l + 1)) (vl_cap l) (vl_elems l))) ;;!
      cell_write (p, i) (CZero (if decide (vb_state vb = BUILDER_STATE_ARRAY) then vl_type l else DICEY_TYPE_INVALID)) ;;!
      put_val elem (mk_vb BUILDER_STATE_PENDING (Some (p, i)) zero_vlist)
  end.

Definition dicey_value_builder_set (v : nat) (value : dicey_arg) : bst unit :=
  do! vb <- get_val v ;
  sassert (valbuilder_is_valid vb) ;;!
  if negb (bool_decide (vb_state vb = BUILDER_STATE_PENDING)) then sfail DICEY_EINVAL else
  if negb (dicey_type_is_valid (arg_type value)) then sfail DICEY_EINVAL else
  match vb_root vb with
  | None => sfault NullDeref
  | Some root =>
      do! c <- cell_read root ;
      if dicey_type_is_valid (cell_type c) && negb (bool_decide (cell_type c = arg_type value))
      then sfail DICEY_EVALUE_TYPE_MISMATCH else
      free_contents c ;;!
      do! ok <- dicey_arg_dup root value ;
      if negb ok then sfail DICEY_ENOMEM else
      put_val v (mk_vb BUILDER_STATE_IDLE (vb_root vb) (vb_list vb))
  end.

Definition dicey_value_builder_is_list (v : nat) : bst bool :=
  do! vb <- get_val v ;
  sassert (valbuilder_is_valid vb) ;;!
  sret (match vb_state vb with BUILDER_STATE_ARRAY | BUILDER_STATE_PAIR | BUILDER_STATE_TUPLE => true | _ => false end).

Definition dicey_value_builder_is_pending (v : nat) : bst bool :=
  do! vb <- get_val v ; sret (negb (bool_decide (vb_state vb = BUILDER_STATE_IDLE))).

(** ** The message builder *)

Definition msgbuilder_is_complete (m : dicey_message_builder) : bool :=
  bool_decide (mb_state m = BUILDER_STATE_PENDING) && bool_decide (is_Some (mb_path m)) &&
  dicey_selector_is_valid (mb_selector m) && dicey_op_is_valid (mb_type m) &&
  negb (eqb (bool_decide (mb_type m = DICEY_OP_GET)) (bool_decide (is_Some (mb_root m)))).

Definition dicey_message_builder_init : bst unit := put_msg zero_mb.

Definition dicey_message_builder_begin (op : dicey_op) : bst unit :=
  do! s <- sget ;
  if negb (bool_decide (mb_state (bs_msg s) = BUILDER_STATE_IDLE)) then sfail DICEY_EINVAL else
  put_msg (mk_mb BUILDER_STATE_PENDING op 0 None (mk_selector None None) None None).

Definition dicey_message_builder_is_pending : bst bool :=
  do! s <- sget ; sret (negb (bool_decide (mb_state (bs_msg s) = BUILDER_STATE_IDLE))).

(** Setting a field of a pending builder. *)
Definition when_pending (f : dicey_message_builder -> dicey_message_builder) : bst unit :=
  do! s <- sget ;
  if negb (bool_decide (mb_state (bs_msg s) = BUILDER_STATE_PENDING)) then sfail DICEY_EINVAL else
  put_msg (f (bs_msg s)).

Definition dicey_message_builder_set_path (path : cstr) : bst unit :=
  when_pending (fun m => mk_mb (mb_state m) (mb_type m) (mb_seq m) (Some path) (mb_selector m) (mb_root m) (mb_borrowed_to m)).

Definition dicey_message_builder_set_selector (selector : dicey_selector) : bst unit :=
  sassert (dicey_selector_is_valid selector) ;;!
  when_pending (fun m => mk_mb (mb_state m) (mb_type m) (mb_seq m) (mb_path m) selector (mb_root m) (mb_borrowed_to m)).

Definition dicey_message_builder_set_seq (seq : Z) : bst unit :=
  when_pending (fun m => mk_mb (mb_state m) (mb_type m) (u32 seq) (mb_path m) (mb_selector m) (mb_root m) (mb_borrowed_to m)).

Definition with_state (m : dicey_message_builder) (st : builder_state) (root borrowed : option nat) : dicey_message_builder :=
  mk_mb st (mb_type m) (mb_seq m) (mb_path m) (mb_selector m) root borrowed.

(** The state changes before the root is allocated. *)
Definition dicey_message_builder_value_start (v : nat) : bst unit :=
  do! s <- sget ;
  let m := bs_msg s in
  if negb (bool_decide (mb_state m = BUILDER_STATE_PENDING)) then sfail DICEY_EINVAL else
  put_msg (with_state m BUILDER_STATE_VALUE (mb_root m) (mb_borrowed_to m)) ;;!
  do! root <- balloc [CZero DICEY_TYPE_INVALID] ;
  match root with
  | None => sfail DICEY_ENOMEM
  | Some root =>
      dicey_arg_free (mb_root m) ;;!
      put_msg (with_state m BUILDER_STATE_VALUE (Some root) (Some v)) ;;!
      put_val v (mk_vb BUILDER_STATE_PENDING (Some (root, 0%nat)) zero_vlist)
  end.

Definition dicey_message_builder_value_end (v : nat) : bst unit :=
  do! s <- sget ;
  let m := bs_msg s in
  if negb (bool_decide (mb_state m = BUILDER_STATE_VALUE)) then sfail DICEY_EINVAL else
  if negb (bool_decide (mb_borrowed_to m = Some v)) then sfail DICEY_EINVAL else
  put_val v zero_vb ;;!
  put_msg (with_state m BUILDER_STATE_PENDING (mb_root m) None).

Definition dicey_message_builder_discard : bst unit :=
  do! s <- sget ;
  match mb_borrowed_to (bs_msg s) with
  | Some v => do! vb <- get_val v ; dicey_arg_free_list (vl_elems (vb_list vb)) (vl_nitems (vb_list vb))
  | None => sret tt
  end ;;!
  dicey_arg_free (mb_root (bs_msg s)) ;;!
  put_msg zero_mb.

(** The local value builder of the source is at a new address. *)
Definition dicey_message_builder_set_value (value : dicey_arg) : bst unit :=
  do! s <- sget ;
  if negb (bool_decide (mb_state (bs_msg s) = BUILDER_STATE_PENDING)) then sfail DICEY_EINVAL else
  let v := bs_next s in
  dicey_message_builder_value_start v ;;!
  (fun s1 =>
     let '(r, s2) := dicey_value_builder_set v value s1 in
     match r with
     | Ok _ => dicey_message_builder_value_end v s2
     | Err e =>
         match dicey_message_builder_value_end v s2 with
         | (Ok _, s3) | (Err _, s3) => (Err e, s3)
         | (Fault f, s3) => (Fault f, s3)
         | (OutOfFuel, s3) => (OutOfFuel, s3)
         end
     | Fault f => (Fault f, s2)
     | OutOfFuel => (OutOfFuel, s2)
     end).

Definition root_arg (s : bstate) : res (option dicey_arg) :=
  match mb_root (bs_msg s) with
  | None => Ok None
  | Some p => let! a := read_one (arg_of_cell (free_fuel s) (bs_blocks s)) (bs_blocks s) (Some p) in Ok (Some a)
  end.

Definition dicey_message_builder_build : bst dicey_packet :=
  do! s <- sget ;
  let m := bs_msg s in
  if negb (bool_decide (mb_state m = BUILDER_STATE_PENDING)) then sfail DICEY_EINVAL else
  if negb (msgbuilder_is_complete m) then sfail DICEY_EAGAIN else
  do! value <- slift (root_arg s) ;
  do! (r, block) <- slift (dtf_message_write calloc_ok DICEY_NULL [] (dtf_of_op (mb_type m)) (mb_seq m) (mb_path m) (mb_selector m) value) ;
  do! packet <- slift (packet_of_result r block) ;
  dicey_message_builder_discard ;;! sret packet.

(** [dicey_packet_message]: the steps, and the clean-up at the first error. *)
Definition packet_message_steps (seq : Z) (op : dicey_op) (path : cstr) (selector : dicey_selector) (value : option dicey_arg)
    : bst dicey_packet :=
  dicey_message_builder_begin op ;;!
  dicey_message_builder_set_seq seq ;;!
  dicey_message_builder_set_path path ;;!
  dicey_message_builder_set_selector selector ;;!
  (if bool_decide (op = DICEY_OP_GET) then sret tt
   else match value with Some a => dicey_message_builder_set_value a | None => sret tt end) ;;!
  dicey_message_builder_build.

(** The [fail] label: an error discards the builder. *)
Definition clean_up {A} (m : bst A) : bst A := fun s =>
  let '(r, s1) := m s in
  match r with
  | Err e =>
      match dicey_message_builder_discard s1 with
      | (Ok _, s2) => (Err e, s2)
      | (Err e', s2) => (Err e', s2)
      | (Fault f, s2) => (Fault f, s2)
      | (OutOfFuel, s2) => (OutOfFuel, s2)
      end
  | r => (r, s1)
  end.

(** A value of type [DICEY_TYPE_INVALID] is [None]. *)
Definition dicey_packet_message (seq : Z) (op : dicey_op) (path : cstr) (selector : dicey_selector) (value : option dicey_arg)
    : bst dicey_packet :=
  sassert (dicey_selector_is_valid selector && negb (eqb (bool_decide (op = DICEY_OP_GET)) (bool_decide (is_Some value)))) ;;!
  dicey_message_builder_init ;;!
  clean_up (packet_message_steps seq op path selector value).

End builders.
