(* ===== verification/BuildersTheorems.v ===== *)
(** * Builders: the trees they own, and what they build

    A cell of the heap represents an argument tree together with the blocks it owns. Copies,
    reads, releases and moves of such trees are described by these footprints; the theorems say
    that a message built from a value, or from any sequence of builder calls that describes a
    tree, is the encoding of that tree, and that no block is left behind. *)

From S2P Require Import Prelude Errors Moves Types Views Writer ValueWrite ValueProbe Value Codec Payload Packet Builders.
From stdpp Require Import gmap list.

#[local] Open Scope Z_scope.

Definition with_blocks (s : bstate) (b : gmap nat (list cell)) : bstate := mk_bstate (bs_msg s) (bs_vals s) b (bs_next s).

Definition is_leaf (a : dicey_arg) : Prop :=
  match a with ArgArray _ _ | ArgTuple _ | ArgPair _ _ => False | _ => True end.

(** [rep B c a]: the cell holds the tree [a] and owns exactly the blocks [B]. A list may have
    spare room at the end of its block. *)
Inductive rep : gmap nat (list cell) -> cell -> dicey_arg -> Prop :=
  | rep_leaf a : is_leaf a -> rep ∅ (CLeaf a) a
  | rep_array t p cells spare l B :
      rep_list B cells l -> B !! p = None ->
      rep (<[p := cells ++ spare]> B) (CArray t (zlen l) (Some p)) (ArgArray t l)
  | rep_array_nil t : rep ∅ (CArray t 0 None) (ArgArray t [])
  | rep_tuple p cells spare l B :
      rep_list B cells l -> B !! p = None ->
      rep (<[p := cells ++ spare]> B) (CTuple (zlen l) (Some p)) (ArgTuple l)
  | rep_tuple_nil : rep ∅ (CTuple 0 None) (ArgTuple [])
  | rep_pair p q c d x y B1 B2 :
      rep B1 c x -> rep B2 d y -> B1 !! p = None -> B2 !! q = None -> <[p := [c]]> B1 ##ₘ <[q := [d]]> B2 ->
      rep (<[p := [c]]> B1 ∪ <[q := [d]]> B2) (CPair (Some p) (Some q)) (ArgPair x y)
with rep_list : gmap nat (list cell) -> list cell -> list dicey_arg -> Prop :=
  | rep_nil : rep_list ∅ [] []
  | rep_cons c cs a l B1 B2 :
      rep B1 c a -> rep_list B2 cs l -> B1 ##ₘ B2 -> rep_list (B1 ∪ B2) (c :: cs) (a :: l).

Scheme rep_mut := Minimality for rep Sort Prop
  with rep_list_mut := Minimality for rep_list Sort Prop.
Combined Scheme rep_rep_list_ind from rep_mut, rep_list_mut.

#[export] Hint Constructors rep rep_list : dicey.

Lemma rep_list_length B cs l : rep_list B cs l -> length cs = length l.
Proof. induction 1; simpl; auto. Qed.

Lemma rep_list_snoc B1 B2 cs l c a :
  rep_list B1 cs l -> rep B2 c a -> B1 ##ₘ B2 -> rep_list (B1 ∪ B2) (cs ++ [c]) (l ++ [a]).
Proof.
  intros H Hc. induction H as [|c0 cs a0 l Ba Bb H0 Hl IH Hd]; intros Hdis; cbn.
  - rewrite (left_id_L ∅ (∪)). rewrite <- (right_id_L ∅ (∪) B2). eapply rep_cons; [done|constructor|apply map_disjoint_empty_r].
  - apply map_disjoint_union_l in Hdis as [Hda Hdb]. rewrite <- (assoc_L (∪)).
    apply rep_cons; [done|by apply IH|]. by apply map_disjoint_union_r_2.
Qed.

Lemma take_cells {A} (cs spare : list A) n : n = zlen cs -> take (Z.to_nat n) (cs ++ spare) = cs.
Proof. intros ->. unfold zlen. rewrite Nat2Z.id. apply take_app_length. Qed.

Lemma rep_list_zlen B cs l : rep_list B cs l -> zlen l = zlen cs.
Proof. intros H. unfold zlen. by rewrite (rep_list_length _ _ _ H). Qed.

(** ** Heap steps *)

Section steps.
Context (s : bstate) (F : gmap nat (list cell)).

Lemma with_blocks_eq b : bs_blocks s = b -> with_blocks s b = s.
Proof. intros <-. by destruct s. Qed.

Lemma block_read_at b cells : bs_blocks s !! b = Some cells -> block_read b s = (Ok cells, s).
Proof. intros H. unfold block_read. by rewrite H. Qed.

Lemma cell_read_at b i cells c :
  bs_blocks s !! b = Some cells -> cells !! i = Some c -> cell_read (b, i) s = (Ok c, s).
Proof. intros H Hi. unfold cell_read. srw (block_read_at _ _ H). cbn [fst snd]. by rewrite Hi. Qed.

Lemma cell_write_at b i cells c :
  bs_blocks s !! b = Some cells -> (i < length cells)%nat ->
  cell_write (b, i) c s = (Ok tt, with_blocks s (<[b := <[i := c]> cells]> (bs_blocks s))).
Proof.
  intros H Hi. unfold cell_write. srw (block_read_at _ _ H). cbn [fst snd].
  destruct (lookup_lt_is_Some_2 cells i Hi) as [c0 ->]. done.
Qed.

Lemma bfree_at b cells : bs_blocks s = <[b := cells]> F -> F !! b = None -> bfree b s = (Ok tt, with_blocks s F).
Proof.
  intros H HF. unfold bfree. cbn [sbind sget]. rewrite H, lookup_insert_eq. unfold put_blocks, with_blocks.
  by rewrite delete_insert_id.
Qed.

Lemma bfree_delete b : is_Some (bs_blocks s !! b) -> bfree b s = (Ok tt, with_blocks s (delete b (bs_blocks s))).
Proof. intros [cells H]. unfold bfree. cbn [sbind sget]. by rewrite H. Qed.

End steps.

(** ** Releasing and reading a tree *)

Lemma union_block_l (p : nat) (v : list cell) (B F : gmap nat (list cell)) :
  <[p := v]> B ##ₘ F -> B !! p = None -> <[p := v]> B ∪ F = B ∪ <[p := v]> F /\ B ##ₘ <[p := v]> F /\ F !! p = None.
Proof.
  intros Hd Hp. apply map_disjoint_insert_l in Hd as [HF Hd]. split_and!; [|by apply map_disjoint_insert_r|done].
  rewrite <- insert_union_l, <- insert_union_r by done. done.
Qed.

Definition frees (B : gmap nat (list cell)) (step : nat -> bst unit) : Prop :=
  forall fuel F s, (size B < fuel)%nat -> B ##ₘ F -> bs_blocks s = B ∪ F -> step fuel s = (Ok tt, with_blocks s F).

Lemma frees_nothing step : (forall fuel, (0 < fuel)%nat -> step fuel = sret tt) -> frees ∅ step.
Proof.
  intros H fuel F s Hf _ Hb. rewrite map_size_empty in Hf. rewrite H by lia.
  rewrite (left_id_L ∅ (∪)) in Hb. by rewrite with_blocks_eq.
Qed.

Lemma frees_list B p cells spare l (step : nat -> bst unit) :
  rep_list B cells l -> B !! p = None -> frees B (fun fuel => each_cell (dicey_arg_free_contents fuel) cells) ->
  (forall fuel, step (S fuel) = (do! cells <- block_read p ;
     each_cell (dicey_arg_free_contents fuel) (take (Z.to_nat (zlen l)) cells) ;;! bfree p)) ->
  frees (<[p := cells ++ spare]> B) step.
Proof.
  intros Hl Hp IH Hstep fuel F s Hf Hd Hb. rewrite map_size_insert_None in Hf by done.
  destruct fuel as [|fuel]; [lia|]. destruct (union_block_l p (cells ++ spare) B F Hd Hp) as (Hu & Hd' & HF).
  rewrite Hstep. rewrite Hu in Hb.
  srw (block_read_at s p (cells ++ spare) ltac:(rewrite Hb, lookup_union_r by done; apply lookup_insert_eq)).
  rewrite take_cells by (by apply (rep_list_zlen B)).
  srw (IH fuel _ s ltac:(lia) Hd' Hb). by rewrite (bfree_at _ F p (cells ++ spare)).
Qed.

Lemma frees_one B p c (F : gmap nat (list cell)) fuel s :
  frees B (fun fuel => dicey_arg_free_contents fuel c) -> B !! p = None -> (size B < fuel)%nat ->
  <[p := [c]]> B ##ₘ F -> bs_blocks s = <[p := [c]]> B ∪ F ->
  free_with (dicey_arg_free_contents fuel) (Some p) s = (Ok tt, with_blocks s F).
Proof.
  intros IH Hp Hf Hd Hb. destruct (union_block_l p [c] B F Hd Hp) as (Hu & Hd' & HF). rewrite Hu in Hb. cbn.
  srw (cell_read_at s p 0 [c] c ltac:(rewrite Hb, lookup_union_r by done; apply lookup_insert_eq) eq_refl).
  srw (IH fuel _ s Hf Hd' Hb). by rewrite (bfree_at _ F p [c]).
Qed.

Lemma free_contents_frees :
  (forall B c a, rep B c a -> frees B (fun fuel => dicey_arg_free_contents fuel c)) /\
  (forall B cs l, rep_list B cs l -> frees B (fun fuel => each_cell (dicey_arg_free_contents fuel) cs)).
Proof.
  apply rep_rep_list_ind.
  - intros a Ha. apply frees_nothing. intros [|fuel] ?; [lia|done].
  - intros t p cells spare l B Hl IH Hp. by eapply frees_list.
  - intros t. apply frees_nothing. intros [|fuel] ?; [lia|done].
  - intros p cells spare l B Hl IH Hp. by eapply frees_list.
  - apply frees_nothing. intros [|fuel] ?; [lia|done].
  - intros p q c d x y B1 B2 _ IH1 _ IH2 Hp Hq Hd fuel F s Hf Hdis Hb.
    apply map_disjoint_union_l in Hdis as [Hd1 Hd2]. rewrite map_size_disj_union in Hf by done.
    rewrite !map_size_insert_None in Hf by done. destruct fuel as [|fuel]; [lia|]. cbn [dicey_arg_free_contents dicey_arg_get_list].
    srw (frees_one B1 p c (<[q := [d]]> B2 ∪ F) fuel s IH1 Hp ltac:(lia) ltac:(by apply map_disjoint_union_r_2)
      ltac:(by rewrite (assoc_L (∪)))).
    rewrite (frees_one B2 q d F fuel); [done|done|done|lia|done..].
  - apply frees_nothing. intros fuel ?. done.
  - intros c cs a l B1 B2 _ IH1 _ IH2 Hd fuel F s Hf Hdis Hb.
    apply map_disjoint_union_l in Hdis as [Hd1 Hd2]. rewrite map_size_disj_union in Hf by done. cbn.
    srw (IH1 fuel (B2 ∪ F) s ltac:(lia) ltac:(by apply map_disjoint_union_r_2) ltac:(by rewrite (assoc_L (∪)))).
    rewrite (IH2 fuel F); [done|lia|done..].
Qed.

(** The encoder reads back the tree. *)
Definition reads (B : gmap nat (list cell)) {A} (f : nat -> gmap nat (list cell) -> res A) (a : A) : Prop :=
  forall fuel blocks, (size B < fuel)%nat -> B ⊆ blocks -> f fuel blocks = Ok a.

Lemma reads_list B p cells spare l :
  rep_list B cells l -> B !! p = None -> reads B (fun fuel blocks => read_cells (arg_of_cell fuel blocks) cells) l ->
  forall fuel blocks, (size B < fuel)%nat -> <[p := cells ++ spare]> B ⊆ blocks ->
  read_list (arg_of_cell fuel blocks) blocks (zlen l) (Some p) = Ok l.
Proof.
  intros Hl Hp IH fuel blocks Hf Hs. unfold read_list. pose proof (rep_list_zlen _ _ _ Hl) as Hz.
  rewrite (lookup_weaken _ _ p _ (lookup_insert_eq B p _) Hs).
  destruct (Z.eqb_spec (zlen l) 0); [by rewrite (zlen_0_nil l)|].
  destruct (Z.ltb_spec (zlen (cells ++ spare)) (zlen l)) as [Hlt|_].
  - rewrite zlen_app in Hlt. pose proof (zlen_nonneg spare). lia.
  - rewrite take_cells by done. apply IH; [done|]. etrans; [|exact Hs]. by apply insert_subseteq.
Qed.

Lemma reads_one B p c x :
  reads B (fun fuel blocks => arg_of_cell fuel blocks c) x -> B !! p = None ->
  forall fuel blocks, (size B < fuel)%nat -> <[p := [c]]> B ⊆ blocks ->
  read_one (arg_of_cell fuel blocks) blocks (Some p) = Ok x.
Proof.
  intros IH Hp fuel blocks Hf Hs. unfold read_one. rewrite (lookup_weaken _ _ p _ (lookup_insert_eq B p _) Hs).
  apply IH; [done|]. etrans; [|exact Hs]. by apply insert_subseteq.
Qed.

Lemma arg_of_cell_reads :
  (forall B c a, rep B c a -> reads B (fun fuel blocks => arg_of_cell fuel blocks c) a) /\
  (forall B cs l, rep_list B cs l -> reads B (fun fuel blocks => read_cells (arg_of_cell fuel blocks) cs) l).
Proof.
  apply rep_rep_list_ind.
  - intros a Ha [|fuel] blocks Hf _; [lia|done].
  - intros t p cells spare l B Hl IH Hp [|fuel] blocks Hf Hs; [lia|]. rewrite map_size_insert_None in Hf by done. cbn [arg_of_cell].
    by rewrite (reads_list B p cells spare l Hl Hp IH fuel blocks ltac:(lia) Hs).
  - intros t [|fuel] blocks Hf _; [lia|done].
  - intros p cells spare l B Hl IH Hp [|fuel] blocks Hf Hs; [lia|]. rewrite map_size_insert_None in Hf by done. cbn [arg_of_cell].
    by rewrite (reads_list B p cells spare l Hl Hp IH fuel blocks ltac:(lia) Hs).
  - intros [|fuel] blocks Hf _; [lia|done].
  - intros p q c d x y B1 B2 _ IH1 _ IH2 Hp Hq Hd [|fuel] blocks Hf Hs; [lia|].
    rewrite map_size_disj_union in Hf by done. rewrite !map_size_insert_None in Hf by done. cbn [arg_of_cell].
    rewrite (reads_one B1 p c x IH1 Hp fuel blocks ltac:(lia) ltac:(etrans; [apply map_union_subseteq_l|exact Hs])).
    by rewrite (reads_one B2 q d y IH2 Hq fuel blocks ltac:(lia) ltac:(etrans; [by apply map_union_subseteq_r|exact Hs])).
  - intros fuel blocks _ _. done.
  - intros c cs a l B1 B2 _ IH1 _ IH2 Hd fuel blocks Hf Hs. rewrite map_size_disj_union in Hf by done. cbn [read_cells].
    rewrite (IH1 fuel blocks ltac:(lia)) by (etrans; [apply map_union_subseteq_l|exact Hs]). cbn [obind].
    rewrite (IH2 fuel blocks ltac:(lia)) by (etrans; [by apply map_union_subseteq_r|exact Hs]). done.
Qed.

(** ** Allocation and copies *)

(** Blocks get increasing addresses. *)
Definition fresh (s : bstate) : Prop := forall k, is_Some (bs_blocks s !! k) -> (k < bs_next s)%nat.
Definition in_range (B : gmap nat (list cell)) (lo hi : nat) : Prop := forall k, is_Some (B !! k) -> (lo <= k < hi)%nat.

Lemma fresh_None s k : fresh s -> (bs_next s <= k)%nat -> bs_blocks s !! k = None.
Proof. intros H Hk. destruct (bs_blocks s !! k) eqn:E; [|done]. specialize (H k ltac:(by eexists)). lia. Qed.

Lemma range_None B lo hi k : in_range B lo hi -> (k < lo)%nat \/ (hi <= k)%nat -> B !! k = None.
Proof. intros H Hk. destruct (B !! k) eqn:E; [|done]. specialize (H k ltac:(by eexists)). lia. Qed.

Lemma range_empty lo hi : in_range ∅ lo hi.
Proof. intros k [? H]. by rewrite lookup_empty in H. Qed.

Lemma range_union B1 B2 lo hi : in_range B1 lo hi -> in_range B2 lo hi -> in_range (B1 ∪ B2) lo hi.
Proof. intros H1 H2 k [x Hx]. apply lookup_union_Some_raw in Hx as [?|[_ ?]]; [apply H1|apply H2]; by eexists. Qed.

Lemma range_insert B p v lo hi : in_range B lo hi -> (lo <= p < hi)%nat -> in_range (<[p := v]> B) lo hi.
Proof. intros H Hp k [x Hx]. apply lookup_insert_Some in Hx as [[-> _]|[_ ?]]; [done|apply H; by eexists]. Qed.

Lemma range_weaken B lo hi lo' hi' : in_range B lo hi -> (lo' <= lo)%nat -> (hi <= hi')%nat -> in_range B lo' hi'.
Proof. intros H ?? k Hk. specialize (H k Hk). lia. Qed.

Lemma range_disjoint B1 B2 lo mid hi : in_range B1 lo mid -> in_range B2 mid hi -> B1 ##ₘ B2.
Proof.
  intros H1 H2. apply map_disjoint_spec. intros k x y Hx Hy.
  specialize (H1 k ltac:(by eexists)). specialize (H2 k ltac:(by eexists)). lia.
Qed.

#[export] Hint Resolve range_empty range_union range_insert : dicey.

Section copies.
Context (alloc_ok : nat -> bool) (Hmem : forall n, alloc_ok n = true).

Lemma balloc_at s cells :
  balloc alloc_ok cells s =
  (Ok (Some (bs_next s)), mk_bstate (bs_msg s) (bs_vals s) (<[bs_next s := cells]> (bs_blocks s)) (S (bs_next s))).
Proof. unfold balloc. by rewrite Hmem. Qed.

(** What a step that fills a cell with a tree does to the heap. *)
Definition fills (s : bstate) (b i : nat) (cells : list cell) (a : dicey_arg) (m : bst bool) : Prop :=
  exists c B n, m s = (Ok true, mk_bstate (bs_msg s) (bs_vals s) (<[b := <[i := c]> cells]> (bs_blocks s) ∪ B) n) /\
    rep B c a /\ in_range B (bs_next s) n /\ (bs_next s <= n)%nat.

Lemma fresh_filled s b cells B n :
  fresh s -> in_range B (bs_next s) n -> is_Some (bs_blocks s !! b) -> (bs_next s <= n)%nat ->
  fresh (mk_bstate (bs_msg s) (bs_vals s) (<[b := cells]> (bs_blocks s) ∪ B) n).
Proof.
  intros Hf Hr Hb Hn k [x Hx]. cbn in *. apply lookup_union_Some_raw in Hx as [Hx|[_ Hx]].
  - apply lookup_insert_Some in Hx as [[<- _]|[_ Hx]]; [specialize (Hf b Hb)|specialize (Hf k ltac:(by eexists))]; lia.
  - specialize (Hr k ltac:(by eexists)). lia.
Qed.

Lemma insert_insert_union (M B1 B2 : gmap nat (list cell)) b u v :
  <[b := u]> (<[b := v]> M ∪ B1) ∪ B2 = <[b := u]> M ∪ (B1 ∪ B2).
Proof. by rewrite insert_union_l, insert_insert_eq, (assoc_L (∪)). Qed.

Lemma insert_middle_cell (pre rest : list cell) r c : <[length pre := c]> (pre ++ r :: rest) = (pre ++ [c]) ++ rest.
Proof. by rewrite <- (Nat.add_0_r (length pre)), insert_app_r, <- (assoc_L (++)). Qed.

Lemma dup_cells_ok l : Forall (fun a => forall s b i cells, fresh s -> bs_blocks s !! b = Some cells -> (i < length cells)%nat ->
    fills s b i cells a (dicey_arg_dup alloc_ok (b, i) a)) l ->
  forall s p pre rest, fresh s -> bs_blocks s !! p = Some (pre ++ rest) -> length rest = length l ->
  exists cs B n, dup_cells (dicey_arg_dup alloc_ok) p (length pre) l s =
      (Ok true, mk_bstate (bs_msg s) (bs_vals s) (<[p := pre ++ cs]> (bs_blocks s) ∪ B) n) /\
    rep_list B cs l /\ in_range B (bs_next s) n /\ (bs_next s <= n)%nat.
Proof.
  induction 1 as [|a l Ha _ IH]; intros s p pre rest Hf Hp Hlen.
  - destruct rest; [|done]. exists [], ∅, (bs_next s). split_and!; auto with dicey. cbn.
    rewrite insert_id by done. rewrite (right_id_L ∅ (∪)). by destruct s.
  - destruct rest as [|r rest]; [done|]. cbn in Hlen.
    destruct (Ha s p (length pre) (pre ++ r :: rest)) as (c & B & n & E & Hrep & Hr & Hn); [done|done|rewrite length_app; cbn; lia|].
    cbn [dup_cells]. srw E. rewrite insert_middle_cell. set (s1 := mk_bstate _ _ _ _).
    assert (fresh s1) as Hf1 by (apply fresh_filled; [done|done|by eexists|done]).
    assert (bs_blocks s1 !! p = Some ((pre ++ [c]) ++ rest)) as Hp1.
    { cbn. apply lookup_union_Some_l, lookup_insert_eq. }
    destruct (IH s1 p (pre ++ [c]) rest Hf1 Hp1 ltac:(lia)) as (cs & B2 & n2 & E2 & Hrep2 & Hr2 & Hn2).
    rewrite length_app, Nat.add_1_r in E2. rewrite E2. cbn in Hr2, Hn2 |- *.
    exists (c :: cs), (B ∪ B2), n2. rewrite insert_insert_union, <- (assoc_L (++)). split_and!; [done| | |lia].
    + constructor; [done|done|by eapply range_disjoint].
    + apply range_union; eapply range_weaken; eauto; lia.
Qed.

Lemma stored_list_blocks (M B : gmap nat (list cell)) b n u v cs r :
  b <> n -> M !! n = None ->
  <[b := u]> (<[n := cs]> (<[n := r]> (<[b := v]> M)) ∪ B) = <[b := u]> M ∪ <[n := cs]> B.
Proof.
  intros Hbn HM. apply map_eq. intros k. rewrite lookup_insert, !lookup_union, !lookup_insert.
  repeat case_decide; subst; rewrite ?HM; try done.
  - by destruct (B !! k).
  - by destruct (B !! k).
Qed.

Definition dup_fills (a : dicey_arg) : Prop :=
  forall s b i cells, fresh s -> bs_blocks s !! b = Some cells -> (i < length cells)%nat ->
    fills s b i cells a (dicey_arg_dup alloc_ok (b, i) a).

Lemma arglist_copy_fills l a wrap s b i cells c0 :
  Forall dup_fills l -> (forall p cs B, rep_list B cs l -> B !! p = None -> rep (<[p := cs]> B) (wrap p) a) ->
  fresh s -> bs_blocks s !! b = Some cells -> (i < length cells)%nat ->
  fills s b i cells a (cell_write (b, i) c0 ;;! arglist_copy alloc_ok (dicey_arg_dup alloc_ok) (b, i) l wrap).
Proof.
  intros Hl Hw Hf Hb Hi. assert (b < bs_next s)%nat by (apply Hf; by eexists).
  unfold fills. rewrite (sbind_Ok _ _ _ _ _ (cell_write_at s b i cells c0 Hb Hi)).
  unfold arglist_copy. srw (balloc_at _ _). cbn [with_blocks bs_next bs_blocks bs_msg bs_vals]. set (s1 := mk_bstate _ _ _ _).
  assert (fresh s1) as Hf1.
  { intros k [x Hx]. cbn in *. apply lookup_insert_Some in Hx as [[<- _]|[_ Hx]]; [lia|].
    apply lookup_insert_Some in Hx as [[<- _]|[_ Hx]]; [lia|]. specialize (Hf k ltac:(by eexists)). lia. }
  destruct (dup_cells_ok l Hl s1 (bs_next s) [] (replicate (length l) (CZero DICEY_TYPE_INVALID)))
    as (cs & B & n & E & Hrep & Hr & Hn); [done|apply lookup_insert_eq|apply length_replicate|].
  srw E. cbn in Hr, Hn |- *. set (s2 := mk_bstate _ _ _ _).
  assert (bs_blocks s2 !! b = Some (<[i := c0]> cells)) as Hb2.
  { cbn. apply lookup_union_Some_l. rewrite lookup_insert_ne by lia. rewrite lookup_insert_ne by lia. apply lookup_insert_eq. }
  srw (cell_write_at s2 b i (<[i := c0]> cells) (wrap (bs_next s)) Hb2 ltac:(by rewrite length_insert)).
  exists (wrap (bs_next s)), (<[bs_next s := cs]> B), n. cbn. unfold with_blocks. cbn. rewrite list_insert_insert_eq.
  rewrite stored_list_blocks by (lia || by apply fresh_None). split_and!; [done| | |lia].
  - apply Hw; [done|]. eapply range_None; [done|lia].
  - apply range_insert; [eapply range_weaken; [done|lia..]|lia].
Qed.

(** A copy in a block of its own. *)
Lemma dup_new_ok a s :
  dup_fills a -> fresh s ->
  exists c B n, dup_new alloc_ok (dicey_arg_dup alloc_ok) a s =
      (Ok (Some (bs_next s)), mk_bstate (bs_msg s) (bs_vals s) (bs_blocks s ∪ <[bs_next s := [c]]> B) n) /\
    rep B c a /\ B !! bs_next s = None /\ in_range (<[bs_next s := [c]]> B) (bs_next s) n /\ (bs_next s < n)%nat.
Proof.
  intros Ha Hf. unfold dup_new. srw (balloc_at _ _). set (s1 := mk_bstate _ _ _ _).
  assert (fresh s1) as Hf1.
  { intros k [x Hx]. cbn in *. apply lookup_insert_Some in Hx as [[<- _]|[_ Hx]]; [lia|]. specialize (Hf k ltac:(by eexists)). lia. }
  destruct (Ha s1 (bs_next s) 0%nat [CZero DICEY_TYPE_INVALID] Hf1 ltac:(apply lookup_insert_eq) ltac:(cbn; lia)) as (c & B & n & E & Hrep & Hr & Hn).
  srw E. cbn in Hr, Hn |- *. exists c, B, n. rewrite insert_insert_eq. split_and!; [|done| | |lia].
  - do 2 f_equal. rewrite <- insert_union_l, insert_union_r; [done|]. by apply fresh_None.
  - eapply range_None; [done|lia].
  - apply range_insert; [eapply range_weaken; [done|lia..]|lia].
Qed.

Lemma fresh_union s B n : fresh s -> in_range B (bs_next s) n -> (bs_next s <= n)%nat ->
  fresh (mk_bstate (bs_msg s) (bs_vals s) (bs_blocks s ∪ B) n).
Proof.
  intros Hf Hr Hn k [x Hx]. cbn in *. apply lookup_union_Some_raw in Hx as [Hx|[_ Hx]].
  - specialize (Hf k ltac:(by eexists)). lia.
  - specialize (Hr k ltac:(by eexists)). lia.
Qed.

Lemma fresh_write s b cells cells' : fresh s -> bs_blocks s !! b = Some cells -> fresh (with_blocks s (<[b := cells']> (bs_blocks s))).
Proof.
  intros Hf Hb k [x Hx]. cbn in *. apply lookup_insert_Some in Hx as [[<- _]|[_ Hx]]; apply Hf; by eexists.
Qed.

Lemma dup_fills_pair x y : dup_fills x -> dup_fills y -> dup_fills (ArgPair x y).
Proof.
  intros Hx Hy s b i cells Hf Hb Hi. assert (b < bs_next s)%nat by (apply Hf; by eexists).
  unfold fills. cbn [dicey_arg_dup].
  rewrite (sbind_Ok _ _ _ _ _ (cell_write_at s b i cells (CForeign (ArgPair x y)) Hb Hi)).
  set (s0 := with_blocks _ _). assert (fresh s0) as Hf0 by (by eapply fresh_write).
  destruct (dup_new_ok x s0 Hx Hf0) as (c & B & n & E & Hrep & Hp & Hr & Hn). srw E. cbn in E, Hp, Hr, Hn |- *.
  set (s1 := mk_bstate _ _ _ _). assert (fresh s1) as Hf1 by (apply (fresh_union s0); [done|done|cbn; lia]).
  destruct (dup_new_ok y s1 Hy Hf1) as (d & B2 & n2 & E2 & Hrep2 & Hp2 & Hr2 & Hn2). srw E2. cbn in E2, Hp2, Hr2, Hn2 |- *.
  set (s2 := mk_bstate _ _ _ _).
  assert (bs_blocks s2 !! b = Some (<[i := CForeign (ArgPair x y)]> cells)) as Hb2.
  { cbn. do 2 apply lookup_union_Some_l. apply lookup_insert_eq. }
  srw (cell_write_at s2 b i _ (CPair (Some (bs_next s)) (Some n)) Hb2 ltac:(by rewrite length_insert)).
  exists (CPair (Some (bs_next s)) (Some n)), (<[bs_next s := [c]]> B ∪ <[n := [d]]> B2), n2.
  unfold with_blocks. cbn. rewrite list_insert_insert_eq. split_and!; [| | |lia].
  - do 2 f_equal. by rewrite <- (assoc_L (∪)), insert_union_l, insert_insert_eq.
  - apply rep_pair; [done|done|done|done|]. by eapply range_disjoint.
  - apply range_union; eapply range_weaken; eauto; lia.
Qed.

Lemma dup_fills_leaf a : is_leaf a -> dup_fills a.
Proof.
  intros Ha s b i cells Hf Hb Hi. exists (CLeaf a), ∅, (bs_next s). rewrite (right_id_L ∅ (∪)).
  split_and!; [|by constructor|apply range_empty|done].
  destruct a; try done; cbn [dicey_arg_dup]; by srw (cell_write_at s b i cells _ Hb Hi).
Qed.

Lemma dicey_arg_dup_ok a : dup_fills a.
Proof.
  revert a. apply dicey_arg_ind'.
  - intros a. destruct a; try done; by apply dup_fills_leaf.
  - intros t l Hl s b i cells Hf Hb Hi. apply arglist_copy_fills; [done| |done..].
    intros p cs B Hr Hp. rewrite <- (right_id_L [] (++) cs). by constructor.
  - intros l Hl s b i cells Hf Hb Hi. apply arglist_copy_fills; [done| |done..].
    intros p cs B Hr Hp. rewrite <- (right_id_L [] (++) cs). by constructor.
  - intros x y Hx Hy. by apply dup_fills_pair.
Qed.

(** ** [dicey_packet_message] *)

Lemma map_size_union_l (B F : gmap nat (list cell)) : B ##ₘ F -> (size B < S (size (B ∪ F)))%nat.
Proof. intros H. rewrite map_size_disj_union by done. lia. Qed.

(** Releasing a root block and the tree in it. *)
Lemma dicey_arg_free_ok s p c a B F :
  rep B c a -> B !! p = None -> <[p := [c]]> B ##ₘ F -> bs_blocks s = <[p := [c]]> B ∪ F ->
  dicey_arg_free (Some p) s = (Ok tt, with_blocks s F).
Proof.
  intros Hrep Hp Hd Hb. unfold dicey_arg_free, free_with. destruct (union_block_l p [c] B F Hd Hp) as (Hu & Hd' & HF).
  rewrite Hu in Hb.
  srw (cell_read_at s p 0 [c] c ltac:(rewrite Hb, lookup_union_r by done; apply lookup_insert_eq) eq_refl).
  assert (free_contents c s = (Ok tt, with_blocks s (<[p := [c]]> F))) as E.
  { apply (proj1 free_contents_frees B c a Hrep); [|done|done]. unfold free_fuel. rewrite Hb. by apply map_size_union_l. }
  srw E. by rewrite (bfree_at _ F p [c]).
Qed.

(** The value of a message builder and the blocks it owns. *)
Definition owned_root (m : dicey_message_builder) (value : option dicey_arg) (B : gmap nat (list cell)) : Prop :=
  match mb_root m with
  | None => value = None /\ B = ∅
  | Some p => exists a c B0, value = Some a /\ rep B0 c a /\ B0 !! p = None /\ B = <[p := [c]]> B0
  end.

Definition written_packet (calloc_ok : Z -> bool) (op : dicey_op) (seq : Z) (path : option cstr) (selector : dicey_selector)
    (value : option dicey_arg) : res dicey_packet :=
  let! (r, block) := dtf_message_write calloc_ok DICEY_NULL [] (dtf_of_op op) seq path selector value in
  packet_of_result r block.

Lemma free_root_ok s value B F :
  owned_root (bs_msg s) value B -> B ##ₘ F -> bs_blocks s = B ∪ F ->
  dicey_arg_free (mb_root (bs_msg s)) s = (Ok tt, with_blocks s F).
Proof.
  unfold owned_root. destruct (mb_root (bs_msg s)) as [p|].
  - intros (a & c & B0 & -> & Hrep & Hp & ->) Hd Hb. by apply (dicey_arg_free_ok s p c a B0 F).
  - intros [-> ->] _ Hb. cbn. rewrite (left_id_L ∅ (∪)) in Hb. by rewrite with_blocks_eq.
Qed.

Lemma discard_ok s value B F :
  owned_root (bs_msg s) value B -> mb_borrowed_to (bs_msg s) = None -> B ##ₘ F -> bs_blocks s = B ∪ F ->
  dicey_message_builder_discard s = (Ok tt, mk_bstate zero_mb (bs_vals s) F (bs_next s)).
Proof.
  intros Ho Hn Hd Hb. unfold dicey_message_builder_discard. srun. rewrite Hn. srun.
  by srw (free_root_ok s value B F Ho Hd Hb).
Qed.

Lemma root_arg_ok s value B F :
  owned_root (bs_msg s) value B -> B ##ₘ F -> bs_blocks s = B ∪ F -> root_arg s = Ok value.
Proof.
  unfold owned_root, root_arg. destruct (mb_root (bs_msg s)) as [p|].
  - intros (a & c & B0 & -> & Hrep & Hp & ->) Hd Hb.
    rewrite (reads_one B0 p c a (proj1 arg_of_cell_reads B0 c a Hrep) Hp); [done| |rewrite Hb; apply map_union_subseteq_l].
    unfold free_fuel. rewrite Hb, map_size_disj_union, map_size_insert_None by done. lia.
  - by intros [-> _].
Qed.

Lemma build_ok calloc_ok s value B F :
  owned_root (bs_msg s) value B -> mb_borrowed_to (bs_msg s) = None -> B ##ₘ F -> bs_blocks s = B ∪ F ->
  msgbuilder_is_complete (bs_msg s) = true ->
  dicey_message_builder_build calloc_ok s =
    let r := written_packet calloc_ok (mb_type (bs_msg s)) (mb_seq (bs_msg s)) (mb_path (bs_msg s)) (mb_selector (bs_msg s)) value in
    (r, match r with Ok _ => mk_bstate zero_mb (bs_vals s) F (bs_next s) | _ => s end).
Proof.
  intros Ho Hn Hd Hb Hc. unfold dicey_message_builder_build. srun. rewrite Hc.
  unfold msgbuilder_is_complete in Hc. destruct (bool_decide (mb_state _ = _)); [|done]. cbn [negb]. srun.
  rewrite (root_arg_ok s value B F) by done. srun. unfold written_packet.
  destruct (dtf_message_write _ _ _ _ _ _ _ _) as [[r block]| | |]; srun; try done.
  destruct (packet_of_result r block); srun; try done. by srw (discard_ok s value B F Ho Hn Hd Hb).
Qed.

Lemma fresh_alloc s cells : fresh s -> fresh (mk_bstate (bs_msg s) (bs_vals s) (<[bs_next s := cells]> (bs_blocks s)) (S (bs_next s))).
Proof. intros Hf k [x Hx]. cbn in *. apply lookup_insert_Some in Hx as [[<- _]|[_ Hx]]; [lia|]. specialize (Hf k ltac:(by eexists)). lia. Qed.

(** A value builder on an empty root of its own, the previous value gone. *)
Lemma value_start_ok s v value B F :
  owned_root (bs_msg s) value B -> mb_state (bs_msg s) = BUILDER_STATE_PENDING -> fresh s -> B ##ₘ F -> bs_blocks s = B ∪ F ->
  let p := bs_next s in
  dicey_message_builder_value_start alloc_ok v s =
    (Ok tt, mk_bstate (with_state (bs_msg s) BUILDER_STATE_VALUE (Some p) (Some v))
      (<[v := mk_vb BUILDER_STATE_PENDING (Some (p, 0%nat)) zero_vlist]> (bs_vals s)) (<[p := [CZero DICEY_TYPE_INVALID]]> F) (S p)).
Proof.
  intros Ho Hst Hf Hd Hb p. assert (bs_blocks s !! p = None) as Hp by (by apply fresh_None).
  rewrite Hb in Hp. apply lookup_union_None in Hp as [HpB HpF].
  unfold dicey_message_builder_value_start. srun. rewrite Hst, bool_decide_true by done. cbn [negb]. unfold put_msg. srun. srw (balloc_at _ _). cbn.
  set (s1 := mk_bstate _ _ _ _).
  assert (dicey_arg_free (mb_root (bs_msg s)) s1 = (Ok tt, with_blocks s1 (<[p := [CZero DICEY_TYPE_INVALID]]> F))) as E.
  { apply (free_root_ok s1 value B).
    - unfold owned_root in *. cbn. exact Ho.
    - by apply map_disjoint_insert_r_2.
    - cbn. rewrite Hb. by rewrite insert_union_r. }
  by srw E.
Qed.

(** An empty root that [value] may fill. *)
Definition empty_root (s : bstate) (b i : nat) (cells : list cell) (a : dicey_arg) : Prop :=
  bs_blocks s !! b = Some cells /\
  exists t, cells !! i = Some (CZero t) /\ (dicey_type_is_valid t = true -> t = arg_type a).

Lemma value_builder_set_ok s v b i l cells a :
  bs_vals s !! v = Some (mk_vb BUILDER_STATE_PENDING (Some (b, i)) l) -> empty_root s b i cells a ->
  dicey_type_is_valid (arg_type a) = true -> fresh s ->
  exists c B n, dicey_value_builder_set alloc_ok v a s =
      (Ok tt, mk_bstate (bs_msg s) (<[v := mk_vb BUILDER_STATE_IDLE (Some (b, i)) l]> (bs_vals s))
        (<[b := <[i := c]> cells]> (bs_blocks s) ∪ B) n) /\
    rep B c a /\ in_range B (bs_next s) n /\ (bs_next s <= n)%nat.
Proof.
  intros Hv (Hb & t & Hi & Ht) Ha Hf. unfold dicey_value_builder_set, get_val. srun. rewrite Hv. cbn [default from_option id].
  unfold valbuilder_is_valid. cbn [vb_root vb_state vb_list]. rewrite bool_decide_true by (by eexists). srun.
  rewrite bool_decide_true by done. cbn [negb]. rewrite Ha. cbn [negb].
  srw (cell_read_at s b i cells (CZero t) Hb Hi). cbn [cell_type].
  assert (dicey_type_is_valid t && negb (bool_decide (t = arg_type a)) = false) as ->.
  { destruct (dicey_type_is_valid t) eqn:Et; [|done]. by rewrite (bool_decide_true _ (Ht eq_refl)). }
  assert (free_contents (CZero t) s = (Ok tt, s)) as E0 by done. srw E0.
  destruct (dicey_arg_dup_ok a s b i cells Hf Hb (lookup_lt_Some _ _ _ Hi)) as (c & B & n & E & Hrep & Hr & Hn).
  srw E. cbn [negb]. unfold put_val. cbn. by exists c, B, n.
Qed.

Lemma root_filled_blocks (F B : gmap nat (list cell)) p c c0 :
  F !! p = None -> <[p := <[0%nat := c]> [c0]]> (<[p := [c0]]> F) ∪ B = <[p := [c]]> B ∪ F \/ ~ B ##ₘ F.
Proof.
  intros HF. destruct (decide (B ##ₘ F)) as [Hd|]; [left|by right].
  rewrite insert_insert_eq. change (<[0%nat := c]> [c0]) with [c]. rewrite <- !insert_union_l.
  by rewrite map_union_comm.
Qed.

(** What the operations on the value of a message builder leave: the other fields as they were,
    a new value, no other block. *)
Definition value_set (s s' : bstate) (a : dicey_arg) (F : gmap nat (list cell)) : Prop :=
  exists p B, bs_msg s' = with_state (bs_msg s) BUILDER_STATE_PENDING (Some p) None /\
    owned_root (bs_msg s') (Some a) B /\ B ##ₘ F /\ bs_blocks s' = B ∪ F /\ fresh s'.

(** The end of a value: the tree is in the root block. *)
Lemma value_end_ok (s s2 : bstate) v a c B n F vals :
  let p := bs_next s in
  s2 = mk_bstate (with_state (bs_msg s) BUILDER_STATE_VALUE (Some p) (Some v)) vals
    (<[p := <[0%nat := c]> [CZero DICEY_TYPE_INVALID]]> (<[p := [CZero DICEY_TYPE_INVALID]]> F) ∪ B) n ->
  (forall k, is_Some (F !! k) -> (k < p)%nat) -> rep B c a -> in_range B (S p) n -> (S p <= n)%nat ->
  exists s', dicey_message_builder_value_end v s2 = (Ok tt, s') /\ value_set s s' a F.
Proof.
  intros p -> HF Hrep Hr Hn. unfold dicey_message_builder_value_end. srun. cbn [bs_msg with_state mb_state mb_borrowed_to].
  rewrite !bool_decide_true by done. cbn [negb put_val put_msg sbind]. eexists. split; [reflexivity|].
  assert (F !! p = None) as HFp by (destruct (F !! p) eqn:E; [specialize (HF p ltac:(by eexists)); lia|done]).
  assert (B ##ₘ F) as Hd.
  { apply map_disjoint_spec. intros k x y Hx Hy. specialize (HF k ltac:(by eexists)). specialize (Hr k ltac:(by eexists)). lia. }
  assert (B !! p = None) as HBp by (eapply range_None; [done|lia]).
  destruct (root_filled_blocks F B p c (CZero DICEY_TYPE_INVALID) HFp) as [E|]; [|done].
  exists p, (<[p := [c]]> B). cbn. split_and!; [done| |by apply map_disjoint_insert_l_2|exact E|].
  - exists a, c, B. split_and!; done.
  - intros k [x Hx]. cbn in *. rewrite E in Hx. apply lookup_union_Some_raw in Hx as [Hx|[_ Hx]].
    + apply lookup_insert_Some in Hx as [[<- _]|[_ Hx]]; [lia|]. specialize (Hr k ltac:(by eexists)). lia.
    + specialize (HF k ltac:(by eexists)). lia.
Qed.

Lemma set_value_ok s value B F a :
  owned_root (bs_msg s) value B -> mb_state (bs_msg s) = BUILDER_STATE_PENDING -> fresh s -> B ##ₘ F -> bs_blocks s = B ∪ F ->
  dicey_type_is_valid (arg_type a) = true ->
  exists s', dicey_message_builder_set_value alloc_ok a s = (Ok tt, s') /\ value_set s s' a F.
Proof.
  intros Ho Hst Hf Hd Hb Ha. unfold dicey_message_builder_set_value. srun. rewrite Hst, bool_decide_true by done. cbn [negb].
  srw (value_start_ok s (bs_next s) value B F Ho Hst Hf Hd Hb). set (s1 := mk_bstate _ _ _ _).
  assert (forall k, is_Some (F !! k) -> (k < bs_next s)%nat) as HF.
  { intros k [x Hx]. apply Hf. rewrite Hb. rewrite map_union_comm by done. exists x. by apply lookup_union_Some_l. }
  destruct (value_builder_set_ok s1 (bs_next s) (bs_next s) 0%nat zero_vlist [CZero DICEY_TYPE_INVALID] a)
    as (c & B2 & n & E & Hrep & Hr & Hn); [apply lookup_insert_eq| |done| |].
  - split; [apply lookup_insert_eq|]. by exists DICEY_TYPE_INVALID.
  - intros k [x Hx]. cbn in *. apply lookup_insert_Some in Hx as [[<- _]|[_ Hx]]; [lia|]. specialize (HF k ltac:(by eexists)). lia.
  - rewrite E. eapply value_end_ok; eauto.
Qed.

(** The builder once its header is set. *)
Definition header (op : dicey_op) (seq : Z) (path : cstr) (selector : dicey_selector) (root : option nat) : dicey_message_builder :=
  mk_mb BUILDER_STATE_PENDING op (u32 seq) (Some path) selector root None.

Lemma header_complete op seq path selector root :
  dicey_op_is_valid op = true -> dicey_selector_is_valid selector = true ->
  eqb (bool_decide (op = DICEY_OP_GET)) (bool_decide (is_Some root)) = false ->
  msgbuilder_is_complete (header op seq path selector root) = true.
Proof.
  intros Hop Hs Hr. unfold msgbuilder_is_complete, header. cbn [mb_state mb_path mb_selector mb_type mb_root].
  rewrite Hop, Hs, Hr. rewrite !bool_decide_true by (done || by eexists). done.
Qed.

Lemma header_steps_ok s op seq path selector (k : bst dicey_packet) :
  dicey_selector_is_valid selector = true -> bs_msg s = zero_mb ->
  (dicey_message_builder_begin op ;;! dicey_message_builder_set_seq seq ;;! dicey_message_builder_set_path path ;;!
   dicey_message_builder_set_selector selector ;;! k) s =
  k (mk_bstate (header op seq path selector None) (bs_vals s) (bs_blocks s) (bs_next s)).
Proof.
  destruct s as [m vals blocks next]. cbn [bs_msg]. intros Hs ->. unfold dicey_message_builder_set_selector. rewrite Hs. reflexivity.
Qed.

(** What [dicey_packet_message] leaves behind: an empty builder and the blocks there were. *)
Definition balanced {A} (s : bstate) (r : outcome dicey_error A) (s' : bstate) : Prop :=
  match r with Ok _ | Err _ => bs_msg s' = zero_mb /\ bs_blocks s' = bs_blocks s | _ => True end.

Lemma build_then_cleanup calloc_ok s0 s value B F :
  owned_root (bs_msg s) value B -> mb_borrowed_to (bs_msg s) = None -> B ##ₘ F -> bs_blocks s = B ∪ F -> F = bs_blocks s0 ->
  msgbuilder_is_complete (bs_msg s) = true ->
  let r := written_packet calloc_ok (mb_type (bs_msg s)) (mb_seq (bs_msg s)) (mb_path (bs_msg s)) (mb_selector (bs_msg s)) value in
  exists s', clean_up (dicey_message_builder_build calloc_ok) s = (r, s') /\ balanced s0 r s'.
Proof.
  intros Ho Hn Hd Hb HF Hc r. unfold clean_up. rewrite (build_ok calloc_ok s value B F) by done. fold r. cbv zeta.
  destruct r as [pk|e|f|]; try (eexists; split; [reflexivity|done]).
  rewrite (discard_ok s value B F) by done. eexists. split; [reflexivity|]. split; [done|]. by cbn.
Qed.

Lemma dicey_packet_message_lemma calloc_ok seq op path selector value s :
  fresh s -> dicey_op_is_valid op = true -> dicey_selector_is_valid selector = true ->
  eqb (bool_decide (op = DICEY_OP_GET)) (bool_decide (is_Some value)) = false ->
  match value with Some a => dicey_type_is_valid (arg_type a) = true | None => True end ->
  let r := written_packet calloc_ok op (u32 seq) (Some path) selector value in
  exists s', dicey_packet_message alloc_ok calloc_ok seq op path selector value s = (r, s') /\ balanced s r s'.
Proof.
  intros Hf Hop Hs Hv Ha r. unfold dicey_packet_message. rewrite Hs, Hv. cbn [negb andb]. srun.
  unfold dicey_message_builder_init, put_msg. srun. set (s1 := mk_bstate _ _ _ _).
  assert (owned_root (header op seq path selector None) None ∅) as Ho by done.
  destruct value as [a|].
  - assert (bool_decide (op = DICEY_OP_GET) = false) as Hget by (by destruct (bool_decide (op = DICEY_OP_GET))).
    destruct (set_value_ok (mk_bstate (header op seq path selector None) (bs_vals s) (bs_blocks s) (bs_next s)) None ∅ (bs_blocks s) a)
      as (s2 & E & p & B & Hm & Ho2 & Hd & Hb & _); [done|done|done|apply map_disjoint_empty_l|by rewrite (left_id_L ∅ (∪))|done|].
    assert (packet_message_steps alloc_ok calloc_ok seq op path selector (Some a) s1 =
      dicey_message_builder_build calloc_ok s2) as E2.
    { unfold packet_message_steps. rewrite header_steps_ok by done. rewrite Hget. by srw E. }
    unfold clean_up at 1. rewrite E2.
    destruct (build_then_cleanup calloc_ok s s2 (Some a) B (bs_blocks s)) as (s' & E3 & Hbal); [done|by rewrite Hm|done|done|done| |].
    + rewrite Hm. apply (header_complete op seq path selector (Some p)); [done|done|]. by rewrite Hget.
    + rewrite Hm in E3, Hbal. exists s'. split; [exact E3|exact Hbal].
  - assert (bool_decide (op = DICEY_OP_GET) = true) as Hget by (by destruct (bool_decide (op = DICEY_OP_GET))).
    set (s2 := mk_bstate (header op seq path selector None) (bs_vals s) (bs_blocks s) (bs_next s)).
    assert (packet_message_steps alloc_ok calloc_ok seq op path selector None s1 = dicey_message_builder_build calloc_ok s2) as E2.
    { unfold packet_message_steps. rewrite header_steps_ok by done. by rewrite Hget. }
    unfold clean_up. rewrite E2.
    destruct (build_then_cleanup calloc_ok s s2 None ∅ (bs_blocks s)) as (s' & E3 & Hbal);
      [done|done|apply map_disjoint_empty_l|by rewrite (left_id_L ∅ (∪))|done| |].
    + apply header_complete; [done|done|]. by rewrite Hget.
    + exists s'. split; [exact E3|exact Hbal].
Qed.

(** ** Trees built call by call *)

(** The calls that describe a tree: lists and pairs are started, filled element by element through
    a value builder of their own, and ended; anything else is set. *)
Fixpoint build_elems (build : nat -> dicey_arg -> bst unit) (v : nat) (l : list dicey_arg) : bst unit :=
  match l with
  | [] => sret tt
  | x :: l' => (dicey_value_builder_next alloc_ok v (S v) ;;! build (S v) x) ;;! build_elems build v l'
  end.

Fixpoint build_value (v : nat) (a : dicey_arg) : bst unit :=
  match a with
  | ArgArray t l => dicey_value_builder_array_start v t ;;! build_elems build_value v l ;;! dicey_value_builder_array_end v
  | ArgTuple l => dicey_value_builder_tuple_start v ;;! build_elems build_value v l ;;! dicey_value_builder_tuple_end v
  | ArgPair x y =>
      dicey_value_builder_pair_start v ;;!
      (dicey_value_builder_next alloc_ok v (S v) ;;! build_value (S v) x) ;;!
      (dicey_value_builder_next alloc_ok v (S v) ;;! build_value (S v) y) ;;!
      dicey_value_builder_pair_end alloc_ok v
  | _ => dicey_value_builder_set alloc_ok v a
  end.

(** The room of a list: its block [p] holds the elements [done] and more cells. *)
Definition roomy (B : gmap nat (list cell)) (done : list dicey_arg) (cap : Z) (p : nat) (cs spare : list cell)
    (B0 : gmap nat (list cell)) : Prop :=
  B = <[p := cs ++ spare]> B0 /\ B0 !! p = None /\ rep_list B0 cs done /\ cap = zlen (cs ++ spare) /\ 16 <= cap <= 98303.

(** A list under construction, over the blocks [F] that were there before. *)
Definition list_blocks (el : option nat) (cap : Z) (done : list dicey_arg) (B : gmap nat (list cell)) : Prop :=
  match el with
  | None => done = [] /\ cap = 0 /\ B = ∅
  | Some p => exists cs spare B0, roomy B done cap p cs spare B0
  end.

Definition over (s : bstate) (F B : gmap nat (list cell)) (lo : nat) : Prop :=
  bs_blocks s = F ∪ B /\ (forall k, is_Some (F !! k) -> (k < lo)%nat) /\ in_range B lo (bs_next s) /\ (lo <= bs_next s)%nat.

Lemma over_disjoint s F B lo : over s F B lo -> F ##ₘ B.
Proof.
  intros (_ & HF & HB & _). apply map_disjoint_spec. intros k x y Hx Hy.
  specialize (HF k ltac:(by eexists)). specialize (HB k ltac:(by eexists)). lia.
Qed.

Lemma over_fresh s F B lo : over s F B lo -> fresh s.
Proof.
  intros (Hb & HF & HB & Hlo) k [x Hx]. rewrite Hb in Hx. apply lookup_union_Some_raw in Hx as [Hx|[_ Hx]].
  - specialize (HF k ltac:(by eexists)). lia.
  - specialize (HB k ltac:(by eexists)). lia.
Qed.

(** The list gets a new block of [new_cap] cells. *)
Lemma arglist_grow_ok s F B lo t cap el done :
  over s F B lo -> list_blocks el cap done B -> cap <= zlen done -> zlen done < UINT16_MAX ->
  exists n p cap' cs c spare B0 B', arglist_grow alloc_ok (mk_vlist t (zlen done) cap el) s =
      (Ok (Some (mk_vlist t (zlen done) cap' (Some p))), mk_bstate (bs_msg s) (bs_vals s) (F ∪ B') n) /\
    roomy B' done cap' p cs (c :: spare) B0 /\ in_range B' lo n /\ (bs_next s <= n)%nat.
Proof.
  intros Hov Hl Hfull Hn. pose proof (over_fresh _ _ _ _ Hov) as Hf. pose proof Hov as (Hb & HF & HB & Hlo).
  unfold arglist_grow. cbn [vl_cap vl_elems vl_type vl_nitems]. destruct el as [p|].
  - destruct Hl as (cs & spare & B0 & -> & Hp & Hrep & Hcap & Hbd). pose proof (rep_list_zlen _ _ _ Hrep) as Hz.
    rewrite zlen_app in Hcap. pose proof (zlen_nonneg spare). assert (spare = []) as -> by (apply zlen_0_nil; lia).
    rewrite (right_id_L [] (++)) in *. rewrite zlen_nil in Hcap.
    destruct (Z.eqb_spec cap 0); [lia|]. unfold u64, wrap. unfold UINT16_MAX in Hn. rewrite Z.mod_small by lia.
    set (new_cap := cap * 3 / 2). assert (cap + 8 <= new_cap <= 98303) as Hnew by (unfold new_cap; Z.to_euclidean_division_equations; lia).
    assert (bs_blocks s !! p = Some cs) as Hpb.
    { rewrite Hb. rewrite lookup_union_r; [apply lookup_insert_eq|]. destruct (F !! p) eqn:E; [|done].
      specialize (HF p ltac:(by eexists)). specialize (HB p ltac:(rewrite lookup_insert_eq; by eexists)). lia. }
    srw (block_read_at s p cs Hpb). srw (balloc_at _ _). set (q := bs_next s).
    set (fill := replicate _ _). set (s1 := mk_bstate _ _ _ _).
    assert (p <> q) by (specialize (Hf p ltac:(by eexists)); unfold q; lia).
    assert (B0 !! q = None) as Hq0.
    { assert (bs_blocks s !! q = None) as Hq by (by apply fresh_None). rewrite Hb in Hq.
      apply lookup_union_None in Hq as [_ Hq]. by rewrite lookup_insert_ne in Hq. }
    assert (F !! p = None) as HFp by (apply eq_None_not_Some; intros HFp; specialize (HF p HFp); specialize (HB p ltac:(rewrite lookup_insert_eq; by eexists)); lia).
    assert (F !! q = None) as HFq by (apply eq_None_not_Some; intros HFq; specialize (HF q HFq); unfold q in *; lia).
    assert (bs_blocks s1 = <[p := cs]> (F ∪ <[q := cs ++ fill]> B0)) as Hb1.
    { cbn. rewrite Hb. apply map_eq. intros k. rewrite !lookup_insert, !lookup_union, !lookup_insert.
      repeat case_decide; try congruence; try subst k; rewrite ?HFp, ?HFq; done. }
    srw (bfree_at s1 (F ∪ <[q := cs ++ fill]> B0) p cs Hb1
      ltac:(apply lookup_union_None; split; [done|]; by rewrite lookup_insert_ne)).
    destruct fill as [|c fill'] eqn:Efill; [unfold fill in Efill; apply (f_equal length) in Efill; rewrite length_replicate in Efill; cbn in Efill; unfold zlen in *; lia|].
    exists (S q), q, new_cap, cs, c, fill', B0, (<[q := cs ++ c :: fill']> B0). split_and!; [done| | |unfold q; lia].
    + split_and!; try done; [|lia..]. rewrite zlen_app, <- Efill. unfold fill. unfold zlen in *. rewrite length_replicate. lia.
    + apply range_insert; [|unfold q; lia]. intros k Hk. assert (k <> p) by (intros ->; rewrite Hp in Hk; by destruct Hk).
      specialize (HB k ltac:(by rewrite lookup_insert_ne)). unfold q. lia.
  - destruct Hl as (-> & -> & ->). rewrite Z.eqb_refl. srun. srw (balloc_at _ _).
    exists (S (bs_next s)), (bs_next s), 16, [], (CZero DICEY_TYPE_INVALID), (replicate 15 (CZero DICEY_TYPE_INVALID)), ∅,
      (<[bs_next s := replicate 16 (CZero DICEY_TYPE_INVALID)]> ∅). split_and!; [| | |lia].
    + rewrite Hb, (right_id_L ∅ (∪)). do 2 f_equal. rewrite <- insert_union_r, (right_id_L ∅ (∪)); [done|].
      apply eq_None_not_Some. intros Hk. specialize (HF _ Hk). lia.
    + split_and!; try done. constructor.
    + apply range_insert; [apply range_empty|lia].
Qed.

(** There is a cell for the next element, after growing if the list is full. *)
Lemma room_ok s F B lo t cap el done :
  over s F B lo -> list_blocks el cap done B -> zlen done < UINT16_MAX ->
  let l := mk_vlist t (zlen done) cap el in
  exists g n p cap' cs c spare B0 B', (if vl_cap l <=? vl_nitems l then arglist_grow alloc_ok l else sret None) s =
      (Ok g, mk_bstate (bs_msg s) (bs_vals s) (F ∪ B') n) /\ default l g = mk_vlist t (zlen done) cap' (Some p) /\
    roomy B' done cap' p cs (c :: spare) B0 /\ in_range B' lo n /\ (bs_next s <= n)%nat.
Proof.
  intros Hov Hl Hn l. cbn [l vl_cap vl_nitems]. destruct (Z.leb_spec cap (zlen done)).
  - destruct (arglist_grow_ok s F B lo t cap el done) as (n & p & cap' & cs & c & spare & B0 & B' & E & Hr & HB & Hle); [done..|].
    by exists (Some (mk_vlist t (zlen done) cap' (Some p))), n, p, cap', cs, c, spare, B0, B'.
  - destruct el as [p|]; [|destruct Hl as (-> & -> & _); rewrite zlen_nil in *; lia].
    destruct Hl as (cs & spare & B0 & Hr). pose proof Hr as (HB & _ & Hrep & Hcap & _). pose proof (rep_list_zlen _ _ _ Hrep).
    destruct spare as [|c spare]; [rewrite (right_id_L [] (++)) in Hcap; lia|]. destruct Hov as (Hb & _ & HBr & _).
    exists None, (bs_next s), p, cap, cs, c, spare, B0, B. split_and!; try done. rewrite <- Hb. by destruct s.
Qed.

(** A list under construction by value builder [v]. *)
Definition stage (s : bstate) (v : nat) (kind : builder_state) (t : dicey_type) (root : nat * nat) (done : list dicey_arg)
    (F : gmap nat (list cell)) (lo : nat) : Prop :=
  exists cap el B, bs_vals s !! v = Some (mk_vb kind (Some root) (mk_vlist t (zlen done) cap el)) /\
    over s F B lo /\ list_blocks el cap done B.

Definition kind_room (kind : builder_state) (n : Z) : Prop :=
  match kind with
  | BUILDER_STATE_ARRAY | BUILDER_STATE_TUPLE => n < UINT16_MAX
  | BUILDER_STATE_PAIR => n < 2
  | _ => False
  end.

Definition elem_type (kind : builder_state) (t : dicey_type) : dicey_type :=
  if decide (kind = BUILDER_STATE_ARRAY) then t else DICEY_TYPE_INVALID.

Lemma next_ok s v e kind t root done F lo :
  stage s v kind t root done F lo -> kind_room kind (zlen done) ->
  exists n p cap cs spare B0, dicey_value_builder_next alloc_ok v e s =
      (Ok tt, mk_bstate (bs_msg s)
        (<[e := mk_vb BUILDER_STATE_PENDING (Some (p, length cs)) zero_vlist]>
          (<[v := mk_vb kind (Some root) (mk_vlist t (zlen done + 1) cap (Some p))]> (bs_vals s)))
        (F ∪ <[p := cs ++ CZero (elem_type kind t) :: spare]> B0) n) /\
    roomy (<[p := cs ++ CZero (elem_type kind t) :: spare]> B0) done cap p cs (CZero (elem_type kind t) :: spare) B0 /\
    in_range (<[p := cs ++ CZero (elem_type kind t) :: spare]> B0) lo n /\ (bs_next s <= n)%nat.
Proof.
  intros (cap & el & B & Hv & Hov & Hl) Hk.
  assert (zlen done < UINT16_MAX) as Hn by (unfold UINT16_MAX in *; destruct kind; cbn in Hk; done || lia).
  destruct (room_ok s F B lo t cap el done Hov Hl Hn) as (g & n & p & cap' & cs & c & spare & B0 & B' & E & Hg & Hr & HB & Hle).
  pose proof Hr as (-> & Hp & Hrep & Hcap & Hbd). pose proof (rep_list_zlen _ _ _ Hrep) as Hz.
  assert (F !! p = None) as HFp.
  { apply eq_None_not_Some. intros Hx. destruct Hov as (_ & HF & _). specialize (HF p Hx).
    specialize (HB p ltac:(rewrite lookup_insert_eq; by eexists)). lia. }
  exists n, p, cap', cs, spare, B0. split_and!; [| | |done].
  - unfold dicey_value_builder_next, get_val. srun. rewrite Hv. cbn [default from_option id]. cbn [vb_root vb_state vb_list].
    unfold valbuilder_is_valid. cbn [vb_root]. rewrite bool_decide_true by (by eexists). srun.
    assert (forall k : bst unit, (match kind with
      | BUILDER_STATE_ARRAY | BUILDER_STATE_TUPLE => sret tt
      | BUILDER_STATE_PAIR => if 2 <=? zlen done then sfail DICEY_EOVERFLOW else sret tt
      | _ => sfail DICEY_EINVAL end ;;! k) s = k s) as Ek.
    { intros k. destruct kind; cbn in Hk; try done. destruct (Z.leb_spec 2 (zlen done)); [lia|done]. }
    cbn [vl_nitems]. rewrite Ek. srw E. cbn [default from_option id] in Hg. rewrite Hg. cbn [vl_nitems vl_cap vl_elems vl_type].
    assert ((zlen done <=? cap') = true) as ->.
    { apply Z.leb_le. rewrite Hcap, Hz, zlen_app. pose proof (zlen_nonneg (c :: spare)). lia. }
    srun. unfold put_val at 1. srun.
    assert (Z.to_nat (zlen done) = length cs) as -> by (rewrite Hz; unfold zlen; lia). set (s1 := mk_bstate _ _ _ _).
    assert (bs_blocks s1 !! p = Some (cs ++ c :: spare)) as Hp1.
    { cbn. rewrite lookup_union_r; [apply lookup_insert_eq|done]. }
    srw (cell_write_at s1 p (length cs) _ (CZero (elem_type kind t)) Hp1 ltac:(rewrite length_app; cbn; lia)).
    unfold put_val, with_blocks. cbn. unfold u16, wrap. rewrite Z.mod_small by (unfold UINT16_MAX in Hn; pose proof (zlen_nonneg done); lia).
    rewrite insert_middle_cell, <- (assoc_L (++)). cbn. do 2 f_equal. rewrite insert_union_r, insert_insert_eq; done.
  - split_and!; try done; [|lia..]. by rewrite Hcap, !zlen_app, !zlen_cons.
  - intros k Hk'. apply HB. destruct (decide (k = p)) as [->|]; [rewrite lookup_insert_eq; by eexists|]. by rewrite lookup_insert_ne in *.
Qed.

(** A value builder on an empty root builds the tree there and leaves outer builders alone. *)
Definition builds (a : dicey_arg) : Prop :=
  forall s v b i l cells, bs_vals s !! v = Some (mk_vb BUILDER_STATE_PENDING (Some (b, i)) l) -> empty_root s b i cells a -> fresh s ->
  exists c B n vals, build_value v a s = (Ok tt, mk_bstate (bs_msg s) vals (<[b := <[i := c]> cells]> (bs_blocks s) ∪ B) n) /\
    rep B c a /\ in_range B (bs_next s) n /\ (bs_next s <= n)%nat /\ forall w, (w < v)%nat -> vals !! w = bs_vals s !! w.

(** The same of any code that works through value builder [e]. *)
Definition builds_at (m : bst unit) (e : nat) (a : dicey_arg) : Prop :=
  forall s b i l cells, bs_vals s !! e = Some (mk_vb BUILDER_STATE_PENDING (Some (b, i)) l) -> empty_root s b i cells a -> fresh s ->
  exists c B n vals, m s = (Ok tt, mk_bstate (bs_msg s) vals (<[b := <[i := c]> cells]> (bs_blocks s) ∪ B) n) /\
    rep B c a /\ in_range B (bs_next s) n /\ (bs_next s <= n)%nat /\ forall w, (w < e)%nat -> vals !! w = bs_vals s !! w.

Lemma filled_blocks (F B0 Bx : gmap nat (list cell)) p u w :
  F !! p = None -> <[p := w]> (F ∪ <[p := u]> B0) ∪ Bx = F ∪ <[p := w]> (B0 ∪ Bx).
Proof.
  intros HF. apply map_eq. intros k. rewrite lookup_union, lookup_insert, !lookup_union, !lookup_insert, lookup_union.
  case_decide as E; [|by destruct (F !! k), (B0 !! k), (Bx !! k)]. subst k. rewrite HF. by destruct (Bx !! p).
Qed.

Lemma fill_ok s v e kind t root done F lo x m :
  stage s v kind t root done F lo -> kind_room kind (zlen done) -> (v < e)%nat -> builds_at m e x -> (kind = BUILDER_STATE_ARRAY -> t = arg_type x) ->
  exists s', (dicey_value_builder_next alloc_ok v e ;;! m) s = (Ok tt, s') /\
    stage s' v kind t root (done ++ [x]) F lo /\ bs_msg s' = bs_msg s /\ forall w, (w < v)%nat -> bs_vals s' !! w = bs_vals s !! w.
Proof.
  intros Hst Hk He Hx Ht. destruct (next_ok s v e kind t root done F lo Hst Hk) as (n & p & cap & cs & spare & B0 & E & Hr & HB & Hle).
  destruct Hst as (_ & _ & B & _ & Hov & _). srw E. set (s1 := mk_bstate _ _ _ _). pose proof Hr as (_ & Hp & Hrep & Hcap & Hbd).
  assert (over s1 F (<[p := cs ++ CZero (elem_type kind t) :: spare]> B0) lo) as Hov1.
  { destruct Hov as (_ & HF & _ & Hlo). split_and!; [done|done|done|cbn; lia]. }
  assert (F !! p = None) as HFp.
  { apply eq_None_not_Some. intros HFp. destruct Hov as (_ & HF & _). specialize (HF p HFp).
    specialize (HB p ltac:(rewrite lookup_insert_eq; by eexists)). lia. }
  destruct (Hx s1 p (length cs) zero_vlist (cs ++ CZero (elem_type kind t) :: spare)) as (c & Bx & n2 & vals & E2 & Hrep2 & Hr2 & Hn2 & Hvals).
  { apply lookup_insert_eq. }
  { split; [cbn; rewrite lookup_union_r by done; apply lookup_insert_eq|]. exists (elem_type kind t).
    split; [apply list_lookup_middle; done|]. unfold elem_type. case_decide; [intros _; by apply Ht|done]. }
  { by eapply over_fresh. }
  assert (B0 ##ₘ Bx) as Hd.
  { eapply range_disjoint; [|exact Hr2]. intros k Hk'. apply HB.
    rewrite lookup_insert_ne; [done|]. intros <-. rewrite Hp in Hk'. by destruct Hk'. }
  rewrite E2. eexists. split; [reflexivity|]. cbn [bs_msg bs_vals]. split_and!; [|done|].
  - exists cap, (Some p), (<[p := (cs ++ [c]) ++ spare]> (B0 ∪ Bx)). cbn. split_and!.
    + rewrite Hvals by lia. cbn. rewrite lookup_insert_ne, lookup_insert_eq by lia. by rewrite zlen_app.
    + cbn in Hr2, Hn2. destruct Hov as (_ & HF & _ & Hlo). split_and!; cbn; [|done| |lia].
      * rewrite insert_middle_cell. by apply filled_blocks.
      * apply range_insert; [|specialize (HB p ltac:(rewrite lookup_insert_eq; by eexists)); lia].
        apply range_union; [|eapply range_weaken; [done|lia..]]. intros k Hk'. specialize (HB k).
        rewrite lookup_insert_ne in HB; [specialize (HB Hk'); lia|]. intros <-. rewrite Hp in Hk'. by destruct Hk'.
    + exists (cs ++ [c]), spare, (B0 ∪ Bx). split_and!; [done| |by apply rep_list_snoc| |lia..].
      * apply lookup_union_None. split; [done|]. eapply range_None; [exact Hr2|]. left. cbn. apply HB. rewrite lookup_insert_eq. by eexists.
      * by rewrite Hcap, !zlen_app, !zlen_cons, zlen_nil, Z.add_assoc.
  - intros w Hw. rewrite Hvals by lia. cbn. by rewrite !lookup_insert_ne by lia.
Qed.

Lemma step_ok s v kind t root done F lo x :
  stage s v kind t root done F lo -> kind_room kind (zlen done) -> builds x -> (kind = BUILDER_STATE_ARRAY -> t = arg_type x) ->
  exists s', (dicey_value_builder_next alloc_ok v (S v) ;;! build_value (S v) x) s = (Ok tt, s') /\
    stage s' v kind t root (done ++ [x]) F lo /\ bs_msg s' = bs_msg s /\ forall w, (w < v)%nat -> bs_vals s' !! w = bs_vals s !! w.
Proof. intros Hst Hk Hx. apply fill_ok; [done|done|lia|]. intros s1. apply Hx. Qed.

Lemma elems_ok kind t root F lo v l :
  Forall builds l -> (kind = BUILDER_STATE_ARRAY -> Forall (fun x => arg_type x = t) l) ->
  kind = BUILDER_STATE_ARRAY \/ kind = BUILDER_STATE_TUPLE ->
  forall s done, stage s v kind t root done F lo -> zlen done + zlen l <= UINT16_MAX ->
  exists s', build_elems build_value v l s = (Ok tt, s') /\ stage s' v kind t root (done ++ l) F lo /\ bs_msg s' = bs_msg s /\
    forall w, (w < v)%nat -> bs_vals s' !! w = bs_vals s !! w.
Proof.
  intros Hl Ht Hkind. induction Hl as [|x l Hx _ IH]; intros s done Hst Hn.
  - exists s. by rewrite (right_id_L [] (++)).
  - rewrite zlen_cons in Hn. pose proof (zlen_nonneg l). cbn [build_elems].
    destruct (step_ok s v kind t root done F lo x) as (s1 & E & Hst1 & Hm1 & Hv1); [done| |done| |].
    + destruct Hkind as [-> | ->]; cbn; lia.
    + intros Hk. specialize (Ht Hk). by inversion Ht.
    + srw E. destruct (IH ltac:(intros Hk; specialize (Ht Hk); by inversion Ht) s1 (done ++ [x]) Hst1) as (s2 & E2 & Hst2 & Hm2 & Hv2).
      { rewrite zlen_app, zlen_cons, zlen_nil. lia. }
      exists s2. rewrite E2. rewrite <- (assoc_L (++)) in Hst2. split_and!; [done|done|congruence|].
      intros w Hw. by rewrite Hv2, Hv1.
Qed.

(** Starting a list. *)
Lemma list_start_ok s v b i l kind t :
  bs_vals s !! v = Some (mk_vb BUILDER_STATE_PENDING (Some (b, i)) l) -> fresh s ->
  (kind = BUILDER_STATE_ARRAY -> dicey_type_is_valid t = true) ->
  exists s', valbuilder_list_start v kind t s = (Ok tt, s') /\ stage s' v kind (elem_type kind t) (b, i) [] (bs_blocks s) (bs_next s) /\
    bs_msg s' = bs_msg s /\ forall w, (w < v)%nat -> bs_vals s' !! w = bs_vals s !! w.
Proof.
  intros Hv Hf Ht. unfold valbuilder_list_start, get_val. srun. rewrite Hv. cbn [default from_option id vb_state].
  unfold valbuilder_is_valid. cbn [vb_root]. rewrite bool_decide_true by (by eexists). srun. rewrite bool_decide_true by done. cbn [negb].
  assert ((if decide (kind = BUILDER_STATE_ARRAY) then dicey_type_is_valid t else true) = true) as -> by (case_decide; auto).
  srun. unfold put_val. eexists. split; [reflexivity|]. cbn. split_and!; [|done|].
  - exists 0, None, ∅. cbn. split_and!; [apply lookup_insert_eq| |done..].
    split_and!; cbn; [by rewrite (right_id_L ∅ (∪))|exact Hf|apply range_empty|done].
  - intros w Hw. by rewrite lookup_insert_ne by lia.
Qed.

(** Ending a list moves it to the root. *)
Definition ends (m : bst unit) (s : bstate) (v b i : nat) (cells : list cell) (F : gmap nat (list cell)) (lo : nat) (a : dicey_arg) : Prop :=
  exists c B n vals, m s = (Ok tt, mk_bstate (bs_msg s) vals (<[b := <[i := c]> cells]> F ∪ B) n) /\
    rep B c a /\ in_range B lo n /\ (lo <= n)%nat /\ forall w, (w < v)%nat -> vals !! w = bs_vals s !! w.

Lemma list_end_ok s v kind t b i done F lo cells wrap a :
  stage s v kind t (b, i) done F lo -> F !! b = Some cells -> (i < length cells)%nat ->
  (forall el cap B, list_blocks el cap done B -> rep B (wrap (mk_vlist t (zlen done) cap el)) a) ->
  ends (list_end v kind wrap) s v b i cells F lo a.
Proof.
  intros (cap & el & B & Hv & Hov & Hl) Hb Hi Hw. pose proof Hov as (Hbl & HF & HB & Hlo).
  exists (wrap (mk_vlist t (zlen done) cap el)), B, (bs_next s), (<[v := zero_vb]> (bs_vals s)).
  split_and!; [|by apply Hw|done|done|intros w Hwv; by rewrite lookup_insert_ne by lia].
  unfold list_end, get_val. srun. rewrite Hv. cbn [default from_option id]. unfold valbuilder_is_valid. cbn [vb_root vb_state vb_list].
  rewrite bool_decide_true by (by eexists). srun. rewrite bool_decide_true by done. cbn [negb vl_nitems vl_elems].
  assert ((zlen done =? 0) || bool_decide (is_Some el) = true) as ->.
  { destruct el as [p|]; [by rewrite orb_true_r|]. by destruct Hl as (-> & _ & _). }
  srun. assert (bs_blocks s !! b = Some cells) as Hbs by (rewrite Hbl; by apply lookup_union_Some_l).
  srw (cell_write_at s b i cells (wrap (mk_vlist t (zlen done) cap el)) Hbs Hi). unfold put_val, with_blocks. cbn. by rewrite Hbl, insert_union_l.
Qed.

Lemma list_blocks_array t el cap done B : list_blocks el cap done B -> rep B (CArray t (zlen done) el) (ArgArray t done).
Proof. destruct el as [p|]; cbn; [intros (cs & spare & B0 & -> & Hp & Hr & _); by constructor|intros (-> & _ & ->); constructor]. Qed.

Lemma list_blocks_tuple el cap done B : list_blocks el cap done B -> rep B (CTuple (zlen done) el) (ArgTuple done).
Proof. destruct el as [p|]; cbn; [intros (cs & spare & B0 & -> & Hp & Hr & _); by constructor|intros (-> & _ & ->); constructor]. Qed.

Lemma rep_list_pair B0 cs x y :
  rep_list B0 cs [x; y] -> exists c d B1 B2, cs = [c; d] /\ B0 = B1 ∪ B2 /\ rep B1 c x /\ rep B2 d y /\ B1 ##ₘ B2.
Proof.
  intros H. inversion H as [|c cs1 ? ? B1 B2' Hx H1 Hd]; subst. inversion H1 as [|d cs2 ? ? B2 B3 Hy H2 Hd2]; subst.
  inversion H2; subst. exists c, d, B1, B2. rewrite (right_id_L ∅ (∪)) in *. by split_and!.
Qed.

(** Moving a cell of block [p] to a block of its own. *)
Lemma dicey_arg_move_ok s p i cells c :
  fresh s -> bs_blocks s !! p = Some cells -> cells !! i = Some c ->
  dicey_arg_move alloc_ok (p, i) s = (Ok (Some (bs_next s)), mk_bstate (bs_msg s) (bs_vals s)
    (<[p := <[i := CZero DICEY_TYPE_INVALID]> cells]> (<[bs_next s := [c]]> (bs_blocks s))) (S (bs_next s))).
Proof.
  intros Hf Hp Hi. assert (p <> bs_next s) as Hpn by (specialize (Hf p ltac:(by eexists)); lia).
  unfold dicey_arg_move. srw (balloc_at _ _). set (s1 := mk_bstate _ _ _ _).
  assert (bs_blocks s1 !! p = Some cells) as Hp1 by (cbn; by rewrite lookup_insert_ne).
  srw (cell_read_at s1 p i cells c Hp1 Hi).
  srw (cell_write_at s1 (bs_next s) 0 [CZero DICEY_TYPE_INVALID] c ltac:(apply lookup_insert_eq) ltac:(cbn; lia)).
  set (s2 := with_blocks _ _). assert (bs_blocks s2 !! p = Some cells) as Hp2 by (cbn; by rewrite !lookup_insert_ne).
  srw (cell_write_at s2 p i cells (CZero DICEY_TYPE_INVALID) Hp2 ltac:(by eapply lookup_lt_Some)).
  unfold with_blocks. cbn. by rewrite insert_insert_eq.
Qed.

Lemma pair_blocks (F B1 B2 : gmap nat (list cell)) b p n1 n2 w u c d (c1 d1 : list cell) :
  F !! n1 = None -> F !! n2 = None -> B1 !! n1 = None -> B1 !! n2 = None -> B2 !! n1 = None -> n1 <> n2 ->
  F !! p = None -> B1 !! p = None -> B2 !! p = None -> p <> n1 -> p <> n2 ->
  <[b := w]> (delete p (<[p := c1]> (<[n2 := [d]]> (<[p := d1]> (<[n1 := [c]]> (F ∪ <[p := u]> (B1 ∪ B2))))))) =
  <[b := w]> F ∪ (<[n1 := [c]]> B1 ∪ <[n2 := [d]]> B2).
Proof.
  intros. apply map_eq. intros k. rewrite lookup_insert, lookup_delete, !lookup_union, !lookup_insert, !lookup_union, !lookup_insert, !lookup_union.
  repeat case_decide; try congruence; try subst k; simplify_map_eq;
    repeat match goal with H : _ !! _ = None |- _ => rewrite H; clear H end; try done;
    try (by destruct (B2 !! _)); by destruct (B1 !! b), (B2 !! b).
Qed.

Lemma pair_end_ok s v t b i x y F lo cells :
  stage s v BUILDER_STATE_PAIR t (b, i) [x; y] F lo -> F !! b = Some cells -> (i < length cells)%nat ->
  ends (dicey_value_builder_pair_end alloc_ok v) s v b i cells F lo (ArgPair x y).
Proof.
  intros (cap & el & B & Hv & Hov & Hl) Hb Hi. pose proof (over_fresh _ _ _ _ Hov) as Hf. pose proof Hov as (Hbl & HF & HB & Hlo).
  destruct el as [p|]; [|by destruct Hl]. destruct Hl as (cs & spare & B0 & -> & Hp & Hrep & Hcap & Hbd).
  destruct (rep_list_pair _ _ _ _ Hrep) as (c & d & B1 & B2 & -> & -> & Hx & Hy & Hd).
  assert (lo <= p < bs_next s)%nat as Hpr by (apply HB; rewrite lookup_insert_eq; by eexists).
  assert (forall k, (bs_next s <= k)%nat -> F !! k = None /\ B1 !! k = None /\ B2 !! k = None) as Hnew.
  { intros k Hk. pose proof (fresh_None s k Hf Hk) as Hk'. rewrite Hbl in Hk'. apply lookup_union_None in Hk' as [? Hk'].
    rewrite lookup_insert_ne in Hk' by lia. by apply lookup_union_None in Hk' as [? ?]. }
  assert (F !! p = None) as HFp by (apply eq_None_not_Some; intros HFp; specialize (HF p HFp); lia).
  assert (b < lo)%nat as Hblo by (apply HF; by eexists).
  apply lookup_union_None in Hp as [Hp1 Hp2].
  assert (forall k, is_Some (B1 !! k) \/ is_Some (B2 !! k) -> (lo <= k < bs_next s)%nat) as Hrng.
  { intros k Hk. apply HB. destruct (decide (k = p)) as [->|]; [rewrite lookup_insert_eq; by eexists|]. rewrite lookup_insert_ne by done.
    destruct Hk as [[z Hz]|[z Hz]]; exists z; [by apply lookup_union_Some_l|]. by apply lookup_union_Some_r. }
  unfold ends, dicey_value_builder_pair_end, get_val. srun. rewrite Hv. cbn [default from_option id].
  unfold valbuilder_is_valid. cbn [vb_root vb_state vb_list vl_nitems vl_elems].
  rewrite bool_decide_true by (by eexists). srun. rewrite bool_decide_true by done. cbn [negb]. change (zlen [x; y]) with 2. cbn [Z.leb Z.eqb Z.compare Pos.compare Pos.compare_cont Pos.eqb negb]. srun.
  assert (bs_blocks s !! p = Some (c :: d :: spare)) as Hps by (rewrite Hbl, lookup_union_r by done; apply lookup_insert_eq).
  srw (dicey_arg_move_ok s p 0 _ c Hf Hps eq_refl). set (s1 := mk_bstate _ _ _ _).
  assert (fresh s1) as Hf1.
  { intros k [z Hz]. cbn in *. apply lookup_insert_Some in Hz as [[<- _]|[_ Hz]]; [lia|].
    apply lookup_insert_Some in Hz as [[<- _]|[_ Hz]]; [lia|]. specialize (Hf k ltac:(by eexists)). lia. }
  srw (dicey_arg_move_ok s1 p 1 _ d Hf1 ltac:(apply lookup_insert_eq) eq_refl). cbn [s1 bs_next bs_blocks bs_msg bs_vals].
  set (s2 := mk_bstate _ _ _ _). srw (bfree_delete s2 p ltac:(cbn; rewrite lookup_insert_eq; by eexists)). set (s3 := with_blocks _ _).
  assert (bs_blocks s3 !! b = Some cells) as Hb3.
  { cbn. rewrite lookup_delete_ne, !lookup_insert_ne by lia. rewrite Hbl. by apply lookup_union_Some_l. }
  srw (cell_write_at s3 b i cells (CPair (Some (bs_next s)) (Some (S (bs_next s)))) Hb3 Hi). unfold put_val, with_blocks. cbn.
  exists (CPair (Some (bs_next s)) (Some (S (bs_next s)))), (<[bs_next s := [c]]> B1 ∪ <[S (bs_next s) := [d]]> B2), (S (S (bs_next s))), (<[v := zero_vb]> (bs_vals s)).
  split_and!; [| | | |intros w Hw; by rewrite lookup_insert_ne by lia].
  - rewrite Hbl. rewrite pair_blocks; [reflexivity| | | | | |lia|done|done|done|lia|lia]; apply Hnew; lia.
  - apply rep_pair; [done|done|by apply Hnew|apply Hnew; lia|]. apply map_disjoint_insert_l_2; [rewrite lookup_insert_ne by lia; by apply Hnew|].
    apply map_disjoint_insert_r_2; [apply Hnew; lia|done].
  - intros k Hk. destruct Hk as [z Hz]. apply lookup_union_Some_raw in Hz as [Hz|[_ Hz]]; apply lookup_insert_Some in Hz as [[<- _]|[_ Hz]]; try lia.
    + specialize (Hrng k ltac:(left; by eexists)). lia.
    + specialize (Hrng k ltac:(right; by eexists)). lia.
  - lia.
Qed.

Lemma set_builds_at e a : dicey_type_is_valid (arg_type a) = true -> builds_at (dicey_value_builder_set alloc_ok e a) e a.
Proof.
  intros Ha s b i l cells Hv He Hf. destruct (value_builder_set_ok s e b i l cells a Hv He Ha Hf) as (c & B & n & E & Hrep & Hr & Hn).
  exists c, B, n, (<[e := mk_vb BUILDER_STATE_IDLE (Some (b, i)) l]> (bs_vals s)). split_and!; [done..|]. intros w Hw. by rewrite lookup_insert_ne by lia.
Qed.

Lemma builds_leaf a : is_leaf a -> dicey_type_is_valid (arg_type a) = true -> builds a.
Proof. intros Hleaf Ha s v. replace (build_value v a) with (dicey_value_builder_set alloc_ok v a) by (by destruct a). by apply set_builds_at. Qed.

(** Start, elements and end, put together. *)
Lemma builds_list kind t l0 a wrap v s b i cells l :
  kind = BUILDER_STATE_ARRAY /\ dicey_type_is_valid t = true /\ Forall (fun x => arg_type x = t) l0 \/ kind = BUILDER_STATE_TUPLE ->
  bs_vals s !! v = Some (mk_vb BUILDER_STATE_PENDING (Some (b, i)) l) -> empty_root s b i cells a -> fresh s ->
  zlen l0 <= UINT16_MAX -> Forall builds l0 ->
  (forall el cap B, list_blocks el cap l0 B -> rep B (wrap (mk_vlist (elem_type kind t) (zlen l0) cap el)) a) ->
  ends (valbuilder_list_start v kind t ;;! build_elems build_value v l0 ;;! list_end v kind wrap) s v b i cells (bs_blocks s) (bs_next s) a.
Proof.
  intros Hk Hv (Hb & t0 & Hi & _) Hf Hn Hl Hw.
  destruct (list_start_ok s v b i l kind t Hv Hf) as (s1 & E1 & Hst1 & Hm1 & Hv1); [intros ->; by destruct Hk as [(_ & ? & _)|]|].
  destruct (elems_ok kind (elem_type kind t) (b, i) (bs_blocks s) (bs_next s) v l0) with (s := s1) (done := @nil dicey_arg)
    as (s2 & E2 & Hst2 & Hm2 & Hv2); [done| |destruct Hk as [[-> _]| ->]; auto|done|by rewrite zlen_nil|].
  { intros ->. destruct Hk as [(_ & _ & H)|]; done. }
  destruct (list_end_ok s2 v kind (elem_type kind t) b i l0 (bs_blocks s) (bs_next s) cells wrap a Hst2 Hb ltac:(by eapply lookup_lt_Some) Hw)
    as (c & B & n & vals & E & Hrep & Hr & Hlo & Hvals).
  exists c, B, n, vals. srw E1. srw E2. rewrite E. split_and!; [congruence|done..|].
  intros w Hwv. by rewrite Hvals, Hv2, Hv1.
Qed.

Lemma build_value_ok a : arg_ok a -> builds a.
Proof.
  revert a. apply (dicey_arg_ind' (fun a => arg_ok a -> builds a)).
  - intros a. destruct a; try done; intros Ha; apply builds_leaf; try done; by apply arg_ok_type in Ha.
  - intros t l IH (Ht & _ & Hn & Hts & Hok)%id s v b i l1 cells Hv He Hf. rewrite arg_ok_list in Hok.
    assert (Forall builds l) as Hl by (rewrite Forall_forall in *; eauto).
    apply (builds_list BUILDER_STATE_ARRAY t l (ArgArray t l) (fun l => CArray (vl_type l) (vl_nitems l) (vl_elems l)) v s b i cells l1);
      [by left|done..|]. intros el cap B. apply list_blocks_array.
  - intros l IH (Hn & Hok)%id s v b i l1 cells Hv He Hf. rewrite arg_ok_list in Hok.
    assert (Forall builds l) as Hl by (rewrite Forall_forall in *; eauto).
    apply (builds_list BUILDER_STATE_TUPLE DICEY_TYPE_INVALID l (ArgTuple l) (fun l => CTuple (vl_nitems l) (vl_elems l)) v s b i cells l1);
      [by right|done..|]. intros el cap B. apply list_blocks_tuple.
  - intros x y IHx IHy [Hx Hy]%id s v b i l1 cells Hv (Hb & t0 & Hi & _) Hf.
    destruct (list_start_ok s v b i l1 BUILDER_STATE_PAIR DICEY_TYPE_INVALID Hv Hf) as (s1 & E1 & Hst1 & Hm1 & Hv1); [done|].
    destruct (step_ok s1 v BUILDER_STATE_PAIR _ (b, i) [] (bs_blocks s) (bs_next s) x Hst1) as (s2 & E2 & Hst2 & Hm2 & Hv2); [done|auto|done|].
    destruct (step_ok s2 v BUILDER_STATE_PAIR _ (b, i) [x] (bs_blocks s) (bs_next s) y Hst2) as (s3 & E3 & Hst3 & Hm3 & Hv3); [done|auto|done|].
    destruct (pair_end_ok s3 v _ b i x y (bs_blocks s) (bs_next s) cells Hst3 Hb ltac:(by eapply lookup_lt_Some))
      as (c & B & n & vals & E & Hrep & Hr & Hlo & Hvals).
    exists c, B, n, vals. cbn [build_value]. unfold dicey_value_builder_pair_start. srw E1. srw E2. srw E3. rewrite E.
    split_and!; [congruence|done..|]. intros w Hwv. by rewrite Hvals, Hv3, Hv2, Hv1.
Qed.

(** The whole message: header, value, packet. *)
Definition build_message (calloc_ok : Z -> bool) (v : nat) (seq : Z) (op : dicey_op) (path : cstr) (selector : dicey_selector) (a : dicey_arg)
    : bst dicey_packet :=
  dicey_message_builder_init ;;! dicey_message_builder_begin op ;;! dicey_message_builder_set_seq seq ;;!
  dicey_message_builder_set_path path ;;! dicey_message_builder_set_selector selector ;;!
  dicey_message_builder_value_start alloc_ok v ;;! build_value v a ;;! dicey_message_builder_value_end v ;;!
  dicey_message_builder_build calloc_ok.

(** A value built by code that works through value builder [v]. *)
Lemma value_at_ok v m a (s : bstate) F :
  mb_state (bs_msg s) = BUILDER_STATE_PENDING -> owned_root (bs_msg s) None ∅ -> fresh s -> bs_blocks s = F -> builds_at m v a ->
  exists s', value_set s s' a F /\ forall A (k : bst A),
    (dicey_message_builder_value_start alloc_ok v ;;! m ;;! dicey_message_builder_value_end v ;;! k) s = k s'.
Proof.
  intros Hst Ho Hf HF Ha.
  pose proof (value_start_ok s v None ∅ F Ho Hst Hf ltac:(apply map_disjoint_empty_l) ltac:(by rewrite (left_id_L ∅ (∪)))) as E1.
  cbv zeta in E1. match type of E1 with _ = (_, ?x) => set (s2 := x) in E1 end.
  destruct (Ha s2 (bs_next s) 0%nat zero_vlist [CZero DICEY_TYPE_INVALID]) as (c & B & n & vals & E & Hrep & Hr & Hn & _).
  { apply lookup_insert_eq. }
  { split; [apply lookup_insert_eq|]. by exists DICEY_TYPE_INVALID. }
  { subst F. apply (fresh_alloc s). exact Hf. }
  destruct (value_end_ok s _ v a c B n F vals eq_refl) as (s3 & E3 & Hv); [subst F; exact Hf|done..|].
  exists s3. split; [exact Hv|]. intros A k. srw E1. srw E. by srw E3.
Qed.

(** A value built call by call. *)
Lemma value_built_ok v a (s : bstate) F :
  mb_state (bs_msg s) = BUILDER_STATE_PENDING -> owned_root (bs_msg s) None ∅ -> fresh s -> bs_blocks s = F -> arg_ok a ->
  exists s', value_set s s' a F /\ forall A (k : bst A),
    (dicey_message_builder_value_start alloc_ok v ;;! build_value v a ;;! dicey_message_builder_value_end v ;;! k) s = k s'.
Proof. intros Hst Ho Hf HF Ha. apply value_at_ok; try done. intros s1. by apply build_value_ok. Qed.

(** The packet of a pending builder that has everything, whatever the order it was given in. *)
Lemma complete_packet calloc_ok s op path selector a p B F :
  bs_msg s = mk_mb BUILDER_STATE_PENDING op 0 (Some path) selector (Some p) None -> owned_root (bs_msg s) (Some a) B -> B ##ₘ F -> bs_blocks s = B ∪ F ->
  dicey_op_is_valid op = true -> op <> DICEY_OP_GET -> dicey_selector_is_valid selector = true ->
  let r := written_packet calloc_ok op 0 (Some path) selector (Some a) in
  dicey_message_builder_build calloc_ok s = (r, match r with Ok _ => mk_bstate zero_mb (bs_vals s) F (bs_next s) | _ => s end).
Proof.
  intros Hm Ho Hd Hb Hop Hget Hs r. rewrite (build_ok calloc_ok s (Some a) B F Ho); [by rewrite Hm|by rewrite Hm|done|done|].
  rewrite Hm. apply (header_complete op 0 path selector (Some p)); [done|done|]. by rewrite bool_decide_false.
Qed.

(** The packet of a builder with a header and a value. *)
Lemma header_value_packet calloc_ok op seq path selector s s' a F :
  bs_msg s = header op seq path selector None -> value_set s s' a F ->
  dicey_op_is_valid op = true -> op <> DICEY_OP_GET -> dicey_selector_is_valid selector = true ->
  let r := written_packet calloc_ok op (u32 seq) (Some path) selector (Some a) in
  dicey_message_builder_build calloc_ok s' = (r, match r with Ok _ => mk_bstate zero_mb (bs_vals s') F (bs_next s') | _ => s' end) /\
  exists s'', clean_up (dicey_message_builder_build calloc_ok) s' = (r, s'') /\
    match r with Ok _ | Err _ => bs_msg s'' = zero_mb /\ bs_blocks s'' = F | _ => True end.
Proof.
  intros Hm (p & B & Hm' & Ho & Hd & Hb & _) Hop Hget Hs r. rewrite Hm in Hm'.
  assert (mb_borrowed_to (bs_msg s') = None) as Hbo by (by rewrite Hm').
  assert (msgbuilder_is_complete (bs_msg s') = true) as Hc.
  { rewrite Hm'. apply (header_complete op seq path selector (Some p)); [done|done|]. by rewrite bool_decide_false. }
  pose proof (build_ok calloc_ok s' (Some a) B F Ho Hbo Hd Hb Hc) as E. rewrite Hm' in E. cbn [mb_type mb_seq mb_path mb_selector with_state header] in E.
  split; [exact E|].
  destruct (build_then_cleanup calloc_ok (mk_bstate zero_mb ∅ F 0) s' (Some a) B F Ho Hbo Hd Hb eq_refl Hc) as (s'' & E2 & Hbal).
  rewrite Hm' in E2, Hbal. exists s''. split; [exact E2|exact Hbal].
Qed.

Lemma build_message_lemma calloc_ok v seq op path selector a s :
  fresh s -> dicey_op_is_valid op = true -> op <> DICEY_OP_GET -> dicey_selector_is_valid selector = true -> arg_ok a ->
  let r := written_packet calloc_ok op (u32 seq) (Some path) selector (Some a) in
  exists s', build_message calloc_ok v seq op path selector a s = (r, s') /\
    match r with Ok _ => bs_msg s' = zero_mb /\ bs_blocks s' = bs_blocks s | _ => True end.
Proof.
  intros Hf Hop Hget Hs Ha r. unfold build_message, dicey_message_builder_init, put_msg. srun.
  rewrite header_steps_ok by done. cbn [bs_vals bs_blocks bs_next]. set (s1 := mk_bstate _ _ _ _).
  destruct (value_built_ok v a s1 (bs_blocks s)) as (s2 & Hv & E); [done|done|exact Hf|done|done|].
  destruct (header_value_packet calloc_ok op seq path selector s1 s2 a (bs_blocks s)) as [E2 _]; [done..|].
  rewrite E, E2. eexists. split; [reflexivity|]. fold r. by destruct r.
Qed.

End copies.

(** ** Theorems *)

(** C38: [dicey_packet_message] encodes its arguments: for every operation, path, selector and value
    (a valid type, absent exactly for a GET) the packet or the error is that of
    [dtf_message_write], although the value is copied to the heap, read back and released in
    between; no allocated block is left behind, also on errors. *)
Theorem dicey_packet_message_correct alloc_ok calloc_ok seq op path selector value s :
  (forall n, alloc_ok n = true) -> fresh s -> dicey_op_is_valid op = true -> dicey_selector_is_valid selector = true ->
  eqb (bool_decide (op = DICEY_OP_GET)) (bool_decide (is_Some value)) = false ->
  match value with Some a => dicey_type_is_valid (arg_type a) = true | None => True end ->
  let r := written_packet calloc_ok op (u32 seq) (Some path) selector value in
  exists s', dicey_packet_message alloc_ok calloc_ok seq op path selector value s = (r, s') /\ balanced s r s'.
Proof. intros Hmem. by apply dicey_packet_message_lemma. Qed.

Definition empty_heap : bstate := mk_bstate zero_mb ∅ ∅ 0.

Lemma empty_heap_fresh : fresh empty_heap.
Proof. intros k [x Hx]. cbn in Hx. by rewrite lookup_empty in Hx. Qed.

Lemma dicey_packet_message_correct_witness :
  exists packet s', dicey_packet_message (fun _ => true) (fun _ => true) 7 DICEY_OP_EXEC [47] (mk_selector (Some [97]) (Some [98]))
    (Some (ArgTuple [ArgU16 500; ArgPair (ArgStr (Some [120])) (ArgArray DICEY_TYPE_BYTE [ArgByte 1])])) empty_heap = (Ok packet, s') /\
  bs_blocks s' = ∅.
Proof.
  destruct (dicey_packet_message_correct (fun _ => true) (fun _ => true) 7 DICEY_OP_EXEC [47] (mk_selector (Some [97]) (Some [98]))
    (Some (ArgTuple [ArgU16 500; ArgPair (ArgStr (Some [120])) (ArgArray DICEY_TYPE_BYTE [ArgByte 1])])) empty_heap)
    as (s' & E & Hb); [reflexivity|exact empty_heap_fresh|reflexivity|reflexivity|reflexivity|reflexivity|].
  exists (match written_packet (fun _ => true) DICEY_OP_EXEC 7 (Some [47]) (mk_selector (Some [97]) (Some [98]))
    (Some (ArgTuple [ArgU16 500; ArgPair (ArgStr (Some [120])) (ArgArray DICEY_TYPE_BYTE [ArgByte 1])])) with
    Ok p => p | _ => mk_packet None 0 end), s'.
  split; [rewrite E; vm_compute; reflexivity|exact (proj2 Hb)].
Defined.

(** C39: the value builders build what their calls describe: for every well-formed argument tree,
    starting, filling and ending its lists and pairs element by element, with blocks that grow and
    move on the way, gives the packet of that tree, and the builder and the heap are as before. *)
Theorem build_message_correct alloc_ok calloc_ok v seq op path selector a s :
  (forall n, alloc_ok n = true) -> fresh s -> dicey_op_is_valid op = true -> op <> DICEY_OP_GET ->
  dicey_selector_is_valid selector = true -> arg_ok a ->
  let r := written_packet calloc_ok op (u32 seq) (Some path) selector (Some a) in
  exists s', build_message alloc_ok calloc_ok v seq op path selector a s = (r, s') /\
    match r with Ok _ => bs_msg s' = zero_mb /\ bs_blocks s' = bs_blocks s | _ => True end.
Proof. intros Hmem. by apply build_message_lemma. Qed.

(** Twenty elements: the block of the list grows twice. *)
Lemma build_message_correct_witness :
  exists packet s', build_message (fun _ => true) (fun _ => true) 0 7 DICEY_OP_SET [47] (mk_selector (Some [97]) (Some [98]))
    (ArgArray DICEY_TYPE_TUPLE (replicate 20 (ArgTuple [ArgUnit; ArgBool 1]))) empty_heap = (Ok packet, s') /\
  bs_blocks s' = ∅.
Proof.
  destruct (build_message_correct (fun _ => true) (fun _ => true) 0 7 DICEY_OP_SET [47] (mk_selector (Some [97]) (Some [98]))
    (ArgArray DICEY_TYPE_TUPLE (replicate 20 (ArgTuple [ArgUnit; ArgBool 1]))) empty_heap)
    as (s' & E & Hb); [reflexivity|exact empty_heap_fresh|reflexivity|discriminate|reflexivity| |].
  - cbn. unfold in_unsigned. split_and!; try reflexivity; try exact I; try (vm_compute; discriminate); try discriminate; repeat constructor; auto.
  - exists (match written_packet (fun _ => true) DICEY_OP_SET 7 (Some [47]) (mk_selector (Some [97]) (Some [98]))
      (Some (ArgArray DICEY_TYPE_TUPLE (replicate 20 (ArgTuple [ArgUnit; ArgBool 1])))) with
      Ok p => p | _ => mk_packet None 0 end), s'.
    split; [rewrite E; vm_compute; reflexivity|]. vm_compute in Hb. exact (proj2 Hb).
Defined.

(** Without memory for the copy of a list, the root of the message keeps pointing to the caller's
    elements, and cleaning up hands them to [free]. *)
Lemma failed_copy_frees_caller calloc_ok seq path t l :
  (dicey_packet_message (fun n => Nat.eqb n 0) calloc_ok seq DICEY_OP_SET path (mk_selector (Some [97]) (Some [98]))
    (Some (ArgArray t l)) empty_heap).1 = Fault InvalidFree.
Proof. reflexivity. Qed.

(** [dicey_value_builder_next] does not look at the result of [arglist_grow]: without memory the
    first element of a list is written through a null pointer. *)
Lemma next_without_memory alloc_ok s v elem kind root t :
  kind = BUILDER_STATE_ARRAY \/ kind = BUILDER_STATE_TUPLE \/ kind = BUILDER_STATE_PAIR ->
  bs_vals s !! v = Some (mk_vb kind (Some root) (mk_vlist t 0 0 None)) -> alloc_ok (bs_next s) = false ->
  (dicey_value_builder_next alloc_ok v elem s).1 = Fault NullDeref.
Proof.
  intros Hk Hv Hm. unfold dicey_value_builder_next, get_val, arglist_grow, balloc, valbuilder_is_valid. srun. rewrite Hv.
  cbn [default from_option id vb_root vb_list vb_state vl_nitems vl_cap vl_elems Z.leb Z.compare]. rewrite bool_decide_true by (by eexists). srun.
  destruct Hk as [-> | [-> | ->]]; unfold sbind, sret; cbn; rewrite Hm; reflexivity.
Qed.

(** The element after 65,535 resets the count of the list: ended there, it is empty. *)
Lemma item_count_wraps alloc_ok s v elem root t n cap p cells :
  n = UINT16_MAX ->
  bs_vals s !! v = Some (mk_vb BUILDER_STATE_TUPLE (Some root) (mk_vlist t n cap (Some p))) -> n < cap ->
  bs_blocks s !! p = Some cells -> zlen cells = cap -> v <> elem ->
  exists s', dicey_value_builder_next alloc_ok v elem s = (Ok tt, s') /\
    bs_vals s' !! v = Some (mk_vb BUILDER_STATE_TUPLE (Some root) (mk_vlist t 0 cap (Some p))).
Proof.
  intros Hn Hv Hcap Hp Hlen Hne. unfold dicey_value_builder_next, get_val, valbuilder_is_valid. srun. rewrite Hv.
  cbn [default from_option id vb_root vb_list vb_state vl_nitems vl_cap vl_elems vl_type]. rewrite bool_decide_true by (by eexists). srun.
  destruct (Z.leb_spec cap n); [lia|]. srun. cbn [default from_option id vl_nitems vl_cap vl_elems vl_type].
  destruct (Z.leb_spec n cap); [|lia]. srun. unfold put_val at 1. srun. set (s1 := mk_bstate _ _ _ _).
  srw (cell_write_at s1 p (Z.to_nat n) cells (CZero DICEY_TYPE_INVALID) Hp ltac:(unfold zlen, UINT16_MAX in *; lia)).
  unfold put_val. eexists. split; [reflexivity|]. cbn [bs_vals with_blocks s1]. rewrite lookup_insert_ne by done. rewrite lookup_insert_eq. by subst n.
Qed.

(** ** Discarding a builder has no way to fail *)

Lemma block_read_no_error p : no_error (block_read p).
Proof. intros s e. unfold block_read, sbind, sget. by destruct (bs_blocks s !! p). Qed.

Lemma bfree_no_error p : no_error (bfree p).
Proof. intros s e. unfold bfree, sbind, sget. by destruct (bs_blocks s !! p). Qed.

#[export] Hint Resolve block_read_no_error bfree_no_error : no_error.

Lemma each_cell_no_error m l : (forall c, no_error (m c)) -> no_error (each_cell m l).
Proof. intros Hm. induction l; cbn [each_cell]; no_error. Qed.

Lemma free_with_no_error m p : (forall c, no_error (m c)) -> no_error (free_with m p).
Proof. intros Hm. unfold free_with, cell_read. no_error. Qed.

#[export] Hint Resolve each_cell_no_error free_with_no_error : no_error.

Lemma free_contents_no_error fuel c : no_error (dicey_arg_free_contents fuel c).
Proof.
  revert c. induction fuel as [|fuel IH]; intros c; [done|]. cbn [dicey_arg_free_contents].
  no_error.
Qed.

Lemma discard_no_error : no_error dicey_message_builder_discard.
Proof.
  assert (forall c, no_error (free_contents c)) as Hf by (intros c s e; apply free_contents_no_error).
  unfold dicey_message_builder_discard, dicey_arg_free_list, dicey_arg_free.
  no_error.
Qed.
