(* ===== verification/Borrowed.v ===== *)
(** * Arguments made of decoded values (src/wirefmt/packet-args.c)

    [dicey_arg_from_borrowed_value] turns a value that was read from a packet into an argument, so
    that it can be sent again. Strings and bytes are borrowed from the packet; the elements of lists
    and pairs get blocks of the heap of the builders. *)

From stdpp Require Import gmap list.
From S2P Require Import Prelude Errors Types Views Writer ValueWrite ValueProbe Value Codec Payload Packet.
From S2P Require Import Builders BuildersTheorems.

#[local] Open Scope list_scope.
#[local] Open Scope Z_scope.

Section borrowed.
Context (alloc_ok : nat -> bool).

(** The result of a call as a value. *)
Definition btry {A} (m : bst A) : bst (dicey_error + A) := fun s =>
  match m s with
  | (Ok a, s') => (Ok (inr a), s')
  | (Err e, s') => (Ok (inl e), s')
  | (Fault f, s') => (Fault f, s')
  | (OutOfFuel, s') => (OutOfFuel, s')
  end.

(** [realloc] of the elements: the old cells, and cells that nobody has written. *)
Definition realloc_cells (elems : nat) (cap : Z) : bst (option nat) :=
  do! old <- block_read elems ;
  do! p <- balloc alloc_ok (old ++ replicate (Z.to_nat cap - length old) (CZero DICEY_TYPE_INVALID)) ;
  match p with None => sret None | Some p => bfree elems ;;! sret (Some p) end.

(** The loop of [value_list_to_arg]. It goes on as long as [dicey_iterator_next] returns an error:
    [value] is only written by the call that ends it. *)
Fixpoint list_to_arg_loop (from : nat * nat -> dicey_value -> bst unit) (fuel : nat) (iter : dicey_iterator) (value : dicey_value)
    (elems : nat) (cap len : Z) : bst (nat * Z) :=
  match fuel with
  | O => slift OutOfFuel
  | S fuel' =>
      match dicey_iterator_next iter with
      | (Ok _, _) => sret (elems, len)
      | (Fault f, _) => sfault f
      | (OutOfFuel, _) => slift OutOfFuel
      | (Err _, iter) =>
          if len =? UINT16_MAX then dicey_arg_free_list (Some elems) len ;;! sfail DICEY_EOVERFLOW else
          do! grown <- (if len =? cap then realloc_cells elems (cap * 2) else sret (Some elems)) ;
          match grown with
          | None => dicey_arg_free_list (Some elems) len ;;! sfail DICEY_ENOMEM
          | Some elems =>
              do! r <- btry (from (elems, Z.to_nat len) value) ;
              match r with
              | inl e => dicey_arg_free_list (Some elems) len ;;! sfail e
              | inr _ => list_to_arg_loop from fuel' iter value elems (if len =? cap then cap * 2 else cap) (len + 1)
              end
          end
      end
  end.

Definition value_list_to_arg (from : nat * nat -> dicey_value -> bst unit) (fuel : nat) (list : dicey_list) (dest : nat * nat) (type : dicey_type) : bst unit :=
  sassert (bool_decide (type = DICEY_TYPE_ARRAY \/ type = DICEY_TYPE_TUPLE)) ;;!
  cell_write dest (CZero type) ;;!
  do! elems <- balloc alloc_ok (replicate 8 (CZero DICEY_TYPE_INVALID)) ;
  match elems with
  | None => sfail DICEY_ENOMEM
  | Some elems =>
      do! (elems, len) <- list_to_arg_loop from fuel (dicey_list_iter list) zero_value elems 8 0 ;
      cell_write dest (if bool_decide (type = DICEY_TYPE_ARRAY) then CArray (type_of_code (dicey_list_type list)) len (Some elems) else CTuple len (Some elems))
  end.

Definition value_pair_to_arg (from : nat * nat -> dicey_value -> bst unit) (dest : nat * nat) (items : dicey_pair) : bst unit :=
  do! p <- balloc alloc_ok [CZero DICEY_TYPE_INVALID] ;
  match p with
  | None => sfail DICEY_ENOMEM
  | Some p =>
      do! r <- btry (from (p, 0%nat) (first items)) ;
      match r with
      | inl first_err => bfree p ;;! sfail first_err
      | inr _ =>
          do! q <- balloc alloc_ok [CZero DICEY_TYPE_INVALID] ;
          match q with
          | None => dicey_arg_free (Some p) ;;! sfail DICEY_ENOMEM
          | Some q =>
              do! r <- btry (from (q, 0%nat) (second items)) ;
              match r with
              | inl second_err => dicey_arg_free (Some p) ;;! bfree q ;;! sfail second_err
              | inr _ => cell_write dest (CPair (Some p) (Some q))
              end
          end
      end
  end.

(** A member of the union of [dest]. *)
Definition put_member {A} (dest : nat * nat) (get : res A) (member : A -> dicey_arg) : bst unit :=
  do! x <- slift get ; cell_write dest (CLeaf (member x)).

(** [dest] is zeroed by every caller, so that setting its type leaves a zeroed argument of that type. *)
Fixpoint dicey_arg_from_borrowed_value (fuel : nat) (dest : nat * nat) (value : dicey_value) : bst unit :=
  match fuel with
  | O => slift OutOfFuel
  | S fuel' =>
      let type := dicey_value_get_type (Some value) in
      cell_write dest (CZero type) ;;!
      match type with
      | DICEY_TYPE_UNIT => cell_write dest (CLeaf ArgUnit)
      | DICEY_TYPE_BOOL => put_member dest (dicey_value_get_bool value) (fun b => ArgBool (if b : bool then 1 else 0))
      | DICEY_TYPE_BYTE => put_member dest (dicey_value_get_byte value) ArgByte
      | DICEY_TYPE_FLOAT => put_member dest (dicey_value_get_float value) ArgFloat
      | DICEY_TYPE_INT16 => put_member dest (dicey_value_get_i16 value) ArgI16
      | DICEY_TYPE_INT32 => put_member dest (dicey_value_get_i32 value) ArgI32
      | DICEY_TYPE_INT64 => put_member dest (dicey_value_get_i64 value) ArgI64
      | DICEY_TYPE_UINT16 => put_member dest (dicey_value_get_u16 value) ArgU16
      | DICEY_TYPE_UINT32 => put_member dest (dicey_value_get_u32 value) ArgU32
      | DICEY_TYPE_UINT64 => put_member dest (dicey_value_get_u64 value) ArgU64
      | DICEY_TYPE_ARRAY | DICEY_TYPE_TUPLE =>
          do! list <- slift (dicey_value_get_list value) ; value_list_to_arg (dicey_arg_from_borrowed_value fuel') fuel' list dest type
      | DICEY_TYPE_PAIR => do! items <- slift (dicey_value_get_pair value) ; value_pair_to_arg (dicey_arg_from_borrowed_value fuel') dest items
      | DICEY_TYPE_BYTES =>
          do! (data, len) <- slift (dicey_value_get_bytes value) ;
          if UINT32_MAX <? len then sfail DICEY_EOVERFLOW else cell_write dest (CLeaf (ArgBytes len data))
      | DICEY_TYPE_STR => put_member dest (dicey_value_get_str value) ArgStr
      | DICEY_TYPE_UUID => put_member dest (dicey_value_get_uuid value) ArgUuid
      | DICEY_TYPE_PATH => put_member dest (dicey_value_get_path value) ArgPath
      | DICEY_TYPE_SELECTOR => put_member dest (dicey_value_get_selector value) ArgSelector
      | DICEY_TYPE_ERROR => put_member dest (dicey_value_get_error value) ArgError
      | _ => sfail DICEY_EINVAL
      end
  end.

End borrowed.

(** ** What the argument is *)

(** The argument made of a value: lists lose their elements, and an empty list is an error. *)
Fixpoint echoed (a : dicey_arg) : dicey_error + dicey_arg :=
  match a with
  | ArgInvalid _ | ArgArray _ [] | ArgTuple [] => inl DICEY_EINVAL
  | ArgArray t (_ :: _) => inr (ArgArray t [])
  | ArgTuple (_ :: _) => inr (ArgTuple [])
  | ArgPair x y =>
      match echoed x with
      | inl e => inl e
      | inr x' => match echoed y with inl e => inl e | inr y' => inr (ArgPair x' y') end
      end
  | ArgBool b => inr (ArgBool (if b =? 0 then 0 else 1))
  | ArgBytes len _ => if UINT32_MAX <? len then inl DICEY_EOVERFLOW else inr a
  | ArgStr s => inr (ArgStr (Some (default [] s)))
  | ArgError e => inr (ArgError (mk_errmsg (err_code e) (errmsg_norm (err_message e))))
  | _ => inr a
  end.

(** *** Values that come back as they are *)

(** No lists, and booleans that are 0 or 1. *)
Fixpoint listless (a : dicey_arg) : bool :=
  match a with
  | ArgInvalid _ | ArgArray _ _ | ArgTuple _ => false
  | ArgPair x y => listless x && listless y
  | ArgBool b => (b =? 0) || (b =? 1)
  | _ => true
  end.

(** The argument made of such a value is encoded as the value was, and is read back as that value. *)
Lemma echoed_listless a : arg_ok a -> listless a = true -> zlen (encode_content a) <= UINT32_MAX ->
  exists a', echoed a = inr a' /\ arg_ok a' /\ arg_type a' = arg_type a /\ encode_content a' = encode_content a /\ forall w, denotes w a' -> denotes w a.
Proof.
  revert a. refine (dicey_arg_ind' _ _ _ _ _); [|done|done|].
  - intros a. destruct a as [| |b| | | | | | | | |t l|l|x y|len d|s| | | |e]; try done; intros Ha Hl Hz; cbn [echoed]; try by eexists.
    + cbn in Hl. eexists. split; [reflexivity|]. destruct (Z.eqb_spec b 0) as [->|Hb]; [done|].
      destruct (Z.eqb_spec b 1) as [->|]; [done|done].
    + destruct Ha as (d' & -> & -> & Hd). cbn [encode_content default from_option id] in Hz. rewrite zlen_app, zlen_le_bytes in Hz.
      destruct (Z.ltb_spec UINT32_MAX (zlen d')); [lia|]. eexists. split; [reflexivity|]. split_and!; try done. by exists d'.
    + eexists. split; [reflexivity|]. split_and!; try done. intros w Hw. inversion Hw; subst. by apply (den_str s).
    + destruct e as [c m]. eexists. split; [reflexivity|]. cbn in Ha. destruct Ha as [Hc Hm].
      assert (default [] (errmsg_norm m) = default [] m) as Hn by (by destruct m as [[|]|]).
      split_and!; [split; cbn; [done|by rewrite Hn]|done|cbn; by rewrite Hn|].
      intros w Hw. inversion Hw; subst. replace (errmsg_norm (errmsg_norm m)) with (errmsg_norm m) by (by destruct m as [[|]|]). constructor.
  - intros x y IHx IHy [Hx Hy] [Lx Ly]%andb_true_iff Hz. cbn [encode_content] in Hz. rewrite !zlen_app, zlen_le_bytes, !zlen_cons in Hz.
    pose proof (zlen_nonneg (encode_content x)). pose proof (zlen_nonneg (encode_content y)).
    destruct (IHx Hx Lx ltac:(lia)) as (x' & Ex & Okx & Tx & Cx & Dx), (IHy Hy Ly ltac:(lia)) as (y' & Ey & Oky & Ty & Cy & Dy).
    exists (ArgPair x' y'). cbn [echoed]. rewrite Ex, Ey. split_and!; try done.
    + cbn. by rewrite Cx, Cy, Tx, Ty.
    + intros w Hw. inversion Hw as [| | | | | | | | | | | | | | | | | |p q view Hit]; subst.
      inversion Hit as [|it i1 v1 p q Hn1 E1 D1 Hit1]; subst. inversion Hit1 as [|it' i2 v2 p q Hn2 E2 D2 Hit2]; subst.
      constructor. econstructor; [done|exact E1|by apply Dx|]. econstructor; [done|exact E2|by apply Dy|exact Hit2].
Qed.

(** How deep the pairs of an argument are nested. *)
Fixpoint pair_depth (a : dicey_arg) : nat :=
  match a with
  | ArgPair x y => S (max (pair_depth x) (pair_depth y))
  | ArgArray _ _ | ArgTuple _ => 2
  | _ => 1
  end.

Section theorems.
Context (alloc_ok : nat -> bool) (Hmem : forall n, alloc_ok n = true).

(** What a call that fills the cell [(b, i)] does to the heap. *)
Definition makes (s : bstate) (b i : nat) (cells : list cell) (r : dicey_error + dicey_arg) (m : bst unit) : Prop :=
  exists c B n, m s = (match r with inl e => Err e | inr _ => Ok tt end, mk_bstate (bs_msg s) (bs_vals s) (<[b := <[i := c]> cells]> (bs_blocks s) ∪ B) n) /\
    match r with inl _ => True | inr a => rep B c a end /\ in_range B (bs_next s) n /\ (bs_next s <= n)%nat.

Definition borrows (v : dicey_value) (a : dicey_arg) : Prop :=
  forall fuel s b i cells, (pair_depth a <= fuel)%nat -> fresh s -> bs_blocks s !! b = Some cells -> (i < length cells)%nat ->
    makes s b i cells (echoed a) (dicey_arg_from_borrowed_value alloc_ok fuel (b, i) v).

(** A cell written twice. *)
Lemma write_twice s b i cells c0 c : bs_blocks s !! b = Some cells -> (i < length cells)%nat ->
  (cell_write (b, i) c0 ;;! cell_write (b, i) c) s = (Ok tt, mk_bstate (bs_msg s) (bs_vals s) (<[b := <[i := c]> cells]> (bs_blocks s) ∪ ∅) (bs_next s)).
Proof.
  intros Hb Hi. srw (cell_write_at s b i cells c0 Hb Hi).
  rewrite (cell_write_at (with_blocks s _) b i (<[i := c0]> cells) c); [|apply lookup_insert_eq|by rewrite length_insert].
  unfold with_blocks. cbn. by rewrite insert_insert_eq, list_insert_insert_eq, (right_id_L ∅ (∪)).
Qed.

Lemma makes_leaf s b i cells a c0 : is_leaf a -> bs_blocks s !! b = Some cells -> (i < length cells)%nat ->
  makes s b i cells (inr a) (cell_write (b, i) c0 ;;! cell_write (b, i) (CLeaf a)).
Proof.
  intros Ha Hb Hi. exists (CLeaf a), ∅, (bs_next s). rewrite (write_twice s b i cells c0 (CLeaf a) Hb Hi).
  split_and!; [done|by constructor|apply range_empty|done].
Qed.

Lemma makes_error s b i cells e c0 : bs_blocks s !! b = Some cells -> (i < length cells)%nat ->
  makes s b i cells (inl e) (cell_write (b, i) c0 ;;! sfail e).
Proof.
  intros Hb Hi. exists c0, ∅, (bs_next s). srw (cell_write_at s b i cells c0 Hb Hi). rewrite (right_id_L ∅ (∪)).
  split_and!; [done|done|apply range_empty|done].
Qed.

Lemma borrows_leaf v a : denotes v a -> is_leaf a -> borrows v a.
Proof.
  intros Hd Hl [|fuel] s b i cells Hfuel Hf Hb Hi; [destruct a; cbn in Hfuel; lia|].
  destruct Hd as [| | | | | | | | | |d| | | | | | | |]; try done; cbn [echoed]; try by apply makes_leaf.
  - replace (if b0 =? 0 then 0 else 1) with (if negb (b0 =? 0) then 1 else 0) by (by destruct (b0 =? 0)). by apply makes_leaf.
  - change (makes s b i cells (if UINT32_MAX <? zlen d then inl DICEY_EOVERFLOW else inr (ArgBytes (zlen d) (Some d)))
      (cell_write (b, i) (CZero DICEY_TYPE_BYTES) ;;! if UINT32_MAX <? zlen d then sfail DICEY_EOVERFLOW else cell_write (b, i) (CLeaf (ArgBytes (zlen d) (Some d))))).
    destruct (UINT32_MAX <? zlen d); [by apply makes_error|by apply makes_leaf].
Qed.
(** The loop ends at the first element; without one it makes an element of a value that was never written. *)
Lemma loop_first iter l from fuel elems s : iterates iter l -> l <> [] ->
  list_to_arg_loop alloc_ok from (S fuel) iter zero_value elems 8 0 s = (Ok (elems, 0), s).
Proof. intros Hi Hl. destruct Hi as [|it it' v x l Hn E _ _]; [done|]. cbn [list_to_arg_loop]. by rewrite E. Qed.

Lemma loop_none iter fuel elems s cells : iterates iter [] -> bs_blocks s !! elems = Some cells -> (0 < length cells)%nat ->
  list_to_arg_loop alloc_ok (dicey_arg_from_borrowed_value alloc_ok (S fuel)) (S fuel) iter zero_value elems 8 0 s =
    (Err DICEY_EINVAL, with_blocks s (<[elems := <[0%nat := CZero DICEY_TYPE_INVALID]> cells]> (bs_blocks s))).
Proof.
  intros Hi Hb Hl. inversion Hi as [? Hn|]; subst. cbn [list_to_arg_loop]. unfold dicey_iterator_next. rewrite Hn. cbn [negb].
  change (0 =? UINT16_MAX) with false. change (0 =? 8) with false. cbv iota. erewrite (sbind_Ok (sret (Some elems))); [|reflexivity]. cbv iota.
  erewrite (sbind_Ok (btry _) _ _ (inl DICEY_EINVAL)); [reflexivity|]. unfold btry. cbn [dicey_arg_from_borrowed_value]. srw (cell_write_at s elems 0 cells (CZero DICEY_TYPE_INVALID) Hb Hl). reflexivity.
Qed.

(** The list, without its elements. *)
Definition emptied (type : dicey_type) (t : dicey_type) : dicey_arg := if bool_decide (type = DICEY_TYPE_ARRAY) then ArgArray t [] else ArgTuple [].

Lemma list_makes fuel list l type s b i cells : type = DICEY_TYPE_ARRAY \/ type = DICEY_TYPE_TUPLE -> iterates (dicey_list_iter list) l ->
  fresh s -> bs_blocks s !! b = Some cells -> (i < length cells)%nat ->
  makes s b i cells (match l with [] => inl DICEY_EINVAL | _ :: _ => inr (emptied type (type_of_code (dicey_list_type list))) end)
    (cell_write (b, i) (CZero type) ;;! value_list_to_arg alloc_ok (dicey_arg_from_borrowed_value alloc_ok (S fuel)) (S fuel) list (b, i) type).
Proof.
  intros Ht Hi Hf Hb Hlt. assert (b < bs_next s)%nat as Hlow by (apply Hf; by eexists). set (n := bs_next s) in *. set (zeros := replicate 8 (CZero DICEY_TYPE_INVALID)).
  assert (bs_blocks s !! n = None) as Hnew by (by apply fresh_None).
  set (s2 := mk_bstate (bs_msg s) (bs_vals s) (<[n := zeros]> (<[b := <[i := CZero type]> cells]> (bs_blocks s))) (S n)).
  assert (bs_blocks s2 !! b = Some (<[i := CZero type]> cells)) as Hb2 by (cbn; rewrite lookup_insert_ne by lia; apply lookup_insert_eq).
  assert (value_list_to_arg alloc_ok (dicey_arg_from_borrowed_value alloc_ok (S fuel)) (S fuel) list (b, i) type (with_blocks s (<[b := <[i := CZero type]> cells]> (bs_blocks s))) =
    (do! (elems, len) <- list_to_arg_loop alloc_ok (dicey_arg_from_borrowed_value alloc_ok (S fuel)) (S fuel) (dicey_list_iter list) zero_value n 8 0 ;
     cell_write (b, i) (if bool_decide (type = DICEY_TYPE_ARRAY) then CArray (type_of_code (dicey_list_type list)) len (Some elems) else CTuple len (Some elems))) s2) as E.
  { unfold value_list_to_arg. rewrite bool_decide_true by done. erewrite (sbind_Ok (sassert true)); [|reflexivity].
    rewrite (sbind_Ok _ _ _ _ _ (cell_write_at (with_blocks s (<[b := <[i := CZero type]> cells]> (bs_blocks s))) b i (<[i := CZero type]> cells) (CZero type) (lookup_insert_eq _ _ _) ltac:(by rewrite length_insert))). cbn [with_blocks bs_blocks].
    rewrite insert_insert_eq, list_insert_insert_eq. by rewrite (sbind_Ok _ _ _ _ _ (balloc_at alloc_ok Hmem _ zeros)). }
  unfold makes. srw (cell_write_at s b i cells (CZero type) Hb Hlt). rewrite E. destruct l as [|x l].
  - rewrite (sbind_Err _ _ _ _ _ (loop_none _ fuel n s2 zeros Hi ltac:(apply lookup_insert_eq) ltac:(cbn; lia))).
    exists (CZero type), {[n := zeros]}, (S n). split_and!; [|done| |lia].
    + f_equal. unfold with_blocks. cbn. f_equal. rewrite insert_insert_eq, <- insert_union_singleton_r; [done|]. rewrite lookup_insert_ne by lia. done.
    + intros k [y Hy]. apply lookup_singleton_Some in Hy as [<- _]. lia.
  - rewrite (sbind_Ok _ _ _ _ _ (loop_first _ (x :: l) _ fuel n s2 Hi ltac:(done))). cbv iota beta.
    rewrite (cell_write_at s2 b i _ _ Hb2 ltac:(by rewrite length_insert)). eexists _, {[n := zeros]}, (S n). split_and!; [| | |lia].
    + f_equal. unfold with_blocks. cbn. f_equal. rewrite list_insert_insert_eq, insert_insert_ne by lia. rewrite insert_insert_eq, <- insert_union_singleton_r; [done|].
      rewrite lookup_insert_ne by lia. done.
    + rewrite <- insert_empty. unfold emptied. case_bool_decide; [apply (rep_array _ n [] zeros [] ∅)|apply (rep_tuple n [] zeros [] ∅)]; (constructor || apply lookup_empty).
    + intros k [y Hy]. apply lookup_singleton_Some in Hy as [<- _]. lia.
Qed.

(** An argument in a block of its own. *)
Definition with_block (s : bstate) (cells : list cell) : bstate :=
  mk_bstate (bs_msg s) (bs_vals s) (<[bs_next s := cells]> (bs_blocks s)) (S (bs_next s)).

Lemma borrow_new v a fuel s : borrows v a -> (pair_depth a <= fuel)%nat -> fresh s ->
  exists c B n, dicey_arg_from_borrowed_value alloc_ok fuel (bs_next s, 0%nat) v (with_block s [CZero DICEY_TYPE_INVALID]) =
      (match echoed a with inl e => Err e | inr _ => Ok tt end, mk_bstate (bs_msg s) (bs_vals s) (bs_blocks s ∪ <[bs_next s := [c]]> B) n) /\
    match echoed a with inl _ => True | inr a' => rep B c a' end /\ B !! bs_next s = None /\ in_range (<[bs_next s := [c]]> B) (bs_next s) n /\ (bs_next s < n)%nat.
Proof.
  intros Hb Hd Hf. set (s1 := with_block s _). assert (fresh s1) as Hf1 by (by apply fresh_alloc).
  destruct (Hb fuel s1 (bs_next s) 0%nat [CZero DICEY_TYPE_INVALID] Hd Hf1 (lookup_insert_eq _ _ _) ltac:(cbn; lia)) as (c & B & n & E & Hrep & Hr & Hn).
  cbn in Hr, Hn. exists c, B, n. rewrite E. cbn. rewrite insert_insert_eq. split_and!; [|done| | |lia].
  - do 2 f_equal. rewrite <- insert_union_l, insert_union_r; [done|]. by apply fresh_None.
  - eapply range_None; [done|lia].
  - apply range_insert; [eapply range_weaken; [done|lia..]|lia].
Qed.

Lemma btry_run (m : bst unit) (r : dicey_error + dicey_arg) s s' : m s = (match r with inl e => Err e | inr _ => Ok tt end, s') ->
  btry m s = (Ok (match r with inl e => inl e | inr _ => inr tt end), s').
Proof. intros E. unfold btry. rewrite E. by destruct r. Qed.

Lemma fresh_disjoint s B hi : fresh s -> in_range B (bs_next s) hi -> bs_blocks s ##ₘ B.
Proof.
  intros Hf Hr. apply map_disjoint_spec. intros k x y Hx Hy. specialize (Hf k ltac:(by eexists)). specialize (Hr k ltac:(by eexists)). lia.
Qed.

(** A block that was allocated is freed again. *)
Lemma bfree_last s msg vals B p c n : fresh s -> p = bs_next s -> B !! p = None ->
  bfree p (mk_bstate msg vals (bs_blocks s ∪ <[p := [c]]> B) n) = (Ok tt, mk_bstate msg vals (bs_blocks s ∪ B) n).
Proof.
  intros Hf -> HB. pose proof (fresh_None s (bs_next s) Hf ltac:(lia)) as Hn. rewrite (bfree_at _ (bs_blocks s ∪ B) (bs_next s) [c]); [done| |].
  - cbn. by rewrite insert_union_r.
  - by apply lookup_union_None.
Qed.

Lemma pair_makes fuel v1 v2 x y s b i cells : borrows v1 x -> borrows v2 y -> (pair_depth x <= fuel)%nat -> (pair_depth y <= fuel)%nat ->
  fresh s -> bs_blocks s !! b = Some cells -> (i < length cells)%nat ->
  makes s b i cells (echoed (ArgPair x y))
    (cell_write (b, i) (CZero DICEY_TYPE_PAIR) ;;! value_pair_to_arg alloc_ok (dicey_arg_from_borrowed_value alloc_ok fuel) (b, i) (mk_pair v1 v2)).
Proof.
  intros H1 H2 D1 D2 Hf Hb Hi. assert (b < bs_next s)%nat as Hlow by (apply Hf; by eexists). set (z := CZero DICEY_TYPE_PAIR).
  unfold makes. srw (cell_write_at s b i cells z Hb Hi). set (s0 := with_blocks _ _). assert (fresh s0) as Hf0 by (by eapply fresh_write).
  unfold value_pair_to_arg. srw (balloc_at alloc_ok Hmem s0 [CZero DICEY_TYPE_INVALID]). cbn [first second].
  destruct (borrow_new v1 x fuel s0 H1 D1 Hf0) as (c & B & n & E & Hrep & Hp & Hr & Hn). srw (btry_run _ _ _ _ E). cbn [echoed].
  destruct (echoed x) as [e|x'].
  { srw (bfree_last s0 (bs_msg s0) (bs_vals s0) B (bs_next s0) c n Hf0 eq_refl Hp). exists z, B, n. split_and!; [done|done| |cbn in Hn; lia].
    intros k Hk. apply Hr. destruct (decide (k = bs_next s0)) as [->|]; [by rewrite lookup_insert_eq|by rewrite lookup_insert_ne]. }
  set (s1 := mk_bstate _ _ _ n). assert (fresh s1) as Hf1 by (apply (fresh_union s0); [done|done|lia]).
  srw (balloc_at alloc_ok Hmem s1 [CZero DICEY_TYPE_INVALID]).
  destruct (borrow_new v2 y fuel s1 H2 D2 Hf1) as (d & B2 & n2 & E2 & Hrep2 & Hp2 & Hr2 & Hn2). srw (btry_run _ _ _ _ E2). cbn in Hp2, Hr2, Hn2.
  change (bs_next s1) with n.
  destruct (echoed y) as [e|y'].
  { set (F := bs_blocks s0 ∪ <[n := [d]]> B2). assert (<[bs_next s0 := [c]]> B ##ₘ F) as HdF.
    { apply map_disjoint_union_r_2; [symmetry; by eapply fresh_disjoint|by eapply range_disjoint]. }
    assert (bs_blocks s1 ∪ <[n := [d]]> B2 = <[bs_next s0 := [c]]> B ∪ F) as HF.
    { unfold s1, F. cbn [bs_blocks]. rewrite (map_union_comm (bs_blocks s0)) by (by eapply fresh_disjoint). by rewrite (assoc_L (∪)). }
    srw (dicey_arg_free_ok (mk_bstate (bs_msg s1) (bs_vals s1) (bs_blocks s1 ∪ <[n := [d]]> B2) n2) (bs_next s0) c x' B F Hrep Hp HdF HF).
    assert (bs_blocks s0 !! n = None) as Hnone by (apply fresh_None; [done|lia]).
    assert (bfree n (with_blocks (mk_bstate (bs_msg s1) (bs_vals s1) (bs_blocks s1 ∪ <[n := [d]]> B2) n2) F) = (Ok tt, mk_bstate (bs_msg s0) (bs_vals s0) (bs_blocks s0 ∪ B2) n2)) as Efree.
    { rewrite (bfree_at _ (bs_blocks s0 ∪ B2) n [d]); [done|cbn; unfold F; by rewrite insert_union_r|by apply lookup_union_None]. }
    srw Efree. exists z, B2, n2. split_and!; [done|done| |cbn in Hn; lia].
    intros k Hk. destruct (Hr2 k) as [? ?]; [destruct (decide (k = n)) as [->|]; [by rewrite lookup_insert_eq|by rewrite lookup_insert_ne]|cbn in Hn; lia]. }
  set (s2 := mk_bstate _ _ _ n2). assert (bs_blocks s2 !! b = Some (<[i := z]> cells)) as Hb2 by (cbn; do 2 apply lookup_union_Some_l; apply lookup_insert_eq).
  rewrite (cell_write_at s2 b i (<[i := z]> cells) (CPair (Some (bs_next s0)) (Some n)) Hb2 ltac:(by rewrite length_insert)).
  exists (CPair (Some (bs_next s0)) (Some n)), (<[bs_next s0 := [c]]> B ∪ <[n := [d]]> B2), n2.
  unfold with_blocks. cbn. rewrite list_insert_insert_eq. cbn in Hn. split_and!; [| | |lia].
  - do 2 f_equal. by rewrite <- (assoc_L (∪)), insert_union_l, insert_insert_eq.
  - apply rep_pair; [done|done|done|done|]. by eapply range_disjoint.
  - apply range_union; eapply range_weaken; eauto; cbn; lia.
Qed.

Lemma borrows_denoted a : forall v, denotes v a -> borrows v a.
Proof.
  revert a. refine (dicey_arg_ind' (fun a => forall v, denotes v a -> borrows v a) _ _ _ _).
  - intros a. destruct a; try done; intros v Hd; by apply borrows_leaf.
  - intros t l _ v Hd [|[|fuel]] s b i cells Hfuel Hf Hb Hi; [cbn in Hfuel; lia..|]. inversion Hd as [| | | | | | | | | | | | | | | |t' l' view Ht Hit| |]; subst.
    pose proof (list_makes fuel (mk_list (type_code t) view) l DICEY_TYPE_ARRAY s b i cells ltac:(by left) Hit Hf Hb Hi) as Hm.
    cbn [dicey_list_type list_type] in Hm. rewrite type_of_code_code in Hm by done. by destruct l.
  - intros l _ v Hd [|[|fuel]] s b i cells Hfuel Hf Hb Hi; [cbn in Hfuel; lia..|]. inversion Hd as [| | | | | | | | | | | | | | | | |l' view Hit|]; subst.
    pose proof (list_makes fuel (mk_list DICEY_VARIANT_ID view) l DICEY_TYPE_TUPLE s b i cells ltac:(by right) Hit Hf Hb Hi) as Hm. by destruct l.
  - intros x y Hx Hy v Hd [|fuel] s b i cells Hfuel Hf Hb Hi; [cbn in Hfuel; lia|]. cbn [pair_depth] in Hfuel.
    inversion Hd as [| | | | | | | | | | | | | | | | | |x' y' view Hit]; subst.
    inversion Hit as [|it i1 v1 x0 l1 Hn1 E1 D1 Hit1]; subst. inversion Hit1 as [|it' i2 v2 x0' l2 Hn2 E2 D2 Hit2]; subst.
    pose proof (pair_makes fuel v1 v2 x y s b i cells (Hx _ D1) (Hy _ D2) ltac:(lia) ltac:(lia) Hf Hb Hi) as Hm.
    unfold makes in *. destruct Hm as (c & B & n & Hm & Hrest). exists c, B, n. split; [|exact Hrest]. rewrite <- Hm.
    cbn [dicey_arg_from_borrowed_value dicey_value_get_type val_type]. unfold sbind at 1 3. destruct (cell_write (b, i) (CZero DICEY_TYPE_PAIR) s) as [[u|e|f|] s']; try done.
    assert (dicey_value_get_pair (mk_value DICEY_TYPE_PAIR (InfoList DICEY_VARIANT_ID 2 view)) = Ok (mk_pair v1 v2)) as ->; [|done].
    unfold dicey_value_get_pair. cbn. unfold pair_item, dicey_list_iter, sbind, sret. cbn. rewrite E1. cbn. by rewrite E2.
Qed.

End theorems.
