(* ===== verification/Owning.v ===== *)
(** * Owning values and addresses (src/wirefmt/value.c, src/ipc/address.c)

    An owning value keeps the packet that its value points into. An address is the name of a socket
    in memory of its own; a leading [@] stands for the abstract namespace of Linux. *)

From stdpp Require Import list.
From S2P Require Import Prelude Errors Types Views Writer ValueWrite ValueProbe Value Codec Payload Packet BuildersTheorems.

#[local] Open Scope list_scope.
#[local] Open Scope Z_scope.

(** ** Owning values *)

Record dicey_owning_value : Type := mk_owning { ov_owner : dicey_packet; ov_value : dicey_value }.

Definition zero_owning : dicey_owning_value := mk_owning DICEY_EMPTY_PACKET zero_value.

Definition dicey_owning_value_is_valid (value : option dicey_owning_value) : bool :=
  match value with Some v => dicey_packet_is_valid (ov_owner v) | None => false end.

Definition dicey_owning_value_borrow (value : option dicey_owning_value) : option dicey_value :=
  if dicey_owning_value_is_valid value then ov_value <$> value else None.

Definition dicey_owning_value_deinit (value : option dicey_owning_value) : option dicey_owning_value :=
  if dicey_owning_value_is_valid value then Some zero_owning else value.

Definition dicey_owning_value_from_parts (owner : dicey_packet) (wanted_bit : dicey_value) : res dicey_owning_value :=
  let! _ := oassert (dicey_packet_is_valid owner) in Ok (mk_owning owner wanted_bit).

(** The packet of the caller as it is afterwards, and the owning value. *)
Definition dicey_packet_into_value (packet : dicey_packet) : res dicey_owning_value * dicey_packet :=
  (if negb (dicey_packet_is_valid packet) then Err DICEY_EINVAL else
   let! msg := dicey_packet_as_message packet in
   dicey_owning_value_from_parts packet (msg_value msg), packet).

(** The value of a message that was written is in the owning value made of its packet. *)
Lemma into_value_denotes op seq path t e a : message_ok op path t e (Some a) ->
  exists ov v, (dicey_packet_into_value (packet_of (written op seq path t e (Some a)))).1 = Ok ov /\ dicey_owning_value_borrow (Some ov) = Some v /\ denotes v a /\
    dicey_owning_value_borrow (dicey_owning_value_deinit (Some ov)) = None.
Proof.
  intros Hok. destruct (written_payload op seq path t e (Some a) Hok) as [Hp _]. pose proof (packet_of_valid _ Hp) as Hv.
  destruct (written_as_message op seq path t e (Some a) Hok) as (v & Hm & Hd). unfold dicey_packet_into_value. rewrite Hv. cbn [negb fst].
  rewrite Hm. cbn [obind msg_value]. unfold dicey_owning_value_from_parts. rewrite Hv. cbn [oassert obind]. eexists _, v.
  split_and!; [done| |done|]; unfold dicey_owning_value_deinit, dicey_owning_value_borrow, dicey_owning_value_is_valid; cbn [ov_owner]; by rewrite Hv.
Qed.

(** The packet of the caller is still there: releasing both frees its memory twice. *)
Lemma packet_not_consumed packet ov : (dicey_packet_into_value packet).1 = Ok ov ->
  dicey_packet_is_valid (dicey_packet_into_value packet).2 = true /\ ov_owner ov = (dicey_packet_into_value packet).2.
Proof.
  unfold dicey_packet_into_value. cbn [fst snd]. destruct (dicey_packet_is_valid packet) eqn:Hv; [|done]. cbn [negb].
  destruct (dicey_packet_as_message packet); try done. cbn [obind]. unfold dicey_owning_value_from_parts. rewrite Hv. by intros [= <-].
Qed.

(** ** Addresses *)

(** [addr] is the memory behind the pointer. *)
Record dicey_addr : Type := mk_addr { addr : option (list Z); addr_len : Z }.

Definition zero_addr : dicey_addr := mk_addr None 0.

Section addresses.
Context (malloc_ok : Z -> bool).

Definition cnkdup (str : list Z) (len : Z) : res (option (list Z)) :=
  if negb (malloc_ok len) then Ok None else let! copy := mem_read str len in Ok (Some copy).

(** The [@] of an abstract socket becomes a NUL. *)
Definition connstr_fixup (connstr : list Z) (len : Z) : res (option (list Z)) :=
  let! str_copy := cnkdup connstr (len + 1) in
  match str_copy with
  | None => Ok None
  | Some (c :: rest) => Ok (Some ((if c =? 64 then 0 else c) :: rest))
  | Some [] => Fault OutOfBounds
  end.

Definition dicey_addr_deinit (a : option dicey_addr) : option dicey_addr := match a with Some _ => Some zero_addr | None => None end.

Definition dicey_addr_dup (src : dicey_addr) : res dicey_addr :=
  match addr src with
  | None => Ok zero_addr
  | Some str =>
      if addr_len src =? 0 then Ok zero_addr else
      let! addr_copy := cnkdup str (addr_len src + 1) in
      match addr_copy with None => Err DICEY_ENOMEM | Some copy => Ok (mk_addr (Some copy) (addr_len src)) end
  end.

(** [None] without memory. *)
Definition dicey_addr_from_str (str : cstr) : res (option dicey_addr) :=
  let! connstr := connstr_fixup (str ++ [0]) (zlen str) in
  match connstr with None => Ok None | Some connstr => Ok (Some (mk_addr (Some connstr) (zlen str))) end.

End addresses.

Lemma mem_read_all l : mem_read l (zlen l) = Ok l.
Proof. unfold mem_read. pose proof (zlen_nonneg l). destruct (Z.ltb_spec (zlen l) (zlen l)); [lia|]. by rewrite ztake_all. Qed.

(** The address of a string, and that a copy of it is the same address. *)
Lemma addr_from_str_dup malloc_ok c str : (forall n, malloc_ok n = true) ->
  let a := mk_addr (Some ((if c =? 64 then 0 else c) :: str ++ [0])) (zlen (c :: str)) in
  dicey_addr_from_str malloc_ok (c :: str) = Ok (Some a) /\ dicey_addr_dup malloc_ok a = Ok a.
Proof.
  intros Hm a. assert (zlen (c :: str) + 1 = zlen (c :: str ++ [0])) as Hl by (rewrite !zlen_cons, zlen_app; change (zlen [0]) with 1; lia).
  unfold dicey_addr_from_str, connstr_fixup, dicey_addr_dup, cnkdup. rewrite !Hm. cbn [negb app addr addr_len a]. rewrite Hl.
  pose proof (zlen_nonneg str). destruct (Z.eqb_spec (zlen (c :: str)) 0); [rewrite zlen_cons in *; lia|].
  replace (zlen (c :: str ++ [0])) with (zlen ((if c =? 64 then 0 else c) :: str ++ [0])) at 2 by (by rewrite !zlen_cons).
  by rewrite !mem_read_all.
Qed.

(** An address without a NUL at its end, which the header allows, is read past its end by [dicey_addr_dup]. *)
Lemma addr_dup_reads_past_end malloc_ok str : (forall n, malloc_ok n = true) -> str <> [] -> dicey_addr_dup malloc_ok (mk_addr (Some str) (zlen str)) = Fault OutOfBounds.
Proof.
  intros Hm Hne. unfold dicey_addr_dup, cnkdup. cbn [addr addr_len]. rewrite Hm. pose proof (zlen_nonneg str).
  destruct (Z.eqb_spec (zlen str) 0) as [Hz|Hz]; [by apply zlen_0_nil in Hz|]. cbn [negb]. unfold mem_read. destruct (Z.ltb_spec (zlen str) (zlen str + 1)); [done|lia].
Qed.
