(* ===== verification/Names.v ===== *)
(** * Names of the builtin objects (include/dicey/ipc/builtins/)

    Paths, traits and elements that every server has and the client asks for. *)

From S2P Require Import Prelude Types.
From Stdlib Require Import String Ascii.
From stdpp Require Import list.

#[local] Open Scope Z_scope.

(** The bytes of a string literal, without its terminator. *)
Definition string_bytes (s : String.string) : cstr := (fun a => Z.of_N (Ascii.N_of_ascii a)) <$> String.list_ascii_of_string s.

(** introspection.h *)
Definition DICEY_REGISTRY_PATH : cstr := string_bytes "/dicey/registry"%string.
Definition METATRAITS_PREFIX : cstr := string_bytes "/dicey/registry/traits/"%string.
Definition DICEY_INTROSPECTION_DATA_PROP_NAME : cstr := string_bytes "Data"%string.
Definition DICEY_INTROSPECTION_XML_PROP_NAME : cstr := string_bytes "XML"%string.
Definition DICEY_REGISTRY_TRAIT_NAME : cstr := string_bytes "dicey.Registry"%string.
Definition DICEY_REGISTRY_OBJECTS_PROP_NAME : cstr := string_bytes "Objects"%string.
Definition DICEY_REGISTRY_PATHS_PROP_NAME : cstr := string_bytes "Paths"%string.
Definition DICEY_REGISTRY_TRAITS_PROP_NAME : cstr := string_bytes "Traits"%string.
Definition DICEY_REGISTRY_ELEMENT_EXISTS_OP_NAME : cstr := string_bytes "ElementExists"%string.
Definition DICEY_REGISTRY_PATH_EXISTS_OP_NAME : cstr := string_bytes "PathExists"%string.
Definition DICEY_REGISTRY_PATH_IS_ALIAS_OP_NAME : cstr := string_bytes "PathIsAlias"%string.
Definition DICEY_REGISTRY_REAL_PATH_OP_NAME : cstr := string_bytes "RealPath"%string.
Definition DICEY_REGISTRY_TRAIT_EXISTS_OP_NAME : cstr := string_bytes "TraitExists"%string.
Definition DICEY_TRAIT_OPERATIONS_PROP_NAME : cstr := string_bytes "Operations"%string.
Definition DICEY_TRAIT_PROPERTIES_PROP_NAME : cstr := string_bytes "Properties"%string.
Definition DICEY_TRAIT_SIGNALS_PROP_NAME : cstr := string_bytes "Signals"%string.

(** server.h *)
Definition DICEY_SERVER_PATH : cstr := string_bytes "/dicey/server"%string.
Definition DICEY_EVENTMANAGER_TRAIT_NAME : cstr := string_bytes "dicey.SignalManager"%string.
Definition DICEY_EVENTMANAGER_SUBSCRIBE_OP_NAME : cstr := string_bytes "Subscribe"%string.
Definition DICEY_EVENTMANAGER_UNSUBSCRIBE_OP_NAME : cstr := string_bytes "Unsubscribe"%string.

(** plugins.h *)
Definition DICEY_SERVER_PLUGINS_PATH : cstr := string_bytes "/dicey/server/plugins"%string.
Definition DICEY_PLUGINMANAGER_TRAIT_NAME : cstr := string_bytes "dicey.PluginManager"%string.
Definition DICEY_PLUGINMANAGER_LISTPLUGINS_OP_NAME : cstr := string_bytes "ListPlugins"%string.
Definition DICEY_PLUGIN_TRAIT_NAME : cstr := string_bytes "dicey.Plugin"%string.
Definition DICEY_PLUGIN_NAME_PROP_NAME : cstr := string_bytes "Name"%string.
Definition DICEY_PLUGIN_PATH_PROP_NAME : cstr := string_bytes "Path"%string.
Definition PLUGINMANAGER_HANDSHAKEINTERNAL_START_OP_NAME : cstr := string_bytes "HandshakeInternalStart"%string.
Definition PLUGIN_COMMAND_SIGNAL_NAME : cstr := string_bytes "Command"%string.
Definition PLUGIN_QUITTING_OP_NAME : cstr := string_bytes "Quitting"%string.
Definition PLUGIN_READY_OP_NAME : cstr := string_bytes "Ready"%string.
Definition PLUGIN_REPLY_OP_NAME : cstr := string_bytes "Reply"%string.

(** [DICEY_SERVER_PLUGINS_PATH "/"] *)
Definition METAPLUGIN_PREFIX : cstr := DICEY_SERVER_PLUGINS_PATH ++ [47].

(** [DICEY_METAPLUGIN_FORMAT] expanded for a name. *)
Definition DICEY_METAPLUGIN_FORMAT (name : cstr) : cstr := DICEY_SERVER_PLUGINS_PATH ++ [47] ++ name.

Definition PLUGIN_COMMAND_SIGNAL_SEL : dicey_selector := mk_selector (Some DICEY_PLUGIN_TRAIT_NAME) (Some PLUGIN_COMMAND_SIGNAL_NAME).
Definition COMMAND_REPLY_SEL : dicey_selector := mk_selector (Some DICEY_PLUGIN_TRAIT_NAME) (Some PLUGIN_REPLY_OP_NAME).

(** plugin-common.h *)
Definition PLUGIN_COMMAND_DO_WORK : Z := 0.
Definition PLUGIN_COMMAND_HALT : Z := 1.
