(* ===== verification/PluginData.v ===== *)
(** * The data of plugins (src/ipc/server/plugins-internal.h, include/dicey/ipc/plugins.h)

    A plugin is a child process that talks to the server as a client. What the server keeps about
    one besides its client, the requests about plugins that other threads send to the loop, and
    what the outside sees of them. *)

From S2P Require Import Prelude Errors Types Views Writer ValueWrite ValueProbe Value Packet WaitingList Builders BuildersTheorems.
From stdpp Require Import list.

#[local] Open Scope Z_scope.

Inductive dicey_plugin_state : Type :=
  | PLUGIN_STATE_INVALID
  | PLUGIN_STATE_SPAWNED
  | PLUGIN_STATE_NAME_ASSIGNED
  | PLUGIN_STATE_RUNNING
  | PLUGIN_STATE_TERMINATED
  | PLUGIN_STATE_QUITTING
  | PLUGIN_STATE_FAILED
  | PLUGIN_STATE_COMPLETE.

#[export] Instance dicey_plugin_state_eq_dec : EqDecision dicey_plugin_state.
Proof. solve_decision. Defined.

Inductive dicey_plugin_event_kind : Type :=
  | DICEY_PLUGIN_EVENT_SPAWNED
  | DICEY_PLUGIN_EVENT_GOT_NAME
  | DICEY_PLUGIN_EVENT_READY
  | DICEY_PLUGIN_EVENT_TERMINATED
  | DICEY_PLUGIN_EVENT_QUITTING
  | DICEY_PLUGIN_EVENT_QUIT
  | DICEY_PLUGIN_EVENT_FAILED
  | DICEY_PLUGIN_EVENT_UNRESPONSIVE.

#[export] Instance dicey_plugin_event_kind_eq_dec : EqDecision dicey_plugin_event_kind.
Proof. solve_decision. Defined.

(** A string in memory of its own: NULL, a string, or memory that was freed. *)
Inductive str_ptr : Type :=
  | NullStr
  | AStr (s : cstr)
  | FreedStr.

#[export] Instance str_ptr_eq_dec : EqDecision str_ptr.
Proof. solve_decision. Defined.

Record dicey_plugin_info : Type := mk_info { pi_name : str_ptr; pi_path : str_ptr }.

(** The handles of a plugin: its process, from [uv_spawn] to the callback of [uv_close], and the
    timer with the callback it is armed with. A handle may be closed without a callback. *)
Inductive process_handle : Type :=
  | NoProcess
  | ProcessActive
  | ProcessExited
  | ProcessClosing
  | ProcessClosed.

Inductive timer_cb : Type :=
  | no_handshake_timeout
  | terminate_timedout.

Inductive timer_handle : Type :=
  | NoTimer
  | TimerStopped
  | TimerArmed (cb : timer_cb)
  | TimerClosing (with_cb : bool)
  | TimerClosed.

#[export] Instance process_handle_eq_dec : EqDecision process_handle.
Proof. solve_decision. Defined.
#[export] Instance timer_cb_eq_dec : EqDecision timer_cb.
Proof. solve_decision. Defined.
#[export] Instance timer_handle_eq_dec : EqDecision timer_handle.
Proof. solve_decision. Defined.

(** [dicey_client_data_after_cleanup_fn]: the one function of this type. *)
Inductive after_cleanup_fn : Type :=
  | finish_cleanup.

(** [struct plugin_terminate_state], in memory of its own behind the timer. *)
Inductive plugin_terminate_state : Type :=
  | NoTState
  | ATState (after_cleanup : option after_cleanup_fn)
  | FreedTState.

(** Pointers to variables and semaphores of the thread that waits are their addresses. *)
Record plugin_spawn_metadata : Type := mk_md {
  md_out_info : option nat; md_wait_sem : option nat; md_error : option nat; md_retval : option nat;
}.

Definition zero_md : plugin_spawn_metadata := mk_md None None None None.

(** The callback of a job: one of the user, or the one of a thread that waits. *)
Inductive on_work_done_fn : Type :=
  | user_on_done
  | sync_on_done.

Record plugin_work_request : Type := mk_work { pw_jid : Z; pw_on_done : on_work_done_fn; pw_ctx : nat }.

Definition WORK_REQUEST_SIZE : Z := 24.

(** [struct dicey_plugin_data] without the client it starts with. *)
Record dicey_plugin_data : Type := mk_plugin {
  pd_process : process_handle; process_timer : timer_handle; timer_data : plugin_terminate_state;
  pd_state : dicey_plugin_state; pd_info : dicey_plugin_info;
  next_jid : Z; work_list : array_ptr plugin_work_request;
  spawn_md : plugin_spawn_metadata; after_cleanup : option after_cleanup_fn;
}.

(** [calloc] *)
Definition zero_plugin : dicey_plugin_data :=
  mk_plugin NoProcess NoTimer NoTState PLUGIN_STATE_INVALID (mk_info NullStr NullStr) 0 NoArray zero_md None.

(** ** Requests to the loop *)

(** [struct plugin_work_builder_state]: the message builder and the builder of the tuple are in
    [wbs_heap]. The name follows them in the same block. *)
Record plugin_work_builder_state : Type := mk_wbs { wbs_name : cstr; wbs_heap : bstate }.

(** [struct plugin_send_work_data]: [name] points into the state of the builder. *)
Record plugin_send_work_data : Type := mk_send_work {
  sw_name : cstr; sw_builder : option plugin_work_builder_state; sw_on_done : on_work_done_fn; sw_ctx : nat;
}.

Record plugin_quit_metadata : Type := mk_quit_md { quit_sem : option nat; quit_err : option nat; quit_status : option nat }.

(** [struct plugin_list_request]: the address of the caller's variables ([None] when the function
    they belong to has returned by the time the loop runs), what [buf] points to, if it is not
    NULL, and [*count]. *)
Record plugin_list_request : Type := mk_list_request { ls_vars : option nat; ls_buf : option (option Z); ls_count : Z }.

(** A callback of plugins.c or plugins-work.c with its payload. *)
Inductive plugin_request : Type :=
  | spawn_request (md : plugin_spawn_metadata) (path : cstr)
  | kill_request (name : cstr)
  | list_request (req : plugin_list_request)
  | quit_request (md : plugin_quit_metadata) (target : cstr)
  | work_request (data : plugin_send_work_data).

(** ** What the outside sees *)

(** An event for [on_plugin_event]; the callback of a job, with the plugin it was given to as a
    label; variables of other threads that are
    written and semaphores that are posted; signals sent to the process of a plugin. *)
Inductive plugin_output : Type :=
  | PvEvent (plugin : nat) (kind : dicey_plugin_event_kind) (info : dicey_plugin_info)
  | PvWorkDone (plugin : option nat) (ctx : nat) (jid : option Z) (err : dicey_error) (response : option dicey_value)
  | PvSyncDone (plugin : option nat) (ctx : nat) (jid : option Z) (err : dicey_error) (response : option dicey_value)
  | PvInfo (var : nat) (info : dicey_plugin_info)
  | PvResult (var : nat) (err : dicey_error)
  | PvRetval (var : nat) (status : Z)
  | PvPosted (sem : nat)
  | PvListed (var : nat) (buf : option (option (list dicey_plugin_info))) (count : Z)
  | PvKill (plugin : nat) (signal : Z).
