(* ===== verification/Server.v ===== *)
(** * The server (src/ipc/server/server.c, request.c, shared-packet.c, src/ipc/elemdescr.c)

    The server runs in one thread, driven by the callbacks of libuv: a connection, bytes or an end
    of file on the socket of a client, the completion of a write, a request of another thread in
    the queue. The state holds the array of clients, the clients in memory (also those that are
    being closed), the registry, the writes in flight, the packets shared between writes, the
    queue, and a log of what the user of the library sees. *)

From S2P Require Import Prelude Errors Types Views Writer ValueWrite ValueProbe Value Codec Payload Packet Typedescr ValueValidate.
From S2P Require Import Hashtable PendingReqs Table Traits Registry Clients Chunk Builders BuildersTheorems Names PluginData.
From stdpp Require Import gmap list.

#[local] Open Scope Z_scope.

Inductive dicey_request_state : Type :=
  | DICEY_REQUEST_STATE_PENDING
  | DICEY_REQUEST_STATE_CONSTRUCTING
  | DICEY_REQUEST_STATE_ABORTED
  | DICEY_REQUEST_STATE_COMPLETED.

#[export] Instance dicey_request_state_eq_dec : EqDecision dicey_request_state.
Proof. solve_decision. Defined.

(** The fields of [struct dicey_request] that the pending requests do not look at. *)
Record request_rest : Type := mk_rest {
  rq_client : Z; rq_state : dicey_request_state; rq_packet : dicey_packet; rq_real_path : option cstr;
  rq_builder : dicey_message_builder; rq_signature : option cstr;
}.

Definition zero_rest : request_rest := mk_rest 0 DICEY_REQUEST_STATE_PENDING DICEY_EMPTY_PACKET None zero_mb None.

Abbreviation request := (dicey_request (R := request_rest)).
Abbreviation pending_reqs := (dicey_pending_requests (R := request_rest)).

Inductive dicey_server_state : Type :=
  | SERVER_STATE_UNINIT
  | SERVER_STATE_INIT
  | SERVER_STATE_RUNNING
  | SERVER_STATE_QUITTING.

#[export] Instance dicey_server_state_eq_dec : EqDecision dicey_server_state.
Proof. solve_decision. Defined.

(** [struct dicey_shared_packet], and [struct outbound_packet] by its kind: a response owns its
    packet, a signal holds a reference. *)
Record dicey_shared_packet : Type := mk_shared { sp_refc : Z; sp_packet : dicey_packet }.

Inductive outbound_packet : Type :=
  | OutResponse (single : dicey_packet)
  | OutSignal (shared : nat).

(** A write handed to libuv, and the stream (the client in memory) it is for. *)
Record write_request : Type := mk_write { wr_client_id : Z; wr_stream : nat; wr_packet : outbound_packet }.

Definition READ_MINBUF : Z := 256.
Definition DICEY_SET_RESPONSE_SIG : cstr := [36].

Section server.
Context {T : Type -> Type} `{Table T}.

(** [struct dicey_client_data]: the libuv handle is its address; [cleanup_cb] is NULL or the one of plugins. *)
Record dicey_client_data : Type := mk_client {
  cd_state : dicey_client_data_state; cd_id : Z; cd_pending : option pending_reqs; cd_subscriptions : T unit;
  cd_chunk : option dicey_chunk; cd_cleanup_cb : bool;
}.

(** [struct dicey_server_loop_request]: the callback with its payload, the identifier of the client
    it is for, and the semaphore of a caller that waits. *)
Inductive loop_callback : Type :=
  | loop_add_object (name : cstr) (traits : T unit)
  | loop_add_aliases (path : cstr) (aliases : T unit)
  | loop_add_trait (trait : nat)
  | loop_del_alias (alias : cstr)
  | loop_del_object (path : cstr)
  | loop_drop_aliases (path : cstr)
  | loop_kick_client (reason : dicey_bye_reason)
  | loop_raise_signal (packet : dicey_packet)
  | loop_send_response (packet : dicey_packet)
  | loop_shutdown
  | loop_plugin (req : plugin_request).

Record loop_request : Type := mk_loop_request { lr_cb : loop_callback; lr_target : option Z; lr_sem : option nat }.

(** What the outside sees: bytes handed to the socket of a client, the callbacks of the user, and
    semaphores posted with the result of their request. *)
Inductive event : Type :=
  | EvSent (id : Z) (packet : dicey_packet)
  | EvRequest (req : request)
  | EvError (err : dicey_error) (client : option Z)
  | EvConnect (id : Z)
  | EvDisconnect (id : Z)
  | EvPosted (sem : nat) (err : dicey_error)
  | EvStopped
  | EvPlugin (out : plugin_output).

(** [struct dicey_server]; [sv_heap] are the clients in memory, [sv_closing] those given to
    [uv_close], [sv_stopping] tells that the handles of the server were given to it, [sv_next] is
    the next address, [sv_plugins] is what follows the client in memory when the client is a plugin. *)
Record dicey_server : Type := mk_server {
  sv_state : dicey_server_state; seq_cnt : Z; shutdown_hook : option nat; sv_stopping : bool; sv_queue : list loop_request;
  sv_clients : option (list (option nat)); sv_registry : dicey_registry (T := T); scratchpad : Z;
  sv_heap : gmap nat dicey_client_data; sv_closing : list nat; sv_writes : list write_request;
  sv_shared : gmap nat dicey_shared_packet; sv_next : nat; sv_log : list event; sv_plugins : gmap nat dicey_plugin_data;
}.

Definition sst : Type -> Type := stm dicey_server dicey_error.

Definition set_state st (s : dicey_server) : dicey_server :=
  mk_server st (seq_cnt s) (shutdown_hook s) (sv_stopping s) (sv_queue s) (sv_clients s) (sv_registry s) (scratchpad s) (sv_heap s) (sv_closing s) (sv_writes s) (sv_shared s) (sv_next s) (sv_log s) (sv_plugins s).
Definition set_seq_cnt n (s : dicey_server) : dicey_server :=
  mk_server (sv_state s) n (shutdown_hook s) (sv_stopping s) (sv_queue s) (sv_clients s) (sv_registry s) (scratchpad s) (sv_heap s) (sv_closing s) (sv_writes s) (sv_shared s) (sv_next s) (sv_log s) (sv_plugins s).
Definition set_hook h (s : dicey_server) : dicey_server :=
  mk_server (sv_state s) (seq_cnt s) h (sv_stopping s) (sv_queue s) (sv_clients s) (sv_registry s) (scratchpad s) (sv_heap s) (sv_closing s) (sv_writes s) (sv_shared s) (sv_next s) (sv_log s) (sv_plugins s).
Definition set_stopping b (s : dicey_server) : dicey_server :=
  mk_server (sv_state s) (seq_cnt s) (shutdown_hook s) b (sv_queue s) (sv_clients s) (sv_registry s) (scratchpad s) (sv_heap s) (sv_closing s) (sv_writes s) (sv_shared s) (sv_next s) (sv_log s) (sv_plugins s).
Definition set_queue q (s : dicey_server) : dicey_server :=
  mk_server (sv_state s) (seq_cnt s) (shutdown_hook s) (sv_stopping s) q (sv_clients s) (sv_registry s) (scratchpad s) (sv_heap s) (sv_closing s) (sv_writes s) (sv_shared s) (sv_next s) (sv_log s) (sv_plugins s).
Definition set_clients c (s : dicey_server) : dicey_server :=
  mk_server (sv_state s) (seq_cnt s) (shutdown_hook s) (sv_stopping s) (sv_queue s) c (sv_registry s) (scratchpad s) (sv_heap s) (sv_closing s) (sv_writes s) (sv_shared s) (sv_next s) (sv_log s) (sv_plugins s).
Definition set_registry r (s : dicey_server) : dicey_server :=
  mk_server (sv_state s) (seq_cnt s) (shutdown_hook s) (sv_stopping s) (sv_queue s) (sv_clients s) r (scratchpad s) (sv_heap s) (sv_closing s) (sv_writes s) (sv_shared s) (sv_next s) (sv_log s) (sv_plugins s).
Definition set_scratchpad n (s : dicey_server) : dicey_server :=
  mk_server (sv_state s) (seq_cnt s) (shutdown_hook s) (sv_stopping s) (sv_queue s) (sv_clients s) (sv_registry s) n (sv_heap s) (sv_closing s) (sv_writes s) (sv_shared s) (sv_next s) (sv_log s) (sv_plugins s).
Definition set_heap h (s : dicey_server) : dicey_server :=
  mk_server (sv_state s) (seq_cnt s) (shutdown_hook s) (sv_stopping s) (sv_queue s) (sv_clients s) (sv_registry s) (scratchpad s) h (sv_closing s) (sv_writes s) (sv_shared s) (sv_next s) (sv_log s) (sv_plugins s).
Definition set_closing l (s : dicey_server) : dicey_server :=
  mk_server (sv_state s) (seq_cnt s) (shutdown_hook s) (sv_stopping s) (sv_queue s) (sv_clients s) (sv_registry s) (scratchpad s) (sv_heap s) l (sv_writes s) (sv_shared s) (sv_next s) (sv_log s) (sv_plugins s).
Definition set_writes l (s : dicey_server) : dicey_server :=
  mk_server (sv_state s) (seq_cnt s) (shutdown_hook s) (sv_stopping s) (sv_queue s) (sv_clients s) (sv_registry s) (scratchpad s) (sv_heap s) (sv_closing s) l (sv_shared s) (sv_next s) (sv_log s) (sv_plugins s).
Definition set_shared m (s : dicey_server) : dicey_server :=
  mk_server (sv_state s) (seq_cnt s) (shutdown_hook s) (sv_stopping s) (sv_queue s) (sv_clients s) (sv_registry s) (scratchpad s) (sv_heap s) (sv_closing s) (sv_writes s) m (sv_next s) (sv_log s) (sv_plugins s).
Definition set_next n (s : dicey_server) : dicey_server :=
  mk_server (sv_state s) (seq_cnt s) (shutdown_hook s) (sv_stopping s) (sv_queue s) (sv_clients s) (sv_registry s) (scratchpad s) (sv_heap s) (sv_closing s) (sv_writes s) (sv_shared s) n (sv_log s) (sv_plugins s).
Definition set_log l (s : dicey_server) : dicey_server :=
  mk_server (sv_state s) (seq_cnt s) (shutdown_hook s) (sv_stopping s) (sv_queue s) (sv_clients s) (sv_registry s) (scratchpad s) (sv_heap s) (sv_closing s) (sv_writes s) (sv_shared s) (sv_next s) l (sv_plugins s).
Definition set_plugins m (s : dicey_server) : dicey_server :=
  mk_server (sv_state s) (seq_cnt s) (shutdown_hook s) (sv_stopping s) (sv_queue s) (sv_clients s) (sv_registry s) (scratchpad s) (sv_heap s) (sv_closing s) (sv_writes s) (sv_shared s) (sv_next s) (sv_log s) m.

Definition upd (f : dicey_server -> dicey_server) : sst unit := fun s => (Ok tt, f s).
Definition log (e : event) : sst unit := upd (fun s => set_log (sv_log s ++ [e]) s).

(** The error code of a call that is examined by the caller. *)
Definition attempt {A} (m : sst A) : sst (dicey_error + A) := fun s =>
  match m s with
  | (Ok a, s') => (Ok (inr a), s')
  | (Err e, s') => (Ok (inl e), s')
  | (Fault f, s') => (Fault f, s')
  | (OutOfFuel, s') => (OutOfFuel, s')
  end.

(** [(void) f(...)] *)
Definition ignore {A} (m : sst A) : sst unit := do! _ <- attempt m ; sret tt.

Definition reg {A} (m : rst (T := T) A) : sst A := fun s =>
  let '(r, rg) := m (sv_registry s) in (r, set_registry rg s).

(** [DICEY_ASSUME]: an error fails an assertion. Calls without an error code are under it too. *)
Definition assume {A} (m : res A) : sst A := slift (match m with Err _ => Fault AssertFailed | m => m end).

Definition client_read (c : nat) : sst dicey_client_data := fun s =>
  (match sv_heap s !! c with Some d => Ok d | None => Fault UseAfterFree end, s).

Definition client_write (c : nat) (d : dicey_client_data) : sst unit := upd (fun s => set_heap (<[c := d]> (sv_heap s)) s).

Definition with_cstate st (d : dicey_client_data) : dicey_client_data :=
  mk_client st (cd_id d) (cd_pending d) (cd_subscriptions d) (cd_chunk d) (cd_cleanup_cb d).
Definition with_pending p (d : dicey_client_data) : dicey_client_data :=
  mk_client (cd_state d) (cd_id d) p (cd_subscriptions d) (cd_chunk d) (cd_cleanup_cb d).
Definition with_subscriptions t (d : dicey_client_data) : dicey_client_data :=
  mk_client (cd_state d) (cd_id d) (cd_pending d) t (cd_chunk d) (cd_cleanup_cb d).
Definition with_chunk k (d : dicey_client_data) : dicey_client_data :=
  mk_client (cd_state d) (cd_id d) (cd_pending d) (cd_subscriptions d) k (cd_cleanup_cb d).

(** The handlers of the sets of builtin elements: an operation code, the element, the path, the
    packet and the value of the request, and the client; they give a response, which may be empty,
    and the new state of the client. *)
Definition builtin_handler : Type :=
  Z -> dicey_element_entry -> cstr -> dicey_packet -> dicey_value -> nat -> sst (dicey_packet * dicey_client_data_state).

(** What the server depends on.
    - [malloc_ok n]: the allocation that would get address [n] succeeds; [block_ok]: blocks of a
      size (packets, pending requests, chunks, the array of clients); [builder_ok]: the blocks of
      the message builder; [object_alloc_ok]: the objects of the registry;
    - what libuv answers: [uv_write_err n] for the write with address [n], [uv_accept_err],
      [uv_pipe_err] and [uv_read_err] for the client with an address, [uv_async_err];
    - the callbacks of the user: whether [on_request] is set and what it does with a request (its
      state afterwards, requests to the loop), and whether a connection is accepted;
    - the handlers of the builtin elements; the callbacks of plugins that the server calls through
      pointers: the cleanup of a client that is a plugin, and the requests of plugins to the loop;
    - fuel for the loops of the packet loader, the signature checker, the search for a pending
      request and the growth of chunks. *)
Record environment : Type := mk_env {
  e_malloc_ok : nat -> bool; e_block_ok : Z -> bool; e_builder_ok : nat -> bool; e_object_alloc_ok : nat -> bool;
  e_uv_write_err : nat -> option dicey_error; e_uv_accept_err : nat -> option dicey_error;
  e_uv_pipe_err : nat -> option dicey_error; e_uv_read_err : nat -> option dicey_error; e_uv_async_err : option dicey_error;
  e_on_request : option (request -> dicey_request_state * list loop_request); e_user_accepts : Z -> bool;
  e_builtins : list builtin_handler; e_plugin_cleanup : nat -> sst unit; e_plugin_request : plugin_request -> option nat -> sst unit;
  e_fuel : nat;
}.

Context (E : environment).
#[local] Abbreviation malloc_ok := (e_malloc_ok E).
#[local] Abbreviation block_ok := (e_block_ok E).
#[local] Abbreviation builder_ok := (e_builder_ok E).
#[local] Abbreviation object_alloc_ok := (e_object_alloc_ok E).
#[local] Abbreviation uv_write_err := (e_uv_write_err E).
#[local] Abbreviation uv_accept_err := (e_uv_accept_err E).
#[local] Abbreviation uv_pipe_err := (e_uv_pipe_err E).
#[local] Abbreviation uv_read_err := (e_uv_read_err E).
#[local] Abbreviation uv_async_err := (e_uv_async_err E).
#[local] Abbreviation on_request := (e_on_request E).
#[local] Abbreviation user_accepts := (e_user_accepts E).
#[local] Abbreviation default_builtins := (e_builtins E).
#[local] Abbreviation fuel := (e_fuel E).

Definition malloc : sst (option nat) := fun s =>
  let n := sv_next s in (Ok (if malloc_ok n then Some n else None), set_next (S n) s).

(** ** Shared packets (shared-packet.c) *)

Definition shared_read (p : nat) : sst dicey_shared_packet := fun s =>
  (match sv_shared s !! p with Some sp => Ok sp | None => Fault UseAfterFree end, s).

Definition shared_valid (sp : dicey_shared_packet) : bool := (0 <? sp_refc sp) && dicey_packet_is_valid (sp_packet sp).

Definition dicey_shared_packet_is_valid (p : nat) : sst bool := do! sp <- shared_read p ; sret (shared_valid sp).

Definition dicey_shared_packet_from (packet : dicey_packet) (starting_refcount : Z) : sst (option nat) :=
  sassert (dicey_packet_is_valid packet) ;;!
  do! p <- malloc ;
  match p with
  | None => sret None
  | Some p => upd (fun s => set_shared (<[p := mk_shared starting_refcount packet]> (sv_shared s)) s) ;;! sret (Some p)
  end.

Definition dicey_shared_packet_borrow (p : nat) : sst dicey_packet :=
  do! sp <- shared_read p ; sassert (shared_valid sp) ;;! sret (sp_packet sp).

Definition dicey_shared_packet_size (p : nat) : sst Z :=
  do! sp <- shared_read p ; sassert (shared_valid sp) ;;! sret (nbytes (sp_packet sp)).

Definition dicey_shared_packet_ref (p : nat) : sst unit :=
  do! sp <- shared_read p ; sassert (shared_valid sp) ;;!
  upd (fun s => set_shared (<[p := mk_shared (sp_refc sp + 1) (sp_packet sp)]> (sv_shared s)) s).

Definition dicey_shared_packet_unref (p : nat) : sst unit :=
  do! sp <- shared_read p ; sassert (shared_valid sp) ;;!
  if sp_refc sp - 1 <=? 0
  then upd (fun s => set_shared (delete p (sv_shared s)) s)
  else upd (fun s => set_shared (<[p := mk_shared (sp_refc sp - 1) (sp_packet sp)]> (sv_shared s)) s).

(** The packet of a shared packet is changed in place. *)
Definition shared_set_packet (p : nat) (packet : dicey_packet) : sst unit :=
  do! sp <- shared_read p ; upd (fun s => set_shared (<[p := mk_shared (sp_refc sp) packet]> (sv_shared s)) s).

(** ** Outbound packets *)

Definition outbound_packet_borrow (packet : outbound_packet) : sst dicey_packet :=
  match packet with OutResponse p => sret p | OutSignal a => dicey_shared_packet_borrow a end.

Definition outbound_packet_is_valid (packet : outbound_packet) : sst bool :=
  match packet with OutResponse p => sret (dicey_packet_is_valid p) | OutSignal a => dicey_shared_packet_is_valid a end.

Definition outbound_packet_payload (packet : outbound_packet) : sst (option (list Z)) :=
  match packet with OutResponse p => sret (payload p) | OutSignal a => do! p <- dicey_shared_packet_borrow a ; sret (payload p) end.

Definition outbound_packet_size (packet : outbound_packet) : sst Z :=
  match packet with OutResponse p => sret (nbytes p) | OutSignal a => dicey_shared_packet_size a end.

(** Packets of responses are values: releasing them leaves no trace. *)
Definition outbound_packet_cleanup (packet : outbound_packet) : sst unit :=
  match packet with OutResponse _ => sret tt | OutSignal a => dicey_shared_packet_unref a end.

(** ** Sending *)

(** A client that is NULL fails the assertion; a failed [uv_write] leaves the request behind. *)
Definition server_sendpkt (client : option nat) (packet : outbound_packet) : sst unit :=
  do! valid <- outbound_packet_is_valid packet ;
  match client with
  | None => sfault AssertFailed
  | Some c =>
      sassert valid ;;!
      do! nbytes <- outbound_packet_size packet ;
      if UINT_MAX <? nbytes then sfail DICEY_EOVERFLOW else
      do! req <- malloc ;
      match req with
      | None => sfail DICEY_ENOMEM
      | Some req =>
          do! d <- client_read c ;
          do! pl <- outbound_packet_payload packet ;
          sassert (bool_decide (is_Some pl)) ;;!
          match uv_write_err req with
          | Some e => sfail e
          | None =>
              do! p <- outbound_packet_borrow packet ;
              upd (fun s => set_writes (sv_writes s ++ [mk_write (cd_id d) c packet]) s) ;;! log (EvSent (cd_id d) p)
          end
      end
  end.

(** Send, and release the packet when that fails. *)
Definition send_or_cleanup (client : option nat) (packet : outbound_packet) : sst unit :=
  do! r <- attempt (server_sendpkt client packet) ;
  match r with
  | inr _ => sret tt
  | inl e => outbound_packet_cleanup packet ;;! sfail e
  end.

Definition server_next_seq : sst Z := do! s <- sget ; upd (set_seq_cnt (u32 (seq_cnt s + 2))) ;;! sret (seq_cnt s).

Definition server_kick_client (client : option nat) (reason : dicey_bye_reason) : sst unit :=
  do! seq <- server_next_seq ;
  do! packet <- slift (dicey_packet_bye block_ok seq reason) ;
  send_or_cleanup client (OutResponse packet).

(** ** Error responses *)

Definition error_value (msg_err : dicey_error) : dicey_arg :=
  ArgError (mk_errmsg (u16 (error_code msg_err)) (Some (string_bytes (dicey_error_msg (error_code msg_err))))).

(** The message builder works in memory of its own. *)
Definition make_error (seq : Z) (path : option cstr) (sel : dicey_selector) (msg_err : dicey_error) : res dicey_packet :=
  match path with
  | None => Fault AssertFailed
  | Some path =>
      let! _ := oassert (dicey_selector_is_valid sel && negb (bool_decide (msg_err = DICEY_OK))) in
      (dicey_packet_message builder_ok block_ok seq DICEY_OP_RESPONSE path sel (Some (error_value msg_err)) empty_heap).1
  end.

Definition server_report_error (client : nat) (req : dicey_packet) (report_err : dicey_error) : sst unit :=
  do! seq <- slift (dicey_packet_get_seq req) ;
  do! msg <- slift (dicey_packet_as_message req) ;
  do! packet <- slift (make_error seq (msg_path msg) (msg_selector msg) report_err) ;
  send_or_cleanup (Some client) (OutResponse packet).

(** ** Clients *)

Definition dicey_client_data_set_state (client : nat) (state : dicey_client_data_state) : sst unit :=
  do! d <- client_read client ;
  sassert (negb (bool_decide (cd_state d = CLIENT_DATA_STATE_DEAD))) ;;!
  client_write client (with_cstate state d).

Definition dicey_client_data_is_subscribed (client : nat) (elemdescr : cstr) : sst bool :=
  do! d <- client_read client ;
  do! v <- assume (tbl_get (cd_subscriptions d) elemdescr) ;
  sret (bool_decide (is_Some v)).

Definition dicey_client_data_subscribe (client : nat) (elemdescr : cstr) : sst unit :=
  do! d <- client_read client ;
  do! (r, _, t) <- assume (tbl_set (cd_subscriptions d) elemdescr tt) ;
  client_write client (with_subscriptions t d) ;;!
  match r with DICEY_HASH_SET_FAILED => sfail DICEY_ENOMEM | _ => sret tt end.

Definition dicey_client_data_unsubscribe (client : nat) (elemdescr : cstr) : sst bool :=
  do! d <- client_read client ;
  do! (old, t) <- assume (tbl_remove (cd_subscriptions d) elemdescr) ;
  client_write client (with_subscriptions t d) ;;! sret (bool_decide (is_Some old)).

Definition dicey_server_release_id (id : Z) : sst (option nat) :=
  do! s <- sget ;
  do! (old, l) <- slift (dicey_client_list_drop_client (sv_clients s) id) ;
  upd (set_clients l) ;;! sret old.

Definition dicey_server_remove_client (index : Z) : sst unit :=
  do! bucket <- dicey_server_release_id index ;
  match bucket with
  | None => sfail DICEY_EINVAL
  | Some c => upd (fun s => set_closing (sv_closing s ++ [c]) s)
  end.

(** The memory of a client, and of the plugin it is part of, if any. *)
Definition finish_client_data_cleanup (client : nat) : sst unit :=
  do! _ <- client_read client ;
  upd (fun s => set_plugins (delete client (sv_plugins s)) (set_heap (delete client (sv_heap s)) s)).

Definition dicey_client_data_cleanup (client : nat) : sst unit :=
  do! d <- client_read client ;
  if cd_cleanup_cb d then e_plugin_cleanup E client else finish_client_data_cleanup client.

Definition dicey_server_cleanup_id (id : Z) : sst unit :=
  do! bucket <- dicey_server_release_id id ;
  match bucket with None => sret tt | Some c => dicey_client_data_cleanup c end.

(** libuv calls this when a client it was told to close is closed. *)
Definition on_client_end (client : nat) : sst unit :=
  do! d <- client_read client ;
  log (EvDisconnect (cd_id d)) ;;!
  do! r <- attempt (dicey_client_data_cleanup client) ;
  match r with inl _ => sfault AssertFailed | inr _ => sret tt end.

Definition dicey_client_data_new (id : Z) : sst (option nat) :=
  do! c <- malloc ;
  match c with
  | None => sret None
  | Some c => client_write c (mk_client CLIENT_DATA_STATE_CONNECTED id None tbl_empty None false) ;;! sret (Some c)
  end.

Definition server_new_peer : sst nat :=
  do! s <- sget ;
  let '(r, l) := dicey_server_reserve_id block_ok (sv_clients s) in
  upd (set_clients l) ;;!
  do! id <- slift r ;
  do! client <- dicey_client_data_new id ;
  match client with
  | None => do! _ <- dicey_server_release_id id ; sfail DICEY_ENOMEM
  | Some c =>
      upd (fun s => set_clients (client_list_store (sv_clients s) id c) s) ;;!
      match uv_pipe_err c with
      | Some _ => dicey_server_cleanup_id id ;;! sfail DICEY_EUV_UNKNOWN
      | None => sret c
      end
  end.

Definition dicey_server_client_raised_error (client : nat) (err : dicey_error) : sst unit :=
  dicey_client_data_set_state client CLIENT_DATA_STATE_DEAD ;;!
  do! d <- client_read client ;
  log (EvError err (Some (cd_id d))) ;;!
  server_kick_client (Some client) DICEY_BYE_REASON_ERROR.

(** ** Messages of clients *)

Definition is_server_op (op : dicey_op) : bool :=
  match op with DICEY_OP_RESPONSE | DICEY_OP_SIGNAL => true | _ => false end.

(** The result of the validation of a value: the signature of an element is not NULL. *)
Definition check_signature (elem : dicey_element) (value : dicey_value) : res dicey_error :=
  match el_signature elem with
  | None => Fault NullDeref
  | Some sig =>
      let! ok := dicey_value_is_compatible_with fuel value sig in
      Ok (if ok then DICEY_OK else DICEY_ESIGNATURE_MISMATCH)
  end.

(** A response gives [false], which is [DICEY_OK]. *)
Definition is_message_acceptable_for (elem : dicey_element) (msg : dicey_message) : res dicey_error :=
  match msg_type msg with
  | DICEY_OP_GET => Ok (if decide (el_type elem = DICEY_ELEMENT_TYPE_PROPERTY) then DICEY_OK else DICEY_EINVAL)
  | DICEY_OP_SET =>
      if negb (bool_decide (el_type elem = DICEY_ELEMENT_TYPE_PROPERTY)) then Ok DICEY_EINVAL else
      if negb (Z.land (el_flags elem) DICEY_ELEMENT_READONLY =? 0) then Ok DICEY_EPROPERTY_READ_ONLY else
      check_signature elem (msg_value msg)
  | DICEY_OP_EXEC =>
      if negb (bool_decide (el_type elem = DICEY_ELEMENT_TYPE_OPERATION)) then Ok DICEY_EINVAL else
      check_signature elem (msg_value msg)
  | DICEY_OP_SIGNAL =>
      if negb (bool_decide (el_type elem = DICEY_ELEMENT_TYPE_SIGNAL)) then Ok DICEY_EINVAL else
      check_signature elem (msg_value msg)
  | DICEY_OP_RESPONSE => Ok DICEY_OK
  | _ => Fault AssertFailed
  end.

(** [dicey_server_request_for] (request.c). The element and the main path are looked up again; the
    response builder gets the header of the response. *)
Definition dicey_registry_get_element_entry_from_sel (path : cstr) (sel : dicey_selector)
    : rst (T := T) (option dicey_object_element_entry) :=
  match trait sel, elem sel with
  | Some t, Some e => dicey_registry_get_element_entry path t e
  | _, _ => sfault AssertFailed
  end.

Definition dicey_registry_get_element_from_sel (path : cstr) (sel : dicey_selector) : rst (T := T) (option dicey_element) :=
  match trait sel, elem sel with
  | Some t, Some e => dicey_registry_get_element path t e
  | _, _ => sfault AssertFailed
  end.

Definition response_builder (seq : Z) (path : cstr) (sel : dicey_selector) : res dicey_message_builder :=
  let '(r, b) := (dicey_message_builder_begin DICEY_OP_RESPONSE ;;! dicey_message_builder_set_seq seq ;;!
    dicey_message_builder_set_path path ;;! dicey_message_builder_set_selector sel) empty_heap in
  let! _ := r in Ok (bs_msg b).

Definition dicey_server_request_for (client_id : Z) (packet : dicey_packet) : sst request :=
  sassert (dicey_packet_is_valid packet) ;;!
  do! message <- slift (dicey_packet_as_message packet) ;
  do! seq <- slift (dicey_packet_get_seq packet) ;
  match msg_path message with
  | None => sfault AssertFailed
  | Some path =>
      do! elem <- reg (dicey_registry_get_element_from_sel path (msg_selector message)) ;
      match elem with
      | None => sfail DICEY_EELEMENT_NOT_FOUND
      | Some elem =>
          sassert (bool_decide (is_Some (el_signature elem))) ;;!
          do! builder <- slift (response_builder seq path (msg_selector message)) ;
          do! main_path <- reg (dicey_registry_get_main_path path) ;
          sret (mk_request seq (msg_type message)
            (mk_message (msg_type message) main_path (msg_selector message) (msg_value message))
            (mk_rest client_id DICEY_REQUEST_STATE_PENDING packet (Some path) builder (el_signature elem)))
      end
  end.

(** ** Builtins (builtins/builtins.c) *)

Definition BASE_OF (x : Z) : Z := Z.shiftr (Z.land x 65280) 8.
Definition OPCODE_OF (x : Z) : Z := Z.land x 255.
Definition TAGGED (tag opid : Z) : Z := Z.lor (Z.shiftl tag 8) (Z.land opid 255).

Definition dicey_registry_get_builtin_info_for (elem : dicey_element_entry) : res (option (builtin_handler * Z)) :=
  let tag := el_tag (ee_element elem) in
  if tag =? 0 then Ok None else
  match default_builtins !! Z.to_nat (BASE_OF tag) with
  | None => Fault AssertFailed
  | Some handler => Ok (Some (handler, OPCODE_OF tag))
  end.

(** ** A message *)

(** Requests that are refused without breaking the protocol: the sequence number is consumed and an
    error response is sent. *)
Definition refuse (client : nat) (packet : dicey_packet) (seq : Z) (err : dicey_error) : sst dicey_client_data_state :=
  do! d <- client_read client ;
  let '(skip_err, pending) := dicey_pending_request_skip zero_rest block_ok (cd_pending d) seq in
  client_write client (with_pending pending d) ;;!
  if negb (bool_decide (skip_err = DICEY_OK)) then sfail skip_err else
  server_report_error client packet err ;;!
  sret CLIENT_DATA_STATE_RUNNING.

(** A builtin element: the sequence number is consumed, the handler makes the response. *)
Definition run_builtin (client : nat) (packet : dicey_packet) (seq : Z) (path : cstr) (value : dicey_value)
    (elem_entry : dicey_element_entry) (handler : builtin_handler) (opcode : Z) : sst dicey_client_data_state :=
  do! d <- client_read client ;
  let '(skip_err, pending) := dicey_pending_request_skip zero_rest block_ok (cd_pending d) seq in
  client_write client (with_pending pending d) ;;!
  if negb (bool_decide (skip_err = DICEY_OK)) then sfail skip_err else
  do! r <- attempt (handler opcode elem_entry path packet value client) ;
  match r with
  | inl e => server_report_error client packet e ;;! sret CLIENT_DATA_STATE_RUNNING
  | inr (rpkt, new_state) =>
      if negb (dicey_packet_is_valid rpkt) then sret new_state else
      do! rpkt <- slift (dicey_packet_set_seq rpkt seq) ;
      send_or_cleanup (Some client) (OutResponse rpkt) ;;! sret new_state
  end.

(** A request for the user: it becomes pending, the user is called, and if the user aborted it the
    client gets an error. *)
Definition deliver_request (client : nat) (packet : dicey_packet) (seq : Z)
    (handler : request -> dicey_request_state * list loop_request) : sst dicey_client_data_state :=
  do! d <- client_read client ;
  do! req <- dicey_server_request_for (cd_id d) packet ;
  do! (accept_res, pending) <- slift (dicey_pending_requests_add zero_rest block_ok (cd_pending d) req) ;
  client_write client (with_pending pending d) ;;!
  match accept_res with
  | inl e => sfail e
  | inr _ =>
      log (EvRequest req) ;;!
      let '(state, reqs) := handler req in
      upd (fun s => set_queue (sv_queue s ++ reqs) s) ;;!
      (if bool_decide (state = DICEY_REQUEST_STATE_ABORTED) then
         ignore (server_report_error client packet DICEY_EAGAIN) ;;!
         do! d <- client_read client ;
         do! r <- attempt (slift (dicey_pending_requests_complete fuel (cd_pending d) seq)) ;
         match r with inr (_, pending) => client_write client (with_pending pending d) | inl _ => sret tt end
       else sret tt) ;;!
      sret CLIENT_DATA_STATE_RUNNING
  end.

Definition client_got_message (client : nat) (packet : dicey_packet) : sst dicey_client_data_state :=
  do! seq <- attempt (slift (dicey_packet_get_seq packet)) ;
  do! message <- attempt (slift (dicey_packet_as_message packet)) ;
  do! d <- client_read client ;
  match seq, message with
  | inr seq, inr message =>
      if is_server_op (msg_type message) then sfail DICEY_EINVAL else
      if negb (bool_decide (cd_state d = CLIENT_DATA_STATE_RUNNING)) then sfail DICEY_EINVAL else
      match msg_path message with
      | None => sfault AssertFailed
      | Some path =>
          do! obj_entry <- reg (dicey_registry_get_object_entry path) ;
          match obj_entry with
          | None => refuse client packet seq DICEY_EPATH_NOT_FOUND
          | Some _ =>
              do! object_entry <- reg (dicey_registry_get_element_entry_from_sel path (msg_selector message)) ;
              match object_entry with
              | None => refuse client packet seq DICEY_EELEMENT_NOT_FOUND
              | Some object_entry =>
                  do! op_err <- slift (is_message_acceptable_for (oe_element object_entry) message) ;
                  if negb (bool_decide (op_err = DICEY_OK)) then refuse client packet seq op_err else
                  let elem_entry := dicey_object_element_entry_to_element_entry object_entry in
                  do! binfo <- slift (dicey_registry_get_builtin_info_for elem_entry) ;
                  match binfo with
                  | Some (handler, opcode) => run_builtin client packet seq path (msg_value message) elem_entry handler opcode
                  | None =>
                      match on_request with
                      | Some handler => deliver_request client packet seq handler
                      | None => sret CLIENT_DATA_STATE_RUNNING
                      end
                  end
              end
          end
      end
  | _, _ => sfail DICEY_EINVAL
  end.

(** ** Packets of clients *)

Definition client_got_bye (client : nat) : sst dicey_client_data_state :=
  do! d <- client_read client ;
  if bool_decide (cd_state d = CLIENT_DATA_STATE_QUITTING) then sret CLIENT_DATA_STATE_QUITTING else
  ignore (dicey_server_remove_client (cd_id d)) ;;!
  sret CLIENT_DATA_STATE_DEAD.

Definition client_got_hello (client : nat) (seq : Z) (version : dicey_version) : sst dicey_client_data_state :=
  do! d <- client_read client ;
  if negb (bool_decide (cd_state d = CLIENT_DATA_STATE_CONNECTED)) then sfail DICEY_EINVAL else
  if negb (seq =? 0) then log (EvError DICEY_EINVAL (Some (cd_id d))) ;;! sfail DICEY_EINVAL else
  if dicey_version_cmp version DICEY_PROTO_VERSION_CURRENT <? 0 then sfail DICEY_ECLIENT_TOO_OLD else
  do! hello_repl <- slift (dicey_packet_hello block_ok seq DICEY_PROTO_VERSION_CURRENT) ;
  send_or_cleanup (Some client) (OutResponse hello_repl) ;;!
  sret CLIENT_DATA_STATE_RUNNING.

Definition client_got_packet (client : nat) (packet : dicey_packet) : sst unit :=
  sassert (dicey_packet_is_valid packet) ;;!
  do! kind <- assume (dicey_packet_get_kind packet) ;
  do! r <- attempt
    match kind with
    | DICEY_PACKET_KIND_HELLO =>
        do! seq <- slift (dicey_packet_get_seq packet) ;
        do! hello <- assume (dicey_packet_as_hello packet) ;
        client_got_hello client seq hello
    | DICEY_PACKET_KIND_BYE =>
        do! _ <- assume (dicey_packet_as_bye packet) ;
        client_got_bye client
    | DICEY_PACKET_KIND_MESSAGE => client_got_message client packet
    | DICEY_PACKET_KIND_INVALID => sfault AssertFailed
    end ;
  match r with
  | inl err => dicey_server_client_raised_error client err
  | inr state => dicey_client_data_set_state client state
  end.

(** ** Reads *)

Definition alloc_buffer (client : nat) : sst Z :=
  do! d <- client_read client ;
  do! (len, chunk) <- slift (dicey_chunk_get_buf block_ok fuel (cd_chunk d) READ_MINBUF) ;
  client_write client (with_chunk chunk d) ;;!
  match len with
  | Some n => sassert (READ_MINBUF <=? n) ;;! sret n
  | None => sfault AssertFailed
  end.

(** The end of the stream, a read error, or bytes. *)
Inductive read_result : Type :=
  | ReadEof
  | ReadError (err : dicey_error)
  | ReadBytes (bytes : list Z).

Definition on_read_end (client : nat) (err : option dicey_error) : sst unit :=
  do! d <- client_read client ;
  match err with Some e => log (EvError e (Some (cd_id d))) | None => sret tt end ;;!
  if bool_decide (cd_state d = CLIENT_DATA_STATE_QUITTING) then sret tt else
  do! r <- attempt (dicey_server_remove_client (cd_id d)) ;
  match r with inl e => log (EvError e (Some (cd_id d))) | inr _ => sret tt end.

(** The chunk is cleared after a packet, whatever else it held. *)
Definition on_read (client : nat) (nread : read_result) : sst unit :=
  match nread with
  | ReadEof => on_read_end client None
  | ReadError e => on_read_end client (Some e)
  | ReadBytes bytes =>
      do! s <- sget ;
      if negb (bool_decide (sv_state s = SERVER_STATE_RUNNING)) then sret tt else
      do! d <- client_read client ;
      match cd_chunk d with
      | None => sfault AssertFailed
      | Some chunk =>
          let chunk := chunk_received chunk bytes in
          client_write client (with_chunk (Some chunk) d) ;;!
          do! r <- attempt (slift (dicey_packet_load block_ok fuel (vw (ck_bytes chunk) [])).1) ;
          match r with
          | inr packet =>
              ignore (client_got_packet client packet) ;;!
              do! d <- client_read client ;
              client_write client (with_chunk (Some (dicey_chunk_clear chunk)) d)
          | inl DICEY_EAGAIN => sret tt
          | inl err => ignore (dicey_server_client_raised_error client err)
          end
      end
  end.

(** ** Shutdown *)

(** A request that is dropped: its caller, if any waits, is told; else its callback is called
    without a server, to clean up. The callbacks of plugins assert that there is a server. *)
Fixpoint cancel_requests (l : list loop_request) : sst unit :=
  match l with
  | [] => sret tt
  | req :: l' =>
      match lr_sem req, lr_cb req with
      | Some sem, _ => log (EvPosted sem DICEY_ECANCELLED)
      | None, loop_plugin _ => sfault AssertFailed
      | None, _ => sret tt
      end ;;!
      cancel_requests l'
  end.

(** libuv does not accept a handle that is being closed already. *)
Definition server_finalize_shutdown : sst unit :=
  do! s <- sget ;
  sassert (bool_decide (sv_state s = SERVER_STATE_QUITTING)) ;;!
  upd (set_queue []) ;;!
  cancel_requests (sv_queue s) ;;!
  sassert (negb (sv_stopping s)) ;;!
  upd (set_stopping true).

(** The last of the callbacks of the closed handles: the loop stops and the caller is told. *)
Definition server_shutdown_at_end : sst unit :=
  do! s <- sget ;
  log EvStopped ;;!
  match shutdown_hook s with
  | Some sem => upd (set_hook None) ;;! log (EvPosted sem DICEY_OK)
  | None => sret tt
  end.

Fixpoint kick_all (slots : list (option nat)) (err : dicey_error) : sst dicey_error :=
  match slots with
  | [] => sret err
  | None :: slots' => kick_all slots' err
  | Some c :: slots' =>
      do! r <- attempt (server_kick_client (Some c) DICEY_BYE_REASON_SHUTDOWN) ;
      kick_all slots' (match r with inl e => e | inr _ => err end)
  end.

Definition server_shutdown : sst unit :=
  do! s <- sget ;
  sassert (bool_decide (sv_state s = SERVER_STATE_RUNNING)) ;;!
  upd (set_state SERVER_STATE_QUITTING) ;;!
  do! err <- kick_all (dicey_client_list_slots (sv_clients s)) DICEY_OK ;
  if dicey_client_list_is_empty (sv_clients s) then server_finalize_shutdown else
  if bool_decide (err = DICEY_OK) then sret tt else sfail err.

(** ** Completed writes *)

Definition on_write (req : write_request) (status : option dicey_error) : sst unit :=
  do! s <- sget ;
  match dicey_client_list_get_client (sv_clients s) (wr_client_id req) with
  | None => sfault AssertFailed
  | Some c =>
      do! d <- client_read c ;
      match status with Some e => log (EvError e (Some (cd_id d))) | None => sret tt end ;;!
      do! packet <- outbound_packet_borrow (wr_packet req) ;
      do! kind <- assume (dicey_packet_get_kind packet) ;
      (if bool_decide (kind = DICEY_PACKET_KIND_BYE) then
         do! r <- attempt (dicey_server_remove_client (wr_client_id req)) ;
         match r with inl e => log (EvError e (Some (cd_id d))) | inr _ => sret tt end
       else sret tt) ;;!
      outbound_packet_cleanup (wr_packet req) ;;!
      do! s <- sget ;
      if bool_decide (sv_state s = SERVER_STATE_QUITTING) && dicey_client_list_is_empty (sv_clients s)
      then server_finalize_shutdown else sret tt
  end.

(** ** Signals *)

(** [dicey_element_descriptor_format_to] (elemdescr.c): "path#trait:elem" in the scratchpad, which
    grows when it is too small. *)
Definition element_descriptor (path : cstr) (sel : dicey_selector) : cstr :=
  path ++ [35] ++ default [] (trait sel) ++ [58] ++ default [] (elem sel).

Definition dicey_element_descriptor_format_to (path : cstr) (sel : dicey_selector) : sst (option cstr) :=
  sassert (dicey_selector_is_valid sel) ;;!
  let descr := element_descriptor path sel in
  let required := zlen descr + 1 in
  sassert (6 <? required) ;;!
  do! s <- sget ;
  if scratchpad s <? required then
    (if block_ok required then upd (set_scratchpad required) ;;! sret (Some descr) else sret None)
  else sret (Some descr).

(** The loop over the clients of [dicey_server_raise_internal]. *)
Fixpoint raise_to (slots : list (option nat)) (elemdescr : cstr) (shared_pkt : nat) : sst unit :=
  match slots with
  | [] => sret tt
  | None :: slots' => raise_to slots' elemdescr shared_pkt
  | Some c :: slots' =>
      do! subscribed <- dicey_client_data_is_subscribed c elemdescr ;
      (if negb subscribed then sret tt else
       dicey_shared_packet_ref shared_pkt ;;!
       do! r <- attempt (server_sendpkt (Some c) (OutSignal shared_pkt)) ;
       match r with inl _ => dicey_shared_packet_unref shared_pkt | inr _ => sret tt end) ;;!
      raise_to slots' elemdescr shared_pkt
  end.

Definition dicey_server_raise_internal (packet : dicey_packet) : sst unit :=
  do! msg <- slift (dicey_packet_as_message packet) ;
  do! shared_pkt <- dicey_shared_packet_from packet 1 ;
  match shared_pkt, msg_path msg with
  | None, _ => sfail DICEY_ENOMEM
  | _, None => sfault AssertFailed
  | Some shared_pkt, Some path =>
      do! elemdescr <- dicey_element_descriptor_format_to path (msg_selector msg) ;
      match elemdescr with
      | None => dicey_shared_packet_unref shared_pkt ;;! sfail DICEY_ENOMEM
      | Some elemdescr =>
          do! borrowed <- dicey_shared_packet_borrow shared_pkt ;
          do! seq <- server_next_seq ;
          do! r <- attempt (slift (dicey_packet_set_seq borrowed seq)) ;
          match r with
          | inl err => dicey_shared_packet_unref shared_pkt ;;! sfail err
          | inr packet =>
              shared_set_packet shared_pkt packet ;;!
              do! s <- sget ;
              raise_to (dicey_client_list_slots (sv_clients s)) elemdescr shared_pkt ;;!
              dicey_shared_packet_unref shared_pkt
          end
      end
  end.

(** ** Responses of the user *)

Definition client_send_response (client : nat) (packet : dicey_packet) (msg : dicey_message) : sst unit :=
  if negb (bool_decide (msg_type msg = DICEY_OP_RESPONSE)) then sfail DICEY_EINVAL else
  do! seq <- slift (dicey_packet_get_seq packet) ;
  do! d <- client_read client ;
  do! (req, pending) <- slift (dicey_pending_requests_complete fuel (cd_pending d) seq) ;
  client_write client (with_pending pending d) ;;!
  match (if bool_decide (req_op req = DICEY_OP_SET) then Some DICEY_SET_RESPONSE_SIG else rq_signature (req_rest req)) with
  | None => sfault NullDeref
  | Some sig =>
      do! ok <- slift (dicey_value_can_be_returned_from fuel (msg_value msg) sig) ;
      if negb ok then sfail DICEY_ESIGNATURE_MISMATCH else
      server_sendpkt (Some client) (OutResponse packet)
  end.

(** ** Objects and aliases *)

(** One alias: the [goto] repeats the same call. *)
Fixpoint add_alias (n : nat) (path alias : cstr) : rst (T := T) unit :=
  match n with
  | O => slift OutOfFuel
  | S n' => fun r =>
      match dicey_registry_alias_object path alias r with
      | (Err DICEY_EEXIST, r') => add_alias n' path alias r'
      | out => out
      end
  end.

(** The loop: the error and the aliases that were inserted. *)
Fixpoint add_alias_loop (path : cstr) (aliases : list (cstr * unit)) (inserted : T unit) : rst (T := T) (dicey_error * T unit) :=
  match aliases with
  | [] => sret (DICEY_OK, inserted)
  | (alias, _) :: aliases' =>
      do! r <- scatch (add_alias fuel path alias) ;
      match r with
      | inl e => sret (e, inserted)
      | inr _ =>
          do! (added, _, inserted') <- slift (tbl_set inserted alias tt) ;
          match added with
          | DICEY_HASH_SET_FAILED => sret (DICEY_ENOMEM, inserted')
          | DICEY_HASH_SET_ADDED => add_alias_loop path aliases' inserted'
          | DICEY_HASH_SET_UPDATED => sfault AssertFailed
          end
      end
  end.

Fixpoint remove_inserted (aliases : list (cstr * unit)) : rst (T := T) unit :=
  match aliases with
  | [] => sret tt
  | (alias, _) :: aliases' => do! _ <- scatch (dicey_registry_unalias_object alias) ; remove_inserted aliases'
  end.

Definition registry_add_aliases (path : cstr) (aliases : T unit) : rst (T := T) unit :=
  do! l <- slift (tbl_entries aliases) ;
  do! (err, inserted) <- add_alias_loop path l tbl_empty ;
  if bool_decide (err = DICEY_OK) || bool_decide (err = DICEY_EEXIST) then sret tt else
  do! l <- slift (tbl_entries inserted) ;
  remove_inserted l ;;!
  sfail err.

(** The callback that prunes the pending requests of a client. *)
Definition request_should_prune_if_matching (client : nat) (path_to_prune : cstr) (req : request) : sst bool :=
  do! main_path <- reg (dicey_registry_get_main_path path_to_prune) ;
  match main_path, rq_real_path (req_rest req) with
  | Some main_path, Some real_path =>
      if negb (strcmp main_path real_path =? 0) then sret false else
      let msg := req_message req in
      do! packet <- attempt (slift (make_error (packet_seq req) (msg_path msg) (msg_selector msg) DICEY_EPATH_DELETED)) ;
      match packet with
      | inl _ => sret true
      | inr packet => ignore (send_or_cleanup (Some client) (OutResponse packet)) ;;! sret true
      end
  | None, _ => sfault AssertFailed
  | _, None => sfault NullDeref
  end.

Fixpoint prune_all (slots : list (option nat)) (path : cstr) : sst unit :=
  match slots with
  | [] => sret tt
  | None :: slots' => prune_all slots' path
  | Some c :: slots' =>
      do! d <- client_read c ;
      do! pending <- dicey_pending_requests_prune (request_should_prune_if_matching c path) fuel (cd_pending d) ;
      client_write c (with_pending pending d) ;;!
      prune_all slots' path
  end.

Definition remove_object (path : cstr) : sst unit :=
  do! s <- sget ;
  prune_all (dicey_client_list_slots (sv_clients s)) path ;;!
  reg (dicey_registry_delete_object path).

(** ** Requests of other threads *)

Definition loop_request_add_object (name : cstr) (traits : T unit) : sst unit :=
  reg (dicey_registry_add_object_with_trait_set object_alloc_ok name traits).

Definition loop_request_add_aliases (path : cstr) (aliases : T unit) : sst unit := reg (registry_add_aliases path aliases).

Definition loop_request_add_trait (trait : nat) : sst unit := reg (dicey_registry_add_trait object_alloc_ok block_ok trait).

Definition loop_request_del_alias (alias : cstr) : sst unit := reg (dicey_registry_unalias_object alias).

Definition loop_request_del_object (path : cstr) : sst unit := remove_object path.

Definition loop_request_drop_aliases (path : cstr) : sst unit := reg (dicey_registry_remove_all_object_aliases path).

Definition loop_request_kick_client (client : option nat) (reason : dicey_bye_reason) : sst unit :=
  sassert (negb (bool_decide (reason = DICEY_BYE_REASON_INVALID))) ;;!
  server_kick_client client reason.

Definition loop_request_raise_signal (packet : dicey_packet) : sst unit :=
  sassert (dicey_packet_is_valid packet) ;;! dicey_server_raise_internal packet.

Definition loop_request_send_response (client : option nat) (packet : dicey_packet) : sst unit :=
  sassert (dicey_packet_is_valid packet) ;;!
  match client with
  | None => sfail DICEY_EPEER_NOT_FOUND
  | Some c =>
      do! msg <- slift (dicey_packet_as_message packet) ;
      client_send_response c packet msg
  end.

Definition run_callback (cb : loop_callback) (client : option nat) : sst unit :=
  match cb with
  | loop_add_object name traits => loop_request_add_object name traits
  | loop_add_aliases path aliases => loop_request_add_aliases path aliases
  | loop_add_trait trait => loop_request_add_trait trait
  | loop_del_alias alias => loop_request_del_alias alias
  | loop_del_object path => loop_request_del_object path
  | loop_drop_aliases path => loop_request_drop_aliases path
  | loop_kick_client reason => loop_request_kick_client client reason
  | loop_raise_signal packet => loop_request_raise_signal packet
  | loop_send_response packet => loop_request_send_response client packet
  | loop_shutdown => server_shutdown
  | loop_plugin req => e_plugin_request E req client
  end.

Definition is_shutdown (cb : loop_callback) : bool := match cb with loop_shutdown => true | _ => false end.

(** The result of a request goes to the thread that waits for it, or to [on_error]. *)
Definition report_result (req : loop_request) (client : option nat) (err : dicey_error) : sst unit :=
  match lr_sem req, client with
  | Some sem, _ => log (EvPosted sem err)
  | None, Some c =>
      if bool_decide (err = DICEY_OK) then sret tt else
      do! d <- client_read c ; log (EvError err (Some (cd_id d)))
  | None, None => sret tt
  end.

(** The client found for one request stays for the next ones that have no target. *)
Fixpoint inbound_loop (n : nat) (client : option nat) : sst unit :=
  match n with
  | O => slift OutOfFuel
  | S n' =>
      do! s <- sget ;
      match sv_queue s with
      | [] => sret tt
      | req :: queue =>
          upd (set_queue queue) ;;!
          let client :=
            match lr_target req with
            | Some id => if is_shutdown (lr_cb req) then client else dicey_client_list_get_client (sv_clients s) id
            | None => client
            end in
          do! r <- attempt (run_callback (lr_cb req) client) ;
          match r, is_shutdown (lr_cb req) with
          | inr _, true => upd (set_hook (lr_sem req))
          | inr _, false => report_result req client DICEY_OK ;;! inbound_loop n' client
          | inl e, _ => report_result req client e ;;! inbound_loop n' client
          end
      end
  end.

Definition loop_request_inbound : sst unit := do! s <- sget ; inbound_loop (S (length (sv_queue s))) None.

(** ** Connections *)

Definition dicey_server_start_reading_from_client_internal (id : Z) : sst unit :=
  do! s <- sget ;
  match dicey_client_list_get_client (sv_clients s) id with
  | None => sfault NullDeref
  | Some c => match uv_read_err c with Some e => sfail e | None => sret tt end
  end.

(** After a failed [uv_accept] the client is removed, and the rest is done nevertheless. *)
Definition on_connect (status : option dicey_error) : sst unit :=
  match status with
  | Some e => log (EvError e None)
  | None =>
      do! r <- attempt server_new_peer ;
      match r with
      | inl e => log (EvError e None)
      | inr c =>
          do! d <- client_read c ;
          let id := cd_id d in
          match uv_accept_err c with
          | Some e => log (EvError e None) ;;! ignore (dicey_server_remove_client id)
          | None => sret tt
          end ;;!
          log (EvConnect id) ;;!
          if negb (user_accepts id) then
            log (EvError DICEY_ECONNREFUSED (Some id)) ;;! ignore (dicey_server_remove_client id)
          else
          do! r <- attempt (dicey_server_start_reading_from_client_internal id) ;
          match r with
          | inr _ => sret tt
          | inl e => log (EvError e (Some id)) ;;! ignore (dicey_server_remove_client id)
          end
      end
  end.

(** ** Calls of the user *)

Definition dicey_server_submit_request (req : loop_request) : sst unit :=
  upd (fun s => set_queue (sv_queue s ++ [req]) s) ;;!
  match uv_async_err with Some e => sfail e | None => sret tt end.

Definition is_event_msg (pkt : dicey_packet) : res bool :=
  match dicey_packet_as_message pkt with
  | Ok msg => Ok (bool_decide (msg_type msg = DICEY_OP_SIGNAL))
  | Err _ => Ok false
  | Fault f => Fault f
  | OutOfFuel => OutOfFuel
  end.

Definition can_send_as_event (packet : dicey_packet) : res bool :=
  if dicey_packet_is_valid packet then is_event_msg packet else Ok false.

Definition is_response_msg (pkt : dicey_packet) : res bool :=
  match dicey_packet_as_message pkt with
  | Ok msg => Ok (bool_decide (msg_type msg = DICEY_OP_RESPONSE))
  | Err _ => Ok false
  | Fault f => Fault f
  | OutOfFuel => OutOfFuel
  end.

Definition can_send_as_response (packet : dicey_packet) : res bool :=
  if negb (dicey_packet_is_valid packet) then Ok false else
  match dicey_packet_get_seq packet with
  | Ok seq => if seq =? 0 then Ok false else is_response_msg packet
  | Err _ => Ok false
  | Fault f => Fault f
  | OutOfFuel => OutOfFuel
  end.

(** Requests that copy the path first. *)
Definition copies_path (cb : loop_callback) : bool :=
  match cb with loop_add_object _ _ | loop_add_aliases _ _ => true | _ => false end.

(** The request of a caller that waits for [lr_sem]; the result arrives with [EvPosted]. *)
Definition dicey_server_blocking_request (req : loop_request) : sst unit :=
  do! r <- attempt (dicey_server_submit_request req) ;
  match r with inl _ => sfault AssertFailed | inr _ => sret tt end.

(** Allocate a request and put it in the queue. *)
Definition submit_new (cb : loop_callback) (target : option Z) (sem : option nat) : sst unit :=
  do! req <- malloc ;
  do! path_copy <- (if copies_path cb then malloc else sret (Some 0%nat)) ;
  match req, path_copy with
  | Some _, Some _ =>
      let req := mk_loop_request cb target sem in
      if bool_decide (is_Some sem) then dicey_server_blocking_request req else dicey_server_submit_request req
  | _, _ => sfail DICEY_ENOMEM
  end.

(** The blocking variants wait for the semaphore [sem]. *)
Definition raise_with (sem : option nat) (packet : dicey_packet) : sst unit :=
  sassert (dicey_packet_is_valid packet) ;;!
  do! ok <- slift (can_send_as_event packet) ;
  if negb ok then sfail DICEY_EINVAL else submit_new (loop_raise_signal packet) None sem.

Definition dicey_server_raise (packet : dicey_packet) : sst unit := raise_with None packet.
Definition dicey_server_raise_and_wait (packet : dicey_packet) (sem : nat) : sst unit := raise_with (Some sem) packet.

Definition send_response_with (sem : option nat) (id : Z) (packet : dicey_packet) : sst unit :=
  do! ok <- slift (can_send_as_response packet) ;
  if negb ok then sfail DICEY_EINVAL else
  if PTRDIFF_MAX <? id then sfail DICEY_EOVERFLOW else submit_new (loop_send_response packet) (Some id) sem.

Definition dicey_server_send_response (id : Z) (packet : dicey_packet) : sst unit := send_response_with None id packet.
Definition dicey_server_send_response_and_wait (id : Z) (packet : dicey_packet) (sem : nat) : sst unit :=
  send_response_with (Some sem) id packet.

(** An identifier that does not fit the signed target is no target. *)
Definition dicey_server_kick (id : Z) (sem : nat) : sst unit :=
  submit_new (loop_kick_client DICEY_BYE_REASON_KICKED) (if PTRDIFF_MAX <? id then None else Some id) (Some sem).

Definition dicey_server_stop : sst unit := submit_new loop_shutdown None None.

Definition dicey_server_stop_and_wait (sem : nat) : sst unit :=
  do! s <- sget ;
  if negb (bool_decide (sv_state s = SERVER_STATE_RUNNING)) then sfail DICEY_EINVAL else submit_new loop_shutdown None (Some sem).

(** Before the server runs, the registry is changed at once; while it runs, through the queue. *)
Definition now_or_queued (now : sst unit) (cb : loop_callback) : sst unit :=
  do! s <- sget ;
  match sv_state s with
  | SERVER_STATE_UNINIT | SERVER_STATE_INIT => now
  | SERVER_STATE_RUNNING => submit_new cb None None
  | SERVER_STATE_QUITTING => sfail DICEY_EINVAL
  end.

Definition dicey_server_add_object (path : cstr) (trait_names : T unit) : sst unit :=
  sassert (negb (tbl_is_null trait_names)) ;;! now_or_queued (loop_request_add_object path trait_names) (loop_add_object path trait_names).

(** The set of the names given as arguments; a name given twice is an error. *)
Fixpoint trait_set_of (names : list cstr) (traits : T unit) : sst (T unit) :=
  match names with
  | [] => sret traits
  | name :: names' =>
      do! (r, _, traits') <- slift (tbl_set traits name tt) ;
      match r with
      | DICEY_HASH_SET_FAILED => sfail DICEY_ENOMEM
      | DICEY_HASH_SET_UPDATED => sfail DICEY_EEXIST
      | DICEY_HASH_SET_ADDED => trait_set_of names' traits'
      end
  end.

Definition dicey_server_add_object_with (path : cstr) (names : list cstr) : sst unit :=
  do! traits <- trait_set_of names tbl_empty ; dicey_server_add_object path traits.

Definition dicey_server_add_object_aliases (path : cstr) (aliases : T unit) : sst unit :=
  sassert (negb (tbl_is_null aliases)) ;;! now_or_queued (loop_request_add_aliases path aliases) (loop_add_aliases path aliases).

Definition dicey_server_add_object_alias (path alias : cstr) : sst unit :=
  do! (r, _, aliases) <- slift (tbl_set tbl_empty alias tt) ;
  match r with
  | DICEY_HASH_SET_FAILED => sfail DICEY_ENOMEM
  | _ => dicey_server_add_object_aliases path aliases
  end.

Definition dicey_server_add_trait (trait : nat) : sst unit :=
  now_or_queued (loop_request_add_trait trait) (loop_add_trait trait).

Definition dicey_server_delete_object (path : cstr) : sst unit :=
  now_or_queued (reg (dicey_registry_delete_object path)) (loop_del_object path).

Definition dicey_server_delete_object_alias (alias : cstr) : sst unit :=
  now_or_queued (loop_request_del_alias alias) (loop_del_alias alias).

Definition dicey_server_drop_all_aliases_of_object (path : cstr) : sst unit :=
  now_or_queued (loop_request_drop_aliases path) (loop_drop_aliases path).

(** A server after [dicey_server_new], with the registry as the builtins left it. *)
Definition new_server (registry : dicey_registry (T := T)) : dicey_server :=
  mk_server SERVER_STATE_UNINIT 1 None false [] None registry 0 ∅ [] [] ∅ 0 [] ∅.

End server.
