(* ===== verification/ServerScenario.v ===== *)
(** * A small server

    A server over the reference maps, with an object, one client that runs and one that has just
    connected; the witnesses of the server's theorems are runs of it. *)

From S2P Require Import Prelude Errors Types Views Writer ValueWrite ValueProbe Value Codec Payload Packet Typedescr ValueValidate.
From S2P Require Import Hashtable PendingReqs Table Traits Registry RegistrySpec RegistryTheorems Clients Chunk Builders BuildersTheorems.
From S2P Require Import Server.
From stdpp Require Import gmap list.

#[local] Open Scope Z_scope.

(** Memory and libuv never fail; the user leaves every request pending. *)
Definition sample_env : environment (T := map_ptr) :=
  mk_env (fun _ => true) (fun _ => true) (fun _ => true) (fun _ => true) (fun _ => None) (fun _ => None) (fun _ => None) (fun _ => None) None
    (Some (fun _ => (DICEY_REQUEST_STATE_PENDING, []))) (fun _ => true) [] (fun _ => sfault NullDeref) (fun _ _ => sfault NullDeref) 100.

Definition sample_selector : dicey_selector := mk_selector (Some name_t) (Some [112]).

Definition sample_message (op : dicey_op) (seq : Z) (path : cstr) : dicey_packet :=
  match written_packet (fun _ => true) op seq (Some path) sample_selector None with Ok p => p | _ => DICEY_EMPTY_PACKET end.

Definition sample_signal : dicey_packet :=
  match written_packet (fun _ => true) DICEY_OP_SIGNAL 1 (Some path_a) sample_selector (Some ArgUnit) with Ok p => p | _ => DICEY_EMPTY_PACKET end.

(** The client 0 has subscribed to the element that [sample_signal] names. *)
Definition running_client : dicey_client_data (T := map_ptr) :=
  mk_client CLIENT_DATA_STATE_RUNNING 0 None (Some {[ element_descriptor path_a sample_selector := tt ]}) None false.

Definition fresh_client : dicey_client_data (T := map_ptr) :=
  mk_client CLIENT_DATA_STATE_CONNECTED 1 None None None false.

Definition sample_server : dicey_server (T := map_ptr) :=
  mk_server SERVER_STATE_RUNNING 1 None false [] (Some [Some 0%nat; Some 1%nat]) witness_registry 0
    {[ 0%nat := running_client; 1%nat := fresh_client ]} [] [] ∅ 2 [] ∅.

(** A run that ends well, from its result alone. *)
Lemma run_ok {S A} (m : S -> res A * S) s a : (m s).1 = Ok a -> m s = (Ok a, (m s).2).
Proof. destruct (m s). cbn. by intros ->. Qed.

(** Evaluate an equation between first-order values. *)
Ltac evaluate := lazymatch goal with |- @eq _ _ _ => vm_compute; reflexivity end.
