(* ===== verification/ServerFrame.v ===== *)
(** * What the server does not change

    Most handlers of the server only do a few kinds of updates. A reflexive and transitive relation
    between states that allows these updates holds between the states before and after every
    handler, whatever its result; the theorems about the server use this for the requests shown to
    the user, for the signals in flight and for the sequence numbers. *)

From S2P Require Import Prelude Errors Types Views Writer ValueWrite ValueProbe Value Codec Payload Packet Typedescr ValueValidate.
From S2P Require Import Hashtable PendingReqs Table Traits Registry Clients Chunk Builders BuildersTheorems PluginData Server.
From stdpp Require Import gmap list.

#[local] Open Scope Z_scope.

Section frame.
Context {T : Type -> Type} `{Table T}.
Abbreviation server := (dicey_server (T := T)).

(** [preserves R m]: whatever [m] returns, the state afterwards is related to the one before. *)
Definition preserves (R : server -> server -> Prop) {A} (m : sst (T := T) A) : Prop := forall s, R s (m s).2.

(** The updates that a relation must allow, [ev] being the events it allows in the log. *)
Record allows (R : server -> server -> Prop) (ev : event -> Prop) : Prop := {
  al_order : PreOrder R;
  al_registry : forall r s, R s (set_registry r s);
  al_heap : forall h s, R s (set_heap h s);
  al_clients : forall l s, R s (set_clients l s);
  al_closing : forall l s, R s (set_closing l s);
  al_queue : forall q s, R s (set_queue q s);
  al_scratchpad : forall n s, R s (set_scratchpad n s);
  al_state : forall st s, R s (set_state st s);
  al_stopping : forall b s, R s (set_stopping b s);
  al_hook : forall h s, R s (set_hook h s);
  al_plugins : forall m s, R s (set_plugins m s);
  al_next : forall s, R s (set_next (S (sv_next s)) s);
  al_seq : forall s, R s (set_seq_cnt (u32 (seq_cnt s + 2)) s);
  al_log : forall e s, ev e -> R s (set_log (sv_log s ++ [e]) s);
  al_write : forall id c p s, R s (set_writes (sv_writes s ++ [mk_write id c (OutResponse p)]) s);
}.

Section relation.
Context (R : server -> server -> Prop) (ev : event -> Prop) (Hal : allows R ev).
(** Every event but the delivery of a request is allowed. *)
Hypothesis Hev : forall e, match e with EvRequest _ => True | _ => ev e end.

Lemma keep_refl s : R s s.
Proof. apply Hal. Qed.

Lemma keep_bind {A B} (m : sst A) (k : A -> sst B) : preserves R m -> (forall a, preserves R (k a)) -> preserves R (sbind m k).
Proof.
  intros Hm Hk s. unfold sbind. specialize (Hm s). destruct (m s) as [r s1]. cbn in Hm. pose proof (al_order _ _ Hal) as Ho.
  destruct r; try done. etrans; [exact Hm|apply Hk].
Qed.

(** The continuation of a pure computation knows its result. *)
Lemma keep_bind_lift {A B} (m : res A) (k : A -> sst B) : (forall a, m = Ok a -> preserves R (k a)) -> preserves R (sbind (slift m) k).
Proof. intros Hk s. unfold sbind, slift. destruct m; try apply keep_refl. by apply Hk. Qed.

Lemma keep_ret {A} (a : A) : preserves R (sret a).
Proof. intros s. apply keep_refl. Qed.
Lemma keep_fail {A} e : preserves R (sfail e : sst A).
Proof. intros s. apply keep_refl. Qed.
Lemma keep_fault {A} f : preserves R (sfault f : sst A).
Proof. intros s. apply keep_refl. Qed.
Lemma keep_get : preserves R sget.
Proof. intros s. apply keep_refl. Qed.
Lemma keep_lift {A} (m : res A) : preserves R (slift m).
Proof. intros s. apply keep_refl. Qed.
Lemma keep_assert b : preserves R (sassert b).
Proof. destruct b; intros s; apply keep_refl. Qed.
Lemma keep_assume {A} (m : res A) : preserves R (assume m).
Proof. intros s. apply keep_refl. Qed.
Lemma keep_read c : preserves R (client_read c).
Proof. intros s. apply keep_refl. Qed.
Lemma keep_shared_read p : preserves R (shared_read p).
Proof. intros s. apply keep_refl. Qed.

Lemma keep_attempt {A} (m : sst A) : preserves R m -> preserves R (attempt m).
Proof. intros Hm s. unfold attempt. specialize (Hm s). by destruct (m s) as [[] ?]. Qed.

Lemma keep_reg {A} (m : rst A) : preserves R (reg m).
Proof. intros s. unfold reg. destruct (m (sv_registry s)) as [r rg]. apply Hal. Qed.

Lemma keep_upd f : (forall s, R s (f s)) -> preserves R (upd f).
Proof. intros Hf s. apply Hf. Qed.

Lemma keep_log e : ev e -> preserves R (log e).
Proof. intros He s. by apply Hal. Qed.

Lemma keep_client_write c d : preserves R (client_write c d).
Proof. intros s. apply Hal. Qed.

Lemma keep_malloc ok : preserves R (malloc ok).
Proof. intros s. apply Hal. Qed.

Lemma keep_if {A} (b : bool) (m1 m2 : sst A) : preserves R m1 -> preserves R m2 -> preserves R (if b then m1 else m2).
Proof. by destruct b. Qed.

Lemma keep_error err id : preserves R (log (EvError err id)).
Proof. apply keep_log. exact (Hev (EvError err id)). Qed.

End relation.
End frame.

(** Walk through a handler. *)
Ltac keep_event Hal Hev :=
  apply (keep_log _ _ Hal);
  first [exact I | lazymatch goal with |- ?ev ?e => exact (Hev e) end].

Ltac keep_update Hal :=
  apply keep_upd; intros;
  first [ apply (al_heap _ _ Hal) | apply (al_clients _ _ Hal) | apply (al_closing _ _ Hal) | apply (al_queue _ _ Hal)
        | apply (al_scratchpad _ _ Hal) | apply (al_state _ _ Hal) | apply (al_stopping _ _ Hal) | apply (al_hook _ _ Hal)
        | apply (al_registry _ _ Hal) | apply (al_plugins _ _ Hal) | apply (al_write _ _ Hal) ].

Ltac keep_step Hal Hev :=
  lazymatch goal with
  | |- preserves _ (sbind (slift _) _) => apply (keep_bind_lift _ _ Hal); intros
  | |- preserves _ (sbind _ _) => apply (keep_bind _ _ Hal); [|intros]
  | |- preserves _ (sret _) => apply (keep_ret _ _ Hal)
  | |- preserves _ (sfail _) => apply (keep_fail _ _ Hal)
  | |- preserves _ (sfault _) => apply (keep_fault _ _ Hal)
  | |- preserves _ sget => apply (keep_get _ _ Hal)
  | |- preserves _ (slift _) => apply (keep_lift _ _ Hal)
  | |- preserves _ (sassert _) => apply (keep_assert _ _ Hal)
  | |- preserves _ (assume _) => apply (keep_assume _ _ Hal)
  | |- preserves _ (client_read _) => apply (keep_read _ _ Hal)
  | |- preserves _ (attempt _) => apply keep_attempt
  | |- preserves _ (reg _) => apply (keep_reg _ _ Hal)
  | |- preserves _ (client_write _ _) => apply (keep_client_write _ _ Hal)
  | |- preserves _ (malloc _) => apply (keep_malloc _ _ Hal)
  | |- preserves _ (log _) => keep_event Hal Hev
  | |- preserves _ (upd _) => keep_update Hal
  | |- preserves _ (match _ with _ => _ end) => case_match
  end.

Ltac keep Hal Hev := repeat (cbv beta zeta; first [assumption | keep_step Hal Hev]).

(** ** The handlers *)

Section handlers.
Context {T : Type -> Type} `{Table T}.
Context (E : environment (T := T)).
Context (R : dicey_server (T := T) -> dicey_server (T := T) -> Prop) (ev : event -> Prop) (Hal : allows R ev).
Hypothesis Hev : forall e, match e with EvRequest _ => True | _ => ev e end.

#[local] Ltac k := keep Hal Hev.

Lemma keep_sendpkt c p : preserves R (server_sendpkt E c (OutResponse p)).
Proof. unfold server_sendpkt. cbn [outbound_packet_is_valid outbound_packet_size outbound_packet_payload outbound_packet_borrow]. k. Qed.

Lemma keep_send_or_cleanup c p : preserves R (send_or_cleanup E c (OutResponse p)).
Proof. unfold send_or_cleanup. cbn [outbound_packet_cleanup]. pose proof (keep_sendpkt c p). k. Qed.

Lemma keep_next_seq : preserves R server_next_seq.
Proof. intros s. unfold server_next_seq, upd. srun. apply Hal. Qed.

Lemma keep_kick c reason : preserves R (server_kick_client E c reason).
Proof.
  unfold server_kick_client. pose proof keep_next_seq. k. apply keep_send_or_cleanup.
Qed.

Lemma keep_report_error c p e : preserves R (server_report_error E c p e).
Proof. unfold server_report_error. k. apply keep_send_or_cleanup. Qed.

Lemma keep_set_state c st : preserves R (dicey_client_data_set_state c st).
Proof. unfold dicey_client_data_set_state. k. Qed.

Lemma keep_release_id id : preserves R (dicey_server_release_id id).
Proof. unfold dicey_server_release_id. k. Qed.

Lemma keep_remove_client id : preserves R (dicey_server_remove_client id).
Proof. unfold dicey_server_remove_client. pose proof (keep_release_id id). k. Qed.

Lemma keep_finish_cleanup c : preserves R (finish_client_data_cleanup c).
Proof.
  unfold finish_client_data_cleanup. k. apply keep_upd. intros s. pose proof (al_order _ _ Hal). etrans; [apply (al_heap _ _ Hal)|apply (al_plugins _ _ Hal)].
Qed.

(** The cleanup of plugins is part of the environment. *)
Definition cleanup_keeps : Prop := forall c, preserves R (e_plugin_cleanup E c).

Lemma keep_client_cleanup c : cleanup_keeps -> preserves R (dicey_client_data_cleanup E c).
Proof. intros Hc. unfold dicey_client_data_cleanup. pose proof (Hc c). k. apply keep_finish_cleanup. Qed.

Lemma keep_raised_error c e : preserves R (dicey_server_client_raised_error E c e).
Proof. unfold dicey_server_client_raised_error. pose proof (keep_set_state c CLIENT_DATA_STATE_DEAD). k. apply keep_kick. Qed.

Lemma keep_ignore {A} (m : sst A) : preserves R m -> preserves R (ignore m).
Proof. intros. unfold ignore. k. Qed.

Lemma keep_refuse c p seq e : preserves R (refuse E c p seq e).
Proof. unfold refuse. k. apply keep_report_error. Qed.

Lemma keep_request_for id p : preserves R (dicey_server_request_for id p).
Proof. unfold dicey_server_request_for. k. Qed.

(** Builtin handlers are part of the environment. *)
Definition builtins_keep : Prop :=
  Forall (fun h : builtin_handler => forall op e path p v c, preserves R (h op e path p v c)) (e_builtins E).

Lemma keep_run_builtin c p seq path v e h op :
  (forall op e path p v c, preserves R (h op e path p v c)) -> preserves R (run_builtin E c p seq path v e h op).
Proof. intros Hh. unfold run_builtin. pose proof (Hh op e path p v c). k; (apply keep_report_error || apply keep_send_or_cleanup). Qed.

(** Requests may or may not be allowed. *)
Lemma keep_deliver c p seq h : (forall r, ev (EvRequest r)) -> preserves R (deliver_request E c p seq h).
Proof.
  intros Hreq. unfold deliver_request. pose proof (fun id => keep_request_for id p).
  eapply keep_bind; [exact Hal|k|intros]. eapply keep_bind; [exact Hal|done|intros]. k.
  - by apply (keep_log _ _ Hal).
  - apply keep_ignore, keep_report_error.
Qed.

(** The cases of a message: every path but the delivery keeps the relation. *)
Lemma keep_got_message c p :
  builtins_keep -> (forall seq h, e_on_request E = Some h -> preserves R (deliver_request E c p seq h)) ->
  preserves R (client_got_message E c p).
Proof.
  intros Hb Hd. unfold client_got_message. k; try apply keep_refuse; [|by apply Hd].
  apply keep_run_builtin. unfold dicey_registry_get_builtin_info_for in *. simplify_eq.
  match goal with Hi : context [_ =? 0] |- _ => destruct (_ =? 0); [done|]; destruct (e_builtins E !! _) eqn:El; simplify_eq end.
  unfold builtins_keep in Hb. rewrite Forall_forall in Hb. apply Hb. by eapply list_elem_of_lookup_2.
Qed.

Lemma keep_got_bye c : preserves R (client_got_bye c).
Proof. unfold client_got_bye. k. apply keep_ignore, keep_remove_client. Qed.

Lemma keep_got_hello c seq v : preserves R (client_got_hello E c seq v).
Proof. unfold client_got_hello. k. apply keep_send_or_cleanup. Qed.

Lemma keep_got_packet c p :
  builtins_keep -> (forall seq h, e_on_request E = Some h -> preserves R (deliver_request E c p seq h)) ->
  preserves R (client_got_packet E c p).
Proof.
  intros Hb Hd. unfold client_got_packet. k; [apply keep_got_hello|apply keep_got_bye|by apply keep_got_message|apply keep_raised_error|apply keep_set_state].
Qed.

Lemma keep_alloc_buffer c : preserves R (alloc_buffer E c).
Proof. unfold alloc_buffer. k. Qed.

Lemma keep_on_read_end c e : preserves R (on_read_end c e).
Proof. unfold on_read_end. k; apply keep_remove_client. Qed.

Lemma keep_on_read c r :
  builtins_keep -> (forall p seq h, e_on_request E = Some h -> preserves R (deliver_request E c p seq h)) -> preserves R (on_read E c r).
Proof.
  intros Hb Hd. unfold on_read.
  assert (forall e, preserves R (ignore (dicey_server_client_raised_error E c e))) by (intros; apply keep_ignore, keep_raised_error).
  assert (forall p, preserves R (ignore (client_got_packet E c p))) by (intros; apply keep_ignore, keep_got_packet; auto).
  destruct r; [apply keep_on_read_end..|]. k; eauto.
Qed.

Lemma keep_cancel l : preserves R (cancel_requests l).
Proof. induction l; cbn [cancel_requests]; k. Qed.

Lemma keep_finalize : preserves R server_finalize_shutdown.
Proof. unfold server_finalize_shutdown. pose proof keep_cancel. k; auto. Qed.

Lemma keep_shutdown_at_end : preserves R server_shutdown_at_end.
Proof. unfold server_shutdown_at_end. k. Qed.

Lemma keep_kick_all l e : preserves R (kick_all E l e).
Proof.
  revert e. induction l as [|[c|] l IH]; intros e; cbn [kick_all]; k; auto. apply keep_kick.
Qed.

Lemma keep_shutdown : preserves R (server_shutdown E).
Proof. unfold server_shutdown. pose proof keep_finalize. k. apply keep_kick_all. Qed.

Lemma keep_send_response c p m : preserves R (client_send_response E c p m).
Proof. unfold client_send_response. k; apply keep_sendpkt. Qed.

Lemma keep_prune_request c path r : preserves R (request_should_prune_if_matching E c path r).
Proof. unfold request_should_prune_if_matching. k. apply keep_ignore, keep_send_or_cleanup. Qed.

Lemma keep_prune_loop (f : request -> sst bool) n p i : (forall r, preserves R (f r)) -> preserves R (prune_loop f n p i).
Proof. intros Hf. revert p i. induction n as [|n IH]; intros p i; cbn [prune_loop]; k; auto. Qed.

Lemma keep_prune (f : request -> sst bool) n p : (forall r, preserves R (f r)) -> preserves R (dicey_pending_requests_prune f n p).
Proof. intros Hf. unfold dicey_pending_requests_prune. k. by apply keep_prune_loop. Qed.

Lemma keep_prune_all l path : preserves R (prune_all E l path).
Proof.
  induction l as [|[c|] l IH]; cbn [prune_all]; k. apply keep_prune. intros r. apply keep_prune_request.
Qed.

Lemma keep_callback cb client : (forall p, cb <> loop_raise_signal p) -> (forall r, cb <> loop_plugin r) -> preserves R (run_callback E cb client).
Proof.
  intros Hcb Hpl. destruct cb; cbn [run_callback]; try (by eapply keep_reg); try done.
  - unfold loop_request_del_object, remove_object. pose proof keep_prune_all. k. auto.
  - unfold loop_request_kick_client. k. apply keep_kick.
  - by destruct (Hcb packet).
  - unfold loop_request_send_response. k. apply keep_send_response.
  - apply keep_shutdown.
  - by destruct (Hpl req).
Qed.

Lemma keep_report_result r c e : preserves R (report_result r c e).
Proof. unfold report_result. k. Qed.

Lemma keep_new_peer : cleanup_keeps -> preserves R (server_new_peer E).
Proof.
  intros Hc. unfold server_new_peer, dicey_client_data_new, dicey_server_cleanup_id. pose proof keep_release_id. k; auto. by apply keep_client_cleanup.
Qed.

Lemma keep_on_connect st : cleanup_keeps -> preserves R (on_connect E st).
Proof.
  intros Hc. unfold on_connect, dicey_server_start_reading_from_client_internal.
  assert (forall id, preserves R (ignore (dicey_server_remove_client id))) by (intros; apply keep_ignore, keep_remove_client).
  k; auto. by apply keep_new_peer.
Qed.

Lemma keep_client_end c : cleanup_keeps -> preserves R (on_client_end E c).
Proof. intros Hc. unfold on_client_end. k. by apply keep_client_cleanup. Qed.

Lemma keep_submit cb target sem : preserves R (submit_new E cb target sem).
Proof. unfold submit_new, dicey_server_blocking_request, dicey_server_submit_request. k. Qed.

End handlers.
