(* ===== verification/ServerTheorems.v ===== *)
(** * Theorems about the server

    Which requests reach the user, how signals and their packets are accounted for, what clients
    are answered, how the server stops, and what the code does against its intentions. *)

From S2P Require Import Prelude Errors Types Views Writer ValueWrite ValueProbe Value Codec Payload Packet Typedescr ValueValidate.
From S2P Require Import Hashtable PendingReqs Table Traits Registry RegistrySpec RegistryTheorems Clients Chunk Builders BuildersTheorems.
From S2P Require Import Server ServerScenario ServerFrame.
From stdpp Require Import gmap list.

#[local] Open Scope Z_scope.

(** ** Lookups leave the registry alone *)

Section lookups.
Context {T : Type -> Type} `{Table T}.

Definition pure {A} (m : rst (T := T) A) : Prop := forall r, (m r).2 = r.

Lemma pure_bind {A B} (m : rst A) (k : A -> rst B) : pure m -> (forall a, pure (k a)) -> pure (sbind m k).
Proof. intros Hm Hk r. unfold sbind. specialize (Hm r). destruct (m r) as [x r1]. cbn in Hm. subst r1. destruct x; try done. apply Hk. Qed.

Lemma pure_catch {A} (m : rst A) : pure m -> pure (scatch m).
Proof. intros Hm r. unfold scatch. specialize (Hm r). by destruct (m r) as [[] ?]. Qed.

#[local] Ltac pure :=
  repeat lazymatch goal with
  | |- pure (sbind _ _) => apply pure_bind; [|intros]
  | |- pure (scatch _) => apply pure_catch
  | |- pure (match _ with _ => _ end) => case_match
  | |- pure (sassert ?b) => intros ?; destruct b; reflexivity
  | |- pure _ => intros ?; reflexivity
  end.

Lemma get_object_entry_pure p : pure (dicey_registry_get_object_entry p).
Proof. unfold dicey_registry_get_object_entry, registry_get_object_entry. pure. Qed.

Lemma get_element_entry_pure p sel : pure (dicey_registry_get_element_entry_from_sel p sel).
Proof.
  unfold dicey_registry_get_element_entry_from_sel, dicey_registry_get_element_entry, registry_get_object_entry,
    dicey_object_implements, dicey_registry_get_trait. pure.
Qed.

Lemma get_element_pure p sel : pure (dicey_registry_get_element_from_sel p sel).
Proof.
  unfold dicey_registry_get_element_from_sel, dicey_registry_get_element, dicey_registry_get_element_entry, registry_get_object_entry,
    dicey_object_implements, dicey_registry_get_trait. pure.
Qed.

Lemma get_main_path_pure p : pure (dicey_registry_get_main_path p).
Proof.
  unfold dicey_registry_get_main_path, dicey_registry_get_object, dicey_registry_get_object_entry, registry_get_object_entry, read_main_path. pure.
Qed.

Lemma reg_pure {A} (m : rst A) s : pure m -> reg m s = ((m (sv_registry s)).1, s).
Proof. intros Hm. unfold reg. specialize (Hm (sv_registry s)). destruct (m (sv_registry s)) as [x r]. cbn in *. subst r. by destruct s. Qed.

(** The element a message asks for. *)
Definition target_of (s : dicey_server (T := T)) (path : cstr) (sel : dicey_selector) : res (option dicey_object_element_entry) :=
  (dicey_registry_get_element_entry_from_sel path sel (sv_registry s)).1.

Lemma bind_reg_pure {A B} (m : rst A) (k : A -> sst B) s :
  pure m -> sbind (reg m) k s = match (m (sv_registry s)).1 with
    | Ok a => k a s | Err e => (Err e, s) | Fault f => (Fault f, s) | OutOfFuel => (OutOfFuel, s) end.
Proof. intros Hm. unfold sbind. by rewrite reg_pure. Qed.

Lemma bind_attempt_lift {A B} (m : res A) (k : dicey_error + A -> sst (T := T) B) s :
  sbind (attempt (slift m)) k s = match m with
    | Ok a => k (inr a) s | Err e => k (inl e) s | Fault f => (Fault f, s) | OutOfFuel => (OutOfFuel, s) end.
Proof. by destruct m. Qed.

Lemma bind_lift {A B} (m : res A) (k : A -> sst (T := T) B) s :
  sbind (slift m) k s = match m with
    | Ok a => k a s | Err e => (Err e, s) | Fault f => (Fault f, s) | OutOfFuel => (OutOfFuel, s) end.
Proof. by destruct m. Qed.

Lemma bind_read {B} c (k : dicey_client_data -> sst (T := T) B) s :
  sbind (client_read c) k s = match sv_heap s !! c with Some d => k d s | None => (Fault UseAfterFree, s) end.
Proof. unfold sbind, client_read. by destruct (sv_heap s !! c). Qed.

End lookups.

(** ** Requests shown to the user *)

Section requests.
Context {T : Type -> Type} `{Table T}.
Context (E : environment (T := T)).

Definition requests (l : list event) : list request := omap (fun e => match e with EvRequest q => Some q | _ => None end) l.

Definition same_requests (s s' : dicey_server (T := T)) : Prop := requests (sv_log s') = requests (sv_log s).

Definition not_request (e : event) : Prop := match e with EvRequest _ => False | _ => True end.

Lemma requests_snoc l e : not_request e -> requests (l ++ [e]) = requests l.
Proof. intros He. unfold requests. rewrite omap_app. destruct e; try done; apply app_nil_r. Qed.

Lemma allows_same_requests : allows same_requests not_request.
Proof.
  unfold same_requests. split; try done.
  - split; [by intros ?|]. intros s1 s2 s3 H12 H23. congruence.
  - intros e s He. by apply requests_snoc.
Qed.

Lemma events_not_request e : match e with EvRequest _ => True | _ => not_request e end.
Proof. by destruct e. Qed.

(** What is known about a request that the user sees. *)
Record delivered (s : dicey_server (T := T)) (c : nat) (packet : dicey_packet) (q : request) : Prop := {
  dv_client : exists d, sv_heap s !! c = Some d /\ cd_state d = CLIENT_DATA_STATE_RUNNING /\ rq_client (req_rest q) = cd_id d /\
    validate_seqnum (cd_pending d) (packet_seq q) = true;
  dv_seq : dicey_packet_get_seq packet = Ok (packet_seq q);
  dv_target : exists msg path entry, dicey_packet_as_message packet = Ok msg /\ msg_path msg = Some path /\
    target_of s path (msg_selector msg) = Ok (Some entry) /\
    req_op q = msg_type msg /\ is_server_op (msg_type msg) = false /\
    is_message_acceptable_for E (oe_element entry) msg = Ok DICEY_OK /\ el_tag (oe_element entry) = 0 /\
    rq_real_path (req_rest q) = Some path /\ rq_packet (req_rest q) = packet;
}.

(** Making a request looks at the packet and the registry only. *)
Lemma request_for_ok id packet s q s' :
  dicey_server_request_for id packet s = (Ok q, s') ->
  s' = s /\ rq_client (req_rest q) = id /\ dicey_packet_get_seq packet = Ok (packet_seq q) /\ rq_packet (req_rest q) = packet /\
  exists msg, dicey_packet_as_message packet = Ok msg /\ req_op q = msg_type msg /\ rq_real_path (req_rest q) = msg_path msg.
Proof.
  unfold dicey_server_request_for. destruct (dicey_packet_is_valid packet); [|done]. srun. intros Hq.
  destruct (dicey_packet_as_message packet) as [msg| | |] eqn:Em; try done.
  destruct (dicey_packet_get_seq packet) as [seq| | |] eqn:Es; try done. destruct (msg_path msg) as [path|] eqn:Ep; [|done].
  rewrite bind_reg_pure in Hq by apply get_element_pure. destruct (_.1) as [[el|]| | |]; try done.
  destruct (bool_decide (is_Some (el_signature el))); [|done]. srun.
  cbn [sbind sret slift sassert] in Hq. destruct (response_builder _ _ _) as [b| | |]; try done.
  rewrite bind_reg_pure in Hq by apply get_main_path_pure. destruct (_.1) as [m| | |]; try done.
  unfold sret in Hq. simplify_eq. cbn. split_and!; try done. exists msg. by split_and!.
Qed.

Lemma pending_add_valid r0 ok ptr (q : request) i ptr' :
  dicey_pending_requests_add r0 ok ptr q = Ok (inr i, ptr') -> validate_seqnum ptr (packet_seq q) = true.
Proof.
  unfold dicey_pending_requests_add. destruct (pending_request_is_valid q); [|done]. cbn [oassert obind].
  by destruct (validate_seqnum ptr (packet_seq q)).
Qed.

Lemma request_for_pure id packet s : (dicey_server_request_for id packet s).2 = s.
Proof.
  unfold dicey_server_request_for. destruct (dicey_packet_is_valid packet); [|done]. srun.
  destruct (dicey_packet_as_message packet) as [msg| | |]; try done. destruct (dicey_packet_get_seq packet); try done.
  destruct (msg_path msg) as [path|]; [|done]. rewrite bind_reg_pure by apply get_element_pure.
  destruct (_.1) as [[el|]| | |]; try done. destruct (bool_decide (is_Some (el_signature el))); [|done].
  cbn [sbind sret slift sassert]. destruct (response_builder _ _ _); try done.
  rewrite bind_reg_pure by apply get_main_path_pure. by destruct (_.1).
Qed.

(** A delivery shows at most one request, made of this packet. *)
Lemma deliver_shows c packet seq h s q :
  In q (requests (sv_log (deliver_request E c packet seq h s).2)) -> ~ In q (requests (sv_log s)) ->
  exists d s', sv_heap s !! c = Some d /\ dicey_server_request_for (cd_id d) packet s = (Ok q, s') /\
    validate_seqnum (cd_pending d) (packet_seq q) = true.
Proof.
  unfold deliver_request, sbind at 1, client_read at 1. destruct (sv_heap s !! c) as [d|] eqn:Ed; [|done]. intros Hin Hnew.
  unfold sbind at 1 in Hin. pose proof (request_for_pure (cd_id d) packet s) as Hpure.
  destruct (dicey_server_request_for (cd_id d) packet s) as [[q'| | |] s1] eqn:Eq; cbn in Hpure; subst s1; try done.
  unfold sbind at 1, slift at 1 in Hin. destruct (dicey_pending_requests_add _ _ (cd_pending d) q') as [[[e|i] ptr]| | |] eqn:Ep; try done.
  assert (q = q') as ->.
  { revert Hin Hnew. cbn [sbind client_write log upd]. destruct (h q') as [state reqs]. cbn [sbind upd].
    set (s1 := set_queue _ _). intros Hin Hnew.
    assert (requests (sv_log s1) = requests (sv_log s) ++ [q']) as Hs1 by (cbn; unfold requests; by rewrite omap_app).
    match type of Hin with In _ (requests (sv_log (?m s1).2)) => assert (same_requests s1 (m s1).2) as Hsame end.
    { match goal with |- same_requests s1 (?m s1).2 => assert (preserves same_requests m) as Hk; [|apply Hk] end.
      keep allows_same_requests events_not_request. apply keep_ignore with not_request; [apply allows_same_requests|].
      apply keep_report_error with not_request; [apply allows_same_requests|apply events_not_request]. }
    rewrite Hsame, Hs1 in Hin. apply in_app_or in Hin as [Hin|[->|[]]]; done. }
  exists d, s. split_and!; try done. by eapply pending_add_valid.
Qed.

(** A message either shows nothing to the user or is delivered after all checks. *)
Lemma got_message_cases c packet s :
  builtins_keep E same_requests ->
  same_requests s (client_got_message E c packet s).2 \/
  exists d seq msg path entry h, sv_heap s !! c = Some d /\ cd_state d = CLIENT_DATA_STATE_RUNNING /\
    dicey_packet_get_seq packet = Ok seq /\ dicey_packet_as_message packet = Ok msg /\ msg_path msg = Some path /\
    target_of s path (msg_selector msg) = Ok (Some entry) /\ is_server_op (msg_type msg) = false /\
    is_message_acceptable_for E (oe_element entry) msg = Ok DICEY_OK /\ el_tag (oe_element entry) = 0 /\
    client_got_message E c packet s = deliver_request E c packet seq h s.
Proof.
  intros Hb. pose proof allows_same_requests as Hal. pose proof events_not_request as Hev.
  assert (same_requests s s) as Hrefl by done.
  assert (forall seq e, same_requests s (refuse E c packet seq e s).2) as Href by (intros; by apply (keep_refuse E _ _ Hal Hev)).
  unfold client_got_message. rewrite bind_attempt_lift. destruct (dicey_packet_get_seq packet) as [seq| | |] eqn:Es; try (by left);
    rewrite bind_attempt_lift; destruct (dicey_packet_as_message packet) as [msg| | |] eqn:Em; try (by left);
    rewrite bind_read; destruct (sv_heap s !! c) as [d|] eqn:Ed; try (by left).
  destruct (is_server_op (msg_type msg)) eqn:Eop; [by left|].
  destruct (bool_decide_reflect (cd_state d = CLIENT_DATA_STATE_RUNNING)) as [Hrun|]; cbn [negb]; [|by left].
  destruct (msg_path msg) as [path|] eqn:Ep; [|by left].
  rewrite bind_reg_pure by apply get_object_entry_pure. destruct (_.1) as [[oe|]| | |]; try (by left); try (left; apply Href).
  rewrite bind_reg_pure by apply get_element_entry_pure. fold (target_of s path (msg_selector msg)).
  destruct (target_of s path (msg_selector msg)) as [[entry|]| | |] eqn:Et; try (by left); try (left; apply Href).
  rewrite bind_lift. destruct (is_message_acceptable_for E (oe_element entry) msg) as [op_err| | |] eqn:Ea; try (by left).
  destruct (bool_decide_reflect (op_err = DICEY_OK)) as [->|]; cbn [negb]; [|left; apply Href].
  rewrite bind_lift. unfold dicey_registry_get_builtin_info_for. cbn [ee_element dicey_object_element_entry_to_element_entry].
  destruct (Z.eqb_spec (el_tag (oe_element entry)) 0) as [Htag|_].
  - destruct (e_on_request E) as [h|] eqn:Eh; [|by left]. right. exists d, seq, msg, path, entry, h. by split_and!.
  - destruct (e_builtins E !! _) as [bh|] eqn:Ebh; [|by left]. left.
    apply (keep_run_builtin E _ _ Hal Hev). unfold builtins_keep in Hb. rewrite Forall_forall in Hb. apply Hb. by eapply list_elem_of_lookup_2.
Qed.

Lemma got_packet_cases c packet s q :
  builtins_keep E same_requests ->
  In q (requests (sv_log (client_got_packet E c packet s).2)) -> ~ In q (requests (sv_log s)) ->
  dicey_packet_get_kind packet = Ok DICEY_PACKET_KIND_MESSAGE /\ In q (requests (sv_log (client_got_message E c packet s).2)).
Proof.
  intros Hb Hin Hnew. pose proof allows_same_requests as Hal. pose proof events_not_request as Hev.
  unfold client_got_packet in Hin. destruct (dicey_packet_is_valid packet); [|done].
  cbn [sassert sret sbind slift assume] in Hin. destruct (dicey_packet_get_kind packet) as [kind| | |]; try done.
  match type of Hin with In _ (requests (sv_log (sbind (attempt ?body) ?k s).2)) =>
    assert (requests (sv_log (sbind (attempt body) k s).2) = requests (sv_log (body s).2)) as Hsame end.
  { unfold sbind, attempt. match goal with |- context [match ?m s with _ => _ end] => destruct (m s) as [[st|e|f|] s1] end; try done; cbn [snd].
    - apply (keep_set_state _ _ Hal).
    - apply (keep_raised_error E _ _ Hal Hev). }
  rewrite Hsame in Hin. destruct kind; try done.
  - exfalso. apply Hnew. match type of Hin with In _ (requests (sv_log (?m s).2)) => assert (same_requests s (m s).2) as <-; [|done] end.
    match goal with |- same_requests s (?m s).2 => assert (preserves same_requests m) as Hk; [|apply Hk] end.
    keep Hal Hev. apply (keep_got_hello E _ _ Hal Hev).
  - exfalso. apply Hnew. match type of Hin with In _ (requests (sv_log (?m s).2)) => assert (same_requests s (m s).2) as <-; [|done] end.
    match goal with |- same_requests s (?m s).2 => assert (preserves same_requests m) as Hk; [|apply Hk] end.
    keep Hal Hev. apply (keep_got_bye _ _ Hal).
Qed.

(** C3: the trust boundary of the server: whatever bytes a client sends, a request is shown to the
    user only if the client has completed its handshake, the packet is a GET, SET or EXEC with the
    next sequence number of that client, it names an element that the registry has at that path,
    the element allows the operation, the value agrees with its signature, and no builtin handles
    it; the request carries the operation, the sequence number, the path and the client of the
    packet. *)
Theorem only_valid_requests_delivered c packet s q :
  builtins_keep E same_requests ->
  In q (requests (sv_log (client_got_packet E c packet s).2)) -> ~ In q (requests (sv_log s)) ->
  dicey_packet_get_kind packet = Ok DICEY_PACKET_KIND_MESSAGE /\ delivered s c packet q.
Proof.
  intros Hb Hin Hnew. destruct (got_packet_cases c packet s q Hb Hin Hnew) as [Hkind Hin']. split; [done|].
  destruct (got_message_cases c packet s Hb) as [Hsame|(d & seq & msg & path & entry & h & Hd & Hrun & Hseq & Hmsg & Hpath & Ht & Hop & Hacc & Htag & Eg)].
  { by rewrite Hsame in Hin'. }
  rewrite Eg in Hin'. destruct (deliver_shows _ _ _ _ _ _ Hin' Hnew) as (d' & s' & Hd' & Eq & Hval). simplify_eq.
  destruct (request_for_ok _ _ _ _ _ Eq) as (-> & Hcl & Hseq' & Hpk & msg' & Hmsg' & Hop' & Hrp).
  rewrite Hmsg in Hmsg'. injection Hmsg' as <-. rewrite Hpath in Hrp.
  split; [by exists d|done|]. exists msg, path, entry. by split_and!.
Qed.

End requests.

(** ** Signals in flight *)

Section signals.
Context {T : Type -> Type} `{Table T}.
Context (E : environment (T := T)).
Abbreviation server := (dicey_server (T := T)).

(** The shared packets that writes in flight refer to. *)
Definition signals (l : list write_request) : list nat :=
  omap (fun w => match wr_packet w with OutSignal p => Some p | OutResponse _ => None end) l.

Definition copies (p : nat) (l : list nat) : Z := zlen (filter (fun q => q = p) l).

(** Every shared packet counts the writes in flight that use it, and [held p] references besides;
    its address is an old one; sequence numbers of the server are odd. *)
Record accounted (held : nat -> Z) (s : server) : Prop := {
  ac_counts : forall p, match sv_shared s !! p with
    | Some sp => sp_refc sp = copies p (signals (sv_writes s)) + held p /\ 0 < sp_refc sp /\ dicey_packet_is_valid (sp_packet sp) = true
    | None => copies p (signals (sv_writes s)) + held p = 0
    end;
  ac_old : forall p, is_Some (sv_shared s !! p) -> (p < sv_next s)%nat;
  ac_odd : Z.odd (seq_cnt s) = true;
}.

Definition same_signals (s s' : server) : Prop :=
  sv_shared s' = sv_shared s /\ signals (sv_writes s') = signals (sv_writes s) /\ (sv_next s <= sv_next s')%nat /\
  (Z.odd (seq_cnt s) = true -> Z.odd (seq_cnt s') = true).

Lemma odd_next n : Z.odd n = true -> Z.odd (u32 (n + 2)) = true.
Proof.
  intros Hn. unfold u32, wrap. rewrite <- Z.bit0_odd. rewrite Z.mod_pow2_bits_low by lia. rewrite Z.bit0_odd, Z.odd_add, Hn. done.
Qed.

Lemma allows_same_signals : allows same_signals (fun _ => True).
Proof.
  unfold same_signals. split; try (by intros; split_and!); try done.
  - split; [by intros ?|]. intros s1 s2 s3 (H1 & H2 & H3 & H4) (G1 & G2 & G3 & G4). split_and!; try congruence; try lia. auto.
  - intros s. split_and!; try done. cbn. lia.
  - intros s. split_and!; try done. apply odd_next.
  - intros id c p s. split_and!; try done. cbn. unfold signals. rewrite omap_app. cbn. apply app_nil_r.
Qed.

Lemma any_event (e : event) : match e with EvRequest _ => True | _ => True end.
Proof. by destruct e. Qed.

Lemma accounted_same held s s' : same_signals s s' -> accounted held s -> accounted held s'.
Proof.
  intros (H1 & H2 & H3 & H4) [Hc Ho Hd]. split; rewrite ?H1, ?H2; [done| |auto]. intros p Hp. specialize (Ho p Hp). lia.
Qed.

(** A computation keeps the accounts, whatever it returns unless it faults. *)
Definition accounts {A} (held : nat -> Z) (m : sst (T := T) A) (held' : nat -> Z) : Prop :=
  forall s, accounted held s -> match m s with (Ok _, s') | (Err _, s') => accounted held' s' | _ => True end.

Lemma accounts_keep {A} held (m : sst A) : preserves same_signals m -> accounts held m held.
Proof. intros Hm s Ha. pose proof (accounted_same held _ _ (Hm s) Ha). by destruct (m s) as [[] s']. Qed.

(** [n] references to [p] are held by the code that runs. *)
Definition held_by (p : nat) (n : Z) (q : nat) : Z := if decide (q = p) then n else 0.

Lemma held_at p n : held_by p n p = n.
Proof. unfold held_by. by rewrite decide_True. Qed.

Lemma held_off p n q : q <> p -> held_by p n q = 0.
Proof. intros. unfold held_by. by rewrite decide_False. Qed.

Lemma accounted_ext held held' s : (forall p, held p = held' p) -> accounted held s -> accounted held' s.
Proof. intros He [Hc Ho Hd]. split; [|done|done]. intros p. rewrite <- He. apply Hc. Qed.

Lemma copies_app p l1 l2 : copies p (l1 ++ l2) = copies p l1 + copies p l2.
Proof. unfold copies. by rewrite filter_app, zlen_app. Qed.

Lemma copies_one p q : copies p [q] = if decide (q = p) then 1 else 0.
Proof. unfold copies. rewrite filter_cons. by destruct (decide (q = p)). Qed.

Lemma copies_nonneg p l : 0 <= copies p l.
Proof. apply zlen_nonneg. Qed.

(** The accounts after one shared packet got a new count. *)
Lemma accounted_update held held' s p sp refc :
  accounted held s -> sv_shared s !! p = Some sp -> refc = copies p (signals (sv_writes s)) + held' p -> 0 < refc ->
  (forall q, q <> p -> held' q = held q) ->
  accounted held' (set_shared (<[p := mk_shared refc (sp_packet sp)]> (sv_shared s)) s).
Proof.
  intros Ha Ep Hr Hpos Hoth. pose proof (ac_counts _ _ Ha p) as Hp. rewrite Ep in Hp. destruct Hp as (_ & _ & Hv).
  split; [|intros q Hq; apply (ac_old _ _ Ha)|apply (ac_odd _ _ Ha)]; cbn [set_shared sv_shared sv_writes] in *.
  - intros q. destruct (decide (q = p)) as [->|Hq]; [rewrite lookup_insert_eq; cbn; by split_and!|].
    rewrite lookup_insert_ne by done. rewrite Hoth by done. apply (ac_counts _ _ Ha).
  - destruct (decide (q = p)) as [->|Hq']; [by eexists|]. by rewrite lookup_insert_ne in Hq.
Qed.

Lemma shared_read_ok held s p : accounted held s -> 0 < held p ->
  exists sp, sv_shared s !! p = Some sp /\ shared_valid sp = true /\ sp_refc sp = copies p (signals (sv_writes s)) + held p.
Proof.
  intros Ha Hh. pose proof (ac_counts _ _ Ha p) as Hp. pose proof (copies_nonneg p (signals (sv_writes s))).
  destruct (sv_shared s !! p) as [sp|]; [|lia]. destruct Hp as (Hr & Hpos & Hv). exists sp. split_and!; try done.
  unfold shared_valid. by rewrite Hv, (proj2 (Z.ltb_lt _ _) Hpos).
Qed.

(** Giving up a reference: the packet is freed with the last one. *)
Lemma unref_ok p n s : 0 <= n -> accounted (held_by p (n + 1)) s ->
  exists s', dicey_shared_packet_unref p s = (Ok tt, s') /\ accounted (held_by p n) s'.
Proof.
  intros Hn Ha. destruct (shared_read_ok _ s p Ha) as (sp & Ep & Hv & Hr); [rewrite held_at; lia|]. rewrite held_at in Hr.
  unfold dicey_shared_packet_unref, shared_read, sbind. rewrite Ep, Hv. cbn [sassert sret].
  pose proof (copies_nonneg p (signals (sv_writes s))) as Hnn. destruct (Z.leb_spec (sp_refc sp - 1) 0); eexists; (split; [reflexivity|]).
  - split; [|intros q Hq; apply (ac_old _ _ Ha)|apply (ac_odd _ _ Ha)]; cbn [set_shared sv_shared sv_writes] in *.
    + intros q. destruct (decide (q = p)) as [->|Hq]; [rewrite lookup_delete_eq, held_at; lia|].
      rewrite lookup_delete_ne, held_off by done. pose proof (ac_counts _ _ Ha q) as Hc. by rewrite held_off in Hc.
    + destruct (decide (q = p)) as [->|Hq']; [by eexists|]. by rewrite lookup_delete_ne in Hq.
  - apply (accounted_update (held_by p (n + 1))); try done; try lia; [rewrite held_at; lia|]. intros q Hq. by rewrite !held_off.
Qed.

Lemma ref_ok p n s : 0 < n -> accounted (held_by p n) s ->
  exists s', dicey_shared_packet_ref p s = (Ok tt, s') /\ accounted (held_by p (n + 1)) s'.
Proof.
  intros Hn Ha. destruct (shared_read_ok _ s p Ha) as (sp & Ep & Hv & Hr); [rewrite held_at; lia|]. rewrite held_at in Hr.
  unfold dicey_shared_packet_ref, shared_read, sbind. rewrite Ep, Hv. cbn [sassert sret].
  pose proof (copies_nonneg p (signals (sv_writes s))) as Hnn. eexists. split; [reflexivity|].
  apply (accounted_update (held_by p n)); try done; try lia; [rewrite held_at; lia|]. intros q Hq. by rewrite !held_off.
Qed.

Lemma shared_reads (s : server) p sp :
  sv_shared s !! p = Some sp -> shared_valid sp = true ->
  outbound_packet_is_valid (OutSignal p) s = (Ok true, s) /\ outbound_packet_size (OutSignal p) s = (Ok (nbytes (sp_packet sp)), s) /\
  outbound_packet_payload (OutSignal p) s = (Ok (payload (sp_packet sp)), s) /\ outbound_packet_borrow (OutSignal p) s = (Ok (sp_packet sp), s).
Proof.
  intros Ep Hv. cbn [outbound_packet_is_valid outbound_packet_size outbound_packet_payload outbound_packet_borrow].
  unfold dicey_shared_packet_is_valid, dicey_shared_packet_size, dicey_shared_packet_borrow, shared_read, sbind. rewrite Ep. cbn [sret].
  rewrite Hv. by split_and!.
Qed.

(** Sending a signal hands one reference to the write in flight. *)
Lemma send_signal_ok c p n s :
  0 <= n -> accounted (held_by p (n + 1)) s ->
  match server_sendpkt E c (OutSignal p) s with
  | (Ok _, s') => accounted (held_by p n) s'
  | (Err _, s') => accounted (held_by p (n + 1)) s'
  | _ => True
  end.
Proof.
  intros Hn Ha. destruct (shared_read_ok _ s p Ha) as (sp & Ep & Hv & Hr); [rewrite held_at; lia|].
  destruct (shared_reads s p sp Ep Hv) as (E1 & E2 & _ & _). unfold server_sendpkt. srw E1. destruct c as [c|]; [|done]. srun. srw E2.
  destruct (UINT_MAX <? nbytes (sp_packet sp)); [done|]. unfold malloc. srun. set (s1 := set_next _ _).
  assert (accounted (held_by p (n + 1)) s1) as Ha1 by (apply (accounted_same _ s); [apply (al_next _ _ allows_same_signals)|done]).
  destruct (e_malloc_ok E (sv_next s)); [|done]. rewrite bind_read. destruct (sv_heap s1 !! c) as [d|]; [|done].
  destruct (shared_reads s1 p sp Ep Hv) as (_ & _ & E3 & E4). srw E3. destruct (bool_decide _); [|done]. srun.
  destruct (e_uv_write_err E (sv_next s)); [done|]. srw E4. unfold upd, log. srun.
  split; [|apply (ac_old _ _ Ha1)|apply (ac_odd _ _ Ha)]. intros q. cbn [set_log set_writes set_next sv_shared sv_writes s1].
  pose proof (ac_counts _ _ Ha q) as Hc. unfold signals. rewrite omap_app. cbn [omap list_omap wr_packet]. fold (signals (sv_writes s)).
  rewrite copies_app, copies_one. destruct (decide (p = q)) as [<-|Hq].
  - rewrite Ep in *. rewrite held_at in *. split_and!; [lia|apply Hc|apply Hc].
  - rewrite held_off in * by done. destruct (sv_shared s !! q) as [sq|]; [|lia]. split_and!; [lia|apply Hc|apply Hc].
Qed.

(** The loop over the clients never gives an error. *)
Lemma raise_to_ok slots descr p s :
  accounted (held_by p 1) s -> match raise_to E slots descr p s with (Ok _, s') => accounted (held_by p 1) s' | (Err _, _) => False | _ => True end.
Proof.
  revert s. induction slots as [|[c|] slots IH]; intros s Ha; cbn [raise_to]; [done| |by apply IH].
  unfold sbind at 1. pose proof (accounts_keep (held_by p 1) (dicey_client_data_is_subscribed c descr)) as Hsub.
  assert (preserves same_signals (dicey_client_data_is_subscribed c descr)) as Hk.
  { unfold dicey_client_data_is_subscribed. keep allows_same_signals any_event. }
  specialize (Hsub Hk s Ha). destruct (dicey_client_data_is_subscribed c descr s) as [[[]| | |] s1] eqn:Es; try done; cbn [negb].
  - unfold sbind at 1. unfold sbind at 1. destruct (ref_ok p 1 s1 ltac:(lia) Hsub) as (s2 & -> & Ha2). unfold sbind at 1, attempt at 1.
    pose proof (send_signal_ok (Some c) p 1 s2 ltac:(lia) Ha2) as Hs. destruct (server_sendpkt E (Some c) (OutSignal p) s2) as [[]  s3]; try done.
    + cbn [sret]. by apply IH.
    + destruct (unref_ok p 1 s3 ltac:(lia) Hs) as (s4 & -> & Ha4). by apply IH.
  - cbn [sbind sret]. by apply IH.
  - unfold dicey_client_data_is_subscribed in Es. rewrite bind_read in Es. destruct (sv_heap s !! c); [|done].
    unfold assume, sbind, slift in Es. by destruct (tbl_get _ _).
Qed.

Definition none_held (_ : nat) : Z := 0.

Lemma held_by_0 p q : held_by p 0 q = none_held q.
Proof. unfold held_by. by destruct (decide (q = p)). Qed.

Lemma accounts_bind {A B} h1 h2 h3 (m : sst A) (k : A -> sst B) :
  accounts h1 m h2 -> (forall a, accounts h2 (k a) h3) -> (forall e, accounts h2 (sfail e : sst B) h3) -> accounts h1 (sbind m k) h3.
Proof.
  intros Hm Hk He s Ha. unfold sbind. specialize (Hm s Ha). destruct (m s) as [[a|e|f|] s1]; try done.
  - by apply Hk.
  - by apply (He e).
Qed.

(** A new shared packet starts with the reference of its maker. *)
Lemma shared_from_ok packet s :
  accounted none_held s ->
  match dicey_shared_packet_from E packet 1 s with
  | (Ok (Some p), s') => accounted (held_by p 1) s'
  | (Ok None, s') | (Err _, s') => accounted none_held s'
  | _ => True
  end.
Proof.
  intros Ha. unfold dicey_shared_packet_from. destruct (dicey_packet_is_valid packet) eqn:Hv; [|done]. srun. unfold malloc. srun.
  set (s1 := set_next _ _).
  assert (accounted none_held s1) as Ha1 by (apply (accounted_same _ s); [apply (al_next _ _ allows_same_signals)|done]).
  destruct (e_malloc_ok E (sv_next s)); [|done]. unfold upd. srun.
  assert (sv_shared s !! sv_next s = None) as Hnew.
  { destruct (sv_shared s !! sv_next s) eqn:Ep; [|done]. pose proof (ac_old _ _ Ha (sv_next s) ltac:(by eexists)). lia. }
  split; [| |apply (ac_odd _ _ Ha)]; cbn [set_shared sv_shared sv_writes s1 set_next sv_next].
  - intros q. pose proof (ac_counts _ _ Ha q) as Hc. destruct (decide (q = sv_next s)) as [->|Hq].
    + rewrite lookup_insert_eq, held_at. rewrite Hnew in Hc. unfold none_held in Hc. cbn. split_and!; [lia|lia|done].
    + rewrite lookup_insert_ne, held_off by done. exact Hc.
  - intros q Hq. destruct (decide (q = sv_next s)) as [->|Hq']; [lia|]. rewrite lookup_insert_ne in Hq by done.
    pose proof (ac_old _ _ Ha q Hq). lia.
Qed.

Lemma drop_last_reference {A} p e s :
  accounted (held_by p 1) s -> match ((dicey_shared_packet_unref p ;;! sfail e) : sst A) s with (Ok _, s') | (Err _, s') => accounted none_held s' | _ => True end.
Proof.
  intros Ha. destruct (unref_ok p 0 s ltac:(lia) Ha) as (s' & E1 & Ha'). srw E1. eapply accounted_ext; [apply held_by_0|done].
Qed.

Lemma set_packet_accounts p packet : dicey_packet_is_valid packet = true -> accounts (held_by p 1) (shared_set_packet p packet) (held_by p 1).
Proof.
  intros Hv s Ha. destruct (shared_read_ok _ s p Ha) as (sp & Ep & Hsv & Hr); [rewrite held_at; lia|].
  unfold shared_set_packet, shared_read, sbind. rewrite Ep. cbn [upd]. pose proof (ac_counts _ _ Ha p) as Hp. rewrite Ep in Hp.
  split; [|intros q Hq; apply (ac_old _ _ Ha)|apply (ac_odd _ _ Ha)]; cbn [set_shared sv_shared sv_writes] in *.
  - intros q. destruct (decide (q = p)) as [->|Hq]; [rewrite lookup_insert_eq; cbn; split_and!; [apply Hp|apply Hp|done]|].
    rewrite lookup_insert_ne by done. apply (ac_counts _ _ Ha).
  - destruct (decide (q = p)) as [->|Hq']; [by eexists|]. by rewrite lookup_insert_ne in Hq.
Qed.

Lemma set_seq_valid packet seq packet' : dicey_packet_set_seq packet seq = Ok packet' -> dicey_packet_is_valid packet = true -> dicey_packet_is_valid packet' = true.
Proof.
  unfold dicey_packet_set_seq. intros H1 Hv. rewrite Hv in H1. cbn [oassert obind] in H1. destruct (dtf_payload_set_seq _ _); try done.
  cbn in H1. injection H1 as <-. unfold dicey_packet_is_valid in *. cbn. by apply andb_true_iff in Hv as [_ ->].
Qed.

Lemma raise_internal_accounts packet : accounts none_held (dicey_server_raise_internal E packet) none_held.
Proof.
  intros s Ha. unfold dicey_server_raise_internal. rewrite bind_lift. destruct (dicey_packet_as_message packet) as [msg| | |]; try done.
  unfold sbind at 1. pose proof (shared_from_ok packet s Ha) as H1. destruct (dicey_shared_packet_from E packet 1 s) as [[[p|]| | |] s1]; try done.
  destruct (msg_path msg) as [path|]; [|done]. unfold sbind at 1.
  assert (preserves same_signals (dicey_element_descriptor_format_to E path (msg_selector msg))) as Hk.
  { unfold dicey_element_descriptor_format_to. keep allows_same_signals any_event. }
  pose proof (accounts_keep (held_by p 1) _ Hk s1 H1) as H2. destruct (dicey_element_descriptor_format_to _ _ _ s1) as [[[descr|]| | |] s2] eqn:Ed; try done.
  2:{ by apply drop_last_reference. }
  2:{ exfalso. unfold dicey_element_descriptor_format_to, sbind, sassert, sret, upd in Ed. repeat (case_match; simplify_eq). }
  destruct (shared_read_ok _ s2 p H2) as (sp & Ep & Hv & Hr); [rewrite held_at; lia|].
  destruct (shared_reads s2 p sp Ep Hv) as (_ & _ & _ & E4). cbn [outbound_packet_borrow] in E4. srw E4.
  unfold sbind at 1. pose proof (accounts_keep (held_by p 1) server_next_seq (keep_next_seq _ _ allows_same_signals) s2 H2) as H3.
  unfold server_next_seq, upd in H3 |- *. cbn [sbind sget sret] in H3 |- *. set (s3 := set_seq_cnt _ _) in *.
  rewrite bind_attempt_lift. destruct (dicey_packet_set_seq (sp_packet sp) (seq_cnt s2)) as [packet'| | |] eqn:Es; try done.
  2:{ by apply drop_last_reference. }
  assert (dicey_packet_is_valid packet' = true) as Hv'.
  { eapply set_seq_valid; [done|]. unfold shared_valid in Hv. by apply andb_true_iff in Hv as [_ ->]. }
  pose proof (set_packet_accounts p packet' Hv' s3 H3) as H4. unfold sbind at 1. destruct (shared_set_packet p packet' s3) as [[]  s4] eqn:Esp; try done.
  2:{ exfalso. unfold shared_set_packet, sbind, shared_read, upd in Esp. repeat (case_match; simplify_eq). }
  cbn [sbind sget]. pose proof (raise_to_ok (dicey_client_list_slots (sv_clients s4)) descr p s4 H4) as H5.
  unfold sbind. destruct (raise_to _ _ _ _ s4) as [[] s5]; try done.
  destruct (unref_ok p 0 s5 ltac:(lia) H5) as (s6 & -> & Ha6). eapply accounted_ext; [apply held_by_0|done].
Qed.

(** What is asked of the code the environment stands for. *)
Record env_accounts : Prop := {
  ea_builtins : builtins_keep E same_signals;
  ea_cleanup : cleanup_keeps E same_signals;
  ea_requests : forall r c, accounts none_held (e_plugin_request E r c) none_held;
}.

Section runs.
Hypothesis Henv : env_accounts.

(** Every request of another thread. *)
Lemma callback_accounts cb client : accounts none_held (run_callback E cb client) none_held.
Proof.
  destruct cb; try (apply accounts_keep, (keep_callback E _ _ allows_same_signals any_event); by intros); [|apply Henv].
  cbn [run_callback]. unfold loop_request_raise_signal. intros s Ha. destruct (dicey_packet_is_valid packet); [|done].
  cbn [sassert sret sbind]. by apply raise_internal_accounts.
Qed.

Lemma inbound_accounts n client : accounts none_held (inbound_loop E n client) none_held.
Proof.
  revert client. induction n as [|n IH]; intros client s Ha; cbn [inbound_loop]; [done|]. cbn [sbind sget].
  destruct (sv_queue s) as [|req queue]; [done|]. cbn [upd sbind].
  set (client' := match lr_target req with Some id => _ | None => _ end). set (s1 := set_queue queue s).
  assert (accounted none_held s1) as Ha1 by (apply (accounted_same _ s); [apply (al_queue _ _ allows_same_signals)|done]).
  unfold sbind at 1, attempt. pose proof (callback_accounts (lr_cb req) client' s1 Ha1) as H1.
  assert (forall e s2, accounted none_held s2 ->
    match (report_result req client' e ;;! inbound_loop E n client') s2 with (Ok _, s') | (Err _, s') => accounted none_held s' | _ => True end) as Hrep.
  { intros e s2 Ha2. pose proof (accounts_keep none_held _ (keep_report_result _ _ allows_same_signals any_event req client' e) s2 Ha2) as H2.
    unfold sbind. destruct (report_result req client' e s2) as [[] s3]; try done. by apply IH. }
  destruct (run_callback E (lr_cb req) client' s1) as [[u|e|f|] s2]; try done; [|by apply Hrep].
  destruct (is_shutdown (lr_cb req)); [|by apply Hrep]. apply (accounted_same _ s2); [apply (al_hook _ _ allows_same_signals)|done].
Qed.

(** The reference a completed write still holds. *)
Definition held_of (w : write_request) : nat -> Z :=
  match wr_packet w with OutSignal p => held_by p 1 | OutResponse _ => none_held end.

Lemma cleanup_accounts w : accounts (held_of w) (outbound_packet_cleanup (wr_packet w)) none_held.
Proof.
  intros s Ha. unfold held_of in Ha. destruct (wr_packet w) as [p|p]; [done|]. cbn [outbound_packet_cleanup].
  destruct (unref_ok p 0 s ltac:(lia) Ha) as (s' & -> & Ha'). eapply accounted_ext; [apply held_by_0|done].
Qed.

Lemma accounts_split {A B} h1 h2 h3 (m : sst A) (k : A -> sst B) :
  accounts h1 m h2 -> (forall s e s', m s <> (Err e, s')) -> (forall a, accounts h2 (k a) h3) -> accounts h1 (sbind m k) h3.
Proof.
  intros Hm Hne Hk s Ha. specialize (Hm s Ha). unfold sbind. destruct (m s) as [[a|e|f|] s1] eqn:Es; try done; [by apply Hk|by destruct (Hne s e s1)].
Qed.

Lemma attempt_no_err {A} (m : sst (T := T) A) s e s' : attempt m s <> (Err e, s').
Proof. unfold attempt. by destruct (m s) as [[] ?]. Qed.

Lemma on_write_accounts w status : accounts (held_of w) (on_write w status) none_held.
Proof.
  pose proof allows_same_signals as Hal. pose proof any_event as Hev.
  intros s Ha. unfold on_write. cbn [sbind sget]. destruct (dicey_client_list_get_client _ _) as [c|]; [|done].
  rewrite bind_read. destruct (sv_heap s !! c) as [d|]; [|done]. revert s Ha. apply accounts_split with (held_of w).
  { destruct status; apply accounts_keep; keep Hal Hev. }
  { intros s e s'. by destruct status. }
  intros _. apply accounts_split with (held_of w).
  { apply accounts_keep. unfold outbound_packet_borrow. destruct (wr_packet w); [keep Hal Hev|]. intros s. unfold dicey_shared_packet_borrow, sbind, shared_read.
    destruct (sv_shared s !! _) as [sp|]; [|apply Hal]. destruct (shared_valid sp); apply Hal. }
  { intros s e s'. unfold outbound_packet_borrow. destruct (wr_packet w); [done|]. unfold dicey_shared_packet_borrow, sbind, shared_read.
    destruct (sv_shared s !! _) as [sp|]; [|done]. by destruct (shared_valid sp). }
  intros packet. apply accounts_split with (held_of w); [apply accounts_keep; keep Hal Hev| |].
  { intros s e s'. unfold assume, slift. by destruct (dicey_packet_get_kind packet). }
  intros kind. apply accounts_split with (held_of w).
  { apply accounts_keep. keep Hal Hev. apply (keep_remove_client _ _ Hal). }
  { intros s e s'. destruct (bool_decide _); [|done]. unfold sbind. unfold attempt. by destruct (dicey_server_remove_client _ s) as [[]  ?]. }
  intros _. apply accounts_split with none_held; [apply cleanup_accounts| |].
  { intros s e s'. destruct (wr_packet w); [done|]. cbn [outbound_packet_cleanup]. unfold dicey_shared_packet_unref, sbind, shared_read.
    destruct (sv_shared s !! _) as [sp|]; [|done]. destruct (shared_valid sp); cbn; [|done]. by destruct (_ <=? _). }
  intros _ s Ha. cbn [sbind sget]. destruct (_ && _); [|done]. by apply accounts_keep with (1 := keep_finalize _ _ Hal Hev).
Qed.

(** ** Runs of the server *)

(** What libuv, the clients and other threads can make happen, as long as nothing faults. Writes
    complete in any order; a closed client is gone only after its writes completed. *)
Inductive server_step (s : server) : server -> Prop :=
  | step_start s' : sv_state s = SERVER_STATE_UNINIT \/ sv_state s = SERVER_STATE_INIT -> s' = set_state SERVER_STATE_RUNNING s -> server_step s s'
  | step_connect status s' : on_connect E status s = (Ok tt, s') -> server_step s s'
  | step_read c n bytes s1 s' :
      c ∉ sv_closing s -> alloc_buffer E c s = (Ok n, s1) -> zlen bytes <= n -> on_read E c (ReadBytes bytes) s1 = (Ok tt, s') -> server_step s s'
  | step_read_end c err s' : c ∉ sv_closing s -> on_read_end c err s = (Ok tt, s') -> server_step s s'
  | step_written i w status s' :
      sv_writes s !! i = Some w -> on_write w status (set_writes (delete i (sv_writes s)) s) = (Ok tt, s') -> server_step s s'
  | step_closed i c s' :
      sv_closing s !! i = Some c -> Forall (fun w => wr_stream w <> c) (sv_writes s) ->
      on_client_end E c (set_closing (delete i (sv_closing s)) s) = (Ok tt, s') -> server_step s s'
  | step_inbound s' : loop_request_inbound E s = (Ok tt, s') -> server_step s s'
  | step_submit cb target sem s' : (submit_new E cb target sem s).2 = s' -> server_step s s'
  | step_stopped s' : sv_stopping s = true -> server_shutdown_at_end s = (Ok tt, s') -> server_step s s'.

Lemma copies_delete i w l p :
  l !! i = Some w -> copies p (signals l) = copies p (signals (delete i l)) + held_of w p.
Proof.
  intros Hi. rewrite <- (take_drop_middle l i w Hi) at 1. rewrite delete_take_drop. unfold signals. rewrite !omap_app, !copies_app.
  cbn [omap list_omap]. unfold held_of. destruct (wr_packet w) as [q|q]; [unfold none_held; lia|].
  change (q :: ?l) with ([q] ++ l). rewrite copies_app, copies_one. unfold held_by. destruct (decide (q = p)), (decide (p = q)); congruence || lia.
Qed.

Lemma written_accounted s i w : accounted none_held s -> sv_writes s !! i = Some w -> accounted (held_of w) (set_writes (delete i (sv_writes s)) s).
Proof.
  intros Ha Hi. split; [|apply (ac_old _ _ Ha)|apply (ac_odd _ _ Ha)]. intros p. cbn [set_writes sv_writes sv_shared].
  pose proof (ac_counts _ _ Ha p) as Hc. pose proof (copies_delete i w (sv_writes s) p Hi) as Hd. unfold none_held in Hc.
  destruct (sv_shared s !! p); [|lia]. split_and!; [lia|apply Hc|apply Hc].
Qed.

Lemma accounts_Ok {A} h h' (m : sst A) s a s' : accounts h m h' -> accounted h s -> m s = (Ok a, s') -> accounted h' s'.
Proof. intros Hm Ha Hs. specialize (Hm s Ha). by rewrite Hs in Hm. Qed.

Lemma step_accounted s s' : server_step s s' -> accounted none_held s -> accounted none_held s'.
Proof.
  pose proof allows_same_signals as Hal. pose proof any_event as Hev. destruct Henv as [Hb Hcl _]. intros Hstep Ha.
  assert (forall A (m : sst A), preserves same_signals m -> accounted none_held (m s).2) as Hkeep by (intros A m Hm; by apply (accounted_same _ s)).
  assert (forall (m : sst unit) s2, preserves same_signals m -> m s = (Ok tt, s2) -> accounted none_held s2) as Hkeep'.
  { intros m s2 Hm Hs. specialize (Hkeep _ m Hm). by rewrite Hs in Hkeep. }
  destruct Hstep as [s' _ ->|st s' Hs|c n bytes s1 s' _ Hb1 _ Hs|c e s' _ Hs|i w st s' Hi Hs|i c s' _ _ Hs|s' Hs|cb tg sem s' <-|s' _ Hs].
  - apply (accounted_same _ s); [apply (al_state _ _ Hal)|done].
  - by apply (Hkeep' _ _ (keep_on_connect E _ _ Hal Hev st Hcl)).
  - pose proof (Hkeep _ _ (keep_alloc_buffer E _ _ Hal c)) as H1. rewrite Hb1 in H1.
    assert (preserves same_signals (on_read E c (ReadBytes bytes))) as Hr.
    { apply (keep_on_read E _ _ Hal Hev); [done|]. intros p seq h _. by apply (keep_deliver E _ _ Hal Hev). }
    by apply (accounts_Ok none_held none_held _ _ _ _ (accounts_keep _ _ Hr) H1 Hs).
  - by apply (Hkeep' _ _ (keep_on_read_end _ _ Hal Hev c e)).
  - by apply (accounts_Ok _ _ _ _ _ _ (on_write_accounts w st) (written_accounted s i w Ha Hi) Hs).
  - assert (accounted none_held (set_closing (delete i (sv_closing s)) s)) as H1 by (apply (accounted_same _ s); [apply (al_closing _ _ Hal)|done]).
    by apply (accounts_Ok _ _ _ _ _ _ (accounts_keep _ _ (keep_client_end E _ _ Hal Hev c Hcl)) H1 Hs).
  - unfold loop_request_inbound in Hs. cbn [sbind sget] in Hs. by apply (accounts_Ok _ _ _ _ _ _ (inbound_accounts _ None) Ha Hs).
  - apply Hkeep. by apply (keep_submit E _ _ Hal).
  - by apply (Hkeep' _ _ (keep_shutdown_at_end _ _ Hal Hev)).
Qed.

End runs.

Lemma new_server_accounted registry : accounted none_held (new_server registry).
Proof. split; [|intros p [? Hp]; cbn in Hp; by rewrite lookup_empty in Hp|done]. intros p. cbn. by rewrite lookup_empty. Qed.

(** C11: over every run of a server, the packet of a signal is in memory exactly as long as a write
    of it is in flight and its reference count is the number of these writes, so it is neither
    freed early nor leaked; the sequence numbers the server chooses are odd. *)
Theorem signals_accounted registry s :
  env_accounts -> rtc server_step (new_server registry) s ->
  (forall p sp, sv_shared s !! p = Some sp ->
     sp_refc sp = copies p (signals (sv_writes s)) /\ 0 < sp_refc sp /\ dicey_packet_is_valid (sp_packet sp) = true) /\
  (forall p, In p (signals (sv_writes s)) -> is_Some (sv_shared s !! p)) /\
  (sv_writes s = [] -> sv_shared s = ∅) /\ Z.odd (seq_cnt s) = true.
Proof.
  intros Hb Hrun. assert (accounted none_held s) as [Hc _ Hodd].
  { revert Hrun. generalize (new_server_accounted registry). generalize (new_server registry). intros s0 H0 Hrun.
    induction Hrun as [|s0 s1 s2 Hs _ IH]; [done|]. apply IH. by eapply step_accounted. }
  unfold none_held in Hc. split_and!; [| | |done].
  - intros p sp Hp. specialize (Hc p). rewrite Hp in Hc. split_and!; [lia|apply Hc|apply Hc].
  - intros p Hp. specialize (Hc p). destruct (sv_shared s !! p); [by eexists|]. exfalso.
    assert (0 < copies p (signals (sv_writes s))); [|lia]. unfold copies. apply list_elem_of_In in Hp.
    destruct (filter (fun q => q = p) (signals (sv_writes s))) as [|x l] eqn:Ef; [|rewrite zlen_cons; pose proof (zlen_nonneg l); lia].
    exfalso. apply (filter_nil_not_elem_of (fun q => q = p) (signals (sv_writes s)) p); done.
  - intros Hw. apply map_empty. intros p. specialize (Hc p). rewrite Hw in Hc. change (copies p (signals [])) with 0 in Hc.
    destruct (sv_shared s !! p); [|done]. lia.
Qed.

End signals.

(** ** Witnesses *)

Definition shown (s : dicey_server (T := map_ptr)) (i : nat) : request :=
  default (mk_request 0 DICEY_OP_INVALID (mk_message DICEY_OP_INVALID None (mk_selector None None) zero_value) zero_rest) (requests (sv_log s) !! i).

(** A GET with the first sequence number of the client, through an alias of the object. *)
Lemma only_valid_requests_delivered_witness :
  let packet := sample_message DICEY_OP_GET 2 path_b in
  exists q, In q (requests (sv_log (client_got_packet sample_env 0 packet sample_server).2)) /\ delivered sample_env sample_server 0 packet q.
Proof.
  intros packet. exists (shown (client_got_packet sample_env 0 packet sample_server).2 0).
  assert (In (shown (client_got_packet sample_env 0 packet sample_server).2 0)
    (requests (sv_log (client_got_packet sample_env 0 packet sample_server).2))) as Hin by (vm_compute; by left).
  split; [exact Hin|].
  refine (proj2 (only_valid_requests_delivered sample_env 0 packet sample_server _ _ Hin _)); [constructor|intros []].
Defined.

(** A server is started, a client connects and says hello, and a signal is raised. *)
Definition started : dicey_server (T := map_ptr) := set_state SERVER_STATE_RUNNING (new_server witness_registry).
Definition connected : dicey_server := (on_connect sample_env None started).2.
Definition hello_bytes : list Z := match dicey_packet_hello (fun _ => true) 0 DICEY_PROTO_VERSION_CURRENT with Ok p => default [] (payload p) | _ => [] end.
Definition buffered : dicey_server := (alloc_buffer sample_env 0 connected).2.
Definition greeted : dicey_server := (on_read sample_env 0 (ReadBytes hello_bytes) buffered).2.
Definition submitted : dicey_server := (submit_new sample_env (loop_raise_signal sample_signal) None None greeted).2.
Definition raised : dicey_server := (loop_request_inbound sample_env submitted).2.

(** Without plugins there is nothing to ask. *)
Lemma sample_env_accounts : env_accounts sample_env.
Proof. split; [constructor|intros c s; apply allows_same_signals|by intros]. Qed.

Lemma signals_accounted_witness :
  sv_writes raised <> [] /\ sv_queue raised = [] /\ (forall p, In p (signals (sv_writes raised)) -> is_Some (sv_shared raised !! p)) /\
  Z.odd (seq_cnt raised) = true.
Proof.
  assert (rtc (server_step sample_env) (new_server witness_registry) raised) as Hrun.
  { apply rtc_l with started; [apply step_start; [by left|done]|].
    apply rtc_l with connected; [unfold connected; apply step_connect with None, run_ok; evaluate|].
    apply rtc_l with greeted.
    { unfold greeted, buffered. eapply (step_read _ _ 0%nat 1008 hello_bytes); [|apply run_ok; evaluate|vm_compute; discriminate|apply run_ok; evaluate].
      replace (sv_closing connected) with (@nil nat) by evaluate. apply not_elem_of_nil. }
    apply rtc_l with submitted; [by apply step_submit with (loop_raise_signal sample_signal) None None|].
    unfold raised. apply rtc_once, step_inbound, run_ok. evaluate. }
  destruct (signals_accounted sample_env witness_registry raised sample_env_accounts Hrun) as (_ & H2 & _ & H4).
  split_and!; [vm_compute; discriminate|vm_compute; done|exact H2|exact H4].
Defined.
