(* ===== verification/ServerBehaviour.v ===== *)
(** * What the server answers

    With memory and a working socket: requests that cannot be served get an error response with
    their sequence number and the client stays connected; a signal is sent once to every client
    that subscribed to it and to no other. *)

From S2P Require Import Prelude Errors Types Views Writer ValueWrite ValueProbe Value Codec Payload Packet Typedescr ValueValidate.
From S2P Require Import Hashtable PendingReqs Table Traits Registry RegistrySpec RegistryTheorems Clients Chunk Builders BuildersTheorems.
From S2P Require Import Server ServerScenario ServerFrame ServerTheorems.
From stdpp Require Import gmap list.

#[local] Open Scope Z_scope.

Section behaviour.
Context {T : Type -> Type} `{Table T}.
Context (E : environment (T := T)).
Abbreviation server := (dicey_server (T := T)).

(** Memory never runs out and libuv accepts every write. *)
Record working : Prop := {
  wk_malloc : forall n, e_malloc_ok E n = true;
  wk_block : forall n, e_block_ok E n = true;
  wk_builder : forall n, e_builder_ok E n = true;
  wk_write : forall n, e_uv_write_err E n = None;
}.

Hypothesis Hw : working.

(** The state after a write of [packet], which holds the bytes of [p], to client [c]. *)
Definition sent (id : Z) (c : nat) (packet : outbound_packet) (p : dicey_packet) (s : server) : server :=
  set_log (sv_log s ++ [EvSent id p]) (set_writes (sv_writes s ++ [mk_write id c packet]) (set_next (S (sv_next s)) s)).

Definition sendable (p : dicey_packet) : Prop := dicey_packet_is_valid p = true /\ nbytes p <= UINT_MAX.

Lemma sendpkt_ok c d p s : sv_heap s !! c = Some d -> sendable p ->
  server_sendpkt E (Some c) (OutResponse p) s = (Ok tt, sent (cd_id d) c (OutResponse p) p s).
Proof.
  intros Hd [Hv Hn]. unfold server_sendpkt. cbn [outbound_packet_is_valid outbound_packet_size outbound_packet_payload outbound_packet_borrow].
  srun. rewrite Hv. srun. destruct (Z.ltb_spec UINT_MAX (nbytes p)); [lia|]. unfold malloc. srun. rewrite (wk_malloc Hw).
  rewrite bind_read. cbn [set_next sv_heap]. rewrite Hd. srun. unfold dicey_packet_is_valid in Hv. apply andb_true_iff in Hv as [-> _]. srun.
  rewrite (wk_write Hw). srun. reflexivity.
Qed.

(** The error response is the encoding of the error. *)
Lemma make_error_ok seq path sel e :
  dicey_selector_is_valid sel = true -> e <> DICEY_OK ->
  make_error E seq (Some path) sel e = written_packet (e_block_ok E) DICEY_OP_RESPONSE (u32 seq) (Some path) sel (Some (error_value e)).
Proof.
  intros Hs He. unfold make_error. rewrite Hs, bool_decide_false by done. cbn [andb negb oassert obind].
  destruct (dicey_packet_message_lemma (e_builder_ok E) (wk_builder Hw) (e_block_ok E) seq DICEY_OP_RESPONSE path sel (Some (error_value e)) empty_heap)
    as (s' & -> & _); try done. apply empty_heap_fresh.
Qed.

(** ** Requests that are refused *)

(** Why a message is refused: its path, its element, or what it does to the element. [Ok None] says
    that it is not; a fault is one of the check of its value against the signature. *)
Definition refusal (s : server) (path : cstr) (msg : dicey_message) : res (option dicey_error) :=
  let! entry := (dicey_registry_get_object_entry path (sv_registry s)).1 in
  match entry with
  | None => Ok (Some DICEY_EPATH_NOT_FOUND)
  | Some _ =>
      let! target := target_of s path (msg_selector msg) in
      match target with
      | None => Ok (Some DICEY_EELEMENT_NOT_FOUND)
      | Some entry =>
          let! e := is_message_acceptable_for E (oe_element entry) msg in
          Ok (if decide (e = DICEY_OK) then None else Some e)
      end
  end.

(** The client after its sequence number [seq] was used up. *)
Definition seq_used (d : dicey_client_data (T := T)) (seq : Z) : dicey_client_data :=
  with_pending (dicey_pending_request_skip zero_rest (e_block_ok E) (cd_pending d) seq).2 d.

Lemma skip_ok ptr seq : validate_seqnum ptr seq = true ->
  exists p, dicey_pending_request_skip zero_rest (e_block_ok E) ptr seq = (DICEY_OK, Some p) /\ last_seq p = seq.
Proof.
  intros Hv. unfold dicey_pending_request_skip. rewrite Hv. cbn [negb]. destruct ptr as [p|]; [by eexists|].
  unfold pending_requests_new. rewrite (wk_block Hw). by eexists.
Qed.

Lemma refuse_ok c d packet seq msg path e reply s :
  sv_heap s !! c = Some d -> dicey_packet_get_seq packet = Ok seq -> dicey_packet_as_message packet = Ok msg -> msg_path msg = Some path ->
  dicey_selector_is_valid (msg_selector msg) = true -> validate_seqnum (cd_pending d) seq = true -> e <> DICEY_OK ->
  written_packet (e_block_ok E) DICEY_OP_RESPONSE (u32 seq) (Some path) (msg_selector msg) (Some (error_value e)) = Ok reply -> sendable reply ->
  refuse E c packet seq e s =
    (Ok CLIENT_DATA_STATE_RUNNING, sent (cd_id d) c (OutResponse reply) reply (set_heap (<[c := seq_used d seq]> (sv_heap s)) s)).
Proof.
  intros Hd Hs Hm Hp Hsel Hv He Hr Hsend. unfold refuse, seq_used. rewrite bind_read, Hd.
  destruct (skip_ok (cd_pending d) seq Hv) as (p & -> & _). cbn [snd]. unfold client_write, upd. srun. rewrite bool_decide_true by done. cbn [negb].
  unfold server_report_error. rewrite !sbind_assoc, bind_lift, Hs. rewrite !sbind_assoc, bind_lift, Hm, Hp.
  rewrite make_error_ok, Hr by done. rewrite !sbind_assoc, bind_lift. unfold send_or_cleanup. rewrite !sbind_assoc.
  unfold sbind at 1, attempt. erewrite sendpkt_ok; [|apply lookup_insert_eq|done]. srun. by destruct d.
Qed.

(** C18: a client that is running sends a GET, SET or EXEC with the right sequence number, a path and
    a selector. When the path or the element is unknown, or the element does not allow the message
    (wrong kind, read-only property, value against its signature), the client gets exactly one
    response, with the sequence number, path and selector of the request and the reason as an error
    value; the sequence number is used up and the client stays connected. The response must fit in
    memory and be sent at once. The one case with no answer is part of the statement: when
    the check of the value faults (a tuple with fewer members than the signature fails an
    assertion), the whole server stops with that fault. A request that is not refused is not
    meant here. *)
Theorem refused_request_answered c d packet seq msg path s :
  sv_heap s !! c = Some d -> cd_state d = CLIENT_DATA_STATE_RUNNING ->
  dicey_packet_get_seq packet = Ok seq -> dicey_packet_as_message packet = Ok msg -> is_server_op (msg_type msg) = false ->
  msg_path msg = Some path -> dicey_selector_is_valid (msg_selector msg) = true -> validate_seqnum (cd_pending d) seq = true ->
  (forall e reply, refusal s path msg = Ok (Some e) ->
    written_packet (e_block_ok E) DICEY_OP_RESPONSE (u32 seq) (Some path) (msg_selector msg) (Some (error_value e)) = Ok reply -> sendable reply ->
    client_got_message E c packet s =
      (Ok CLIENT_DATA_STATE_RUNNING, sent (cd_id d) c (OutResponse reply) reply (set_heap (<[c := seq_used d seq]> (sv_heap s)) s)) /\
    exists p, cd_pending (seq_used d seq) = Some p /\ last_seq p = seq) /\
  (forall f, refusal s path msg = Fault f -> client_got_message E c packet s = (Fault f, s)).
Proof.
  intros Hd Hrun Hs Hm Hop Hp Hsel Hv. unfold refusal, client_got_message.
  rewrite bind_attempt_lift, Hs, bind_attempt_lift, Hm, bind_read, Hd, Hop, bool_decide_true, Hp by done. cbn [negb].
  rewrite bind_reg_pure by apply get_object_entry_pure. split.
  - intros e reply He Hr Hsend. split.
    2:{ unfold seq_used. destruct (skip_ok (cd_pending d) seq Hv) as (p & -> & Hl). by exists p. }
    assert (e <> DICEY_OK) as Hne by (unfold obind in He; repeat case_match; simplify_eq; done).
    destruct (_.1) as [[oe|]| | |]; try done; cbn [obind] in He; [|injection He as <-; by apply (refuse_ok c d packet seq msg path)].
    rewrite bind_reg_pure by apply get_element_entry_pure. fold (target_of s path (msg_selector msg)).
    destruct (target_of s path (msg_selector msg)) as [[entry|]| | |]; try done; cbn [obind] in He; [|injection He as <-; by apply (refuse_ok c d packet seq msg path)].
    rewrite bind_lift. destruct (is_message_acceptable_for E (oe_element entry) msg) as [op_err| | |]; try done. cbn [obind] in He.
    destruct (decide (op_err = DICEY_OK)) as [->|Hoe]; [done|]. injection He as <-. rewrite bool_decide_false by done. cbn [negb].
    by apply (refuse_ok c d packet seq msg path).
  - intros f He. destruct (_.1) as [[oe|]| | |]; try done; cbn [obind] in He; [|congruence].
    rewrite bind_reg_pure by apply get_element_entry_pure. fold (target_of s path (msg_selector msg)).
    destruct (target_of s path (msg_selector msg)) as [[entry|]| | |]; try done; cbn [obind] in He; [|congruence].
    rewrite bind_lift. destruct (is_message_acceptable_for E (oe_element entry) msg) as [op_err| | |]; try done. cbn [obind] in He. congruence.
Qed.

(** ** Signals *)

(** The clients of the server are in memory, with well-formed sets of subscriptions. *)
Definition clients_ok (s : server) : Prop :=
  forall c, In (Some c) (dicey_client_list_slots (sv_clients s)) ->
    exists d, sv_heap s !! c = Some d /\ tbl_ok (cd_subscriptions d).

(** The subscribers of an element among the clients in [slots], with their identifiers. *)
Definition subscribers (heap : gmap nat (dicey_client_data (T := T))) (descr : cstr) (slots : list (option nat)) : list (nat * Z) :=
  omap (fun slot =>
    match slot with
    | Some c =>
        match heap !! c with
        | Some d => if decide (is_Some (tbl_map (cd_subscriptions d) !! descr)) then Some (c, cd_id d) else None
        | None => None
        end
    | None => None
    end) slots.

(** The state after the signal in the shared packet [p] went to the clients [l], one write each. *)
Definition signal_sent (p : nat) (packet : dicey_packet) (l : list (nat * Z)) (s : server) : server :=
  foldl (fun s '(c, id) =>
    sent id c (OutSignal p) packet
      (set_shared (<[p := mk_shared (match sv_shared s !! p with Some sp => sp_refc sp + 1 | None => 0 end) packet]> (sv_shared s)) s)) s l.

Lemma descriptor_ok path sel s : dicey_selector_is_valid sel = true -> 6 <= zlen (element_descriptor path sel) ->
  exists n, dicey_element_descriptor_format_to E path sel s = (Ok (Some (element_descriptor path sel)), set_scratchpad n s).
Proof.
  intros Hsel Hlen. unfold dicey_element_descriptor_format_to. rewrite Hsel. srun. set (descr := element_descriptor path sel) in *.
  destruct (Z.ltb_spec 6 (zlen descr + 1)); [|lia]. srun.
  destruct (scratchpad s <? zlen descr + 1); [rewrite (wk_block Hw); by eexists|]. exists (scratchpad s). by destruct s.
Qed.

Lemma is_subscribed_ok c d descr s : sv_heap s !! c = Some d -> tbl_ok (cd_subscriptions d) ->
  dicey_client_data_is_subscribed c descr s = (Ok (bool_decide (is_Some (tbl_map (cd_subscriptions d) !! descr))), s).
Proof.
  intros Hd Hok. unfold dicey_client_data_is_subscribed. rewrite bind_read, Hd. unfold assume. rewrite tbl_get_ok by done. done.
Qed.

Lemma send_signal_once c d p sp s :
  sv_heap s !! c = Some d -> sv_shared s !! p = Some sp -> 0 < sp_refc sp -> sendable (sp_packet sp) ->
  server_sendpkt E (Some c) (OutSignal p) s = (Ok tt, sent (cd_id d) c (OutSignal p) (sp_packet sp) s).
Proof.
  intros Hd Hp Hpos [Hv Hn]. assert (shared_valid sp = true) as Hsv by (unfold shared_valid; by rewrite Hv, (proj2 (Z.ltb_lt _ _) Hpos)).
  destruct (shared_reads s p sp Hp Hsv) as (E1 & E2 & _ & _). unfold server_sendpkt. srw E1. srun. srw E2.
  destruct (Z.ltb_spec UINT_MAX (nbytes (sp_packet sp))); [lia|]. unfold malloc. srun. rewrite (wk_malloc Hw). set (s1 := set_next _ _).
  rewrite bind_read. cbn [s1 set_next sv_heap]. rewrite Hd. destruct (shared_reads s1 p sp Hp Hsv) as (_ & _ & E3 & E4). srw E3.
  unfold dicey_packet_is_valid in Hv. apply andb_true_iff in Hv as [-> _]. srun. rewrite (wk_write Hw). by srw E4.
Qed.

Lemma raise_to_spec slots descr p packet : sendable packet -> forall s sp,
  (forall c, In (Some c) slots -> exists d, sv_heap s !! c = Some d /\ tbl_ok (cd_subscriptions d)) ->
  sv_shared s !! p = Some sp -> 0 < sp_refc sp -> sp_packet sp = packet ->
  raise_to E slots descr p s = (Ok tt, signal_sent p packet (subscribers (sv_heap s) descr slots) s) /\
  sv_shared (signal_sent p packet (subscribers (sv_heap s) descr slots) s) !! p =
    Some (mk_shared (sp_refc sp + zlen (subscribers (sv_heap s) descr slots)) packet).
Proof.
  intros Hsend. induction slots as [|slot slots IH]; intros s sp Hc Hp Hpos Hpk.
  - split; [done|]. cbn. rewrite Z.add_0_r, Hp. by destruct sp; cbn in *; subst.
  - assert (forall c, In (Some c) slots -> exists d, sv_heap s !! c = Some d /\ tbl_ok (cd_subscriptions d)) as Hc' by (intros; apply Hc; by right).
    destruct slot as [c|]; [|apply (IH s sp); done]. destruct (Hc c ltac:(by left)) as (d & Hd & Hok). cbn [raise_to].
    srw (is_subscribed_ok c d descr s Hd Hok).
    assert (subscribers (sv_heap s) descr (Some c :: slots) =
      (if decide (is_Some (tbl_map (cd_subscriptions d) !! descr)) then [(c, cd_id d)] else []) ++ subscribers (sv_heap s) descr slots) as ->.
    { unfold subscribers. cbn [omap list_omap]. rewrite Hd. by case_decide. }
    case_decide as Hsub; [rewrite bool_decide_true by done|rewrite bool_decide_false by done]; cbn [negb app].
    2:{ srun. by apply (IH s sp). }
    assert (shared_valid sp = true) as Hsv by (unfold shared_valid; rewrite Hpk, (proj1 Hsend), (proj2 (Z.ltb_lt _ _) Hpos); done).
    assert (dicey_shared_packet_ref p s = (Ok tt, set_shared (<[p := mk_shared (sp_refc sp + 1) packet]> (sv_shared s)) s)) as E1.
    { unfold dicey_shared_packet_ref, shared_read, sbind. rewrite Hp, Hsv. cbn [sassert sret upd]. by rewrite Hpk. }
    rewrite sbind_assoc. srw E1. set (s1 := set_shared _ _).
    assert (sv_shared s1 !! p = Some (mk_shared (sp_refc sp + 1) packet)) as Hp1 by apply lookup_insert_eq.
    pose proof (send_signal_once c d p _ s1 Hd Hp1 ltac:(cbn; lia) Hsend) as E2. rewrite sbind_assoc. unfold sbind at 1, attempt. rewrite E2. srun.
    set (s2 := sent _ _ _ _ s1). destruct (IH s2 (mk_shared (sp_refc sp + 1) packet) Hc' Hp1 ltac:(cbn; lia) eq_refl) as [E3 Hp3].
    assert (forall l, signal_sent p packet ((c, cd_id d) :: l) s = signal_sent p packet l s2) as Hcons by (intros l; cbn; by rewrite Hp).
    rewrite Hcons. cbn [sp_packet] in E3. split; [exact E3|]. change (sv_heap s2) with (sv_heap s) in Hp3. rewrite Hp3, zlen_cons. cbn [sp_refc].
    do 2 f_equal. lia.
Qed.

Lemma signal_sent_facts p packet l : forall s sp, sv_shared s !! p = Some sp -> sp_packet sp = packet ->
  let s' := signal_sent p packet l s in
  sv_writes s' = sv_writes s ++ ((fun '(c, id) => mk_write id c (OutSignal p)) <$> l) /\
  sv_log s' = sv_log s ++ ((fun '(_, id) => EvSent id packet) <$> l) /\
  sv_shared s' = <[p := mk_shared (sp_refc sp + zlen l) packet]> (sv_shared s) /\
  seq_cnt s' = seq_cnt s /\ sv_clients s' = sv_clients s /\ sv_heap s' = sv_heap s.
Proof.
  induction l as [|[c id] l IH]; intros s sp Hp Hpk s'.
  - cbn in s'. subst s'. cbn [fmap list_fmap]. rewrite !(right_id_L [] (++)), zlen_nil, Z.add_0_r. split_and!; try done.
    rewrite insert_id; [done|]. by destruct sp; cbn in *; subst.
  - unfold s'. change (signal_sent p packet ((c, id) :: l) s) with
      (signal_sent p packet l (sent id c (OutSignal p) packet
        (set_shared (<[p := mk_shared (match sv_shared s !! p with Some sp => sp_refc sp + 1 | None => 0 end) packet]> (sv_shared s)) s))).
    rewrite Hp. set (s1 := sent _ _ _ _ _).
    destruct (IH s1 (mk_shared (sp_refc sp + 1) packet) ltac:(apply lookup_insert_eq) eq_refl) as (H1 & H2 & H3 & H4 & H5 & H6).
    rewrite H1, H2, H3, H4, H5, H6. cbn [s1 sent set_log set_writes set_next set_shared sv_writes sv_log sv_shared sv_clients sv_heap sp_refc fmap list_fmap].
    rewrite <- !(assoc_L (++)), insert_insert_eq, zlen_cons. split_and!; try done. do 2 f_equal. lia.
Qed.

Lemma signal_reaches_lemma packet packet' msg path s :
  dicey_packet_as_message packet = Ok msg -> msg_path msg = Some path -> dicey_selector_is_valid (msg_selector msg) = true ->
  6 <= zlen (element_descriptor path (msg_selector msg)) -> dicey_packet_is_valid packet = true ->
  dicey_packet_set_seq packet (seq_cnt s) = Ok packet' -> sendable packet' -> clients_ok s -> sv_shared s !! sv_next s = None ->
  let p := sv_next s in
  let subs := subscribers (sv_heap s) (element_descriptor path (msg_selector msg)) (dicey_client_list_slots (sv_clients s)) in
  exists s', dicey_server_raise_internal E packet s = (Ok tt, s') /\
    sv_writes s' = sv_writes s ++ ((fun '(c, id) => mk_write id c (OutSignal p)) <$> subs) /\
    sv_log s' = sv_log s ++ ((fun '(_, id) => EvSent id packet') <$> subs) /\
    sv_shared s' = (if decide (subs = []) then sv_shared s else <[p := mk_shared (zlen subs) packet']> (sv_shared s)) /\
    seq_cnt s' = u32 (seq_cnt s + 2).
Proof.
  intros Hm Hpath Hsel Hlen Hv Hseq Hsend Hcl Hfresh p subs. unfold dicey_server_raise_internal. rewrite bind_lift, Hm.
  set (s1 := set_shared (<[p := mk_shared 1 packet]> (sv_shared s)) (set_next (S (sv_next s)) s)).
  assert (dicey_shared_packet_from E packet 1 s = (Ok (Some p), s1)) as E1.
  { unfold dicey_shared_packet_from. rewrite Hv. srun. unfold malloc. srun. by rewrite (wk_malloc Hw). }
  srw E1. rewrite Hpath. set (descr := element_descriptor path (msg_selector msg)) in *.
  destruct (descriptor_ok path (msg_selector msg) s1 Hsel Hlen) as [n E2]. fold descr in E2.
  srw E2. set (s2 := set_scratchpad n s1).
  assert (sv_shared s2 !! p = Some (mk_shared 1 packet)) as Hp2 by apply lookup_insert_eq.
  assert (shared_valid (mk_shared 1 packet) = true) as Hsv by (unfold shared_valid; cbn; by rewrite Hv).
  destruct (shared_reads s2 p _ Hp2 Hsv) as (_ & _ & _ & E3). cbn [outbound_packet_borrow] in E3. srw E3.
  unfold server_next_seq, upd. srun. set (s3 := set_seq_cnt _ s2). rewrite bind_attempt_lift. cbn [sp_packet]. change (seq_cnt s2) with (seq_cnt s). rewrite Hseq.
  set (s4 := set_shared (<[p := mk_shared 1 packet']> (sv_shared s3)) s3).
  assert (shared_set_packet p packet' s3 = (Ok tt, s4)) as E4 by (unfold shared_set_packet, shared_read, sbind; change (sv_shared s3) with (sv_shared s2); by rewrite Hp2).
  srw E4. destruct (raise_to_spec (dicey_client_list_slots (sv_clients s4)) descr p packet' Hsend s4 (mk_shared 1 packet')) as [E5 Hp5];
    [exact Hcl|apply lookup_insert_eq|done|done|].
  srw E5. change (sv_heap s4) with (sv_heap s) in *. change (sv_clients s4) with (sv_clients s) in *. fold subs in E5, Hp5 |- *.
  destruct (signal_sent_facts p packet' subs s4 (mk_shared 1 packet') ltac:(apply lookup_insert_eq) eq_refl) as (H1 & H2 & H3 & H4 & _ & _).
  set (s5 := signal_sent p packet' subs s4) in *. cbn [sp_refc] in Hp5, H3.
  assert (sv_shared s5 = <[p := mk_shared (1 + zlen subs) packet']> (sv_shared s)) as H3'.
  { rewrite H3. cbn [s4 s3 s2 s1 set_shared sv_shared set_seq_cnt set_scratchpad set_next]. by rewrite !insert_insert_eq. }
  pose proof (zlen_nonneg subs). unfold dicey_shared_packet_unref, shared_read, sbind. rewrite Hp5.
  unfold shared_valid. cbn [sp_refc sp_packet]. rewrite (proj1 Hsend), (proj2 (Z.ltb_lt 0 (1 + zlen subs)) ltac:(lia)). cbn [andb sassert sret].
  replace (1 + zlen subs - 1) with (zlen subs) by lia. destruct (Z.leb_spec (zlen subs) 0).
  - eexists. split; [reflexivity|]. cbn [set_shared sv_writes sv_log sv_shared seq_cnt]. rewrite H1, H2, H3', H4. split_and!; try done.
    rewrite decide_True by (apply zlen_0_nil; lia). by rewrite delete_insert_id.
  - eexists. split; [reflexivity|]. cbn [set_shared sv_writes sv_log sv_shared seq_cnt]. rewrite H1, H2, H3', H4. split_and!; try done.
    rewrite decide_False by (intros Hnil; assert (zlen subs = 0) by (by rewrite Hnil); lia). by rewrite insert_insert_eq.
Qed.

(** C22: a signal that is raised goes to exactly the clients that subscribed to its element, once to
    each, in the order of their slots, with the next sequence number of the server; all writes
    share one packet, which counts them and is freed at once when there is no subscriber. *)
Theorem signal_reaches_subscribers packet packet' msg path s :
  dicey_packet_as_message packet = Ok msg -> msg_path msg = Some path -> dicey_selector_is_valid (msg_selector msg) = true ->
  6 <= zlen (element_descriptor path (msg_selector msg)) -> dicey_packet_is_valid packet = true ->
  dicey_packet_set_seq packet (seq_cnt s) = Ok packet' -> sendable packet' -> clients_ok s -> sv_shared s !! sv_next s = None ->
  let p := sv_next s in
  let subs := subscribers (sv_heap s) (element_descriptor path (msg_selector msg)) (dicey_client_list_slots (sv_clients s)) in
  exists s', dicey_server_raise_internal E packet s = (Ok tt, s') /\
    sv_writes s' = sv_writes s ++ ((fun '(c, id) => mk_write id c (OutSignal p)) <$> subs) /\
    sv_log s' = sv_log s ++ ((fun '(_, id) => EvSent id packet') <$> subs) /\
    sv_shared s' = (if decide (subs = []) then sv_shared s else <[p := mk_shared (zlen subs) packet']> (sv_shared s)) /\
    seq_cnt s' = u32 (seq_cnt s + 2).
Proof. exact (signal_reaches_lemma packet packet' msg path s). Qed.

End behaviour.

(** ** Witnesses *)

Lemma sample_working : working sample_env.
Proof. by split. Qed.

(** A GET of a path that does not exist. *)
Lemma refused_request_answered_witness :
  let packet := sample_message DICEY_OP_GET 2 path_c in
  exists reply s', client_got_message sample_env 0 packet sample_server = (Ok CLIENT_DATA_STATE_RUNNING, s') /\
    sv_log s' = [EvSent 0 reply] /\ dicey_packet_get_seq reply = Ok 2.
Proof.
  intros packet.
  set (reply := match written_packet (fun _ => true) DICEY_OP_RESPONSE 2 (Some path_c) sample_selector (Some (error_value DICEY_EPATH_NOT_FOUND)) with
    Ok p => p | _ => DICEY_EMPTY_PACKET end).
  set (msg := match dicey_packet_as_message packet with Ok m => m | _ => zero_message end).
  destruct (refused_request_answered sample_env sample_working 0 running_client packet 2 msg path_c sample_server)
    as [E _]; try reflexivity.
  destruct (E DICEY_EPATH_NOT_FOUND reply) as [E' _]; try evaluate.
  - split; vm_compute; [reflexivity|discriminate].
  - exists reply. eexists. split; [exact E'|]. split; vm_compute; reflexivity.
Defined.

(** One of the two clients has subscribed. *)
Lemma signal_reaches_subscribers_witness :
  exists s', dicey_server_raise_internal sample_env sample_signal sample_server = (Ok tt, s') /\
    sv_writes s' = [mk_write 0 0 (OutSignal 2)] /\ seq_cnt s' = 3.
Proof.
  set (msg := match dicey_packet_as_message sample_signal with Ok m => m | _ => zero_message end).
  set (packet' := match dicey_packet_set_seq sample_signal 1 with Ok p => p | _ => DICEY_EMPTY_PACKET end).
  destruct (signal_reaches_subscribers sample_env sample_working sample_signal packet' msg path_a sample_server)
    as (s' & E & Hw & _ & _ & Hs); try reflexivity; try evaluate; try lia.
  - split; vm_compute; [reflexivity|discriminate].
  - intros c Hc. cbn in Hc. destruct Hc as [[= <-]|[[= <-]|[]]]; eexists; (split; [vm_compute; reflexivity|done]).
  - exists s'. split; [exact E|]. split; [rewrite Hw; vm_compute; reflexivity|rewrite Hs; reflexivity].
Defined.
