(* ===== verification/ServerFindings.v ===== *)
(** * Where the server departs from its intentions

    Runs of the small server of ServerScenario (some of any server) in which server.c aborts, loops,
    or forgets a client. *)

From S2P Require Import Prelude Errors Types Views Writer ValueWrite ValueProbe Value Codec Payload Packet Typedescr ValueValidate.
From S2P Require Import Hashtable PendingReqs Table Traits Registry RegistrySpec RegistryTheorems Clients Chunk Builders BuildersTheorems.
From S2P Require Import Server ServerScenario ServerTheorems.
From stdpp Require Import gmap list.

#[local] Open Scope Z_scope.

(** A client in error is DEAD but stays connected until its bye is written; a second malformed packet
    before that fails the assertion that its state is not DEAD. *)
Lemma second_error_aborts {T : Type -> Type} `{Table T} (E : environment (T := T)) c d err s :
  sv_heap s !! c = Some d -> cd_state d = CLIENT_DATA_STATE_DEAD ->
  (dicey_server_client_raised_error E c err s).1 = Fault AssertFailed.
Proof.
  intros Hd Hs. unfold dicey_server_client_raised_error, dicey_client_data_set_state. rewrite sbind_assoc, bind_read, Hd, Hs. reflexivity.
Qed.

(** A client that hangs up before the reply to its hello is written is gone from the list when the
    write completes, and [on_write] asserts that it is there. *)
Lemma hangup_before_write_aborts :
  let hung_up := (on_read sample_env 0 ReadEof greeted).2 in
  (on_read sample_env 0 ReadEof greeted).1 = Ok tt /\
  exists w, sv_writes hung_up !! 0%nat = Some w /\ (on_write w None (set_writes (delete 0%nat (sv_writes hung_up)) hung_up)).1 = Fault AssertFailed.
Proof. split; [evaluate|]. eexists. split; [evaluate|]. evaluate. Qed.

Definition bytes_of (p : dicey_packet) : list Z := default [] (payload p).

(** Of two requests that arrive together only the first is handled: the chunk is cleared. *)
Lemma pipelined_request_dropped :
  let bytes := bytes_of (sample_message DICEY_OP_GET 2 path_a) ++ bytes_of (sample_message DICEY_OP_GET 4 path_a) in
  let s := (on_read sample_env 0 (ReadBytes bytes) (alloc_buffer sample_env 0 sample_server).2).2 in
  packet_seq <$> requests (sv_log s) = [2] /\ (ck_bytes <$> (sv_heap s !! 0%nat ≫= cd_chunk)) = Some [].
Proof. split; evaluate. Qed.

(** Adding an alias that exists tries again for ever. *)
Lemma existing_alias_hangs n : (add_alias n path_a path_b witness_registry).1 = OutOfFuel.
Proof.
  assert (dicey_registry_alias_object path_a path_b witness_registry = (Err DICEY_EEXIST, witness_registry)) as E by evaluate.
  induction n as [|n IH]; [done|]. cbn [add_alias]. by rewrite E.
Qed.

(** Kicking a client aborts: its reason is not one that a bye may have. *)
Lemma kick_aborts {T : Type -> Type} `{Table T} (E : environment (T := T)) client s :
  (loop_request_kick_client E client DICEY_BYE_REASON_KICKED s).1 = Fault AssertFailed.
Proof. reflexivity. Qed.

(** A client with a newer protocol is refused as too old, one with an older protocol is welcome. *)
Lemma versions_inverted :
  let newer := mk_version (major DICEY_PROTO_VERSION_CURRENT) (revision DICEY_PROTO_VERSION_CURRENT + 1) in
  let older := mk_version (major DICEY_PROTO_VERSION_CURRENT - 1) (revision DICEY_PROTO_VERSION_CURRENT) in
  (client_got_hello sample_env 1 0 newer sample_server).1 = Err DICEY_ECLIENT_TOO_OLD /\
  (client_got_hello sample_env 1 0 older sample_server).1 = Ok CLIENT_DATA_STATE_RUNNING.
Proof. split; evaluate. Qed.

(** A signal raised with an alias of an object does not reach those who subscribed with its path. *)
Lemma signal_through_alias_lost :
  let packet := match written_packet (fun _ => true) DICEY_OP_SIGNAL 1 (Some path_b) sample_selector (Some ArgUnit) with Ok p => p | _ => DICEY_EMPTY_PACKET end in
  (dicey_registry_get_main_path path_b witness_registry).1 = Ok (Some path_a) /\
  sv_writes (dicey_server_raise_internal sample_env sample_signal sample_server).2 <> [] /\
  (dicey_server_raise_internal sample_env packet sample_server).1 = Ok tt /\
  sv_writes (dicey_server_raise_internal sample_env packet sample_server).2 = [].
Proof. split_and!; [evaluate|vm_compute; discriminate|evaluate|evaluate]. Qed.

(** The server after client 0 asked for the property through a path. *)
Definition asked (path : cstr) : dicey_server (T := map_ptr) := (client_got_packet sample_env 0 (sample_message DICEY_OP_GET 2 path) sample_server).2.

Definition unanswered (s : dicey_server (T := map_ptr)) : option Z := p_len <$> (sv_heap s !! 0%nat ≫= cd_pending).

(** A response of the wrong type is refused after the request was taken from the pending ones: the
    client is never answered. *)
Lemma wrong_response_forgets_request :
  let response := match written_packet (fun _ => true) DICEY_OP_RESPONSE 2 (Some path_a) sample_selector (Some ArgUnit) with Ok p => p | _ => DICEY_EMPTY_PACKET end in
  let r := loop_request_send_response sample_env (Some 0%nat) response (asked path_a) in
  unanswered (asked path_a) = Some 1 /\ r.1 = Err DICEY_ESIGNATURE_MISMATCH /\ unanswered r.2 = Some 0 /\ sv_writes r.2 = [].
Proof. split_and!; evaluate. Qed.

(** A request through an alias is not pruned when the object is deleted. *)
Lemma alias_request_not_pruned :
  let r := remove_object sample_env path_a (asked path_b) in
  r.1 = Ok tt /\ unanswered r.2 = Some 1 /\ sv_writes r.2 = [].
Proof. split_and!; evaluate. Qed.

(** Deleting a path that does not exist aborts when a client has a pending request. *)
Lemma delete_unknown_path_aborts :
  (remove_object sample_env path_c (asked path_a)).1 = Fault AssertFailed /\
  (remove_object sample_env path_c sample_server).1 = Err DICEY_EPATH_NOT_FOUND.
Proof. split; evaluate. Qed.

(** After a failed [uv_accept] the client is removed, and reading from it is started. *)
Lemma failed_accept_aborts :
  let E := mk_env (fun _ => true) (fun _ => true) (fun _ => true) (fun _ => true) (fun _ => None) (fun _ => Some DICEY_EUV_UNKNOWN)
    (fun _ => None) (fun _ => None) None None (fun _ => true) [] (fun _ => sfault NullDeref) (fun _ _ => sfault NullDeref) 100 in
  (on_connect E None sample_server).1 = Fault NullDeref.
Proof. intros E. evaluate. Qed.

(** Without a handler of the user a request is dropped and its sequence number stays the expected one,
    so that the next request of the client is taken for a violation. *)
Lemma no_handler_misaligns :
  let E := mk_env (fun _ => true) (fun _ => true) (fun _ => true) (fun _ => true) (fun _ => None) (fun _ => None)
    (fun _ => None) (fun _ => None) None None (fun _ => true) [] (fun _ => sfault NullDeref) (fun _ _ => sfault NullDeref) 100 in
  let s := (client_got_packet E 0 (sample_message DICEY_OP_GET 2 path_a) sample_server).2 in
  let s' := (client_got_packet E 0 (sample_message DICEY_OP_GET 4 path_c) s).2 in
  sv_log s = [] /\ (cd_state <$> sv_heap s !! 0%nat) = Some CLIENT_DATA_STATE_RUNNING /\ (cd_state <$> sv_heap s' !! 0%nat) = Some CLIENT_DATA_STATE_DEAD.
Proof. split_and!; evaluate. Qed.

(** An object without traits cannot be added: the set is a null pointer, and an assertion fails. *)
Lemma no_traits_aborts {T : Type -> Type} `{Table T} (E : environment (T := T)) path s :
  (dicey_server_add_object_with E path [] s).1 = Fault AssertFailed.
Proof. unfold dicey_server_add_object_with, dicey_server_add_object. cbn [trait_set_of]. srun. by rewrite (proj2 (proj2 tbl_empty_ok)). Qed.
