(* ===== verification/Requests.v ===== *)
(** * Answering requests (src/ipc/server/request.c)

    The user gets a request and answers it: in one call, or with a builder in several. The response
    is under construction in the builder of the request; when it is complete it goes to the queue of
    the server. The state is the request, the heap of its builder, and the server. *)

From stdpp Require Import gmap list.
From S2P Require Import Prelude Errors Types Views Writer ValueWrite ValueProbe Value Codec Payload Packet.
From S2P Require Import Builders BuildersTheorems Borrowed Table PendingReqs Server.

#[local] Open Scope list_scope.
#[local] Open Scope Z_scope.

Inductive reply_policy : Type :=
  | REPLY_POLICY_ASYNC
  | REPLY_POLICY_BLOCKING.

Section requests.
Context {T : Type -> Type} `{Table T}.

(** The builder of the response is [bs_msg] of the heap. *)
Record user_request : Type := mk_user_request { ur_req : request; ur_heap : bstate; ur_server : dicey_server (T := T) }.

Definition ust : Type -> Type := stm user_request dicey_error.

Definition on_heap {A} (m : bst A) : ust A := fun u => let '(r, h) := m (ur_heap u) in (r, mk_user_request (ur_req u) h (ur_server u)).
Definition on_server {A} (m : sst (T := T) A) : ust A := fun u => let '(r, s) := m (ur_server u) in (r, mk_user_request (ur_req u) (ur_heap u) s).

Definition with_rstate (st : dicey_request_state) (req : request) : request :=
  let r := req_rest req in
  mk_request (packet_seq req) (req_op req) (req_message req) (mk_rest (rq_client r) st (rq_packet r) (rq_real_path r) (rq_builder r) (rq_signature r)).

Definition request_state (u : user_request) : dicey_request_state := rq_state (req_rest (ur_req u)).
Definition set_request_state (st : dicey_request_state) : ust unit := fun u => (Ok tt, mk_user_request (with_rstate st (ur_req u)) (ur_heap u) (ur_server u)).

Definition utry {A} (m : ust A) : ust (dicey_error + A) := fun u =>
  match m u with
  | (Ok a, u') => (Ok (inr a), u')
  | (Err e, u') => (Ok (inl e), u')
  | (Fault f, u') => (Fault f, u')
  | (OutOfFuel, u') => (OutOfFuel, u')
  end.

(** The server and the allocator; [wait_err] is what the loop answers to a caller that waits, and
    [sem] the semaphore it waits for. *)
Context (E : environment (T := T)) (wait_err : option dicey_error) (sem : nat).

(** ** Step by step *)

Definition dicey_request_response_start (builder : nat) : ust unit :=
  do! u <- sget ;
  do! pending <- on_heap (dicey_value_builder_is_pending builder) ;
  if negb (bool_decide (request_state u = DICEY_REQUEST_STATE_PENDING)) || pending then sfail DICEY_EINVAL else
  do! pending <- on_heap dicey_message_builder_is_pending ;
  sassert pending ;;!
  on_heap (dicey_message_builder_value_start (e_builder_ok E) builder) ;;!
  set_request_state DICEY_REQUEST_STATE_CONSTRUCTING.

Definition dicey_request_response_reset (builder : nat) : ust unit :=
  do! u <- sget ;
  if negb (bool_decide (request_state u = DICEY_REQUEST_STATE_CONSTRUCTING)) then sfail DICEY_EINVAL else
  do! pending <- on_heap dicey_message_builder_is_pending ;
  sassert pending ;;!
  on_heap (dicey_message_builder_value_end builder) ;;!
  set_request_state DICEY_REQUEST_STATE_PENDING.

(** The response goes to the queue of the server; the second variant waits until it was sent. *)
Definition send_by (policy : reply_policy) (id : Z) (reply : dicey_packet) : ust unit :=
  match policy with
  | REPLY_POLICY_ASYNC => on_server (dicey_server_send_response E id reply)
  | REPLY_POLICY_BLOCKING =>
      on_server (dicey_server_send_response_and_wait E id reply sem) ;;! match wait_err with Some e => sfail e | None => sret tt end
  end.

(** A step that ends the request when it fails. *)
Definition or_abort {A} (m : ust A) : ust A :=
  do! r <- utry m ;
  match r with
  | inl err => set_request_state DICEY_REQUEST_STATE_ABORTED ;;! sfail err
  | inr a => sret a
  end.

Definition finalize_request (policy : reply_policy) (builder : nat) : ust unit :=
  do! u <- sget ;
  if negb (bool_decide (request_state u = DICEY_REQUEST_STATE_CONSTRUCTING)) then sfail DICEY_EINVAL else
  or_abort (on_heap (dicey_message_builder_value_end builder)) ;;!
  do! pending <- on_heap dicey_message_builder_is_pending ;
  sassert pending ;;!
  do! reply <- or_abort (on_heap (dicey_message_builder_build (e_block_ok E))) ;
  or_abort (send_by policy (rq_client (req_rest (ur_req u))) reply) ;;!
  set_request_state DICEY_REQUEST_STATE_COMPLETED.

Definition dicey_request_response_send (builder : nat) : ust unit := finalize_request REPLY_POLICY_ASYNC builder.
Definition dicey_request_response_send_and_wait (builder : nat) : ust unit := finalize_request REPLY_POLICY_BLOCKING builder.

(** ** In one call *)

(** The local builder is at a new address. When the value cannot be set, what the caller gets is
    the result of the reset. *)
Definition send_reply (policy : reply_policy) (arg : dicey_arg) : ust unit :=
  do! u <- sget ;
  let builder := bs_next (ur_heap u) in
  dicey_request_response_start builder ;;!
  do! r <- utry (on_heap (dicey_value_builder_set (e_builder_ok E) builder arg)) ;
  match r with
  | inl _ => dicey_request_response_reset builder
  | inr _ =>
      match policy with
      | REPLY_POLICY_ASYNC => dicey_request_response_send builder
      | REPLY_POLICY_BLOCKING => dicey_request_response_send_and_wait builder
      end
  end.

Definition dicey_request_reply (arg : dicey_arg) : ust unit := send_reply REPLY_POLICY_ASYNC arg.
Definition dicey_request_reply_and_wait (arg : dicey_arg) : ust unit := send_reply REPLY_POLICY_BLOCKING arg.

Definition dicey_request_acknowledge : ust unit := dicey_request_reply ArgUnit.
(** The code is unsigned for the caller and signed in the argument. *)
Definition dicey_request_fail (code : Z) (msg : option cstr) : ust unit := dicey_request_reply (ArgError (mk_errmsg (to_signed 16 code) msg)).
Definition dicey_request_fail_and_wait (code : Z) (msg : option cstr) : ust unit := dicey_request_reply_and_wait (ArgError (mk_errmsg (to_signed 16 code) msg)).

(** The local argument is a cell that nobody allocates; it is gone at the end. *)
Definition local_cell : bst nat := fun s =>
  (Ok (bs_next s), mk_bstate (bs_msg s) (bs_vals s) (<[bs_next s := [CZero DICEY_TYPE_INVALID]]> (bs_blocks s)) (S (bs_next s))).
Definition end_local (p : nat) : bst unit := bfree p.

Definition reply_with_existing (policy : reply_policy) (value : dicey_value) : ust unit :=
  do! p <- on_heap local_cell ;
  do! err <- utry (on_heap (dicey_arg_from_borrowed_value (e_builder_ok E) (e_fuel E) (p, 0%nat) value)) ;
  match err with
  | inl err => on_heap (end_local p) ;;! sfail err
  | inr _ =>
      do! c <- on_heap (cell_read (p, 0%nat)) ;
      do! u <- sget ;
      do! arg <- slift (arg_of_cell (free_fuel (ur_heap u)) (bs_blocks (ur_heap u)) c) ;
      do! send_err <- utry (send_reply policy arg) ;
      on_heap (free_contents c) ;;!
      on_heap (end_local p) ;;!
      match send_err with inl e => sfail e | inr _ => sret tt end
  end.

Definition dicey_request_reply_with_existing (value : dicey_value) : ust unit := reply_with_existing REPLY_POLICY_ASYNC value.
Definition dicey_request_reply_with_existing_and_wait (value : dicey_value) : ust unit := reply_with_existing REPLY_POLICY_BLOCKING value.

(** ** Reading a request, and its end *)

Definition dicey_request_get_client_info (req : option request) : option Z := match req with Some r => Some (rq_client (req_rest r)) | None => None end.
Definition dicey_request_get_message (req : option request) : option dicey_message := match req with Some r => Some (req_message r) | None => None end.
Definition dicey_request_get_op (req : request) : dicey_op := req_op req.
Definition dicey_request_get_real_path (req : option request) : option cstr := match req with Some r => rq_real_path (req_rest r) | None => None end.
Definition dicey_request_get_seq (req : request) : Z := packet_seq req.

Definition dicey_request_deinit : ust unit :=
  on_heap dicey_message_builder_discard ;;!
  (fun u => (Ok tt, mk_user_request (mk_request 0 DICEY_OP_INVALID zero_message zero_rest) (ur_heap u) (ur_server u))).

(** A request as the server hands it to the user. *)
Definition received (req : request) (s : dicey_server (T := T)) : user_request :=
  mk_user_request req (mk_bstate (rq_builder (req_rest req)) ∅ ∅ 0) s.

End requests.
