(* ===== verification/RequestsTheorems.v ===== *)
(** * Requests are answered once

    Whatever the user does with a request, at most one response for it goes to the queue of the
    server; a request that was replied to has the response the user meant. *)

From stdpp Require Import gmap list.
From S2P Require Import Prelude Errors Moves Types Views Writer ValueWrite ValueProbe Value Codec Payload Packet.
From S2P Require Import Builders BuildersTheorems Borrowed Table PendingReqs Server Requests.

#[local] Open Scope list_scope.
#[local] Open Scope Z_scope.

(** ** Steps that leave the message builder alone *)

Definition same_msg (h h' : bstate) : Prop := bs_msg h' = bs_msg h.

#[export] Instance same_msg_preorder : PreOrder same_msg.
Proof. split; [done|]. intros x y z E F. unfold same_msg in *. congruence. Qed.

Section builders.
Context (alloc_ok : nat -> bool).

Lemma put_blocks_msg b : moves same_msg (put_blocks b).
Proof. by intros h r h' [= <- <-] _. Qed.
Lemma put_val_msg v vb : moves same_msg (put_val v vb).
Proof. by intros h r h' [= <- <-] _. Qed.
Lemma get_val_msg v : moves same_msg (get_val v).
Proof. by intros h r h' [= <- <-] _. Qed.
Lemma balloc_msg cells : moves same_msg (balloc alloc_ok cells).
Proof. intros h r h'. unfold balloc. by destruct (alloc_ok _); intros [= <- <-] _. Qed.
Lemma block_read_msg b : moves same_msg (block_read b).
Proof. by intros h r h' [= <- <-] _. Qed.

#[local] Hint Resolve put_blocks_msg put_val_msg get_val_msg balloc_msg block_read_msg : moves.

Lemma cell_read_msg p : moves same_msg (cell_read p).
Proof. unfold cell_read. moves. Qed.
Lemma cell_write_msg p c : moves same_msg (cell_write p c).
Proof. unfold cell_write. moves. Qed.
Lemma bfree_msg b : moves same_msg (bfree b).
Proof. unfold bfree. moves. Qed.

#[local] Hint Resolve cell_read_msg cell_write_msg bfree_msg : moves.

Lemma each_cell_msg f cells : (forall c, moves same_msg (f c)) -> moves same_msg (each_cell f cells).
Proof. intros Hf. induction cells; cbn [each_cell]; moves. Qed.
Lemma free_with_msg f p : (forall c, moves same_msg (f c)) -> moves same_msg (free_with f p).
Proof. intros Hf. unfold free_with. moves. Qed.

#[local] Hint Resolve each_cell_msg free_with_msg : moves.

Lemma free_contents_msg fuel c : moves same_msg (dicey_arg_free_contents fuel c).
Proof. revert c. induction fuel as [|fuel IH]; intros c; cbn [dicey_arg_free_contents]; [by intros h r h' [= <- <-]|]. moves. Qed.
Lemma free_msg c : moves same_msg (free_contents c).
Proof. intros h r h'. apply free_contents_msg. Qed.
Lemma arg_free_msg p : moves same_msg (dicey_arg_free p).
Proof. apply free_with_msg, free_msg. Qed.

#[local] Hint Resolve free_msg arg_free_msg : moves.

Lemma dup_cells_msg dup p i l : Forall (fun a => forall d, moves same_msg (dup d a)) l -> moves same_msg (dup_cells dup p i l).
Proof. intros Hl. revert i. induction Hl; intros i; cbn [dup_cells]; moves. Qed.

Lemma arglist_copy_msg dup dest l wrap : Forall (fun a => forall d, moves same_msg (dup d a)) l -> moves same_msg (arglist_copy alloc_ok dup dest l wrap).
Proof. intros Hl. unfold arglist_copy. pose proof (fun p i => dup_cells_msg dup p i l Hl). moves. Qed.
Lemma dup_new_msg dup a : (forall d, moves same_msg (dup d a)) -> moves same_msg (dup_new alloc_ok dup a).
Proof. intros Ha. unfold dup_new. moves. Qed.

#[local] Hint Resolve arglist_copy_msg dup_new_msg : moves.

Lemma dup_msg a : forall dest, moves same_msg (dicey_arg_dup alloc_ok dest a).
Proof.
  revert a. refine (dicey_arg_ind' (fun a => forall dest, moves same_msg (dicey_arg_dup alloc_ok dest a)) _ _ _ _).
  - intros a. destruct a; try done; intros dest; cbn [dicey_arg_dup]; moves.
  - intros t l Hl dest. cbn [dicey_arg_dup]. moves.
  - intros l Hl dest. cbn [dicey_arg_dup]. moves.
  - intros x y Hx Hy dest. cbn [dicey_arg_dup]. moves.
Qed.

#[local] Hint Resolve dup_msg : moves.

Lemma builder_set_msg v a : moves same_msg (dicey_value_builder_set alloc_ok v a).
Proof. unfold dicey_value_builder_set. moves. Qed.

Lemma btry_moves {A} R (m : bst A) : moves R m -> moves R (btry m).
Proof. intros Hm p r p'. unfold btry. destruct (m p) as [[a|e|f|] q] eqn:E; intros Hr Hret; simplify_eq; try done; by eapply Hm. Qed.

Lemma free_list_msg p n : moves same_msg (dicey_arg_free_list p n).
Proof. unfold dicey_arg_free_list. moves. Qed.

#[local] Hint Resolve free_list_msg btry_moves : moves.

Lemma list_loop_msg from fuel iter v elems cap len : (forall d x, moves same_msg (from d x)) -> moves same_msg (list_to_arg_loop alloc_ok from fuel iter v elems cap len).
Proof.
  intros Hf. revert iter elems cap len. induction fuel as [|fuel IH]; intros iter elems cap len; cbn [list_to_arg_loop]; unfold realloc_cells; moves.
Qed.

Lemma borrowed_msg fuel : forall dest v, moves same_msg (dicey_arg_from_borrowed_value alloc_ok fuel dest v).
Proof.
  induction fuel as [|fuel IH]; intros dest v; cbn [dicey_arg_from_borrowed_value]; [apply moves_lift; exact _|].
  pose proof (fun iter v elems cap len => list_loop_msg _ fuel iter v elems cap len IH). unfold put_member, value_list_to_arg, value_pair_to_arg. moves; apply btry_moves, IH.
Qed.

End builders.

#[export] Hint Resolve builder_set_msg borrowed_msg free_msg bfree_msg cell_read_msg : moves.

(** ** Responses *)

Section requests.
Context {T : Type -> Type} `{Table T}.
#[local] Abbreviation user_request := (Requests.user_request (T := T)).
#[local] Abbreviation loop_request := (Server.loop_request (T := T)).

(** No response can be sent any more. *)
Definition closed (u : user_request) : Prop :=
  match request_state u with
  | DICEY_REQUEST_STATE_COMPLETED | DICEY_REQUEST_STATE_ABORTED => True
  | DICEY_REQUEST_STATE_PENDING => mb_state (bs_msg (ur_heap u)) = BUILDER_STATE_IDLE
  | DICEY_REQUEST_STATE_CONSTRUCTING => False
  end.

(** What a call does: [l] went to the queue of the server. *)
Definition answers (u : user_request) (l : list loop_request) (u' : user_request) : Prop :=
  (l = [] /\ (closed u -> closed u') /\ (request_state u' = DICEY_REQUEST_STATE_COMPLETED -> request_state u = DICEY_REQUEST_STATE_COMPLETED)) \/
  (~ closed u /\ length l = 1%nat /\ closed u').

Definition queued (u : user_request) : list loop_request := sv_queue (ur_server u).

Definition responds (u u' : user_request) : Prop := exists l, queued u' = queued u ++ l /\ answers u l u'.

#[export] Instance responds_preorder : PreOrder responds.
Proof.
  split.
  - intros u. exists []. rewrite (right_id_L [] (++)). split; [done|]. by left.
  - intros u v w (l1 & E1 & H1) (l2 & E2 & H2). exists (l1 ++ l2). rewrite E2, E1, (assoc_L (++)). split; [done|].
    destruct H1 as [(-> & C1 & D1)|(N1 & L1 & C1)], H2 as [(-> & C2 & D2)|(N2 & L2 & C2)].
    + left. split_and!; auto.
    + right. split_and!; auto.
    + right. rewrite (right_id_L [] (++)). auto.
    + done.
Qed.

Lemma utry_moves {A} R (m : ust (T := T) A) : moves R m -> moves R (utry m).
Proof. intros Hm p r p'. unfold utry. destruct (m p) as [[a|e|f|] q] eqn:E; intros Hr Hret; simplify_eq; try done; by eapply Hm. Qed.

Lemma on_heap_responds {A} (m : bst A) : moves same_msg m -> moves responds (on_heap (T := T) m).
Proof.
  intros Hm u r u'. unfold on_heap. destruct (m (ur_heap u)) as [r0 h] eqn:E. intros [= <- <-] Hr. exists []. rewrite (right_id_L [] (++)). split; [done|]. left.
  split_and!; [done| |done]. unfold closed. cbn. by rewrite (Hm _ _ _ E Hr).
Qed.

Context (E : environment (T := T)) (wait_err : option dicey_error) (sem : nat).

(** The server takes one request, or refuses it. *)
Definition pushes (r : res unit) (s s' : dicey_server (T := T)) : Prop :=
  exists l, sv_queue s' = sv_queue s ++ l /\ (length l <= 1)%nat /\ (r = Ok tt -> length l = 1%nat).

Lemma send_response_pushes o id packet s r s' : send_response_with E o id packet s = (r, s') -> returned r -> pushes r s s'.
Proof.
  unfold send_response_with, sbind at 1, slift. destruct (can_send_as_response packet) as [ok|e|f|];
    try (intros [= <- <-] ?; try done; exists []; rewrite (right_id_L [] (++)); by split_and!; [|cbn; lia|]).
  destruct (negb ok); [intros [= <- <-] _; exists []; rewrite (right_id_L [] (++)); by split_and!; [|cbn; lia|]|].
  destruct (PTRDIFF_MAX <? id); [intros [= <- <-] _; exists []; rewrite (right_id_L [] (++)); by split_and!; [|cbn; lia|]|].
  unfold submit_new, malloc, sbind, sret. cbn [copies_path]. destruct (e_malloc_ok E (sv_next s)).
  2: { intros [= <- <-] _. exists []. cbn. rewrite (right_id_L [] (++)). split_and!; [done|cbn; lia|done]. }
  set (req := mk_loop_request _ _ _). unfold dicey_server_blocking_request, dicey_server_submit_request, attempt, upd, sbind.
  case_bool_decide; destruct (e_uv_async_err E); intros [= <- <-] Hr; try done; exists [req]; by split_and!; [|cbn; lia|].
Qed.

Lemma send_by_pushes policy id reply u r u' : send_by E wait_err sem policy id reply u = (r, u') -> returned r ->
  ur_req u' = ur_req u /\ ur_heap u' = ur_heap u /\ pushes r (ur_server u) (ur_server u').
Proof.
  assert (forall o s, returned (send_response_with E o id reply s).1 -> pushes (send_response_with E o id reply s).1 s (send_response_with E o id reply s).2) as Hp.
  { intros o s Hr. destruct (send_response_with E o id reply s) as [r0 s0] eqn:E0. by eapply send_response_pushes. }
  destruct policy; cbn [send_by].
  - unfold on_server, dicey_server_send_response. specialize (Hp None (ur_server u)). destruct (send_response_with _ _ _ _ _) as [r0 s0]. intros [= <- <-] Hr. by split_and!; [..|apply Hp].
  - unfold on_server, dicey_server_send_response_and_wait, sbind. specialize (Hp (Some sem) (ur_server u)). destruct (send_response_with _ _ _ _ _) as [[[]|e|f|] s0]; try by (intros [= <- <-] Hr; split_and!; [..|apply Hp]).
    destruct (Hp I) as (l & El & Hl & Hok). destruct wait_err; intros [= <- <-] Hr; split_and!; try done; exists l; auto.
Qed.

Lemma responds_refl u : responds u u.
Proof. reflexivity. Qed.

(** A call that does not complete the request and pushes nothing. *)
Lemma responds_quiet u u' : queued u' = queued u -> (closed u -> closed u') -> request_state u' <> DICEY_REQUEST_STATE_COMPLETED -> responds u u'.
Proof. intros Eq Hc Hs. exists []. rewrite Eq, (right_id_L [] (++)). split; [done|]. left. done. Qed.

Lemma is_pending_run (u : user_request) : on_heap dicey_message_builder_is_pending u = (Ok (negb (bool_decide (mb_state (bs_msg (ur_heap u)) = BUILDER_STATE_IDLE))), u).
Proof. by destruct u. Qed.

Definition aborted (u : user_request) : user_request := mk_user_request (with_rstate DICEY_REQUEST_STATE_ABORTED (ur_req u)) (ur_heap u) (ur_server u).

Lemma or_abort_eq {A} (m : ust (T := T) A) u :
  or_abort m u = match m u with (Ok a, v) => (Ok a, v) | (Err e, v) => (Err e, aborted v) | (Fault f, v) => (Fault f, v) | (OutOfFuel, v) => (OutOfFuel, v) end.
Proof. unfold or_abort, utry, sbind. by destruct (m u) as [[] ?]. Qed.

Lemma finalize_responds policy b : moves responds (finalize_request E wait_err sem policy b).
Proof.
  intros u r u'. unfold finalize_request. erewrite (sbind_Ok sget); [|reflexivity]. case_bool_decide as Hst; [|intros [= <- <-] _; apply responds_refl]. cbn [negb].
  assert (~ closed u) as Hopen by (unfold closed; rewrite Hst; tauto).
  unfold sbind at 1. rewrite or_abort_eq. unfold on_heap at 1. destruct (dicey_message_builder_value_end b (ur_heap u)) as [[[]|e|f|] h]; try by intros [= <- <-].
  2: { intros [= <- <-] _. apply responds_quiet; [done|by intros ?%Hopen|done]. }
  set (u1 := mk_user_request _ h _). rewrite (sbind_Ok _ _ _ _ _ (is_pending_run u1)). destruct (negb _); [|by intros [= <- <-]].
  erewrite (sbind_Ok (sassert true)); [|reflexivity]. unfold sbind at 1. rewrite or_abort_eq. unfold on_heap. cbn [ur_heap u1].
  destruct (dicey_message_builder_build (e_block_ok E) h) as [[reply|e|f|] h2]; try by intros [= <- <-].
  2: { intros [= <- <-] _. apply responds_quiet; [done|by intros ?%Hopen|done]. }
  set (u2 := mk_user_request _ h2 _). unfold sbind at 1. rewrite or_abort_eq.
  destruct (send_by E wait_err sem policy (rq_client (req_rest (ur_req u))) reply u2) as [r3 u3] eqn:Es.
  intros Er Hr. assert (returned r3) as Hr3 by (destruct r3; try done; by injection Er as <- <-).
  destruct (send_by_pushes _ _ _ _ _ _ Es Hr3) as (Eq & Eh & l & El & Hl & Hok). exists l.
  destruct r3 as [[]|e| |]; try done; injection Er as <- <-.
  - split; [exact El|]. right. split_and!; [done|by apply Hok|done].
  - split; [exact El|]. destruct l as [|x [|]]; [left|right|cbn in Hl; lia]; split_and!; try done.
Qed.

Lemma start_responds b : moves responds (dicey_request_response_start E b).
Proof.
  intros u r u'. unfold dicey_request_response_start. erewrite (sbind_Ok sget); [|reflexivity].
  erewrite (sbind_Ok (on_heap (dicey_value_builder_is_pending b)) _ u _ u); [|unfold on_heap; cbn; by destruct u].
  case_bool_decide as Hst; [|intros [= <- <-] _; apply responds_refl]. cbn [negb orb].
  match goal with |- (if ?x then _ else _) _ = _ -> _ => destruct x end; [intros [= <- <-] _; apply responds_refl|].
  rewrite (sbind_Ok _ _ _ _ _ (is_pending_run u)). case_bool_decide as Hidle; [by intros [= <- <-]|]. erewrite (sbind_Ok (sassert true)); [|reflexivity].
  assert (~ closed u) as Hopen by (unfold closed; by rewrite Hst). unfold sbind, on_heap.
  destruct (dicey_message_builder_value_start (e_builder_ok E) b (ur_heap u)) as [[[]|e|f|] h]; intros [= <- <-] Hr; try done;
    (apply responds_quiet; [done|by intros ?%Hopen|]); [done|]. unfold request_state in *. cbn. by rewrite Hst.
Qed.

Lemma reset_responds b : moves responds (dicey_request_response_reset b).
Proof.
  intros u r u'. unfold dicey_request_response_reset. erewrite (sbind_Ok sget); [|reflexivity]. case_bool_decide as Hst; [|intros [= <- <-] _; apply responds_refl]. cbn [negb].
  assert (~ closed u) as Hopen by (unfold closed; rewrite Hst; tauto). rewrite (sbind_Ok _ _ _ _ _ (is_pending_run u)). destruct (negb _); [|by intros [= <- <-]].
  erewrite (sbind_Ok (sassert true)); [|reflexivity]. unfold sbind, on_heap.
  destruct (dicey_message_builder_value_end b (ur_heap u)) as [[[]|e|f|] h]; intros [= <- <-] Hr; try done;
    (apply responds_quiet; [done|by intros ?%Hopen|]); [done|]. unfold request_state in *. cbn. by rewrite Hst.
Qed.

#[local] Hint Resolve finalize_responds start_responds reset_responds on_heap_responds : moves.

Lemma send_reply_responds policy a : moves responds (send_reply E wait_err sem policy a).
Proof. unfold send_reply, dicey_request_response_send, dicey_request_response_send_and_wait. moves. by apply utry_moves, on_heap_responds, builder_set_msg. Qed.

Lemma local_cell_msg : moves same_msg local_cell.
Proof. by intros h r h' [= <- <-] _. Qed.

#[local] Hint Resolve send_reply_responds local_cell_msg utry_moves : moves.

Lemma reply_with_existing_responds policy v : moves responds (reply_with_existing E wait_err sem policy v).
Proof. unfold reply_with_existing, end_local. moves. Qed.

(** The end of a request. *)
Lemma discard_zero h h' : dicey_message_builder_discard h = (Ok tt, h') -> bs_msg h' = zero_mb.
Proof.
  unfold dicey_message_builder_discard. intros ([] & h1 & _ & E1)%sbind_Ok_inv. apply sbind_Ok_inv in E1 as ([] & h2 & _ & E2).
  apply sbind_Ok_inv in E2 as ([] & h3 & _ & E3). by injection E3 as <-.
Qed.

Lemma deinit_responds : moves responds dicey_request_deinit.
Proof.
  intros u r u'. unfold dicey_request_deinit, sbind, on_heap. pose proof (discard_no_error (ur_heap u)) as Hno.
  destruct (dicey_message_builder_discard (ur_heap u)) as [[[]|e|f|] h] eqn:Ed; intros [= <- <-] Hr; try done; [|by destruct (Hno e)].
  apply responds_quiet; [done| |done]. intros _. unfold closed. cbn. by rewrite (discard_zero _ _ Ed).
Qed.

(** ** Runs *)

(** What may happen to a request: calls of the user, and anything to the server in between. *)
Inductive request_step : user_request -> list loop_request -> user_request -> Prop :=
  | start_call b u r u' l : dicey_request_response_start E b u = (r, u') -> returned r -> queued u' = queued u ++ l -> request_step u l u'
  | build_call A (m : bst A) u r u' l : moves same_msg m -> on_heap m u = (r, u') -> returned r -> queued u' = queued u ++ l -> request_step u l u'
  | reset_call b u r u' l : dicey_request_response_reset b u = (r, u') -> returned r -> queued u' = queued u ++ l -> request_step u l u'
  | send_call policy b u r u' l : finalize_request E wait_err sem policy b u = (r, u') -> returned r -> queued u' = queued u ++ l -> request_step u l u'
  | reply_call policy a u r u' l : send_reply E wait_err sem policy a u = (r, u') -> returned r -> queued u' = queued u ++ l -> request_step u l u'
  | existing_call policy v u r u' l : reply_with_existing E wait_err sem policy v u = (r, u') -> returned r -> queued u' = queued u ++ l -> request_step u l u'
  | deinit_call u r u' l : dicey_request_deinit u = (r, u') -> returned r -> queued u' = queued u ++ l -> request_step u l u'
  | server_runs u s : request_step u [] (mk_user_request (ur_req u) (ur_heap u) s).

Inductive request_run (u : user_request) : list loop_request -> user_request -> Prop :=
  | run_start : request_run u [] u
  | run_more l v l' w : request_run u l v -> request_step v l' w -> request_run u (l ++ l') w.

Lemma responds_answers u u' l : responds u u' -> queued u' = queued u ++ l -> answers u l u'.
Proof. intros (l' & El & Ha) El'. rewrite El in El'. apply (inj (queued u ++.)) in El'. by subst l'. Qed.

Lemma request_step_answers u l u' : request_step u l u' -> answers u l u'.
Proof.
  destruct 1 as [b u r u' l Er Hr El|A m u r u' l Hm Er Hr El|b u r u' l Er Hr El|policy b u r u' l Er Hr El|policy a u r u' l Er Hr El|policy v u r u' l Er Hr El|u r u' l Er Hr El|u s];
    try (apply responds_answers; [|exact El]; revert u r u' Er Hr El).
  - intros; by eapply start_responds.
  - intros; by eapply on_heap_responds.
  - intros; by eapply reset_responds.
  - intros; by eapply finalize_responds.
  - intros; by eapply send_reply_responds.
  - intros; by eapply reply_with_existing_responds.
  - intros; by eapply deinit_responds.
  - by left.
Qed.

Lemma request_run_answers u l u' : request_run u l u' -> request_state u = DICEY_REQUEST_STATE_PENDING -> 
  (length l <= 1)%nat /\ (length l = 1%nat -> closed u') /\ (request_state u' = DICEY_REQUEST_STATE_COMPLETED -> length l = 1%nat).
Proof.
  intros Hrun Hst. induction Hrun as [|l v l' w _ (Hlen & Hclosed & Hdone) Hstep]; [split_and!; [cbn; lia|done|by rewrite Hst]|].
  rewrite length_app. destruct (request_step_answers _ _ _ Hstep) as [(-> & Hc & Hd)|(Ho & Hl & Hc)]; cbn [length].
  - rewrite Nat.add_0_r. auto.
  - assert (length l <> 1%nat) by (intros Hl1; by apply Ho, Hclosed). split_and!; [lia|done|lia].
Qed.

End requests.
