(* ===== verification/RequestsReplies.v ===== *)
(** * What the client gets

    A request that the user replies to puts one response in the queue of the server: the message
    with the number, the path and the selector of the request, and the value of the reply. *)

From stdpp Require Import gmap list.
From S2P Require Import Prelude Errors Moves Types Views Writer ValueWrite ValueProbe Value Codec Payload Packet.
From S2P Require Import Builders BuildersTheorems Borrowed Table PendingReqs RegistryTheorems Server ServerScenario Requests RequestsTheorems.

#[local] Open Scope list_scope.
#[local] Open Scope Z_scope.

Lemma u32_u32 z : u32 (u32 z) = u32 z.
Proof. unfold u32, wrap. by rewrite Z.mod_mod. Qed.

(** The number of a message that was written. *)
Lemma written_seq op seq path t e value : message_ok op path t e value -> dicey_packet_get_seq (packet_of (written op seq path t e value)) = Ok (u32 seq).
Proof.
  intros Hok. destruct (written_payload op seq path t e value Hok) as [Hp _]. unfold dicey_packet_get_seq. rewrite packet_of_valid by done.
  cbn [oassert obind packet_of payload dtf_payload_get_seq]. pose proof Hp as (_ & _ & H12 & _). change MESSAGE_HEAD_SIZE with 12 in *. rewrite read_u32_ok by lia. cbn [obind].
  unfold written, message_bytes, head3. rewrite <- !app_assoc. rewrite zdrop_app_eq, ztake_app_eq by (by rewrite zlen_le_bytes). rewrite le_val_le_bytes.
  unfold u32, wrap. change (8 * Z.of_nat 4) with 32. by rewrite Z.mod_mod.
Qed.

Lemma written_packet_ok alloc_ok op seq path t e a : (forall n, alloc_ok n = true) -> message_ok op path t e (Some a) ->
  written_packet alloc_ok op seq (Some path) (mk_selector (Some t) (Some e)) (Some a) = Ok (packet_of (written op seq path t e (Some a))).
Proof.
  intros Hal Hok. pose proof Hok as (Hop & _ & _ & _ & Hpres & Ha & Hlen). destruct (dtf_of_op_message op Hop) as (Hm & _ & _).
  unfold written_packet. rewrite message_write_alloc; [done|done|done|by apply arg_ok_writable|done].
Qed.

Lemma response_can_be_sent seq path t e a : message_ok DICEY_OP_RESPONSE path t e (Some a) -> u32 seq <> 0 ->
  can_send_as_response (packet_of (written DICEY_OP_RESPONSE seq path t e (Some a))) = Ok true.
Proof.
  intros Hok Hseq. unfold can_send_as_response, is_response_msg. destruct (written_payload DICEY_OP_RESPONSE seq path t e (Some a) Hok) as [Hp _].
  rewrite packet_of_valid, written_seq by done. cbn [negb]. destruct (Z.eqb_spec (u32 seq) 0); [done|].
  by destruct (written_as_message DICEY_OP_RESPONSE seq path t e (Some a) Hok) as (v & -> & _).
Qed.

Section replies.
Context {T : Type -> Type} `{Table T}.
#[local] Abbreviation user_request := (Requests.user_request (T := T)).
Context (E : environment (T := T)) (wait_err : option dicey_error) (sem : nat).
Hypothesis Hbuilder : forall n, e_builder_ok E n = true.
Hypothesis Hblock : forall n, e_block_ok E n = true.
Hypothesis Hmalloc : forall n, e_malloc_ok E n = true.
Hypothesis Hasync : e_uv_async_err E = None.

(** The server takes a response. *)
Definition with_response (packet : dicey_packet) (id : Z) (s : dicey_server (T := T)) : dicey_server :=
  set_queue (sv_queue s ++ [mk_loop_request (loop_send_response packet) (Some id) None]) (set_next (S (sv_next s)) s).

Lemma server_takes packet id s : can_send_as_response packet = Ok true -> id <= PTRDIFF_MAX -> dicey_server_send_response E id packet s = (Ok tt, with_response packet id s).
Proof.
  intros Hc Hid. unfold dicey_server_send_response, send_response_with. rewrite Hc. erewrite (sbind_Ok (slift _)); [|reflexivity]. cbn [negb].
  destruct (Z.ltb_spec PTRDIFF_MAX id); [lia|]. unfold submit_new, malloc, sbind, sret. rewrite Hmalloc. cbn.
  unfold dicey_server_submit_request, upd, sbind. by rewrite Hasync.
Qed.

(** A request whose response has not been started. *)
Definition awaits (seq : Z) (path t e : cstr) (u : user_request) : Prop :=
  request_state u = DICEY_REQUEST_STATE_PENDING /\ bs_msg (ur_heap u) = header DICEY_OP_RESPONSE seq path (mk_selector (Some t) (Some e)) None /\
  fresh (ur_heap u) /\ (forall k, (bs_next (ur_heap u) <= k)%nat -> bs_vals (ur_heap u) !! k = None).

(** What is left of it when the response has been sent. *)
Definition replied (u u' : user_request) (packet : dicey_packet) : Prop :=
  ur_req u' = with_rstate DICEY_REQUEST_STATE_COMPLETED (ur_req u) /\ bs_msg (ur_heap u') = zero_mb /\ bs_blocks (ur_heap u') = bs_blocks (ur_heap u) /\
  ur_server u' = with_response packet (rq_client (req_rest (ur_req u))) (ur_server u).

Lemma on_heap_run {A} (m : bst A) (a : A) h (u : user_request) : m (ur_heap u) = (Ok a, h) -> on_heap m u = (Ok a, mk_user_request (ur_req u) h (ur_server u)).
Proof. intros Hm. unfold on_heap. by rewrite Hm. Qed.

Lemma started seq path t e u : awaits seq path t e u ->
  let b := bs_next (ur_heap u) in let h := ur_heap u in
  dicey_request_response_start E b u = (Ok tt, mk_user_request (with_rstate DICEY_REQUEST_STATE_CONSTRUCTING (ur_req u))
    (mk_bstate (with_state (bs_msg h) BUILDER_STATE_VALUE (Some b) (Some b)) (<[b := mk_vb BUILDER_STATE_PENDING (Some (b, 0%nat)) zero_vlist]> (bs_vals h))
      (<[b := [CZero DICEY_TYPE_INVALID]]> (bs_blocks h)) (S b)) (ur_server u)).
Proof.
  intros (Hst & Hm & Hf & Hv) b h. unfold dicey_request_response_start. erewrite (sbind_Ok sget); [|reflexivity].
  erewrite (sbind_Ok (on_heap (dicey_value_builder_is_pending b)) _ u _ u); [|unfold on_heap; cbn; by destruct u]. rewrite (Hv b) by done. rewrite Hst.
  match goal with |- (if ?x then _ else _) u = _ => change x with false end. cbv iota.
  rewrite (sbind_Ok _ _ _ _ _ (is_pending_run u)). rewrite Hm. erewrite (sbind_Ok (sassert _)); [|reflexivity].
  assert (owned_root (bs_msg h) None ∅) as Ho by (unfold owned_root, h; by rewrite Hm).
  rewrite (sbind_Ok _ _ _ _ _ (on_heap_run _ _ _ u (value_start_ok (e_builder_ok E) Hbuilder h b None ∅ (bs_blocks h) Ho ltac:(unfold h; by rewrite Hm) Hf ltac:(apply map_disjoint_empty_l) ltac:(by rewrite (left_id_L ∅ (∪)))))).
  reflexivity.
Qed.

Lemma or_abort_run {A} (m : ust (T := T) A) (a : A) u u' : m u = (Ok a, u') -> or_abort m u = (Ok a, u').
Proof. intros Hm. rewrite or_abort_eq. by rewrite Hm. Qed.

(** A reply in one call. *)
Lemma reply_run seq path t e a u : awaits seq path t e u -> u32 seq <> 0 -> rq_client (req_rest (ur_req u)) <= PTRDIFF_MAX ->
  message_ok DICEY_OP_RESPONSE path t e (Some a) ->
  exists u', dicey_request_reply E wait_err sem a u = (Ok tt, u') /\ replied u u' (packet_of (written DICEY_OP_RESPONSE (u32 seq) path t e (Some a))).
Proof.
  intros Hu Hseq Hid Hok. pose proof Hok as (_ & _ & _ & _ & _ & Ha & _). pose proof Hu as (_ & Hm & Hf & _). set (h := ur_heap u) in *. set (b := bs_next h).
  set (packet := packet_of _). unfold dicey_request_reply, send_reply. erewrite (sbind_Ok sget); [|reflexivity].
  rewrite (sbind_Ok _ _ _ _ _ (started seq path t e u Hu)). fold h b. set (h1 := mk_bstate _ _ _ (S b)).
  destruct (value_builder_set_ok (e_builder_ok E) Hbuilder h1 b b 0%nat zero_vlist [CZero DICEY_TYPE_INVALID] a) as (c & B & n & Es & Hrep & Hr & Hn);
    [apply lookup_insert_eq|split; [apply lookup_insert_eq|by exists DICEY_TYPE_INVALID]|by apply arg_ok_type|by apply (fresh_alloc h)|].
  set (u1 := mk_user_request _ h1 _). erewrite (sbind_Ok (utry _) _ u1 (inr tt)); [|unfold utry; rewrite (on_heap_run _ _ _ u1 Es); reflexivity]. cbv iota.
  destruct (value_end_ok h _ b a c B n (bs_blocks h) (<[b := mk_vb BUILDER_STATE_IDLE (Some (b, 0%nat)) zero_vlist]> (bs_vals h1)) eq_refl) as (h2 & Ee & Hset);
    [exact Hf|done|done|done|].
  pose proof Hset as (p & B' & Hm2 & _).
  destruct (header_value_packet (e_block_ok E) DICEY_OP_RESPONSE seq path (mk_selector (Some t) (Some e)) h h2 a (bs_blocks h) Hm Hset) as [Eb _]; [done..|].
  rewrite written_packet_ok in Eb by done. fold packet in Eb. unfold dicey_request_response_send, finalize_request.
  erewrite (sbind_Ok sget); [|reflexivity].
  match goal with |- context [if ?x then _ else _] => change x with false end. cbv iota.
  erewrite (sbind_Ok (or_abort (on_heap (dicey_message_builder_value_end b)))); [|apply or_abort_run, on_heap_run; exact Ee]. cbn [ur_req ur_server].
  rewrite (sbind_Ok _ _ _ _ _ (is_pending_run _)). cbn [ur_heap]. rewrite Hm2, Hm. erewrite (sbind_Ok (sassert _)); [|reflexivity].
  erewrite (sbind_Ok (or_abort (on_heap _))); [|apply or_abort_run, on_heap_run; exact Eb]. cbn [ur_req ur_server].
  erewrite (sbind_Ok (or_abort (send_by _ _ _ _ _ _))).
  2: { apply or_abort_run. cbn [send_by]. unfold on_server. cbn [ur_server u1]. rewrite server_takes; [reflexivity| |exact Hid]. apply response_can_be_sent; [done|by rewrite u32_u32]. }
  eexists. split; [reflexivity|]. by split_and!.
Qed.

Lemma awaits_heap seq path t e u h : awaits seq path t e u -> bs_msg h = bs_msg (ur_heap u) -> bs_vals h = bs_vals (ur_heap u) -> (bs_next (ur_heap u) <= bs_next h)%nat -> fresh h ->
  awaits seq path t e (mk_user_request (ur_req u) h (ur_server u)).
Proof. intros (Hst & Hm & _ & Hv) Em Ev Hn Hf. split_and!; cbn; [done|by rewrite Em|done|]. intros k Hk. rewrite Ev. apply Hv. lia. Qed.

(** A reply with a value that was received. *)
Lemma existing_run seq path t e v a u : awaits seq path t e u -> u32 seq <> 0 -> rq_client (req_rest (ur_req u)) <= PTRDIFF_MAX ->
  denotes v a -> (pair_depth a <= e_fuel E)%nat -> (forall a', echoed a = inr a' -> message_ok DICEY_OP_RESPONSE path t e (Some a')) ->
  exists u', match echoed a with
    | inl err => dicey_request_reply_with_existing E wait_err sem v u = (Err err, u') /\ ur_req u' = ur_req u /\ ur_server u' = ur_server u
    | inr a' => dicey_request_reply_with_existing E wait_err sem v u = (Ok tt, u') /\ replied u u' (packet_of (written DICEY_OP_RESPONSE (u32 seq) path t e (Some a')))
    end.
Proof.
  intros Hu Hseq Hid Hd Hfuel Hok. pose proof Hu as (_ & _ & Hf & _). set (h := ur_heap u) in *. set (p := bs_next h).
  destruct (borrow_new (e_builder_ok E) v a (e_fuel E) h (borrows_denoted _ Hbuilder a v Hd) Hfuel Hf) as (c & B & n & Eb & Hrep & Hp & Hr & Hn). fold p in Eb, Hp, Hr, Hn.
  set (h1 := mk_bstate _ _ _ n) in Eb. assert (fresh h1) as Hf1 by (apply (fresh_union h); [done|exact Hr|fold p; lia]).
  assert (bs_blocks h ##ₘ <[p := [c]]> B) as Hdis by (by eapply fresh_disjoint).
  assert (bs_blocks h !! p = None) as Hnew by (by apply fresh_None).
  assert (B ##ₘ bs_blocks h) as HdB by (symmetry; by apply map_disjoint_insert_r in Hdis as [_ ?]).
  assert (B ##ₘ <[p := [c]]> (bs_blocks h)) as HdB' by (by apply map_disjoint_insert_r).
  unfold dicey_request_reply_with_existing, reply_with_existing.
  erewrite (sbind_Ok (on_heap local_cell)); [|apply on_heap_run; reflexivity]. fold h p. set (u0 := mk_user_request _ _ _).
  destruct (echoed a) as [err|a'].
  - erewrite (sbind_Ok (utry _) _ u0 (inl err)); [|unfold utry, on_heap; cbn [u0 ur_heap]; change (mk_bstate (bs_msg h) (bs_vals h) _ _) with (with_block h [CZero DICEY_TYPE_INVALID]); rewrite Eb; reflexivity].
    cbv iota. erewrite (sbind_Ok (on_heap (end_local p))); [|apply on_heap_run; apply (bfree_last h (bs_msg h) (bs_vals h) B p c n Hf eq_refl Hp)]. eexists. by split_and!.
  - erewrite (sbind_Ok (utry _) _ u0 (inr tt)); [|unfold utry, on_heap; cbn [u0 ur_heap]; change (mk_bstate (bs_msg h) (bs_vals h) _ _) with (with_block h [CZero DICEY_TYPE_INVALID]); rewrite Eb; reflexivity].
    cbv iota. set (u1 := mk_user_request _ h1 _).
    erewrite (sbind_Ok (on_heap (cell_read _))); [|apply on_heap_run, (cell_read_at h1 p 0 [c] c); [|done]; cbn; rewrite lookup_union_r by done; apply lookup_insert_eq].
    erewrite (sbind_Ok sget); [|reflexivity]. cbn [ur_heap]. erewrite (sbind_Ok (slift _)).
    2: { unfold slift. rewrite (proj1 arg_of_cell_reads B c a' Hrep); [reflexivity| |].
      - unfold free_fuel. cbn. rewrite map_size_disj_union, map_size_insert_None by done. lia.
      - cbn. etrans; [|by apply map_union_subseteq_r]. by apply insert_subseteq. }
    destruct (reply_run seq path t e a' u1) as (u2 & Er & Hq & Hz & Hbl & Hs); [exact (awaits_heap seq path t e u h1 Hu eq_refl eq_refl (Nat.lt_le_incl _ _ Hn) Hf1)|done|done|by apply Hok|].
    erewrite (sbind_Ok (utry _) _ u1 (inr tt)); [|unfold utry; unfold dicey_request_reply in Er; rewrite Er; reflexivity].
    assert (bs_blocks (ur_heap u2) = B ∪ <[p := [c]]> (bs_blocks h)) as Hb2.
    { rewrite Hbl. cbn. rewrite <- !insert_union_r by done. by rewrite (map_union_comm B) by done. }
    erewrite (sbind_Ok (on_heap (free_contents c))).
    2: { apply on_heap_run. apply (proj1 free_contents_frees B c a' Hrep (free_fuel (ur_heap u2)) (<[p := [c]]> (bs_blocks h)) (ur_heap u2)); [|exact HdB'|exact Hb2].
      unfold free_fuel. rewrite Hb2. by apply map_size_union_l. }
    erewrite (sbind_Ok (on_heap (end_local p))); [|apply on_heap_run; apply (bfree_at _ (bs_blocks h) p [c]); done].
    eexists. split; [reflexivity|]. by split_and!.
Qed.

(** ** Requests that the server delivers *)

Lemma response_builder_header seq path sel builder : response_builder seq path sel = Ok builder -> builder = header DICEY_OP_RESPONSE seq path sel None.
Proof.
  unfold response_builder, dicey_message_builder_set_selector. destruct (dicey_selector_is_valid sel) eqn:Hs; cbn; rewrite ?Hs; cbn; [|done]. by intros [= <-].
Qed.

Lemma received_awaits id packet s req s' : dicey_server_request_for id packet s = (Ok req, s') ->
  exists seq path t e v, dicey_packet_get_seq packet = Ok seq /\ dicey_packet_as_message packet = Ok (mk_message (req_op req) (Some path) (mk_selector (Some t) (Some e)) v) /\
    rq_client (req_rest req) = id /\ packet_seq req = seq /\ rq_real_path (req_rest req) = Some path /\
    msg_selector (req_message req) = mk_selector (Some t) (Some e) /\ awaits seq path t e (received req s').
Proof.
  unfold dicey_server_request_for. intros ([] & s1 & _ & H1)%sbind_Ok_inv. apply sbind_Ok_inv in H1 as ([op path [t e] v] & s2 & Hm & H2).
  apply sbind_Ok_inv in H2 as (seq & s3 & Hq & H3). cbn [msg_path] in H3. destruct path as [path|]; [|done].
  apply sbind_Ok_inv in H3 as (elem & s4 & He & H4). destruct elem as [elem|]; [|done].
  apply sbind_Ok_inv in H4 as ([] & s5 & _ & H5). apply sbind_Ok_inv in H5 as (builder & s6 & Hb & H6). apply sbind_Ok_inv in H6 as (main & s7 & _ & H7).
  injection H7 as <- <-. injection Hm as Hm <-. injection Hq as Hq <-. injection Hb as Hb <-. apply response_builder_header in Hb as ->.
  unfold dicey_registry_get_element_from_sel in He. cbn in He. destruct t as [t|], e as [e|]; try done. exists seq, path, t, e, v.
  split_and!; try done. unfold awaits. split_and!; try done. intros k [x Hx]. cbn in Hx. by rewrite lookup_empty in Hx.
Qed.

End replies.

(** A request that is not pending is not replied to. *)
Lemma closed_reply {T : Type -> Type} `{Table T} (E : environment (T := T)) wait_err sem a (u : user_request (T := T)) :
  request_state u = DICEY_REQUEST_STATE_COMPLETED -> (dicey_request_reply E wait_err sem a u).1 = Err DICEY_EINVAL.
Proof.
  intros Hst. unfold dicey_request_reply, send_reply. erewrite (sbind_Ok sget); [|reflexivity]. unfold sbind at 1.
  assert (dicey_request_response_start E (bs_next (ur_heap u)) u = (Err DICEY_EINVAL, u)) as ->; [|done].
  unfold dicey_request_response_start. erewrite (sbind_Ok sget); [|reflexivity].
  erewrite (sbind_Ok (on_heap (dicey_value_builder_is_pending _)) _ u _ u); [|unfold on_heap; cbn; by destruct u]. by rewrite Hst.
Qed.

(** ** Properties *)

(** C19: whatever the user does with a request that the server delivered - builders, replies in one
    call, with and without waiting, resets, the end of the request, in any order and number - and
    whatever the server does meanwhile, at most one response for it goes to the queue of the
    server; if the request is completed, exactly one did. *)
Theorem request_answered_at_most_once {T : Type -> Type} `{Table T} (E : environment (T := T)) wait_err sem id packet s req s' l u :
  dicey_server_request_for id packet s = (Ok req, s') -> request_run E wait_err sem (received req s') l u ->
  (length l <= 1)%nat /\ (request_state u = DICEY_REQUEST_STATE_COMPLETED -> length l = 1%nat).
Proof.
  intros Hreq Hrun. destruct (received_awaits _ _ _ _ _ Hreq) as (seq & path & t & e & v & _ & _ & _ & _ & _ & _ & Hst & _).
  destruct (request_run_answers E wait_err sem _ _ _ Hrun Hst) as (Hl & _ & Hd). done.
Qed.

(** C20: a reply to a request that the server delivered completes it and puts one response in the
    queue of the server, for the client that asked: a message with the number, the path and the
    selector of the request, and the value of the reply. Nothing of the builder is left, and a
    second reply is refused. *)
Theorem reply_correct {T : Type -> Type} `{Table T} (E : environment (T := T)) wait_err sem id packet s req s' a :
  (forall n, e_builder_ok E n = true) -> (forall n, e_block_ok E n = true) -> (forall n, e_malloc_ok E n = true) -> e_uv_async_err E = None ->
  dicey_server_request_for id packet s = (Ok req, s') -> 0 < packet_seq req < 2 ^ 32 -> id <= PTRDIFF_MAX ->
  (forall path t e, msg_selector (req_message req) = mk_selector (Some t) (Some e) -> rq_real_path (req_rest req) = Some path -> message_ok DICEY_OP_RESPONSE path t e (Some a)) ->
  exists u reply v, dicey_request_reply E wait_err sem a (received req s') = (Ok tt, u) /\ request_state u = DICEY_REQUEST_STATE_COMPLETED /\
    sv_queue (ur_server u) = sv_queue s' ++ [mk_loop_request (loop_send_response reply) (Some id) None] /\
    dicey_packet_get_seq reply = dicey_packet_get_seq packet /\
    dicey_packet_as_message reply = Ok (mk_message DICEY_OP_RESPONSE (rq_real_path (req_rest req)) (msg_selector (req_message req)) v) /\ denotes v a /\
    bs_blocks (ur_heap u) = ∅ /\ forall a', (dicey_request_reply E wait_err sem a' u).1 = Err DICEY_EINVAL.
Proof.
  intros HE HB HM HA Hreq Hseq Hid Hok. destruct (received_awaits _ _ _ _ _ Hreq) as (seq & path & t & e & v0 & Hq & _ & Hcl & Hs & Hp & Hsel & Hu).
  specialize (Hok path t e Hsel Hp). rewrite Hs in Hseq. assert (u32 seq = seq) as Eseq by (unfold u32, wrap; rewrite Z.mod_small by lia; done).
  destruct (reply_run E wait_err sem HE HB HM HA seq path t e a _ Hu) as (u & Er & Hreq' & Hz & Hbl & Hsrv); [lia|cbn; by rewrite Hcl|done|]. rewrite Eseq in Hsrv.
  destruct (written_as_message DICEY_OP_RESPONSE seq path t e (Some a) Hok) as (v & Hv & Hd).
  assert (request_state u = DICEY_REQUEST_STATE_COMPLETED) as Hst by (unfold request_state; by rewrite Hreq').
  exists u, (packet_of (written DICEY_OP_RESPONSE seq path t e (Some a))), v. rewrite Hp, Hsel, Hq, written_seq, Eseq by done.
  split_and!; try done.
  - rewrite Hsrv. cbn. by rewrite Hcl.
  - intros a'. by apply closed_reply.
Qed.

(** What a reply with a value that was received does, for every value: it sends what [echoed] makes of
    it, or fails and leaves the request pending. *)
Lemma existing_reply_run {T : Type -> Type} `{Table T} (E : environment (T := T)) wait_err sem id packet s req s' v a :
  (forall n, e_builder_ok E n = true) -> (forall n, e_block_ok E n = true) -> (forall n, e_malloc_ok E n = true) -> e_uv_async_err E = None ->
  dicey_server_request_for id packet s = (Ok req, s') -> 0 < packet_seq req < 2 ^ 32 -> id <= PTRDIFF_MAX ->
  denotes v a -> (pair_depth a <= e_fuel E)%nat ->
  (forall path t e a', msg_selector (req_message req) = mk_selector (Some t) (Some e) -> rq_real_path (req_rest req) = Some path -> echoed a = inr a' ->
     message_ok DICEY_OP_RESPONSE path t e (Some a')) ->
  match echoed a with
  | inl err => exists u, dicey_request_reply_with_existing E wait_err sem v (received req s') = (Err err, u) /\
      request_state u = DICEY_REQUEST_STATE_PENDING /\ sv_queue (ur_server u) = sv_queue s'
  | inr a' => exists u reply w, dicey_request_reply_with_existing E wait_err sem v (received req s') = (Ok tt, u) /\
      request_state u = DICEY_REQUEST_STATE_COMPLETED /\ sv_queue (ur_server u) = sv_queue s' ++ [mk_loop_request (loop_send_response reply) (Some id) None] /\
      dicey_packet_get_seq reply = dicey_packet_get_seq packet /\
      dicey_packet_as_message reply = Ok (mk_message DICEY_OP_RESPONSE (rq_real_path (req_rest req)) (msg_selector (req_message req)) w) /\ denotes w a' /\
      bs_blocks (ur_heap u) = ∅
  end.
Proof.
  intros HE HB HM HA Hreq Hseq Hid Hv Hfuel Hok. destruct (received_awaits _ _ _ _ _ Hreq) as (seq & path & t & e & v0 & Hq & _ & Hcl & Hs & Hp & Hsel & Hu).
  rewrite Hs in Hseq. assert (u32 seq = seq) as Eseq by (unfold u32, wrap; rewrite Z.mod_small by lia; done).
  destruct (existing_run E wait_err sem HE HB HM HA seq path t e v a _ Hu ltac:(lia) ltac:(cbn; by rewrite Hcl) Hv Hfuel (fun a' => Hok path t e a' Hsel Hp)) as (u & Hrun).
  destruct (echoed a) as [err|a'] eqn:Ea.
  - destruct Hrun as (Er & Hr & Hsrv). exists u. split_and!; [done| |by rewrite Hsrv]. unfold request_state. rewrite Hr. apply Hu.
  - destruct Hrun as (Er & Hr & Hz & Hbl & Hsrv). rewrite Eseq in Hsrv. specialize (Hok path t e a' Hsel Hp eq_refl).
    destruct (written_as_message DICEY_OP_RESPONSE seq path t e (Some a') Hok) as (w & Hw & Hd).
    exists u, (packet_of (written DICEY_OP_RESPONSE seq path t e (Some a'))), w. rewrite Hp, Hsel, Hq, written_seq, Eseq by done.
    split_and!; try done; [unfold request_state; by rewrite Hr|]. rewrite Hsrv. cbn. by rewrite Hcl.
Qed.

(** C21: a reply with a value that was received, without arrays and tuples and with booleans that are 0
    or 1, completes the request and queues one response for the client that asked, with the number,
    path and selector of the request and the same value; everything that was allocated on the way is
    released. (Lists are not sent back as they are: [lists_lose_elements].) Memory is available, the
    loop can be woken, and the response fits in a message. *)
Theorem existing_reply_correct {T : Type -> Type} `{Table T} (E : environment (T := T)) wait_err sem id packet s req s' v a :
  (forall n, e_builder_ok E n = true) -> (forall n, e_block_ok E n = true) -> (forall n, e_malloc_ok E n = true) -> e_uv_async_err E = None ->
  dicey_server_request_for id packet s = (Ok req, s') -> 0 < packet_seq req < 2 ^ 32 -> id <= PTRDIFF_MAX ->
  denotes v a -> listless a = true -> (pair_depth a <= e_fuel E)%nat ->
  (forall path t e, msg_selector (req_message req) = mk_selector (Some t) (Some e) -> rq_real_path (req_rest req) = Some path -> message_ok DICEY_OP_RESPONSE path t e (Some a)) ->
  exists u reply w, dicey_request_reply_with_existing E wait_err sem v (received req s') = (Ok tt, u) /\
    request_state u = DICEY_REQUEST_STATE_COMPLETED /\ sv_queue (ur_server u) = sv_queue s' ++ [mk_loop_request (loop_send_response reply) (Some id) None] /\
    dicey_packet_get_seq reply = dicey_packet_get_seq packet /\
    dicey_packet_as_message reply = Ok (mk_message DICEY_OP_RESPONSE (rq_real_path (req_rest req)) (msg_selector (req_message req)) w) /\ denotes w a /\
    bs_blocks (ur_heap u) = ∅.
Proof.
  intros HE HB HM HA Hreq Hseq Hid Hv Hl Hfuel Hok. destruct (received_awaits _ _ _ _ _ Hreq) as (seq & path & t & e & v0 & _ & _ & _ & _ & Hp & Hsel & _).
  pose proof (Hok path t e Hsel Hp) as (H1 & H2 & H3 & H4 & H5 & Ha & Hz). pose proof (header_len_pos path t e). cbn [value_bytes] in Hz.
  assert (zlen (encode_variant a) = 1 + zlen (encode_content a)) as Hlen by (unfold encode_variant, encode_item; cbn [is_variant]; by rewrite zlen_app).
  destruct (echoed_listless a Ha Hl ltac:(change MESSAGE_HEAD_SIZE with 12 in *; lia)) as (a' & Ea & Ha' & Hty & Hc & Hd).
  pose proof (existing_reply_run E wait_err sem id packet s req s' v a HE HB HM HA Hreq Hseq Hid Hv Hfuel) as Hrun. rewrite Ea in Hrun.
  destruct Hrun as (u & reply & w & R1 & R2 & R3 & R4 & R5 & R6 & R7).
  - intros path' t' e' a'' Hsel' Hp' [= <-]. destruct (Hok path' t' e' Hsel' Hp') as (G1 & G2 & G3 & G4 & G5 & _ & Gz). unfold message_ok. split_and!; try done.
    cbn [value_bytes] in *. unfold encode_variant, encode_item in *. by rewrite Hc, Hty.
  - exists u, reply, w. split_and!; try done. by apply Hd.
Qed.

(** *** A request to the sample server *)

Definition sample_request_packet : dicey_packet := sample_message DICEY_OP_GET 2 path_b.
Definition sample_request : request :=
  match (dicey_server_request_for 0 sample_request_packet sample_server).1 with Ok req => req | _ => mk_request 0 DICEY_OP_INVALID zero_message zero_rest end.

Lemma sample_request_ok : dicey_server_request_for 0 sample_request_packet sample_server = (Ok sample_request, sample_server).
Proof. vm_compute. reflexivity. Qed.

Lemma sample_answer_ok path t e a : arg_ok a -> header_len path_b name_t [112] + zlen (value_bytes (Some a)) <= UINT32_MAX ->
  msg_selector (req_message sample_request) = mk_selector (Some t) (Some e) -> rq_real_path (req_rest sample_request) = Some path -> message_ok DICEY_OP_RESPONSE path t e (Some a).
Proof.
  intros Ha Hl Hs Hp. vm_compute in Hs, Hp. injection Hs as <- <-. injection Hp as <-. unfold message_ok. split_and!; try done; repeat constructor; lia.
Qed.

Lemma request_answered_at_most_once_witness :
  exists l u, request_run sample_env None 0 (received sample_request sample_server) l u /\ request_state u = DICEY_REQUEST_STATE_COMPLETED /\ length l = 1%nat.
Proof.
  set (u := (dicey_request_reply sample_env None 0 (ArgU16 7) (received sample_request sample_server)).2).
  assert (request_run sample_env None 0 (received sample_request sample_server) ([] ++ queued u) u) as Hrun.
  { eapply run_more; [apply run_start|]. eapply (reply_call _ _ _ REPLY_POLICY_ASYNC (ArgU16 7) _ (Ok tt)); [vm_compute; reflexivity|exact I|vm_compute; reflexivity]. }
  exists ([] ++ queued u), u. split; [exact Hrun|].
  destruct (request_answered_at_most_once sample_env None 0 0 sample_request_packet sample_server sample_request sample_server _ _ sample_request_ok Hrun) as [_ Hd].
  assert (request_state u = DICEY_REQUEST_STATE_COMPLETED) as Hst by (vm_compute; reflexivity). split; [exact Hst|exact (Hd Hst)].
Defined.

Lemma reply_correct_witness :
  exists u reply v, dicey_request_reply sample_env None 0 (ArgU16 7) (received sample_request sample_server) = (Ok tt, u) /\
    sv_queue (ur_server u) = [mk_loop_request (loop_send_response reply) (Some 0) None] /\ denotes v (ArgU16 7).
Proof.
  destruct (reply_correct sample_env None 0 0 sample_request_packet sample_server sample_request sample_server (ArgU16 7)) as (u & reply & v & Hr & _ & Hq & _ & _ & Hd & _).
  - reflexivity.
  - reflexivity.
  - reflexivity.
  - reflexivity.
  - exact sample_request_ok.
  - vm_compute. split; reflexivity.
  - vm_compute. discriminate.
  - intros path t e Hs Hp. apply sample_answer_ok; [split; vm_compute; congruence|vm_compute; discriminate|exact Hs|exact Hp].
  - exists u, reply, v. split_and!; [exact Hr|exact Hq|exact Hd].
Defined.

(** A pair as it is received: of two numbers, and of a number and a list. *)
Definition echo_packet (a : dicey_arg) : dicey_packet :=
  match written_packet (fun _ => true) DICEY_OP_SET 2 (Some path_b) sample_selector (Some a) with Ok p => p | _ => DICEY_EMPTY_PACKET end.
Definition echo_value (a : dicey_arg) : dicey_value := match dicey_packet_as_message (echo_packet a) with Ok m => msg_value m | _ => zero_value end.

Definition two_numbers : dicey_arg := ArgPair (ArgU16 7) (ArgPair (ArgStr (Some [104; 105])) (ArgBool 1)).
Definition number_and_list : dicey_arg := ArgPair (ArgU16 7) (ArgTuple [ArgByte 1; ArgByte 2]).

Lemma echo_value_denotes a : message_ok DICEY_OP_SET path_b name_t [112] (Some a) ->
  echo_packet a = packet_of (written DICEY_OP_SET 2 path_b name_t [112] (Some a)) -> denotes (echo_value a) a.
Proof.
  intros Hok Hp. destruct (written_as_message DICEY_OP_SET 2 path_b name_t [112] (Some a) Hok) as (v & Hv & Hd).
  unfold echo_value. by rewrite Hp, Hv.
Qed.

Lemma existing_reply_correct_witness :
  exists u reply w, dicey_request_reply_with_existing sample_env None 0 (echo_value two_numbers) (received sample_request sample_server) = (Ok tt, u) /\
    sv_queue (ur_server u) = [mk_loop_request (loop_send_response reply) (Some 0) None] /\ denotes w two_numbers.
Proof.
  assert (arg_ok two_numbers) as Hok by (cbn; unfold in_unsigned, cstr_small, cstr_ok; split_and!; try lia; try done; repeat constructor; lia).
  destruct (existing_reply_correct sample_env None 0 0 sample_request_packet sample_server sample_request sample_server (echo_value two_numbers) two_numbers)
    as (u & reply & w & Hr & _ & Hq & _ & _ & Hd & _).
  - reflexivity.
  - reflexivity.
  - reflexivity.
  - reflexivity.
  - exact sample_request_ok.
  - vm_compute. split; reflexivity.
  - vm_compute. discriminate.
  - apply echo_value_denotes; [|vm_compute; reflexivity]. unfold message_ok. split_and!; try done; repeat constructor; lia.
  - reflexivity.
  - cbn. lia.
  - intros path t e Hs Hp. apply sample_answer_ok; [exact Hok|vm_compute; discriminate|exact Hs|exact Hp].
  - exists u, reply, w. split_and!; [exact Hr|exact Hq|exact Hd].
Defined.

(** A list is sent without its elements. *)
Lemma lists_lose_elements :
  exists u reply w, dicey_request_reply_with_existing sample_env None 0 (echo_value number_and_list) (received sample_request sample_server) = (Ok tt, u) /\
    sv_queue (ur_server u) = [mk_loop_request (loop_send_response reply) (Some 0) None] /\ denotes w (ArgPair (ArgU16 7) (ArgTuple [])).
Proof.
  pose proof (existing_reply_run sample_env None 0 0 sample_request_packet sample_server sample_request sample_server (echo_value number_and_list) number_and_list) as Hx.
  cbn [echoed number_and_list] in Hx. destruct Hx as (u & reply & w & Hr & _ & Hq & _ & _ & Hd & _).
  - reflexivity.
  - reflexivity.
  - reflexivity.
  - reflexivity.
  - exact sample_request_ok.
  - vm_compute. split; reflexivity.
  - vm_compute. discriminate.
  - apply echo_value_denotes; [|vm_compute; reflexivity]. unfold message_ok. split_and!; try done; try (repeat constructor; lia); cbn; unfold in_unsigned; split_and!; (lia || done).
  - cbn. lia.
  - intros path t e a' Hs Hp [= <-]. apply sample_answer_ok; [cbn; unfold in_unsigned; split_and!; (lia || done)|vm_compute; discriminate|exact Hs|exact Hp].
  - exists u, reply, w. split_and!; [exact Hr|exact Hq|exact Hd].
Qed.
