(* ===== verification/RequestsFindings.v ===== *)
(** * What the model of requests shows

    Replies that report success without sending anything, memory that is lost, and a packet that is
    freed while it is in the queue (src/ipc/server/request.c, src/wirefmt/packet-args.c). *)

From stdpp Require Import gmap list.
From S2P Require Import Prelude Errors Moves Types Views Writer ValueWrite ValueProbe Value Codec Payload Packet.
From S2P Require Import Builders BuildersTheorems Borrowed Table PendingReqs RegistryTheorems Server ServerScenario Requests RequestsTheorems RequestsReplies.

#[local] Open Scope list_scope.
#[local] Open Scope Z_scope.

(** When the value of a reply cannot be set, the caller gets the result of the reset: the reply reports success, and nothing was sent. *)
Lemma failed_reply_reports_success {T : Type -> Type} `{Table T} (E : environment (T := T)) wait_err sem seq path t e (u : user_request (T := T)) a :
  (forall n, e_builder_ok E n = true) -> awaits seq path t e u -> dicey_type_is_valid (arg_type a) = false ->
  exists u', dicey_request_reply E wait_err sem a u = (Ok tt, u') /\ request_state u' = DICEY_REQUEST_STATE_PENDING /\ ur_server u' = ur_server u.
Proof.
  intros HE Hu Ha. unfold dicey_request_reply, send_reply. erewrite (sbind_Ok sget); [|reflexivity].
  rewrite (sbind_Ok _ _ _ _ _ (started E HE seq path t e u Hu)). set (b := bs_next (ur_heap u)). set (h := mk_bstate _ _ _ (S b)). set (u1 := mk_user_request _ h _).
  assert (dicey_value_builder_set (e_builder_ok E) b a h = (Err DICEY_EINVAL, h)) as Es.
  { unfold dicey_value_builder_set, get_val. cbn [sbind bs_vals h]. rewrite lookup_insert_eq, Ha. reflexivity. }
  erewrite (sbind_Ok (utry _) _ u1 (inl DICEY_EINVAL) u1); [|unfold utry, on_heap; cbn [ur_heap u1]; rewrite Es; reflexivity]. cbv iota.
  unfold dicey_request_response_reset. erewrite (sbind_Ok sget); [|reflexivity]. match goal with |- context [if ?x then _ else _] => change x with false end. cbv iota.
  rewrite (sbind_Ok _ _ _ _ _ (is_pending_run u1)). erewrite (sbind_Ok (sassert _)); [|reflexivity].
  assert (dicey_message_builder_value_end b h = (Ok tt, mk_bstate (with_state (bs_msg h) BUILDER_STATE_PENDING (Some b) None) (<[b := zero_vb]> (bs_vals h)) (bs_blocks h) (bs_next h))) as Ee.
  { unfold dicey_message_builder_value_end. cbn [sbind sget bs_msg h with_state mb_state mb_borrowed_to]. rewrite !bool_decide_true by done. reflexivity. }
  rewrite (sbind_Ok _ _ _ _ _ (on_heap_run _ _ _ u1 Ee)). eexists. by split_and!.
Qed.

(** Converting an empty list fails, and loses the block that was allocated for its elements. *)
Definition empty_tuple_value : dicey_value := mk_value DICEY_TYPE_TUPLE (InfoList DICEY_VARIANT_ID 0 (vw [] [])).

Lemma empty_list_leaks :
  denotes empty_tuple_value (ArgTuple []) /\
  let '(r, h) := dicey_arg_from_borrowed_value (fun _ => true) 3 (0%nat, 0%nat) empty_tuple_value (with_block empty_heap [CZero DICEY_TYPE_INVALID]) in
  r = Err DICEY_EINVAL /\ is_Some (bs_blocks h !! 1%nat).
Proof. split; [apply (den_tuple []); by constructor|]. vm_compute. split; [reflexivity|by eexists]. Qed.

(** When the loop cannot be woken the response is in the queue, but the request is aborted and its packet is freed. *)
Definition no_wakeup_env : environment (T := map_ptr) :=
  mk_env (fun _ => true) (fun _ => true) (fun _ => true) (fun _ => true) (fun _ => None) (fun _ => None) (fun _ => None) (fun _ => None) (Some DICEY_EUV_UNKNOWN)
    (Some (fun _ => (DICEY_REQUEST_STATE_PENDING, []))) (fun _ => true) [] (fun _ => sfault NullDeref) (fun _ _ => sfault NullDeref) 100.

Lemma freed_packet_in_queue :
  let '(r, u) := dicey_request_reply no_wakeup_env None 0 (ArgU16 7) (received sample_request sample_server) in
  r = Err DICEY_EUV_UNKNOWN /\ request_state u = DICEY_REQUEST_STATE_ABORTED /\ length (sv_queue (ur_server u)) = 1%nat.
Proof. vm_compute. split_and!; reflexivity. Qed.
