(* ===== verification/Introspection.v ===== *)
(** * Introspection of the registry (src/ipc/server/builtins/introspection/)

    The answers to questions about the registry, built call by call with the message and value
    builders: whether paths, elements and traits exist, which paths, objects and traits there are,
    the description of an object and of the elements of a trait. The registry is only read. *)

From S2P Require Import Prelude Errors Types Views Writer ValueWrite ValueProbe Value Codec Payload Packet Typedescr ValueValidate.
From S2P Require Import Hashtable PendingReqs Table Traits Registry Clients Chunk Builders BuildersTheorems Names Server.
From stdpp Require Import strings gmap list.

#[local] Open Scope list_scope.
#[local] Open Scope Z_scope.

(** The letter of a kind of element. *)
Definition element_type_code (type : dicey_element_type) : Z :=
  match type with
  | DICEY_ELEMENT_TYPE_INVALID => 0
  | DICEY_ELEMENT_TYPE_OPERATION => 79
  | DICEY_ELEMENT_TYPE_PROPERTY => 80
  | DICEY_ELEMENT_TYPE_SIGNAL => 83
  end.

Inductive pathlist_policy : Type :=
  | PATHLIST_ALL
  | PATHLIST_NO_ALIASES.

Section introspection.
Context {T : Type -> Type} `{Table T}.

(** Which allocations of the builders succeed, and the registry. *)
Variable alloc_ok : nat -> bool.
Variable calloc_ok : Z -> bool.
Variable registry : dicey_registry (T := T).

#[local] Abbreviation next := (dicey_value_builder_next alloc_ok).
#[local] Abbreviation set := (dicey_value_builder_set alloc_ok).
#[local] Abbreviation build := (dicey_message_builder_build calloc_ok).

(** A lookup in the registry. *)
Definition look {A} (m : rst (T := T) A) : bst A := slift (m registry).1.

(** ... whose error is examined by the caller. *)
Definition look_err {A} (m : rst (T := T) A) : bst (dicey_error + A) :=
  slift (match (m registry).1 with Ok a => Ok (inr a) | Err e => Ok (inl e) | Fault f => Fault f | OutOfFuel => OutOfFuel end).

(** ** Answers (commons.c, registry.c) *)

Definition introspection_init_builder (path trait_name elem_name : cstr) : bst unit :=
  dicey_message_builder_init ;;!
  clean_up (dicey_message_builder_begin DICEY_OP_RESPONSE ;;! dicey_message_builder_set_path path ;;!
    dicey_message_builder_set_selector (mk_selector (Some trait_name) (Some elem_name))).

Definition bool_arg (b : bool) : dicey_arg := ArgBool (if b then 1 else 0).

Definition craft_bool_response (value : bool) (path trait elem : cstr) : bst dicey_packet :=
  clean_up (introspection_init_builder path trait elem ;;!
    dicey_message_builder_set_value alloc_ok (bool_arg value) ;;!
    build).

(** The loop over the paths: value builder 1 is the element of the list of value builder 0. *)
Fixpoint add_paths (policy : pathlist_policy) (paths : list (cstr * path_cell)) : bst unit :=
  match paths with
  | [] => sret tt
  | (path, _) :: paths' =>
      do! skip <- match policy with
                  | PATHLIST_ALL => sret false
                  | PATHLIST_NO_ALIASES =>
                      do! e <- look_err (dicey_registry_is_alias path) ; sret (match e with inr _ => true | inl _ => false end)
                  end ;
      (if skip : bool then sret tt else next 0%nat 1%nat ;;! set 1%nat (ArgPath (Some path))) ;;!
      add_paths policy paths'
  end.

Definition craft_pathlist (policy : pathlist_policy) : bst dicey_packet :=
  clean_up (introspection_init_builder DICEY_REGISTRY_PATH DICEY_REGISTRY_TRAIT_NAME DICEY_REGISTRY_OBJECTS_PROP_NAME ;;!
    dicey_message_builder_value_start alloc_ok 0 ;;!
    dicey_value_builder_array_start 0 DICEY_TYPE_PATH ;;!
    (do! paths <- slift (tbl_entries (rg_paths registry)) ; add_paths policy paths) ;;!
    dicey_value_builder_array_end 0 ;;!
    dicey_message_builder_value_end 0 ;;!
    build).

(** ** The description of an object *)

Definition populate_element_kind (type : dicey_element_type) (value : nat) : bst unit := set value (ArgByte (element_type_code type)).

(** [flags & READONLY], converted to a boolean. *)
Definition is_readonly (element : dicey_element) : bool := negb (Z.land (el_flags element) DICEY_ELEMENT_READONLY =? 0).

Definition populate_element_struct (element : dicey_element) (value : nat) : bst unit :=
  dicey_value_builder_tuple_start value ;;!
  next value (S value) ;;! populate_element_kind (el_type element) (S value) ;;!
  next value (S value) ;;! set (S value) (ArgStr (el_signature element)) ;;!
  (if bool_decide (el_type element = DICEY_ELEMENT_TYPE_PROPERTY)
   then next value (S value) ;;! set (S value) (bool_arg (is_readonly element))
   else sret tt) ;;!
  dicey_value_builder_tuple_end value.

Definition populate_element_entry (name : cstr) (element : dicey_element) (value : nat) : bst unit :=
  dicey_value_builder_pair_start value ;;!
  next value (S value) ;;! set (S value) (ArgStr (Some name)) ;;!
  next value (S value) ;;! populate_element_struct element (S value) ;;!
  dicey_value_builder_pair_end alloc_ok value.

Fixpoint add_elements (elems : list (cstr * dicey_element)) (value : nat) : bst unit :=
  match elems with
  | [] => sret tt
  | (name, elem) :: elems' =>
      (if negb (Z.land (el_flags elem) DICEY_ELEMENT_INTERNAL =? 0) then sret tt
       else next value (S value) ;;! populate_element_entry name elem (S value)) ;;!
      add_elements elems' value
  end.

Definition populate_trait_element_list (trait : dicey_trait (T := T)) (value : nat) : bst unit :=
  dicey_value_builder_array_start value DICEY_TYPE_PAIR ;;!
  (do! elems <- slift (dicey_trait_iter_all (Some trait)) ; add_elements elems value) ;;!
  dicey_value_builder_array_end value.

Definition populate_trait_entry (trait : dicey_trait (T := T)) (name : cstr) (value : nat) : bst unit :=
  dicey_value_builder_pair_start value ;;!
  next value (S value) ;;! set (S value) (ArgStr (Some name)) ;;!
  next value (S value) ;;! populate_trait_element_list trait (S value) ;;!
  dicey_value_builder_pair_end alloc_ok value.

(** [dicey_registry_get_trait]: the trait, which must be in memory. *)
Definition find_trait (name : cstr) : rst (T := T) (option (dicey_trait (T := T))) :=
  do! t <- dicey_registry_get_trait name ;
  match t with None => sret None | Some t => do! tr <- trait_read t ; sret (Some tr) end.

Fixpoint add_traits (traits : list (cstr * unit)) (dest : nat) : bst unit :=
  match traits with
  | [] => sret tt
  | (trait_name, _) :: traits' =>
      do! trait <- look (find_trait trait_name) ;
      match trait with
      | None => sfault AssertFailed
      | Some trait => next dest (S dest) ;;! populate_trait_entry trait trait_name (S dest) ;;! add_traits traits' dest
      end
  end.

Definition populate_object_traitlist (trait_list : T unit) (dest : nat) : bst unit :=
  sassert (negb (tbl_is_null trait_list)) ;;!
  dicey_value_builder_array_start dest DICEY_TYPE_PAIR ;;!
  (do! traits <- slift (tbl_entries trait_list) ; add_traits traits dest) ;;!
  dicey_value_builder_array_end dest.

(** ** Questions with a yes or no *)

Definition introspection_check_element_exists (path : cstr) (sel : dicey_selector) : bst dicey_packet :=
  match trait sel, elem sel with
  | Some t, Some e =>
      do! exists_ <- look (dicey_registry_contains_element path t e) ;
      craft_bool_response exists_ DICEY_REGISTRY_PATH DICEY_REGISTRY_TRAIT_NAME DICEY_REGISTRY_ELEMENT_EXISTS_OP_NAME
  | _, _ => sfault AssertFailed
  end.

Definition introspection_check_path_exists (path : cstr) : bst dicey_packet :=
  do! exists_ <- look (dicey_registry_contains_object path) ;
  craft_bool_response exists_ DICEY_REGISTRY_PATH DICEY_REGISTRY_TRAIT_NAME DICEY_REGISTRY_PATH_EXISTS_OP_NAME.

Definition introspection_check_path_is_alias (path : cstr) : bst dicey_packet :=
  do! e <- look_err (dicey_registry_is_alias path) ;
  match e with
  | inr _ => craft_bool_response true DICEY_REGISTRY_PATH DICEY_REGISTRY_TRAIT_NAME DICEY_REGISTRY_PATH_IS_ALIAS_OP_NAME
  | inl DICEY_EPATH_NOT_ALIAS =>
      craft_bool_response false DICEY_REGISTRY_PATH DICEY_REGISTRY_TRAIT_NAME DICEY_REGISTRY_PATH_IS_ALIAS_OP_NAME
  | inl err => sfail err
  end.

Definition introspection_check_trait_exists (trait : cstr) : bst dicey_packet :=
  do! exists_ <- look (dicey_registry_contains_trait trait) ;
  craft_bool_response exists_ DICEY_REGISTRY_PATH DICEY_REGISTRY_TRAIT_NAME DICEY_REGISTRY_TRAIT_EXISTS_OP_NAME.

(** ** Lists *)

Definition introspection_craft_objlist : bst dicey_packet := craft_pathlist PATHLIST_NO_ALIASES.

Definition introspection_craft_pathlist : bst dicey_packet := craft_pathlist PATHLIST_ALL.

Fixpoint add_names (names : list (cstr * nat)) : bst unit :=
  match names with
  | [] => sret tt
  | (name, _) :: names' => next 0%nat 1%nat ;;! set 1%nat (ArgStr (Some name)) ;;! add_names names'
  end.

Definition introspection_craft_traitlist : bst dicey_packet :=
  introspection_init_builder DICEY_REGISTRY_PATH DICEY_REGISTRY_TRAIT_NAME DICEY_REGISTRY_TRAITS_PROP_NAME ;;!
  clean_up (dicey_message_builder_value_start alloc_ok 0 ;;!
    dicey_value_builder_array_start 0 DICEY_TYPE_STR ;;!
    (do! names <- slift (tbl_entries (rg_traits registry)) ; add_names names) ;;!
    dicey_value_builder_array_end 0 ;;!
    dicey_message_builder_value_end 0 ;;!
    build).

Definition introspection_dump_object (path : cstr) : bst dicey_packet :=
  do! obj <- look (do! o <- dicey_registry_get_object path ;
                   match o with None => sret None | Some o => do! ob <- obj_read o ; sret (Some ob) end) ;
  match obj with
  | None => sfail DICEY_ENOENT
  | Some obj =>
      clean_up (introspection_init_builder path DICEY_INTROSPECTION_TRAIT_NAME DICEY_INTROSPECTION_DATA_PROP_NAME ;;!
        dicey_message_builder_value_start alloc_ok 0 ;;!
        populate_object_traitlist (ob_traits obj) 0 ;;!
        dicey_message_builder_value_end 0 ;;!
        build)
  end.

(** The text libxml2 makes of the object is [object_xml], if it makes one. *)
Definition introspection_dump_xml (object_xml : option cstr) (path : cstr) : bst dicey_packet :=
  do! obj <- look (dicey_registry_get_object_mut path) ;
  match obj, object_xml with
  | None, _ => sfail DICEY_EPATH_NOT_FOUND
  | Some _, None => sfail DICEY_ENOMEM
  | Some _, Some xml =>
      clean_up (introspection_init_builder path DICEY_INTROSPECTION_TRAIT_NAME DICEY_INTROSPECTION_XML_PROP_NAME ;;!
        dicey_message_builder_value_start alloc_ok 0 ;;!
        set 0%nat (ArgStr (Some xml)) ;;!
        dicey_message_builder_value_end 0 ;;!
        build)
  end.

(** An error leaves the builder as it is. *)
Definition introspection_get_real_path (path : cstr) : bst dicey_packet :=
  do! real_path <- look (dicey_registry_get_main_path path) ;
  match real_path with
  | None => sfail DICEY_EPATH_NOT_FOUND
  | Some real_path =>
      introspection_init_builder path DICEY_REGISTRY_TRAIT_NAME DICEY_REGISTRY_REAL_PATH_OP_NAME ;;!
      dicey_message_builder_value_start alloc_ok 0 ;;!
      set 0%nat (ArgPath (Some real_path)) ;;!
      dicey_message_builder_value_end 0 ;;!
      build
  end.

(** ** The elements of a trait (traits.c) *)

Definition prop_for (op_kind : dicey_element_type) : option cstr :=
  match op_kind with
  | DICEY_ELEMENT_TYPE_OPERATION => Some DICEY_TRAIT_OPERATIONS_PROP_NAME
  | DICEY_ELEMENT_TYPE_PROPERTY => Some DICEY_TRAIT_PROPERTIES_PROP_NAME
  | DICEY_ELEMENT_TYPE_SIGNAL => Some DICEY_TRAIT_SIGNALS_PROP_NAME
  | DICEY_ELEMENT_TYPE_INVALID => None
  end.

Definition populate_named_element (name : cstr) (element : dicey_element) (value : nat) : bst unit :=
  dicey_value_builder_tuple_start value ;;!
  next value (S value) ;;! set (S value) (ArgStr (Some name)) ;;!
  next value (S value) ;;! set (S value) (ArgStr (el_signature element)) ;;!
  (if bool_decide (el_type element = DICEY_ELEMENT_TYPE_PROPERTY)
   then next value (S value) ;;! set (S value) (bool_arg (is_readonly element))
   else sret tt) ;;!
  dicey_value_builder_tuple_end value.

(** Every element takes a place in the list; only those of the kind fill it. *)
Fixpoint add_filtered (op_kind : dicey_element_type) (elems : list (cstr * dicey_element)) : bst unit :=
  match elems with
  | [] => sret tt
  | (name, elem) :: elems' =>
      next 0%nat 1%nat ;;!
      (if bool_decide (el_type elem = op_kind) then populate_named_element name elem 1 else sret tt) ;;!
      add_filtered op_kind elems'
  end.

(** The builder is discarded at the end in any case. *)
Definition introspection_craft_filtered_elemlist (path trait_name : cstr) (op_kind : dicey_element_type) : bst dicey_packet :=
  do! trait <- look (find_trait trait_name) ;
  match trait, prop_for op_kind with
  | None, _ => sfail DICEY_ENOENT
  | Some _, None => sfault AssertFailed
  | Some trait, Some prop =>
      introspection_init_builder path DICEY_TRAIT_TRAIT_NAME prop ;;!
      do! packet <- clean_up (dicey_message_builder_value_start alloc_ok 0 ;;!
        dicey_value_builder_array_start 0 DICEY_TYPE_TUPLE ;;!
        (do! elems <- slift (dicey_trait_iter_all (Some trait)) ; add_filtered op_kind elems) ;;!
        dicey_value_builder_array_end 0 ;;!
        dicey_message_builder_value_end 0 ;;!
        build) ;
      dicey_message_builder_discard ;;! sret packet
  end.

(** ** Dispatch (definitions.c) *)

(** What follows the last slash. *)
Fixpoint after_last_slash (path rest : cstr) : cstr :=
  match path with
  | [] => rest
  | c :: path' => after_last_slash path' (if c =? 47 then path' else rest)
  end.

Definition validate_metatrait_name (path : cstr) : res cstr :=
  if negb (bool_decide (take (length METATRAITS_PREFIX) path = METATRAITS_PREFIX)) then Err DICEY_EINVAL else
  let name := after_last_slash path path in
  if zlen name <? 1 then Err DICEY_EPATH_MALFORMED else Ok name.

(** A value of signature "(@%)" and nothing more. *)
Definition value_get_element_info (value : dicey_value) : res (option cstr * dicey_selector) :=
  let! tuple := dicey_value_get_tuple value in
  let '(r, iter) := (do! path_value <- dicey_iterator_next ;
                     do! path <- slift (dicey_value_get_path path_value) ;
                     do! selector_value <- dicey_iterator_next ;
                     do! sel <- slift (dicey_value_get_selector selector_value) ;
                     sret (path, sel)) (dicey_list_iter tuple) in
  let! x := r in
  if dicey_iterator_has_next iter then Err DICEY_EINVAL else Ok x.

Inductive introspection_op : Type :=
  | INTROSPECTION_OP_INVALID
  | INTROSPECTION_OP_GET_DATA
  | INTROSPECTION_OP_GET_XML
  | INTROSPECTION_OP_REGISTRY_GET_OBJS
  | INTROSPECTION_OP_REGISTRY_GET_PATHS
  | INTROSPECTION_OP_REGISTRY_GET_TRAITS
  | INTROSPECTION_OP_REGISTRY_ELEMENT_EXISTS
  | INTROSPECTION_OP_REGISTRY_PATH_EXISTS
  | INTROSPECTION_OP_REGISTRY_PATH_IS_ALIAS
  | INTROSPECTION_OP_REGISTRY_REAL_PATH
  | INTROSPECTION_OP_REGISTRY_TRAIT_EXISTS
  | INTROSPECTION_OP_TRAIT_GET_OPERATIONS
  | INTROSPECTION_OP_TRAIT_GET_PROPERTIES
  | INTROSPECTION_OP_TRAIT_GET_SIGNALS.

Definition introspection_ops : list introspection_op :=
  [INTROSPECTION_OP_INVALID; INTROSPECTION_OP_GET_DATA; INTROSPECTION_OP_GET_XML; INTROSPECTION_OP_REGISTRY_GET_OBJS;
   INTROSPECTION_OP_REGISTRY_GET_PATHS; INTROSPECTION_OP_REGISTRY_GET_TRAITS; INTROSPECTION_OP_REGISTRY_ELEMENT_EXISTS;
   INTROSPECTION_OP_REGISTRY_PATH_EXISTS; INTROSPECTION_OP_REGISTRY_PATH_IS_ALIAS; INTROSPECTION_OP_REGISTRY_REAL_PATH;
   INTROSPECTION_OP_REGISTRY_TRAIT_EXISTS; INTROSPECTION_OP_TRAIT_GET_OPERATIONS; INTROSPECTION_OP_TRAIT_GET_PROPERTIES;
   INTROSPECTION_OP_TRAIT_GET_SIGNALS].

(** A path argument: a null pointer fails the assertions of the functions it is for. *)
Definition with_path (r : res (option cstr)) (k : cstr -> bst dicey_packet) : bst dicey_packet :=
  do! path <- slift r ; match path with Some path => k path | None => sfault AssertFailed end.

Definition with_metatrait (path : cstr) (op_kind : dicey_element_type) : bst dicey_packet :=
  do! tname <- slift (validate_metatrait_name path) ; introspection_craft_filtered_elemlist path tname op_kind.

Definition perform_introspection_op (object_xml : option cstr) (opcode : Z) (path : cstr) (value : dicey_value) : bst dicey_packet :=
  match introspection_ops !! Z.to_nat opcode with
  | None => sfault AssertFailed
  | Some op =>
      match op with
      | INTROSPECTION_OP_INVALID => sfail DICEY_EINVAL
      | INTROSPECTION_OP_GET_DATA => introspection_dump_object path
      | INTROSPECTION_OP_GET_XML => introspection_dump_xml object_xml path
      | INTROSPECTION_OP_REGISTRY_GET_PATHS => introspection_craft_pathlist
      | INTROSPECTION_OP_REGISTRY_GET_OBJS => introspection_craft_objlist
      | INTROSPECTION_OP_REGISTRY_GET_TRAITS => introspection_craft_traitlist
      | INTROSPECTION_OP_REGISTRY_ELEMENT_EXISTS =>
          do! (tpath, tsel) <- slift (value_get_element_info value) ;
          match tpath with Some tpath => introspection_check_element_exists tpath tsel | None => sfault AssertFailed end
      | INTROSPECTION_OP_REGISTRY_PATH_EXISTS => with_path (dicey_value_get_path value) introspection_check_path_exists
      | INTROSPECTION_OP_REGISTRY_PATH_IS_ALIAS => with_path (dicey_value_get_path value) introspection_check_path_is_alias
      | INTROSPECTION_OP_REGISTRY_REAL_PATH => with_path (dicey_value_get_path value) introspection_get_real_path
      | INTROSPECTION_OP_REGISTRY_TRAIT_EXISTS => with_path (dicey_value_get_str value) introspection_check_trait_exists
      | INTROSPECTION_OP_TRAIT_GET_OPERATIONS => with_metatrait path DICEY_ELEMENT_TYPE_OPERATION
      | INTROSPECTION_OP_TRAIT_GET_PROPERTIES => with_metatrait path DICEY_ELEMENT_TYPE_PROPERTY
      | INTROSPECTION_OP_TRAIT_GET_SIGNALS => with_metatrait path DICEY_ELEMENT_TYPE_SIGNAL
      end
  end.

End introspection.
