(* ===== verification/Builtins.v ===== *)
(** * Builtin objects (src/ipc/server/builtins/)

    The sets of builtin traits and objects that every server registers, how they are registered,
    and their handlers: introspection, and subscription to signals on the object of the server. *)

From S2P Require Import Prelude Errors Types Views Writer ValueWrite ValueProbe Value Codec Payload Packet Typedescr ValueValidate.
From S2P Require Import Hashtable PendingReqs Table Traits Registry Clients Chunk Builders BuildersTheorems Names Server Introspection.
From stdpp Require Import strings gmap list.

#[local] Open Scope list_scope.
#[local] Open Scope Z_scope.

(** ** Sets of builtins (builtins.h) *)

Record dicey_default_element : Type := mk_default_element {
  de_name : cstr; de_type : dicey_element_type; de_signature : cstr; de_flags : Z; de_opcode : Z;
}.
Record dicey_default_object : Type := mk_default_object { do_path : cstr; do_traits : list cstr }.
Record dicey_default_trait : Type := mk_default_trait { dt_name : cstr; dt_elements : list dicey_default_element }.
Record dicey_registry_builtin_set : Type := mk_builtin_set { bs_objects : list dicey_default_object; bs_traits : list dicey_default_trait }.

Definition property (name signature : string) (opcode : Z) : dicey_default_element :=
  mk_default_element (string_bytes name) DICEY_ELEMENT_TYPE_PROPERTY (string_bytes signature) DICEY_ELEMENT_READONLY opcode.
Definition operation (name signature : string) (opcode : Z) : dicey_default_element :=
  mk_default_element (string_bytes name) DICEY_ELEMENT_TYPE_OPERATION (string_bytes signature) 0 opcode.

(** definitions.c *)
Definition introspection_elements : list dicey_default_element :=
  [property "Data" "[{s[{sv}]}]" 1; property "XML" "s" 2].

Definition registry_elements : list dicey_default_element :=
  [property "Objects" "[@]" 3; property "Paths" "[@]" 4; property "Traits" "[s]" 5; operation "ElementExists" "(@%) -> b" 6;
   operation "PathExists" "@ -> b" 7; operation "PathIsAlias" "@ -> b" 8; operation "RealPath" "@ -> @" 9; operation "TraitExists" "s -> b" 10].

Definition trait_elements : list dicey_default_element :=
  [property "Operations" "[(ss)]" 11; property "Properties" "[(ssb)]" 12; property "Signals" "[(ss)]" 13].

Definition introspection_objects : list dicey_default_object := [mk_default_object DICEY_REGISTRY_PATH [DICEY_REGISTRY_TRAIT_NAME]].

Definition introspection_traits : list dicey_default_trait :=
  [mk_default_trait DICEY_TRAIT_TRAIT_NAME trait_elements; mk_default_trait DICEY_INTROSPECTION_TRAIT_NAME introspection_elements;
   mk_default_trait DICEY_REGISTRY_TRAIT_NAME registry_elements].

Definition dicey_registry_introspection_builtins : dicey_registry_builtin_set := mk_builtin_set introspection_objects introspection_traits.

(** server/server.c *)
Definition SERVER_OP_EVENT_SUBSCRIBE : Z := 0.
Definition SERVER_OP_EVENT_UNSUBSCRIBE : Z := 1.

Definition em_elements : list dicey_default_element :=
  [operation "Subscribe" "{@%} -> v" SERVER_OP_EVENT_SUBSCRIBE; operation "Unsubscribe" "{@%} -> $" SERVER_OP_EVENT_UNSUBSCRIBE].

Definition server_traits : list dicey_default_trait := [mk_default_trait DICEY_EVENTMANAGER_TRAIT_NAME em_elements].

(** With plugins the server is also a plugin manager, whose trait comes with the set of plugins. *)
Definition server_object_traits (plugin_manager : option cstr) : list cstr :=
  DICEY_EVENTMANAGER_TRAIT_NAME :: match plugin_manager with Some t => [t] | None => [] end.

Definition server_objects (plugin_manager : option cstr) : list dicey_default_object :=
  [mk_default_object DICEY_SERVER_PATH (server_object_traits plugin_manager)].

Definition dicey_registry_server_builtins (plugin_manager : option cstr) : dicey_registry_builtin_set :=
  mk_builtin_set (server_objects plugin_manager) server_traits.

Section builtins.
Context {T : Type -> Type} `{Table T}.

(** ** Registration (builtins.c) *)

Section populate.
Variable object_alloc_ok : nat -> bool.
Variable trait_alloc_ok : cstr -> bool.
Variable elem_alloc_ok : dicey_element -> bool.
Variable strdup_ok : cstr -> bool.
Variable realloc_ok : Z -> bool.

Fixpoint populate_objects (objects : list dicey_default_object) : rst (T := T) unit :=
  match objects with
  | [] => sret tt
  | obj_def :: objects' =>
      dicey_registry_add_object_with_trait_list object_alloc_ok (do_path obj_def) (do_traits obj_def) ;;!
      populate_objects objects'
  end.

Definition tagged_element (tag : Z) (elem_def : dicey_default_element) : cstr * dicey_element :=
  (de_name elem_def, mk_element (de_type elem_def) (Some (de_signature elem_def)) (de_flags elem_def) (TAGGED tag (de_opcode elem_def))).

Fixpoint populate_elements (trait : nat) (tag : Z) (elems : list dicey_default_element) : rst (T := T) unit :=
  match elems with
  | [] => sret tt
  | elem_def :: elems' =>
      sassert (de_opcode elem_def <=? 255) ;;!
      let '(name, elem) := tagged_element tag elem_def in
      do! e <- scatch (trait_add_element elem_alloc_ok strdup_ok trait name elem) ;
      match e with
      | inl err => trait_free trait ;;! sfail err
      | inr _ => populate_elements trait tag elems'
      end
  end.

Fixpoint populate_traits (tag : Z) (traits : list dicey_default_trait) : rst (T := T) unit :=
  match traits with
  | [] => sret tt
  | trait_def :: traits' =>
      do! trait <- trait_new trait_alloc_ok strdup_ok (dt_name trait_def) ;
      match trait with
      | None => sfail DICEY_ENOMEM
      | Some trait =>
          populate_elements trait tag (dt_elements trait_def) ;;!
          do! e <- scatch (dicey_registry_add_trait object_alloc_ok realloc_ok trait) ;
          match e with
          | inl err => trait_free trait ;;! sfail err
          | inr _ => populate_traits tag traits'
          end
      end
  end.

Definition populate_registry_with (set : dicey_registry_builtin_set) (tag : Z) : rst (T := T) unit :=
  populate_traits tag (bs_traits set) ;;! populate_objects (bs_objects set).

Fixpoint populate_sets (sets : list dicey_registry_builtin_set) (i : Z) : rst (T := T) unit :=
  match sets with
  | [] => sret tt
  | set :: sets' => populate_registry_with set i ;;! populate_sets sets' (i + 1)
  end.

Definition dicey_registry_populate_builtins (sets : list dicey_registry_builtin_set) : rst (T := T) unit := populate_sets sets 0.

End populate.

(** ** Handlers *)

Context (E : environment (T := T)).

(** A builder in memory of its own. *)
Definition built {A} (m : bst A) : sst (T := T) A := slift (m empty_heap).1.

(** [object_xml]: the text libxml2 makes of the object at a path. *)
Definition introspection_handler (object_xml : cstr -> option cstr) : builtin_handler (T := T) :=
  fun opcode elem_entry path packet value client =>
    sassert (dicey_packet_is_valid packet) ;;!
    do! s <- sget ;
    do! response <- built (perform_introspection_op (e_builder_ok E) (e_block_ok E) (sv_registry s) (object_xml path) opcode path value) ;
    sret (response, CLIENT_DATA_STATE_RUNNING).

Definition extract_path_sel (value : dicey_value) : res (option cstr * dicey_selector) :=
  let! both := dicey_value_get_pair value in
  let! path := dicey_value_get_path (first both) in
  let! sel := dicey_value_get_selector (second both) in
  Ok (path, sel).

Definition message_for (path : cstr) (sel : dicey_selector) (value : dicey_arg) : bst dicey_packet :=
  sassert (dicey_selector_is_valid sel) ;;!
  clean_up (dicey_message_builder_init ;;! dicey_message_builder_begin DICEY_OP_RESPONSE ;;! dicey_message_builder_set_path path ;;!
    dicey_message_builder_set_selector sel ;;! dicey_message_builder_set_value (e_builder_ok E) value ;;!
    dicey_message_builder_build (e_block_ok E)).

Definition path_message_for (path : cstr) (sel : dicey_selector) (value : cstr) : bst dicey_packet := message_for path sel (ArgPath (Some value)).

Definition unit_message_for (path : cstr) (sel : dicey_selector) : bst dicey_packet := message_for path sel ArgUnit.

(** The string that the main path of an entry points to. *)
Definition entry_main_path (entry : dicey_object_element_entry) : rst (T := T) cstr :=
  match oe_main_path entry with
  | None => sfault NullDeref
  | Some (k, m) =>
      do! r <- sget ;
      do! c <- slift (tbl_get (rg_paths r) m) ;
      match c with
      | Some c => if Nat.eqb (pc_key c) k then sret m else sfault UseAfterFree
      | None => sfault UseAfterFree
      end
  end.

Definition handle_server_operation (opcode : Z) (packet : dicey_packet) (value : dicey_value) (client : nat) : sst (T := T) dicey_packet :=
  sassert (dicey_packet_is_valid packet) ;;!
  do! (path, sel) <- slift (extract_path_sel value) ;
  match path, trait sel, elem sel with
  | Some path, Some t, Some e =>
      do! entry <- reg (dicey_registry_get_element_entry path t e) ;
      match entry with
      | None => sfail DICEY_EELEMENT_NOT_FOUND
      | Some entry =>
          if negb (bool_decide (el_type (oe_element entry) = DICEY_ELEMENT_TYPE_SIGNAL)) then sfail DICEY_EINVAL else
          do! main_path <- reg (entry_main_path entry) ;
          do! elemdescr <- dicey_element_descriptor_format_to E main_path sel ;
          match elemdescr with
          | None => sfail DICEY_ENOMEM
          | Some elemdescr =>
              if opcode =? SERVER_OP_EVENT_SUBSCRIBE then
                dicey_client_data_subscribe client elemdescr ;;!
                if bool_decide (main_path = path) then built (unit_message_for path sel) else built (path_message_for path sel main_path)
              else if opcode =? SERVER_OP_EVENT_UNSUBSCRIBE then
                do! removed <- dicey_client_data_unsubscribe client elemdescr ;
                if removed : bool then built (unit_message_for path sel) else sfail DICEY_ENOENT
              else sfault AssertFailed
          end
      end
  | _, _, _ => sfault AssertFailed
  end.

Definition server_handler : builtin_handler (T := T) :=
  fun opcode elem_entry path packet value client =>
    do! response <- handle_server_operation opcode packet value client ; sret (response, CLIENT_DATA_STATE_RUNNING).

End builtins.
