(* ===== verification/BuiltinsTheorems.v ===== *)
(** * What builtins answer

    The answers of introspection are the encodings of trees that describe the registry; a
    subscription is recorded under the main path of the object, so that signals raised there reach
    the client. *)

From S2P Require Import Prelude Errors Types Views Writer ValueWrite ValueProbe Value Codec Payload Packet Typedescr ValueValidate.
From S2P Require Import Hashtable PendingReqs Table Traits Registry RegistrySpec RegistryTheorems Clients Chunk Builders BuildersTheorems Names.
From S2P Require Import Server ServerScenario ServerFrame ServerTheorems ServerBehaviour Introspection Builtins.
From stdpp Require Import strings gmap list.

#[local] Open Scope list_scope.
#[local] Open Scope Z_scope.

(** ** Tags *)

(** The tag of a builtin element holds the index of its set and its operation code, and both are
    read back; it is the tag of no builtin only for code 0 of the first set, which no element has. *)
Theorem builtin_tags_roundtrip tag opcode :
  0 <= tag < 256 -> 0 <= opcode < 256 ->
  BASE_OF (TAGGED tag opcode) = tag /\ OPCODE_OF (TAGGED tag opcode) = opcode /\
  (TAGGED tag opcode = 0 <-> tag = 0 /\ opcode = 0) /\
  Forall (fun t => Forall (fun e => de_opcode e <> 0) (dt_elements t)) introspection_traits.
Proof.
  intros Ht Ho. unfold BASE_OF, OPCODE_OF, TAGGED.
  assert (Z.land opcode 255 = opcode) as Eo by (change 255 with (Z.ones 8); rewrite Z.land_ones by lia; rewrite Z.mod_small; lia).
  assert (Z.shiftr opcode 8 = 0) as Es by (rewrite Z.shiftr_div_pow2 by lia; rewrite Z.div_small; lia).
  assert (Z.land tag 255 = tag) as Et by (change 255 with (Z.ones 8); rewrite Z.land_ones by lia; rewrite Z.mod_small; lia).
  rewrite Eo. split_and!.
  - rewrite Z.shiftr_land, Z.shiftr_lor, Es, Z.shiftr_shiftl_l by lia. cbn [Z.sub Z.shiftl Z.lor]. rewrite Z.lor_0_r. exact Et.
  - rewrite Z.land_lor_distr_l, Eo. change 255 with (Z.ones 8) at 1. rewrite Z.land_ones, Z.shiftl_mul_pow2, Z.mod_mul by lia. apply Z.lor_0_l.
  - rewrite Z.lor_eq_0_iff, Z.shiftl_mul_pow2 by lia. lia.
  - repeat constructor; cbn; lia.
Qed.

Lemma builtin_tags_roundtrip_witness : BASE_OF (TAGGED 2 1) = 2 /\ OPCODE_OF (TAGGED 2 1) = 1.
Proof. destruct (builtin_tags_roundtrip 2 1 ltac:(lia) ltac:(lia)) as (H1 & H2 & _). by split. Defined.

(** ** Programs that do the same steps *)

Lemma sbind_ext {S E A B} (m1 m2 : stm S E A) (k1 k2 : A -> stm S E B) s :
  m1 s = m2 s -> (forall a s', k1 a s' = k2 a s') -> sbind m1 k1 s = sbind m2 k2 s.
Proof. intros Hm Hk. unfold sbind. rewrite Hm. destruct (m2 s) as [[] ?]; try done. Qed.

Lemma sbind_ret {S E A B} (a : A) (k : A -> stm S E B) s : sbind (sret a) k s = k a s.
Proof. done. Qed.

Lemma sbind_lift_ok {S E A B} (a : A) (k : A -> stm S E B) s : sbind (slift (Ok a)) k s = k a s.
Proof. done. Qed.

Ltac same_steps := repeat (rewrite ?sbind_assoc, ?sbind_ret; apply sbind_ext; [done|intros ? ?]); rewrite ?sbind_assoc, ?sbind_ret; try done.

(** ** Trees *)

Definition kind_tree (elem : dicey_element) : dicey_arg :=
  ArgTuple ([ArgByte (element_type_code (el_type elem)); ArgStr (el_signature elem)] ++
    (if bool_decide (el_type elem = DICEY_ELEMENT_TYPE_PROPERTY) then [bool_arg (is_readonly elem)] else [])).

Definition entry_tree (e : cstr * dicey_element) : dicey_arg := ArgPair (ArgStr (Some e.1)) (kind_tree e.2).

Definition internal (e : cstr * dicey_element) : bool := negb (Z.land (el_flags e.2) DICEY_ELEMENT_INTERNAL =? 0).

Definition trait_tree (t : cstr * list (cstr * dicey_element)) : dicey_arg :=
  ArgPair (ArgStr (Some t.1)) (ArgArray DICEY_TYPE_PAIR (entry_tree <$> List.filter (fun e => negb (internal e)) t.2)).

Definition object_tree (l : list (cstr * list (cstr * dicey_element))) : dicey_arg := ArgArray DICEY_TYPE_PAIR (trait_tree <$> l).

Section answers.
Context {T : Type -> Type} `{Table T}.
Variable alloc_ok : nat -> bool.
Variable calloc_ok : Z -> bool.
Variable registry : dicey_registry (T := T).
Hypothesis Hmem : forall n, alloc_ok n = true.

Lemma kind_steps elem v s : populate_element_struct alloc_ok elem v s = build_value alloc_ok v (kind_tree elem) s.
Proof.
  unfold populate_element_struct, kind_tree, populate_element_kind, bool_arg. cbn [build_value].
  destruct (bool_decide (el_type elem = DICEY_ELEMENT_TYPE_PROPERTY)); cbn [app build_elems build_value]; same_steps.
Qed.

Lemma entry_steps name elem v s : populate_element_entry alloc_ok name elem v s = build_value alloc_ok v (entry_tree (name, elem)) s.
Proof.
  unfold populate_element_entry, entry_tree. cbn [build_value fst snd]. repeat (rewrite ?sbind_assoc; apply sbind_ext; [done|intros ? ?]).
  rewrite ?sbind_assoc. apply sbind_ext; [apply kind_steps|done].
Qed.

Lemma elements_steps elems v s :
  add_elements alloc_ok elems v s =
  build_elems alloc_ok (build_value alloc_ok) v (entry_tree <$> List.filter (fun e => negb (internal e)) elems) s.
Proof.
  revert s. induction elems as [|[name elem] elems IH]; intros s; [done|]. cbn [add_elements List.filter internal snd].
  unfold internal at 1. cbn [snd]. destruct (negb (Z.land (el_flags elem) DICEY_ELEMENT_INTERNAL =? 0)); cbn [negb]; [rewrite sbind_ret; apply IH|].
  cbn [fmap list_fmap build_elems]. rewrite !sbind_assoc. apply sbind_ext; [done|]. intros _ s1. apply sbind_ext; [apply entry_steps|]. intros _ s2. apply IH.
Qed.

Lemma trait_steps tr name elems v s : dicey_trait_iter_all (Some tr) = Ok elems ->
  populate_trait_entry alloc_ok tr name v s = build_value alloc_ok v (trait_tree (name, elems)) s.
Proof.
  intros He. unfold populate_trait_entry, populate_trait_element_list, trait_tree. cbn [build_value fst snd]. rewrite He.
  repeat (rewrite ?sbind_assoc; apply sbind_ext; [done|intros ? ?]). rewrite ?sbind_assoc, sbind_lift_ok.
  apply sbind_ext; [apply elements_steps|]. done.
Qed.

(** The traits of an object are registered, with their elements. *)
Definition described (l : list (cstr * unit)) (d : list (cstr * list (cstr * dicey_element))) : Prop :=
  Forall2 (fun n t => n.1 = t.1 /\ exists tr, (find_trait n.1 registry).1 = Ok (Some tr) /\ dicey_trait_iter_all (Some tr) = Ok t.2) l d.

Lemma traits_steps l d v s : described l d ->
  add_traits alloc_ok registry l v s = build_elems alloc_ok (build_value alloc_ok) v (trait_tree <$> d) s.
Proof.
  intros Hd. revert s. induction Hd as [|[n u] [m elems] l d (E & tr & Ef & He) _ IH]; intros s; [done|]. cbn [fst snd] in *. subst m.
  cbn [add_traits fmap list_fmap build_elems]. unfold look at 1. rewrite Ef, sbind_lift_ok.
  rewrite !sbind_assoc. apply sbind_ext; [done|]. intros _ s1. apply sbind_ext; [by apply trait_steps|]. intros _ s2. apply IH.
Qed.

(** ** Messages *)

Definition reply_header (path trait_name elem_name : cstr) : dicey_message_builder :=
  header DICEY_OP_RESPONSE 0 path (mk_selector (Some trait_name) (Some elem_name)) None.

Lemma init_builder_ok path t e s : t <> [] -> e <> [] ->
  introspection_init_builder path t e s = (Ok tt, mk_bstate (reply_header path t e) (bs_vals s) (bs_blocks s) (bs_next s)).
Proof. by destruct s, t, e. Qed.

(** The reply that carries a tree. *)
Definition reply (path t e : cstr) (a : dicey_arg) : res dicey_packet :=
  written_packet calloc_ok DICEY_OP_RESPONSE 0 (Some path) (mk_selector (Some t) (Some e)) (Some a).

Lemma clean_up_eq {A} (m m' : bst A) s s' : m s = m' s' -> clean_up m s = clean_up m' s'.
Proof. unfold clean_up. by intros ->. Qed.

Lemma selector_ok t e : t <> [] -> e <> [] -> dicey_selector_is_valid (mk_selector (Some t) (Some e)) = true.
Proof. by destruct t, e. Qed.

(** The steps that build a tree and send it, whatever calls made it. *)
Lemma reply_built path t e a (m : bst unit) s :
  t <> [] -> e <> [] -> BuildersTheorems.fresh s -> arg_ok a -> (forall s, m s = build_value alloc_ok 0 a s) ->
  exists s', clean_up (introspection_init_builder path t e ;;! dicey_message_builder_value_start alloc_ok 0 ;;! m ;;!
    dicey_message_builder_value_end 0 ;;! dicey_message_builder_build calloc_ok) s = (reply path t e a, s').
Proof.
  intros Ht He Hf Ha Hm. set (s1 := mk_bstate (reply_header path t e) (bs_vals s) (bs_blocks s) (bs_next s)).
  destruct (value_built_ok alloc_ok Hmem 0 a s1 (bs_blocks s)) as (s2 & Hv & E); [done|done|exact Hf|done|done|].
  destruct (header_value_packet calloc_ok DICEY_OP_RESPONSE 0 path (mk_selector (Some t) (Some e)) s1 s2 a (bs_blocks s)) as [_ (s3 & E3 & _)];
    [done|done|done|done|by apply selector_ok|].
  exists s3. refine (eq_trans _ E3). apply clean_up_eq. srw (init_builder_ok path t e s Ht He). fold s1. rewrite <- E.
  apply sbind_ext; [done|]. intros _ s4. apply sbind_ext; [apply Hm|done].
Qed.

Lemma reply_set path t e a s :
  t <> [] -> e <> [] -> BuildersTheorems.fresh s -> dicey_type_is_valid (arg_type a) = true ->
  exists s', clean_up (introspection_init_builder path t e ;;! dicey_message_builder_set_value alloc_ok a ;;!
    dicey_message_builder_build calloc_ok) s = (reply path t e a, s').
Proof.
  intros Ht He Hf Ha. set (s1 := mk_bstate (reply_header path t e) (bs_vals s) (bs_blocks s) (bs_next s)).
  destruct (set_value_ok alloc_ok Hmem s1 None ∅ (bs_blocks s) a) as (s2 & E & Hv);
    [done|done|exact Hf|apply map_disjoint_empty_l|by rewrite (left_id_L ∅ (∪))|done|].
  destruct (header_value_packet calloc_ok DICEY_OP_RESPONSE 0 path (mk_selector (Some t) (Some e)) s1 s2 a (bs_blocks s)) as [_ (s3 & E3 & _)];
    [done|done|done|done|by apply selector_ok|].
  exists s3. refine (eq_trans _ E3). apply clean_up_eq. srw (init_builder_ok path t e s Ht He). fold s1. by srw E.
Qed.

(** ** Lists of paths *)

Variable leak : nat -> Z.

Definition is_main (p : cstr) : bool := bool_decide (fst <$> directory_of registry !! p = Some p).

Definition kept (policy : pathlist_policy) (l : list cstr) : list cstr :=
  match policy with PATHLIST_ALL => l | PATHLIST_NO_ALIASES => List.filter is_main l end.

Definition path_arg (p : cstr) : dicey_arg := ArgPath (Some p).

Lemma in_directory p c : reg_wf leak registry -> tbl_map (rg_paths registry) !! p = Some c ->
  path_is_valid p = true /\ exists m ts, directory_of registry !! p = Some (m, ts).
Proof.
  intros W Hp. destruct (graph_get leak _ _ p c (rw_graph _ _ W) Hp) as (ob & k & m & _ & _ & _ & _ & _ & Hv & Hd & _). split; [done|by do 2 eexists].
Qed.

Lemma alias_skipped p c s : reg_wf leak registry -> tbl_map (rg_paths registry) !! p = Some c ->
  (do! e <- look_err registry (dicey_registry_is_alias p) ; sret (match e with inr _ => true | inl _ => false end)) s = (Ok (negb (is_main p)), s).
Proof.
  intros W Hp. destruct (in_directory p c W Hp) as (Hv & m & ts & Hd). unfold look_err, is_main.
  rewrite (proj2 (registry_lookup_lemma leak registry p W)), Hv, Hd. cbn [fst fmap option_fmap option_map].
  case_decide; [rewrite bool_decide_true by congruence|rewrite bool_decide_false by congruence]; done.
Qed.

Lemma paths_steps policy l s : reg_wf leak registry -> (forall p c, In (p, c) l -> tbl_map (rg_paths registry) !! p = Some c) ->
  add_paths alloc_ok registry policy l s = build_elems alloc_ok (build_value alloc_ok) 0 (path_arg <$> kept policy l.*1) s.
Proof.
  intros W. revert s. induction l as [|[p c] l IH]; intros s Hl; [by destruct policy|].
  assert (forall s, add_paths alloc_ok registry policy l s = build_elems alloc_ok (build_value alloc_ok) 0 (path_arg <$> kept policy l.*1) s) as IH'.
  { intros s'. apply IH. intros q d Hq. apply Hl. by right. }
  cbn [add_paths fmap list_fmap fst]. destruct policy; cbn [kept] in *.
  - rewrite sbind_ret. cbn [fmap list_fmap build_elems]. rewrite !sbind_assoc. apply sbind_ext; [done|]. intros _ s1. apply sbind_ext; [done|]. intros _ s2. apply IH'.
  - srw (alias_skipped p c s W (Hl p c ltac:(by left))). cbn [List.filter]. destruct (is_main p); cbn [negb]; [|rewrite sbind_ret; apply IH'].
    cbn [fmap list_fmap build_elems]. rewrite !sbind_assoc. apply sbind_ext; [done|]. intros _ s1. apply sbind_ext; [done|]. intros _ s2. apply IH'.
Qed.

(** The registry fits into replies: at most 65,535 entries in every list, strings of less than 4 GiB. *)
Record describable : Prop := {
  ds_paths : forall p, is_Some (tbl_map (rg_paths registry) !! p) -> cstr_small p;
  ds_npaths : Z.of_nat (size (tbl_map (rg_paths registry))) <= UINT16_MAX;
  ds_traits : forall n t tr, tbl_map (rg_traits registry) !! n = Some t -> rg_trait_heap registry !! t = Some tr ->
    cstr_small n /\ Z.of_nat (size (elem_map tr)) <= UINT16_MAX /\
    forall e el, elem_map tr !! e = Some el -> cstr_small e /\ cstr_small (default [] (el_signature el));
  ds_objects : forall p m ts, directory_of registry !! p = Some (m, ts) -> Z.of_nat (size ts) <= UINT16_MAX;
}.

Lemma path_args_ok l : Forall cstr_small l -> zlen l <= UINT16_MAX -> arg_ok (ArgArray DICEY_TYPE_PATH (path_arg <$> l)).
Proof.
  intros Hs Hn. split_and!; [done|done|by unfold zlen in *; rewrite length_fmap|apply Forall_fmap, Forall_true; done|].
  apply arg_ok_list, Forall_fmap. eapply Forall_impl; [exact Hs|]. intros p Hp. by exists p.
Qed.

Lemma kept_length policy l : (length (kept policy l) <= length l)%nat.
Proof. destruct policy; [done|]. apply List.filter_length_le. Qed.

Lemma kept_in policy l p : In p (kept policy l) <-> In p l /\ match policy with PATHLIST_ALL => True | PATHLIST_NO_ALIASES => is_main p = true end.
Proof. destruct policy; cbn; [tauto|]. apply filter_In. Qed.

Lemma kept_nodup policy l : NoDup l -> NoDup (kept policy l).
Proof. intros Hl. destruct policy; [done|]. cbn. apply NoDup_ListNoDup in Hl. apply NoDup_ListNoDup, List.NoDup_filter, Hl. Qed.

(** C31: the lists of paths and of objects that a client is told are those of the registry: a reply
    with every registered path once, without the aliases when objects are asked for. *)
Theorem introspection_paths_correct policy :
  reg_wf leak registry -> describable ->
  exists l s', craft_pathlist alloc_ok calloc_ok registry policy empty_heap =
      (reply DICEY_REGISTRY_PATH DICEY_REGISTRY_TRAIT_NAME DICEY_REGISTRY_OBJECTS_PROP_NAME (ArgArray DICEY_TYPE_PATH (path_arg <$> l)), s') /\
    NoDup l /\ forall p, p ∈ l <-> match policy with
                                    | PATHLIST_ALL => is_Some (directory_of registry !! p)
                                    | PATHLIST_NO_ALIASES => exists ts, directory_of registry !! p = Some (p, ts)
                                    end.
Proof.
  intros W Hd. destruct (tbl_entries_ok _ (rw_paths _ _ W)) as (l & El & Hperm).
  assert (forall p c, In (p, c) l -> tbl_map (rg_paths registry) !! p = Some c) as Hl.
  { intros p c Hin. apply elem_of_map_to_list. rewrite <- Hperm. by apply list_elem_of_In. }
  assert (l.*1 ≡ₚ (map_to_list (tbl_map (rg_paths registry))).*1) as Hperm1 by (by rewrite Hperm).
  assert (forall p, In p (l.*1) <-> is_Some (tbl_map (rg_paths registry) !! p)) as Hin.
  { intros p. rewrite <- list_elem_of_In, Hperm1, list_elem_of_fmap. split.
    - intros ([q c] & -> & Hq). apply elem_of_map_to_list in Hq. by eexists.
    - intros [c Hc]. exists (p, c). split; [done|]. by apply elem_of_map_to_list. }
  set (a := ArgArray DICEY_TYPE_PATH (path_arg <$> kept policy l.*1)).
  assert (arg_ok a) as Ha.
  { apply path_args_ok.
    - apply Forall_forall. intros p Hp. apply list_elem_of_In, kept_in in Hp as [Hp _]. by apply (ds_paths Hd), Hin.
    - unfold zlen. pose proof (kept_length policy l.*1). pose proof (ds_npaths Hd). apply Permutation_length in Hperm. rewrite length_fmap in *.
      rewrite length_map_to_list in Hperm. lia. }
  destruct (reply_built DICEY_REGISTRY_PATH DICEY_REGISTRY_TRAIT_NAME DICEY_REGISTRY_OBJECTS_PROP_NAME a
    (dicey_value_builder_array_start 0 DICEY_TYPE_PATH ;;! add_paths alloc_ok registry policy l ;;! dicey_value_builder_array_end 0) empty_heap)
    as (s' & E); [done|done|apply empty_heap_fresh|done| |].
  { intros s. cbn [build_value a]. apply sbind_ext; [done|]. intros _ s1. apply sbind_ext; [by apply paths_steps|done]. }
  exists (kept policy l.*1), s'. split_and!.
  - refine (eq_trans _ E). apply clean_up_eq. unfold craft_pathlist. rewrite El.
    do 2 (apply sbind_ext; [done|intros _ ?]). rewrite !sbind_assoc. apply sbind_ext; [done|]. intros _ ?. rewrite !sbind_assoc, sbind_lift_ok. done.
  - apply kept_nodup. rewrite Hperm1. apply NoDup_fst_map_to_list.
  - intros p. rewrite list_elem_of_In, kept_in, Hin. destruct policy.
    + split; [intros [[c Hc] _]; destruct (in_directory p c W Hc) as (_ & m & ts & ->); by eexists|].
      intros [x Hx]. unfold directory_of in Hx. rewrite dir_lookup in Hx. destruct (tbl_map (rg_paths registry) !! p); [by split; [eexists|]|done].
    + unfold is_main. rewrite bool_decide_eq_true. split.
      * intros [_ Hm]. destruct (directory_of registry !! p) as [[m ts]|]; [|done]. cbn in Hm. simplify_eq. by exists ts.
      * intros [ts Hx]. rewrite Hx. split; [|done]. unfold directory_of in Hx. rewrite dir_lookup in Hx. by destruct (tbl_map (rg_paths registry) !! p); [eexists|].
Qed.

(** ** Descriptions of objects *)

Lemma find_known n t tr : reg_wf leak registry -> tbl_map (rg_traits registry) !! n = Some t -> rg_trait_heap registry !! t = Some tr ->
  exists elems, (find_trait n registry).1 = Ok (Some tr) /\ dicey_trait_iter_all (Some tr) = Ok elems /\ elems ≡ₚ map_to_list (elem_map tr).
Proof.
  intros W Ht Hh. destruct (rw_traits _ _ W) as (Hokt & Htr & _). destruct (Htr n t Ht) as (tr' & Eh & _ & Hwt). simplify_eq.
  destruct (tbl_entries_ok _ (proj1 Hwt)) as (elems & Ee & Hp). exists elems. split_and!; [|done|done].
  unfold find_trait, dicey_registry_get_trait. srun. rewrite tbl_get_ok, Ht by done. unfold trait_read. srun. by rewrite Hh.
Qed.

(** What is known of the described traits. *)
Definition trait_of (t : cstr * list (cstr * dicey_element)) : Prop :=
  exists a tr, tbl_map (rg_traits registry) !! t.1 = Some a /\ rg_trait_heap registry !! a = Some tr /\ t.2 ≡ₚ map_to_list (elem_map tr).

Lemma describe l : reg_wf leak registry -> (forall n, In n (l.*1) -> is_Some (tbl_map (rg_traits registry) !! n)) ->
  exists d, described l d /\ d.*1 = l.*1 /\ Forall trait_of d.
Proof.
  intros W. induction l as [|[n u] l IH]; intros Hl; [exists []; by repeat constructor|].
  destruct IH as (d & Hd & Ef & Ha); [intros m Hm; apply Hl; by right|].
  destruct (Hl n ltac:(by left)) as [t Ht]. destruct (rw_traits _ _ W) as (_ & Htr & _). destruct (Htr n t Ht) as (tr & Eh & _).
  destruct (find_known n t tr W Ht Eh) as (elems & Ef' & Ei & Hp). exists ((n, elems) :: d). split_and!.
  - constructor; [|done]. split; [done|]. by exists tr.
  - cbn. by rewrite Ef.
  - constructor; [|done]. by exists t, tr.
Qed.

Lemma kind_tree_ok elem : cstr_small (default [] (el_signature elem)) -> arg_ok (kind_tree elem).
Proof.
  intros Hs. unfold kind_tree. set (ro := bool_arg (is_readonly elem)).
  assert (arg_ok ro) as Hro by (unfold ro, bool_arg; destruct (is_readonly elem); cbn; unfold in_unsigned; lia).
  assert (in_unsigned 8 (element_type_code (el_type elem))) by (unfold in_unsigned; destruct (el_type elem); cbn; lia).
  destruct (bool_decide _); (split; [vm_compute; discriminate|cbn [app]; apply arg_ok_list; rewrite ?Forall_cons; done]).
Qed.

Lemma trait_tree_ok t : describable -> trait_of t -> arg_ok (trait_tree t).
Proof.
  intros Hd (a & tr & Ht & Hh & Hp). destruct (ds_traits Hd _ _ _ Ht Hh) as (Hn & Hsz & He). split; [exact Hn|].
  set (l := List.filter _ t.2). split_and!; [done|done| |apply Forall_fmap, Forall_true; done|apply arg_ok_list, Forall_fmap].
  - unfold zlen. rewrite length_fmap. apply Permutation_length in Hp. rewrite length_map_to_list in Hp.
    pose proof (List.filter_length_le (fun e => negb (internal e)) t.2). fold l in H0. lia.
  - apply Forall_forall. intros [e el] Hin. apply list_elem_of_In, filter_In in Hin as [Hin _]. apply list_elem_of_In in Hin. rewrite Hp in Hin.
    apply elem_of_map_to_list in Hin. destruct (He e el Hin) as [He1 He2]. split; [exact He1|]. by apply kind_tree_ok.
Qed.

(** C30: the description of an object whose traits are registered lists exactly the traits it
    implements, each once, with exactly the elements of the trait that are not internal: their kind,
    their signature, and for properties whether they are read-only; internal elements are left out, as
    [DICEY_ELEMENT_INTERNAL] documents. An unknown path is an error. Memory is available, and the registry
    fits in the format ([describable]: names and signatures that are strings, at most 65535
    paths, traits of an object and elements of a trait). *)
Theorem introspection_dump_object_correct p :
  reg_wf leak registry -> describable ->
  match directory_of registry !! p with
  | None => introspection_dump_object alloc_ok calloc_ok registry p empty_heap = (Err DICEY_ENOENT, empty_heap)
  | Some (_, ts) => ts ⊆ known_traits registry ->
      exists d s', introspection_dump_object alloc_ok calloc_ok registry p empty_heap =
          (reply p DICEY_INTROSPECTION_TRAIT_NAME DICEY_INTROSPECTION_DATA_PROP_NAME (object_tree d), s') /\
        NoDup (d.*1) /\ (forall n, n ∈ d.*1 <-> n ∈ ts) /\ Forall trait_of d
  end.
Proof.
  intros W Hd. pose proof (rw_paths _ _ W) as Hok. unfold introspection_dump_object, look. destruct (tbl_map (rg_paths registry) !! p) as [c|] eqn:Ec.
  2:{ unfold directory_of. rewrite graph_get_none by done. srw (run_get_object registry p Hok). rewrite Ec. by destruct (path_is_valid p). }
  destruct (graph_get leak _ _ p c (rw_graph _ _ W) Ec) as (ob & k & m & Ho & Hw & _ & _ & _ & Hv & Hdir & _).
  fold (directory_of registry) in Hdir. rewrite Hdir. intros Hts. destruct Hw as (Hots & _ & Hnn & _).
  srw (run_get_object registry p Hok). rewrite Hv, Ec. cbn [fmap option_fmap option_map]. srw (run_obj_read registry _ ob Ho). cbn [fst].
  destruct (tbl_entries_ok _ Hots) as (l & El & Hperm).
  assert (forall n, n ∈ l.*1 <-> n ∈ (dom (tbl_map (ob_traits ob)) : gset cstr)) as Hin.
  { intros n. rewrite Hperm, list_elem_of_fmap. rewrite elem_of_dom. split.
    - intros ([q u] & -> & Hq). apply elem_of_map_to_list in Hq. by eexists.
    - intros [u Hu]. exists (n, u). split; [done|]. by apply elem_of_map_to_list. }
  destruct (describe l W) as (d & Hdesc & Ed & Hall).
  { intros n Hn. apply list_elem_of_In, Hin, Hts in Hn. unfold known_traits in Hn; by apply elem_of_dom in Hn. }
  assert (arg_ok (object_tree d)) as Ha.
  { split_and!; [done|done| |apply Forall_fmap, Forall_true; done|].
    - pose proof (ds_objects Hd _ _ _ Hdir) as Hsz. unfold zlen. rewrite length_fmap. apply (f_equal length) in Ed. rewrite !length_fmap in Ed.
      apply Permutation_length in Hperm. rewrite length_map_to_list in Hperm. rewrite size_dom in Hsz. lia.
    - apply arg_ok_list, Forall_fmap. eapply Forall_impl; [exact Hall|]. intros t Ht. by apply trait_tree_ok. }
  destruct (reply_built p DICEY_INTROSPECTION_TRAIT_NAME DICEY_INTROSPECTION_DATA_PROP_NAME (object_tree d)
    (populate_object_traitlist alloc_ok registry (ob_traits ob) 0) empty_heap) as (s' & E); [done|done|apply empty_heap_fresh|done| |].
  { intros s. unfold populate_object_traitlist. rewrite Hnn. cbn [negb sassert build_value object_tree]. rewrite sbind_ret.
    apply sbind_ext; [done|]. intros _ s1. rewrite El, sbind_assoc, sbind_lift_ok. apply sbind_ext; [by apply traits_steps|done]. }
  exists d, s'. split_and!; [exact E| | |done].
  - rewrite Ed, Hperm. apply NoDup_fst_map_to_list.
  - intros n. by rewrite Ed.
Qed.

End answers.

(** ** Subscriptions *)

Section subscriptions.
Context {T : Type -> Type} `{Table T}.
Context (E : environment (T := T)).
Abbreviation server := (dicey_server (T := T)).
Hypothesis Hw : working E.

Lemma message_for_ok path sel a : dicey_selector_is_valid sel = true -> dicey_type_is_valid (arg_type a) = true ->
  (message_for E path sel a empty_heap).1 = written_packet (e_block_ok E) DICEY_OP_RESPONSE 0 (Some path) sel (Some a).
Proof.
  intros Hs Ha. unfold message_for. rewrite Hs. cbn [sassert]. rewrite sbind_ret.
  set (s1 := mk_bstate (header DICEY_OP_RESPONSE 0 path sel None) ∅ ∅ 0).
  destruct (set_value_ok (e_builder_ok E) (wk_builder _ Hw) s1 None ∅ ∅ a) as (s2 & E2 & Hv);
    [done|done|apply empty_heap_fresh|apply map_disjoint_empty_l|by rewrite (left_id_L ∅ (∪))|done|].
  destruct (header_value_packet (e_block_ok E) DICEY_OP_RESPONSE 0 path sel s1 s2 a ∅) as [_ (s3 & E3 & _)]; [done..|].
  transitivity (clean_up (dicey_message_builder_build (e_block_ok E)) s2).1; [|by rewrite E3]. f_equal. apply clean_up_eq.
  assert (forall k : bst dicey_packet, (dicey_message_builder_init ;;! dicey_message_builder_begin DICEY_OP_RESPONSE ;;!
    dicey_message_builder_set_path path ;;! dicey_message_builder_set_selector sel ;;! k) empty_heap = k s1) as ->.
  { destruct sel as [[t|] [e|]]; done. }
  by srw E2.
Qed.

(** The subscription that an operation is about. *)
Record subject (s : server) (value : dicey_value) (path main : cstr) (sel : dicey_selector) : Prop := {
  sb_value : extract_path_sel value = Ok (Some path, sel);
  sb_sel : exists t e, sel = mk_selector (Some t) (Some e) /\ t <> [] /\ e <> [];
  sb_main : fst <$> directory_of (sv_registry s) !! path = Some main;
  sb_entry : exists entry, target_of s path sel = Ok (Some entry) /\ el_type (oe_element entry) = DICEY_ELEMENT_TYPE_SIGNAL;
}.

(** The reply names the main path when an alias was used. *)
Definition subscribed_reply (path main : cstr) (sel : dicey_selector) : res dicey_packet :=
  written_packet (e_block_ok E) DICEY_OP_RESPONSE 0 (Some path) sel (Some (if decide (main = path) then ArgUnit else ArgPath (Some main))).

Definition with_subs (c : nat) (d : dicey_client_data) (t : T unit) (n : Z) (s : server) : server :=
  set_heap (<[c := with_subscriptions t d]> (sv_heap s)) (set_scratchpad n s).

Lemma valid_path_length path : path_is_valid path = true -> 2 <= zlen path.
Proof.
  destruct path as [|a [|b path]]; [done| |rewrite !zlen_cons; pose proof (zlen_nonneg path); lia].
  unfold path_is_valid. destruct (decide (a = 47)) as [->|Ha]; [done|].
  destruct a as [|a|a]; try done. do 6 (destruct a as [a|a|]; try done).
Qed.

(** The steps up to the descriptor of the element under its main path. *)
Lemma subject_steps leak s value path main sel opcode packet c :
  reg_wf leak (sv_registry s) -> dicey_packet_is_valid packet = true -> subject s value path main sel ->
  exists n, handle_server_operation E opcode packet value c s =
    (if opcode =? SERVER_OP_EVENT_SUBSCRIBE then
       dicey_client_data_subscribe c (element_descriptor main sel) ;;!
       if bool_decide (main = path) then built (unit_message_for E path sel) else built (path_message_for E path sel main)
     else if opcode =? SERVER_OP_EVENT_UNSUBSCRIBE then
       do! removed <- dicey_client_data_unsubscribe c (element_descriptor main sel) ;
       if removed : bool then built (unit_message_for E path sel) else sfail DICEY_ENOENT
     else sfault AssertFailed) (set_scratchpad n s).
Proof.
  intros W Hp [Hval (t & e & -> & Ht & He) Hmain (entry & Hentry & Hsig)].
  unfold target_of in Hentry. cbn in Hentry. destruct (registry_element_lemma leak (sv_registry s) path t e W He) as (res & El & Hres).
  rewrite El in Hentry. cbn in Hentry. simplify_eq. destruct Hres as (m & ts & a & tr & k & Hdir & _ & _ & _ & _ & Hk & _ & o & Hc0).
  rewrite Hdir in Hmain. cbn in Hmain. simplify_eq.
  assert (path_is_valid main = true) as Hvm by (by apply (gw_path _ _ _ (rw_graph _ _ W) main _ Hc0)).
  unfold handle_server_operation. rewrite Hp. cbn [sassert]. rewrite sbind_ret, Hval, sbind_lift_ok. cbn [trait elem].
  rewrite bind_reg_pure by apply (get_element_entry_pure path (mk_selector (Some t) (Some e))). rewrite El. cbn [fst].
  rewrite bool_decide_true by done. cbn [negb]. unfold entry_main_path. rewrite Hk. unfold reg at 1, sbind at 1. srun.
  rewrite tbl_get_ok by apply (rw_paths _ _ W). rewrite Hc0. srun. cbn [pc_key]. rewrite Nat.eqb_refl. srun.
  assert (set_registry (sv_registry s) s = s) as -> by (by destruct s).
  pose proof (valid_path_length main Hvm) as Hlen.
  destruct (descriptor_ok E Hw main (mk_selector (Some t) (Some e)) s) as [n En]; [done| |].
  { destruct t as [|t0 t], e as [|e0 e]; try done. unfold element_descriptor. cbn [trait elem default from_option id].
    rewrite !zlen_app, !zlen_cons, zlen_nil. pose proof (zlen_nonneg t). pose proof (zlen_nonneg e). lia. }
  exists n. by srw En.
Qed.

Definition unit_reply (path : cstr) (sel : dicey_selector) : res dicey_packet :=
  written_packet (e_block_ok E) DICEY_OP_RESPONSE 0 (Some path) sel (Some ArgUnit).

Lemma subject_valid s value path main sel : subject s value path main sel -> dicey_selector_is_valid sel = true.
Proof. by intros [_ (t & e & -> & _) _ _]. Qed.

(** The subscription is recorded, or the table takes no more. *)
Lemma subscribe_cases leak s value path main sel packet c d :
  reg_wf leak (sv_registry s) -> dicey_packet_is_valid packet = true -> subject s value path main sel ->
  sv_heap s !! c = Some d -> tbl_ok (cd_subscriptions d) -> Z.of_nat (size (tbl_map (cd_subscriptions d))) < MAX_LEN ->
  exists t n, tbl_ok t /\
    ((tbl_map t = <[element_descriptor main sel := tt]> (tbl_map (cd_subscriptions d)) /\
      handle_server_operation E SERVER_OP_EVENT_SUBSCRIBE packet value c s = (subscribed_reply path main sel, with_subs c d t n s)) \/
     (~ tbl_room (cd_subscriptions d) /\ tbl_map t = tbl_map (cd_subscriptions d) /\
      handle_server_operation E SERVER_OP_EVENT_SUBSCRIBE packet value c s = (Err DICEY_ENOMEM, with_subs c d t n s))).
Proof.
  intros W Hp Hsub Hd Hok Hsz. destruct (subject_steps leak s value path main sel SERVER_OP_EVENT_SUBSCRIBE packet c W Hp Hsub) as [n ->].
  pose proof (subject_valid _ _ _ _ _ Hsub) as Hsel.
  destruct (tbl_set_ok (cd_subscriptions d) (element_descriptor main sel) tt Hok Hsz) as (r & old & t & Et & Hokt & Hr).
  exists t, n. split; [done|]. rewrite Z.eqb_refl. unfold dicey_client_data_subscribe. rewrite sbind_assoc, bind_read. cbn [set_scratchpad sv_heap]. rewrite Hd.
  unfold assume. rewrite Et, sbind_assoc, sbind_lift_ok. unfold client_write, upd. srun. destruct r; srun; [right; destruct Hr as (_ & _ & Hm & Hn); by split_and!|left..].
  all: split; [apply Hr|]; unfold subscribed_reply, built, unit_message_for, path_message_for, slift;
    case_decide; [rewrite bool_decide_true by done|rewrite bool_decide_false by done]; by rewrite message_for_ok.
Qed.

Lemma subscribe_lemma leak s value path main sel packet c d :
  reg_wf leak (sv_registry s) -> dicey_packet_is_valid packet = true -> subject s value path main sel ->
  sv_heap s !! c = Some d -> tbl_ok (cd_subscriptions d) -> Z.of_nat (size (tbl_map (cd_subscriptions d))) < MAX_LEN -> tbl_room (cd_subscriptions d) ->
  exists t n, tbl_ok t /\ tbl_map t = <[element_descriptor main sel := tt]> (tbl_map (cd_subscriptions d)) /\
    handle_server_operation E SERVER_OP_EVENT_SUBSCRIBE packet value c s = (subscribed_reply path main sel, with_subs c d t n s).
Proof.
  intros W Hp Hsub Hd Hok Hsz Hroom. destruct (subscribe_cases leak s value path main sel packet c d W Hp Hsub Hd Hok Hsz) as (t & n & Ht & [[Hm E1]|[Hn _]]); [|done].
  by exists t, n.
Qed.

(** C24: subscribing to a signal and unsubscribing from it, when memory is available for the replies and
    for the descriptor of the element, and the client has fewer than 42949672 subscriptions. A subscription is recorded under the main path of the object,
    whatever path the client used, and the reply tells the main path when it was an alias; if the table of
    the client takes no more, the answer is ENOMEM and nothing is recorded. Unsubscribing removes exactly
    that subscription, or fails with ENOENT. An element that does not exist, one that is not a signal, and
    a value that has no path and selector are refused, and nothing changes. Other clients, the registry
    and the rest of the server are unchanged. *)
Theorem subscription_correct leak s value packet c d :
  reg_wf leak (sv_registry s) -> dicey_packet_is_valid packet = true ->
  sv_heap s !! c = Some d -> tbl_ok (cd_subscriptions d) -> Z.of_nat (size (tbl_map (cd_subscriptions d))) < MAX_LEN ->
  (forall path main sel, subject s value path main sel ->
    (exists t n, tbl_ok t /\
       ((tbl_map t = <[element_descriptor main sel := tt]> (tbl_map (cd_subscriptions d)) /\
         handle_server_operation E SERVER_OP_EVENT_SUBSCRIBE packet value c s = (subscribed_reply path main sel, with_subs c d t n s)) \/
        (~ tbl_room (cd_subscriptions d) /\ tbl_map t = tbl_map (cd_subscriptions d) /\
         handle_server_operation E SERVER_OP_EVENT_SUBSCRIBE packet value c s = (Err DICEY_ENOMEM, with_subs c d t n s)))) /\
    (exists t n, tbl_ok t /\ tbl_map t = delete (element_descriptor main sel) (tbl_map (cd_subscriptions d)) /\
       handle_server_operation E SERVER_OP_EVENT_UNSUBSCRIBE packet value c s =
         (if decide (is_Some (tbl_map (cd_subscriptions d) !! element_descriptor main sel)) then unit_reply path sel else Err DICEY_ENOENT,
          with_subs c d t n s))) /\
  (forall path sel opcode, extract_path_sel value = Ok (Some path, sel) -> dicey_selector_is_valid sel = true ->
    target_of s path sel = Ok None -> handle_server_operation E opcode packet value c s = (Err DICEY_EELEMENT_NOT_FOUND, s)) /\
  (forall path sel opcode entry, extract_path_sel value = Ok (Some path, sel) -> dicey_selector_is_valid sel = true ->
    target_of s path sel = Ok (Some entry) -> el_type (oe_element entry) <> DICEY_ELEMENT_TYPE_SIGNAL ->
    handle_server_operation E opcode packet value c s = (Err DICEY_EINVAL, s)) /\
  (forall e opcode, extract_path_sel value = Err e -> handle_server_operation E opcode packet value c s = (Err e, s)).
Proof.
  intros W Hp Hd Hok Hsz. split_and!.
  - intros path main sel Hsub. split; [by apply (subscribe_cases leak)|].
    destruct (subject_steps leak s value path main sel SERVER_OP_EVENT_UNSUBSCRIBE packet c W Hp Hsub) as [n ->].
    destruct (tbl_remove_ok (cd_subscriptions d) (element_descriptor main sel) Hok) as (t & Et & Hokt & Hm & _). exists t, n. split_and!; [done|done|].
    change (SERVER_OP_EVENT_UNSUBSCRIBE =? SERVER_OP_EVENT_SUBSCRIBE) with false. rewrite Z.eqb_refl. cbv iota.
    unfold dicey_client_data_unsubscribe. rewrite sbind_assoc, bind_read. cbn [set_scratchpad sv_heap]. rewrite Hd.
    unfold assume. rewrite Et, sbind_assoc, sbind_lift_ok. unfold client_write, upd. srun.
    case_decide; [rewrite bool_decide_true by done|rewrite bool_decide_false by done; done].
    unfold built, slift, unit_message_for. rewrite message_for_ok; [done|by eapply subject_valid|done].
  - intros path [[t|] [e|]] opcode Hval Hsel Ht; try done. unfold handle_server_operation. rewrite Hp. cbn [sassert].
    rewrite sbind_ret, Hval, sbind_lift_ok. cbn [trait elem].
    rewrite bind_reg_pure by apply (get_element_entry_pure path (mk_selector (Some t) (Some e))).
    unfold target_of in Ht. cbn in Ht. by rewrite Ht.
  - intros path [[t|] [e|]] opcode entry Hval Hsel Ht Hty; try done. unfold handle_server_operation. rewrite Hp. cbn [sassert].
    rewrite sbind_ret, Hval, sbind_lift_ok. cbn [trait elem].
    rewrite bind_reg_pure by apply (get_element_entry_pure path (mk_selector (Some t) (Some e))).
    unfold target_of in Ht. cbn in Ht. rewrite Ht. by rewrite bool_decide_false.
  - intros e opcode Hval. unfold handle_server_operation. rewrite Hp. cbn [sassert]. by rewrite sbind_ret, Hval.
Qed.

(** C23: subscriptions and signals together: after a client has subscribed to a signal through any
    path of the object, a signal that the server raises on the main path is sent to that client. *)
Theorem subscriber_gets_signal leak s value path main sel packet c d signal signal' msg i :
  reg_wf leak (sv_registry s) -> dicey_packet_is_valid packet = true -> subject s value path main sel ->
  sv_heap s !! c = Some d -> tbl_ok (cd_subscriptions d) -> Z.of_nat (size (tbl_map (cd_subscriptions d))) < MAX_LEN -> tbl_room (cd_subscriptions d) ->
  dicey_client_list_slots (sv_clients s) !! i = Some (Some c) -> clients_ok s -> sv_shared s !! sv_next s = None ->
  dicey_packet_as_message signal = Ok msg -> msg_path msg = Some main -> msg_selector msg = sel -> 6 <= zlen (element_descriptor main sel) ->
  dicey_packet_is_valid signal = true -> dicey_packet_set_seq signal (seq_cnt s) = Ok signal' -> sendable signal' ->
  let s1 := (handle_server_operation E SERVER_OP_EVENT_SUBSCRIBE packet value c s).2 in
  exists s2, dicey_server_raise_internal E signal s1 = (Ok tt, s2) /\ In (EvSent (cd_id d) signal') (sv_log s2).
Proof.
  intros W Hp Hsub Hd Hok Hsz Hroom Hi Hcl Hfresh Hm Hpath Hselm Hlen Hv Hseq Hsend.
  destruct (subscribe_lemma leak s value path main sel packet c d W Hp Hsub Hd Hok Hsz Hroom) as (t & n & Hokt & Hmap & ->). cbn [snd].
  set (s1 := with_subs c d t n s). pose proof (subject_valid _ _ _ _ _ Hsub) as Hsel.
  destruct (signal_reaches_lemma E Hw signal signal' msg main s1) as (s2 & E2 & _ & Hlog & _); [done|done|by rewrite Hselm|by rewrite Hselm|done|done|done| |done|].
  { intros c' Hc'. change (sv_heap s1) with (<[c := with_subscriptions t d]> (sv_heap s)). destruct (decide (c' = c)) as [->|Hne].
    - exists (with_subscriptions t d). split; [apply lookup_insert_eq|done].
    - rewrite lookup_insert_ne by done. apply Hcl, Hc'. }
  exists s2. split; [exact E2|]. rewrite Hlog, Hselm. apply in_or_app. right.
  apply list_elem_of_In, list_elem_of_fmap. exists (c, cd_id d). split; [done|]. unfold subscribers. apply list_elem_of_omap. exists (Some c).
  split; [by eapply list_elem_of_lookup_2|]. cbn [s1 with_subs set_heap sv_heap]. rewrite lookup_insert_eq. cbn [cd_subscriptions with_subscriptions cd_id].
  rewrite decide_True; [done|]. rewrite Hmap, lookup_insert_eq. by eexists.
Qed.

End subscriptions.

(** ** Witnesses *)

(** The object at [path_a], with the alias [path_b]; its trait has one signal. *)
Definition signal_element : dicey_element := mk_element DICEY_ELEMENT_TYPE_SIGNAL (Some [91; 105; 93]) 0 0.
Definition signal_trait : dicey_trait (T := map_ptr) := mk_trait name_t (Some {[ [112] := signal_element ]}).
Definition data_trait : dicey_trait (T := map_ptr) := mk_trait DICEY_INTROSPECTION_TRAIT_NAME (Some {[ [112] := sample_property ]}).
Definition signal_base : dicey_registry (T := map_ptr) :=
  mk_registry None (Some (<[ name_t := 0%nat ]> {[ DICEY_INTROSPECTION_TRAIT_NAME := 1%nat ]})) 0 ∅
    (<[ 0%nat := signal_trait ]> {[ 1%nat := data_trait ]}) 2.
Definition signal_ops : list registry_op := [AddObject path_a [name_t]; AliasObject path_a path_b].
Definition signal_registry : dicey_registry (T := map_ptr) := snd (registry_run all_objects signal_ops signal_base).

Lemma base_trait n t : (<[ name_t := 0%nat ]> {[ DICEY_INTROSPECTION_TRAIT_NAME := 1%nat ]} : gmap cstr nat) !! n = Some t ->
  (n = name_t /\ t = 0%nat) \/ (n = DICEY_INTROSPECTION_TRAIT_NAME /\ t = 1%nat).
Proof. intros [[<- <-]|[_ [<- <-]%lookup_singleton_Some]]%lookup_insert_Some; auto. Qed.

Lemma signal_trait_wf : trait_wf signal_trait.
Proof.
  split; [done|]. unfold elem_map. cbn. unfold the_map. cbn. apply map_Forall_singleton. split; [done|].
  exists [91; 105; 93], (DICEY_TYPEDESCR_VALUE [91; 105; 93]). by vm_compute.
Qed.

Lemma data_trait_wf : trait_wf data_trait.
Proof.
  split; [done|]. unfold elem_map. cbn. unfold the_map. cbn. apply map_Forall_singleton. split; [done|].
  exists [91; 105; 93], (DICEY_TYPEDESCR_VALUE [91; 105; 93]). by vm_compute.
Qed.

Lemma signal_base_wf : reg_wf no_leak signal_base.
Proof.
  split; cbn; try done. split_and!; [done| |].
  - intros n t Hn. apply base_trait in Hn as [[-> ->]|[-> ->]].
    + exists signal_trait. split_and!; [done|done|apply signal_trait_wf].
    + exists data_trait. split_and!; [done|done|apply data_trait_wf].
  - intros t Ht. cbn in *. rewrite lookup_insert_ne by lia. apply lookup_singleton_None. lia.
Qed.

Lemma signal_registry_wf : exists leak, reg_wf leak signal_registry.
Proof.
  assert (Forall op_small signal_ops) as Hs by (repeat constructor; by vm_compute).
  destruct (no_paths signal_base signal_base_wf eq_refl) as [Hf _].
  pose proof (run_lemma all_objects signal_ops no_leak signal_base signal_base_wf Hs (fun _ => eq_refl) I 0 Hf) as Hr.
  unfold signal_registry. destruct (registry_run all_objects signal_ops signal_base) as [rs r'].
  destruct Hr as [_ (leak & W & _)]; [by vm_compute|]. by exists leak.
Qed.

Lemma signal_paths : map_to_list (tbl_map (rg_paths signal_registry)) = [(path_b, mk_cell 4 2); (path_a, mk_cell 3 2)].
Proof. evaluate. Qed.

Lemma signal_path p : is_Some (tbl_map (rg_paths signal_registry) !! p) -> p = path_a \/ p = path_b.
Proof.
  intros [c Hc]. apply elem_of_map_to_list in Hc. rewrite signal_paths in Hc.
  apply elem_of_cons in Hc as [Hc|Hc]; [simplify_eq; auto|]. apply elem_of_cons in Hc as [Hc|Hc]; [simplify_eq; auto|]. by apply not_elem_of_nil in Hc.
Qed.

Lemma signal_small p : In p [path_a; path_b; name_t; DICEY_INTROSPECTION_TRAIT_NAME; [112]; [91; 105; 93]] -> cstr_small p.
Proof. intros Hin. repeat destruct Hin as [<-|Hin]; try done; (split; [|by vm_compute]); repeat constructor; done. Qed.

Lemma signal_describable : describable signal_registry.
Proof.
  split.
  - intros p Hp. apply signal_small. apply signal_path in Hp as [-> | ->]; cbn; auto.
  - vm_compute. discriminate.
  - intros n t tr Ht Hh. replace (tbl_map (rg_traits signal_registry)) with (tbl_map (rg_traits signal_base)) in Ht by (vm_compute; reflexivity).
    replace (rg_trait_heap signal_registry) with (rg_trait_heap signal_base) in Hh by (vm_compute; reflexivity).
    apply base_trait in Ht as [[-> ->]|[-> ->]]; [change (Some signal_trait = Some tr) in Hh|change (Some data_trait = Some tr) in Hh]; injection Hh as <-;
      (split_and!; [apply signal_small; cbn; auto 9|vm_compute; discriminate|]); intros e el He; unfold elem_map in He; cbn in He;
      unfold the_map in He; cbn in He; apply lookup_singleton_Some in He as [<- <-]; split; apply signal_small; cbn; auto 9.
  - intros p m ts Hd. destruct (tbl_map (rg_paths signal_registry) !! p) as [c|] eqn:Ep.
    + assert (forall q, q = path_a \/ q = path_b -> ((fun x => Z.of_nat (size x.2)) <$> directory_of signal_registry !! q) = Some 2) as Hsz
        by (intros q [-> | ->]; evaluate).
      specialize (Hsz p (signal_path p ltac:(by eexists))). rewrite Hd in Hsz. cbn in Hsz. injection Hsz as ->. done.
    + exfalso. unfold directory_of in Hd. by rewrite dir_lookup, Ep in Hd.
Qed.

Lemma introspection_paths_correct_witness :
  exists l s', craft_pathlist (fun _ => true) (fun _ => true) signal_registry PATHLIST_NO_ALIASES empty_heap =
    (reply (fun _ => true) DICEY_REGISTRY_PATH DICEY_REGISTRY_TRAIT_NAME DICEY_REGISTRY_OBJECTS_PROP_NAME (ArgArray DICEY_TYPE_PATH (path_arg <$> l)), s') /\
    path_a ∈ l /\ path_b ∉ l.
Proof.
  destruct signal_registry_wf as [leak W].
  destruct (introspection_paths_correct (fun _ => true) (fun _ => true) signal_registry (fun _ => eq_refl) leak PATHLIST_NO_ALIASES W signal_describable)
    as (l & s' & E & _ & Hl).
  exists l, s'. split_and!; [exact E|..].
  - apply Hl. eexists. reflexivity.
  - intros Hb. apply Hl in Hb as [ts Hts]. apply (f_equal (fmap fst)) in Hts. vm_compute in Hts. discriminate.
Defined.

Lemma introspection_dump_object_correct_witness :
  exists d s', introspection_dump_object (fun _ => true) (fun _ => true) signal_registry path_b empty_heap =
    (reply (fun _ => true) path_b DICEY_INTROSPECTION_TRAIT_NAME DICEY_INTROSPECTION_DATA_PROP_NAME (object_tree d), s') /\ name_t ∈ d.*1.
Proof.
  destruct signal_registry_wf as [leak W].
  pose proof (introspection_dump_object_correct (fun _ => true) (fun _ => true) signal_registry (fun _ => eq_refl) leak path_b W signal_describable) as Hd.
  assert ((fun x => (bool_decide (x.2 ⊆ known_traits signal_registry), bool_decide (name_t ∈ x.2))) <$> directory_of signal_registry !! path_b = Some (true, true)) as Hts
    by evaluate.
  destruct (directory_of signal_registry !! path_b) as [[m ts]|]; [|done]. cbn in Hts. injection Hts as Hsub Hin.
  apply bool_decide_eq_true in Hsub. apply bool_decide_eq_true in Hin.
  destruct (Hd Hsub) as (d & s' & E & _ & Hn & _). exists d, s'. split; [exact E|]. by apply Hn.
Defined.

(** The client of [signal_server] has no subscriptions yet. *)
Definition quiet_client : dicey_client_data (T := map_ptr) := mk_client CLIENT_DATA_STATE_RUNNING 0 None None None false.
Definition signal_server : dicey_server (T := map_ptr) :=
  mk_server SERVER_STATE_RUNNING 1 None false [] (Some [Some 0%nat]) signal_registry 0 {[ 0%nat := quiet_client ]} [] [] ∅ 1 [] ∅.

(** What the client sends: a path, which is an alias, and the selector of the signal. *)
Definition subscribe_packet : dicey_packet :=
  match written_packet (fun _ => true) DICEY_OP_EXEC 2 (Some DICEY_SERVER_PATH)
    (mk_selector (Some DICEY_EVENTMANAGER_TRAIT_NAME) (Some (string_bytes "Subscribe"%string)))
    (Some (ArgPair (ArgPath (Some path_b)) (ArgSelector sample_selector))) with Ok p => p | _ => DICEY_EMPTY_PACKET end.
Definition subscribe_value : dicey_value := match dicey_packet_as_message subscribe_packet with Ok m => msg_value m | _ => zero_value end.

Lemma sample_subject : subject signal_server subscribe_value path_b path_a sample_selector.
Proof. split; [evaluate|by exists name_t, [112]|evaluate|]. eexists. split; [vm_compute; reflexivity|reflexivity]. Qed.

Lemma subscription_correct_witness :
  exists t n, tbl_map t = <[element_descriptor path_a sample_selector := tt]> ∅ /\
    handle_server_operation sample_env SERVER_OP_EVENT_SUBSCRIBE subscribe_packet subscribe_value 0 signal_server =
      (subscribed_reply sample_env path_b path_a sample_selector, with_subs 0 quiet_client t n signal_server).
Proof.
  destruct signal_registry_wf as [leak W].
  destruct (subscription_correct sample_env sample_working leak signal_server subscribe_value subscribe_packet 0 quiet_client W) as [H1 _];
    [evaluate|reflexivity|done|reflexivity|].
  destruct (proj1 (H1 path_b path_a sample_selector sample_subject)) as (t & n & _ & [[Hm E]|[Hn _]]); [|by destruct Hn].
  exists t, n. split; [exact Hm|exact E].
Defined.

Lemma subscriber_gets_signal_witness :
  exists s2 p, dicey_server_raise_internal sample_env sample_signal
      (handle_server_operation sample_env SERVER_OP_EVENT_SUBSCRIBE subscribe_packet subscribe_value 0 signal_server).2 = (Ok tt, s2) /\
    In (EvSent 0 p) (sv_log s2).
Proof.
  destruct signal_registry_wf as [leak W].
  set (msg := match dicey_packet_as_message sample_signal with Ok m => m | _ => zero_message end).
  set (p := match dicey_packet_set_seq sample_signal 1 with Ok p => p | _ => DICEY_EMPTY_PACKET end).
  destruct (subscriber_gets_signal sample_env sample_working leak signal_server subscribe_value path_b path_a sample_selector subscribe_packet 0 quiet_client
    sample_signal p msg 0%nat W) as (s2 & E & Hin);
    [evaluate|exact sample_subject|reflexivity|done|reflexivity|done|reflexivity| |reflexivity|evaluate|evaluate|evaluate|vm_compute; discriminate|evaluate|evaluate| |].
  - intros c Hc. cbn in Hc. destruct Hc as [[= <-]|[]]. by exists quiet_client.
  - split; vm_compute; [reflexivity|discriminate].
  - exists s2, p. split; [exact E|exact Hin].
Defined.

(** ** Findings *)

(** A list of the operations of a trait has an empty tuple for every element of another kind. *)
Lemma filtered_list_has_holes :
  (introspection_craft_filtered_elemlist (fun _ => true) (fun _ => true) signal_registry path_a name_t DICEY_ELEMENT_TYPE_OPERATION empty_heap).1 =
  written_packet (fun _ => true) DICEY_OP_RESPONSE 0 (Some path_a) (mk_selector (Some DICEY_TRAIT_TRAIT_NAME) (Some DICEY_TRAIT_OPERATIONS_PROP_NAME))
    (Some (ArgArray DICEY_TYPE_TUPLE [ArgTuple []])).
Proof. evaluate. Qed.

(** The list of all paths is sent with the selector of the list of objects. *)
Lemma paths_reply_names_objects :
  (let! p := (introspection_craft_pathlist (fun _ => true) (fun _ => true) signal_registry empty_heap).1 in
   let! m := dicey_packet_as_message p in Ok (elem (msg_selector m))) = Ok (Some DICEY_REGISTRY_OBJECTS_PROP_NAME).
Proof. evaluate. Qed.

(** The builtins are registered, and every element of theirs finds the handler of its set. *)
Lemma builtins_register :
  let r := dicey_registry_populate_builtins (T := map_ptr) (fun _ => true) (fun _ => true) (fun _ => true) (fun _ => true) (fun _ => true)
    [dicey_registry_introspection_builtins; dicey_registry_server_builtins None] empty_registry in
  r.1 = Ok tt /\ (dicey_registry_contains_element DICEY_SERVER_PATH DICEY_EVENTMANAGER_TRAIT_NAME (string_bytes "Subscribe"%string) r.2).1 = Ok true.
Proof. split; evaluate. Qed.
