(* ===== verification/Plugins.v ===== *)
(** * Plugins on the side of the server (src/ipc/server/plugins.c, plugins-work.c, plugin-common.c)

    A plugin is a client whose pipe comes with a child process: the server spawns the process,
    gives it a name and an object of the registry when it has introduced itself, sends it jobs
    through a signal of that object, and reaps it when it exits or when its pipe is closed. What is
    kept about a plugin goes away in steps, as libuv closes its pipe, its process and its timer. *)

From S2P Require Import Prelude Errors Types Views Writer ValueWrite ValueProbe Value Codec Payload Packet Typedescr ValueValidate.
From S2P Require Import Hashtable WaitingList PendingReqs Table Traits Registry Clients Chunk Builders BuildersTheorems Names.
From S2P Require Import PluginData Server Introspection Builtins.
From stdpp Require Import strings gmap list.

#[local] Open Scope list_scope.
#[local] Open Scope Z_scope.

(** ** Names *)

(** [isupper] and [isalnum] in the C locale. *)
Definition isupper (c : Z) : bool := (65 <=? c) && (c <=? 90).
Definition islower (c : Z) : bool := (97 <=? c) && (c <=? 122).
Definition isdigit (c : Z) : bool := (48 <=? c) && (c <=? 57).
Definition isalnum (c : Z) : bool := isupper c || islower c || isdigit c.

Definition dicey_string_is_valid_plugin_name (name : option cstr) : bool :=
  match name with
  | None | Some [] => false
  | Some (c :: rest) => if negb (isupper c) then false else forallb isalnum rest
  end.

(** The name is what follows the prefix. *)
Definition dicey_plugin_name_from_path (path : cstr) : option cstr :=
  if negb (has_prefix path METAPLUGIN_PREFIX) then None else
  let name := drop (length METAPLUGIN_PREFIX) path in
  if dicey_string_is_valid_plugin_name (Some name) then Some name else None.

Definition dicey_plugin_event_kind_to_string (kind : dicey_plugin_event_kind) : cstr :=
  string_bytes
    match kind with
    | DICEY_PLUGIN_EVENT_SPAWNED => "spawned"
    | DICEY_PLUGIN_EVENT_GOT_NAME => "got_name"
    | DICEY_PLUGIN_EVENT_READY => "ready"
    | DICEY_PLUGIN_EVENT_TERMINATED => "terminated"
    | DICEY_PLUGIN_EVENT_QUITTING => "quitting"
    | DICEY_PLUGIN_EVENT_QUIT => "quit"
    | DICEY_PLUGIN_EVENT_FAILED => "failed"
    | DICEY_PLUGIN_EVENT_UNRESPONSIVE => "unresponsive"
    end%string.

(** POSIX *)
Definition KILL_SIGNAL : Z := 9.
Definition TERM_SIGNAL : Z := 15.
Definition EXIT_SUCCESS : Z := 0.

(** What the code of plugins depends on besides the environment of the server: [strdup], and what
    libuv answers for the timer and the process of the plugin at an address. *)
Record plugin_environment : Type := mk_plugin_env {
  p_strdup_ok : cstr -> bool; p_timer_init_err : nat -> option dicey_error; p_timer_start_err : nat -> option dicey_error;
  p_timer_stop_err : nat -> option dicey_error; p_spawn_err : nat -> option dicey_error; p_kill_fails : nat -> bool;
}.

Section plugins.
Context {T : Type -> Type} `{Table T}.
Context (E : environment (T := T)) (P : plugin_environment).

#[local] Abbreviation sst := (sst (T := T)).

Definition plugin_read (c : nat) : sst dicey_plugin_data := fun s =>
  (match sv_plugins s !! c with Some p => Ok p | None => Fault UseAfterFree end, s).

Definition plugin_write (c : nat) (p : dicey_plugin_data) : sst unit := upd (fun s => set_plugins (<[c := p]> (sv_plugins s)) s).

Definition plugin_out (out : plugin_output) : sst unit := log (EvPlugin out).

Definition set_process h p := mk_plugin h (process_timer p) (timer_data p) (pd_state p) (pd_info p) (next_jid p) (work_list p) (spawn_md p) (after_cleanup p).
Definition set_timer h p := mk_plugin (pd_process p) h (timer_data p) (pd_state p) (pd_info p) (next_jid p) (work_list p) (spawn_md p) (after_cleanup p).
Definition set_timer_data t p := mk_plugin (pd_process p) (process_timer p) t (pd_state p) (pd_info p) (next_jid p) (work_list p) (spawn_md p) (after_cleanup p).
Definition set_pstate st p := mk_plugin (pd_process p) (process_timer p) (timer_data p) st (pd_info p) (next_jid p) (work_list p) (spawn_md p) (after_cleanup p).
Definition set_info i p := mk_plugin (pd_process p) (process_timer p) (timer_data p) (pd_state p) i (next_jid p) (work_list p) (spawn_md p) (after_cleanup p).
Definition set_jid n p := mk_plugin (pd_process p) (process_timer p) (timer_data p) (pd_state p) (pd_info p) n (work_list p) (spawn_md p) (after_cleanup p).
Definition set_work_list l p := mk_plugin (pd_process p) (process_timer p) (timer_data p) (pd_state p) (pd_info p) (next_jid p) l (spawn_md p) (after_cleanup p).
Definition set_md md p := mk_plugin (pd_process p) (process_timer p) (timer_data p) (pd_state p) (pd_info p) (next_jid p) (work_list p) md (after_cleanup p).
Definition set_after f p := mk_plugin (pd_process p) (process_timer p) (timer_data p) (pd_state p) (pd_info p) (next_jid p) (work_list p) (spawn_md p) f.

Definition plugin_upd (c : nat) (f : dicey_plugin_data -> dicey_plugin_data) : sst unit :=
  do! p <- plugin_read c ; plugin_write c (f p).

(** Reading a string that may be NULL, and freeing one. *)
Definition str_read (p : str_ptr) : res (option cstr) :=
  match p with NullStr => Ok None | AStr s => Ok (Some s) | FreedStr => Fault UseAfterFree end.

Definition str_free (p : str_ptr) : res str_ptr :=
  match p with NullStr => Ok NullStr | AStr _ => Ok FreedStr | FreedStr => Fault InvalidFree end.

(** libuv does not accept a handle that was never started or is being closed. *)
Definition uv_close_process (c : nat) : sst unit :=
  do! p <- plugin_read c ;
  match pd_process p with
  | ProcessActive | ProcessExited => plugin_write c (set_process ProcessClosing p)
  | _ => sfault AssertFailed
  end.

Definition uv_close_timer (c : nat) (with_cb : bool) : sst unit :=
  do! p <- plugin_read c ;
  match process_timer p with
  | TimerStopped | TimerArmed _ => plugin_write c (set_timer (TimerClosing with_cb) p)
  | _ => sfault AssertFailed
  end.

(** A timer that is being closed cannot be started; one that is running starts again. *)
Definition uv_timer_start (c : nat) (cb : timer_cb) : sst unit :=
  do! p <- plugin_read c ;
  match p_timer_start_err P c, process_timer p with
  | Some e, _ => sfail e
  | None, (TimerStopped | TimerArmed _) => plugin_write c (set_timer (TimerArmed cb) p)
  | None, (TimerClosing _ | TimerClosed) => sfail DICEY_EINVAL
  | None, NoTimer => sfault AssertFailed
  end.

Definition uv_timer_stop (c : nat) : sst unit :=
  do! p <- plugin_read c ;
  match p_timer_stop_err P c with
  | Some e => sfail e
  | None => plugin_write c match process_timer p with TimerArmed _ => set_timer TimerStopped p | _ => p end
  end.

(** ** The life of a plugin (plugins.c) *)

(** The client of a plugin has the cleanup callback of plugins. *)
Definition CLIENT_DATA_IS_PLUGIN (c : nat) : sst bool := do! d <- client_read c ; sret (cd_cleanup_cb d).

Definition dicey_client_data_as_plugin (client : option nat) : sst (option nat) :=
  match client with
  | None => sret None
  | Some c => do! is_plugin <- CLIENT_DATA_IS_PLUGIN c ; sret (if is_plugin : bool then Some c else None)
  end.

Definition dicey_plugin_data_get_info (c : nat) : sst dicey_plugin_info := do! p <- plugin_read c ; sret (pd_info p).
Definition dicey_plugin_data_get_state (c : nat) : sst dicey_plugin_state := do! p <- plugin_read c ; sret (pd_state p).

Definition plugin_object_delete (name : cstr) : sst unit :=
  do! metaplugin_name <- reg (dicey_registry_format_metaname (e_block_ok E) (DICEY_METAPLUGIN_FORMAT name)) ;
  match metaplugin_name with
  | None => sfail DICEY_ENOMEM
  | Some path => reg (dicey_registry_delete_object path)
  end.

Definition run_after_cleanup (after : option after_cleanup_fn) (c : nat) : sst unit :=
  match after with None => sret tt | Some finish_cleanup => finish_client_data_cleanup c end.

(** libuv has closed the timer. *)
Definition plugin_close_timer (c : nat) : sst unit :=
  plugin_upd c (set_timer TimerClosed) ;;!
  do! p <- plugin_read c ;
  ignore (run_after_cleanup (after_cleanup p) c).

(** libuv has closed the process. *)
Definition plugin_close_process (c : nat) : sst unit :=
  plugin_upd c (set_process ProcessClosed) ;;! uv_close_timer c true.

(** *** Jobs that end *)

(** [plugin] is only the label of the output. *)
Definition plugin_work_request_sync_cb (plugin : option nat) (jid : option Z) (err : dicey_error) (result : option dicey_value) (ctx : nat) : sst unit :=
  match jid, result with
  | Some _, Some v => plugin_out (PvSyncDone plugin ctx jid err (if bool_decide (err = DICEY_OK) then Some v else None))
  | _, _ => plugin_out (PvSyncDone plugin ctx jid DICEY_ETIMEDOUT None)
  end.

Definition call_on_done (plugin : option nat) (on_done : on_work_done_fn) (jid : option Z) (err : dicey_error) (value : option dicey_value) (ctx : nat) : sst unit :=
  match on_done with
  | user_on_done => plugin_out (PvWorkDone plugin ctx jid err value)
  | sync_on_done => plugin_work_request_sync_cb plugin jid err value ctx
  end.

Definition plugin_work_request_finish (c : nat) (req : plugin_work_request) (err : dicey_error) (value : option dicey_value) : sst unit :=
  call_on_done (Some c) (pw_on_done req) (Some (pw_jid req)) err value (pw_ctx req).

Definition plugin_work_request_fail (c : nat) (req : plugin_work_request) (err : dicey_error) : sst unit := plugin_work_request_finish c req err None.

Definition dicey_server_plugin_work_request_cancel (c : nat) (elem : plugin_work_request) : sst unit := plugin_work_request_fail c elem DICEY_ECANCELLED.

Fixpoint cancel_all (c : nat) (l : list plugin_work_request) : sst unit :=
  match l with
  | [] => sret tt
  | elem :: l' => dicey_server_plugin_work_request_cancel c elem ;;! cancel_all c l'
  end.

(** [plugin_work_list_delete] *)
Definition work_list_delete (c : nat) : sst unit :=
  do! p <- plugin_read c ;
  do! jobs <- slift (array_elements (work_list p)) ;
  cancel_all c jobs ;;!
  do! l <- slift (array_delete (work_list p)) ;
  plugin_upd c (set_work_list l).

(** *** Cleanup *)

Definition plugin_deinit (data : option nat) (after : option after_cleanup_fn) : sst unit :=
  match data with
  | None => sret tt
  | Some c =>
      work_list_delete c ;;!
      do! p <- plugin_read c ;
      do! name <- slift (str_read (pi_name (pd_info p))) ;
      do! r <- attempt (match name with Some name => plugin_object_delete name | None => sret tt end) ;
      do! freed_name <- slift (str_free (pi_name (pd_info p))) ;
      do! freed_path <- slift (str_free (pi_path (pd_info p))) ;
      plugin_upd c (set_info (mk_info freed_name freed_path)) ;;!
      if bool_decide (pd_state p = PLUGIN_STATE_INVALID) then run_after_cleanup after c else
      plugin_upd c (set_after after) ;;!
      uv_close_process c ;;!
      match r with inl e => sfail e | inr _ => sret tt end
  end.

Definition kill_child (c : nat) (signal : Z) : sst unit :=
  do! p <- plugin_read c ;
  sassert (bool_decide (pd_process p = ProcessActive)) ;;!
  if p_kill_fails P c then sfault AssertFailed else plugin_out (PvKill c signal).

Definition plugin_raise_event (c : nat) (kind : dicey_plugin_event_kind) : sst unit :=
  do! info <- dicey_plugin_data_get_info c ; plugin_out (PvEvent c kind info).

Definition plugin_change_state (c : nat) (new_state : dicey_plugin_state) : sst unit :=
  plugin_upd c (set_pstate new_state) ;;!
  match new_state with
  | PLUGIN_STATE_SPAWNED => plugin_raise_event c DICEY_PLUGIN_EVENT_SPAWNED
  | PLUGIN_STATE_NAME_ASSIGNED => plugin_raise_event c DICEY_PLUGIN_EVENT_GOT_NAME
  | PLUGIN_STATE_RUNNING => plugin_raise_event c DICEY_PLUGIN_EVENT_READY
  | PLUGIN_STATE_TERMINATED => plugin_raise_event c DICEY_PLUGIN_EVENT_TERMINATED
  | PLUGIN_STATE_QUITTING => plugin_raise_event c DICEY_PLUGIN_EVENT_QUITTING
  | PLUGIN_STATE_FAILED => plugin_raise_event c DICEY_PLUGIN_EVENT_FAILED ;;! plugin_raise_event c DICEY_PLUGIN_EVENT_QUIT
  | PLUGIN_STATE_COMPLETE => plugin_raise_event c DICEY_PLUGIN_EVENT_QUIT
  | PLUGIN_STATE_INVALID => sfault AssertFailed
  end.

(** The timer of a plugin that was asked to quit. *)
Definition plugin_terminate_timedout (c : nat) : sst unit :=
  do! p <- plugin_read c ;
  sassert (bool_decide (pd_state p = PLUGIN_STATE_TERMINATED) || bool_decide (pd_state p = PLUGIN_STATE_QUITTING)) ;;!
  kill_child c KILL_SIGNAL.

Definition plugin_cleanup_disconnect_data (c : nat) : sst unit :=
  do! p <- plugin_read c ;
  match timer_data p with
  | NoTState => plugin_deinit (Some c) None
  | ATState (Some after) => plugin_upd c (set_timer_data FreedTState) ;;! plugin_deinit (Some c) (Some after)
  | ATState None => sfault AssertFailed
  | FreedTState => sfault UseAfterFree
  end.

Definition plugin_kill_disconnected (c : nat) (after : option after_cleanup_fn) : sst unit :=
  match after with
  | None => sret tt
  | Some f =>
      do! state <- malloc E ;
      match state with
      | None => sfail DICEY_ENOMEM
      | Some _ => plugin_upd c (set_timer_data (ATState (Some f)))
      end
  end ;;!
  plugin_change_state c PLUGIN_STATE_TERMINATED ;;!
  kill_child c TERM_SIGNAL ;;!
  uv_timer_start c terminate_timedout.

(** The cleanup callback of the client of a plugin. *)
Definition plugin_data_cleanup (client : option nat) (after : option after_cleanup_fn) : sst unit :=
  do! data <- dicey_client_data_as_plugin client ;
  match client, data with
  | None, _ => sret tt
  | Some _, None => sfault AssertFailed
  | Some _, Some c =>
      do! p <- plugin_read c ;
      match pd_state p with
      | PLUGIN_STATE_SPAWNED | PLUGIN_STATE_RUNNING => plugin_kill_disconnected c after
      | PLUGIN_STATE_FAILED | PLUGIN_STATE_COMPLETE => plugin_deinit (Some c) after
      | _ => sfault AssertFailed
      end
  end.

Definition plugin_cleanup (c : nat) : sst unit := plugin_data_cleanup (Some c) (Some finish_cleanup).

(** *** Spawning *)

(** The plugin, which is not set when there is no memory for it, and its identifier. When the pipe
    cannot be initialised the same block is freed twice. *)
Definition client_data_new_plugin : sst (option (nat * Z)) :=
  do! s <- sget ;
  let '(r, l) := dicey_server_reserve_id (e_block_ok E) (sv_clients s) in
  upd (set_clients l) ;;!
  do! id <- slift r ;
  do! new_plugin <- malloc E ;
  match new_plugin with
  | None => sret None
  | Some c =>
      client_write c (mk_client CLIENT_DATA_STATE_CONNECTED id None tbl_empty None false) ;;!
      plugin_write c zero_plugin ;;!
      upd (fun s => set_clients (client_list_store (sv_clients s) id c) s) ;;!
      match e_uv_pipe_err E c with
      | Some _ => ignore (dicey_client_data_cleanup E c) ;;! sfault InvalidFree
      | None =>
          client_write c (mk_client CLIENT_DATA_STATE_CONNECTED id None tbl_empty None true) ;;!
          sret (Some (c, id))
      end
  end.

(** The copy of a name that may be NULL and of a path. *)
Definition info_dup_to (c : nat) (name : option cstr) (path : cstr) : sst unit :=
  if negb (match name with Some n => p_strdup_ok P n | None => true end) then sfail DICEY_ENOMEM else
  if negb (p_strdup_ok P path) then sfail DICEY_ENOMEM else
  plugin_upd c (set_info (mk_info (match name with Some n => AStr n | None => NullStr end) (AStr path))).

Definition report_cleanup_error (err : dicey_error) (id : Z) : sst unit :=
  if bool_decide (err = DICEY_OK) then sret tt else log (EvError err (Some id)).

(** The result of a spawn or of a quit goes to the thread that waits. *)
Definition post_result (md : plugin_spawn_metadata) (err : dicey_error) : sst unit :=
  match md_wait_sem md with
  | None => sret tt
  | Some sem =>
      match md_error md with
      | None => sfault NullDeref
      | Some var => plugin_out (PvResult var err) ;;! plugin_out (PvPosted sem)
      end
  end.

(** The process has exited: libuv calls this once. *)
Definition plugin_exit_cb (c : nat) (exit_status : Z) (term_signal : Z) : sst unit :=
  plugin_upd c (set_process ProcessExited) ;;!
  plugin_upd c (fun p => match process_timer p with TimerArmed _ => set_timer TimerStopped p | _ => p end) ;;!
  do! p <- plugin_read c ;
  let was_terminated := bool_decide (pd_state p = PLUGIN_STATE_TERMINATED) in
  let failed := negb (exit_status =? EXIT_SUCCESS) || negb (term_signal =? 0) in
  plugin_change_state c (if failed then PLUGIN_STATE_FAILED else PLUGIN_STATE_COMPLETE) ;;!
  do! d <- client_read c ;
  do! r <- attempt (if was_terminated then plugin_cleanup_disconnect_data c else dicey_server_remove_client (cd_id d)) ;
  let err := match r with inl e => e | inr _ => DICEY_OK end in
  report_cleanup_error err (cd_id d) ;;!
  do! p <- plugin_read c ;
  post_result (spawn_md p) err ;;!
  match md_retval (spawn_md p) with Some var => plugin_out (PvRetval var exit_status) | None => sret tt end.

(** The timer of a plugin that was spawned. *)
Definition plugin_no_handshake_timeout (c : nat) : sst unit :=
  do! p <- plugin_read c ;
  if bool_decide (pd_state p = PLUGIN_STATE_SPAWNED)
  then plugin_raise_event c DICEY_PLUGIN_EVENT_UNRESPONSIVE ;;! kill_child c KILL_SIGNAL
  else sfault AssertFailed.

(** A one-shot timer that runs out is stopped, then its callback is called. *)
Definition timer_fires (c : nat) : sst unit :=
  do! p <- plugin_read c ;
  match process_timer p with
  | TimerArmed cb =>
      plugin_write c (set_timer TimerStopped p) ;;!
      match cb with no_handshake_timeout => plugin_no_handshake_timeout c | terminate_timedout => plugin_terminate_timedout c end
  | _ => sret tt
  end.

Definition spawn_child (c : nat) : sst unit :=
  match p_timer_init_err P c with
  | Some e => sfail e
  | None =>
      plugin_upd c (set_timer TimerStopped) ;;!
      do! info <- dicey_plugin_data_get_info c ;
      sassert (bool_decide (pi_path info <> NullStr)) ;;!
      do! r <- attempt (uv_timer_start c no_handshake_timeout) ;
      match r with
      | inl e => uv_close_timer c false ;;! sfail e
      | inr _ =>
          match p_spawn_err P c with
          | Some e => uv_close_timer c false ;;! sfail e
          | None =>
              plugin_upd c (set_process ProcessActive) ;;!
              do! d <- client_read c ;
              do! r <- attempt (dicey_server_start_reading_from_client_internal E (cd_id d)) ;
              match r with
              | inl e => ignore (dicey_server_remove_client (cd_id d)) ;;! sfail e
              | inr _ => plugin_change_state c PLUGIN_STATE_SPAWNED
              end
          end
      end
  end.

Definition plugin_spawn (md : plugin_spawn_metadata) (path : cstr) (client : option nat) : sst unit :=
  sassert (bool_decide (client = None)) ;;!
  do! new_plugin <- client_data_new_plugin ;
  match new_plugin with
  | None => sfault AssertFailed
  | Some (c, id) =>
      do! r <- attempt (info_dup_to c None path ;;! plugin_upd c (set_md md) ;;! spawn_child c) ;
      match r with
      | inr _ => sret tt
      | inl err =>
          do! clean_err <- attempt (dicey_server_cleanup_id E id) ;
          match clean_err with inl _ => sfault AssertFailed | inr _ => sfail err end
      end
  end.

(** *** Looking for plugins *)

Fixpoint find_in (slots : list (option nat)) (name : cstr) : sst (option nat) :=
  match slots with
  | [] => sret None
  | None :: slots' => find_in slots' name
  | Some c :: slots' =>
      do! is_plugin <- CLIENT_DATA_IS_PLUGIN c ;
      if negb is_plugin then find_in slots' name else
      do! p <- plugin_read c ;
      do! n <- slift (str_read (pi_name (pd_info p))) ;
      match n with
      | None => sfault NullDeref
      | Some n => if strcmp n name =? 0 then sret (Some c) else find_in slots' name
      end
  end.

Definition dicey_server_plugin_find_by_name (name : cstr) : sst (option nat) :=
  do! s <- sget ; find_in (dicey_client_list_slots (sv_clients s)) name.

Fixpoint plugin_infos (slots : list (option nat)) : sst (list dicey_plugin_info) :=
  match slots with
  | [] => sret []
  | slot :: slots' =>
      do! plugin <- dicey_client_data_as_plugin slot ;
      do! infos <- plugin_infos slots' ;
      match plugin with
      | Some c => do! p <- plugin_read c ; sret (pd_info p :: infos)
      | None => sret infos
      end
  end.

Definition PLUGIN_INFO_SIZE : Z := 16.

Fixpoint count_slots (slots : list (option nat)) (count : Z) : sst Z :=
  match slots with
  | [] => sret count
  | None :: slots' => count_slots slots' count
  | Some c :: slots' =>
      do! is_plugin <- CLIENT_DATA_IS_PLUGIN c ; count_slots slots' (if is_plugin : bool then count + 1 else count)
  end.

(** The list of clients is not NULL. *)
Definition count_plugins : sst Z :=
  do! s <- sget ;
  match sv_clients s with None => sfault AssertFailed | Some slots => count_slots slots 0 end.

(** The variables of the caller are written: [*buf], unless it is left alone, and [*count]. *)
Definition write_list (vars : option nat) (buf : option (option (list dicey_plugin_info))) (count : Z) : sst unit :=
  match vars with None => sfault UseAfterFree | Some var => plugin_out (PvListed var buf count) end.

(** The buffer of the caller, if there is one, has room for as many plugins as [*buf] says. *)
Definition plugins_list (req : plugin_list_request) : sst unit :=
  let count := ls_count req in
  do! s <- sget ;
  if negb (bool_decide (sv_state s = SERVER_STATE_RUNNING)) then sfail DICEY_EINVAL else
  do! plugin_count <- count_plugins ;
  if UINT16_MAX <? plugin_count then sfail DICEY_EOVERFLOW else
  if plugin_count =? 0 then match ls_buf req with None => sfault NullDeref | Some _ => write_list (ls_vars req) (Some None) 0 end else
  match ls_buf req with
  | None => write_list (ls_vars req) None plugin_count
  | Some target =>
      if negb (count =? 0) && (count <? plugin_count)
      then sassert (bool_decide (is_Some target)) ;;! write_list (ls_vars req) None plugin_count ;;! sfail DICEY_EOVERFLOW
      else
      if negb (bool_decide (is_Some target)) && negb (e_block_ok E (PLUGIN_INFO_SIZE * plugin_count)) then sfail DICEY_ENOMEM else
      do! infos <- plugin_infos (dicey_client_list_slots (sv_clients s)) ;
      match target with
      | Some room => if room <? plugin_count then sfault OutOfBounds else write_list (ls_vars req) (Some (Some infos)) plugin_count
      | None => write_list (ls_vars req) (Some (Some infos)) plugin_count
      end
  end.

(** [dicey_server_kick] waits for a semaphore that only the loop posts, and the loop is here. *)
Definition plugin_kill_request (name : cstr) : sst unit :=
  do! plugin <- dicey_server_plugin_find_by_name name ;
  match plugin with
  | None => sfail DICEY_EPEER_NOT_FOUND
  | Some c => do! d <- client_read c ; do! s <- sget ; dicey_server_kick E (cd_id d) (sv_next s) ;;! slift OutOfFuel
  end.

(** ** The handshake *)

Definition dicey_server_plugin_handshake_end (c : nat) : sst unit :=
  do! p <- plugin_read c ;
  if negb (bool_decide (pd_state p = PLUGIN_STATE_NAME_ASSIGNED)) then sfail DICEY_EINVAL else
  do! r <- attempt (uv_timer_stop c) ;
  match r with inl _ => sret tt | inr _ => plugin_change_state c PLUGIN_STATE_RUNNING end ;;!
  let err := match r with inl e => e | inr _ => DICEY_OK end in
  do! p <- plugin_read c ;
  match md_out_info (spawn_md p) with Some var => plugin_out (PvInfo var (pd_info p)) | None => sret tt end ;;!
  post_result (spawn_md p) err ;;!
  plugin_upd c (set_md zero_md) ;;!
  match r with inl e => sfail e | inr _ => sret tt end.

Definition plugin_subscribe_to_commands (c : nat) (path : cstr) : sst unit :=
  do! elemdescr <- dicey_element_descriptor_format_to E path PLUGIN_COMMAND_SIGNAL_SEL ;
  match elemdescr with
  | None => sfail DICEY_ENOMEM
  | Some elemdescr => dicey_client_data_subscribe c elemdescr
  end.

(** The path of the new object is returned. *)
Definition dicey_server_plugin_handshake_start (c : nat) (name : option cstr) : sst cstr :=
  match name with
  | None => sfault AssertFailed
  | Some name =>
      if negb (dicey_string_is_valid_plugin_name (Some name)) then sfail DICEY_EPLUGIN_INVALID_NAME else
      do! p <- plugin_read c ;
      if negb (bool_decide (pd_state p = PLUGIN_STATE_SPAWNED)) then sfail DICEY_EINVAL else
      sassert (bool_decide (pi_name (pd_info p) = NullStr)) ;;!
      if negb (p_strdup_ok P name) then sfail DICEY_ENOMEM else
      do! metaplugin_path <- reg (dicey_registry_format_metaname (e_block_ok E) (DICEY_METAPLUGIN_FORMAT name)) ;
      match metaplugin_path with
      | None => sfail DICEY_ENOMEM
      | Some path =>
          reg (dicey_registry_add_object_with (e_object_alloc_ok E) path [DICEY_PLUGIN_TRAIT_NAME]) ;;!
          do! r <- attempt (plugin_subscribe_to_commands c path) ;
          match r with
          | inl e => ignore (reg (dicey_registry_remove_object path)) ;;! sfail e
          | inr _ =>
              plugin_upd c (fun p => set_info (mk_info (AStr name) (pi_path (pd_info p))) p) ;;!
              plugin_change_state c PLUGIN_STATE_NAME_ASSIGNED ;;!
              sret path
          end
      end
  end.

Definition dicey_server_plugin_quitting (c : nat) : sst unit :=
  do! p <- plugin_read c ;
  if negb (bool_decide (pd_state p = PLUGIN_STATE_RUNNING)) then sfail DICEY_EINVAL else
  plugin_change_state c PLUGIN_STATE_QUITTING ;;!
  dicey_client_data_set_state c CLIENT_DATA_STATE_QUITTING ;;!
  uv_timer_start c terminate_timedout.

(** ** Jobs (plugins-work.c) *)

(** The builders a job needs: the tuple, the value of the caller, and the other elements. *)
Definition TUPLE_BUILDER : nat := 0.
Definition VALUE_BUILDER : nat := 1.
Definition ARGUMENT_BUILDER : nat := 2.

Definition PLUGIN_CMD_SEL : dicey_selector := mk_selector (Some DICEY_PLUGIN_TRAIT_NAME) (Some PLUGIN_COMMAND_SIGNAL_NAME).

Definition UINT64_MAX : Z := 18446744073709551615.

Definition TUPLE_ARGS : list dicey_arg := [ArgUnit; ArgU64 UINT64_MAX; ArgByte PLUGIN_COMMAND_HALT].
Definition PLUGIN_CMD_ARG : dicey_arg := ArgTuple TUPLE_ARGS.

(** [dicey_metaname_format_to] on the scratchpad of the server. *)
Definition scratchpad_metaname (name : cstr) : sst (option cstr) :=
  do! s <- sget ;
  do! (path, len) <- slift (dicey_metaname_format_to (e_block_ok E) (Some (scratchpad s)) (DICEY_METAPLUGIN_FORMAT name)) ;
  upd (set_scratchpad len) ;;! sret path.

Definition craft_quit_packet (target : cstr) : sst dicey_packet :=
  do! path <- scratchpad_metaname target ;
  match path with
  | None => sfail DICEY_ENOMEM
  | Some path =>
      built (clean_up (dicey_message_builder_init ;;! dicey_message_builder_begin DICEY_OP_SIGNAL ;;! dicey_message_builder_set_path path ;;!
        dicey_message_builder_set_selector PLUGIN_CMD_SEL ;;! dicey_message_builder_set_value (e_builder_ok E) PLUGIN_CMD_ARG ;;!
        dicey_message_builder_build (e_block_ok E)))
  end.

(** The two elements after the value of the caller. *)
Definition complete_tuple (jid : Z) : bst unit :=
  dicey_value_builder_next (e_builder_ok E) TUPLE_BUILDER ARGUMENT_BUILDER ;;!
  dicey_value_builder_set (e_builder_ok E) ARGUMENT_BUILDER (ArgU64 jid) ;;!
  dicey_value_builder_next (e_builder_ok E) TUPLE_BUILDER ARGUMENT_BUILDER ;;!
  dicey_value_builder_set (e_builder_ok E) ARGUMENT_BUILDER (ArgByte PLUGIN_COMMAND_DO_WORK) ;;!
  dicey_value_builder_tuple_end TUPLE_BUILDER ;;!
  dicey_message_builder_value_end TUPLE_BUILDER.

Definition complete_message (path : cstr) : bst dicey_packet :=
  dicey_message_builder_set_path path ;;! dicey_message_builder_set_selector PLUGIN_CMD_SEL ;;! dicey_message_builder_build (e_block_ok E).

(** A step of a builder: its result, and the builder as it is afterwards. *)
Definition builder_step {A} (wbs : plugin_work_builder_state) (m : bst A) : sst ((dicey_error + A) * plugin_work_builder_state) :=
  let '(r, heap) := m (wbs_heap wbs) in
  do! r <- attempt (slift r) ; sret (r, mk_wbs (wbs_name wbs) heap).

(** The packet of a job, or an error, and what is left of its builder. *)
Definition plugin_work_request_complete (wbs : plugin_work_builder_state) (jid : Z)
    : sst ((dicey_error + dicey_packet) * plugin_work_builder_state) :=
  do! (r, wbs) <- builder_step wbs (complete_tuple jid) ;
  match r with
  | inl e => sret (inl e, wbs)
  | inr _ =>
      do! path <- scratchpad_metaname (wbs_name wbs) ;
      match path with
      | None => sret (inl DICEY_ENOMEM, wbs)
      | Some path => builder_step wbs (complete_message path)
      end
  end.

(** The builder is in memory of its own; discarding it twice does nothing. *)
Definition dicey_server_plugin_work_builder_discard (builder : option plugin_work_builder_state) : res unit :=
  match builder with
  | None => Ok tt
  | Some state => (dicey_message_builder_discard (wbs_heap state)).1
  end.

(** The callback is told; then the name is freed, which is part of the state of the builder. *)
Definition plugin_send_work_data_fail (work : plugin_send_work_data) (builder : option plugin_work_builder_state) (err : dicey_error) : sst unit :=
  call_on_done None (sw_on_done work) None err None (sw_ctx work) ;;!
  do! _ <- slift (dicey_server_plugin_work_builder_discard builder) ;
  sfault InvalidFree.

Definition plugin_issue_quit (md : plugin_quit_metadata) (target : cstr) (client : option nat) : sst unit :=
  if bool_decide (is_Some client) then sfail DICEY_EACCES else
  do! r <- attempt (
    do! plugin <- dicey_server_plugin_find_by_name target ;
    match plugin with
    | None => sfail DICEY_EPEER_NOT_FOUND
    | Some c =>
        do! p <- plugin_read c ;
        if negb (bool_decide (pd_state p = PLUGIN_STATE_RUNNING)) then sfail DICEY_EINVAL else
        plugin_write c (set_md (mk_md None (quit_sem md) (quit_err md) (quit_status md)) p) ;;!
        do! request <- craft_quit_packet target ;
        dicey_server_raise_internal E request ;;!
        dicey_server_plugin_quitting c
    end) ;
  match r with
  | inr _ => sret tt
  | inl err => match quit_sem md with Some sem => plugin_out (PvPosted sem) | None => sret tt end ;;! sfail err
  end.

(** The job is in the list before its signal is raised; the number of the next job changes after. *)
Definition plugin_issue_work (req : plugin_send_work_data) (client : option nat) : sst unit :=
  if bool_decide (is_Some client) then sfail DICEY_EACCES else
  do! target <- dicey_server_plugin_find_by_name (sw_name req) ;
  match target, sw_builder req with
  | None, b => plugin_send_work_data_fail req b DICEY_ENOENT
  | Some _, None => sfault AssertFailed
  | Some c, Some wbs =>
      do! p <- plugin_read c ;
      do! (r, wbs) <- plugin_work_request_complete wbs (next_jid p) ;
      match r with
      | inl err => plugin_send_work_data_fail req (Some wbs) err
      | inr packet =>
          do! _ <- slift (dicey_server_plugin_work_builder_discard (Some wbs)) ;
          do! (entry, l) <- slift (array_append WORK_REQUEST_SIZE (e_block_ok E) (work_list p) (mk_work (next_jid p) (sw_on_done req) (sw_ctx req))) ;
          plugin_write c (set_work_list l p) ;;!
          match entry with
          | None => plugin_send_work_data_fail req None DICEY_ENOMEM
          | Some entry =>
              do! r <- attempt (dicey_server_raise_internal E packet) ;
              match r with
              | inl err =>
                  do! p <- plugin_read c ;
                  do! (_, l) <- slift (array_erase (work_list p) entry) ;
                  plugin_write c (set_work_list l p) ;;!
                  plugin_send_work_data_fail req None err
              | inr _ => plugin_upd c (fun p => set_jid (u64 (next_jid p + 1)) p)
              end
          end
      end
  end.

(** The first job with the number. *)
Fixpoint find_job (jid : Z) (l : list plugin_work_request) (i : nat) : option nat :=
  match l with
  | [] => None
  | job :: l' => if pw_jid job =? jid then Some i else find_job jid l' (S i)
  end.

Definition plugin_work_list_pop_job (list : array_ptr plugin_work_request) (jid : Z)
    : res (option plugin_work_request * array_ptr plugin_work_request) :=
  let! _ := oassert (match list with NoArray => false | _ => true end) in
  let! jobs := array_elements list in
  match find_job jid jobs 0 with
  | None => Ok (None, list)
  | Some i => let! (job, list') := array_erase list i in Ok (Some job, list')
  end.

Definition dicey_server_plugin_report_work_done (c : nat) (jid : Z) (value : dicey_value) : sst unit :=
  do! p <- plugin_read c ;
  sassert (bool_decide (pd_state p = PLUGIN_STATE_RUNNING)) ;;!
  do! (work, l) <- slift (plugin_work_list_pop_job (work_list p) jid) ;
  plugin_write c (set_work_list l p) ;;!
  match work with
  | None => sfail DICEY_ENOENT
  | Some work => plugin_work_request_finish c work DICEY_OK (Some value)
  end.

(** ** Requests to the loop *)

Definition run_plugin_request (req : plugin_request) (client : option nat) : sst unit :=
  match req with
  | spawn_request md path => plugin_spawn md path client
  | kill_request name => plugin_kill_request name
  | list_request req => plugins_list req
  | quit_request md target => plugin_issue_quit md target client
  | work_request data => plugin_issue_work data client
  end.

Definition plugin_submit (req : plugin_request) : sst unit :=
  do! block <- malloc E ;
  match block with
  | None => sfail DICEY_ENOMEM
  | Some _ => dicey_server_submit_request E (mk_loop_request (loop_plugin req) None None)
  end.

Definition plugin_submit_spawn (path : cstr) (extra_md : option plugin_spawn_metadata) : sst unit :=
  plugin_submit (spawn_request (default zero_md extra_md) path).

Definition dicey_server_list_plugins (vars : option nat) (buf : option (option Z)) (count : Z) : sst unit :=
  plugin_submit (list_request (mk_list_request vars buf count)).

Definition dicey_server_plugin_kill (name : cstr) : sst unit := plugin_submit (kill_request name).

Definition dicey_server_spawn_plugin (path : cstr) : sst unit :=
  do! s <- sget ;
  if negb (bool_decide (sv_state s = SERVER_STATE_RUNNING)) then sfail DICEY_EINVAL else plugin_submit_spawn path None.

(** The caller then waits for [sem]; its variables are [info] and [result]. *)
Definition dicey_server_spawn_plugin_and_wait (path : cstr) (info sem result : nat) : sst unit :=
  do! s <- sget ;
  if negb (bool_decide (sv_state s = SERVER_STATE_RUNNING)) then sfail DICEY_EINVAL else
  plugin_submit_spawn path (Some (mk_md (Some info) (Some sem) (Some result) None)).

Definition plugin_request_quit (target : cstr) (extra_md : option plugin_quit_metadata) : sst unit :=
  plugin_submit (quit_request (default (mk_quit_md None None None) extra_md) target).

Definition dicey_server_plugin_quit (name : cstr) : sst unit := plugin_request_quit name None.

(** The caller then waits for [sem] and returns the variable [result]. *)
Definition dicey_server_plugin_quit_and_wait (name : cstr) (sem result : nat) (retval : option nat) : sst unit :=
  plugin_request_quit name (Some (mk_quit_md (Some sem) (Some result) retval)).

Definition plugin_submit_work (work_data : plugin_send_work_data) : sst unit := plugin_submit (work_request work_data).

Definition work_request_start_steps : bst unit :=
  dicey_message_builder_init ;;!
  dicey_message_builder_begin DICEY_OP_SIGNAL ;;!
  dicey_message_builder_value_start (e_builder_ok E) TUPLE_BUILDER ;;!
  dicey_value_builder_tuple_start TUPLE_BUILDER ;;!
  dicey_value_builder_next (e_builder_ok E) TUPLE_BUILDER VALUE_BUILDER.

(** The caller gets the builder of the first element. *)
Definition dicey_server_plugin_work_request_start (plugin : cstr) : sst plugin_work_builder_state :=
  do! state <- malloc E ;
  match state with
  | None => sfail DICEY_ENOMEM
  | Some _ =>
      let '(r, heap) := work_request_start_steps empty_heap in
      match r with
      | Err e => do! _ <- slift (dicey_server_plugin_work_builder_discard (Some (mk_wbs plugin heap))) ; sfail e
      | r => do! _ <- slift r ; sret (mk_wbs plugin heap)
      end
  end.

Definition dicey_server_plugin_work_request_submit (state : plugin_work_builder_state) (on_done : on_work_done_fn) (ctx : nat) : sst unit :=
  plugin_submit_work (mk_send_work (wbs_name state) (Some state) on_done ctx).

Definition dicey_server_plugin_send_work (plugin : cstr) (payload : dicey_arg) (on_done : on_work_done_fn) (ctx : nat) : sst unit :=
  sassert (dicey_type_is_valid (arg_type payload)) ;;!
  do! builder <- dicey_server_plugin_work_request_start plugin ;
  let '(r, heap) := dicey_value_builder_set (e_builder_ok E) VALUE_BUILDER payload (wbs_heap builder) in
  let builder := mk_wbs (wbs_name builder) heap in
  match r with
  | Err e => do! _ <- slift (dicey_server_plugin_work_builder_discard (Some builder)) ; sfail e
  | r => do! _ <- slift r ; dicey_server_plugin_work_request_submit builder on_done ctx
  end.

(** The caller then waits for [ctx], which holds the semaphore and the result. *)
Definition dicey_server_plugin_send_work_and_wait (plugin : cstr) (payload : dicey_arg) (ctx : nat) : sst unit :=
  dicey_server_plugin_send_work plugin payload sync_on_done ctx.

(** ** The builtin handler (builtins/plugins/plugins.c) *)

Definition PLUGIN_OP_LIST : Z := 0.
Definition PLUGIN_OP_HANDSHAKEINTERNAL_START : Z := 1.
Definition PLUGIN_OP_QUITTING : Z := 2.
Definition PLUGIN_OP_READY : Z := 3.
Definition PLUGIN_GET_NAME : Z := 4.
Definition PLUGIN_GET_PATH : Z := 5.
Definition PLUGIN_CMD_RESPONSE : Z := 6.

(** The response to an operation. *)
Definition response_message (path trait elem : cstr) (value : dicey_arg) : sst dicey_packet :=
  built (dicey_packet_message (e_builder_ok E) (e_block_ok E) 0 DICEY_OP_RESPONSE path (mk_selector (Some trait) (Some elem)) (Some value)).

Definition handle_end_handshake (c : nat) (src_path : cstr) (value : dicey_value) : sst dicey_packet :=
  if negb (dicey_value_is value DICEY_TYPE_UNIT) then sfail DICEY_ESIGNATURE_MISMATCH else
  dicey_server_plugin_handshake_end c ;;!
  response_message src_path DICEY_PLUGIN_TRAIT_NAME PLUGIN_READY_OP_NAME ArgUnit.

Definition handle_get_plugin_property (obj_path : cstr) (opcode : Z) : sst dicey_packet :=
  match dicey_plugin_name_from_path obj_path with
  | None => sfault AssertFailed
  | Some name =>
      do! value <-
        (if opcode =? PLUGIN_GET_NAME then sret (ArgStr (Some name)) else
         do! plugin <- dicey_server_plugin_find_by_name name ;
         sassert (bool_decide (is_Some plugin)) ;;! sret (ArgPath (Some obj_path))) ;
      built (clean_up (dicey_message_builder_init ;;! dicey_message_builder_begin DICEY_OP_RESPONSE ;;! dicey_message_builder_set_path obj_path ;;!
        dicey_message_builder_set_selector (mk_selector (Some DICEY_PLUGIN_TRAIT_NAME)
          (Some (if opcode =? PLUGIN_GET_NAME then DICEY_PLUGIN_NAME_PROP_NAME else DICEY_PLUGIN_PATH_PROP_NAME))) ;;!
        dicey_message_builder_set_value (e_builder_ok E) value ;;! dicey_message_builder_build (e_block_ok E)))
  end.

Definition handle_start_handshake (c : nat) (value : dicey_value) : sst dicey_packet :=
  do! name <- slift (dicey_value_get_str value) ;
  do! obj_path <- dicey_server_plugin_handshake_start c name ;
  response_message DICEY_SERVER_PATH DICEY_PLUGINMANAGER_TRAIT_NAME PLUGINMANAGER_HANDSHAKEINTERNAL_START_OP_NAME (ArgPath (Some obj_path)).

(** [count] is 0 and [infos] is NULL when the list is written: the request has only been queued,
    with the addresses of the variables of this function. *)
Definition handle_list_plugins : sst dicey_packet :=
  dicey_server_list_plugins None (Some None) 0 ;;!
  built (clean_up (dicey_message_builder_init ;;! dicey_message_builder_begin DICEY_OP_RESPONSE ;;! dicey_message_builder_set_path DICEY_SERVER_PATH ;;!
    dicey_message_builder_set_selector (mk_selector (Some DICEY_PLUGINMANAGER_TRAIT_NAME) (Some DICEY_PLUGINMANAGER_LISTPLUGINS_OP_NAME)) ;;!
    dicey_message_builder_value_start (e_builder_ok E) 0 ;;! dicey_value_builder_array_start 0 DICEY_TYPE_PAIR ;;!
    dicey_value_builder_array_end 0 ;;! dicey_message_builder_value_end 0 ;;! dicey_message_builder_build (e_block_ok E))).

(** The number of the job and the value of the response. *)
Definition read_work_response (value : dicey_value) : res (Z * dicey_value) :=
  let! both := dicey_value_get_pair value in
  let! jid := dicey_value_get_u64 (first both) in
  Ok (jid, second both).

Definition handle_work_response (c : nat) (src_path : cstr) (value : dicey_value) : sst dicey_packet :=
  do! (jid, value) <- slift (read_work_response value) ;
  dicey_server_plugin_report_work_done c jid value ;;!
  response_message src_path DICEY_PLUGIN_TRAIT_NAME PLUGIN_REPLY_OP_NAME ArgUnit.

Definition handle_quitting (c : nat) (src_path : cstr) : sst dicey_packet :=
  do! response <- response_message src_path DICEY_PLUGIN_TRAIT_NAME PLUGIN_QUITTING_OP_NAME ArgUnit ;
  dicey_server_plugin_quitting c ;;! sret response.

(** A step of the handshake that fails ends the client; the response is empty. *)
Definition handshake_step (c : nat) (m : sst dicey_packet) : sst (dicey_packet * dicey_client_data_state) :=
  do! r <- attempt m ;
  match r with
  | inl err => ignore (dicey_server_client_raised_error E c err) ;;! sret (DICEY_EMPTY_PACKET, CLIENT_DATA_STATE_RUNNING)
  | inr response => sret (response, CLIENT_DATA_STATE_RUNNING)
  end.

Definition handle_plugin_operation (opcode : Z) (src_path : cstr) (value : dicey_value) (client : nat)
    : sst (dicey_packet * dicey_client_data_state) :=
  let running (m : sst dicey_packet) := do! response <- m ; sret (response, CLIENT_DATA_STATE_RUNNING) in
  if opcode =? PLUGIN_OP_LIST then
    (if negb (dicey_value_is_unit value) then sfail DICEY_EINVAL else running handle_list_plugins)
  else if (opcode =? PLUGIN_GET_NAME) || (opcode =? PLUGIN_GET_PATH) then running (handle_get_plugin_property src_path opcode)
  else
  do! plugin <- dicey_client_data_as_plugin (Some client) ;
  match plugin with
  | None => sfail DICEY_EACCES
  | Some c =>
      if opcode =? PLUGIN_OP_HANDSHAKEINTERNAL_START then handshake_step c (handle_start_handshake c value)
      else if opcode =? PLUGIN_OP_QUITTING then
        match dicey_plugin_name_from_path src_path with
        | None => sfault AssertFailed
        | Some plugin_name =>
            do! info <- dicey_plugin_data_get_info c ;
            do! name <- slift (str_read (pi_name info)) ;
            match name with
            | None => sfault NullDeref
            | Some name =>
                if negb (strcmp plugin_name name =? 0) then sfail DICEY_EACCES else
                do! response <- handle_quitting c src_path ; sret (response, CLIENT_DATA_STATE_QUITTING)
            end
        end
      else if opcode =? PLUGIN_OP_READY then handshake_step c (handle_end_handshake c src_path value)
      else if opcode =? PLUGIN_CMD_RESPONSE then running (handle_work_response c src_path value)
      else sfault AssertFailed
  end.

Definition plugins_handler : builtin_handler (T := T) :=
  fun opcode elem_entry path packet value client =>
    sassert (dicey_packet_is_valid packet) ;;! handle_plugin_operation opcode path value client.

End plugins.

(** ** The set of builtins *)

Definition internal_operation (name signature : string) (opcode : Z) : dicey_default_element :=
  mk_default_element (string_bytes name) DICEY_ELEMENT_TYPE_OPERATION (string_bytes signature) DICEY_ELEMENT_INTERNAL opcode.
Definition internal_signal (name signature : string) : dicey_default_element :=
  mk_default_element (string_bytes name) DICEY_ELEMENT_TYPE_SIGNAL (string_bytes signature) DICEY_ELEMENT_INTERNAL 0.

Definition pm_elements : list dicey_default_element :=
  [operation "ListPlugins" "$ -> [{ss}]" PLUGIN_OP_LIST;
   internal_operation "HandshakeInternalStart" "s -> @" PLUGIN_OP_HANDSHAKEINTERNAL_START].

Definition plugin_elements : list dicey_default_element :=
  [property "Name" "s" PLUGIN_GET_NAME; property "Path" "s" PLUGIN_GET_PATH; internal_signal "Command" "(tcv)";
   internal_operation "Quitting" "$ -> $" PLUGIN_OP_QUITTING; internal_operation "Ready" "$ -> $" PLUGIN_OP_READY;
   internal_operation "Reply" "{tv} -> $" PLUGIN_CMD_RESPONSE].

Definition plugin_traits : list dicey_default_trait :=
  [mk_default_trait DICEY_PLUGIN_TRAIT_NAME plugin_elements; mk_default_trait DICEY_PLUGINMANAGER_TRAIT_NAME pm_elements].

Definition dicey_registry_plugins_builtins : dicey_registry_builtin_set := mk_builtin_set [] plugin_traits.

(** The sets of a server with plugins, in the order they are registered. *)
Definition default_builtin_sets : list dicey_registry_builtin_set :=
  [dicey_registry_introspection_builtins; dicey_registry_plugins_builtins; dicey_registry_server_builtins (Some DICEY_PLUGINMANAGER_TRAIT_NAME)].

(** ** A server with plugins *)

Section environment.
Context {T : Type -> Type} `{Table T}.

Definition set_callbacks (E : environment (T := T)) builtins cleanup request : environment (T := T) :=
  mk_env (e_malloc_ok E) (e_block_ok E) (e_builder_ok E) (e_object_alloc_ok E) (e_uv_write_err E) (e_uv_accept_err E) (e_uv_pipe_err E)
    (e_uv_read_err E) (e_uv_async_err E) (e_on_request E) (e_user_accepts E) builtins cleanup request (e_fuel E).

(** The callbacks are the functions above: the cleanup of a client first, which the others use. *)
Definition with_cleanup (E : environment (T := T)) (P : plugin_environment) : environment (T := T) :=
  set_callbacks E [] (plugin_cleanup E P) (fun _ _ => sfault NullDeref).

Definition with_plugins (E : environment (T := T)) (P : plugin_environment) (object_xml : cstr -> option cstr) : environment (T := T) :=
  let E' := with_cleanup E P in
  set_callbacks E [introspection_handler E object_xml; plugins_handler E' P; server_handler E] (plugin_cleanup E P) (run_plugin_request E' P).

End environment.
