(* ===== verification/PluginsFrame.v ===== *)
(** * What the code of plugins does not change

    The relations of ServerFrame hold between the states before and after every callback and every
    request of plugins, so what was shown of a server holds for a server with plugins: which
    requests reach the user, and how the packets of signals are accounted for. *)

From S2P Require Import Prelude Errors Types Views Writer ValueWrite ValueProbe Value Codec Payload Packet Typedescr ValueValidate.
From S2P Require Import Hashtable WaitingList PendingReqs Table Traits Registry RegistrySpec RegistryTheorems Clients Chunk Builders BuildersTheorems Names.
From S2P Require Import PluginData Server ServerFrame ServerTheorems Introspection Builtins Plugins.
From stdpp Require Import strings gmap list.

#[local] Open Scope list_scope.
#[local] Open Scope Z_scope.

Section frame.
Context {T : Type -> Type} `{Table T}.
Context (E : environment (T := T)) (P : plugin_environment).
Context (R : dicey_server (T := T) -> dicey_server (T := T) -> Prop) (ev : event -> Prop) (Hal : allows R ev).
Hypothesis Hev : forall e, match e with EvRequest _ => True | _ => ev e end.

Lemma keep_plugin_read c : preserves R (plugin_read (T := T) c).
Proof. intros s. apply (keep_refl _ _ Hal). Qed.

Lemma keep_plugin_write c p : preserves R (plugin_write (T := T) c p).
Proof. apply keep_upd. intros s. apply (al_plugins _ _ Hal). Qed.

Lemma keep_plugin_out o : preserves R (plugin_out (T := T) o).
Proof. apply (keep_log _ _ Hal). exact (Hev (EvPlugin o)). Qed.

Lemma keep_plugin_upd c f : preserves R (plugin_upd (T := T) c f).
Proof. apply (keep_bind _ _ Hal); [apply keep_plugin_read|intros; apply keep_plugin_write]. Qed.

#[local] Ltac pk :=
  repeat (cbv beta zeta;
    first [ assumption
          | apply keep_plugin_read | apply keep_plugin_write | apply keep_plugin_out | apply keep_plugin_upd
          | progress unfold CLIENT_DATA_IS_PLUGIN, dicey_plugin_data_get_info, dicey_plugin_data_get_state, built, ignore
          | keep_step Hal Hev | solve [auto] ]).

Lemma keep_close_process_handle c : preserves R (uv_close_process (T := T) c).
Proof. unfold uv_close_process. pk. Qed.
Lemma keep_close_timer_handle c b : preserves R (uv_close_timer (T := T) c b).
Proof. unfold uv_close_timer. pk. Qed.
Lemma keep_timer_start c cb : preserves R (uv_timer_start (T := T) P c cb).
Proof. unfold uv_timer_start. pk. Qed.
Lemma keep_timer_stop c : preserves R (uv_timer_stop (T := T) P c).
Proof. unfold uv_timer_stop. pk. Qed.
Lemma keep_object_delete name : preserves R (plugin_object_delete E name).
Proof. unfold plugin_object_delete. pk. Qed.
Lemma keep_after_cleanup f c : preserves R (run_after_cleanup (T := T) f c).
Proof. unfold run_after_cleanup. destruct f as [[]|]; [apply (keep_finish_cleanup _ _ Hal)|pk]. Qed.
Lemma keep_on_done pl f jid err v ctx : preserves R (call_on_done (T := T) pl f jid err v ctx).
Proof. unfold call_on_done, plugin_work_request_sync_cb. pk. Qed.

Lemma keep_cancel_all c l : preserves R (cancel_all (T := T) c l).
Proof.
  induction l; cbn [cancel_all]; [pk|]. apply (keep_bind _ _ Hal); [|done].
  unfold dicey_server_plugin_work_request_cancel, plugin_work_request_fail, plugin_work_request_finish. apply keep_on_done.
Qed.

Lemma keep_deinit d f : preserves R (plugin_deinit E d f).
Proof.
  unfold plugin_deinit, work_list_delete. destruct d as [c|]; pk; try apply keep_object_delete; try apply keep_after_cleanup;
    try apply keep_close_process_handle; try apply keep_cancel_all.
Qed.

Lemma keep_kill_child c sig : preserves R (kill_child (T := T) P c sig).
Proof. unfold kill_child. pk. Qed.
Lemma keep_raise_event c k : preserves R (plugin_raise_event (T := T) c k).
Proof. unfold plugin_raise_event. pk. Qed.
Lemma keep_change_state c st : preserves R (plugin_change_state (T := T) c st).
Proof. unfold plugin_change_state. pk; apply keep_raise_event. Qed.

Lemma keep_kill_disconnected c f : preserves R (plugin_kill_disconnected E P c f).
Proof.
  unfold plugin_kill_disconnected. pk; try apply keep_change_state; try apply keep_kill_child; apply keep_timer_start.
Qed.

Lemma keep_as_plugin c : preserves R (dicey_client_data_as_plugin (T := T) c).
Proof. unfold dicey_client_data_as_plugin. pk. Qed.

(** The cleanup callback. *)
Lemma keep_plugin_cleanup c : preserves R (plugin_cleanup E P c).
Proof.
  unfold plugin_cleanup, plugin_data_cleanup. apply (keep_bind _ _ Hal); [apply keep_as_plugin|intros d]. pk;
    try apply keep_kill_disconnected; apply keep_deinit.
Qed.

Lemma keep_exit_cb c st sig : preserves R (plugin_exit_cb E c st sig).
Proof.
  unfold plugin_exit_cb, plugin_cleanup_disconnect_data, report_cleanup_error, post_result.
  pk; try apply keep_change_state; try apply keep_deinit; apply (keep_remove_client _ _ Hal).
Qed.

Lemma keep_timer_fires c : preserves R (timer_fires (T := T) P c).
Proof.
  unfold timer_fires, plugin_no_handshake_timeout, plugin_terminate_timedout. pk; try apply keep_raise_event; apply keep_kill_child.
Qed.

Lemma keep_closed c : preserves R (plugin_close_process (T := T) c) /\ preserves R (plugin_close_timer (T := T) c).
Proof.
  split; [unfold plugin_close_process; pk; apply keep_close_timer_handle|unfold plugin_close_timer; pk; apply keep_after_cleanup].
Qed.

Lemma keep_new_plugin : cleanup_keeps E R -> preserves R (client_data_new_plugin E).
Proof. intros Hc. unfold client_data_new_plugin. pk. by apply (keep_client_cleanup E _ _ Hal). Qed.

Lemma keep_spawn_child c : preserves R (spawn_child E P c).
Proof.
  unfold spawn_child, dicey_server_start_reading_from_client_internal. pk; try apply keep_timer_start; try apply keep_close_timer_handle;
    try apply keep_change_state; apply (keep_remove_client _ _ Hal).
Qed.

Lemma keep_spawn md path client : cleanup_keeps E R -> preserves R (plugin_spawn E P md path client).
Proof.
  intros Hc. unfold plugin_spawn, info_dup_to, dicey_server_cleanup_id. pk; try (by apply keep_new_plugin); try apply keep_spawn_child;
    try apply (keep_release_id _ _ Hal); by apply (keep_client_cleanup E _ _ Hal).
Qed.

Lemma keep_find_in slots name : preserves R (find_in (T := T) slots name).
Proof. induction slots as [|[c|] slots IH]; cbn [find_in]; pk. Qed.
Lemma keep_find name : preserves R (dicey_server_plugin_find_by_name (T := T) name).
Proof. unfold dicey_server_plugin_find_by_name. pk. apply keep_find_in. Qed.
Lemma keep_infos slots : preserves R (plugin_infos (T := T) slots).
Proof. induction slots as [|c slots IH]; cbn [plugin_infos]; pk; apply keep_as_plugin. Qed.
Lemma keep_count slots n : preserves R (count_slots (T := T) slots n).
Proof. revert n. induction slots as [|[c|] slots IH]; intros n; cbn [count_slots]; pk. Qed.

Lemma keep_list req : preserves R (plugins_list E req).
Proof. unfold plugins_list, count_plugins, write_list. pk; try apply keep_count; apply keep_infos. Qed.

Lemma keep_kill_request name : preserves R (plugin_kill_request E name).
Proof. unfold plugin_kill_request, dicey_server_kick. pk; [apply keep_find|apply (keep_submit E _ _ Hal)]. Qed.

Lemma keep_quitting c : preserves R (dicey_server_plugin_quitting (T := T) P c).
Proof.
  unfold dicey_server_plugin_quitting. pk; try apply keep_change_state; try apply (keep_set_state _ _ Hal); apply keep_timer_start.
Qed.

Lemma keep_descriptor path sel : preserves R (dicey_element_descriptor_format_to E path sel).
Proof. unfold dicey_element_descriptor_format_to. pk. Qed.

Lemma keep_handshake_start c name : preserves R (dicey_server_plugin_handshake_start E P c name).
Proof.
  unfold dicey_server_plugin_handshake_start, plugin_subscribe_to_commands, dicey_client_data_subscribe.
  pk; try apply keep_change_state; apply keep_descriptor.
Qed.

Lemma keep_handshake_end c : preserves R (dicey_server_plugin_handshake_end (T := T) P c).
Proof. unfold dicey_server_plugin_handshake_end, post_result. pk; try apply keep_change_state; apply keep_timer_stop. Qed.

(** The builtin handler. *)
Lemma keep_plugins_handler op e path p v c : preserves R (plugins_handler E P op e path p v c).
Proof.
  unfold plugins_handler, handle_plugin_operation, handle_list_plugins, dicey_server_list_plugins, plugin_submit, dicey_server_submit_request,
    handle_get_plugin_property, handshake_step, handle_start_handshake, handle_end_handshake, handle_quitting, handle_work_response,
    dicey_server_plugin_report_work_done, plugin_work_request_finish, response_message.
  pk; try apply keep_as_plugin; try apply keep_find; try apply keep_handshake_start; try apply keep_handshake_end; try apply keep_quitting;
    try apply keep_on_done; apply (keep_raised_error E _ _ Hal Hev).
Qed.

Lemma keep_metaname name : preserves R (scratchpad_metaname E name).
Proof. unfold scratchpad_metaname. pk. Qed.

Lemma keep_quit_packet name : preserves R (craft_quit_packet E name).
Proof. unfold craft_quit_packet. pk. apply keep_metaname. Qed.

Lemma keep_builder_step {A} wbs (m : bst A) : preserves R (builder_step (T := T) wbs m).
Proof. unfold builder_step. pk. Qed.

Lemma keep_work_complete wbs jid : preserves R (plugin_work_request_complete E wbs jid).
Proof. unfold plugin_work_request_complete. pk; try apply keep_builder_step; apply keep_metaname. Qed.

Lemma keep_work_fail work b err : preserves R (plugin_send_work_data_fail (T := T) work b err).
Proof. unfold plugin_send_work_data_fail. pk. apply keep_on_done. Qed.

End frame.

(** ** A server with plugins satisfies what was asked of the environment *)

Section environment.
Context {T : Type -> Type} `{Table T}.

(** The other builtin handlers. *)
Lemma keep_other_handlers (E : environment (T := T)) R ev xml :
  allows R ev -> (forall e, match e with EvRequest _ => True | _ => ev e end) ->
  (forall op e path p v c, preserves R (introspection_handler E xml op e path p v c)) /\
  (forall op e path p v c, preserves R (server_handler E op e path p v c)).
Proof.
  intros Hal Hev. split; intros.
  - unfold introspection_handler, built. keep Hal Hev.
  - unfold server_handler, handle_server_operation, dicey_element_descriptor_format_to, dicey_client_data_subscribe, dicey_client_data_unsubscribe, built.
    keep Hal Hev.
Qed.

Lemma plugins_keep (E : environment (T := T)) P xml R ev :
  allows R ev -> (forall e, match e with EvRequest _ => True | _ => ev e end) ->
  builtins_keep (with_plugins E P xml) R /\ cleanup_keeps (with_plugins E P xml) R.
Proof.
  intros Hal Hev. destruct (keep_other_handlers E R ev xml Hal Hev) as [H1 H2]. split.
  - repeat constructor; [exact H1|intros; by apply (keep_plugins_handler _ P _ _ Hal Hev)|exact H2].
  - intros c. by apply (keep_plugin_cleanup E P _ _ Hal Hev).
Qed.

(** Code that ends with the accounts it began with. *)
Lemma accounts_seq {A B} (m : sst (T := T) A) (k : A -> sst B) :
  accounts none_held m none_held -> (forall a, accounts none_held (k a) none_held) -> accounts none_held (sbind m k) none_held.
Proof. intros Hm Hk s Ha. specialize (Hm s Ha). unfold sbind. destruct (m s) as [[] s']; try done. by apply Hk. Qed.

Lemma accounts_attempt {A} (m : sst (T := T) A) : accounts none_held m none_held -> accounts none_held (attempt m) none_held.
Proof. intros Hm s Ha. specialize (Hm s Ha). unfold attempt. by destruct (m s) as [[] s']. Qed.

#[local] Ltac ac Hal Hev :=
  repeat (cbv beta zeta;
    lazymatch goal with
    | |- accounts _ (dicey_server_raise_internal _ _) _ => apply raise_internal_accounts
    | |- accounts _ (sbind _ _) _ => apply accounts_seq; [|intros]
    | |- accounts _ (attempt _) _ => apply accounts_attempt
    | |- accounts _ (match _ with _ => _ end) _ => case_match
    | |- accounts _ _ _ => apply accounts_keep;
        first [ solve [keep Hal Hev] | solve [eauto using keep_find, keep_quit_packet, keep_quitting, keep_work_complete, keep_work_fail,
                  keep_plugin_read, keep_plugin_write, keep_plugin_upd, keep_plugin_out] ]
    end).

Lemma request_accounts (E : environment (T := T)) P req client :
  cleanup_keeps E same_signals -> accounts none_held (run_plugin_request E P req client) none_held.
Proof.
  intros Hc. pose proof (allows_same_signals (T := T)) as Hal. pose proof any_event as Hev. destruct req; cbn [run_plugin_request].
  - apply accounts_keep. by apply (keep_spawn E P _ _ Hal Hev).
  - apply accounts_keep. by apply (keep_kill_request E _ _ Hal).
  - apply accounts_keep. by apply (keep_list E _ _ Hal Hev).
  - unfold plugin_issue_quit. ac Hal Hev.
  - unfold plugin_issue_work. ac Hal Hev.
Qed.

(** A server with plugins keeps the accounts of its signals, those that carry jobs included. *)
Lemma plugins_account (E : environment (T := T)) P xml : env_accounts (with_plugins E P xml).
Proof.
  pose proof (allows_same_signals (T := T)) as Hal. pose proof any_event as Hev. destruct (plugins_keep E P xml _ _ Hal Hev) as [H1 H2].
  split; [done..|]. intros r c. apply request_accounts. intros c'. by apply (keep_plugin_cleanup E P _ _ Hal Hev).
Qed.

End environment.
