(* ===== verification/PluginsScenario.v ===== *)
(** * A server with a plugin

    The life of one plugin on a server over the reference maps, step by step: it is spawned, says
    hello, introduces itself, is ready, gets a job, answers it, is asked to quit and exits. The
    witnesses and the findings about plugins are runs of this server. *)

From S2P Require Import Prelude Errors Types Views Writer ValueWrite ValueProbe Value Codec Payload Packet Typedescr ValueValidate.
From S2P Require Import Hashtable WaitingList PendingReqs Table Traits Registry RegistrySpec RegistryTheorems Clients Chunk Builders BuildersTheorems Names.
From S2P Require Import PluginData Server ServerScenario Introspection Builtins Plugins.
From stdpp Require Import strings gmap list.

#[local] Open Scope list_scope.
#[local] Open Scope Z_scope.

Definition good_plugin_env : plugin_environment :=
  mk_plugin_env (fun _ => true) (fun _ => None) (fun _ => None) (fun _ => None) (fun _ => None) (fun _ => false).

(** libuv cannot spawn the process. *)
Definition no_such_file_env : plugin_environment :=
  mk_plugin_env (fun _ => true) (fun _ => None) (fun _ => None) (fun _ => None) (fun _ => Some DICEY_EUV_UNKNOWN) (fun _ => false).

Definition plugin_server_env : environment (T := map_ptr) := with_plugins sample_env good_plugin_env (fun _ => None).

Definition builtin_registry : dicey_registry (T := map_ptr) :=
  (dicey_registry_populate_builtins (T := map_ptr) (fun _ => true) (fun _ => true) (fun _ => true) (fun _ => true) (fun _ => true)
    default_builtin_sets empty_registry).2.

Definition plugin_base : dicey_server (T := map_ptr) := set_state SERVER_STATE_RUNNING (new_server builtin_registry).

(** What a plugin sends. *)
Definition plugin_message (op : dicey_op) (seq : Z) (path : cstr) (trait elem : cstr) (value : dicey_arg) : dicey_packet :=
  match written_packet (fun _ => true) op seq (Some path) (mk_selector (Some trait) (Some elem)) (Some value) with Ok p => p | _ => DICEY_EMPTY_PACKET end.

Definition plugin_hello : dicey_packet :=
  match dicey_packet_hello (fun _ => true) 0 DICEY_PROTO_VERSION_CURRENT with Ok p => p | _ => DICEY_EMPTY_PACKET end.

Definition plugin_name : cstr := string_bytes "Worker"%string.
Definition plugin_object : cstr := DICEY_METAPLUGIN_FORMAT plugin_name.

Definition introduces (seq : Z) (name : cstr) : dicey_packet :=
  plugin_message DICEY_OP_EXEC seq DICEY_SERVER_PATH DICEY_PLUGINMANAGER_TRAIT_NAME PLUGINMANAGER_HANDSHAKEINTERNAL_START_OP_NAME (ArgStr (Some name)).
Definition is_ready (seq : Z) : dicey_packet :=
  plugin_message DICEY_OP_EXEC seq plugin_object DICEY_PLUGIN_TRAIT_NAME PLUGIN_READY_OP_NAME ArgUnit.
Definition answers (seq jid : Z) (value : dicey_arg) : dicey_packet :=
  plugin_message DICEY_OP_EXEC seq plugin_object DICEY_PLUGIN_TRAIT_NAME PLUGIN_REPLY_OP_NAME (ArgPair (ArgU64 jid) value).
Definition says_quitting (seq : Z) : dicey_packet :=
  plugin_message DICEY_OP_EXEC seq plugin_object DICEY_PLUGIN_TRAIT_NAME PLUGIN_QUITTING_OP_NAME ArgUnit.

(** Run one step after another; the first that does not succeed ends the run. *)
Fixpoint steps (l : list (sst (T := map_ptr) unit)) : sst (T := map_ptr) unit :=
  match l with [] => sret tt | m :: l' => m ;;! steps l' end.

Definition got (packet : dicey_packet) : sst (T := map_ptr) unit := client_got_packet plugin_server_env 0 packet.
Definition inbound : sst (T := map_ptr) unit := loop_request_inbound plugin_server_env.

(** libuv has closed the pipe, the process and the timer of the plugin at an address. *)
Definition pipe_closed (c : nat) : sst (T := map_ptr) unit :=
  upd (fun s => set_closing (List.filter (fun x => negb (Nat.eqb x c)) (sv_closing s)) s) ;;! on_client_end plugin_server_env c.

Definition spawn_path : cstr := string_bytes "/bin/worker"%string.

(** The plugin is at address 1: address 0 went to the request. *)
Definition spawns : list (sst unit) := [dicey_server_spawn_plugin plugin_server_env spawn_path; inbound].
Definition introduced : list (sst unit) := spawns ++ [client_got_packet plugin_server_env 1 plugin_hello; client_got_packet plugin_server_env 1 (introduces 2 plugin_name)].
Definition ready : list (sst unit) := introduced ++ [client_got_packet plugin_server_env 1 (is_ready 4)].
Definition working_on : list (sst unit) :=
  ready ++ [dicey_server_plugin_send_work plugin_server_env plugin_name (ArgI32 7) user_on_done 42; inbound].
Definition answered : list (sst unit) := working_on ++ [client_got_packet plugin_server_env 1 (answers 6 0 (ArgI32 8))].
Definition asked_to_quit : list (sst unit) := answered ++ [dicey_server_plugin_quit plugin_server_env plugin_name; inbound].
Definition exits (status : Z) : list (sst unit) := [plugin_exit_cb plugin_server_env 1 status 0].
Definition reaped : list (sst unit) := [pipe_closed 1; plugin_close_process 1; plugin_close_timer 1].

(** The events of a run. *)
Definition plugin_events (l : list event) : list dicey_plugin_event_kind :=
  omap (fun e => match e with EvPlugin (PvEvent _ k _) => Some k | _ => None end) l.
Definition job_results (l : list event) : list (nat * option Z * dicey_error) :=
  omap (fun e => match e with EvPlugin (PvWorkDone _ ctx jid err _) => Some (ctx, jid, err) | _ => None end) l.
