(* ===== verification/PluginsInv.v ===== *)
(** * The invariant of a server with plugins

    Where the memory of every client is referred to from, what the state of a plugin says about its
    process, its timer and its memory, which events the user has seen of it, and which of its jobs
    have ended. Every handler of the server keeps this, whatever the clients send and whatever
    libuv and the allocator answer. *)

From S2P Require Import Prelude Errors Types Views Writer ValueWrite ValueProbe Value Codec Payload Packet Typedescr ValueValidate.
From S2P Require Import Hashtable WaitingList PendingReqs Table Traits Registry RegistrySpec RegistryTheorems Clients Chunk Builders BuildersTheorems Names.
From S2P Require Import PluginData Server ServerFrame ServerTheorems Introspection Builtins Plugins.
From stdpp Require Import strings gmap list.

#[local] Open Scope list_scope.
#[local] Open Scope Z_scope.

(** ** The events of a plugin *)

(** The order of the events: the state after an event, and whether a [QUIT] must follow. *)
Definition next_event (st : dicey_plugin_state * bool) (kind : dicey_plugin_event_kind) : option (dicey_plugin_state * bool) :=
  match st, kind with
  | (PLUGIN_STATE_FAILED, true), DICEY_PLUGIN_EVENT_QUIT => Some (PLUGIN_STATE_FAILED, false)
  | (_, true), _ => None
  | (PLUGIN_STATE_INVALID, _), DICEY_PLUGIN_EVENT_SPAWNED => Some (PLUGIN_STATE_SPAWNED, false)
  | (PLUGIN_STATE_SPAWNED, _), DICEY_PLUGIN_EVENT_UNRESPONSIVE => Some (PLUGIN_STATE_SPAWNED, false)
  | (PLUGIN_STATE_SPAWNED, _), DICEY_PLUGIN_EVENT_GOT_NAME => Some (PLUGIN_STATE_NAME_ASSIGNED, false)
  | (PLUGIN_STATE_NAME_ASSIGNED, _), DICEY_PLUGIN_EVENT_READY => Some (PLUGIN_STATE_RUNNING, false)
  | (PLUGIN_STATE_RUNNING, _), DICEY_PLUGIN_EVENT_QUITTING => Some (PLUGIN_STATE_QUITTING, false)
  | (PLUGIN_STATE_SPAWNED, _), DICEY_PLUGIN_EVENT_TERMINATED | (PLUGIN_STATE_RUNNING, _), DICEY_PLUGIN_EVENT_TERMINATED =>
      Some (PLUGIN_STATE_TERMINATED, false)
  | ((PLUGIN_STATE_FAILED | PLUGIN_STATE_COMPLETE), _), _ => None
  | _, DICEY_PLUGIN_EVENT_FAILED => Some (PLUGIN_STATE_FAILED, true)
  | _, DICEY_PLUGIN_EVENT_QUIT => Some (PLUGIN_STATE_COMPLETE, false)
  | _, _ => None
  end.

Fixpoint run_events (st : dicey_plugin_state * bool) (l : list dicey_plugin_event_kind) : option (dicey_plugin_state * bool) :=
  match l with [] => Some st | k :: l' => next_event st k ≫= fun st' => run_events st' l' end.

(** The events of a plugin that is in state [st]. *)
Definition life_of (l : list dicey_plugin_event_kind) (st : dicey_plugin_state) : Prop :=
  run_events (PLUGIN_STATE_INVALID, false) l = Some (st, false).

Lemma run_events_app st l l' : run_events st (l ++ l') = run_events st l ≫= fun st' => run_events st' l'.
Proof. revert st. induction l as [|k l IH]; intros st; cbn; [done|]. destruct (next_event st k); cbn; [apply IH|done]. Qed.

Lemma life_app l l' st st' : life_of l st -> run_events (st, false) l' = Some (st', false) -> life_of (l ++ l') st'.
Proof. intros H1 H2. unfold life_of. by rewrite run_events_app, H1. Qed.

Definition is_final (st : dicey_plugin_state) : Prop := st = PLUGIN_STATE_FAILED \/ st = PLUGIN_STATE_COMPLETE.

(** ** What the log says of a plugin *)

Definition events_of (c : nat) (l : list plugin_output) : list dicey_plugin_event_kind :=
  omap (fun o => match o with PvEvent c' k _ => if decide (c' = c) then Some k else None | _ => None end) l.

(** The numbers of the jobs of a plugin that have ended. *)
Definition done_of (c : nat) (l : list plugin_output) : list Z :=
  omap (fun o => match o with
    | PvWorkDone (Some c') _ (Some j) _ _ | PvSyncDone (Some c') _ (Some j) _ _ => if decide (c' = c) then Some j else None
    | _ => None end) l.

Lemma events_of_app c l l' : events_of c (l ++ l') = events_of c l ++ events_of c l'.
Proof. apply omap_app. Qed.
Lemma done_of_app c l l' : done_of c (l ++ l') = done_of c l ++ done_of c l'.
Proof. apply omap_app. Qed.

(** Outputs that say nothing of the events and the jobs of plugins. *)
Definition neutral (l : list plugin_output) : Prop := forall c, events_of c l = [] /\ done_of c l = [].

(** The jobs a plugin was given, [n] of them, with their numbers. *)
Definition job_numbers (n : Z) : list Z := u64 <$> seqZ 0 n.

Lemma job_numbers_snoc n : 0 <= n -> job_numbers (n + 1) = job_numbers n ++ [u64 n].
Proof. intros Hn. unfold job_numbers. rewrite seqZ_app by lia. rewrite fmap_app. by replace (0 + n) with n by lia. Qed.

Section invariant.
Context {T : Type -> Type} `{Table T}.
Abbreviation server := (dicey_server (T := T)).

(** What holds of a plugin, from whether its pipe is closed, its address, and the outputs. *)
Context (Q : bool -> nat -> dicey_plugin_data -> list plugin_output -> Prop).

Definition outputs_of (s : server) : list plugin_output := omap (fun e => match e with EvPlugin o => Some o | _ => None end) (sv_log s).

(** ** One plugin *)

Definition pending_jobs (p : dicey_plugin_data) : list Z := pw_jid <$> array_values (work_list p).

(** Nothing was freed yet. *)
Definition whole (p : dicey_plugin_data) : Prop :=
  array_ok (work_list p) /\ (exists path, pi_path (pd_info p) = AStr path) /\ pi_name (pd_info p) <> FreedStr /\
  match pd_state p with
  | PLUGIN_STATE_INVALID | PLUGIN_STATE_SPAWNED => pi_name (pd_info p) = NullStr
  | PLUGIN_STATE_NAME_ASSIGNED | PLUGIN_STATE_RUNNING | PLUGIN_STATE_QUITTING => exists name, pi_name (pd_info p) = AStr name
  | _ => True
  end.

(** The handles, by the state: [limbo] tells that the pipe is closed, and that the memory of the
    plugin is only referred to by its process and its timer. *)
Definition handles_ok (limbo : bool) (p : dicey_plugin_data) : Prop :=
  match limbo, pd_state p with
  | false, PLUGIN_STATE_INVALID =>
      array_ok (work_list p) /\ pi_name (pd_info p) = NullStr /\ pi_path (pd_info p) <> FreedStr /\ timer_data p = NoTState /\ process_timer p <> TimerClosing true /\
      (pd_process p = NoProcess \/
       whole p /\ pd_process p = ProcessActive /\ (process_timer p = TimerStopped \/ process_timer p = TimerArmed no_handshake_timeout))
  | false, (PLUGIN_STATE_SPAWNED | PLUGIN_STATE_NAME_ASSIGNED) =>
      whole p /\ pd_process p = ProcessActive /\ timer_data p = NoTState /\ (process_timer p = TimerStopped \/ process_timer p = TimerArmed no_handshake_timeout)
  | false, PLUGIN_STATE_RUNNING => whole p /\ pd_process p = ProcessActive /\ timer_data p = NoTState /\ process_timer p = TimerStopped
  | false, PLUGIN_STATE_QUITTING =>
      whole p /\ pd_process p = ProcessActive /\ timer_data p = NoTState /\ (process_timer p = TimerStopped \/ process_timer p = TimerArmed terminate_timedout)
  | false, (PLUGIN_STATE_FAILED | PLUGIN_STATE_COMPLETE) => whole p /\ pd_process p = ProcessExited /\ process_timer p = TimerStopped
  | false, PLUGIN_STATE_TERMINATED => False
  | true, PLUGIN_STATE_TERMINATED =>
      whole p /\ pd_process p = ProcessActive /\ timer_data p = ATState (Some finish_cleanup) /\
      (process_timer p = TimerStopped \/ process_timer p = TimerArmed terminate_timedout)
  | true, (PLUGIN_STATE_FAILED | PLUGIN_STATE_COMPLETE) =>
      array_values (work_list p) = [] /\ after_cleanup p = Some finish_cleanup /\
      ((pd_process p = ProcessClosing /\ process_timer p = TimerStopped) \/ (pd_process p = ProcessClosed /\ process_timer p = TimerClosing true))
  | true, _ => False
  end.

Record plugin_inv (limbo : bool) (c : nat) (p : dicey_plugin_data) (l : list plugin_output) : Prop := {
  pv_handles : handles_ok limbo p;
  pv_events : life_of (events_of c l) (pd_state p);
  pv_jobs : exists n, 0 <= n /\ next_jid p = u64 n /\ pending_jobs p ++ done_of c l ≡ₚ job_numbers n;
}.

(** A plugin whose memory was freed, or an address that never was one. *)
Definition plugin_gone (c : nat) (l : list plugin_output) : Prop :=
  (events_of c l = [] /\ done_of c l = []) \/
  (exists st n, is_final st /\ life_of (events_of c l) st /\ 0 <= n /\ done_of c l ≡ₚ job_numbers n).

(** ** The server *)

Definition slot_clients (s : server) : list nat := omap id (dicey_client_list_slots (sv_clients s)).

(** What the code knows of a client or of a slot: that the client is in memory, and whether it is a
    plugin; that a slot holds nothing but a client. *)
Inductive known_fact : Type :=
  | Known (c : nat) (is_plugin : bool)
  | SlotOf (i : Z) (c : nat).

Definition holds (heap : gmap nat (dicey_client_data (T := T))) (l : option (list (option nat))) (x : known_fact) : Prop :=
  match x with
  | Known c b => exists d, heap !! c = Some d /\ cd_cleanup_cb d = b
  | SlotOf i c => forall old l', dicey_client_list_drop_client l i = Ok (old, l') -> old = None \/ old = Some c
  end.

(** [L]: the clients whose pipe is closed and whose process or timer is not; [K]: clients that are
    known to be in memory, and whether they are plugins. *)
Record inv (L : list nat) (K : list known_fact) (s : server) : Prop := {
  in_nodup : NoDup (slot_clients s ++ sv_closing s ++ L);
  in_heap : forall c, c ∈ slot_clients s ++ sv_closing s ++ L -> is_Some (sv_heap s !! c);
  in_fresh : forall c, is_Some (sv_heap s !! c) -> (c < sv_next s)%nat;
  in_known : forall x, x ∈ K -> holds (sv_heap s) (sv_clients s) x;
  in_flags : forall c d, sv_heap s !! c = Some d -> (cd_cleanup_cb d = true <-> is_Some (sv_plugins s !! c));
  in_memory : forall c, is_Some (sv_plugins s !! c) -> is_Some (sv_heap s !! c);
  in_limbo : forall c, c ∈ L -> is_Some (sv_plugins s !! c);
  in_plugins : forall c p, sv_plugins s !! c = Some p -> Q (bool_decide (c ∈ L)) c p (outputs_of s);
  in_gone : forall c, sv_plugins s !! c = None -> plugin_gone c (outputs_of s);
  in_new : forall c, (sv_next s <= c)%nat -> events_of c (outputs_of s) = [] /\ done_of c (outputs_of s) = [];
}.

(** Whatever [m] returns without a fault, the invariant holds afterwards. *)
Definition stable (L : list nat) (K : list known_fact) {A} (m : sst (T := T) A) : Prop :=
  forall s, inv L K s -> match m s with (Ok _, s') | (Err _, s') => inv L K s' | _ => True end.

(** ** Updates the invariant does not see *)

Lemma inv_view L K s s' :
  inv L K s -> sv_clients s' = sv_clients s -> sv_closing s' = sv_closing s -> sv_heap s' = sv_heap s -> sv_plugins s' = sv_plugins s ->
  outputs_of s' = outputs_of s -> (sv_next s <= sv_next s')%nat -> inv L K s'.
Proof.
  intros [] E1 E2 E3 E4 E5 E6. unfold slot_clients in *. split; unfold slot_clients; rewrite ?E1, ?E2, ?E3, ?E4, ?E5; try done.
  - intros c Hc. specialize (in_fresh0 c Hc). lia.
  - intros c Hc. apply in_new0. lia.
Qed.

Lemma st_view L K f :
  (forall s : server, sv_clients (f s) = sv_clients s /\ sv_closing (f s) = sv_closing s /\ sv_heap (f s) = sv_heap s /\
    sv_plugins (f s) = sv_plugins s /\ sv_log (f s) = sv_log s /\ (sv_next s <= sv_next (f s))%nat) -> stable L K (upd f).
Proof. intros Hf s Hi. destruct (Hf s) as (E1 & E2 & E3 & E4 & E5 & E6). cbn. apply (inv_view L K s); try done. unfold outputs_of. by rewrite E5. Qed.

Lemma st_log L K e : (forall o, e <> EvPlugin o) -> stable L K (log (T := T) e).
Proof.
  intros He s Hi. cbn. apply (inv_view L K s); try done. unfold outputs_of. cbn. rewrite omap_app. cbn. destruct e; try (by rewrite app_nil_r).
  by destruct (He out).
Qed.

(** ** Walking through code *)

Lemma st_bind L K {A B} (m : sst A) (k : A -> sst B) : stable L K m -> (forall a, stable L K (k a)) -> stable L K (sbind m k).
Proof. intros Hm Hk s Hi. specialize (Hm s Hi). unfold sbind. destruct (m s) as [[] s']; try done. by apply Hk. Qed.

Lemma st_lift L K {A} (m : res A) : stable L K (slift m).
Proof. intros s Hi. by destruct m. Qed.
Lemma st_bind_lift L K {A B} (m : res A) (k : A -> sst B) : (forall a, m = Ok a -> stable L K (k a)) -> stable L K (sbind (slift m) k).
Proof. intros Hk s Hi. unfold sbind, slift. destruct m; try done. by apply Hk. Qed.
Lemma st_ret L K {A} (a : A) : stable L K (sret a).
Proof. by intros s Hi. Qed.
Lemma st_fail L K {A} e : stable L K (sfail e : sst A).
Proof. by intros s Hi. Qed.
Lemma st_fault L K {A} f : stable L K (sfault f : sst A).
Proof. by intros s Hi. Qed.
Lemma st_get L K : stable L K (sget (S := server)).
Proof. by intros s Hi. Qed.
Lemma st_assert L K b : stable L K (sassert b).
Proof. intros s Hi. by destruct b. Qed.
Lemma st_assume L K {A} (m : res A) : stable L K (assume m).
Proof. apply st_lift. Qed.
Lemma st_attempt L K {A} (m : sst A) : stable L K m -> stable L K (attempt m).
Proof. intros Hm s Hi. specialize (Hm s Hi). unfold attempt. by destruct (m s) as [[] s']. Qed.
Lemma st_ignore L K {A} (m : sst A) : stable L K m -> stable L K (ignore m).
Proof. intros Hm. unfold ignore. apply st_bind; [by apply st_attempt|intros; apply st_ret]. Qed.
Lemma st_reg L K {A} (m : rst A) : stable L K (reg m).
Proof.
  intros s Hi. unfold reg. destruct (m (sv_registry s)) as [r rg]. assert (inv L K (set_registry rg s)) by (by apply (inv_view L K s)). by destruct r.
Qed.
Lemma st_malloc E L K : stable L K (malloc E).
Proof. intros s Hi. unfold malloc. cbn. apply (inv_view L K s); try done. cbn. lia. Qed.
Lemma st_read L K c : stable L K (client_read c).
Proof. intros s Hi. unfold client_read. by destruct (sv_heap s !! c). Qed.

(** What is known grows with the clients that are read, *)
Lemma inv_learn L K s c d : inv L K s -> sv_heap s !! c = Some d -> inv L (Known c (cd_cleanup_cb d) :: K) s.
Proof. intros Hi Hd. destruct Hi. split; try done. intros x [->|Hx]%elem_of_cons; [by exists d|by apply in_known0]. Qed.

Lemma inv_forget L K K' s : inv L K s -> (forall x, x ∈ K' -> x ∈ K) -> inv L K' s.
Proof. intros Hi HK. destruct Hi. split; try done. intros x Hx. apply in_known0, HK, Hx. Qed.

Lemma st_bind_read L K {B} c (k : dicey_client_data -> sst B) :
  (forall d, stable L (Known c (cd_cleanup_cb d) :: K) (k d)) -> stable L K (sbind (client_read c) k).
Proof.
  intros Hk s Hi. rewrite bind_read. destruct (sv_heap s !! c) as [d|] eqn:Ed; [|done].
  specialize (Hk d s (inv_learn L K s c d Hi Ed)). destruct (k d s) as [[] s']; try done; by eapply inv_forget; [exact Hk|intros x Hx; by apply elem_of_cons; right].
Qed.

(** and allows these to be written. *)
Lemma st_write L K c d : Known c (cd_cleanup_cb d) ∈ K -> stable L K (client_write c d).
Proof.
  intros Hc s Hi. destruct (in_known _ _ _ Hi _ Hc) as (d0 & Hd0 & Hf). destruct Hi. cbn. split; cbn; try done.
  - intros c' Hc'. destruct (decide (c' = c)) as [->|]; [rewrite lookup_insert_eq; eauto|rewrite lookup_insert_ne by done; auto].
  - intros c' Hc'. destruct (decide (c' = c)) as [->|]; [apply in_fresh0; eauto|rewrite lookup_insert_ne in Hc' by done; auto].
  - intros [c' b|i c'] Hc'; specialize (in_known0 _ Hc'); cbn in *; [|done]. destruct (decide (c' = c)) as [->|]; [|by rewrite lookup_insert_ne by done].
    exists d. rewrite lookup_insert_eq. split; [done|]. destruct in_known0 as (d1 & Hd1 & <-). congruence.
  - intros c' d' Hc'. destruct (decide (c' = c)) as [->|]; [|rewrite lookup_insert_ne in Hc' by done; auto]. rewrite lookup_insert_eq in Hc'. injection Hc' as <-.
    rewrite <- Hf. by apply in_flags0.
  - intros c' Hc'. destruct (decide (c' = c)) as [->|]; [rewrite lookup_insert_eq; eauto|rewrite lookup_insert_ne by done; auto].
Qed.

(** ** Slots *)

Lemma omap_insert (l : list (option nat)) i x : (i < length l)%nat ->
  omap id (<[i := x]> l) ≡ₚ (match x with Some c => [c] | None => [] end) ++ omap id (<[i := None]> l).
Proof.
  intros Hi. rewrite !insert_take_drop by done. rewrite !omap_app. cbn [omap list_omap id]. fold (omap id (drop (S i) l)).
  destruct x as [c|]; cbn; [|done]. symmetry. apply Permutation_middle.
Qed.

(** A slot is emptied, or filled. *)
Lemma omap_drop (l : list (option nat)) i :
  omap id l ≡ₚ (match (match l !! i with Some c => c | None => None end) with Some c => [c] | None => [] end) ++ omap id (<[i := None]> l).
Proof.
  destruct (l !! i) as [x|] eqn:E; [|by rewrite list_insert_ge by (by apply lookup_ge_None)].
  rewrite <- (omap_insert l i x) by (by eapply lookup_lt_Some). by rewrite list_insert_id.
Qed.

Lemma omap_fill (l : list (option nat)) i c : (match l !! i with Some (Some _) => False | _ => True end) ->
  omap id (<[i := Some c]> l) ≡ₚ c :: omap id l \/ <[i := Some c]> l = l.
Proof.
  intros Hl. destruct (l !! i) as [[]|] eqn:E; [done|left|right; by rewrite list_insert_ge by (by apply lookup_ge_None)].
  rewrite omap_insert by (by eapply lookup_lt_Some). cbn. by rewrite (list_insert_id l i None).
Qed.

Lemma omap_replicate_None n (l : list (option nat)) : omap id (l ++ replicate n None) = omap id l.
Proof. rewrite omap_app. replace (omap id (replicate n (None : option nat))) with (@nil nat); [apply app_nil_r|]. by induction n. Qed.

(** The slots of the clients after a release. *)
Lemma drop_clients (s : server) id old l : dicey_client_list_drop_client (sv_clients s) id = Ok (old, l) ->
  slot_clients s ≡ₚ (match old with Some c => [c] | None => [] end) ++ slot_clients (set_clients l s).
Proof.
  unfold dicey_client_list_drop_client, slot_clients. cbn. destruct (sv_clients s) as [slots|]; [|done].
  destruct ((0 <=? id) && _) eqn:Ed; intros [= <- <-]; cbn; [|done].
  apply omap_drop.
Qed.

(** The places clients are referred to from may change as long as none is added. *)
Lemma inv_places L K s l cl :
  inv L K s -> (forall x, x ∈ K -> holds (sv_heap s) (sv_clients s) x -> holds (sv_heap s) l x) -> NoDup (omap id (dicey_client_list_slots l) ++ cl ++ L) ->
  (forall c, c ∈ omap id (dicey_client_list_slots l) ++ cl -> c ∈ slot_clients s ++ sv_closing s) -> inv L K (set_closing cl (set_clients l s)).
Proof.
  intros [] HK Hn Hsub. split; try done; [|by intros x Hx; apply HK, in_known0]. intros c Hc. apply in_heap0. cbn in Hc. rewrite !elem_of_app in *. unfold slot_clients in Hc. cbn in Hc.
  destruct Hc as [Hc|[Hc|Hc]]; [specialize (Hsub c)..|tauto]; rewrite !elem_of_app in Hsub; tauto.
Qed.

Lemma drop_holds heap l id old l' x : dicey_client_list_drop_client l id = Ok (old, l') -> holds heap l x -> holds heap l' x.
Proof.
  intros Hd. destruct x as [c b|i c]; [done|]. cbn. unfold dicey_client_list_drop_client in *. destruct l as [slots|]; [|done].
  destruct ((0 <=? id) && (id <? zlen slots)) eqn:Eb; injection Hd as <- <-; [|done]. intros Hh old' l'' Hd'. unfold zlen in *. rewrite length_insert in Hd'.
  destruct ((0 <=? i) && (i <? _)) eqn:Eb'; [|injection Hd' as <- <-; by left]. injection Hd' as <- <-.
  destruct (decide (Z.to_nat i = Z.to_nat id)) as [->|]; [rewrite list_lookup_insert_eq by lia; by left|].
  rewrite list_lookup_insert_ne by done. by eapply Hh.
Qed.

Lemma set_closing_same (s : server) : set_closing (sv_closing s) s = s.
Proof. by destruct s. Qed.

Lemma inv_drop L K s id old l : inv L K s -> dicey_client_list_drop_client (sv_clients s) id = Ok (old, l) ->
  inv L K (set_clients l s) /\
  match old with
  | Some c => (c ∉ slot_clients (set_clients l s) ++ sv_closing s ++ L) /\ is_Some (sv_heap s !! c) /\
      inv L K (set_closing (sv_closing s ++ [c]) (set_clients l s))
  | None => True
  end.
Proof.
  intros Hi Hd. pose proof (drop_clients s id old l Hd) as Hp. pose proof (in_nodup _ _ _ Hi) as Hn. rewrite Hp in Hn. rewrite <- (app_assoc _ _ (_ ++ _)) in Hn.
  assert (forall c, c ∈ slot_clients (set_clients l s) -> c ∈ slot_clients s) as Hsub by (intros c Hc; rewrite Hp; apply elem_of_app; by right).
  split.
  - rewrite <- (set_closing_same (set_clients l s)). apply inv_places; [done|intros x _; by eapply drop_holds|by apply NoDup_app in Hn as (_ & _ & ?)|].
    intros c Hc. rewrite !elem_of_app in *. destruct Hc as [Hc|Hc]; [left; by apply Hsub|by right].
  - destruct old as [c|]; [|done]. cbn in Hn. apply NoDup_cons in Hn as [Hc Hn]. split_and!; [exact Hc| |].
    + apply (in_heap _ _ _ Hi). rewrite Hp. by left.
    + apply inv_places; [done|intros x _; by eapply drop_holds| |].
      * fold (slot_clients (set_clients l s)). rewrite <- (app_assoc _ [c]). rewrite (app_assoc (sv_closing s)), (Permutation_app_comm (sv_closing s) [c]).
        rewrite <- app_assoc. cbn [app]. rewrite <- Permutation_middle. by apply NoDup_cons.
      * intros c' Hc'. fold (slot_clients (set_clients l s)) in Hc'. rewrite Hp. rewrite !elem_of_app, list_elem_of_singleton in *. tauto.
Qed.

Lemma st_release L K id : stable L K (dicey_server_release_id id).
Proof.
  intros s Hi. unfold dicey_server_release_id, sbind, sget, slift, upd. destruct (dicey_client_list_drop_client (sv_clients s) id) as [[old l]| | |] eqn:Hd; try done.
  cbn. by apply (inv_drop L K s id old l).
Qed.

Lemma st_remove L K id : stable L K (dicey_server_remove_client id).
Proof.
  intros s Hi. unfold dicey_server_remove_client, dicey_server_release_id, sbind, sget, slift, upd.
  destruct (dicey_client_list_drop_client (sv_clients s) id) as [[old l]| | |] eqn:Hd; try done. cbn. destruct (inv_drop L K s id old l Hi Hd) as [H1 H2].
  destruct old as [c|]; cbn; [apply H2|done].
Qed.

(** A new client: the slot, then the memory. *)
Lemma reserve_slot alloc_ok (s : server) r l : dicey_server_reserve_id alloc_ok (sv_clients s) = (r, l) ->
  match r with
  | Ok i => slot_clients (set_clients l s) = slot_clients s /\ 0 <= i /\ match dicey_client_list_slots l !! Z.to_nat i with Some (Some _) => False | _ => True end
  | Err _ => l = None
  | _ => False
  end.
Proof.
  unfold dicey_server_reserve_id, dicey_client_list_new_bucket, slot_clients. cbn.
  assert (forall l0 l1 : option (list (option nat)), client_list_grow alloc_ok l0 = Some (default [] l1) -> l1 <> None ->
    omap id (dicey_client_list_slots l1) = omap id (dicey_client_list_slots l0) /\
    match dicey_client_list_slots l1 !! Z.to_nat (match l0 with Some x => zlen x | None => 0 end) with Some (Some _) => False | _ => True end) as Hg.
  { intros l0 l1 Hg Hl1. unfold client_list_grow in Hg. destruct (_ <? _); [done|]. destruct (alloc_ok _); [|done]. injection Hg as Hg.
    destruct l1 as [l1|]; [|done]. cbn in *. subst l1. rewrite omap_replicate_None. split; [by destruct l0|].
    rewrite lookup_app_r by (destruct l0; cbn; unfold zlen; lia). by destruct (replicate _ None !! _) as [x|] eqn:Ex; [apply lookup_replicate in Ex as [-> _]|]. }
  destruct (sv_clients s) as [slots|].
  - pose proof (first_empty_spec slots 0) as Hf. destruct (first_empty slots 0) as [j|].
    + intros [= <- <-]. destruct Hf as (_ & Hj & _). rewrite Nat.sub_0_r in Hj. cbn. rewrite Nat2Z.id, Hj. split_and!; (done || lia).
    + destruct (client_list_grow alloc_ok (Some slots)) as [l'|] eqn:Eg; intros [= <- <-]; [|done].
      destruct (Hg (Some slots) (Some l') Eg ltac:(done)) as [G1 G2]. split_and!; [exact G1|unfold zlen; lia|exact G2].
  - destruct (client_list_grow alloc_ok None) as [l'|] eqn:Eg; intros [= <- <-]; [|done].
    destruct (Hg None (Some l') Eg ltac:(done)) as [G1 G2]. split_and!; [exact G1|lia|exact G2].
Qed.

Lemma st_reserved alloc_ok L s r l : inv L [] s -> dicey_server_reserve_id alloc_ok (sv_clients s) = (r, l) -> inv L [] (set_clients l s).
Proof.
  intros Hi Hr. pose proof (reserve_slot alloc_ok s r l Hr) as Hs. pose proof (in_nodup _ _ _ Hi) as Hn.
  rewrite <- (set_closing_same (set_clients l s)). apply inv_places; [done|by intros x Hx%not_elem_of_nil| |]; change (omap id (dicey_client_list_slots l)) with (slot_clients (set_clients l s)).
  - destruct r; try done; [destruct Hs as [-> _]; done|subst l; by apply NoDup_app in Hn as (_ & _ & ?)].
  - intros c Hc. destruct r; try done; [destruct Hs as [Hs _]; by rewrite <- Hs|subst l].
    apply elem_of_app in Hc as [Hc|Hc]; [by apply not_elem_of_nil in Hc|apply elem_of_app; by right].
Qed.

Lemma inv_add L K s d : inv L K s -> cd_cleanup_cb d = false ->
  let s' := set_heap (<[sv_next s := d]> (sv_heap s)) (set_next (S (sv_next s)) s) in
  inv L K s' /\ sv_heap s !! sv_next s = None /\ sv_plugins s !! sv_next s = None /\ sv_next s ∉ slot_clients s ++ sv_closing s ++ L.
Proof.
  intros Hi Hf s'. assert (sv_heap s !! sv_next s = None) as Hnew.
  { destruct (sv_heap s !! sv_next s) eqn:E; [|done]. specialize (in_fresh _ _ _ Hi (sv_next s)). rewrite E. intros Hx. specialize (Hx ltac:(eauto)). lia. }
  assert (sv_plugins s !! sv_next s = None) as Hnp.
  { destruct (sv_plugins s !! sv_next s) eqn:E; [|done]. destruct (in_memory _ _ _ Hi (sv_next s)); [rewrite E; eauto|congruence]. }
  split_and!; try done; [|intros Hc; destruct (in_heap _ _ _ Hi _ Hc); congruence]. destruct Hi. unfold s'. split; cbn; try done.
  - intros c Hc. destruct (decide (c = sv_next s)) as [->|]; [rewrite lookup_insert_eq; eauto|rewrite lookup_insert_ne by done; auto].
  - intros c Hc. destruct (decide (c = sv_next s)) as [->|]; [lia|rewrite lookup_insert_ne in Hc by done; specialize (in_fresh0 c Hc); lia].
  - intros [c b|i c] Hc; specialize (in_known0 _ Hc); [|done]. destruct in_known0 as (d0 & Hd0 & Hb). exists d0. split; [|done].
    rewrite lookup_insert_ne; [done|congruence].
  - intros c d0 Hc. destruct (decide (c = sv_next s)) as [->|]; [|rewrite lookup_insert_ne in Hc by done; auto].
    rewrite lookup_insert_eq in Hc. injection Hc as <-. rewrite Hf, Hnp. split; [done|by intros []].
  - intros c Hc. destruct (decide (c = sv_next s)) as [->|]; [rewrite lookup_insert_eq; eauto|rewrite lookup_insert_ne by done; auto].
  - intros c Hc. apply in_new0. lia.
Qed.

Lemma inv_fill L s i c : inv L [] s -> is_Some (sv_heap s !! c) -> c ∉ slot_clients s ++ sv_closing s ++ L ->
  match dicey_client_list_slots (sv_clients s) !! Z.to_nat i with Some (Some _) => False | _ => True end ->
  let s' := set_clients (client_list_store (sv_clients s) i c) s in
  inv L [] s' /\ (0 <= i -> holds (sv_heap s') (sv_clients s') (SlotOf i c)).
Proof.
  intros Hi Hc Hnot Hslot s'. unfold slot_clients in *. destruct (sv_clients s) as [slots|] eqn:Es; cbn in *.
  2:{ split; [|done]. unfold s'. by replace (set_clients None s) with s by (destruct s; cbn in *; by subst). }
  split.
  - destruct (omap_fill slots (Z.to_nat i) c Hslot) as [Hp|Hp].
    + assert (slot_clients s' ≡ₚ c :: slot_clients s) as Hs' by (unfold slot_clients, s'; cbn; rewrite Es; exact Hp).
      assert (slot_clients s = omap id slots) as Hs by (unfold slot_clients; by rewrite Es). rewrite <- Hs in Hnot.
      destruct Hi. split; try done; cbn [sv_closing set_clients s']; try (by intros x Hx%not_elem_of_nil).
      * rewrite Hs'. cbn. by apply NoDup_cons.
      * intros c'. rewrite Hs'. cbn. intros [->|Hc']%elem_of_cons; [done|auto].
    + unfold s'. cbn. rewrite Hp. rewrite <- Es. replace (set_clients (sv_clients s) s) with s by (by destruct s). done.
  - intros Hpos old l Hd. cbn in Hd. destruct (Z.leb_spec 0 i); [|lia]. cbn [andb] in Hd. destruct (Z.ltb_spec i (zlen (<[Z.to_nat i:=Some c]> slots))); injection Hd as <- _; [|by left].
    right. rewrite list_lookup_insert_eq; [done|]. unfold zlen in *. rewrite length_insert in *. lia.
Qed.

End invariant.

(** Find a client among those that are known. *)
Ltac known := cbn [cd_cleanup_cb with_cstate with_pending with_subscriptions with_chunk]; repeat (apply elem_of_cons; first [left; reflexivity | right]); assumption.

Ltac st_step :=
  lazymatch goal with
  | |- stable _ _ _ (sbind (slift _) _) => apply st_bind_lift; intros
  | |- stable _ _ _ (sbind (client_read _) _) => apply st_bind_read; intros
  | |- stable _ _ _ (sbind _ _) => apply st_bind; [|intros]
  | |- stable _ _ _ (sret _) => apply st_ret
  | |- stable _ _ _ (sfail _) => apply st_fail
  | |- stable _ _ _ (sfault _) => apply st_fault
  | |- stable _ _ _ sget => apply st_get
  | |- stable _ _ _ (slift _) => apply st_lift
  | |- stable _ _ _ (sassert _) => apply st_assert
  | |- stable _ _ _ (assume _) => apply st_assume
  | |- stable _ _ _ (attempt _) => apply st_attempt
  | |- stable _ _ _ (ignore _) => apply st_ignore
  | |- stable _ _ _ (reg _) => apply st_reg
  | |- stable _ _ _ (malloc _) => apply st_malloc
  | |- stable _ _ _ (client_read _) => apply st_read
  | |- stable _ _ _ (client_write _ _) => apply st_write; known
  | |- stable _ _ _ (log _) => apply st_log; discriminate
  | |- stable _ _ _ (dicey_server_remove_client _) => apply st_remove
  | |- stable _ _ _ (dicey_server_release_id _) => apply st_release
  | |- stable _ _ _ (upd _) => apply st_view; intros; repeat split; cbn; lia
  | |- stable _ _ _ (match _ with _ => _ end) => case_match
  end.

Ltac st := repeat (cbv beta zeta; first [assumption | st_step]).

(** ** The handlers of the server *)

Section handlers.
Context {T : Type -> Type} `{Table T}.
Context (Q : bool -> nat -> dicey_plugin_data -> list plugin_output -> Prop) (E : environment (T := T)) (L : list nat).

Lemma st_shared_read K p : stable Q L K (shared_read (T := T) p).
Proof. intros s Hi. unfold shared_read. by destruct (sv_shared s !! p). Qed.

#[local] Ltac sp := repeat (cbv beta zeta; first [assumption | apply st_shared_read | st_step]).

Lemma st_outbound K p : stable Q L K (outbound_packet_is_valid (T := T) p) /\ stable Q L K (outbound_packet_size (T := T) p) /\
  stable Q L K (outbound_packet_payload (T := T) p) /\ stable Q L K (outbound_packet_borrow (T := T) p) /\ stable Q L K (outbound_packet_cleanup (T := T) p).
Proof.
  destruct p; cbn; unfold dicey_shared_packet_is_valid, dicey_shared_packet_size, dicey_shared_packet_borrow, dicey_shared_packet_unref; split_and!; sp.
Qed.

Lemma st_sendpkt K c p : stable Q L K (server_sendpkt E c p).
Proof. destruct (st_outbound K p) as (H1 & H2 & H3 & H4 & H5). unfold server_sendpkt. destruct c as [c|]; sp; by apply st_outbound. Qed.

Lemma st_send_or_cleanup K c p : stable Q L K (send_or_cleanup E c p).
Proof. unfold send_or_cleanup. st; [apply st_sendpkt|apply st_outbound]. Qed.

Lemma st_kick K c reason : stable Q L K (server_kick_client E c reason).
Proof. unfold server_kick_client, server_next_seq. st. apply st_send_or_cleanup. Qed.

Lemma st_report_error K c p e : stable Q L K (server_report_error E c p e).
Proof. unfold server_report_error. st. apply st_send_or_cleanup. Qed.

Lemma st_set_cstate K c state : stable Q L K (dicey_client_data_set_state (T := T) c state).
Proof. unfold dicey_client_data_set_state. st. Qed.

Lemma st_raised_error K c e : stable Q L K (dicey_server_client_raised_error E c e).
Proof. unfold dicey_server_client_raised_error. st; [apply st_set_cstate|apply st_kick]. Qed.

Lemma st_refuse K c p seq e : stable Q L K (refuse E c p seq e).
Proof. unfold refuse. st. apply st_report_error. Qed.

Lemma st_subscribed K c d : stable Q L K (dicey_client_data_is_subscribed (T := T) c d).
Proof. unfold dicey_client_data_is_subscribed. st. Qed.

Lemma st_subscribe K c d : stable Q L K (dicey_client_data_subscribe (T := T) c d).
Proof. unfold dicey_client_data_subscribe. st. Qed.

Lemma st_descriptor K path sel : stable Q L K (dicey_element_descriptor_format_to E path sel).
Proof. unfold dicey_element_descriptor_format_to. st. Qed.

(** The callbacks of the environment. *)
Definition builtins_stable : Prop := Forall (fun h : builtin_handler => forall op e path p v c K, stable Q L K (h op e path p v c)) (e_builtins E).
Definition requests_stable : Prop := forall r c, stable Q L [] (e_plugin_request E r c).

Section env.
Hypothesis Hb : builtins_stable.
Hypothesis Hr : requests_stable.

Lemma st_run_builtin K c p seq path v e h op :
  (forall op e path p v c K, stable Q L K (h op e path p v c)) -> stable Q L K (run_builtin E c p seq path v e h op).
Proof. intros Hh. unfold run_builtin. st; [apply Hh|apply st_report_error|apply st_send_or_cleanup]. Qed.

Lemma st_deliver K c p seq h : stable Q L K (deliver_request E c p seq h).
Proof. unfold deliver_request, dicey_server_request_for. st. apply st_report_error. Qed.

Lemma st_got_message K c p : stable Q L K (client_got_message E c p).
Proof.
  unfold client_got_message. st; try apply st_refuse; [|apply st_deliver]. apply st_run_builtin.
  unfold dicey_registry_get_builtin_info_for in *. simplify_eq.
  match goal with Hi : context [_ =? 0] |- _ => destruct (_ =? 0); [done|]; destruct (e_builtins E !! _) eqn:El; simplify_eq end.
  unfold builtins_stable in Hb. rewrite Forall_forall in Hb. apply Hb. by eapply list_elem_of_lookup_2.
Qed.

Lemma st_got_packet K c p : stable Q L K (client_got_packet E c p).
Proof.
  unfold client_got_packet, client_got_bye, client_got_hello. st; try apply st_send_or_cleanup; try apply st_got_message; try apply st_raised_error; apply st_set_cstate.
Qed.

Lemma st_alloc_buffer K c : stable Q L K (alloc_buffer E c).
Proof. unfold alloc_buffer. st. Qed.

Lemma st_on_read_end K c e : stable Q L K (on_read_end (T := T) c e).
Proof. unfold on_read_end. st. Qed.

Lemma st_on_read K c r : stable Q L K (on_read E c r).
Proof. unfold on_read. destruct r; try apply st_on_read_end. st; try apply st_raised_error; apply st_got_packet. Qed.

Lemma st_cancel K l : stable Q L K (cancel_requests (T := T) l).
Proof. induction l; cbn [cancel_requests]; st. Qed.

Lemma st_finalize K : stable Q L K (server_finalize_shutdown (T := T)).
Proof. unfold server_finalize_shutdown. st. apply st_cancel. Qed.

Lemma st_shutdown_at_end K : stable Q L K (server_shutdown_at_end (T := T)).
Proof. unfold server_shutdown_at_end. st. Qed.

Lemma st_kick_all K slots e : stable Q L K (kick_all E slots e).
Proof. revert e. induction slots as [|[c|] slots IH]; intros e; cbn [kick_all]; st; [apply st_kick|apply IH|apply IH]. Qed.

Lemma st_shutdown K : stable Q L K (server_shutdown E).
Proof. unfold server_shutdown. st; [apply st_kick_all|apply st_finalize]. Qed.

Lemma st_on_write K w status : stable Q L K (on_write (T := T) w status).
Proof. unfold on_write. st; try apply st_outbound; apply st_finalize. Qed.

Lemma st_raise_to K slots d p : stable Q L K (raise_to E slots d p).
Proof.
  induction slots as [|[c|] slots IH]; cbn [raise_to]; unfold dicey_shared_packet_ref, dicey_shared_packet_unref; sp; [apply st_subscribed|apply st_sendpkt].
Qed.

Lemma st_raise_internal K p : stable Q L K (dicey_server_raise_internal E p).
Proof.
  unfold dicey_server_raise_internal, dicey_shared_packet_from, dicey_shared_packet_unref, dicey_shared_packet_borrow, server_next_seq, shared_set_packet.
  sp; [apply st_descriptor|apply st_raise_to].
Qed.

Lemma st_prune_loop K (f : request -> sst (T := T) bool) n p i : (forall r, stable Q L K (f r)) -> stable Q L K (prune_loop f n p i).
Proof. intros Hf. revert p i. induction n as [|n IH]; intros p i; cbn [prune_loop]; st; auto. Qed.

Lemma st_prune_all K slots path : stable Q L K (prune_all E slots path).
Proof.
  revert K. induction slots as [|[c|] slots IH]; intros K; cbn [prune_all]; st; [|apply IH..]. unfold dicey_pending_requests_prune. st. apply st_prune_loop.
  intros r. unfold request_should_prune_if_matching. st. apply st_send_or_cleanup.
Qed.

Lemma st_send_response K c p m : stable Q L K (client_send_response E c p m).
Proof. unfold client_send_response. st; apply st_sendpkt. Qed.

Lemma st_callback cb client : stable Q L [] (run_callback E cb client).
Proof.
  destruct cb; cbn [run_callback]; try apply st_reg; try apply Hr.
  - unfold loop_request_del_object, remove_object. st. apply st_prune_all.
  - unfold loop_request_kick_client. st. apply st_kick.
  - unfold loop_request_raise_signal. st. apply st_raise_internal.
  - unfold loop_request_send_response. st. apply st_send_response.
  - apply st_shutdown.
Qed.

Lemma st_inbound_loop n client : stable Q L [] (inbound_loop E n client).
Proof.
  revert client. induction n as [|n IH]; intros client; cbn [inbound_loop]; unfold report_result; st; try apply st_callback; apply IH.
Qed.

Lemma st_inbound : stable Q L [] (loop_request_inbound E).
Proof. unfold loop_request_inbound. st. apply st_inbound_loop. Qed.

Lemma st_submit K cb target sem : stable Q L K (submit_new E cb target sem).
Proof. unfold submit_new, dicey_server_blocking_request, dicey_server_submit_request. st. Qed.

(** A client that is not a plugin is freed when nothing refers to it. *)
Lemma inv_free (s : dicey_server (T := T)) c d : inv Q L [] s -> sv_heap s !! c = Some d -> c ∉ slot_clients s ++ sv_closing s ++ L -> sv_plugins s !! c = None ->
  inv Q L [] (set_plugins (delete c (sv_plugins s)) (set_heap (delete c (sv_heap s)) s)).
Proof.
  intros Hi Hd Hc Hp. rewrite (delete_id (sv_plugins s)) by done. destruct Hi. split; cbn; try done.
  - intros c' Hc'. rewrite lookup_delete_ne; [auto|]. intros <-. by apply Hc.
  - intros c' Hc'. destruct (decide (c' = c)) as [->|]; [rewrite lookup_delete_eq in Hc'; by destruct Hc'|rewrite lookup_delete_ne in Hc' by done; auto].
  - by intros x Hx%not_elem_of_nil.
  - intros c' d' Hd'. destruct (decide (c' = c)) as [->|]; [by rewrite lookup_delete_eq in Hd'|rewrite lookup_delete_ne in Hd' by done; auto].
  - intros c' Hc'. rewrite lookup_delete_ne; [auto|]. intros <-. rewrite Hp in Hc'. by destruct Hc'.
Qed.

Lemma st_new_peer : stable Q L [] (server_new_peer E).
Proof.
  intros s Hi. unfold server_new_peer, sbind at 1, sget. destruct (dicey_server_reserve_id (e_block_ok E) (sv_clients s)) as [r l] eqn:Er.
  pose proof (st_reserved Q _ L s r l Hi Er) as H1. pose proof (reserve_slot _ s r l Er) as Hs. unfold sbind at 1, upd at 1.
  rewrite bind_lift. destruct r as [i|e|f|]; try done. destruct Hs as (_ & Hpos & Hslot).
  unfold dicey_client_data_new. unfold sbind at 1 2, malloc. destruct (e_malloc_ok E _).
  2:{ cbn [sret]. set (s1 := set_next _ _). assert (inv Q L [] s1) as H2 by (apply (inv_view Q L [] (set_clients l s)); try done; cbn; lia).
      pose proof (st_release Q L [] i s1 H2) as H3. unfold sbind. destruct (dicey_server_release_id i s1) as [[] s2]; done. }
  unfold sbind at 1, client_write, upd at 1. cbn [sret]. set (c := sv_next (set_clients l s)). set (d := mk_client _ _ _ _ _ _).
  destruct (inv_add Q L [] (set_clients l s) d H1 eq_refl) as (H2 & Hh & Hp & Hm). fold c in H2, Hh, Hp, Hm.
  unfold sbind at 1, upd at 1. set (s2 := set_heap _ _) in *.
  destruct (inv_fill Q L s2 i c H2) as (H3 & Hold); [unfold s2; cbn; rewrite lookup_insert_eq; eauto|exact Hm|exact Hslot|].
  change (set_heap (<[c:=d]> (sv_heap (set_next (S c) (set_clients l s)))) (set_next (S c) (set_clients l s))) with s2. set (s3 := set_clients _ s2) in *.
  destruct (e_uv_pipe_err E c); [|done]. unfold sbind at 1, dicey_server_cleanup_id. unfold sbind at 1, dicey_server_release_id, sget, slift, upd. unfold sbind at 1.
  unfold sbind at 1. destruct (dicey_client_list_drop_client (sv_clients s3) i) as [[old l']| | |] eqn:Hd; try done. cbn [sbind sret].
  destruct (inv_drop Q L [] s3 i old l' H3 Hd) as [H4 H5]. destruct (Hold Hpos old l' Hd) as [-> | ->]; [done|]. destruct H5 as (H5 & _ & _).
  unfold dicey_client_data_cleanup. rewrite bind_read. assert (sv_heap (set_clients l' s3) !! c = Some d) as Hd' by (cbn; by rewrite lookup_insert_eq).
  rewrite Hd'. cbn [cd_cleanup_cb d]. unfold finish_client_data_cleanup. rewrite bind_read, Hd'. cbn. by apply (inv_free (set_clients l' s3) c d).
Qed.

Lemma st_on_connect status : stable Q L [] (on_connect E status).
Proof. unfold on_connect, dicey_server_start_reading_from_client_internal. st. apply st_new_peer. Qed.

End env.
End handlers.
