(* ===== verification/PluginsRun.v ===== *)
(** * The code of plugins keeps the invariant

    The code of plugins changes one plugin at a time. Its functions are run symbolically: the
    plugin they work on is known exactly from the moment it is read, and so are the outputs that
    were added since; what the functions of the server do in between does not concern it. At the
    end the plugin has to satisfy the invariant again. *)

From S2P Require Import Prelude Errors Types Views Writer ValueWrite ValueProbe Value Codec Payload Packet Typedescr ValueValidate.
From S2P Require Import Hashtable WaitingList PendingReqs Table Traits Registry RegistrySpec RegistryTheorems Clients Chunk Builders BuildersTheorems Names.
From S2P Require Import PluginData Server ServerFrame ServerTheorems Introspection Builtins Plugins PluginsInv.
From stdpp Require Import strings gmap list.

#[local] Set Warnings "-clear-no-such-hyp".
#[local] Open Scope list_scope.
#[local] Open Scope Z_scope.

(** An output about no other plugin than [c]. *)
Definition about (c : nat) (o : plugin_output) : Prop := forall c', c' <> c -> events_of c' [o] = [] /\ done_of c' [o] = [].

Section run.
Context {T : Type -> Type} `{Table T}.
Context (L : list nat).
Abbreviation sst := (sst (T := T)).

(** Every plugin but [c] satisfies its invariant; [c] is [p], and [outs] are the last outputs, after
    those of which [B] holds. *)
Definition at_plugin (c : nat) (B : bool -> list plugin_output -> Prop) (p : dicey_plugin_data) (outs : list plugin_output)
    (limbo : bool) (c' : nat) (q : dicey_plugin_data) (l : list plugin_output) : Prop :=
  if decide (c' = c) then q = p /\ exists l0, l = l0 ++ outs /\ B limbo l0 else plugin_inv limbo c' q l.

Definition ends {A : Type} (c : nat) B p outs (K : list known_fact) (m : sst A) : Prop :=
  Known c true ∈ K -> forall s, inv (at_plugin c B p outs) L K s -> match m s with (Ok _, s') | (Err _, s') => inv plugin_inv L K s' | _ => True end.

Definition closes (c : nat) (B : bool -> list plugin_output -> Prop) p outs : Prop := forall limbo l, B limbo l -> plugin_inv limbo c p (l ++ outs).

(** The plugin that is worked on is in memory. *)
Lemma at_lookup c B p outs K (s : dicey_server (T := T)) : inv (at_plugin c B p outs) L K s -> Known c true ∈ K ->
  sv_plugins s !! c = Some p /\ exists limbo l, B limbo l.
Proof.
  intros Hi HK. destruct (in_known _ _ _ _ Hi _ HK) as (d & Hd & Hf). apply (in_flags _ _ _ _ Hi c d Hd) in Hf as [q Hq].
  pose proof (in_plugins _ _ _ _ Hi c q Hq) as Ha. unfold at_plugin in Ha. rewrite decide_True in Ha by done. destruct Ha as (-> & l0 & _ & HB). eauto.
Qed.

(** Other predicates for the plugins, the same places. *)
Lemma inv_change Q Q' K (s : dicey_server (T := T)) : inv Q L K s ->
  (forall c p, sv_plugins s !! c = Some p -> Q (bool_decide (c ∈ L)) c p (outputs_of s) -> Q' (bool_decide (c ∈ L)) c p (outputs_of s)) -> inv Q' L K s.
Proof. intros Hi HQ. destruct Hi. split; try done. intros c p Hp. auto. Qed.

Lemma ends_close {A} c B p outs K (m : sst A) : closes c B p outs -> stable plugin_inv L K m -> ends c B p outs K m.
Proof.
  intros Hc Hm HK s Hi. apply Hm. apply (inv_change _ _ _ _ Hi). intros c' q Hq. unfold at_plugin. case_decide as Hd; [|done].
  subst c'. intros (-> & l0 & -> & HB). by apply Hc.
Qed.

Lemma ends_ret {A} c B p outs K (a : A) : closes c B p outs -> ends c B p outs K (sret a).
Proof. intros Hc. apply ends_close; [done|apply st_ret]. Qed.
Lemma ends_fail {A} c B p outs K e : closes c B p outs -> ends c B p outs K (sfail e : sst A).
Proof. intros Hc. apply ends_close; [done|apply st_fail]. Qed.
Lemma ends_fault {A} c B p outs K f : ends c B p outs K (sfault f : sst A).
Proof. done. Qed.

(** The last call of a function, *)
Lemma ends_tail {A} c B p outs K (m : sst A) : ends c B p outs K (sbind m sret) -> ends c B p outs K m.
Proof. intros Hm HK s Hi. specialize (Hm HK s Hi). unfold sbind in Hm. by destruct (m s) as [[] s']. Qed.

(** nested calls, *)
Lemma ends_assoc {A B' C} c B p outs K (m : sst A) (k : A -> sst B') (k' : B' -> sst C) :
  ends c B p outs K (sbind m (fun a => sbind (k a) k')) -> ends c B p outs K (sbind (sbind m k) k').
Proof. intros Hm HK s Hi. specialize (Hm HK s Hi). unfold sbind in *. by destruct (m s) as [[] s']. Qed.

Lemma ends_attempt_bind {A B' C} c B p outs K (m : sst A) (k : A -> sst B') (k' : dicey_error + B' -> sst C) :
  ends c B p outs K (sbind (attempt m) (fun r => match r with inl e => k' (inl e) | inr a => sbind (attempt (k a)) k' end)) ->
  ends c B p outs K (sbind (attempt (sbind m k)) k').
Proof.
  intros Hm HK s Hi. specialize (Hm HK s Hi). unfold sbind, attempt in *. destruct (m s) as [[] s']; try done.
Qed.

(** Code that returns no error. *)
Definition safe {A} (m : sst A) : Prop := forall s, match m s with (Err _, _) => False | _ => True end.

Lemma ends_attempt_safe {A B' C} c B p outs K (m : sst A) (k : A -> sst B') (k' : dicey_error + B' -> sst C) :
  safe m -> ends c B p outs K (sbind m (fun a => sbind (attempt (k a)) k')) -> ends c B p outs K (sbind (attempt (sbind m k)) k').
Proof. intros Hs Hm HK s Hi. specialize (Hm HK s Hi). specialize (Hs s). unfold sbind, attempt in *. by destruct (m s) as [[] s']. Qed.

Lemma run_safe_bind {A B'} (m : sst A) (k : A -> sst B') : safe m -> (forall a, safe (k a)) -> safe (sbind m k).
Proof. intros Hm Hk s. specialize (Hm s). unfold sbind. destruct (m s) as [[] s']; try done. apply Hk. Qed.
Lemma safe_plugin_read c : safe (plugin_read c).
Proof. intros s. unfold plugin_read. by destruct (sv_plugins s !! c). Qed.
Lemma safe_client_read c : safe (client_read c).
Proof. intros s. unfold client_read. by destruct (sv_heap s !! c). Qed.
Lemma safe_upd f : safe (upd f).
Proof. by intros s. Qed.
Lemma safe_plugin_write c p : safe (plugin_write c p).
Proof. by intros s. Qed.
Lemma safe_get : safe (sget (S := dicey_server (T := T))).
Proof. by intros s. Qed.
Lemma safe_malloc E : safe (malloc E).
Proof. by intros s. Qed.
Lemma safe_assert b : safe (sassert b).
Proof. intros s. by destruct b. Qed.
Lemma safe_ret {A} (a : A) : safe (sret a).
Proof. by intros s. Qed.
Lemma safe_attempt {A} (m : sst A) : safe (attempt m).
Proof. intros s. unfold attempt. by destruct (m s) as [[] s']. Qed.
Lemma safe_plugin_upd c f : safe (plugin_upd c f).
Proof. apply run_safe_bind; [apply safe_plugin_read|intros; apply safe_upd]. Qed.
Lemma safe_on_done pl f jid err v ctx : safe (call_on_done (T := T) pl f jid err v ctx).
Proof. intros s. unfold call_on_done, plugin_work_request_sync_cb. by destruct f, jid, v. Qed.
Lemma safe_cancel_all c l : safe (cancel_all (T := T) c l).
Proof. induction l; cbn [cancel_all]; [apply safe_ret|apply run_safe_bind; [apply safe_on_done|done]]. Qed.

Lemma safe_out o : safe (plugin_out o).
Proof. by intros s. Qed.
Lemma safe_change_state c st : safe (plugin_change_state c st).
Proof.
  assert (forall k, safe (plugin_raise_event c k)) as He.
  { intros k. apply run_safe_bind; [|intros; apply safe_out]. apply run_safe_bind; [apply safe_plugin_read|intros; apply safe_ret]. }
  apply run_safe_bind; [apply safe_plugin_upd|intros _]. destruct st; auto; [done|]. by apply run_safe_bind.
Qed.

Lemma ends_attempt_only {A C} c B p outs K (m : sst A) (k : dicey_error + A -> sst C) :
  safe m -> ends c B p outs K (sbind m (fun a => k (inr a))) -> ends c B p outs K (sbind (attempt m) k).
Proof. intros Hs Hm HK s Hi. specialize (Hm HK s Hi). specialize (Hs s). unfold sbind, attempt in *. by destruct (m s) as [[] s']. Qed.

Lemma ends_attempt_lift {A C} c B p outs K (m : res A) (k : dicey_error + A -> sst C) :
  (forall a, m = Ok a -> ends c B p outs K (k (inr a))) -> (forall e, m = Err e -> ends c B p outs K (k (inl e))) ->
  ends c B p outs K (sbind (attempt (slift m)) k).
Proof. intros Hk He. destruct m as [a|e| |]; [by apply Hk|by apply He|done..]. Qed.

Lemma ends_attempt_ret {A C} c B p outs K (a : A) (k : dicey_error + A -> sst C) : ends c B p outs K (k (inr a)) -> ends c B p outs K (sbind (attempt (sret a)) k).
Proof. done. Qed.
Lemma ends_attempt_fail {A C} c B p outs K e (k : dicey_error + A -> sst C) : ends c B p outs K (k (inl e)) -> ends c B p outs K (sbind (attempt (sfail e)) k).
Proof. done. Qed.
Lemma ends_attempt_fault {A C} c B p outs K f (k : dicey_error + A -> sst C) : ends c B p outs K (sbind (attempt (sfault f)) k).
Proof. done. Qed.

(** and what never fails. *)
Lemma ends_ret_bind {A C} c B p outs K (a : A) (k : A -> sst C) : ends c B p outs K (k a) -> ends c B p outs K (sbind (sret a) k).
Proof. done. Qed.
Lemma ends_fail_bind {A C} c B p outs K e (k : A -> sst C) : closes c B p outs -> ends c B p outs K (sbind (sfail e) k).
Proof. intros Hc. apply (ends_fail c B p outs K e Hc). Qed.
Lemma ends_fault_bind {A C} c B p outs K f (k : A -> sst C) : ends c B p outs K (sbind (sfault f) k).
Proof. done. Qed.
Lemma ends_assert {C} c B p outs K b (k : unit -> sst C) : (b = true -> ends c B p outs K (k tt)) -> ends c B p outs K (sbind (sassert b) k).
Proof. intros Hk. destruct b; [by apply Hk|done]. Qed.
Lemma ends_lift {A C} c B p outs K (m : res A) (k : A -> sst C) :
  (forall a, m = Ok a -> ends c B p outs K (k a)) -> (forall e, m = Err e -> closes c B p outs) -> ends c B p outs K (sbind (slift m) k).
Proof. intros Hk He. destruct m as [a|e| |]; [by apply Hk|by apply ends_fail_bind, (He e)|done..]. Qed.

(** What the base says can be used at any time. *)
Lemma ends_pure {A} c B p outs K (m : sst A) : (forall limbo l, B limbo l -> ends c B p outs K m) -> ends c B p outs K m.
Proof. intros Hm HK s Hi. destruct (at_lookup c B p outs K s Hi HK) as (_ & limbo & l & HB). by apply (Hm limbo l HB). Qed.

(** Functions of the server. *)
Lemma ends_stable {A C} c B p outs K (m : sst A) (k : A -> sst C) :
  (forall Q, stable Q L K m) -> closes c B p outs -> (forall a, ends c B p outs K (k a)) -> ends c B p outs K (sbind m k).
Proof.
  intros Hm Hc Hk HK s Hi. specialize (Hm _ s Hi). unfold sbind. destruct (m s) as [[a|e|f|] s']; try done; [by apply Hk|].
  pose proof (ends_fail (A := A) c B p outs K e Hc HK s' Hm) as Hx. exact Hx.
Qed.

Lemma ends_attempt {A C} c B p outs K (m : sst A) (k : dicey_error + A -> sst C) :
  (forall Q, stable Q L K m) -> (forall r, ends c B p outs K (k r)) -> ends c B p outs K (sbind (attempt m) k).
Proof. intros Hm Hk HK s Hi. specialize (Hm _ s Hi). unfold sbind, attempt. destruct (m s) as [[a|e|f|] s']; try done; by apply Hk. Qed.

Lemma ends_get {C} c B p outs K (k : dicey_server (T := T) -> sst C) : (forall s, ends c B p outs K (k s)) -> ends c B p outs K (sbind sget k).
Proof. intros Hk HK s Hi. by apply Hk. Qed.

Lemma ends_malloc {C} c B p outs K E (k : option nat -> sst C) : (forall a, ends c B p outs K (k a)) -> ends c B p outs K (sbind (malloc E) k).
Proof.
  intros Hk HK s Hi. pose proof (st_malloc _ E L K s Hi) as Hm. unfold sbind. destruct (malloc E s) as [r s'] eqn:Em. unfold malloc in Em. injection Em as <- <-.
  by apply Hk.
Qed.

Lemma ends_client_read {C} c B p outs K c' (k : dicey_client_data -> sst C) :
  (forall d, (c' = c -> cd_cleanup_cb d = true) -> ends c B p outs (Known c' (cd_cleanup_cb d) :: K) (k d)) ->
  ends c B p outs K (sbind (client_read c') k).
Proof.
  intros Hk HK s Hi. rewrite bind_read. destruct (sv_heap s !! c') as [d|] eqn:Ed; [|done].
  assert (c' = c -> cd_cleanup_cb d = true) as Hf by (intros ->; destruct (in_known _ _ _ _ Hi _ HK) as (d' & Hd' & Hf); congruence).
  specialize (Hk d Hf ltac:(apply elem_of_cons; by right) s (inv_learn _ L K s c' d Hi Ed)).
  destruct (k d s) as [[] s']; try done; by eapply inv_forget; [exact Hk|intros x Hx; apply elem_of_cons; by right].
Qed.

Lemma ends_log {C} c B p outs K e (k : unit -> sst C) :
  (forall o, e <> EvPlugin o) -> ends c B p outs K (k tt) -> ends c B p outs K (sbind (log e) k).
Proof. intros He Hk HK s Hi. pose proof (st_log _ L K e He s Hi) as Hl. by apply Hk. Qed.

(** The plugin is read and written. *)
Lemma plugin_read_eq {C} c (k : dicey_plugin_data -> sst C) s p : sv_plugins s !! c = Some p -> sbind (plugin_read c) k s = k p s.
Proof. intros Hp. unfold sbind, plugin_read. by rewrite Hp. Qed.

Lemma ends_read {C} c B p outs K (k : dicey_plugin_data -> sst C) : ends c B p outs K (k p) -> ends c B p outs K (sbind (plugin_read c) k).
Proof. intros Hk HK s Hi. destruct (at_lookup c B p outs K s Hi HK) as [Hp _]. rewrite (plugin_read_eq c k s p Hp). by apply Hk. Qed.

Lemma inv_write c B p outs K (s : dicey_server (T := T)) p' : inv (at_plugin c B p outs) L K s -> Known c true ∈ K ->
  inv (at_plugin c B p' outs) L K (set_plugins (<[c := p']> (sv_plugins s)) s).
Proof.
  intros Hi HK. destruct (at_lookup c B p outs K s Hi HK) as [Hp _]. destruct Hi as [in_nodup0 in_heap0 in_fresh0 in_known0 in_flags0 in_memory0 in_limbo0 in_plugins0 in_gone0 in_new0]. split; try done; cbn.
  - intros c' d Hd. rewrite (in_flags0 c' d Hd). destruct (decide (c' = c)) as [->|]; [rewrite lookup_insert_eq, Hp|by rewrite lookup_insert_ne]. split; eauto.
  - intros c' Hc'. apply in_memory0. destruct (decide (c' = c)) as [->|]; [eauto|by rewrite lookup_insert_ne in Hc'].
  - intros c' Hc'. destruct (decide (c' = c)) as [->|]; [rewrite lookup_insert_eq; eauto|rewrite lookup_insert_ne by done; auto].
  - intros c' q Hq. destruct (decide (c' = c)) as [->|].
    + rewrite lookup_insert_eq in Hq. injection Hq as <-. specialize (in_plugins0 c p Hp). unfold at_plugin in *. rewrite decide_True in * by done.
      destruct in_plugins0 as (_ & l0 & ? & ?). split; [done|by exists l0].
    + rewrite lookup_insert_ne in Hq by done. specialize (in_plugins0 c' q Hq). unfold at_plugin in *. by rewrite decide_False in * by done.
  - intros c' Hc'. apply in_gone0. destruct (decide (c' = c)) as [->|]; [by rewrite lookup_insert_eq in Hc'|by rewrite lookup_insert_ne in Hc'].
Qed.

Lemma ends_write {C} c B p outs K p' (k : unit -> sst C) : ends c B p' outs K (k tt) -> ends c B p outs K (sbind (plugin_write c p') k).
Proof. intros Hk HK s Hi. cbn. apply Hk; [done|]. by eapply inv_write. Qed.

(** An output is added. *)
Lemma plugin_inv_out limbo c c' p l o : about c o -> c' <> c -> plugin_inv limbo c' p l -> plugin_inv limbo c' p (l ++ [o]).
Proof.
  intros Ho Hc []. destruct (Ho c' Hc) as [E1 E2]. split; rewrite ?events_of_app, ?done_of_app, ?E1, ?E2, ?app_nil_r; try done.
Qed.

Lemma inv_out c B p outs K (s : dicey_server (T := T)) o : about c o -> inv (at_plugin c B p outs) L K s -> Known c true ∈ K ->
  inv (at_plugin c B p (outs ++ [o])) L K (set_log (sv_log s ++ [EvPlugin o]) s).
Proof.
  intros Ho Hi HK. destruct (at_lookup c B p outs K s Hi HK) as [Hp _].
  assert (outputs_of (set_log (sv_log s ++ [EvPlugin o]) s) = outputs_of s ++ [o]) as El by (unfold outputs_of; cbn; by rewrite omap_app).
  assert ((c < sv_next s)%nat) as Hlt by (apply (in_fresh _ _ _ _ Hi), (in_memory _ _ _ _ Hi); eauto).
  destruct Hi as [in_nodup0 in_heap0 in_fresh0 in_known0 in_flags0 in_memory0 in_limbo0 in_plugins0 in_gone0 in_new0]. split; rewrite ?El; try done; cbn.
  - intros c' q Hq. specialize (in_plugins0 c' q Hq). unfold at_plugin in *. case_decide; [|by eapply plugin_inv_out].
    destruct in_plugins0 as (-> & l0 & -> & HB). split; [done|]. exists l0. by rewrite app_assoc.
  - intros c' Hc'. assert (c' <> c) as Hne by congruence. destruct (Ho c' Hne) as [E1 E2]. specialize (in_gone0 c' Hc'). unfold plugin_gone in *.
    by rewrite events_of_app, done_of_app, E1, E2, !app_nil_r.
  - intros c' Hc'. destruct (Ho c' ltac:(lia)) as [E1 E2]. rewrite events_of_app, done_of_app, E1, E2, !app_nil_r. by apply in_new0.
Qed.

Lemma ends_out {C} c B p outs K o (k : unit -> sst C) : about c o -> ends c B p (outs ++ [o]) K (k tt) -> ends c B p outs K (sbind (plugin_out o) k).
Proof. intros Ho Hk HK s Hi. cbn. apply Hk; [done|]. by apply inv_out. Qed.

(** From the invariant to the plugin that is worked on. *)
Definition base (c : nat) (p : dicey_plugin_data) (limbo : bool) (l : list plugin_output) : Prop := plugin_inv limbo c p l.

Lemma inv_open K (s : dicey_server (T := T)) c p : inv plugin_inv L K s -> sv_plugins s !! c = Some p ->
  inv (at_plugin c (base c p) p []) L (Known c true :: K) s.
Proof.
  intros Hi Hp. destruct (in_memory _ _ _ _ Hi c ltac:(eauto)) as [d Hd].
  assert (cd_cleanup_cb d = true) as Hf by (apply (in_flags _ _ _ _ Hi c d Hd); eauto). pose proof (inv_learn _ L K s c d Hi Hd) as H1. rewrite Hf in H1.
  apply (inv_change _ _ _ _ H1). intros c' q Hq Hv. unfold at_plugin. destruct (decide (c' = c)) as [->|]; [|exact Hv]. split; [congruence|].
  exists (outputs_of s). rewrite app_nil_r. split; [done|]. unfold base. assert (q = p) by congruence. by subst q.
Qed.

Lemma ends_from {A} K (s : dicey_server (T := T)) c p (m : sst A) : inv plugin_inv L K s -> sv_plugins s !! c = Some p ->
  ends c (base c p) p [] (Known c true :: K) m -> match m s with (Ok _, s') | (Err _, s') => inv plugin_inv L K s' | _ => True end.
Proof.
  intros Hi Hp Hm. specialize (Hm ltac:(by left) s (inv_open K s c p Hi Hp)).
  destruct (m s) as [[] s']; try done; by eapply inv_forget; [exact Hm|intros x Hx; apply elem_of_cons; by right].
Qed.

Lemma st_bind_plugin {C} K c (k : dicey_plugin_data -> sst C) :
  (forall p, ends c (base c p) p [] (Known c true :: K) (k p)) -> stable plugin_inv L K (sbind (plugin_read c) k).
Proof.
  intros Hk s Hi. destruct (sv_plugins s !! c) as [p|] eqn:Hp; [|by unfold sbind, plugin_read; rewrite Hp].
  rewrite (plugin_read_eq c k s p Hp). by apply (ends_from K s c p).
Qed.

End run.

(** Functions of the server that change no plugin. *)
Section server.
Context {T : Type -> Type} `{Table T}.
Context (E : environment (T := T)) (Q : bool -> nat -> dicey_plugin_data -> list plugin_output -> Prop) (L : list nat) (K : list known_fact).

Lemma st_plugin_read c : stable Q L K (plugin_read (T := T) c).
Proof. intros s Hi. unfold plugin_read. by destruct (sv_plugins s !! c). Qed.

Lemma st_object_delete name : stable Q L K (plugin_object_delete E name).
Proof. unfold plugin_object_delete. st. Qed.

End server.

Create HintDb stable.
#[export] Hint Resolve st_plugin_read st_object_delete st_remove st_raise_internal st_set_cstate st_subscribe st_descriptor st_reg st_lift : stable.

Create HintDb safe.
#[export] Hint Resolve safe_plugin_read safe_plugin_write safe_client_read safe_upd safe_get safe_malloc safe_assert safe_ret safe_attempt safe_plugin_upd safe_on_done safe_cancel_all
  safe_out safe_change_state : safe.

(** ** Running code *)

#[global] Arguments at_plugin : simpl never.

Lemma about_event c k info : about c (PvEvent c k info).
Proof. intros c' Hc. cbn. by rewrite decide_False by congruence. Qed.
Lemma about_done c ctx jid err v : about c (PvWorkDone (Some c) ctx jid err v) /\ about c (PvSyncDone (Some c) ctx jid err v).
Proof. split; intros c' Hc; cbn; destruct jid; cbn; [|done| |done]; by rewrite decide_False by congruence. Qed.

(** The events of a change of state. *)
Definition state_events (st : dicey_plugin_state) : list dicey_plugin_event_kind :=
  match st with
  | PLUGIN_STATE_INVALID => []
  | PLUGIN_STATE_SPAWNED => [DICEY_PLUGIN_EVENT_SPAWNED]
  | PLUGIN_STATE_NAME_ASSIGNED => [DICEY_PLUGIN_EVENT_GOT_NAME]
  | PLUGIN_STATE_RUNNING => [DICEY_PLUGIN_EVENT_READY]
  | PLUGIN_STATE_TERMINATED => [DICEY_PLUGIN_EVENT_TERMINATED]
  | PLUGIN_STATE_QUITTING => [DICEY_PLUGIN_EVENT_QUITTING]
  | PLUGIN_STATE_FAILED => [DICEY_PLUGIN_EVENT_FAILED; DICEY_PLUGIN_EVENT_QUIT]
  | PLUGIN_STATE_COMPLETE => [DICEY_PLUGIN_EVENT_QUIT]
  end.

Definition state_outputs (c : nat) (info : dicey_plugin_info) (st : dicey_plugin_state) : list plugin_output :=
  (fun k => PvEvent c k info) <$> state_events st.

Lemma state_outputs_of c info st : events_of c (state_outputs c info st) = state_events st /\ done_of c (state_outputs c info st) = [].
Proof. by destruct st; cbn; rewrite ?decide_True by done. Qed.

Lemma ends_change_state {T : Type -> Type} `{Table T} {C} L c B p outs K st (k : unit -> sst (T := T) C) :
  ends L c B (set_pstate st p) (outs ++ state_outputs c (pd_info p) st) K (k tt) -> ends L c B p outs K (sbind (plugin_change_state c st) k).
Proof.
  intros Hk. unfold plugin_change_state, plugin_upd, plugin_raise_event, dicey_plugin_data_get_info. do 2 apply ends_assoc. apply ends_read, ends_write.
  destruct st; cbn [state_outputs state_events fmap list_fmap] in Hk; [apply ends_fault_bind|..];
    repeat (cbv beta;
      lazymatch goal with
      | |- ends _ _ _ _ _ _ (sbind (sbind _ _) _) => apply ends_assoc
      | |- ends _ _ _ _ _ _ (sbind (plugin_read _) _) => apply ends_read
      | |- ends _ _ _ _ _ _ (sbind (sret _) _) => apply ends_ret_bind
      | |- ends _ _ _ _ _ _ (sbind (plugin_out _) _) => apply ends_out; [apply about_event|]
      end); by rewrite <- ?app_assoc.
Qed.

(** Outputs that concern no plugin. *)
Lemma st_neutral {T : Type -> Type} `{Table T} L K o : neutral [o] -> stable plugin_inv L K (plugin_out (T := T) o).
Proof.
  intros Ho s Hi. cbn. assert (outputs_of (set_log (sv_log s ++ [EvPlugin o]) s) = outputs_of s ++ [o]) as El by (unfold outputs_of; cbn; by rewrite omap_app).
  destruct Hi as [in_nodup0 in_heap0 in_fresh0 in_known0 in_flags0 in_memory0 in_limbo0 in_plugins0 in_gone0 in_new0]. split; rewrite ?El; try done; cbn.
  - intros c p Hp. destruct (in_plugins0 c p Hp), (Ho c) as [E1 E2]. split; rewrite ?events_of_app, ?done_of_app, ?E1, ?E2, ?app_nil_r; done.
  - intros c Hc. destruct (Ho c) as [E1 E2]. unfold plugin_gone. rewrite events_of_app, done_of_app, E1, E2, !app_nil_r. by apply in_gone0.
  - intros c Hc. destruct (Ho c) as [E1 E2]. rewrite events_of_app, done_of_app, E1, E2, !app_nil_r. by apply in_new0.
Qed.

(** The plugin is as before for the invariant: its handles fit its state, the events lead from
    state to state, and the jobs that are no longer pending have ended. *)
Lemma closes_keep c p p' outs :
  (forall limbo, handles_ok limbo p -> handles_ok limbo p') -> run_events (pd_state p, false) (events_of c outs) = Some (pd_state p', false) ->
  next_jid p' = next_jid p -> pending_jobs p' ++ done_of c outs ≡ₚ pending_jobs p -> closes c (base c p) p' outs.
Proof.
  intros Hh He Hn Hj limbo l [H1 H2 (n & Hn0 & Hn1 & H3)]. split; [auto| |].
  - rewrite events_of_app. by eapply life_app.
  - exists n. rewrite Hn. split_and!; try done. rewrite done_of_app. rewrite <- H3, <- Hj, <- !app_assoc. by rewrite (Permutation_app_comm (done_of c l)).
Qed.

Ltac solve_about := first [ apply about_event | apply about_done | (intros ? ?; split; reflexivity) ].

Ltac plugin_fields :=
  cbv beta iota delta [pd_process process_timer timer_data pd_state pd_info next_jid work_list spawn_md after_cleanup set_process set_timer set_timer_data set_pstate
       set_info set_jid set_work_list set_md set_after pi_name pi_path].

Ltac run_call :=
  progress unfold plugin_upd, uv_close_process, uv_close_timer, uv_timer_start, uv_timer_stop, kill_child, plugin_raise_event, dicey_plugin_data_get_info,
    plugin_no_handshake_timeout, plugin_terminate_timedout, plugin_kill_disconnected, post_result, ignore,
    plugin_work_request_finish, call_on_done, plugin_work_request_sync_cb, dicey_server_plugin_quitting, report_cleanup_error.

(** The rest of a run may be given by a variable. *)
Ltac is_call m := lazymatch m with ?f _ => is_call f | _ => tryif is_var m then fail else idtac end.

Ltac run_step :=
  lazymatch goal with
  | |- ends _ _ _ (match _ with _ => _ end) _ _ _ => case_match
  | |- ends _ _ _ _ _ _ (sbind (sbind _ _) _) => apply ends_assoc
  | |- ends _ _ _ _ _ _ (sbind (sret _) _) => apply ends_ret_bind
  | |- ends _ _ _ _ _ _ (sbind (sfail _) _) => apply ends_fail_bind
  | |- ends _ _ _ _ _ _ (sbind (sfault _) _) => apply ends_fault_bind
  | |- ends _ _ _ _ _ _ (sbind (sassert _) _) => apply ends_assert; intros
  | |- ends _ _ _ _ _ _ (sbind (slift _) _) => apply ends_lift; intros
  | |- ends _ _ _ _ _ _ (sbind sget _) => apply ends_get; intros
  | |- ends _ _ _ _ _ _ (sbind (malloc _) _) => apply ends_malloc; intros
  | |- ends _ _ _ _ _ _ (sbind (client_read _) _) => apply ends_client_read; intros
  | |- ends _ _ _ _ _ _ (sbind (log _) _) => apply ends_log; [discriminate|]
  | |- ends _ ?c _ _ _ _ (sbind (plugin_read ?c) _) => apply ends_read
  | |- ends _ ?c _ _ _ _ (sbind (plugin_write ?c _) _) => apply ends_write
  | |- ends _ _ _ _ _ _ (sbind (plugin_change_state _ _) _) => apply ends_change_state
  | |- ends _ _ _ _ _ _ (sbind (plugin_out _) _) => apply ends_out; [solve_about|]
  | |- ends _ _ _ _ _ _ (sbind (attempt (sbind _ _)) _) => first [apply ends_attempt_safe; [solve [auto with safe]|] | apply ends_attempt_bind]
  | |- ends _ _ _ _ _ _ (sbind (attempt (slift _)) _) => apply ends_attempt_lift; intros
  | |- ends _ _ _ _ _ _ (sbind (attempt (sret _)) _) => apply ends_attempt_ret
  | |- ends _ _ _ _ _ _ (sbind (attempt (sfail _)) _) => apply ends_attempt_fail
  | |- ends _ _ _ _ _ _ (sbind (attempt (sfault _)) _) => apply ends_attempt_fault
  | |- ends _ _ _ _ _ _ (sbind (match _ with _ => _ end) _) => case_match
  | |- ends _ _ _ _ _ _ (sbind (attempt (match _ with _ => _ end)) _) => case_match
  | |- ends _ _ _ _ _ _ (sbind (attempt _) _) => 
      first [apply ends_attempt_only; [solve [auto with safe]|] | apply ends_attempt; [intros; solve [auto with stable]|intros] | run_call]
  | |- ends _ _ _ _ _ _ (sbind _ _) => first [apply ends_stable; [intros; solve [auto with stable]| |intros] | run_call]
  | |- ends _ _ _ _ _ _ (match _ with _ => _ end) => case_match
  | |- ends _ _ _ _ _ _ (sret _) => apply ends_ret
  | |- ends _ _ _ _ _ _ (sfail _) => apply ends_fail
  | |- ends _ _ _ _ _ _ (sfault _) => apply ends_fault
  | |- ends _ _ _ _ _ _ ?m => is_call m; apply ends_tail
  end.

Ltac run_facts :=
  repeat match goal with
  | Hb : bool_decide _ = true |- _ => apply bool_decide_eq_true_1 in Hb
  | Hb : bool_decide _ = false |- _ => apply bool_decide_eq_false_1 in Hb
  end; simplify_eq.

Ltac run := repeat (cbv beta zeta; plugin_fields; run_facts; run_step).

(** The plugin that was read, by cases on its state. *)
Ltac open_plugin :=
  let Hh := fresh "Hh" in let st := fresh "st" in
  intros [? ? ? st ? ? ? ? ?]; apply ends_pure; intros limbo l [Hh _ _]; destruct st, limbo; cbn in Hh; try (exfalso; exact Hh);
  destruct_and? Hh.

(** A closing state: the handles by cases on the state, then events and jobs. *)
Ltac close_plugin :=
  apply closes_keep; plugin_fields;
  [ intros []; unfold handles_ok, whole; plugin_fields; first [done | naive_solver]
  | cbn; rewrite ?decide_True by done; first [reflexivity | done]
  | reflexivity
  | cbn; rewrite ?app_nil_r; reflexivity ].

Section operations.
Context {T : Type -> Type} `{Table T}.
Context (E : environment (T := T)) (P : plugin_environment) (L : list nat).
#[local] Abbreviation sst := (sst (T := T)).

Lemma st_timer_fires K c : stable plugin_inv L K (timer_fires (T := T) P c).
Proof.
  unfold timer_fires. apply st_bind_plugin. open_plugin; run; close_plugin. 
Qed.

(** The output of a job that is cancelled. *)
Definition cancelled (c : nat) (job : plugin_work_request) : plugin_output :=
  match pw_on_done job with
  | user_on_done => PvWorkDone (Some c) (pw_ctx job) (Some (pw_jid job)) DICEY_ECANCELLED None
  | sync_on_done => PvSyncDone (Some c) (pw_ctx job) (Some (pw_jid job)) DICEY_ETIMEDOUT None
  end.

Lemma cancelled_done c jobs : events_of c (cancelled c <$> jobs) = [] /\ done_of c (cancelled c <$> jobs) = pw_jid <$> jobs.
Proof.
  induction jobs as [|[jid [] ctx] jobs [IH1 IH2]]; [done|..]; cbn; rewrite decide_True by done; split; try exact IH1; f_equal; exact IH2.
Qed.

Lemma ends_cancel_all {C} c B p outs K jobs (k : unit -> sst C) :
  ends L c B p (outs ++ (cancelled c <$> jobs)) K (k tt) -> ends L c B p outs K (sbind (cancel_all (T := T) c jobs) k).
Proof.
  revert outs. induction jobs as [|job jobs IH]; intros outs Hk; cbn [cancel_all fmap list_fmap] in *; [by rewrite app_nil_r in Hk|].
  apply ends_assoc. unfold dicey_server_plugin_work_request_cancel, plugin_work_request_fail, plugin_work_request_finish, call_on_done, plugin_work_request_sync_cb.
  replace (outs ++ cancelled c job :: (cancelled c <$> jobs)) with ((outs ++ [cancelled c job]) ++ (cancelled c <$> jobs)) in Hk by (by rewrite <- app_assoc).
  unfold cancelled in Hk at 1. destruct job as [jid [] ctx]; cbn in *; (apply ends_out; [solve_about|by apply IH]).
Qed.

(** What is left of a plugin that is taken down: its jobs are cancelled, its strings are freed, and
    its process is being closed. *)
Lemma ends_deinit {C} c B p outs K after (k : dicey_error + unit -> sst C) :
  whole p -> pd_state p <> PLUGIN_STATE_INVALID -> pd_process p = ProcessActive \/ pd_process p = ProcessExited ->
  (forall r l info, array_values l = [] ->
     ends L c B (mk_plugin ProcessClosing (process_timer p) (timer_data p) (pd_state p) info (next_jid p) l (spawn_md p) after)
       (outs ++ (cancelled c <$> array_values (work_list p))) K (k r)) ->
  ends L c B p outs K (sbind (attempt (plugin_deinit E (Some c) after)) k).
Proof.
  intros (Hok & (path & Hpath) & Hname & _) Hst Hproc Hk. destruct p as [proc timer td st [name path'] jid wl md ac]. cbn in *. subst path'.
  assert (exists l', array_elements wl = Ok (array_values wl) /\ array_delete wl = Ok l' /\ array_values l' = []) as (l' & E1 & E2 & E3).
  { destruct wl; [|eexists; split_and!; reflexivity|done]. by eexists. }
  unfold plugin_deinit, work_list_delete.
  run; [|congruence]. match goal with Hx : array_elements _ = Ok _ |- _ => rewrite E1 in Hx; injection Hx as <- end. apply ends_cancel_all.
  run; first [apply Hk; congruence | congruence | by destruct name; cbn in *; discriminate].
Qed.

(** The plugin after it was taken down satisfies the invariant of one whose pipe is closed. *)
Lemma closes_deinit c p info l md (B : bool -> list plugin_output -> Prop) timer td outs st :
  (forall limbo l0, B limbo l0 -> limbo = true /\ exists b, plugin_inv b c p l0) -> array_values l = [] -> is_final st -> timer = TimerStopped ->
  run_events (pd_state p, false) (events_of c outs) = Some (st, false) -> done_of c outs ≡ₚ pending_jobs p ->
  closes c B (mk_plugin ProcessClosing timer td st info (next_jid p) l md (Some finish_cleanup)) outs.
Proof.
  intros HB Hl Hst -> He Hj limbo l0 Hl0. destruct (HB _ _ Hl0) as (-> & b & [_ H2 (n & Hn & Hn1 & H3)]). split.
  - by destruct Hst as [-> | ->]; cbn; auto.
  - rewrite events_of_app. by eapply life_app.
  - exists n. split_and!; try done. unfold pending_jobs. cbn. rewrite Hl, done_of_app. cbn. rewrite Hj, <- H3. by rewrite Permutation_app_comm.
Qed.

(** A plugin whose process runs. *)
Lemma active_plugin limbo p : handles_ok limbo p -> pd_process p = ProcessActive ->
  whole p /\ (process_timer p = TimerStopped \/ exists cb, process_timer p = TimerArmed cb) /\
  (forall st, is_final st -> run_events (pd_state p, false) (state_events st) = Some (st, false)) /\
  if limbo then pd_state p = PLUGIN_STATE_TERMINATED /\ timer_data p = ATState (Some finish_cleanup) else pd_state p <> PLUGIN_STATE_TERMINATED.
Proof.
  destruct p as [proc timer td st info jid wl md ac]. cbn. intros Hh ->. destruct limbo, st; cbn in Hh; try (by destruct Hh);
    first [exfalso; clear -Hh; naive_solver | split_and!; [naive_solver|naive_solver|by intros ? [-> | ->]|naive_solver..]].
Qed.

#[local] Ltac neutral_out := apply st_neutral; by intros ?.
#[local] Ltac str := repeat (cbv beta zeta; first [assumption | neutral_out | st_step | apply st_plugin_read]).

(** The process of a plugin exits. *)
Lemma run_exit_cb (s : dicey_server (T := T)) c p status signal :
  inv plugin_inv L [] s -> sv_plugins s !! c = Some p -> pd_process p = ProcessActive ->
  match plugin_exit_cb E c status signal s with (Ok _, s') | (Err _, s') => inv plugin_inv L [] s' | _ => True end.
Proof.
  intros Hi Hp Ha. apply (ends_from L [] s c p _ Hi Hp). unfold plugin_exit_cb. revert p Hp Ha. intros [proc timer td st info jid wl md ac] _ Ha.
  apply ends_pure; intros limbo l [Hh _ _]. destruct (active_plugin limbo _ Hh Ha) as (Hw & Ht & He & Hl). cbn in Ha, Ht, Hl. subst proc.
  cbv zeta. set (fin := if negb (status =? EXIT_SUCCESS) || negb (signal =? 0) then PLUGIN_STATE_FAILED else PLUGIN_STATE_COMPLETE).
  assert (is_final fin) as Hfin by (unfold fin; destruct (negb _ || negb _); [by left|by right]).
  assert (forall p, process_timer p = timer -> match process_timer p with TimerArmed _ => set_timer TimerStopped p | _ => p end = set_timer TimerStopped p) as Hst.
  { intros q Hq. rewrite Hq. destruct Ht as [-> | [cb ->]]; [|done]. destruct q. cbn in *. by subst. }
  unfold plugin_upd. apply ends_assoc, ends_read, ends_write, ends_assoc, ends_read. rewrite Hst by done. apply ends_write, ends_read, ends_change_state. plugin_fields.
  apply ends_client_read. intros d _. unfold report_cleanup_error, post_result. destruct (state_outputs_of c info fin) as [Eo1 Eo2]. destruct limbo.
  - destruct Hl as [-> ->]. rewrite bool_decide_true by done. unfold plugin_cleanup_disconnect_data. run. destruct Hw as (Hw1 & Hw2 & Hw3 & _).
    apply ends_deinit; plugin_fields; [split_and!; try done; by destruct Hfin as [-> | ->]|by destruct Hfin as [-> | ->]|by right|].
    intros r wl' info' Hwl. apply ends_close; [|str]. destruct (cancelled_done c (array_values wl)) as [Ec1 Ec2].
    apply (closes_deinit c (mk_plugin ProcessActive timer (ATState (Some finish_cleanup)) PLUGIN_STATE_TERMINATED info jid wl md ac)); try done.
    + intros [] l0 Hb; [by split; [|exists true]|destruct Hb as [[] _ _]].
    + rewrite !events_of_app, Eo1, Ec1, app_nil_r. by apply He.
    + by rewrite !done_of_app, Eo2, Ec2.
  - rewrite bool_decide_false by done. apply ends_attempt; [intros; apply st_remove|]. intros r. apply ends_close; [|str]. apply closes_keep; try done.
    + intros lb Hlb. destruct (active_plugin lb _ Hlb eq_refl) as (Hw' & _ & _ & Hl'). destruct lb; [by destruct Hl'|]. destruct Hw as (Hw1 & Hw2 & Hw3 & _).
      destruct Hfin as [-> | ->]; cbn; split_and!; done.
    + rewrite events_of_app, Eo1. by apply He.
    + by rewrite done_of_app, Eo2, app_nil_r.
Qed.

(** libuv has closed the process of a plugin: its timer is closed next. *)
Lemma run_close_process (s : dicey_server (T := T)) c p :
  inv plugin_inv L [] s -> sv_plugins s !! c = Some p -> pd_process p = ProcessClosing ->
  match plugin_close_process (T := T) c s with (Ok _, s') | (Err _, s') => inv plugin_inv L [] s' | _ => True end.
Proof.
  intros Hi Hp Ha. apply (ends_from L [] s c p _ Hi Hp). unfold plugin_close_process. revert p Hp Ha. intros [proc timer td st info jid wl md ac] _ Ha. cbn in Ha. subst proc.
  apply ends_pure; intros limbo l [Hh _ _].
  assert (is_final st /\ timer = TimerStopped) as [Hst ->] by (destruct limbo, st; cbn in Hh; try (by destruct Hh); unfold is_final; naive_solver).
  run. apply closes_keep; try done; [|cbn; by rewrite app_nil_r]. intros [] Hl; destruct Hst as [-> | ->]; cbn in *; [naive_solver..| |]; by destruct_and? Hl.
Qed.

Lemma inv_perm L' Q K (s : dicey_server (T := T)) : L ≡ₚ L' -> inv Q L K s -> inv Q L' K s.
Proof.
  intros Hp [in_nodup0 in_heap0 in_fresh0 in_known0 in_flags0 in_memory0 in_limbo0 in_plugins0 in_gone0 in_new0]. split; try done.
  - by rewrite <- Hp.
  - intros c Hc. rewrite <- Hp in Hc. auto.
  - intros c Hc. rewrite <- Hp in Hc. auto.
  - intros c p Hc. rewrite <- (bool_decide_ext (c ∈ L) (c ∈ L')); [auto|by rewrite Hp].
Qed.
End operations.

Section limbo.
Context {T : Type -> Type} `{Table T}.
Context (E : environment (T := T)) (P : plugin_environment) (L : list nat).
#[local] Abbreviation sst := (sst (T := T)).

Lemma closing_plugin p : handles_ok true p -> process_timer p = TimerClosing true ->
  is_final (pd_state p) /\ after_cleanup p = Some finish_cleanup /\ array_values (work_list p) = [].
Proof. destruct p as [proc timer td st info jid wl md ac]. cbn. intros Hh ->. unfold is_final. destruct st; cbn in Hh; naive_solver. Qed.

(** libuv has closed the timer of a plugin: its memory is freed. *)
Lemma run_close_timer (s : dicey_server (T := T)) c p :
  inv plugin_inv (c :: L) [] s -> sv_plugins s !! c = Some p -> process_timer p = TimerClosing true ->
  match plugin_close_timer (T := T) c s with (Ok _, s') | (Err _, s') => inv plugin_inv L [] s' | _ => True end.
Proof.
  intros Hi Hp Ht. pose proof (in_plugins _ _ _ _ Hi c p Hp) as Hv. rewrite bool_decide_true in Hv by (by left). destruct Hv as [Hh He (n & Hn0 & Hn & Hj)].
  assert (is_final (pd_state p) /\ after_cleanup p = Some finish_cleanup /\ array_values (work_list p) = []) as (Hst & Haf & Hwl).
  { by apply closing_plugin. }
  destruct (in_memory _ _ _ _ Hi c ltac:(eauto)) as [d Hd].
  unfold plugin_close_timer, plugin_upd, plugin_read, plugin_write, sbind at 1 2, upd. rewrite Hp. cbn. rewrite lookup_insert_eq. cbn. rewrite Haf.
  unfold ignore, attempt, run_after_cleanup, finish_client_data_cleanup, client_read, sbind, upd. cbn. rewrite Hd. cbn. rewrite delete_insert_eq.
  destruct Hi as [in_nodup0 in_heap0 in_fresh0 in_known0 in_flags0 in_memory0 in_limbo0 in_plugins0 in_gone0 in_new0].
  assert (NoDup (c :: slot_clients s ++ sv_closing s ++ L)) as Hnd.
  { unfold slot_clients in *. rewrite !Permutation_middle. done. }
  apply NoDup_cons in Hnd as [Hc Hnd]. split; cbn; try done.
  - intros c' Hc'. rewrite lookup_delete_ne by (intros <-; by apply Hc). apply in_heap0. rewrite !elem_of_app, elem_of_cons in *. tauto.
  - intros c' Hc'. destruct (decide (c' = c)) as [->|]; [rewrite lookup_delete_eq in Hc'; by destruct Hc'|rewrite lookup_delete_ne in Hc' by done; auto].
  - by intros x Hx%not_elem_of_nil.
  - intros c' d' Hd'. destruct (decide (c' = c)) as [->|]; [by rewrite lookup_delete_eq in Hd'|rewrite !lookup_delete_ne in * by done; auto].
  - intros c' Hc'. destruct (decide (c' = c)) as [->|]; [rewrite lookup_delete_eq in Hc'; by destruct Hc'|rewrite !lookup_delete_ne in * by done; auto].
  - intros c' Hc'. rewrite lookup_delete_ne; [apply in_limbo0; by right|]. intros <-. apply Hc. rewrite !elem_of_app. auto.
  - intros c' q Hq. destruct (decide (c' = c)) as [->|]; [by rewrite lookup_delete_eq in Hq|rewrite lookup_delete_ne in Hq by done].
    rewrite (bool_decide_ext (c' ∈ L) (c' ∈ c :: L)); [by apply in_plugins0|]. rewrite elem_of_cons. tauto.
  - intros c' Hc'. destruct (decide (c' = c)) as [->|]; [|rewrite lookup_delete_ne in Hc' by done; auto]. right. exists (pd_state p), n. split_and!; try done.
    unfold pending_jobs in Hj. by rewrite Hwl in Hj.
Qed.

(** The pipe of a plugin is closed. *)
Definition closed_base (c : nat) (p : dicey_plugin_data) (limbo : bool) (l : list plugin_output) : Prop := limbo = true /\ plugin_inv false c p l.

Lemma inv_limbo (s : dicey_server (T := T)) c p : inv plugin_inv L [] s -> c ∉ slot_clients s ++ sv_closing s ++ L -> sv_plugins s !! c = Some p ->
  inv (at_plugin c (closed_base c p) p []) (c :: L) [Known c true] s.
Proof.
  intros Hi Hc Hp. pose proof (inv_open L [] s c p Hi Hp) as Ho. destruct (in_known _ _ _ _ Ho _ ltac:(by left)) as (d & Hd & Hf).
  destruct Hi as [in_nodup0 in_heap0 in_fresh0 in_known0 in_flags0 in_memory0 in_limbo0 in_plugins0 in_gone0 in_new0]. split; try done.
  - rewrite (app_assoc _ _ (c :: L)), <- Permutation_middle, <- app_assoc. by apply NoDup_cons.
  - intros c'. rewrite (app_assoc _ _ (c :: L)), <- Permutation_middle, <- app_assoc. intros [->|Hc']%elem_of_cons; eauto.
  - intros x [->|Hx%not_elem_of_nil]%elem_of_cons; [by exists d|done].
  - intros c' [->|Hc']%elem_of_cons; eauto.
  - intros c' q Hq. specialize (in_plugins0 c' q Hq). unfold at_plugin. destruct (decide (c' = c)) as [->|].
    + split; [congruence|]. exists (outputs_of s). rewrite app_nil_r. split; [done|]. split; [by rewrite bool_decide_true by (by left)|].
      rewrite bool_decide_false in in_plugins0 by (intros Hx; apply Hc; rewrite !elem_of_app; auto). assert (p = q) by congruence. by subst q.
    + rewrite (bool_decide_ext (c' ∈ c :: L) (c' ∈ L)); [done|]. rewrite elem_of_cons. tauto.
Qed.

Lemma closed_live_plugin c p st td timer ac :
  pd_state p = PLUGIN_STATE_SPAWNED \/ pd_state p = PLUGIN_STATE_RUNNING -> st = PLUGIN_STATE_TERMINATED -> td = ATState (Some finish_cleanup) ->
  timer = TimerArmed terminate_timedout ->
  closes c (closed_base c p) (mk_plugin (pd_process p) timer td st (pd_info p) (next_jid p) (work_list p) (spawn_md p) ac)
    (state_outputs c (pd_info p) PLUGIN_STATE_TERMINATED ++ [PvKill c TERM_SIGNAL]).
Proof.
  intros Hst -> -> -> limbo l [-> [Hh He (n & Hj)]]. destruct p as [proc ptimer ptd pst info jid wl md pac]. cbn in *. split.
  - destruct Hst as [-> | ->]; cbn in *; unfold whole in *; cbn in *; naive_solver.
  - rewrite !events_of_app. eapply life_app; [exact He|]. cbn. rewrite decide_True by done. by destruct Hst as [-> | ->].
  - exists n. rewrite !done_of_app. cbn. by rewrite app_nil_r.
Qed.

Lemma st_client_end E0 c p K :
  e_plugin_cleanup E = plugin_cleanup E0 P -> handles_ok false p ->
  Known c true ∈ K -> forall s : dicey_server (T := T), inv (at_plugin c (closed_base c p) p []) (c :: L) K s ->
  match on_client_end E c s with (Ok _, s') => inv plugin_inv (c :: L) K s' | _ => True end.
Proof.
  intros HE Hh HK s Hi. enough (ends (c :: L) c (closed_base c p) p [] K (on_client_end E c)) as Hx.
  { specialize (Hx HK s Hi). by destruct (on_client_end E c s) as [[] ?]. }
  clear HK s Hi. unfold on_client_end, dicey_client_data_cleanup, finish_client_data_cleanup. rewrite HE.
  unfold plugin_cleanup, plugin_data_cleanup, dicey_client_data_as_plugin, CLIENT_DATA_IS_PLUGIN.
  apply ends_client_read. intros d Hd. apply ends_log; [discriminate|]. apply ends_attempt_safe; [auto with safe|]. apply ends_client_read. intros d' Hd'. rewrite (Hd' eq_refl).
  apply ends_attempt_safe; [repeat apply run_safe_bind; auto with safe|]. do 2 apply ends_assoc. apply ends_client_read. intros d2 Hd2. rewrite (Hd2 eq_refl).
  destruct p as [proc timer td st info jid wl md ac]. cbn in Hh. destruct st; try (by destruct Hh); destruct_and? Hh.
  all: run; try (match goal with |- closes _ (closed_base _ ?p) _ _ => apply (closed_live_plugin c p); cbn; by auto end).
  all: apply ends_deinit; plugin_fields; [done|done|by right|].
  all: intros r wl' info' Hwl; destruct (cancelled_done c (array_values wl)) as [Ec1 Ec2].
  all: destruct r; [apply ends_fault|apply ends_ret].
  all: match goal with |- closes _ (closed_base _ ?p) _ _ => apply (closes_deinit c p) end; try done;
    [by intros b l0 [-> Hv]; split; [|exists false]|by (left + right)|by rewrite !events_of_app, Ec1|by rewrite !done_of_app, Ec2].
Qed.

(** libuv has closed the pipe of a client: it is freed, or it waits for its process. *)
Lemma run_client_end E0 (s : dicey_server (T := T)) i c :
  e_plugin_cleanup E = plugin_cleanup E0 P -> inv plugin_inv L [] s -> sv_closing s !! i = Some c ->
  match on_client_end E c (set_closing (delete i (sv_closing s)) s) with
  | (Ok _, s') => inv plugin_inv L [] s' \/ inv plugin_inv (c :: L) [] s'
  | _ => True
  end.
Proof.
  intros HE Hi Hc. set (s1 := set_closing _ s).
  assert (sv_closing s ≡ₚ c :: delete i (sv_closing s)) as Hp by (by apply delete_Permutation).
  assert (NoDup (c :: slot_clients s ++ delete i (sv_closing s) ++ L)) as Hnd.
  { pose proof (in_nodup _ _ _ _ Hi) as Hn. rewrite Hp in Hn. cbn in Hn. by rewrite <- Permutation_middle in Hn. }
  apply NoDup_cons in Hnd as [Hout Hnd].
  assert (inv plugin_inv L [] s1) as H1.
  { replace s1 with (set_closing (delete i (sv_closing s)) (set_clients (sv_clients s) s)) by (by destruct s).
    apply inv_places; [done|done|done|]. intros c' Hc'. rewrite Hp. rewrite !elem_of_app, elem_of_cons in *. tauto. }
  destruct (in_heap _ _ _ _ Hi c) as [d Hd]; [rewrite Hp, !elem_of_app, elem_of_cons; auto|].
  destruct (cd_cleanup_cb d) eqn:Hf.
  - destruct (proj1 (in_flags _ _ _ _ H1 c d Hd) Hf) as [p Hpl]. pose proof (inv_limbo s1 c p H1 Hout Hpl) as H2.
    assert (handles_ok false p) as Hh.
    { pose proof (in_plugins _ _ _ _ H1 c p Hpl) as [Hh _ _]. rewrite bool_decide_false in Hh; [done|]. intros Hx. apply Hout. rewrite !elem_of_app. auto. }
    pose proof (st_client_end E0 c p [Known c true] HE Hh ltac:(by left) s1 H2) as H3. destruct (on_client_end E c s1) as [[] s']; try done.
    right. by eapply inv_forget; [exact H3|intros x Hx%not_elem_of_nil].
  - assert (sv_plugins s !! c = None) as Hpl.
    { destruct (sv_plugins s !! c) eqn:Epl; [|done]. assert (cd_cleanup_cb d = true) by (apply (in_flags _ _ _ _ H1 c d Hd); eauto). congruence. }
    unfold on_client_end. rewrite bind_read. change (sv_heap s1 !! c) with (sv_heap s !! c). rewrite Hd. unfold sbind at 1, log, upd. cbn.
    set (s2 := set_log _ s1). unfold attempt, dicey_client_data_cleanup, sbind. cbn. rewrite Hd. cbn. rewrite Hf. unfold finish_client_data_cleanup, sbind. cbn. rewrite Hd. cbn.
    left. apply (inv_free plugin_inv L s2 c d); try done.
    apply (st_log plugin_inv L [] (EvDisconnect (cd_id d)) ltac:(done) s1 H1).
Qed.

End limbo.
