(* ===== verification/PluginsOps.v ===== *)
(** * Requests and operations of plugins keep the invariant

    The handshake, jobs, spawning, and the operations that clients call, each as a run of the code
    on the plugin it works on. *)

From S2P Require Import Prelude Errors Types Views Writer ValueWrite ValueProbe Value Codec Payload Packet Typedescr ValueValidate.
From S2P Require Import Hashtable WaitingList PendingReqs Table Traits Registry RegistrySpec RegistryTheorems Clients Chunk Builders BuildersTheorems Names.
From S2P Require Import PluginData Server ServerFrame ServerTheorems Introspection Builtins Plugins PluginsInv PluginsRun.
From stdpp Require Import strings gmap list.

#[local] Set Warnings "-clear-no-such-hyp".
#[local] Open Scope list_scope.
#[local] Open Scope Z_scope.

(** ** What changes no plugin *)

Section reads.
Context {T : Type -> Type} `{Table T}.
Context (E : environment (T := T)) (P : plugin_environment) (L : list nat) (Q : bool -> nat -> dicey_plugin_data -> list plugin_output -> Prop).

#[local] Ltac sr := repeat (cbv beta zeta; first [assumption | apply st_plugin_read | st_step]).

Lemma st_find K name : stable Q L K (dicey_server_plugin_find_by_name (T := T) name).
Proof.
  unfold dicey_server_plugin_find_by_name. st. match goal with |- stable _ _ _ (find_in ?l _) => generalize l end. intros slots. revert K.
  induction slots as [|[c|] slots IH]; intros K; cbn [find_in]; unfold CLIENT_DATA_IS_PLUGIN; sr; auto.
Qed.

Lemma st_subscribe_to_commands K c path : stable Q L K (plugin_subscribe_to_commands E c path).
Proof. unfold plugin_subscribe_to_commands. st; [apply st_descriptor|apply st_subscribe]. Qed.

Lemma st_built {A} K (m : bst A) : stable Q L K (built (T := T) m).
Proof. unfold built. st. Qed.

Lemma st_scratchpad K name : stable Q L K (scratchpad_metaname E name).
Proof. unfold scratchpad_metaname. st. Qed.

Lemma st_builder_step {A} K wbs (m : bst A) : stable Q L K (builder_step (T := T) wbs m).
Proof. unfold builder_step. st. Qed.

Lemma st_work_complete K wbs jid : stable Q L K (plugin_work_request_complete E wbs jid).
Proof. unfold plugin_work_request_complete. st; try apply st_builder_step; apply st_scratchpad. Qed.

Lemma st_craft_quit K name : stable Q L K (craft_quit_packet E name).
Proof. unfold craft_quit_packet. st; [apply st_scratchpad|apply st_built]. Qed.

Lemma st_infos K slots : stable Q L K (plugin_infos (T := T) slots).
Proof.
  revert K. induction slots as [|[c|] slots IH]; intros K; cbn [plugin_infos]; unfold dicey_client_data_as_plugin, CLIENT_DATA_IS_PLUGIN; sr; auto.
Qed.

Lemma st_count K slots n : stable Q L K (count_slots (T := T) slots n).
Proof. revert K n. induction slots as [|[c|] slots IH]; intros K n; cbn [count_slots]; unfold CLIENT_DATA_IS_PLUGIN; sr; auto. Qed.

Lemma st_start_reading K id : stable Q L K (dicey_server_start_reading_from_client_internal E id).
Proof. unfold dicey_server_start_reading_from_client_internal. st. Qed.

End reads.

#[export] Hint Resolve st_find st_subscribe_to_commands st_built st_scratchpad st_work_complete st_craft_quit st_start_reading : stable.

(** ** The handshake *)

Lemma u64_succ n : u64 (u64 n + 1) = u64 (n + 1).
Proof. unfold u64, wrap. by rewrite Zplus_mod_idemp_l. Qed.

Lemma erase_no_error {V} (l : array_ptr V) i e : array_erase l i <> Err e.
Proof. unfold array_erase, array_erase_at. destruct l as [|a|]; cbn; try done. case_bool_decide; cbn; [|done]. by destruct (ar_data a !! i). Qed.

Section operations.
Context {T : Type -> Type} `{Table T}.
Context (E : environment (T := T)) (P : plugin_environment) (L : list nat).

#[local] Ltac sr := repeat (cbv beta zeta; first [assumption | (apply st_neutral; by intros ?) | st_step | solve [auto with stable]]).

Lemma st_handshake_end K c : stable plugin_inv L K (dicey_server_plugin_handshake_end (T := T) P c).
Proof. unfold dicey_server_plugin_handshake_end. apply st_bind_plugin. open_plugin; run; close_plugin. Qed.

Lemma st_quitting K c : stable plugin_inv L K (dicey_server_plugin_quitting (T := T) P c).
Proof. unfold dicey_server_plugin_quitting. apply st_bind_plugin. open_plugin; run; close_plugin. Qed.

Lemma st_handshake_start K c name : stable plugin_inv L K (dicey_server_plugin_handshake_start E P c name).
Proof.
  unfold dicey_server_plugin_handshake_start. destruct name as [name|]; [|apply st_fault]. case_match; [apply st_fail|]. apply st_bind_plugin.
  open_plugin; run; close_plugin.
Qed.

(** ** Jobs *)

Lemma find_job_spec jid l i : match find_job jid l i with Some j => exists k job, j = (i + k)%nat /\ l !! k = Some job /\ pw_jid job = jid | None => True end.
Proof.
  revert i. induction l as [|job l IH]; intros i; cbn [find_job]; [done|]. destruct (Z.eqb_spec (pw_jid job) jid).
  - exists 0%nat, job. split_and!; (done || lia).
  - specialize (IH (S i)). destruct (find_job jid l (S i)) as [j|]; [|done]. destruct IH as (k & job' & -> & Hk & Hj). exists (S k), job'. split_and!; try done. lia.
Qed.

(** Popping a job: none has the number, or one is taken out. *)
Lemma pop_job_spec wl jid : array_ok wl ->
  match plugin_work_list_pop_job wl jid with
  | Ok (None, l) => l = wl
  | Ok (Some job, l) => array_ok l /\ pw_jid job = jid /\ array_values wl ≡ₚ job :: array_values l
  | Err _ => False
  | _ => True
  end.
Proof.
  intros Hok. unfold plugin_work_list_pop_job. destruct wl as [|a|]; [done| |done]. cbn [oassert obind]. rewrite array_elements_ok by done. cbn [obind array_values].
  pose proof (find_job_spec jid (ar_data a) 0) as Hf. destruct (find_job jid (ar_data a) 0) as [j|]; [|done]. destruct Hf as (k & job & -> & Hk & Hj). cbn [Nat.add].
  destruct (erase_ok (AnArray a) k job Hok Hk) as (l & -> & Hl & _ & Hv). cbn [obind]. split_and!; try done. rewrite Hv. cbn [array_values].
  rewrite <- delete_take_drop. by apply delete_Permutation.
Qed.

(** One pending job has ended. *)
Lemma closes_pop c p l job o :
  pd_state p = PLUGIN_STATE_RUNNING -> array_ok l -> array_values (work_list p) ≡ₚ job :: array_values l ->
  events_of c [o] = [] -> done_of c [o] = [pw_jid job] -> closes c (base c p) (set_work_list l p) [o].
Proof.
  intros Hst Hl Hp He Hd. destruct p as [proc timer td st info jid wl md ac]. cbn in *. subst st. apply closes_keep; try done; cbn.
  - intros []; cbn; [done|]. unfold whole. cbn. naive_solver.
  - by rewrite He.
  - rewrite Hd. unfold pending_jobs. cbn. rewrite Hp. cbn. by rewrite <- Permutation_cons_append.
Qed.

Lemma st_report_work_done K c jid v : stable plugin_inv L K (dicey_server_plugin_report_work_done (T := T) c jid v).
Proof.
  unfold dicey_server_plugin_report_work_done. apply st_bind_plugin. intros p. apply ends_pure. intros limbo l [Hh _ _].
  apply ends_assert. intros Hst%bool_decide_eq_true_1.
  assert (array_ok (work_list p)) as Hok by (destruct limbo; unfold handles_ok in Hh; rewrite Hst in Hh; [done|by destruct Hh as [[] _]]).
  pose proof (pop_job_spec (work_list p) jid Hok) as Hp. apply ends_lift; [|by intros e He; rewrite He in Hp].
  intros [[job|] wl] Ha; rewrite Ha in Hp; apply ends_write.
  - destruct Hp as (Hl & _ & Hp). unfold plugin_work_request_finish, call_on_done, plugin_work_request_sync_cb. destruct job as [j f ctx]. cbn in *.
    destruct f; apply ends_tail, ends_out; try solve_about; apply ends_ret; eapply closes_pop; try done; cbn; by rewrite decide_True by done.
  - apply ends_fail. subst wl. replace (set_work_list (work_list p) p) with p by (by destruct p). apply closes_keep; try done. cbn. by rewrite app_nil_r.
Qed.

(** A plugin that was found has a slot: its pipe is not closed. *)
Definition live_base (c : nat) (p : dicey_plugin_data) (limbo : bool) (l : list plugin_output) : Prop := limbo = false /\ plugin_inv false c p l.

Lemma find_in_slots slots name c (s s' : dicey_server (T := T)) : find_in slots name s = (Ok (Some c), s') -> s' = s /\ c ∈ omap id slots.
Proof.
  induction slots as [|[c'|] slots IH]; cbn [find_in]; [done| |exact IH]. unfold CLIENT_DATA_IS_PLUGIN, sbind, client_read. destruct (sv_heap s !! c') as [d|]; [|done]. cbn.
  assert (find_in slots name s = (Ok (Some c), s') -> s' = s /\ c ∈ c' :: omap id slots) as IH' by (intros Hf; destruct (IH Hf); split; [done|by right]).
  destruct (cd_cleanup_cb d); cbn; [|exact IH']. unfold plugin_read. destruct (sv_plugins s !! c') as [p|]; [|done]. destruct (str_read (pi_name (pd_info p))) as [[n|]| | |]; try done. cbn.
  destruct (strcmp n name =? 0); [|exact IH']. intros [= -> ->]. split; [done|by left].
Qed.

Lemma st_bind_find {C} K name (k : option nat -> sst (T := T) C) :
  stable plugin_inv L K (k None) ->
  (forall c s, inv plugin_inv L K s -> c ∉ L -> match k (Some c) s with (Ok _, s') | (Err _, s') => inv plugin_inv L K s' | _ => True end) ->
  stable plugin_inv L K (sbind (dicey_server_plugin_find_by_name name) k).
Proof.
  intros Hn Hs s Hi. pose proof (st_find L plugin_inv K name s Hi) as Hf. unfold sbind. destruct (dicey_server_plugin_find_by_name name s) as [[[c|]| | |] s'] eqn:Ef; try done; [|by apply Hn].
  unfold dicey_server_plugin_find_by_name, sbind, sget in Ef. apply find_in_slots in Ef as [-> Hc]. apply Hs; [done|]. intros Hl.
  pose proof (in_nodup _ _ _ _ Hi) as Hnd. apply NoDup_app in Hnd as (_ & Hnd & _). apply (Hnd c Hc). apply elem_of_app. by right.
Qed.

Lemma ends_from_live {A} K (s : dicey_server (T := T)) c (k : dicey_plugin_data -> sst (T := T) A) : inv plugin_inv L K s -> c ∉ L ->
  (forall p, ends L c (live_base c p) p [] (Known c true :: K) (k p)) ->
  match sbind (plugin_read c) k s with (Ok _, s') | (Err _, s') => inv plugin_inv L K s' | _ => True end.
Proof.
  intros Hi Hc Hm. destruct (sv_plugins s !! c) as [p|] eqn:Hp; [|by unfold sbind, plugin_read; rewrite Hp]. rewrite (plugin_read_eq c k s p Hp).
  assert (inv (at_plugin c (live_base c p) p []) L (Known c true :: K) s) as Ho.
  { apply (inv_change L _ _ _ _ (inv_open L K s c p Hi Hp)). intros c' q _. unfold at_plugin. destruct (decide (c' = c)) as [->|]; [|done].
    rewrite bool_decide_false by done. intros (-> & l0 & Hl0 & HB). split; [done|]. exists l0. by split. }
  specialize (Hm p ltac:(by left) s Ho). destruct (k p s) as [[] s']; try done; by eapply inv_forget; [exact Hm|intros x Hx; apply elem_of_cons; by right].
Qed.

Lemma closes_live c p p' outs : closes c (base c p) p' outs -> closes c (live_base c p) p' outs.
Proof. intros Hc limbo l [-> Hv]. by apply Hc. Qed.

(** One more job is pending, with the next number. *)
Lemma closes_job c p l job : array_ok l -> array_values l = array_values (work_list p) ++ [job] -> pw_jid job = next_jid p ->
  closes c (live_base c p) (set_jid (u64 (next_jid p + 1)) (set_work_list l p)) [].
Proof.
  intros Hl Hv Hj limbo l0 [-> [Hh He (n & Hn0 & Hn & Hjobs)]]. rewrite app_nil_r. destruct p as [proc timer td st info jid wl md ac]. cbn in *. split; [|done|].
  - destruct st; cbn in *; unfold whole in *; cbn in *; naive_solver.
  - exists (n + 1). cbn. split_and!; [lia|rewrite Hn; apply u64_succ|]. rewrite job_numbers_snoc by done. rewrite <- Hjobs, <- Hn, <- Hj.
    unfold pending_jobs. cbn. rewrite Hv, fmap_app. cbn. rewrite <- !app_assoc. apply Permutation_app_head. apply Permutation_app_comm.
Qed.

Lemma live_array c p limbo l : live_base c p limbo l -> array_ok (work_list p).
Proof. intros [_ [Hh _ _]]. unfold handles_ok in Hh. destruct (pd_state p); try done; by destruct Hh as [[] _] || destruct Hh. Qed.

Lemma closes_same c p : closes c (live_base c p) p [].
Proof. apply closes_live, closes_keep; try done. cbn. by rewrite app_nil_r. Qed.

Lemma st_on_done_none K f err v ctx : stable plugin_inv L K (call_on_done (T := T) None f None err v ctx).
Proof. unfold call_on_done, plugin_work_request_sync_cb. destruct f; apply st_neutral; by intros ?. Qed.

Lemma st_work_fail K data wbs err : stable plugin_inv L K (plugin_send_work_data_fail (T := T) data wbs err).
Proof. unfold plugin_send_work_data_fail. sr. apply st_on_done_none. Qed.

(** A job that cannot be given out ends the program. *)
Lemma ends_work_fail c B p outs K data err : ends L c B p outs K (plugin_send_work_data_fail (T := T) data None err).
Proof.
  intros HK s Hi. unfold plugin_send_work_data_fail, sbind. pose proof (safe_on_done None (sw_on_done data) None err None (sw_ctx data) s) as Hs.
  by destruct (call_on_done _ _ _ _ _ _ s) as [[] s'].
Qed.

Lemma st_issue_work K data client : stable plugin_inv L K (plugin_issue_work E data client).
Proof.
  unfold plugin_issue_work. case_match; [apply st_fail|]. apply st_bind_find; [apply st_work_fail|]. intros c s Hi Hc. destruct (sw_builder data) as [wbs|]; [|done].
  apply ends_from_live; [done|done|]. intros p. apply ends_pure. intros limbo l Hok%live_array.
  apply ends_stable; [intros; apply st_work_complete|apply closes_same|]. intros [r wbs']. destruct r as [err|packet]; [apply ends_close; [apply closes_same|apply st_work_fail]|].
  apply ends_lift; [|intros; apply closes_same]. intros _ _. set (job := mk_work _ _ _). apply ends_lift; [|intros; apply closes_same].
  intros [entry wl] Ha. apply ends_write. destruct entry as [entry|]; [|apply ends_work_fail].
  destruct (append_ok WORK_REQUEST_SIZE (e_block_ok E) (work_list p) job Hok) as [(wl' & Ha' & Hok' & Hv)|[[_ Ha']|[_ Ha']]]; rewrite Ha' in Ha; try done. injection Ha as <- <-.
  apply ends_attempt; [intros; apply st_raise_internal|]. intros [e|_].
  - apply ends_read, ends_lift; [|by intros e' ?%erase_no_error].
    intros [x wl2] _. apply ends_write, ends_work_fail.
  - unfold plugin_upd. apply ends_read, ends_tail, ends_write, ends_ret. by apply (closes_job c p wl' job).
Qed.

Lemma st_issue_quit K md name client : stable plugin_inv L K (plugin_issue_quit E P md name client).
Proof.
  unfold plugin_issue_quit. case_match; [apply st_fail|]. apply st_bind; [|intros; sr]. apply st_attempt. apply st_bind; [apply st_find|]. intros [c|]; [|apply st_fail]. apply st_bind_plugin.
  open_plugin; run; close_plugin.
Qed.

Lemma st_list K req : stable plugin_inv L K (plugins_list E req).
Proof. unfold plugins_list, count_plugins, write_list. sr; try apply st_count; apply st_infos. Qed.

Lemma st_kill_request K name : stable plugin_inv L K (plugin_kill_request E name).
Proof. unfold plugin_kill_request, dicey_server_kick. sr. apply st_submit. Qed.

(** ** Spawning *)

(** A plugin that was just allocated: nothing is known of its address yet. *)
Definition new_base (c : nat) (limbo : bool) (l : list plugin_output) : Prop := limbo = false /\ events_of c l = [] /\ done_of c l = [].

Lemma closes_new c p outs : handles_ok false p -> run_events (PLUGIN_STATE_INVALID, false) (events_of c outs) = Some (pd_state p, false) ->
  work_list p = NoArray -> next_jid p = 0 -> done_of c outs = [] -> closes c (new_base c) p outs.
Proof.
  intros Hh He Hw Hj Hd limbo l (-> & E1 & E2). split; [done|by unfold life_of; rewrite events_of_app, E1|]. exists 0. unfold pending_jobs. rewrite done_of_app, E2, Hd, Hw. done.
Qed.

Lemma inv_new_plugin (s : dicey_server (T := T)) c d d' p i : inv plugin_inv L [] s -> sv_heap s !! c = Some d -> sv_plugins s !! c = None -> c ∉ L ->
  events_of c (outputs_of s) = [] /\ done_of c (outputs_of s) = [] -> cd_cleanup_cb d' = true -> holds (sv_heap s) (sv_clients s) (SlotOf i c) ->
  inv (at_plugin c (new_base c) p []) L [Known c true; SlotOf i c] (set_plugins (<[c := p]> (sv_plugins s)) (set_heap (<[c := d']> (sv_heap s)) s)).
Proof.
  intros Hi Hd Hp Hc Hnew Hf Hslot. destruct Hi as [in_nodup0 in_heap0 in_fresh0 in_known0 in_flags0 in_memory0 in_limbo0 in_plugins0 in_gone0 in_new0]. split; try done; cbn.
  - intros c' Hc'. destruct (decide (c' = c)) as [->|]; [rewrite lookup_insert_eq; eauto|rewrite lookup_insert_ne by done; auto].
  - intros c' Hc'. destruct (decide (c' = c)) as [->|]; [apply in_fresh0; eauto|rewrite lookup_insert_ne in Hc' by done; auto].
  - intros x [->|[->|Hx%not_elem_of_nil]%elem_of_cons]%elem_of_cons; [exists d'; by rewrite lookup_insert_eq|done|done].
  - intros c' d2 Hd2. destruct (decide (c' = c)) as [->|]; [|rewrite !lookup_insert_ne in * by done; auto]. rewrite lookup_insert_eq in Hd2. injection Hd2 as <-. rewrite lookup_insert_eq. split; [eauto|done].
  - intros c' Hc'. destruct (decide (c' = c)) as [->|]; [rewrite lookup_insert_eq; eauto|rewrite !lookup_insert_ne in * by done; auto].
  - intros c' Hc'. rewrite lookup_insert_ne by (by intros <-). auto.
  - intros c' q Hq. unfold at_plugin. destruct (decide (c' = c)) as [->|]; [|rewrite lookup_insert_ne in Hq by done; by apply in_plugins0].
    rewrite lookup_insert_eq in Hq. injection Hq as <-. split; [done|]. exists (outputs_of s). rewrite app_nil_r, bool_decide_false by done. done.
  - intros c' Hc'. destruct (decide (c' = c)) as [->|]; [by rewrite lookup_insert_eq in Hc'|rewrite lookup_insert_ne in Hc' by done; by apply in_gone0].
Qed.

(** When spawning fails the plugin is cleaned up, which it does not survive, unless it has lost its
    slot already. *)
Lemma ends_spawn_fail E0 c p outs K i err :
  e_plugin_cleanup E = plugin_cleanup E0 P -> SlotOf i c ∈ K -> pd_state p = PLUGIN_STATE_INVALID -> closes c (new_base c) p outs ->
  ends L c (new_base c) p outs K (do! clean_err <- attempt (dicey_server_cleanup_id E i) ;
    match clean_err with inl _ => sfault AssertFailed | inr _ => sfail err : sst (T := T) unit end).
Proof.
  intros HE HS Hst Hc HK s Hi. unfold dicey_server_cleanup_id, dicey_server_release_id, attempt, sbind, sget, slift, upd.
  destruct (dicey_client_list_drop_client (sv_clients s) i) as [[old l]| | |] eqn:Hd; try done.
  destruct (inv_drop _ L K s i old l Hi Hd) as [H1 _]. destruct (in_known _ _ _ _ Hi _ HS old l Hd) as [-> | ->]; cbn.
  - by apply (ends_fail (A := unit) L c (new_base c) p outs K err Hc HK (set_clients l s)).
  - destruct (at_lookup L c _ p outs K s Hi HK) as [Hp _]. destruct (in_known _ _ _ _ Hi _ HK) as (d & Hh & Hf).
    unfold dicey_client_data_cleanup, sbind, client_read. cbn. rewrite Hh, Hf, HE. unfold plugin_cleanup, plugin_data_cleanup, sbind. cbn.
    unfold CLIENT_DATA_IS_PLUGIN, sbind, client_read. cbn. rewrite Hh. cbn. rewrite Hf. unfold plugin_read. cbn. by rewrite Hp, Hst.
Qed.

Lemma ignore_fault {A B} (m : sst (T := T) B) f (s : dicey_server (T := T)) : match (ignore m ;;! (sfault f : sst (T := T) A)) s with (Ok _, _) | (Err _, _) => False | _ => True end.
Proof. unfold ignore, attempt, sbind. by destruct (m s) as [[] s']. Qed.

Lemma st_spawn E0 md path client : e_plugin_cleanup E = plugin_cleanup E0 P -> stable plugin_inv L [] (plugin_spawn E P md path client).
Proof.
  intros HE s Hi. unfold plugin_spawn, client_data_new_plugin. destruct client; [done|]. cbn [bool_decide]. unfold sassert. rewrite bool_decide_true by done.
  unfold sbind at 1 2, sret at 1. unfold sbind at 1, sget. destruct (dicey_server_reserve_id (e_block_ok E) (sv_clients s)) as [r l] eqn:Er.
  pose proof (st_reserved plugin_inv _ L s r l Hi Er) as H1. pose proof (reserve_slot _ s r l Er) as Hs. unfold sbind at 1, upd at 1.
  rewrite bind_lift. destruct r as [i|e|f|]; try done. destruct Hs as (_ & Hpos & Hslot).
  unfold sbind at 1, malloc. destruct (e_malloc_ok E _); [|done].
  set (c := sv_next (set_clients l s)). set (d := mk_client _ _ _ _ _ _).
  destruct (inv_add plugin_inv L [] (set_clients l s) d H1 eq_refl) as (H2 & Hh & Hp & Hm). fold c in H2, Hh, Hp, Hm. set (s2 := set_heap _ _) in *.
  destruct (inv_fill plugin_inv L s2 i c H2) as (H3 & Hold); [unfold s2; cbn; rewrite lookup_insert_eq; eauto|exact Hm|exact Hslot|]. set (s3 := set_clients _ s2) in *.
  unfold sbind at 1, client_write at 1, upd at 1. unfold sbind at 1, plugin_write at 1, upd at 1. unfold sbind at 1, upd at 1.
  destruct (e_uv_pipe_err E c).
  { match goal with |- context [sbind (ignore ?m) ?k ?st] => pose proof (ignore_fault (A := option (nat * Z)) m InvalidFree st) as Hf; destruct (sbind (ignore m) k st) as [[] ?] end; done. }
  unfold sbind at 1, client_write, upd at 1. cbn [sret]. set (d' := mk_client _ _ _ _ _ true).
  assert (inv (at_plugin c (new_base c) zero_plugin []) L [Known c true; SlotOf i c] (set_plugins (<[c := zero_plugin]> (sv_plugins s3)) (set_heap (<[c := d']> (sv_heap s3)) s3))) as H4.
  { apply (inv_new_plugin s3 c d); try done; [cbn; by rewrite lookup_insert_eq|intros Hl; apply Hm; rewrite !elem_of_app; auto|apply (in_new _ _ _ _ Hi); cbn; lia|by apply Hold]. }
  match goal with |- match sbind ?m ?k ?s4 with _ => _ end => change s4 with (set_plugins (<[c := zero_plugin]> (sv_plugins s3)) (set_heap (<[c := d']> (sv_heap s3)) s3)); set (code := sbind m k) end.
  enough (ends L c (new_base c) zero_plugin [] [Known c true; SlotOf i c] code) as Hx.
  { specialize (Hx ltac:(by left) _ H4). destruct (code _) as [[] s']; try done; by eapply inv_forget; [exact Hx|intros x Hx'%not_elem_of_nil]. }
  unfold code. clear -HE. unfold info_dup_to, spawn_child, zero_plugin.
  run.
  all: first [ eapply ends_spawn_fail; [exact HE|by repeat (left || right)|done|] | idtac].
  all: apply closes_new; cbn; unfold whole; cbn; rewrite ?decide_True by done; naive_solver.
Qed.

End operations.

(** ** The callbacks of a server with plugins *)

Section callbacks.
Context {T : Type -> Type} `{Table T}.
Context (E : environment (T := T)) (P : plugin_environment) (L : list nat).

#[local] Ltac sr := repeat (cbv beta zeta; first [assumption | (apply st_neutral; by intros ?) | st_step | solve [auto with stable]]).

Lemma st_introspection_handler K xml op e path p v c : stable plugin_inv L K (introspection_handler E xml op e path p v c).
Proof. unfold introspection_handler. sr. Qed.

Lemma st_unsubscribe K c d : stable plugin_inv L K (dicey_client_data_unsubscribe (T := T) c d).
Proof. unfold dicey_client_data_unsubscribe. st. Qed.

Lemma st_server_handler K op e path p v c : stable plugin_inv L K (server_handler E op e path p v c).
Proof. unfold server_handler, handle_server_operation. sr; apply st_unsubscribe. Qed.

Lemma st_plugin_submit K r : stable plugin_inv L K (plugin_submit E r).
Proof. unfold plugin_submit, dicey_server_submit_request. sr. Qed.

Lemma st_list_plugins K : stable plugin_inv L K (handle_list_plugins E).
Proof. unfold handle_list_plugins, dicey_server_list_plugins. sr. apply st_plugin_submit. Qed.

Lemma st_get_property K path op : stable plugin_inv L K (handle_get_plugin_property E path op).
Proof. unfold handle_get_plugin_property. sr. Qed.

Lemma st_handshake_step K c m : stable plugin_inv L K m -> stable plugin_inv L K (handshake_step E c m).
Proof. intros Hm. unfold handshake_step. sr. apply st_raised_error. Qed.

Lemma st_plugins_handler K op e path p v c : stable plugin_inv L K (plugins_handler E P op e path p v c).
Proof.
  unfold plugins_handler, handle_plugin_operation, dicey_client_data_as_plugin, CLIENT_DATA_IS_PLUGIN, response_message, dicey_plugin_data_get_info. sr.
  - apply st_list_plugins.
  - apply st_get_property.
  - apply st_handshake_step. unfold handle_start_handshake, response_message. sr. apply st_handshake_start.
  - unfold handle_quitting, response_message. sr. apply st_quitting.
  - apply st_handshake_step. unfold handle_end_handshake, response_message. sr. apply st_handshake_end.
  - unfold handle_work_response, response_message. sr. apply st_report_work_done.
Qed.

Lemma st_plugin_request E0 r client : e_plugin_cleanup E = plugin_cleanup E0 P -> stable plugin_inv L [] (run_plugin_request E P r client).
Proof.
  intros HE. destruct r; cbn [run_plugin_request]; [by eapply st_spawn|apply st_kill_request|apply st_list|apply st_issue_quit|apply st_issue_work].
Qed.

(** The state after a request was submitted, whatever the call returned. *)
Lemma plugin_submit_inv Q K cb target sem (s : dicey_server (T := T)) : inv Q L K s -> inv Q L K (submit_new E cb target sem s).2.
Proof.
  intros Hi. apply (inv_view Q L K s); try done.
  all: unfold submit_new, dicey_server_blocking_request, dicey_server_submit_request, malloc, sbind, attempt, upd, sret, sfail, sfault; cbn;
    destruct (copies_path cb); cbn; repeat case_match; cbn in *; simplify_eq; cbn; (done || lia).
Qed.

End callbacks.

Section server.
Context {T : Type -> Type} `{Table T}.
Context (E : environment (T := T)) (P : plugin_environment) (xml : cstr -> option cstr) (L : list nat).

Lemma plugin_builtins_stable : builtins_stable plugin_inv (with_plugins E P xml) L.
Proof.
  unfold builtins_stable. cbn. repeat (apply Forall_cons; split); [..|by apply Forall_nil]; intros;
    [apply st_introspection_handler|apply st_plugins_handler|apply st_server_handler].
Qed.

Lemma plugin_requests_stable : requests_stable plugin_inv (with_plugins E P xml) L.
Proof. intros r c. cbn. by eapply st_plugin_request. Qed.

End server.
