(* ===== verification/PluginsTheorems.v ===== *)
(** * Runs of a server with plugins

    Whatever clients and plugins send, whatever other threads ask for, and whenever processes exit,
    timers run out and libuv closes handles: the events of every plugin come in an order that makes
    sense, every job ends once, and the memory of a client is referred to from one place. A plugin
    that is being closed is freed by the callbacks that are pending. *)

From S2P Require Import Prelude Errors Types Views Writer ValueWrite ValueProbe Value Codec Payload Packet Typedescr ValueValidate.
From S2P Require Import Hashtable WaitingList PendingReqs Table Traits Registry RegistrySpec RegistryTheorems Clients Chunk Builders BuildersTheorems Names.
From S2P Require Import PluginData Server ServerScenario ServerFrame ServerTheorems Introspection Builtins Plugins PluginsScenario PluginsInv PluginsRun PluginsOps.
From stdpp Require Import strings gmap list.

#[local] Set Warnings "-clear-no-such-hyp".
#[local] Open Scope list_scope.
#[local] Open Scope Z_scope.

(** ** Names and paths *)

Lemma has_prefix_app p l : has_prefix (p ++ l) p = true.
Proof. unfold has_prefix. by rewrite take_app_length, bool_decide_true. Qed.

Lemma has_prefix_inv l p : has_prefix l p = true -> exists r, l = p ++ r.
Proof. unfold has_prefix. intros Hp%bool_decide_eq_true_1. exists (drop (length p) l). rewrite <- Hp at 1. by rewrite take_drop. Qed.

Lemma metaplugin_format name : DICEY_METAPLUGIN_FORMAT name = METAPLUGIN_PREFIX ++ name.
Proof. reflexivity. Qed.

(** A plugin is found under the path made of its name, and under no other: [dicey_plugin_name_from_path]
    answers a name exactly for the paths of valid names, and then it is the name of the path. *)
Theorem plugin_path_roundtrip path name :
  dicey_plugin_name_from_path path = Some name <-> path = DICEY_METAPLUGIN_FORMAT name /\ dicey_string_is_valid_plugin_name (Some name) = true.
Proof.
  unfold dicey_plugin_name_from_path. rewrite metaplugin_format. split.
  - destruct (has_prefix path METAPLUGIN_PREFIX) eqn:Hp; [|done]. cbn [negb]. destruct (has_prefix_inv _ _ Hp) as [r ->]. rewrite drop_app_length.
    destruct (dicey_string_is_valid_plugin_name (Some r)) eqn:Hv; [|done]. by intros [= <-].
  - intros [-> Hv]. rewrite has_prefix_app. cbn [negb]. by rewrite drop_app_length, Hv.
Qed.

(** ** Steps *)

(** The calls that other threads make about plugins. *)
Inductive plugin_call : Type :=
  | call_spawn (path : cstr)
  | call_spawn_and_wait (path : cstr) (info sem result : nat)
  | call_quit (name : cstr)
  | call_quit_and_wait (name : cstr) (sem result : nat) (retval : option nat)
  | call_kill (name : cstr)
  | call_list (vars : option nat) (buf : option (option Z)) (count : Z)
  | call_send_work (name : cstr) (payload : dicey_arg) (on_done : on_work_done_fn) (ctx : nat).

(** A plugin with a pipe does not wait for its timer to be closed. *)
Lemma not_closing p : handles_ok false p -> process_timer p <> TimerClosing true.
Proof. destruct p as [proc timer td st info jid wl md ac]. cbn. intros Hh ->. destruct st; cbn in Hh; naive_solver. Qed.

(** One whose process is being closed waits for it. *)
Lemma closing_process limbo p : handles_ok limbo p -> pd_process p = ProcessClosing ->
  limbo = true /\ is_final (pd_state p) /\ array_values (work_list p) = [] /\ after_cleanup p = Some finish_cleanup /\ process_timer p = TimerStopped.
Proof. destruct p as [proc timer td st info jid wl md ac]. cbn. intros Hh ->. unfold is_final. destruct limbo, st; cbn in Hh; naive_solver. Qed.

(** Every life that has come to an end ended with [QUIT]. *)
Lemma life_ends l st : is_final st -> life_of l st -> exists l', l = l' ++ [DICEY_PLUGIN_EVENT_QUIT].
Proof.
  intros Hst. unfold life_of. destruct l as [|k l _] using rev_ind; [cbn; intros [= <-]; by destruct Hst|]. rewrite run_events_app.
  destruct (run_events _ l) as [[st' b]|]; [|discriminate]. intros Hx. exists l. destruct st', b, k; cbn in Hx; try discriminate; try done; simplify_eq; by destruct Hst.
Qed.

Section runs.
Context {T : Type -> Type} `{Table T}.
Context (E0 : environment (T := T)) (P : plugin_environment) (xml : cstr -> option cstr).
#[local] Abbreviation E := (with_plugins E0 P xml).
#[local] Abbreviation server := (dicey_server (T := T)).

Definition run_call (call : plugin_call) : sst (T := T) unit :=
  match call with
  | call_spawn path => dicey_server_spawn_plugin E path
  | call_spawn_and_wait path info sem result => dicey_server_spawn_plugin_and_wait E path info sem result
  | call_quit name => dicey_server_plugin_quit E name
  | call_quit_and_wait name sem result retval => dicey_server_plugin_quit_and_wait E name sem result retval
  | call_kill name => dicey_server_plugin_kill E name
  | call_list vars buf count => dicey_server_list_plugins E vars buf count
  | call_send_work name payload on_done ctx => dicey_server_plugin_send_work E name payload on_done ctx
  end.

(** A step of the server, a call, or a callback of libuv about the handles of a plugin, as long as
    nothing faults. *)
Inductive plugin_step (s : server) : server -> Prop :=
  | step_server s' : server_step E s s' -> plugin_step s s'
  | step_call call r s' : run_call call s = (r, s') -> match r with Ok _ | Err _ => True | _ => False end -> plugin_step s s'
  | step_exit c p status signal s' :
      sv_plugins s !! c = Some p -> pd_process p = ProcessActive -> plugin_exit_cb E c status signal s = (Ok tt, s') -> plugin_step s s'
  | step_timeout c p cb s' :
      sv_plugins s !! c = Some p -> process_timer p = TimerArmed cb -> timer_fires P c s = (Ok tt, s') -> plugin_step s s'
  | step_process_closed c p s' :
      sv_plugins s !! c = Some p -> pd_process p = ProcessClosing -> plugin_close_process c s = (Ok tt, s') -> plugin_step s s'
  | step_timer_closed c p s' :
      sv_plugins s !! c = Some p -> process_timer p = TimerClosing true -> plugin_close_timer c s = (Ok tt, s') -> plugin_step s s'.

(** ** Every step keeps the invariant *)

Lemma st_call L K call : stable plugin_inv L K (run_call call).
Proof.
  destruct call; cbn [run_call]; unfold dicey_server_spawn_plugin, dicey_server_spawn_plugin_and_wait, plugin_submit_spawn, dicey_server_plugin_quit,
    dicey_server_plugin_quit_and_wait, plugin_request_quit, dicey_server_plugin_kill, dicey_server_list_plugins, dicey_server_plugin_send_work,
    dicey_server_plugin_work_request_start, dicey_server_plugin_work_request_submit, plugin_submit_work; st; apply st_plugin_submit.
Qed.

Lemma stable_run L {A} (m : sst (T := T) A) (s s' : server) r :
  stable plugin_inv L [] m -> inv plugin_inv L [] s -> m s = (r, s') -> match r with Ok _ | Err _ => True | _ => False end -> inv plugin_inv L [] s'.
Proof. intros Hm Hi Hr Hok. specialize (Hm s Hi). rewrite Hr in Hm. by destruct r. Qed.

Lemma server_step_inv L s s' : inv plugin_inv L [] s -> server_step E s s' -> exists L', inv plugin_inv L' [] s'.
Proof.
  intros Hi Hs. pose proof (plugin_builtins_stable E0 P xml L) as Hb. pose proof (plugin_requests_stable E0 P xml L) as Hr.
  destruct Hs as [? _ ->|status ? Hs|c n bytes s1 ? _ Ha _ Hs|c err ? _ Hs|i w status ? _ Hs|i c ? Hc _ Hs|? Hs|cb target sem ? <-|? _ Hs].
  - exists L. by apply (inv_view _ L [] s).
  - exists L. refine (stable_run L _ s _ _ _ Hi Hs I). by apply st_on_connect.
  - exists L. assert (inv plugin_inv L [] s1) as H1 by (refine (stable_run L _ s _ _ _ Hi Ha I); apply st_alloc_buffer).
    refine (stable_run L _ s1 _ _ _ H1 Hs I). by apply st_on_read.
  - exists L. refine (stable_run L _ s _ _ _ Hi Hs I). apply st_on_read_end.
  - exists L. refine (stable_run L _ _ _ _ _ _ Hs I); [apply st_on_write|]. by apply (inv_view _ L [] s).
  - pose proof (run_client_end E P L E0 s i c eq_refl Hi Hc) as Hx. rewrite Hs in Hx. destruct Hx; eauto.
  - exists L. refine (stable_run L _ s _ _ _ Hi Hs I). by apply st_inbound.
  - exists L. by apply plugin_submit_inv.
  - exists L. refine (stable_run L _ s _ _ _ Hi Hs I). apply st_shutdown_at_end.
Qed.

Lemma plugin_step_inv L s s' : inv plugin_inv L [] s -> plugin_step s s' -> exists L', inv plugin_inv L' [] s'.
Proof.
  intros Hi Hs. destruct Hs as [? Hs|call r ? Hs Hr|c p status signal ? Hp Ha Hs|c p cb ? Hp Ht Hs|c p ? Hp Ha Hs|c p ? Hp Ht Hs].
  - by eapply server_step_inv.
  - exists L. refine (stable_run L _ s _ _ _ Hi Hs Hr). apply st_call.
  - exists L. pose proof (run_exit_cb E L s c p status signal Hi Hp Ha) as Hx. by rewrite Hs in Hx.
  - exists L. refine (stable_run L _ s _ _ _ Hi Hs I). apply st_timer_fires.
  - exists L. pose proof (run_close_process L s c p Hi Hp Ha) as Hx. by rewrite Hs in Hx.
  - assert (c ∈ L) as Hc.
    { destruct (decide (c ∈ L)); [done|]. pose proof (in_plugins _ _ _ _ Hi c p Hp) as [Hh _ _]. rewrite bool_decide_false in Hh by done.
      by destruct (not_closing p Hh). }
    apply elem_of_Permutation in Hc as [L' HL]. exists L'. pose proof (run_close_timer L' s c p (inv_perm L _ _ _ s HL Hi) Hp Ht) as Hx. by rewrite Hs in Hx.
Qed.

Lemma new_server_inv registry : inv plugin_inv [] [] (new_server registry : server).
Proof.
  split; cbn; try done.
  - apply NoDup_nil_2.
  - by intros c Hc%not_elem_of_nil.
  - by intros c []%lookup_empty_is_Some.
  - by intros x Hx%not_elem_of_nil.
  - by intros c []%lookup_empty_is_Some.
  - by intros c Hc%not_elem_of_nil.
  - intros c _. by left.
Qed.

(** What the server can come to. *)
Definition reachable (s : server) : Prop := exists registry, rtc plugin_step (new_server registry) s.

Lemma reachable_inv s : reachable s -> exists L, inv plugin_inv L [] s.
Proof.
  intros [registry Hrun]. assert (exists L, inv plugin_inv L [] (new_server registry : server)) as H0 by (exists []; apply new_server_inv).
  induction Hrun as [|s0 s1 s2 Hs _ IH]; [done|]. apply IH. destruct H0 as [L HL]. by eapply plugin_step_inv.
Qed.

(** ** Properties *)

Lemma job_numbers_nodup n : n <= 2 ^ 64 -> NoDup (job_numbers n).
Proof.
  intros Hn. unfold job_numbers. apply NoDup_fmap_2_strong; [|apply NoDup_seqZ]. intros x y Hx Hy. rewrite elem_of_seqZ in Hx, Hy. unfold u64, wrap.
  rewrite !Z.mod_small by lia. done.
Qed.

(** C12: The user of the server sees a plugin live as it should: it is spawned, may be found unresponsive,
    gets its name, is ready, is asked to quit or terminated, and quits, successfully or after it
    failed, and nothing more. The state the server keeps is the one the events lead to, and a
    plugin that is gone has quit. *)
Theorem plugin_events_in_order s c :
  reachable s ->
  match sv_plugins s !! c with
  | Some p => life_of (events_of c (outputs_of s)) (pd_state p)
  | None => events_of c (outputs_of s) = [] \/ exists st, is_final st /\ life_of (events_of c (outputs_of s)) st
  end.
Proof.
  intros [L Hi]%reachable_inv. destruct (sv_plugins s !! c) as [p|] eqn:Hp.
  - by destruct (in_plugins _ _ _ _ Hi c p Hp).
  - destruct (in_gone _ _ _ _ Hi c Hp) as [[H1 _]|(st & n & H1 & H2 & _)]; eauto.
Qed.

(** C13: Every job that was given to a plugin is pending, or its callback was called, once: the numbers of
    the pending jobs and of the callbacks are together the numbers that were given out. When the
    plugin is gone, no job is pending: every callback was called. *)
Theorem plugin_jobs_end_once s c :
  reachable s ->
  exists n, 0 <= n /\
    match sv_plugins s !! c with
    | Some p => next_jid p = u64 n /\ pending_jobs p ++ done_of c (outputs_of s) ≡ₚ job_numbers n
    | None => done_of c (outputs_of s) ≡ₚ job_numbers n
    end /\
    (n <= 2 ^ 64 -> NoDup (done_of c (outputs_of s))).
Proof.
  intros [L Hi]%reachable_inv. destruct (sv_plugins s !! c) as [p|] eqn:Hp.
  - destruct (in_plugins _ _ _ _ Hi c p Hp) as [_ _ (n & Hn & H1 & H2)]. exists n. split_and!; try done.
    intros Hle. apply job_numbers_nodup in Hle. rewrite <- H2 in Hle. by apply NoDup_app in Hle as (_ & _ & ?).
  - destruct (in_gone _ _ _ _ Hi c Hp) as [[_ H1]|(st & n & _ & _ & Hn & H1)].
    + exists 0. rewrite H1. split_and!; [done|done|intros _; apply NoDup_nil_2].
    + exists n. split_and!; try done. intros Hle. rewrite H1. by apply job_numbers_nodup.
Qed.

(** C14: No client is referred to twice, or after its memory was freed: the slots of the server and the
    list of clients that are being closed name distinct clients, all of them in memory, and a
    client is a plugin exactly when the server has the data of a plugin for it. A plugin in a slot
    has not been taken down: its jobs, its path and its name are there. *)
Theorem client_memory s :
  reachable s ->
  NoDup (slot_clients s ++ sv_closing s) /\
  (forall c, c ∈ slot_clients s ++ sv_closing s -> exists d, sv_heap s !! c = Some d /\ (cd_cleanup_cb d = true <-> is_Some (sv_plugins s !! c))) /\
  (forall c, is_Some (sv_plugins s !! c) -> is_Some (sv_heap s !! c)) /\
  (forall c p, c ∈ slot_clients s -> sv_plugins s !! c = Some p -> pd_state p <> PLUGIN_STATE_INVALID -> whole p).
Proof.
  intros [L Hi]%reachable_inv. pose proof (in_nodup _ _ _ _ Hi) as Hn. split_and!.
  - rewrite app_assoc in Hn. by apply NoDup_app in Hn as (? & _ & _).
  - intros c Hc. destruct (in_heap _ _ _ _ Hi c) as [d Hd]; [rewrite app_assoc; apply elem_of_app; by left|]. exists d. split; [done|]. by apply (in_flags _ _ _ _ Hi).
  - apply (in_memory _ _ _ _ Hi).
  - intros c p Hc Hp Hst. destruct (in_plugins _ _ _ _ Hi c p Hp) as [Hh _ _]. rewrite bool_decide_false in Hh.
    + unfold handles_ok in Hh. destruct (pd_state p); try done; by destruct Hh as [? _].
    + intros Hl. apply NoDup_app in Hn as (_ & Hn & _). apply (Hn c Hc). apply elem_of_app. by right.
Qed.

(** C15: A plugin that is taken down goes away: when its process is being closed, the callbacks of libuv
    for the process and for the timer succeed one after the other, and then its memory and that of
    its client are free. No job was left behind, and the last event was that it quit. *)
Theorem closing_plugin_is_freed s c p :
  reachable s -> sv_plugins s !! c = Some p -> pd_process p = ProcessClosing ->
  exists s1 s2, plugin_close_process c s = (Ok tt, s1) /\ plugin_close_timer c s1 = (Ok tt, s2) /\
    sv_heap s2 !! c = None /\ sv_plugins s2 !! c = None /\ outputs_of s2 = outputs_of s /\
    (exists n, 0 <= n /\ next_jid p = u64 n /\ done_of c (outputs_of s2) ≡ₚ job_numbers n) /\
    (exists l, events_of c (outputs_of s2) = l ++ [DICEY_PLUGIN_EVENT_QUIT]).
Proof.
  intros [L Hi]%reachable_inv Hp Ha. destruct (in_plugins _ _ _ _ Hi c p Hp) as [Hh He (n & Hn & H1 & H2)].
  destruct (closing_process _ p Hh Ha) as (_ & Hst & Hw & Hf & Ht). destruct (in_memory _ _ _ _ Hi c ltac:(eauto)) as [d Hd].
  eexists _, _. split_and!.
  - unfold plugin_close_process, plugin_upd, uv_close_timer, plugin_read, plugin_write, sbind, upd. rewrite Hp. cbn. rewrite lookup_insert_eq. cbn. rewrite Ht. reflexivity.
  - unfold plugin_close_timer, plugin_upd, plugin_read, plugin_write, ignore, attempt, sbind, upd. cbn. rewrite lookup_insert_eq. cbn. rewrite lookup_insert_eq. cbn. rewrite Hf. cbn.
    unfold finish_client_data_cleanup, client_read, sbind, upd. cbn. rewrite Hd. reflexivity.
  - cbn. by rewrite lookup_delete_eq.
  - cbn. by rewrite lookup_delete_eq.
  - done.
  - exists n. split_and!; try done. unfold pending_jobs in H2. by rewrite Hw in H2.
  - by eapply life_ends.
Qed.

End runs.

(** ** A run *)

(** Steps by name, and the server after a step that is possible and does not fault. *)
Inductive move : Type :=
  | Start
  | Read (c : nat) (packet : dicey_packet)
  | Written (i : nat)
  | Closed (i : nat)
  | Inbound
  | Call (call : plugin_call)
  | Exit (c : nat) (status signal : Z)
  | Timeout (c : nat)
  | ProcessIsClosed (c : nat)
  | TimerIsClosed (c : nat).

Definition after (r : res unit * dicey_server (T := map_ptr)) : option (dicey_server (T := map_ptr)) :=
  match r with (Ok _, s) => Some s | _ => None end.

Lemma after_ok r s : after r = Some s -> r = (Ok tt, s).
Proof. by destruct r as [[[]| | |] s']; cbn; intros; simplify_eq. Qed.

Definition do_move (m : move) (s : dicey_server (T := map_ptr)) : option (dicey_server (T := map_ptr)) :=
  match m with
  | Start => if bool_decide (sv_state s = SERVER_STATE_UNINIT) then Some (set_state SERVER_STATE_RUNNING s) else None
  | Read c packet =>
      match payload packet, alloc_buffer plugin_server_env c s with
      | Some bytes, (Ok n, s1) =>
          if bool_decide (c ∉ sv_closing s) && (zlen bytes <=? n) then after (on_read plugin_server_env c (ReadBytes bytes) s1) else None
      | _, _ => None
      end
  | Written i =>
      match sv_writes s !! i with
      | Some w => after (on_write w None (set_writes (delete i (sv_writes s)) s))
      | None => None
      end
  | Closed i =>
      match sv_closing s !! i with
      | Some c =>
          if forallb (fun w => negb (Nat.eqb (wr_stream w) c)) (sv_writes s)
          then after (on_client_end plugin_server_env c (set_closing (delete i (sv_closing s)) s)) else None
      | None => None
      end
  | Inbound => after (loop_request_inbound plugin_server_env s)
  | Call call => after (run_call sample_env good_plugin_env (fun _ => None) call s)
  | Exit c status signal =>
      match sv_plugins s !! c with
      | Some p => if bool_decide (pd_process p = ProcessActive) then after (plugin_exit_cb plugin_server_env c status signal s) else None
      | None => None
      end
  | Timeout c =>
      match sv_plugins s !! c with
      | Some p => match process_timer p with TimerArmed _ => after (timer_fires good_plugin_env c s) | _ => None end
      | None => None
      end
  | ProcessIsClosed c =>
      match sv_plugins s !! c with
      | Some p => if bool_decide (pd_process p = ProcessClosing) then after (plugin_close_process c s) else None
      | None => None
      end
  | TimerIsClosed c =>
      match sv_plugins s !! c with
      | Some p => if bool_decide (process_timer p = TimerClosing true) then after (plugin_close_timer c s) else None
      | None => None
      end
  end.

Fixpoint do_moves (l : list move) (s : dicey_server (T := map_ptr)) : option (dicey_server (T := map_ptr)) :=
  match l with [] => Some s | m :: l' => do_move m s ≫= do_moves l' end.

#[local] Abbreviation step := (plugin_step sample_env good_plugin_env (fun _ => None)).

Lemma do_move_step m s s' : do_move m s = Some s' -> step s s'.
Proof.
  destruct m; cbn [do_move]; intros Hm; repeat case_match; try done; repeat match goal with Hb : bool_decide _ = true |- _ => apply bool_decide_eq_true_1 in Hb end; simplify_eq.
  - apply step_server, step_start; [by left|done].
  - match goal with Hb : _ && _ = true |- _ => apply andb_prop in Hb as [?%bool_decide_eq_true_1 ?%Z.leb_le] end. apply step_server. eapply step_read; try done. by apply after_ok.
  - apply step_server. eapply step_written; [done|]. by apply after_ok.
  - apply step_server. eapply step_closed; [done| |by apply after_ok]. apply Forall_forall. intros w Hw.
    match goal with Hb : forallb _ _ = true |- _ => rewrite forallb_forall in Hb; specialize (Hb w ltac:(by apply list_elem_of_In)) end.
    by apply Nat.eqb_neq, negb_true_iff.
  - apply step_server, step_inbound. by apply after_ok.
  - eapply step_call; [by apply after_ok|done].
  - eapply step_exit; try done. by apply after_ok.
  - eapply step_timeout; try done. by apply after_ok.
  - eapply step_process_closed; try done. by apply after_ok.
  - eapply step_timer_closed; try done. by apply after_ok.
Qed.

Lemma do_moves_run l s s' : do_moves l s = Some s' -> rtc step s s'.
Proof.
  revert s. induction l as [|m l IH]; intros s; cbn [do_moves]; [intros [= ->]; apply rtc_refl|].
  destruct (do_move m s) as [s1|] eqn:Hm; [|done]. intros Hl. apply rtc_l with s1; [by apply do_move_step with m|by apply IH].
Qed.

(** The life of a plugin that does a job. *)
Definition life_moves : list move :=
  [Start; Call (call_spawn spawn_path); Inbound; Read 1 plugin_hello; Read 1 (introduces 2 plugin_name); Read 1 (is_ready 4);
   Call (call_send_work plugin_name (ArgI32 7) user_on_done 42); Call (call_send_work plugin_name (ArgI32 9) user_on_done 43); Inbound; Read 1 (answers 6 1 (ArgI32 8))].
Definition quit_moves : list move := life_moves ++ [Call (call_quit plugin_name); Inbound] ++ replicate 7 (Written 0) ++ [Exit 1 0 0; Closed 0].
Definition freed_moves : list move := quit_moves ++ [ProcessIsClosed 1; TimerIsClosed 1].

Definition life_state (l : list move) : dicey_server (T := map_ptr) := default (new_server builtin_registry) (do_moves l (new_server builtin_registry)).

Lemma life_reachable l : reachable sample_env good_plugin_env (fun _ => None) (life_state l).
Proof.
  exists builtin_registry. unfold life_state. destruct (do_moves l _) as [s|] eqn:Hl; [by eapply do_moves_run|apply rtc_refl].
Qed.

(** The plugin of the run, after it has quit. *)
Lemma quit_plugin : exists p, sv_plugins (life_state quit_moves) !! 1%nat = Some p /\ pd_state p = PLUGIN_STATE_COMPLETE /\ pd_process p = ProcessClosing /\ next_jid p = 2.
Proof. eexists. split; [vm_compute; reflexivity|]. split_and!; reflexivity. Qed.

Lemma plugin_events_in_order_witness :
  life_of (events_of 1 (outputs_of (life_state quit_moves))) PLUGIN_STATE_COMPLETE /\ length (events_of 1 (outputs_of (life_state quit_moves))) = 5%nat.
Proof.
  pose proof (plugin_events_in_order sample_env good_plugin_env (fun _ => None) (life_state quit_moves) 1 (life_reachable quit_moves)) as Hx.
  destruct quit_plugin as (p & Hp & Hst & _). rewrite Hp, Hst in Hx. split; [exact Hx|evaluate].
Defined.

Lemma plugin_jobs_end_once_witness : exists n, 0 <= n /\ done_of 1 (outputs_of (life_state freed_moves)) ≡ₚ job_numbers n /\ length (job_numbers n) = 2%nat.
Proof.
  destruct (plugin_jobs_end_once sample_env good_plugin_env (fun _ => None) (life_state freed_moves) 1 (life_reachable freed_moves)) as (n & Hn & Hj & _).
  assert (sv_plugins (life_state freed_moves) !! 1%nat = None) as Hp by evaluate. rewrite Hp in Hj. exists n. split_and!; [exact Hn|exact Hj|].
  rewrite <- Hj. evaluate.
Defined.

Lemma client_memory_witness :
  slot_clients (life_state life_moves) = [1%nat] /\
  (exists p, sv_plugins (life_state life_moves) !! 1%nat = Some p /\ whole p).
Proof.
  destruct (client_memory sample_env good_plugin_env (fun _ => None) (life_state life_moves) (life_reachable life_moves)) as (_ & _ & _ & Hw).
  assert (exists p, sv_plugins (life_state life_moves) !! 1%nat = Some p /\ pd_state p = PLUGIN_STATE_RUNNING) as (p & Hp & Hst).
  { eexists. split; [vm_compute; reflexivity|reflexivity]. }
  assert (slot_clients (life_state life_moves) = [1%nat]) as Hs by evaluate. split; [exact Hs|]. exists p. split; [exact Hp|].
  apply (Hw 1%nat p); [rewrite Hs; left|exact Hp|rewrite Hst; discriminate].
Defined.

Lemma closing_plugin_is_freed_witness : exists s1 s2,
  plugin_close_process 1 (life_state quit_moves) = (Ok tt, s1) /\ plugin_close_timer 1 s1 = (Ok tt, s2) /\ sv_heap s2 !! 1%nat = None /\
  exists n, next_jid <$> sv_plugins (life_state quit_moves) !! 1%nat = Some (u64 n) /\ done_of 1 (outputs_of s2) ≡ₚ job_numbers n.
Proof.
  destruct quit_plugin as (p & Hp & _ & Ha & _).
  destruct (closing_plugin_is_freed sample_env good_plugin_env (fun _ => None) (life_state quit_moves) 1 p (life_reachable quit_moves) Hp Ha)
    as (s1 & s2 & H1 & H2 & H3 & _ & _ & (n & _ & Hn & Hj) & _).
  exists s1, s2. split_and!; [exact H1|exact H2|exact H3|]. exists n. rewrite Hp. cbn. rewrite Hn. split; [reflexivity|exact Hj].
Defined.
