(* ===== verification/PluginsFindings.v ===== *)
(** * Where plugins depart from their intentions

    Runs of the server of PluginsScenario in which plugins.c, plugins-work.c or the handler of the
    builtin elements of plugins aborts, waits for ever, uses memory that is gone, or tells a caller
    something else than its documentation says. *)

From S2P Require Import Prelude Errors Types Views Writer ValueWrite ValueProbe Value Codec Payload Packet Typedescr ValueValidate.
From S2P Require Import Hashtable WaitingList PendingReqs Table Traits Registry RegistrySpec RegistryTheorems Clients Chunk Builders BuildersTheorems Names.
From S2P Require Import PluginData Server ServerScenario Introspection Builtins Plugins PluginsScenario.
From stdpp Require Import strings gmap list.

#[local] Open Scope list_scope.
#[local] Open Scope Z_scope.

#[local] Abbreviation E := plugin_server_env.

Definition result (l : list (sst (T := map_ptr) unit)) : res unit := (steps l plugin_base).1.

(** What other threads see of a run, without the events. *)
Definition outputs (l : list (sst (T := map_ptr) unit)) : list plugin_output :=
  omap (fun e => match e with EvPlugin (PvEvent _ _ _) => None | EvPlugin o => Some o | _ => None end) (sv_log (steps l plugin_base).2).

(** A write completes: the last one handed to libuv. *)
Definition last_written : sst (T := map_ptr) unit := fun s =>
  match rev (sv_writes s) with w :: l => on_write w None (set_writes (rev l) s) | [] => (Ok tt, s) end.

(** ** Lifetimes *)

(** A path that cannot be executed stops the server: the cleanup of a plugin that was never spawned
    is declared unreachable. *)
Lemma failed_spawn_aborts :
  let E := with_plugins sample_env no_such_file_env (fun _ => None) in
  result [dicey_server_spawn_plugin E spawn_path; loop_request_inbound E] = Fault AssertFailed.
Proof. intros E. evaluate. Qed.

(** So does a plugin that goes away after it has got its name and before it is ready. *)
Lemma crash_in_handshake_aborts : result (introduced ++ [on_read_end 1 None; pipe_closed 1]) = Fault AssertFailed.
Proof. evaluate. Qed.

(** The timer of the handshake is only stopped at its end, but expects that it has not begun. *)
Lemma slow_handshake_aborts : result (introduced ++ [timer_fires good_plugin_env 1]) = Fault AssertFailed.
Proof. evaluate. Qed.

(** A plugin whose name is refused is marked dead by the handler; the server then sets its state to
    running, and asserts that it is not dead. *)
Lemma refused_name_aborts :
  result (spawns ++ [client_got_packet E 1 plugin_hello; client_got_packet E 1 (introduces 2 (string_bytes "worker"%string))]) = Fault AssertFailed.
Proof. evaluate. Qed.

(** A plugin that was asked to quit and answers its last job is kicked, because it is no longer
    running; the cleanup of a plugin that quits is declared unreachable. *)
Lemma answer_while_quitting_aborts :
  result (working_on ++ [dicey_server_plugin_quit E plugin_name; inbound; client_got_packet E 1 (answers 6 0 ArgUnit); last_written; pipe_closed 1])
  = Fault AssertFailed.
Proof. evaluate. Qed.

(** The process of a plugin exits after the end of its pipe was seen, and a client has connected in
    between: the identifier is that of the new client, which is removed. *)
Lemma exit_removes_another_client :
  let before := (steps (ready ++ [on_read_end 1 None; on_connect E None]) plugin_base).2 in
  let after := (steps (exits 0) before).2 in
  dicey_client_list_get_client (sv_clients before) 0 = Some 5%nat /\ sv_closing before = [1%nat] /\
  dicey_client_list_get_client (sv_clients after) 0 = None /\ sv_closing after = [1%nat; 5%nat].
Proof. split_and!; evaluate. Qed.

(** When the pipe of a new plugin cannot be initialised its memory is freed twice. *)
Lemma failed_pipe_frees_twice {T : Type -> Type} `{Table T} (E : environment (T := T)) s c :
  e_malloc_ok E (sv_next s) = true -> (dicey_server_reserve_id (e_block_ok E) (sv_clients s)).1 = Ok c -> e_uv_pipe_err E (sv_next s) <> None ->
  (client_data_new_plugin E s).1 = Fault InvalidFree.
Proof.
  intros Hm Hr Hp. unfold client_data_new_plugin. cbn [sbind sget]. destruct (dicey_server_reserve_id _ _) as [r l]. cbn in Hr. subst r.
  cbn [sbind upd slift]. unfold malloc. cbn [sbind set_clients sv_next]. rewrite Hm. destruct (e_uv_pipe_err E (sv_next s)); [|done].
  unfold client_write, plugin_write, ignore, attempt, dicey_client_data_cleanup, finish_client_data_cleanup, client_read, upd. unfold sbind at 1 2 3 4 5 6.
  cbn [sv_heap set_clients set_plugins set_heap]. rewrite lookup_insert_eq. cbn [cd_cleanup_cb]. unfold sbind. cbn. by rewrite lookup_insert_eq.
Qed.

(** ** Jobs *)

(** A job for a plugin that does not exist: its callback is told, then [free] gets a pointer into
    the middle of a block. *)
Lemma unknown_plugin_frees_wrong :
  let l := ready ++ [dicey_server_plugin_send_work E [65] (ArgI32 7) user_on_done 42; inbound] in
  result l = Fault InvalidFree /\ outputs l = [PvWorkDone None 42 None DICEY_ENOENT None].
Proof. split; evaluate. Qed.

(** A job for any plugin, while a plugin has not said its name yet: NULL is compared with a string. *)
Lemma unnamed_plugin_compared :
  result (spawns ++ [dicey_server_plugin_send_work E plugin_name (ArgI32 7) user_on_done 42; inbound]) = Fault NullDeref.
Proof. evaluate. Qed.

(** A plugin stops the server with an answer when it is not ready, or when it never got a job. *)
Lemma early_answer_aborts :
  result (introduced ++ [client_got_packet E 1 (answers 4 0 ArgUnit)]) = Fault AssertFailed /\
  result (ready ++ [client_got_packet E 1 (answers 6 0 ArgUnit)]) = Fault AssertFailed.
Proof. split; evaluate. Qed.

(** A job that follows a request for a client in the queue is taken for one of that client and
    dropped: its callback is never called, and a thread that waits for it waits for ever. *)
Lemma job_after_response_lost :
  let l := ready ++ [submit_new E (loop_send_response sample_signal) (Some 0) None;
    dicey_server_plugin_send_work_and_wait E plugin_name (ArgI32 7) 42; inbound] in
  result l = Ok tt /\ outputs l = [] /\ sv_queue (steps l plugin_base).2 = [].
Proof. split_and!; evaluate. Qed.

(** A spawn in the same place fails an assertion. *)
Lemma spawn_after_response_aborts :
  result (ready ++ [submit_new E (loop_send_response sample_signal) (Some 0) None; dicey_server_spawn_plugin E spawn_path; inbound]) = Fault AssertFailed.
Proof. evaluate. Qed.

(** So does a request about plugins that is in the queue when the server stops. *)
Lemma stop_with_request_aborts : result [dicey_server_stop E; dicey_server_spawn_plugin E spawn_path; inbound] = Fault AssertFailed.
Proof. evaluate. Qed.

(** ** Other calls *)

(** Killing a plugin: the loop waits for a semaphore that only the loop posts. *)
Lemma kill_waits_for_itself : result (ready ++ [dicey_server_plugin_kill E plugin_name; inbound]) = OutOfFuel.
Proof. evaluate. Qed.

(** Asking a plugin that does not exist to quit: the thread that waits is woken and its result is
    not set, so that it reports success. *)
Lemma quit_unknown_reports_success :
  outputs (ready ++ [dicey_server_plugin_quit_and_wait E [65] 1 2 None; inbound]) = [PvPosted 1].
Proof. evaluate. Qed.

(** The exit status is written after the thread that waits for it was woken. *)
Lemma status_written_late :
  outputs (ready ++ [dicey_server_plugin_quit_and_wait E plugin_name 1 2 (Some 3%nat); inbound] ++ exits 5) =
  [PvResult 2 DICEY_OK; PvPosted 1; PvRetval 3 5].
Proof. evaluate. Qed.

Definition lists (seq : Z) : dicey_packet :=
  plugin_message DICEY_OP_EXEC seq DICEY_SERVER_PATH DICEY_PLUGINMANAGER_TRAIT_NAME DICEY_PLUGINMANAGER_LISTPLUGINS_OP_NAME ArgUnit.

Definition answer_to (l : list (sst (T := map_ptr) unit)) : option dicey_packet :=
  match rev (sv_log (steps l plugin_base).2) with EvSent _ p :: _ => Some p | _ => None end.

(** A client that lists the plugins is told that there are none; the list is made later, in
    variables of a function that has returned. *)
Lemma list_is_empty :
  answer_to (ready ++ [client_got_packet E 1 (lists 6)]) =
    Some (plugin_message DICEY_OP_RESPONSE 6 DICEY_SERVER_PATH DICEY_PLUGINMANAGER_TRAIT_NAME DICEY_PLUGINMANAGER_LISTPLUGINS_OP_NAME (ArgArray DICEY_TYPE_PAIR [])) /\
  result (ready ++ [client_got_packet E 1 (lists 6); inbound]) = Fault UseAfterFree.
Proof. split; evaluate. Qed.

(** Counting the plugins without a buffer, which is documented, when there are none. *)
Lemma count_none_aborts : result [on_connect E None; dicey_server_list_plugins E (Some 9%nat) None 0; inbound] = Fault NullDeref.
Proof. evaluate. Qed.

(** The property that is said to be the path of the executable is the path of the object, and not a
    string. *)
Lemma path_property_wrong :
  answer_to (ready ++ [client_got_packet E 1
    (match written_packet (fun _ => true) DICEY_OP_GET 6 (Some plugin_object) (mk_selector (Some DICEY_PLUGIN_TRAIT_NAME) (Some DICEY_PLUGIN_PATH_PROP_NAME)) None
     with Ok p => p | _ => DICEY_EMPTY_PACKET end)]) =
    Some (plugin_message DICEY_OP_RESPONSE 6 plugin_object DICEY_PLUGIN_TRAIT_NAME DICEY_PLUGIN_PATH_PROP_NAME (ArgPath (Some plugin_object))).
Proof. evaluate. Qed.

(** The signature of the command signal is not that of the commands. *)
Lemma command_signature_wrong :
  dicey_value_is_compatible_with 10
    (match dicey_packet_as_message (plugin_message DICEY_OP_SIGNAL 1 plugin_object DICEY_PLUGIN_TRAIT_NAME PLUGIN_COMMAND_SIGNAL_NAME PLUGIN_CMD_ARG) with
     | Ok m => msg_value m | _ => zero_value end) (string_bytes "(tcv)"%string) = Ok false.
Proof. evaluate. Qed.

(** The comment asks for at least two characters. *)
Lemma one_letter_is_a_name : dicey_string_is_valid_plugin_name (Some (string_bytes "W"%string)) = true.
Proof. evaluate. Qed.
