(* ===== verification/PluginClient.v ===== *)
(** * The side of the plugin (src/ipc/client/plugins.c)

    A plugin is a client that introduces itself with a name, gets its jobs as signals of the object
    the server has made for it, and answers each with a request. The state is the part of
    [struct dicey_plugin] after the client; the mutex only serialises its functions. The blocking
    calls of the client are seen from the thread that makes them: what they send, and what they
    return, which the model of the client decides. *)

From S2P Require Import Prelude Errors Types Views Writer ValueWrite ValueProbe Value Codec Payload Packet.
From S2P Require Import WaitingList Builders BuildersTheorems Names PluginData Plugins.
From stdpp Require Import strings gmap list.

#[local] Open Scope list_scope.
#[local] Open Scope Z_scope.

(** A job: the builders of its response are in [wc_heap]. *)
Record dicey_plugin_work_ctx : Type := mk_work_ctx {
  wc_jid : Z; wc_request : dicey_packet; wc_payload : dicey_value; wc_heap : bstate;
}.

Definition PAIR_BUILDER : nat := 0.
Definition RESPONSE_BUILDER : nat := 1.
Definition JID_BUILDER : nat := 2.

(** [dicey_plugin_quit_fn]: one of the user, or the default. *)
Inductive dicey_plugin_quit_fn : Type :=
  | user_on_quit
  | quit_immediately.

(** What the outside sees: packets the client is asked to send, callbacks of the user, errors for
    [inspect_func], and the end of the process. *)
Inductive plugin_client_output : Type :=
  | PcSent (packet : dicey_packet)
  | PcWork (ctx : nat) (payload : dicey_value)
  | PcSignal (packet : dicey_packet)
  | PcQuit
  | PcExit (status : Z)
  | PcError (code : Z).

(** [pl_contexts] is the memory of the jobs, [pl_answers] what the blocking requests will return, and
    [pl_freed] tells that the plugin itself was freed. *)
Record dicey_plugin : Type := mk_dicey_plugin {
  pl_quitting : bool; todo_list : array_ptr nat; pl_path : str_ptr;
  user_on_signal : bool; on_quit : option dicey_plugin_quit_fn; on_work_received : bool;
  pl_contexts : gmap nat dicey_plugin_work_ctx; pl_next : nat; pl_answers : list (dicey_error + dicey_packet);
  pl_log : list plugin_client_output; pl_freed : bool;
}.

(** The allocator, [strdup], and what libuv and the client answer. *)
Record plugin_client_env : Type := mk_client_env {
  q_malloc_ok : nat -> bool; q_block_ok : Z -> bool; q_builder_ok : nat -> bool; q_strdup_ok : cstr -> bool; q_inspects : bool;
  q_request_err : option dicey_error; q_disconnect_err : option dicey_error; q_fd_ok : bool;
  q_init_err : option dicey_error; q_mutex_err : option dicey_error; q_open_err : option dicey_error;
}.

Definition pl_set_quitting (b : bool) (p : dicey_plugin) : dicey_plugin :=
  mk_dicey_plugin b (todo_list p) (pl_path p) (user_on_signal p) (on_quit p) (on_work_received p) (pl_contexts p) (pl_next p) (pl_answers p) (pl_log p) (pl_freed p).
Definition pl_set_todo (l : array_ptr nat) (p : dicey_plugin) : dicey_plugin :=
  mk_dicey_plugin (pl_quitting p) l (pl_path p) (user_on_signal p) (on_quit p) (on_work_received p) (pl_contexts p) (pl_next p) (pl_answers p) (pl_log p) (pl_freed p).
Definition pl_set_path (s : str_ptr) (p : dicey_plugin) : dicey_plugin :=
  mk_dicey_plugin (pl_quitting p) (todo_list p) s (user_on_signal p) (on_quit p) (on_work_received p) (pl_contexts p) (pl_next p) (pl_answers p) (pl_log p) (pl_freed p).
Definition pl_set_contexts (m : gmap nat dicey_plugin_work_ctx) (p : dicey_plugin) : dicey_plugin :=
  mk_dicey_plugin (pl_quitting p) (todo_list p) (pl_path p) (user_on_signal p) (on_quit p) (on_work_received p) m (pl_next p) (pl_answers p) (pl_log p) (pl_freed p).
Definition pl_set_next (n : nat) (p : dicey_plugin) : dicey_plugin :=
  mk_dicey_plugin (pl_quitting p) (todo_list p) (pl_path p) (user_on_signal p) (on_quit p) (on_work_received p) (pl_contexts p) n (pl_answers p) (pl_log p) (pl_freed p).
Definition pl_set_answers (l : list (dicey_error + dicey_packet)) (p : dicey_plugin) : dicey_plugin :=
  mk_dicey_plugin (pl_quitting p) (todo_list p) (pl_path p) (user_on_signal p) (on_quit p) (on_work_received p) (pl_contexts p) (pl_next p) l (pl_log p) (pl_freed p).
Definition pl_set_log (l : list plugin_client_output) (p : dicey_plugin) : dicey_plugin :=
  mk_dicey_plugin (pl_quitting p) (todo_list p) (pl_path p) (user_on_signal p) (on_quit p) (on_work_received p) (pl_contexts p) (pl_next p) (pl_answers p) l (pl_freed p).
Definition pl_set_freed (p : dicey_plugin) : dicey_plugin :=
  mk_dicey_plugin (pl_quitting p) (todo_list p) (pl_path p) (user_on_signal p) (on_quit p) (on_work_received p) (pl_contexts p) (pl_next p) (pl_answers p) (pl_log p) true.

Definition WORK_CTX_PTR_SIZE : Z := 8.

(** *** Commands *)

Record command_request : Type := mk_command_request { cr_jid : Z; cr_command : Z; cr_value : dicey_value }.

Definition is_cmd_valid (cmd : Z) : bool := (cmd =? PLUGIN_COMMAND_DO_WORK) || (cmd =? PLUGIN_COMMAND_HALT).

(** The tuple of a command: value, number and command, and nothing more. *)
Definition read_command (value : dicey_value) : res command_request :=
  let! tuple := dicey_value_get_tuple value in
  ((do! payload_elem <- dicey_iterator_next ;
    do! tuple_elem <- dicey_iterator_next ;
    do! jid <- slift (dicey_value_get_u64 tuple_elem) ;
    do! tuple_elem <- dicey_iterator_next ;
    do! cmd <- slift (dicey_value_get_byte tuple_elem) ;
    if negb (is_cmd_valid cmd) then sfail DICEY_EBADMSG else
    do! iter <- sget ;
    if dicey_iterator_has_next iter then sfail DICEY_EBADMSG else
    sret (mk_command_request jid cmd payload_elem)) (dicey_list_iter tuple)).1.

(** [None] when the message is not a command. *)
Definition try_get_command (path : cstr) (packet : dicey_packet) : res (option command_request) :=
  let! _ := oassert (dicey_packet_is_valid packet) in
  let! msg := dicey_packet_as_message packet in
  let! other := strcmp_ptr (msg_path msg) (Some path) in
  if negb (other =? 0) then Ok None else
  let! other := dicey_selector_cmp (msg_selector msg) PLUGIN_COMMAND_SIGNAL_SEL in
  if negb (other =? 0) then Ok None else
  if negb (bool_decide (msg_type msg = DICEY_OP_SIGNAL)) then Ok None else
  let! creq := read_command (msg_value msg) in Ok (Some creq).

Section plugin.
Context (E : plugin_client_env).

Definition pst (A : Type) : Type := stm dicey_plugin dicey_error A.

Definition pl_upd (f : dicey_plugin -> dicey_plugin) : pst unit := fun p => (Ok tt, f p).
Definition pl_out (o : plugin_client_output) : pst unit := pl_upd (fun p => pl_set_log (pl_log p ++ [o]) p).

Definition pl_attempt {A} (m : pst A) : pst (dicey_error + A) := fun p =>
  match m p with
  | (Ok a, p') => (Ok (inr a), p')
  | (Err e, p') => (Ok (inl e), p')
  | (Fault f, p') => (Fault f, p')
  | (OutOfFuel, p') => (OutOfFuel, p')
  end.

Definition pl_malloc : pst (option nat) := fun p =>
  (Ok (if q_malloc_ok E (pl_next p) then Some (pl_next p) else None), pl_set_next (S (pl_next p)) p).

Definition ctx_read (c : nat) : pst dicey_plugin_work_ctx := fun p =>
  (match pl_contexts p !! c with Some x => Ok x | None => Fault UseAfterFree end, p).
Definition ctx_write (c : nat) (x : dicey_plugin_work_ctx) : pst unit := pl_upd (fun p => pl_set_contexts (<[c := x]> (pl_contexts p)) p).

(** A step of the builders of a job. *)
Definition on_builder {A} (c : nat) (m : bst A) : pst A :=
  do! x <- ctx_read c ;
  let '(r, heap) := m (wc_heap x) in
  ctx_write c (mk_work_ctx (wc_jid x) (wc_request x) (wc_payload x) heap) ;;! slift r.

Definition plugin_work_ctx_free (c : nat) : pst unit :=
  do! x <- ctx_read c ;
  do! _ <- slift (dicey_message_builder_discard (wc_heap x)).1 ;
  pl_upd (fun p => pl_set_contexts (delete c (pl_contexts p)) p).

(** [plugin_work_list_delete] with [clear_pending_job]. *)
Fixpoint clear_pending_jobs (l : list nat) : pst unit :=
  match l with [] => sret tt | c :: l' => plugin_work_ctx_free c ;;! clear_pending_jobs l' end.

Definition plugin_todo_list_delete : pst unit :=
  do! p <- sget ;
  do! jobs <- slift (array_elements (todo_list p)) ;
  clear_pending_jobs jobs ;;!
  do! l <- slift (array_delete (todo_list p)) ;
  pl_upd (pl_set_todo l).

(** The path is not NULL. *)
Definition path_read : pst cstr :=
  do! p <- sget ;
  do! path <- slift (str_read (pl_path p)) ;
  match path with None => sfault AssertFailed | Some path => sret path end.

(** [dicey_client_exec]: the request is sent, and the thread waits for its answer. *)
Definition client_exec (path : cstr) (sel : dicey_selector) (value : dicey_arg) : pst dicey_packet :=
  sassert (dicey_selector_is_valid sel) ;;!
  do! packet <- slift (dicey_packet_message (q_builder_ok E) (q_block_ok E) 0 DICEY_OP_EXEC path sel (Some value) empty_heap).1 ;
  pl_out (PcSent packet) ;;!
  do! p <- sget ;
  match pl_answers p with
  | [] => slift OutOfFuel
  | answer :: rest =>
      pl_upd (pl_set_answers rest) ;;!
      match answer with inl e => sfail e | inr response => sret response end
  end.

Definition report_plugin_error (code : Z) : pst unit := if negb (code =? 0) && q_inspects E then pl_out (PcError code) else sret tt.

(** The code of an error message, or of the error that reading it gives. *)
Definition errmsg_code (value : dicey_value) : res Z :=
  match dicey_value_get_error value with
  | Ok errmsg => Ok (err_code errmsg)
  | Err e => Ok (error_code e)
  | Fault f => Fault f
  | OutOfFuel => OutOfFuel
  end.

(** *** Jobs *)

Definition start_work (packet : dicey_packet) (task_id : Z) (value : dicey_value) : pst unit :=
  do! p <- sget ;
  sassert (dicey_packet_is_valid packet && on_work_received p) ;;!
  do! ctx <- pl_malloc ;
  match ctx with
  | None => sfail DICEY_ENOMEM
  | Some ctx =>
      ctx_write ctx (mk_work_ctx task_id packet value empty_heap) ;;!
      do! p <- sget ;
      if pl_quitting p then plugin_work_ctx_free ctx ;;! sfail DICEY_EINVAL else
      do! (stored_ctx, l) <- slift (array_append WORK_CTX_PTR_SIZE (q_block_ok E) (todo_list p) ctx) ;
      pl_upd (pl_set_todo l) ;;!
      match stored_ctx with
      | None => plugin_work_ctx_free ctx ;;! sfail DICEY_EINVAL
      | Some _ => pl_out (PcWork ctx value)
      end
  end.

Definition run_on_quit (f : option dicey_plugin_quit_fn) : pst unit :=
  match f with
  | None => sret tt
  | Some user_on_quit => pl_out PcQuit
  | Some quit_immediately => pl_out (PcExit 1)
  end.

Definition handle_command (packet : dicey_packet) (creq : command_request) : pst unit :=
  sassert (dicey_packet_is_valid packet) ;;!
  do! p <- sget ;
  if cr_command creq =? PLUGIN_COMMAND_DO_WORK then
    (if on_work_received p then start_work packet (cr_jid creq) (cr_value creq) else sret tt)
  else if cr_command creq =? PLUGIN_COMMAND_HALT then pl_upd (pl_set_quitting true) ;;! run_on_quit (on_quit p)
  else sfault AssertFailed.

(** The handler of signals: commands are intercepted, other signals go to the user. *)
Definition plugin_on_signal (packet : dicey_packet) : pst unit :=
  sassert (dicey_packet_is_valid packet) ;;!
  do! path <- path_read ;
  do! result <- pl_attempt (slift (try_get_command path packet)) ;
  match result with
  | inr None => do! p <- sget ; if user_on_signal p then pl_out (PcSignal packet) else sret tt
  | inr (Some creq) => do! _ <- pl_attempt (handle_command packet creq) ; sret tt
  | inl _ => sret tt
  end.

(** *** Responses *)

Definition response_start_steps (path : cstr) (jid : Z) : bst unit :=
  dicey_message_builder_init ;;!
  dicey_message_builder_begin DICEY_OP_EXEC ;;!
  dicey_message_builder_set_path path ;;!
  dicey_message_builder_set_selector COMMAND_REPLY_SEL ;;!
  dicey_message_builder_value_start (q_builder_ok E) PAIR_BUILDER ;;!
  dicey_value_builder_pair_start PAIR_BUILDER ;;!
  dicey_value_builder_next (q_builder_ok E) PAIR_BUILDER JID_BUILDER ;;!
  dicey_value_builder_set (q_builder_ok E) JID_BUILDER (ArgU64 jid) ;;!
  dicey_value_builder_next (q_builder_ok E) PAIR_BUILDER RESPONSE_BUILDER.

(** The caller gets the builder of the value of the response. *)
Definition dicey_plugin_work_response_start (ctx : nat) : pst unit :=
  do! x <- ctx_read ctx ;
  do! pending <- on_builder ctx dicey_message_builder_is_pending ;
  do! r <- pl_attempt (if pending : bool then sfail DICEY_EALREADY else do! path <- path_read ; on_builder ctx (response_start_steps path (wc_jid x))) ;
  match r with
  | inl err => on_builder ctx dicey_message_builder_discard ;;! sfail err
  | inr _ => sret tt
  end.

Definition finalise_work_response : bst dicey_packet :=
  dicey_value_builder_pair_end (q_builder_ok E) PAIR_BUILDER ;;!
  dicey_message_builder_value_end PAIR_BUILDER ;;!
  dicey_message_builder_build (q_block_ok E).

(** The first entry for the job. *)
Fixpoint find_ctx (ctx : nat) (l : list nat) (i : nat) : option nat :=
  match l with [] => None | c :: l' => if Nat.eqb c ctx then Some i else find_ctx ctx l' (S i) end.

Definition todo_list_remove (ctx : nat) : pst unit :=
  do! p <- sget ;
  do! jobs <- slift (array_elements (todo_list p)) ;
  match find_ctx ctx jobs 0 with
  | None => sret tt
  | Some i => do! (_, l) <- slift (array_erase (todo_list p) i) ; pl_upd (pl_set_todo l)
  end.

(** The job is gone, also when there is no response. *)
Definition dicey_plugin_work_response_done (ctx : nat) : pst unit :=
  do! r <- pl_attempt (on_builder ctx finalise_work_response) ;
  plugin_work_ctx_free ctx ;;!
  todo_list_remove ctx ;;!
  match r with
  | inl err => sfail err
  | inr output =>
      sassert (dicey_packet_is_valid output) ;;!
      match q_request_err E with Some e => sfail e | None => pl_out (PcSent output) end
  end.

(** The callback of a response: the answer of the server is a unit or an error. *)
Definition work_response_cb (err : option dicey_error) (resp : dicey_packet) : pst unit :=
  match err with
  | Some e => report_plugin_error (error_code e)
  | None =>
      do! srv_msg <- slift (match dicey_packet_as_message resp with Err _ => Fault AssertFailed | r => r end) ;
      if dicey_value_is_unit (msg_value srv_msg) then sret tt else
      if dicey_value_is (msg_value srv_msg) DICEY_TYPE_ERROR
      then do! code <- slift (errmsg_code (msg_value srv_msg)) ; report_plugin_error code
      else sfault AssertFailed
  end.

(** *** The life of a plugin *)

Definition extract_path (response : dicey_packet) : res cstr :=
  let! _ := oassert (dicey_packet_is_valid response) in
  let! msg := dicey_packet_as_message response in
  let! path := dicey_value_get_path (msg_value msg) in
  match path with
  | None => Fault NullDeref
  | Some path => if q_strdup_ok E path then Ok path else Err DICEY_ENOMEM
  end.

(** The path is only kept once the second request was answered, whatever the answer says. *)
Definition plugin_client_handshake (name : cstr) : pst unit :=
  do! p <- sget ;
  sassert (bool_decide (pl_path p = NullStr)) ;;!
  do! response <- client_exec DICEY_SERVER_PATH (mk_selector (Some DICEY_PLUGINMANAGER_TRAIT_NAME) (Some PLUGINMANAGER_HANDSHAKEINTERNAL_START_OP_NAME))
    (ArgStr (Some name)) ;
  do! dicey_path <- slift (extract_path response) ;
  do! _ <- client_exec dicey_path (mk_selector (Some DICEY_PLUGIN_TRAIT_NAME) (Some PLUGIN_READY_OP_NAME)) ArgUnit ;
  pl_upd (pl_set_path (AStr dicey_path)).

(** What the server says to a plugin that quits on its own: the code of an error, or 0. *)
Definition quitting_answer (response : dicey_packet) : res Z :=
  match dicey_packet_as_message response with
  | Ok msg => if dicey_value_is (msg_value msg) DICEY_TYPE_ERROR then errmsg_code (msg_value msg) else Ok 0
  | Err e => Ok (error_code e)
  | Fault f => Fault f
  | OutOfFuel => OutOfFuel
  end.

Definition dicey_plugin_finish : pst unit :=
  do! p <- sget ;
  let was_asked_to_quit := pl_quitting p in
  pl_upd (pl_set_quitting true) ;;!
  (if was_asked_to_quit then sret tt else
   do! path <- path_read ;
   do! r <- pl_attempt (client_exec path (mk_selector (Some DICEY_PLUGIN_TRAIT_NAME) (Some PLUGIN_QUITTING_OP_NAME)) ArgUnit) ;
   do! code <- match r with inl e => sret (error_code e) | inr response => slift (quitting_answer response) end ;
   report_plugin_error code) ;;!
  do! p <- sget ;
  do! freed <- slift (str_free (pl_path p)) ;
  pl_upd (pl_set_path freed) ;;!
  plugin_todo_list_delete ;;!
  pl_upd pl_set_freed ;;!
  match q_disconnect_err E with Some e => sfail e | None => sret tt end.

(** [calloc], and the arguments of the user. *)
Definition new_plugin (answers : list (dicey_error + dicey_packet)) (on_signal : bool) (on_quit : option dicey_plugin_quit_fn) (on_work : bool) : dicey_plugin :=
  mk_dicey_plugin false NoArray NullStr on_signal on_quit on_work ∅ 0 answers [] false.

(** The plugin, or an error. After an error of one of the last steps the plugin is finished. *)
Definition finish_with (err : dicey_error) : pst unit := do! _ <- pl_attempt dicey_plugin_finish ; sfail err.

Definition dicey_plugin_init (name : cstr) (user_on_quit_fn : bool) : pst unit :=
  if negb (q_fd_ok E) then sfail DICEY_EBADF else
  do! plugin <- pl_malloc ;
  match plugin, q_init_err E with
  | None, _ => sfail DICEY_ENOMEM
  | _, Some e => sfail e
  | _, None =>
      match q_mutex_err E with
      | Some e => finish_with e
      | None =>
          pl_upd (fun p => mk_dicey_plugin (pl_quitting p) (todo_list p) (pl_path p) (user_on_signal p)
            (Some (if user_on_quit_fn then user_on_quit else quit_immediately)) (on_work_received p) (pl_contexts p) (pl_next p) (pl_answers p) (pl_log p) (pl_freed p)) ;;!
          match q_open_err E with
          | Some e => finish_with e
          | None =>
              do! r <- pl_attempt (plugin_client_handshake name) ;
              match r with inl e => finish_with e | inr _ => sret tt end
          end
      end
  end.

End plugin.
