(* ===== verification/PluginClientTheorems.v ===== *)
(** * Both sides of a plugin

    What the server sends as a job is the job that the plugin receives, and what the plugin answers
    is what the server reads as the answer to that job: the packets the two sides build, and how the
    other side reads them. *)

From stdpp Require Import strings gmap list.
From S2P Require Import Prelude Errors Types Views Writer ValueWrite ValueProbe Value Codec Payload Packet.
From S2P Require Import WaitingList Builders BuildersTheorems Names PluginData Server ServerScenario Table Plugins PluginClient.

#[local] Open Scope list_scope.
#[local] Open Scope Z_scope.

(** ** Packets *)

Section build.
Context (alloc_ok : nat -> bool) (Hmem : forall n, alloc_ok n = true).

(** A list under construction in the root of a message. *)
Definition root_stage (h0 h : bstate) (kind : builder_state) (l : list dicey_arg) : Prop :=
  let p := bs_next h0 in
  bs_msg h = with_state (bs_msg h0) BUILDER_STATE_VALUE (Some p) (Some 0%nat) /\
  stage h 0 kind DICEY_TYPE_INVALID (p, 0%nat) l (<[p := [CZero DICEY_TYPE_INVALID]]> (bs_blocks h0)) (S p).

Lemma root_started h0 kind : kind = BUILDER_STATE_TUPLE \/ kind = BUILDER_STATE_PAIR ->
  mb_state (bs_msg h0) = BUILDER_STATE_PENDING -> mb_root (bs_msg h0) = None -> fresh h0 ->
  exists h, (dicey_message_builder_value_start alloc_ok 0 ;;! valbuilder_list_start 0 kind DICEY_TYPE_INVALID) h0 = (Ok tt, h) /\ root_stage h0 h kind [].
Proof.
  intros Hk Hst Hr Hf. assert (owned_root (bs_msg h0) None ∅) as Ho by (unfold owned_root; by rewrite Hr).
  pose proof (value_start_ok alloc_ok Hmem h0 0 None ∅ (bs_blocks h0) Ho Hst Hf ltac:(apply map_disjoint_empty_l) ltac:(by rewrite (left_id_L ∅ (∪)))) as E1.
  cbv zeta in E1. match type of E1 with _ = (_, ?x) => set (h1 := x) in E1 end.
  destruct (list_start_ok h1 0 (bs_next h0) 0 zero_vlist kind DICEY_TYPE_INVALID) as (h2 & E2 & Hs & Hm & _);
    [apply lookup_insert_eq|by apply fresh_alloc|by destruct Hk as [-> | ->]|].
  exists h2. srw E1. split; [exact E2|]. split; [exact Hm|]. by destruct Hk as [-> | ->].
Qed.

(** One more element, in two steps. *)
Lemma root_step h0 h kind l e m x : root_stage h0 h kind l -> kind_room kind (zlen l) -> kind <> BUILDER_STATE_ARRAY -> (0 < e)%nat -> builds_at m e x ->
  exists h1 h2, dicey_value_builder_next alloc_ok 0 e h = (Ok tt, h1) /\ m h1 = (Ok tt, h2) /\ root_stage h0 h2 kind (l ++ [x]).
Proof.
  intros [Hm Hs] Hk Ha He Hb. destruct (fill_ok alloc_ok Hmem h 0 e kind DICEY_TYPE_INVALID _ l _ _ x m Hs Hk He Hb) as (h2 & E & Hs2 & Hm2 & _); [done|].
  destruct (sbind_Ok_inv _ _ _ _ _ E) as ([] & h1 & E1 & E2). exists h1, h2. split; [exact E1|]. split; [exact E2|]. split; [by rewrite Hm2|exact Hs2].
Qed.

(** The end of the list and of the value. *)
Lemma root_ended h0 h kind l a m : root_stage h0 h kind l -> fresh h0 ->
  (forall s b i cells F lo, stage s 0 kind DICEY_TYPE_INVALID (b, i) l F lo -> F !! b = Some cells -> (i < length cells)%nat -> ends m s 0 b i cells F lo a) ->
  exists h1 h2, m h = (Ok tt, h1) /\ dicey_message_builder_value_end 0 h1 = (Ok tt, h2) /\ value_set h0 h2 a (bs_blocks h0).
Proof.
  intros [Hm Hs] Hf He. destruct (He h (bs_next h0) 0%nat [CZero DICEY_TYPE_INVALID] _ _ Hs) as (c & B & n & vals & E & Hrep & Hr & Hlo & _);
    [apply lookup_insert_eq|cbn; lia|].
  destruct (value_end_ok h0 _ 0 a c B n (bs_blocks h0) vals eq_refl) as (h2 & E2 & Hv); [exact Hf|done|done|done|].
  rewrite Hm in E. eexists _, h2. split_and!; [exact E|exact E2|exact Hv].
Qed.

Lemma tuple_ended s b i l cells F lo :
  stage s 0 BUILDER_STATE_TUPLE DICEY_TYPE_INVALID (b, i) l F lo -> F !! b = Some cells -> (i < length cells)%nat ->
  ends (dicey_value_builder_tuple_end 0) s 0 b i cells F lo (ArgTuple l).
Proof. intros Hs Hb Hi. eapply list_end_ok; [exact Hs|done|done|]. intros el cap B. apply list_blocks_tuple. Qed.

End build.

Lemma when_pending_ok f s : mb_state (bs_msg s) = BUILDER_STATE_PENDING ->
  when_pending f s = (Ok tt, mk_bstate (f (bs_msg s)) (bs_vals s) (bs_blocks s) (bs_next s)).
Proof. intros Hs. unfold when_pending. srun. rewrite Hs, bool_decide_true by done. reflexivity. Qed.

Lemma set_selector_ok sel s : dicey_selector_is_valid sel = true -> mb_state (bs_msg s) = BUILDER_STATE_PENDING ->
  dicey_message_builder_set_selector sel s =
    (Ok tt, mk_bstate (mk_mb (mb_state (bs_msg s)) (mb_type (bs_msg s)) (mb_seq (bs_msg s)) (mb_path (bs_msg s)) sel (mb_root (bs_msg s)) (mb_borrowed_to (bs_msg s)))
      (bs_vals s) (bs_blocks s) (bs_next s)).
Proof. intros Hv Hs. unfold dicey_message_builder_set_selector. rewrite Hv. srun. by apply when_pending_ok. Qed.

(** Setting the number of a packet that was written gives the packet written with that number. *)
Lemma set_seq_written kind seq0 seq path t e value n :
  n <> 0 -> let bytes q := message_bytes kind q path t e value in
  dicey_packet_set_seq (mk_packet (Some (bytes seq0)) n) seq = Ok (mk_packet (Some (bytes seq)) n).
Proof.
  intros Hn bytes. unfold dicey_packet_set_seq, dicey_packet_is_valid. cbn [payload nbytes]. rewrite bool_decide_true by eauto.
  destruct (Z.eqb_spec n 0); [done|]. cbn [negb andb oassert obind]. unfold dtf_payload_set_seq, bytes, message_bytes, head3.
  set (trailer := message_trailer path t e value). set (k4 := le_bytes 4 (kind_code kind)). set (x4 := le_bytes 4 (zlen trailer)).
  assert (forall z, exists a b c d, le_bytes 4 z = [a; b; c; d]) as H4 by (intros z; repeat eexists; reflexivity).
  destruct (H4 (kind_code kind)) as (k0 & k1 & k2 & k3 & Ek). destruct (H4 seq0) as (a0 & a1 & a2 & a3 & Ea).
  destruct (H4 seq) as (b0 & b1 & b2 & b3 & Eb). unfold k4. rewrite Ek, Ea, Eb. clearbody x4 trailer.
  unfold dicey_view_mut_write_ptr, dicey_view_mut_write, dicey_view_from. cbn [vm_data v_data vm_len v_len Z.ltb Z.compare].
  change (mem_read [b0; b1; b2; b3] 4) with (Ok [b0; b1; b2; b3] : res (list Z)). cbn [obind]. unfold mem_write.
  change (zlen [b0; b1; b2; b3]) with 4. cbn [app]. rewrite !zlen_cons. pose proof (zlen_nonneg (x4 ++ trailer)).
  destruct (Z.ltb_spec (1 + (1 + (1 + (1 + (1 + (1 + (1 + (1 + zlen (x4 ++ trailer))))))))) (4 + 4)); [lia|]. reflexivity.
Qed.

Section wire.
Context {T : Type -> Type} `{Table.Table T}.
Context (E : environment (T := T)) (Q : plugin_client_env).
Hypothesis HE : forall n, e_builder_ok E n = true.
Hypothesis HQ : forall n, q_builder_ok Q n = true.

(** The value of a command. *)
Definition command_arg (a : dicey_arg) (jid cmd : Z) : dicey_arg := ArgTuple [a; ArgU64 jid; ArgByte cmd].

(** A message that was begun. *)
Definition begun (op : dicey_op) (path : option cstr) (sel : dicey_selector) : bstate :=
  mk_bstate (mk_mb BUILDER_STATE_PENDING op 0 path sel None None) ∅ ∅ 0.

Lemma begun_fresh op path sel : fresh (begun op path sel).
Proof. intros k Hk. cbn in Hk. by apply lookup_empty_is_Some in Hk. Qed.

(** The packet of a job: the builder of the caller fills the first element. *)
Lemma command_packet path jid a m : builds_at m VALUE_BUILDER a ->
  exists h1 h2 h3 h4, work_request_start_steps E empty_heap = (Ok tt, h1) /\ m h1 = (Ok tt, h2) /\ complete_tuple E jid h2 = (Ok tt, h3) /\
    complete_message E path h3 = (written_packet (e_block_ok E) DICEY_OP_SIGNAL 0 (Some path) PLUGIN_CMD_SEL (Some (command_arg a jid PLUGIN_COMMAND_DO_WORK)), h4).
Proof.
  intros Ha. set (h0 := begun DICEY_OP_SIGNAL None (mk_selector None None)).
  destruct (root_started (e_builder_ok E) HE h0 BUILDER_STATE_TUPLE) as (s1 & E1 & S1); [by left|done|done|apply begun_fresh|].
  destruct (root_step (e_builder_ok E) HE h0 s1 _ [] 1 m a S1) as (s2 & s3 & E2 & E3 & S3); [done|done|lia|done|].
  destruct (root_step (e_builder_ok E) HE h0 s3 _ _ 2 (dicey_value_builder_set (e_builder_ok E) 2 (ArgU64 jid)) (ArgU64 jid) S3) as (s4 & s5 & E4 & E5 & S5);
    [done|done|lia|by apply set_builds_at|].
  destruct (root_step (e_builder_ok E) HE h0 s5 _ _ 2 (dicey_value_builder_set (e_builder_ok E) 2 (ArgByte PLUGIN_COMMAND_DO_WORK)) (ArgByte PLUGIN_COMMAND_DO_WORK) S5)
    as (s6 & s7 & E6 & E7 & S7); [done|done|lia|by apply set_builds_at|].
  destruct (root_ended h0 s7 _ _ (command_arg a jid PLUGIN_COMMAND_DO_WORK) (dicey_value_builder_tuple_end 0) S7 (begun_fresh _ _ _)) as (s8 & s9 & E8 & E9 & p & B & Hm & Ho & Hd & Hb & _).
  { intros. by apply tuple_ended. }
  destruct (sbind_Ok_inv _ _ _ _ _ E1) as ([] & s0 & E01 & E02).
  exists s2, s3, s9. eexists. split_and!; [|exact E3| |].
  - unfold work_request_start_steps. erewrite (sbind_Ok dicey_message_builder_init); [|reflexivity]. erewrite (sbind_Ok (dicey_message_builder_begin _) _ _ _ h0); [|reflexivity].
    srw E01. unfold dicey_value_builder_tuple_start. srw E02. exact E2.
  - unfold complete_tuple. change ARGUMENT_BUILDER with 2%nat. change TUPLE_BUILDER with 0%nat. srw E4. srw E5. srw E6. srw E7. srw E8. exact E9.
  - unfold complete_message, dicey_message_builder_set_path. srw (when_pending_ok _ s9 ltac:(by rewrite Hm)). set (t1 := mk_bstate _ _ _ _).
    erewrite (sbind_Ok (dicey_message_builder_set_selector PLUGIN_CMD_SEL) _ t1); [|apply set_selector_ok; [done|by unfold t1; cbn; rewrite Hm]].
    apply (complete_packet (e_block_ok E) _ DICEY_OP_SIGNAL path PLUGIN_CMD_SEL (command_arg a jid PLUGIN_COMMAND_DO_WORK) p B ∅); try done.
    unfold t1. cbn. by rewrite Hm.
Qed.

(** The packet of a response. *)
Lemma reply_packet path jid b m : builds_at m RESPONSE_BUILDER b ->
  exists h1 h2 h3, response_start_steps Q path jid empty_heap = (Ok tt, h1) /\ m h1 = (Ok tt, h2) /\
    let r := written_packet (q_block_ok Q) DICEY_OP_EXEC 0 (Some path) COMMAND_REPLY_SEL (Some (ArgPair (ArgU64 jid) b)) in
    finalise_work_response Q h2 = (r, h3) /\ (forall packet, r = Ok packet -> bs_msg h3 = zero_mb).
Proof.
  intros Hb0. set (h0 := begun DICEY_OP_EXEC (Some path) COMMAND_REPLY_SEL).
  destruct (root_started (q_builder_ok Q) HQ h0 BUILDER_STATE_PAIR) as (s1 & E1 & S1); [by right|done|done|apply begun_fresh|].
  destruct (root_step (q_builder_ok Q) HQ h0 s1 _ [] 2 (dicey_value_builder_set (q_builder_ok Q) 2 (ArgU64 jid)) (ArgU64 jid) S1) as (s2 & s3 & E2 & E3 & S3);
    [done|done|lia|by apply set_builds_at|].
  destruct (root_step (q_builder_ok Q) HQ h0 s3 _ _ 1 m b S3) as (s4 & s5 & E4 & E5 & S5); [done|done|lia|done|].
  destruct (root_ended h0 s5 _ _ (ArgPair (ArgU64 jid) b) (dicey_value_builder_pair_end (q_builder_ok Q) 0) S5 (begun_fresh _ _ _)) as (s6 & s7 & E6 & E7 & p & B & Hm & Ho & Hd & Hb & _).
  { intros s x i cells F lo Hs HF Hi. by apply (pair_end_ok (q_builder_ok Q) HQ s 0 DICEY_TYPE_INVALID x i (ArgU64 jid) b). }
  destruct (sbind_Ok_inv _ _ _ _ _ E1) as ([] & s0 & E01 & E02).
  exists s4, s5. eexists. split_and!; [|exact E5|cbv zeta; split].
  - unfold response_start_steps. erewrite (sbind_Ok dicey_message_builder_init); [|reflexivity]. erewrite (sbind_Ok (dicey_message_builder_begin _)); [|reflexivity].
    erewrite (sbind_Ok (dicey_message_builder_set_path _)); [|reflexivity]. erewrite (sbind_Ok (dicey_message_builder_set_selector _) _ _ _ h0); [|reflexivity].
    srw E01. unfold dicey_value_builder_pair_start. srw E02. srw E2. srw E3. exact E4.
  - unfold finalise_work_response. change PAIR_BUILDER with 0%nat. srw E6. srw E7.
    apply (complete_packet (q_block_ok Q) _ DICEY_OP_EXEC path COMMAND_REPLY_SEL (ArgPair (ArgU64 jid) b) p B ∅); try done.
  - intros packet Hr. by rewrite Hr.
Qed.

(** ** Reading them *)

(** The tuple of a command is read back. *)
Lemma read_command_ok v a jid cmd : denotes v (command_arg a jid cmd) -> is_cmd_valid cmd = true ->
  exists value, read_command v = Ok (mk_command_request jid cmd value) /\ denotes value a.
Proof.
  intros Hv Hc. inversion Hv as [| | | | | | | | | | | | | | | | |l view Hit|]; subst. unfold read_command. cbn.
  inversion Hit as [|it i1 v1 x l1 Hn1 E1 D1 Hit1]; subst. inversion Hit1 as [|it' i2 v2 x' l2 Hn2 E2 D2 Hit2]; subst.
  inversion Hit2 as [|it2 i3 v3 x3 l3 Hn3 E3 D3 Hit3]; subst. inversion Hit3 as [it4 Hn4|]; subst. inversion D2; subst. inversion D3; subst.
  srw E1. srw E2. change (dicey_value_get_u64 _) with (Ok jid : res Z). cbv iota beta. srw E3.
  change (dicey_value_get_byte _) with (Ok cmd : res Z). cbv iota beta. rewrite Hc. cbn. rewrite Hn4. cbn. by exists v1.
Qed.

(** The pair of a response is read back. *)
Lemma read_work_response_ok v b jid : denotes v (ArgPair (ArgU64 jid) b) -> exists value, read_work_response v = Ok (jid, value) /\ denotes value b.
Proof.
  intros Hv. inversion Hv as [| | | | | | | | | | | | | | | | | |x y view Hit]; subst. unfold read_work_response, dicey_value_get_pair. cbn.
  inversion Hit as [|it i1 v1 x l1 Hn1 E1 D1 Hit1]; subst. inversion Hit1 as [|it' i2 v2 x' l2 Hn2 E2 D2 Hit2]; subst. inversion D1; subst.
  unfold pair_item, dicey_list_iter, sbind, sret. cbn. rewrite E1. cbn. rewrite E2. cbn. by exists v2.
Qed.
(** The packet that the other side loads from the bytes of a packet is the same. *)
Definition loads_back (malloc_ok : Z -> bool) (packet : dicey_packet) : Prop :=
  exists bytes f0, payload packet = Some bytes /\ forall fuel, (f0 <= fuel)%nat -> dicey_packet_load malloc_ok fuel (vw bytes []) = (Ok packet, vw [] []).

(** A packet that was written and numbered: it is loaded back from its bytes, and has the message. *)
Lemma numbered_packet alloc_ok malloc_ok op seq path t e a :
  (forall n, alloc_ok n = true) -> (forall n, malloc_ok n = true) -> message_ok op path t e (Some a) -> loadable a ->
  exists p0 packet, written_packet alloc_ok op 0 (Some path) (mk_selector (Some t) (Some e)) (Some a) = Ok p0 /\ dicey_packet_is_valid p0 = true /\
    dicey_packet_set_seq p0 seq = Ok packet /\ loads_back malloc_ok packet /\
    exists v, dicey_packet_as_message packet = Ok (mk_message op (Some path) (mk_selector (Some t) (Some e)) v) /\ denotes v a.
Proof.
  intros Hal Hmal Hok Hl. pose proof Hok as (Hop & _ & _ & _ & Hpres & Ha & Hlen). destruct (dtf_of_op_message op Hop) as (Hm & _ & _).
  assert (forall q, dtf_message_write alloc_ok DICEY_NULL [] (dtf_of_op op) q (Some path) (mk_selector (Some t) (Some e)) (Some a) =
    let bs := written op q path t e (Some a) in Ok (mk_dtf_result (inr (zlen bs)) (zlen bs) (Some 0), Some bs)) as Hw.
  { intros q. apply message_write_alloc; [done|done|by apply arg_ok_writable|done]. }
  assert (zlen (written op 0 path t e (Some a)) = zlen (written op seq path t e (Some a))) as Hz by (unfold written; by rewrite !zlen_message).
  set (bs := written op seq path t e (Some a)) in *. destruct (written_as_message op seq path t e (Some a) Hok) as (v & Hv & Hd).
  exists (packet_of (written op 0 path t e (Some a))), (packet_of bs). split_and!.
  - unfold written_packet. rewrite Hw. reflexivity.
  - apply packet_of_valid, (written_payload op 0 path t e (Some a) Hok).
  - unfold packet_of. rewrite Hz. apply set_seq_written. destruct (written_payload op seq path t e (Some a) Hok) as [(_ & _ & H12 & _) _]. fold bs in H12.
    change MESSAGE_HEAD_SIZE with 12 in H12. lia.
  - destruct (written_validated op seq path t e (Some a) Hok Hl) as [f0 Hval]. destruct (written_payload op seq path t e (Some a) Hok) as [Hp _]. exists bs, f0. split; [done|]. intros fuel Hf.
    pose proof (packet_load_whole malloc_ok fuel bs [] []) as Hld. rewrite (right_id_L [] (++)) in Hld. rewrite Hld, Hval by (done || constructor). done.
  - by exists v.
Qed.

(** A command in a packet is found by the plugin it is for. *)
Lemma command_found path packet v a jid cmd :
  dicey_packet_as_message packet = Ok (mk_message DICEY_OP_SIGNAL (Some path) PLUGIN_COMMAND_SIGNAL_SEL v) -> denotes v (command_arg a jid cmd) -> is_cmd_valid cmd = true ->
  exists value, try_get_command path packet = Ok (Some (mk_command_request jid cmd value)) /\ denotes value a.
Proof.
  intros Hm Hv Hc. destruct (read_command_ok v a jid cmd Hv Hc) as (value & Hr & Hd). exists value. split; [|done]. unfold try_get_command.
  assert (dicey_packet_is_valid packet = true) as Hp.
  { unfold dicey_packet_as_message in Hm. destruct (dicey_packet_is_valid packet); [done|]. by cbn in Hm. }
  rewrite Hp. cbn [oassert obind]. rewrite Hm. cbn [obind msg_path msg_selector msg_type msg_value strcmp_ptr]. rewrite strcmp_refl. cbn [Z.eqb negb].
  change (dicey_selector_cmp PLUGIN_COMMAND_SIGNAL_SEL PLUGIN_COMMAND_SIGNAL_SEL) with (Ok 0 : res Z). cbn [obind Z.eqb negb]. rewrite bool_decide_true by done. cbn [negb].
  by rewrite Hr.
Qed.

(** ** A plugin at work *)

(** Ready for jobs. *)
Definition works (path : cstr) (p : dicey_plugin) : Prop :=
  pl_path p = AStr path /\ pl_quitting p = false /\ on_work_received p = true /\ array_ok (todo_list p) /\
  zlen (array_values (todo_list p)) < 2 ^ 62.

Lemma path_read_ok path p : pl_path p = AStr path -> path_read p = (Ok path, p).
Proof. intros Hp. unfold path_read, sbind, sget, slift. by rewrite Hp. Qed.

(** A job that arrives is in the list, has its memory, and is handed to the user. *)
Lemma job_received path p packet v a jid : works path p ->
  (forall n, q_malloc_ok Q n = true) -> (forall n, q_block_ok Q n = true) ->
  dicey_packet_as_message packet = Ok (mk_message DICEY_OP_SIGNAL (Some path) PLUGIN_COMMAND_SIGNAL_SEL v) -> denotes v (command_arg a jid PLUGIN_COMMAND_DO_WORK) ->
  exists value p', plugin_on_signal Q packet p = (Ok tt, p') /\ denotes value a /\
    pl_log p' = pl_log p ++ [PcWork (pl_next p) value] /\ pl_path p' = pl_path p /\ array_ok (todo_list p') /\
    array_values (todo_list p') = array_values (todo_list p) ++ [pl_next p] /\
    pl_contexts p' = <[pl_next p := mk_work_ctx jid packet value empty_heap]> (pl_contexts p).
Proof.
  intros (Hp & Hq & Hw & Hok & Hlen) HM HB Hm Hd. destruct (command_found path packet v a jid _ Hm Hd eq_refl) as (value & Hc & Hdv).
  assert (dicey_packet_is_valid packet = true) as Hv.
  { unfold dicey_packet_as_message in Hm. destruct (dicey_packet_is_valid packet); [done|]. by cbn in Hm. }
  destruct (append_ok WORK_CTX_PTR_SIZE (q_block_ok Q) (todo_list p) (pl_next p) Hok) as [(l & Ea & Hok' & Hl)|[[? _]|[[n Hn] _]]];
    [|lia|by rewrite HB in Hn].
  exists value. eexists. split_and!; [|exact Hdv|..].
  - unfold plugin_on_signal. rewrite Hv. erewrite sbind_Ok; [|reflexivity]. srw (path_read_ok path p Hp).
    rewrite Hc. erewrite sbind_Ok; [|reflexivity]. cbv iota beta. unfold pl_attempt, handle_command, start_work, pl_malloc, ctx_write, pl_upd, pl_out, sbind, sassert, slift, sget, sret. rewrite Hv, Hw. cbn. rewrite Hw. cbn. rewrite HM. cbn. rewrite Hq. cbn. rewrite Ea. reflexivity.
  - reflexivity.
  - reflexivity.
  - exact Hok'.
  - exact Hl.
  - reflexivity.
Qed.

Lemma on_builder_run {A} c x m (a : A) h p : pl_contexts p !! c = Some x -> m (wc_heap x) = (Ok a, h) ->
  on_builder c m p = (Ok a, pl_set_contexts (<[c := mk_work_ctx (wc_jid x) (wc_request x) (wc_payload x) h]> (pl_contexts p)) p).
Proof. intros Hx Hm. unfold on_builder, ctx_read, ctx_write, pl_upd, sbind, slift. rewrite Hx. cbn. by rewrite Hm. Qed.

Lemma find_ctx_first c l i k : find_ctx c l i = Some k <-> (i <= k)%nat /\ l !! (k - i)%nat = Some c /\ forall j, (j < k - i)%nat -> l !! j <> Some c.
Proof.
  revert i. induction l as [|x l IH]; intros i; cbn [find_ctx]; [split; [done|by intros (_ & ? & _)]|].
  destruct (Nat.eqb_spec x c) as [->|Hne].
  - split.
    + intros [= <-]. rewrite Nat.sub_diag. split_and!; [lia|done|]. intros j. lia.
    + intros (Hi & _ & Hj). destruct (decide (k = i)) as [->|]; [done|]. exfalso. apply (Hj 0%nat); [lia|done].
  - rewrite IH. split; intros (Hi & Hk & Hj).
    + assert (k - i = S (k - S i))%nat as Ek by lia. rewrite Ek. split_and!; [lia|done|]. intros [|j] Hlt; [cbn; congruence|]. apply Hj. lia.
    + destruct (k - i)%nat as [|d] eqn:Ed; [cbn in Hk; congruence|]. assert (k - S i = d)%nat as -> by lia.
      split_and!; [lia|done|]. intros j Hlt. apply (Hj (S j)). lia.
Qed.

Definition with_heap (x : dicey_plugin_work_ctx) (h : bstate) : dicey_plugin_work_ctx := mk_work_ctx (wc_jid x) (wc_request x) (wc_payload x) h.

Lemma response_started path p c x h : pl_path p = AStr path -> pl_contexts p !! c = Some x -> wc_heap x = empty_heap ->
  response_start_steps Q path (wc_jid x) empty_heap = (Ok tt, h) ->
  dicey_plugin_work_response_start Q c p = (Ok tt, pl_set_contexts (<[c := with_heap x h]> (pl_contexts p)) p).
Proof.
  intros Hp Hc Hx Hs. unfold dicey_plugin_work_response_start. erewrite (sbind_Ok (ctx_read c)); [|unfold ctx_read; by rewrite Hc].
  erewrite (sbind_Ok (on_builder c _) _ _ false); [|eapply on_builder_run; [exact Hc|by rewrite Hx]]. cbv iota.
  match goal with |- sbind _ _ ?st = _ => set (q := st) end. set (x1 := mk_work_ctx _ _ _ _) in q.
  erewrite (sbind_Ok (pl_attempt _) _ _ (inr tt)); [reflexivity|]. unfold pl_attempt. rewrite (sbind_Ok _ _ _ _ _ (path_read_ok path q Hp)).
  rewrite (on_builder_run c x1 _ tt h q (lookup_insert_eq _ _ _) Hs). unfold q. cbn [pl_contexts pl_set_contexts]. rewrite insert_insert_eq. reflexivity.
Qed.

Lemma response_ended p c x i packet h : array_ok (todo_list p) -> pl_contexts p !! c = Some x -> find_ctx c (array_values (todo_list p)) 0 = Some i ->
  finalise_work_response Q (wc_heap x) = (Ok packet, h) -> bs_msg h = zero_mb -> dicey_packet_is_valid packet = true -> q_request_err Q = None ->
  exists p', dicey_plugin_work_response_done Q c p = (Ok tt, p') /\ pl_log p' = pl_log p ++ [PcSent packet] /\ pl_contexts p' = delete c (pl_contexts p) /\
    array_ok (todo_list p') /\ array_values (todo_list p') = delete i (array_values (todo_list p)).
Proof.
  intros Hok Hc Hi Hf Hz Hv Hr. pose proof Hi as Hi'. apply find_ctx_first in Hi as (_ & Hi & _). rewrite Nat.sub_0_r in Hi.
  destruct (erase_ok (todo_list p) i c Hok Hi) as (l' & Ee & Hok' & _ & Hl'). eexists. split_and!.
  - unfold dicey_plugin_work_response_done. erewrite (sbind_Ok (pl_attempt _)); [|unfold pl_attempt; rewrite (on_builder_run c x _ packet h p Hc Hf); reflexivity].
    erewrite (sbind_Ok (plugin_work_ctx_free c)).
    2: { unfold plugin_work_ctx_free, ctx_read, sbind, slift. cbn [pl_contexts pl_set_contexts]. rewrite lookup_insert_eq. cbn -[dicey_message_builder_discard].
      unfold dicey_message_builder_discard, sbind, sget. rewrite Hz. reflexivity. }
    erewrite (sbind_Ok (todo_list_remove c)).
    2: { unfold todo_list_remove, sbind, sget, slift. cbn [todo_list pl_set_contexts]. rewrite array_elements_ok, Hi', Ee by done. reflexivity. }
    cbv iota. rewrite Hv. unfold sbind, sassert. rewrite Hr. reflexivity.
  - reflexivity.
  - cbn. by rewrite delete_insert_eq.
  - exact Hok'.
  - cbn. rewrite Hl'. by rewrite delete_take_drop.
Qed.

(** ** A job and its answer *)

(** A value that fits in a message of a plugin. *)
Definition fits (path element : cstr) (a : dicey_arg) : Prop :=
  arg_ok a /\ loadable a /\ header_len path DICEY_PLUGIN_TRAIT_NAME element + zlen (value_bytes (Some a)) <= UINT32_MAX.

Lemma fits_message_ok op path element a : (op = DICEY_OP_SIGNAL \/ op = DICEY_OP_EXEC) -> cstr_ok path -> cstr_ok element -> fits path element a ->
  message_ok op path DICEY_PLUGIN_TRAIT_NAME element (Some a).
Proof. intros Hop Hp He (Ha & _ & Hl). unfold message_ok. destruct Hop as [-> | ->]; split_and!; try done; repeat constructor; lia. Qed.

End wire.

(** C16: a job goes from the server to the plugin and its answer comes back. What the server builds
    for job [jid] is loaded by the plugin as the same packet, which has the plugin hand the value [a]
    to the user; the answer [b] that the user gives is sent in a packet that the server loads as the
    same packet, and reads as the answer [b] to job [jid]. In the end the plugin has neither the
    memory of the job nor an entry for it. The values of the job and of the answer are well formed,
    hold no byte string of length 0 (the other side would refuse the packet) and fit in a packet
    ([fits]); the plugin runs and its next context is not in use; memory is available and the request
    that carries the answer succeeds. *)
Theorem job_roundtrip {T : Type -> Type} `{Table.Table T} (E : environment (T := T)) (Q : plugin_client_env) path jid seq seq' a b p :
  (forall n, e_builder_ok E n = true) -> (forall n, e_block_ok E n = true) ->
  (forall n, q_builder_ok Q n = true) -> (forall n, q_block_ok Q n = true) -> (forall n, q_malloc_ok Q n = true) -> q_request_err Q = None ->
  cstr_ok path -> fits path PLUGIN_COMMAND_SIGNAL_NAME (command_arg a jid PLUGIN_COMMAND_DO_WORK) -> fits path PLUGIN_REPLY_OP_NAME (ArgPair (ArgU64 jid) b) ->
  works path p -> pl_next p ∉ array_values (todo_list p) -> pl_contexts p !! pl_next p = None ->
  exists packet heap sent value p1,
    (work_request_start_steps E ;;! dicey_value_builder_set (e_builder_ok E) VALUE_BUILDER a ;;! complete_tuple E jid ;;! complete_message E path) empty_heap = (Ok packet, heap) /\
    dicey_packet_set_seq packet seq = Ok sent /\ loads_back (q_block_ok Q) sent /\
    plugin_on_signal Q sent p = (Ok tt, p1) /\ pl_log p1 = pl_log p ++ [PcWork (pl_next p) value] /\ denotes value a /\
  exists answer reply p2 v answer_value,
    (dicey_plugin_work_response_start Q (pl_next p) ;;! on_builder (pl_next p) (dicey_value_builder_set (q_builder_ok Q) RESPONSE_BUILDER b) ;;!
     dicey_plugin_work_response_done Q (pl_next p)) p1 = (Ok tt, p2) /\ pl_log p2 = pl_log p1 ++ [PcSent answer] /\
    dicey_packet_set_seq answer seq' = Ok reply /\ loads_back (e_block_ok E) reply /\
    dicey_packet_as_message reply = Ok (mk_message DICEY_OP_EXEC (Some path) COMMAND_REPLY_SEL v) /\
    read_work_response v = Ok (jid, answer_value) /\ denotes answer_value b /\
    pl_contexts p2 = pl_contexts p /\ array_values (todo_list p2) = array_values (todo_list p).
Proof.
  intros HE HEb HQ HQb HQm Hreq Hpath Ha Hb Hw Hnew Hfree. set (c := pl_next p) in *.
  assert (cstr_ok PLUGIN_COMMAND_SIGNAL_NAME /\ cstr_ok PLUGIN_REPLY_OP_NAME) as [Hc1 Hc2] by (split; repeat constructor; lia).
  pose proof Ha as ((_ & Hta & _) & La & _). pose proof Hb as ((_ & Htb) & Lb & _).
  destruct (numbered_packet (e_block_ok E) (q_block_ok Q) DICEY_OP_SIGNAL seq path _ _ _ HEb HQb (fits_message_ok _ _ _ _ (or_introl eq_refl) Hpath Hc1 Ha) La)
    as (packet & sent & W1 & _ & Q1 & L1 & v1 & M1 & D1).
  destruct (numbered_packet (q_block_ok Q) (e_block_ok E) DICEY_OP_EXEC seq' path _ _ _ HQb HEb (fits_message_ok _ _ _ _ (or_intror eq_refl) Hpath Hc2 Hb) Lb)
    as (answer & reply & W2 & V2 & Q2 & L2 & v2 & M2 & D2).
  destruct (command_packet E HE path jid a _ (set_builds_at (e_builder_ok E) HE VALUE_BUILDER a (arg_ok_type _ Hta))) as (h1 & h2 & h3 & heap & B1 & B2 & B3 & B4).
  fold PLUGIN_CMD_SEL in W1. rewrite W1 in B4.
  destruct (job_received Q path p sent v1 a jid Hw HQm HQb M1 D1) as (value & p1 & R1 & Rd & Rl & Rp & Rok & Rv & Rc). fold c in Rl, Rv, Rc.
  exists packet, heap, sent, value, p1. split_and!; [|done..|].
  { srw B1. srw B2. srw B3. exact B4. }
  destruct (reply_packet Q HQ path jid b _ (set_builds_at (q_builder_ok Q) HQ RESPONSE_BUILDER b (arg_ok_type _ Htb))) as (g1 & g2 & g3 & A1 & A2 & A3 & Az).
  fold COMMAND_REPLY_SEL in W2. rewrite W2 in A3. specialize (Az _ W2). set (x := mk_work_ctx jid sent value empty_heap) in *.
  destruct Hw as (Hp & _). rewrite Hp in Rp.
  pose proof (response_started Q path p1 c x g1 Rp ltac:(by rewrite Rc, lookup_insert_eq) eq_refl A1) as S1.
  rewrite Rc, insert_insert_eq in S1. set (p1' := pl_set_contexts _ p1) in S1.
  pose proof (on_builder_run c (with_heap x g1) _ tt g2 p1' (lookup_insert_eq _ _ _) A2) as S2. set (p1'' := pl_set_contexts _ p1') in S2.
  destruct (response_ended Q p1'' c (with_heap x g2) (length (array_values (todo_list p))) answer g3) as (p2 & S3 & Sl & Sc & _ & Sv);
    [exact Rok|apply lookup_insert_eq| |exact A3|exact Az|exact V2|exact Hreq|].
  { apply find_ctx_first. change (todo_list p1'') with (todo_list p1). rewrite Rv, Nat.sub_0_r. split_and!; [lia|by apply list_lookup_middle|].
    intros j Hj. rewrite lookup_app_l by done. intros Hin. by apply Hnew, (list_elem_of_lookup_2 _ j). }
  destruct (read_work_response_ok v2 b jid D2) as (w & Rw & Dw).
  exists answer, reply, p2, v2, w. split_and!; try done.
  - srw S1. srw S2. exact S3.
  - rewrite Sc. unfold p1'', p1'. cbn [pl_contexts pl_set_contexts]. by rewrite !delete_insert_eq, delete_id.
  - rewrite Sv. change (todo_list p1'') with (todo_list p1). rewrite Rv. by rewrite delete_middle, (right_id_L [] (++)).
Qed.

(** A plugin that has just been made ready, on a machine that always answers. *)
Definition sample_client_env : plugin_client_env := mk_client_env (fun _ => true) (fun _ => true) (fun _ => true) (fun _ => true) true None None true None None None.
Definition sample_worker : dicey_plugin := mk_dicey_plugin false NoArray (AStr [47; 112]) true (Some quit_immediately) true ∅ 0 [] [] false.

Lemma job_roundtrip_witness :
  exists value p1 p2 answer, pl_log p1 = [PcWork 0%nat value] /\ denotes value (ArgU16 500) /\ pl_log p2 = pl_log p1 ++ [PcSent answer] /\ pl_contexts p2 = ∅.
Proof.
  destruct (job_roundtrip sample_env sample_client_env [47; 112] 7 5 9 (ArgU16 500) (ArgStr (Some [111; 107])) sample_worker)
    as (packet & heap & sent & value & p1 & _ & _ & _ & _ & Hl & Hd & answer & reply & p2 & v & w & _ & Hl2 & _ & _ & _ & _ & _ & Hc & _).
  - reflexivity.
  - reflexivity.
  - reflexivity.
  - reflexivity.
  - reflexivity.
  - reflexivity.
  - repeat constructor; lia.
  - split_and!; [cbn; unfold in_unsigned; split_and!; try (vm_compute; discriminate); try reflexivity; exact I|cbn; done|vm_compute; discriminate].
  - split_and!; [cbn; unfold in_unsigned, cstr_small; split_and!; try (vm_compute; discriminate); try reflexivity; repeat constructor; lia|cbn; done|vm_compute; discriminate].
  - split_and!; reflexivity.
  - apply not_elem_of_nil.
  - reflexivity.
  - exists value, p1, p2, answer. split_and!; [exact Hl|exact Hd|exact Hl2|exact Hc].
Defined.
