(* ===== verification/PluginClientInv.v ===== *)
(** * The jobs of a plugin process

    Whatever signals arrive and whatever the user does with the builders of its responses, a plugin
    has the memory of a job exactly while the job is in its list, and no job is handed to the user
    twice. The runs here are those in which no assertion fails. *)

From S2P Require Import Prelude Errors Moves Types Views Writer ValueWrite ValueProbe Value Codec Payload Packet.
From S2P Require Import WaitingList Builders BuildersTheorems Names PluginData Plugins PluginClient PluginClientTheorems.
From stdpp Require Import strings gmap list.

#[local] Open Scope list_scope.
#[local] Open Scope Z_scope.

(** The jobs that the user was handed. *)
Definition handed (log : list plugin_client_output) : list nat := omap (fun o => match o with PcWork c _ => Some c | _ => None end) log.

Arguments handed : simpl never.

Record jobs_inv (p : dicey_plugin) : Prop := mk_jobs_inv {
  ji_array : array_ok (todo_list p);
  ji_nodup : NoDup (array_values (todo_list p));
  ji_memory : dom (pl_contexts p) = list_to_set (array_values (todo_list p));
  ji_once : NoDup (handed (pl_log p));
  ji_handed : forall c, c ∈ array_values (todo_list p) -> c ∈ handed (pl_log p);
  ji_fresh : forall c, c ∈ handed (pl_log p) -> (c < pl_next p)%nat;
}.

(** The part of a plugin the invariant speaks of. *)
Definition same_jobs (p p' : dicey_plugin) : Prop :=
  todo_list p' = todo_list p /\ dom (pl_contexts p') = dom (pl_contexts p) /\ handed (pl_log p') = handed (pl_log p) /\ (pl_next p <= pl_next p')%nat.

#[export] Instance same_jobs_preorder : PreOrder same_jobs.
Proof. split; [done|]. intros p q r (E1 & E2 & E3 & E4) (F1 & F2 & F3 & F4). split_and!; [congruence..|lia]. Qed.

Lemma same_jobs_inv p p' : same_jobs p p' -> jobs_inv p -> jobs_inv p'.
Proof.
  intros (E1 & E2 & E3 & E4) [? ? ? ? ? Hf]. split; rewrite ?E1, ?E2, ?E3; try done. intros c Hc. specialize (Hf c Hc). lia.
Qed.

Lemma moves_attempt {A} R (m : pst A) : moves R m -> moves R (pl_attempt m).
Proof. intros Hm p r p'. unfold pl_attempt. destruct (m p) as [[a|e|f|] q] eqn:E; intros Hr Hret; simplify_eq; try done; by eapply Hm. Qed.

(** The steps, those of attempted calls included. *)
Ltac plugin_moves := moves; repeat (apply moves_attempt; moves).

Definition keeps (p p' : dicey_plugin) : Prop := jobs_inv p -> jobs_inv p'.

#[export] Instance keeps_preorder : PreOrder keeps.
Proof. split; [intros p Hp; exact Hp|]. intros p q r Hpq Hqr Hp. by apply Hqr, Hpq. Qed.

Lemma moves_same {A} (m : pst A) : moves same_jobs m -> moves keeps m.
Proof. intros Hm p r p' E Hr Hp. eapply same_jobs_inv; [by eapply Hm|done]. Qed.

(** ** Steps that do not touch the jobs *)

Lemma pl_upd_same f : (forall p, same_jobs p (f p)) -> moves same_jobs (pl_upd f).
Proof. by intros Hf p r p' [= <- <-] _. Qed.

Lemma pl_out_same o : (forall c v, o <> PcWork c v) -> moves same_jobs (pl_out o).
Proof.
  intros Ho. apply pl_upd_same. intros p. split_and!; try done. cbn. unfold handed. rewrite omap_app. cbn.
  destruct o; try (by rewrite (right_id_L [] (++))). by destruct (Ho ctx payload).
Qed.

Lemma path_read_same : moves same_jobs path_read.
Proof. unfold path_read. plugin_moves. Qed.

Lemma on_builder_same {A} c (m : bst A) : moves same_jobs (on_builder c m).
Proof.
  intros p r p'. unfold on_builder, ctx_read, ctx_write, pl_upd, sbind, slift. destruct (pl_contexts p !! c) as [x|] eqn:Hc; [|by intros [= <- <-]].
  destruct (m (wc_heap x)) as [r0 h]. intros [= <- <-] _. split_and!; try done. cbn. by rewrite dom_insert_lookup_L by eauto.
Qed.

#[export] Hint Resolve path_read_same on_builder_same : moves.

(** ** Steps that do *)

(** Freeing the memory of a job. *)
Lemma ctx_free_run c p r p' : plugin_work_ctx_free c p = (r, p') -> returned r -> r = Ok tt /\ p' = pl_set_contexts (delete c (pl_contexts p)) p.
Proof.
  unfold plugin_work_ctx_free, ctx_read, sbind, slift. destruct (pl_contexts p !! c) as [x|]; [|by intros [= <- <-]].
  pose proof (discard_no_error (wc_heap x)) as Hd. destruct (dicey_message_builder_discard (wc_heap x)).1; intros [= <- <-] Hr; try done. by destruct (Hd e).
Qed.

(** The list without a job. *)
Lemma todo_list_remove_run c p r p' : array_ok (todo_list p) -> NoDup (array_values (todo_list p)) -> todo_list_remove c p = (r, p') ->
  r = Ok tt /\ exists l, p' = pl_set_todo l p /\ array_ok l /\ NoDup (array_values l) /\ forall x, x ∈ array_values l <-> x ∈ array_values (todo_list p) /\ x <> c.
Proof.
  intros Hok Hnd. unfold todo_list_remove, sbind, sget, slift. rewrite array_elements_ok by done. destruct (find_ctx c _ 0) as [i|] eqn:Hf.
  - apply find_ctx_first in Hf as (_ & Hi & _). rewrite Nat.sub_0_r in Hi. destruct (erase_ok _ i c Hok Hi) as (l & -> & Hl & _ & Ev). intros [= <- <-].
    split; [done|]. exists l. pose proof (take_drop_middle _ _ _ Hi) as Em. revert Em Ev. generalize (take i (array_values (todo_list p))) as l1, (drop (S i) (array_values (todo_list p))) as l2.
    intros l1 l2 Em Ev. rewrite <- Em in Hnd. apply NoDup_app in Hnd as (N1 & N2 & N3). apply NoDup_cons in N3 as [N3 N4].
    rewrite Ev, <- Em. split_and!; [done|done|apply NoDup_app; split_and!; [done| |done]; intros x Hx Hd; apply (N2 x Hx); by right|].
    intros x. rewrite !elem_of_app, elem_of_cons. split; [|by intros [[?|[?|?]] ?]; auto].
    intros [Hx|Hx]; split; auto; intros ->; [apply (N2 c Hx); left|by apply N3].
  - intros [= <- <-]. split; [done|]. exists (todo_list p). split_and!; [by destruct p|done|done|]. intros x. split; [|by intros []].
    intros Hx. split; [done|]. intros ->. apply list_elem_of_lookup_1 in Hx as [k Hk].
    enough (is_Some (find_ctx c (array_values (todo_list p)) 0)) as [? ?] by congruence. clear -Hk. revert k Hk. generalize 0%nat as i.
    induction (array_values (todo_list p)) as [|y l IH]; intros i [|k] Hk; cbn in *; simplify_eq.
    + by rewrite Nat.eqb_refl.
    + destruct (Nat.eqb y c); eauto.
Qed.

Section process.
Context (Q : plugin_client_env) (HQ : forall n, q_block_ok Q n = true).

(** A job that was not taken leaves no trace. *)
Lemma dropped_inv p c x : jobs_inv p -> (c = pl_next p) -> jobs_inv (pl_set_contexts (delete c (<[c := x]> (pl_contexts p))) (pl_set_next (S c) p)).
Proof.
  intros [Ja Jn Jm Jo Jh Jf] ->. assert (pl_next p ∉ array_values (todo_list p)) as Hn by (intros Hin; specialize (Jf _ (Jh _ Hin)); lia).
  split; cbn; try done; [|intros c Hc; specialize (Jf c Hc); lia]. rewrite dom_delete_L, dom_insert_L, Jm. set_solver.
Qed.

(** A job that was taken. *)
Lemma taken_inv p l v x : jobs_inv p -> array_ok l -> array_values l = array_values (todo_list p) ++ [pl_next p] ->
  jobs_inv (pl_set_log (pl_log p ++ [PcWork (pl_next p) v]) (pl_set_todo l (pl_set_contexts (<[pl_next p := x]> (pl_contexts p)) (pl_set_next (S (pl_next p)) p)))).
Proof.
  intros [Ja Jn Jm Jo Jh Jf] Hl Ev. assert (pl_next p ∉ handed (pl_log p)) as Hn by (intros Hin; specialize (Jf _ Hin); lia).
  assert (handed (pl_log p ++ [PcWork (pl_next p) v]) = handed (pl_log p) ++ [pl_next p]) as Eh by (unfold handed; by rewrite omap_app).
  split; cbn; rewrite ?Eh, ?Ev; try done.
  - apply NoDup_app. split_and!; [done| |apply NoDup_singleton]. intros c Hc ->%list_elem_of_singleton. by apply Hn, Jh.
  - rewrite dom_insert_L, Jm, list_to_set_app_L. cbn. set_solver.
  - apply NoDup_app. split_and!; [done| |apply NoDup_singleton]. by intros c Hc ->%list_elem_of_singleton.
  - intros c. rewrite !elem_of_app. intros [Hc|Hc]; auto.
  - intros c. rewrite elem_of_app, list_elem_of_singleton. intros [Hc| ->]; [specialize (Jf c Hc)|]; lia.
Qed.

Lemma ctx_free_new c x p : pl_contexts p !! c = Some x -> wc_heap x = empty_heap ->
  plugin_work_ctx_free c p = (Ok tt, pl_set_contexts (delete c (pl_contexts p)) p).
Proof. intros Hc Hx. unfold plugin_work_ctx_free, ctx_read, sbind, slift. rewrite Hc, Hx. reflexivity. Qed.

Lemma start_work_keeps packet jid v : moves keeps (start_work Q packet jid v).
Proof.
  intros p r p'. unfold start_work, pl_out. erewrite (sbind_Ok sget); [|reflexivity]. destruct (_ && _); [|by intros [= <- <-]]. erewrite (sbind_Ok (sassert true)); [|reflexivity].
  erewrite (sbind_Ok (pl_malloc Q)); [|reflexivity]. destruct (q_malloc_ok Q (pl_next p)); [|intros [= <- <-] _ Hp; apply (same_jobs_inv p); [|done]; split_and!; cbn; (done || lia)].
  erewrite (sbind_Ok (ctx_write _ _)); [|reflexivity]. erewrite (sbind_Ok sget); [|reflexivity].
  set (p1 := pl_set_contexts _ _). destruct (pl_quitting p1).
  - rewrite (sbind_Ok _ _ _ _ _ (ctx_free_new (pl_next p) _ p1 (lookup_insert_eq _ _ _) eq_refl)). intros [= <- <-] _ Hp. by apply dropped_inv.
  - intros E _ Hp. destruct (append_ok WORK_CTX_PTR_SIZE (q_block_ok Q) (todo_list p1) (pl_next p) (ji_array _ Hp)) as [(l & Ea & Hl & Ev)|[[_ Ea]|[[n Hn] _]]];
      [| |by rewrite HQ in Hn]; rewrite Ea in E; rewrite (sbind_Ok (slift _) _ p1 _ _ eq_refl) in E; cbv iota beta in E; rewrite (sbind_Ok (pl_upd _) _ p1 _ _ eq_refl) in E; cbv iota beta in E.
    + injection E as <- <-. exact (taken_inv p l v _ Hp Hl Ev).
    + rewrite (sbind_Ok _ _ _ _ _ (ctx_free_new (pl_next p) _ (pl_set_todo (todo_list p1) p1) (lookup_insert_eq _ _ _) eq_refl)) in E. injection E as <- <-.
      exact (dropped_inv p (pl_next p) _ Hp eq_refl).
Qed.

Lemma response_done_keeps c : moves keeps (dicey_plugin_work_response_done Q c).
Proof.
  unfold dicey_plugin_work_response_done. apply moves_bind; [exact _|apply moves_attempt, moves_same, on_builder_same|]. intros r0.
  intros p r p' E Hr Hp. unfold sbind at 1 in E. destruct (plugin_work_ctx_free c p) as [r1 p1] eqn:E1.
  assert (returned r1) as Hr1 by (destruct r1; [done|done|by injection E as <- <-..]).
  destruct (ctx_free_run c p r1 p1 E1 Hr1) as [-> ->].
  set (p2 := pl_set_contexts _ p) in E. unfold sbind at 1 in E. destruct (todo_list_remove c p2) as [r2 p3] eqn:E2.
  destruct (todo_list_remove_run c p2 r2 p3 (ji_array _ Hp) (ji_nodup _ Hp) E2) as (-> & l & -> & Hl & Hn & Hin).
  assert (jobs_inv (pl_set_todo l p2)) as Hp2.
  { destruct Hp as [Ja Jn Jm Jo Jh Jf]. split; cbn; try done; [|intros x Hx; by apply Jh, Hin].
    rewrite dom_delete_L, Jm. apply set_eq. intros x. rewrite elem_of_difference, !elem_of_list_to_set, Hin, elem_of_singleton. done. }
  revert E Hr Hp2. apply (moves_same (A := unit)). plugin_moves. by apply pl_out_same.
Qed.

Lemma on_quit_same f : moves same_jobs (run_on_quit f).
Proof. unfold run_on_quit. destruct f as [[]|]; [by apply pl_out_same..|apply moves_ret; exact _]. Qed.

Lemma report_same code : moves same_jobs (report_plugin_error Q code).
Proof. unfold report_plugin_error. case_match; [by apply pl_out_same|apply moves_ret; exact _]. Qed.

Lemma client_exec_same path sel a : moves same_jobs (client_exec Q path sel a).
Proof. unfold client_exec. plugin_moves; [by apply pl_out_same|by apply pl_upd_same]. Qed.

#[local] Hint Resolve on_quit_same report_same client_exec_same start_work_keeps moves_same : moves.

Lemma signal_keeps packet : moves keeps (plugin_on_signal Q packet).
Proof.
  unfold plugin_on_signal, handle_command. plugin_moves; apply moves_same; (by apply pl_upd_same) || by apply pl_out_same.
Qed.

Lemma response_start_keeps c : moves keeps (dicey_plugin_work_response_start Q c).
Proof.
  apply moves_same. unfold dicey_plugin_work_response_start. apply moves_bind; [exact _|by intros p r p' [= _ <-]|]. intros x. plugin_moves.
Qed.

Lemma response_cb_keeps err resp : moves keeps (work_response_cb Q err resp).
Proof. apply moves_same. unfold work_response_cb. plugin_moves. Qed.

(** ** Runs *)

(** What happens to a plugin: a signal arrives, the user starts a response, builds it, ends it, and the server answers it. *)
Inductive process_step : dicey_plugin -> dicey_plugin -> Prop :=
  | signal_step packet p r p' : plugin_on_signal Q packet p = (r, p') -> returned r -> process_step p p'
  | start_step c p r p' : dicey_plugin_work_response_start Q c p = (r, p') -> returned r -> process_step p p'
  | build_step A c (m : bst A) p r p' : on_builder c m p = (r, p') -> returned r -> process_step p p'
  | done_step c p r p' : dicey_plugin_work_response_done Q c p = (r, p') -> returned r -> process_step p p'
  | answer_step err resp p r p' : work_response_cb Q err resp p = (r, p') -> returned r -> process_step p p'.

Lemma process_step_inv p p' : process_step p p' -> jobs_inv p -> jobs_inv p'.
Proof.
  destruct 1 as [? p r p' E Hr|? p r p' E Hr|? ? ? p r p' E Hr|? p r p' E Hr|? ? p r p' E Hr]; revert p r p' E Hr.
  - apply signal_keeps.
  - apply response_start_keeps.
  - apply moves_same, on_builder_same.
  - apply response_done_keeps.
  - apply response_cb_keeps.
Qed.

(** The runs of a plugin, from the moment [dicey_plugin_init] has succeeded. *)
Inductive process (name : cstr) (user_quits : bool) (start : dicey_plugin) : dicey_plugin -> Prop :=
  | process_init p : dicey_plugin_init Q name user_quits start = (Ok tt, p) -> process name user_quits start p
  | process_next p p' : process name user_quits start p -> process_step p p' -> process name user_quits start p'.

Lemma handshake_same name : moves same_jobs (plugin_client_handshake Q name).
Proof. unfold plugin_client_handshake. plugin_moves. by apply pl_upd_same. Qed.

Lemma init_same name user_quits start p : dicey_plugin_init Q name user_quits start = (Ok tt, p) -> same_jobs start p.
Proof.
  assert (forall e q, (finish_with Q e q).1 <> Ok tt) as Hfail.
  { intros e q. unfold finish_with, sbind. by destruct (pl_attempt _ q) as [[] ?]. }
  unfold dicey_plugin_init. destruct (negb _); [done|]. erewrite (sbind_Ok (pl_malloc Q)); [|reflexivity].
  destruct (q_malloc_ok Q (pl_next start)), (q_init_err Q); try done. destruct (q_mutex_err Q) as [e|]; [intros E; by destruct (Hfail e _ (f_equal fst E))|].
  erewrite (sbind_Ok (pl_upd _)); [|reflexivity]. set (p0 := mk_dicey_plugin _ _ _ _ _ _ _ _ _ _ _).
  assert (same_jobs start p0) as H0 by (split_and!; cbn; done || lia). destruct (q_open_err Q) as [e|]; [intros E; by destruct (Hfail e _ (f_equal fst E))|].
  unfold sbind. destruct (pl_attempt (plugin_client_handshake Q name) p0) as [[[e|[]]|e|f|] p1] eqn:Eh; try done; [intros E; by destruct (Hfail e _ (f_equal fst E))|].
  intros [= <-]. etrans; [exact H0|]. exact (moves_attempt same_jobs _ (handshake_same name) _ _ _ Eh I).
Qed.

Lemma new_plugin_inv answers on_signal on_quit on_work : jobs_inv (new_plugin answers on_signal on_quit on_work).
Proof. split; cbn; try done; try apply NoDup_nil_2; intros c Hc; by apply not_elem_of_nil in Hc. Qed.

Lemma clear_pending_run l p r p' : clear_pending_jobs l p = (r, p') -> returned r ->
  r = Ok tt /\ exists m, p' = pl_set_contexts m p /\ dom m = dom (pl_contexts p) ∖ list_to_set l.
Proof.
  revert p. induction l as [|c l IH]; intros p; cbn [clear_pending_jobs]; [intros [= <- <-] _; split; [done|]; exists (pl_contexts p); split; [by destruct p|set_solver]|].
  unfold sbind. destruct (plugin_work_ctx_free c p) as [r1 p1] eqn:E1. intros E Hr.
  assert (returned r1) as Hr1 by (destruct r1; [done|done|by injection E as <- <-..]). destruct (ctx_free_run c p r1 p1 E1 Hr1) as [-> ->].
  destruct (IH _ E Hr) as (-> & m & -> & Hm). split; [done|]. exists m. split; [done|]. rewrite Hm. cbn. rewrite dom_delete_L. set_solver.
Qed.

(** After [dicey_plugin_finish] nothing of the jobs is left. *)
Definition goodbye (was_asked_to_quit : bool) : pst unit :=
  if was_asked_to_quit then sret tt else
  do! path <- path_read ;
  do! r <- pl_attempt (client_exec Q path (mk_selector (Some DICEY_PLUGIN_TRAIT_NAME) (Some PLUGIN_QUITTING_OP_NAME)) ArgUnit) ;
  do! code <- match r with inl e => sret (error_code e) | inr response => slift (quitting_answer response) end ;
  report_plugin_error Q code.

Lemma goodbye_same b : moves same_jobs (goodbye b).
Proof. unfold goodbye. plugin_moves. Qed.

Lemma quitting_answer_no_error response : no_error (slift (quitting_answer response) : pst Z).
Proof. intros s e. unfold quitting_answer, errmsg_code. cbn. repeat case_match; done. Qed.

Lemma attempt_no_error {A} (m : pst A) : no_error (pl_attempt m).
Proof. intros s e. unfold pl_attempt. by destruct (m s) as [[] ?]. Qed.

Lemma path_read_no_error : no_error path_read.
Proof. intros s e. unfold path_read, sbind, sget, slift. by destruct (pl_path s). Qed.

#[local] Hint Resolve quitting_answer_no_error attempt_no_error path_read_no_error : no_error.

Lemma goodbye_no_error b : no_error (goodbye b).
Proof. unfold goodbye, report_plugin_error. no_error. Qed.

Lemma finish_frees p r p' : jobs_inv p -> dicey_plugin_finish Q p = (r, p') -> returned r -> pl_contexts p' = ∅ /\ pl_freed p' = true.
Proof.
  intros Hp. unfold dicey_plugin_finish. erewrite (sbind_Ok sget); [|reflexivity]. erewrite (sbind_Ok (pl_upd _)); [|reflexivity].
  set (p0 := pl_set_quitting true p). unfold sbind at 1. change ((if pl_quitting p then _ else _) p0) with (goodbye (pl_quitting p) p0).
  pose proof (goodbye_no_error (pl_quitting p) p0) as Hno.
  destruct (goodbye (pl_quitting p) p0) as [[[]|e|f|] p1] eqn:Eg; [|by destruct (Hno e)|by intros [= <- <-]..].
  assert (jobs_inv p1) as [Ja _ Jm _ _ _] by exact (moves_same _ (goodbye_same _) _ _ _ Eg I (same_jobs_inv p p0 ltac:(done) Hp)).
  erewrite (sbind_Ok sget); [|reflexivity]. destruct (str_free (pl_path p1)) as [freed|e|f|] eqn:Ef; [|by destruct (pl_path p1)|by intros [= <- <-]..].
  erewrite (sbind_Ok (slift _)); [|reflexivity]. erewrite (sbind_Ok (pl_upd _)); [|reflexivity]. set (p2 := pl_set_path freed p1).
  unfold sbind at 1. unfold plugin_todo_list_delete. erewrite (sbind_Ok sget); [|reflexivity]. rewrite array_elements_ok by exact Ja.
  erewrite (sbind_Ok (slift _)); [|reflexivity]. unfold sbind at 1. destruct (clear_pending_jobs (array_values (todo_list p2)) p2) as [r3 p3] eqn:Ec. intros E Hr.
  assert (returned r3) as Hr3 by (destruct r3; [done|done|by injection E as <- <-..]). destruct (clear_pending_run _ p2 r3 p3 Ec Hr3) as (-> & m & -> & Hm).
  assert (m = ∅) as ->.
  { apply dom_empty_iff_L. rewrite Hm. unfold p2. cbn. rewrite Jm. set_solver. }
  change (todo_list p2) with (todo_list p1) in E. destruct (array_delete (todo_list p1)) as [l|e|f|] eqn:Ed; [|by destruct (todo_list p1)..].
  cbn in E. destruct (q_disconnect_err Q); by injection E as <- <-.
Qed.

End process.

(** C17: in every run of a plugin process, whatever the server sends and whatever the user does with
    its builders, the plugin has the memory of a job exactly while the job is in its list, no job
    is in the list twice, only jobs that were handed to the user are in it, and none is handed
    twice. When [dicey_plugin_finish] returns, the memory of every job has been freed. *)
Theorem plugin_process_jobs Q name user_quits answers on_signal on_quit on_work p :
  (forall n, q_block_ok Q n = true) -> process Q name user_quits (new_plugin answers on_signal on_quit on_work) p ->
  NoDup (array_values (todo_list p)) /\ dom (pl_contexts p) = list_to_set (array_values (todo_list p)) /\
  NoDup (handed (pl_log p)) /\ array_values (todo_list p) ⊆ handed (pl_log p) /\
  forall r p', dicey_plugin_finish Q p = (r, p') -> returned r -> pl_contexts p' = ∅ /\ pl_freed p' = true.
Proof.
  intros HQ Hrun. assert (jobs_inv p) as Hp.
  { induction Hrun as [p E|p p' _ IH E]; [|by eapply process_step_inv]. eapply same_jobs_inv; [by eapply init_same|apply new_plugin_inv]. }
  split_and!; [apply ji_nodup|apply ji_memory|apply ji_once|exact (ji_handed p Hp)|]; try done. intros r p'. by apply finish_frees.
Qed.

(** *** A run: the handshake, and a job. *)

Definition told (op : dicey_op) (path trait elem : cstr) (value : dicey_arg) : dicey_packet :=
  match written_packet (fun _ => true) op 0 (Some path) (mk_selector (Some trait) (Some elem)) (Some value) with Ok p => p | _ => DICEY_EMPTY_PACKET end.

Definition worker_path : cstr := [47; 112].

(** What the server answers to the two requests of the handshake. *)
Definition handshake_answers : list (dicey_error + dicey_packet) :=
  [inr (told DICEY_OP_RESPONSE DICEY_SERVER_PATH DICEY_PLUGINMANAGER_TRAIT_NAME PLUGINMANAGER_HANDSHAKEINTERNAL_START_OP_NAME (ArgPath (Some worker_path)));
   inr (told DICEY_OP_RESPONSE worker_path DICEY_PLUGIN_TRAIT_NAME PLUGIN_READY_OP_NAME ArgUnit)].

Definition job_signal (jid : Z) (a : dicey_arg) : dicey_packet :=
  told DICEY_OP_SIGNAL worker_path DICEY_PLUGIN_TRAIT_NAME PLUGIN_COMMAND_SIGNAL_NAME (command_arg a jid PLUGIN_COMMAND_DO_WORK).

Definition fresh_worker : dicey_plugin := new_plugin handshake_answers true None true.
Definition ready_worker : dicey_plugin := (dicey_plugin_init sample_client_env worker_path true fresh_worker).2.
Definition busy_worker : dicey_plugin := (plugin_on_signal sample_client_env (job_signal 3 (ArgU16 500)) ready_worker).2.

Lemma plugin_process_jobs_witness :
  array_values (todo_list busy_worker) = [1%nat] /\ dom (pl_contexts busy_worker) = {[1%nat]} /\
  forall r p', dicey_plugin_finish sample_client_env busy_worker = (r, p') -> returned r -> pl_contexts p' = ∅ /\ pl_freed p' = true.
Proof.
  destruct (plugin_process_jobs sample_client_env worker_path true handshake_answers true None true busy_worker) as (_ & Hd & _ & _ & Hf).
  - reflexivity.
  - eapply process_next; [apply process_init|eapply (signal_step _ (job_signal 3 (ArgU16 500)) ready_worker (Ok tt)); [|exact I]]; vm_compute; reflexivity.
  - assert (array_values (todo_list busy_worker) = [1%nat]) as E by (vm_compute; reflexivity). rewrite E in Hd. split_and!; [exact E| |exact Hf].
    rewrite Hd. vm_compute. reflexivity.
Defined.
