(* ===== verification/PluginClientFindings.v ===== *)
(** * What the model of a plugin process shows

    Runs of src/ipc/client/plugins.c that end in an assertion, lose a response, or are not what the
    header says. *)

From S2P Require Import Prelude Errors Types Views Writer ValueWrite ValueProbe Value Codec Payload Packet.
From S2P Require Import WaitingList Builders BuildersTheorems Names PluginData Plugins PluginClient PluginClientTheorems PluginClientInv.
From stdpp Require Import strings gmap list.

#[local] Open Scope list_scope.
#[local] Open Scope Z_scope.

(** [dicey_plugin_finish] asserts on a plugin without a path. *)
Lemma finish_without_path_aborts Q p : pl_path p = NullStr -> pl_quitting p = false -> (dicey_plugin_finish Q p).1 = Fault AssertFailed.
Proof.
  intros Hp Hq. unfold dicey_plugin_finish. erewrite (sbind_Ok sget); [|reflexivity]. erewrite (sbind_Ok (pl_upd _)); [|reflexivity].
  rewrite Hq. unfold path_read, sbind, sget, slift. cbn [pl_path pl_set_quitting]. by rewrite Hp.
Qed.

(** When the connection cannot be opened, [dicey_plugin_init] calls [dicey_plugin_finish] on a plugin that has no path yet, and asserts instead of
    returning the error. *)
Lemma failed_open_aborts Q name user_quits answers on_signal on_quit on_work e :
  q_fd_ok Q = true -> q_malloc_ok Q 0 = true -> q_init_err Q = None -> q_mutex_err Q = None -> q_open_err Q = Some e ->
  (dicey_plugin_init Q name user_quits (new_plugin answers on_signal on_quit on_work)).1 = Fault AssertFailed.
Proof.
  intros Hfd Hm Hi Hx Ho. unfold dicey_plugin_init. rewrite Hfd. cbn [negb]. erewrite (sbind_Ok (pl_malloc Q)); [|reflexivity].
  cbn [pl_next new_plugin]. rewrite Hm, Hi, Hx. erewrite (sbind_Ok (pl_upd _)); [|reflexivity]. rewrite Ho. unfold finish_with, sbind, pl_attempt.
  match goal with |- context [dicey_plugin_finish Q ?p] => pose proof (finish_without_path_aborts Q p eq_refl eq_refl) as Hf; destruct (dicey_plugin_finish Q p) as [r q] end.
  cbn in Hf. by subst r.
Qed.

(** The same when the server answers the handshake with an error, for instance because the name is taken. *)
Definition refused_answers : list (dicey_error + dicey_packet) :=
  [inr (told DICEY_OP_RESPONSE DICEY_SERVER_PATH DICEY_PLUGINMANAGER_TRAIT_NAME PLUGINMANAGER_HANDSHAKEINTERNAL_START_OP_NAME
     (ArgError (mk_errmsg (error_code DICEY_EEXIST) (Some []))))].

Lemma refused_plugin_aborts : (dicey_plugin_init sample_client_env worker_path true (new_plugin refused_answers true None true)).1 = Fault AssertFailed.
Proof. vm_compute. reflexivity. Qed.

(** A signal that arrives before the thread of [dicey_plugin_init] has stored the path is compared with a NULL path. The server may send the first
    job as soon as it has answered Ready. *)
Lemma early_signal_aborts Q packet p : dicey_packet_is_valid packet = true -> pl_path p = NullStr -> (plugin_on_signal Q packet p).1 = Fault AssertFailed.
Proof. intros Hv Hp. unfold plugin_on_signal, path_read, sbind, sget, slift. rewrite Hv. cbn. by rewrite Hp. Qed.

(** An error in the answer to Ready is not looked at: the plugin believes that it is ready. *)
Definition not_ready_answers : list (dicey_error + dicey_packet) :=
  [inr (told DICEY_OP_RESPONSE DICEY_SERVER_PATH DICEY_PLUGINMANAGER_TRAIT_NAME PLUGINMANAGER_HANDSHAKEINTERNAL_START_OP_NAME (ArgPath (Some worker_path)));
   inr (told DICEY_OP_RESPONSE worker_path DICEY_PLUGIN_TRAIT_NAME PLUGIN_READY_OP_NAME (ArgError (mk_errmsg (error_code DICEY_EINVAL) (Some []))))].

Lemma ready_error_ignored :
  exists p, dicey_plugin_init sample_client_env worker_path true (new_plugin not_ready_answers true None true) = (Ok tt, p) /\ pl_path p = AStr worker_path.
Proof. eexists. split; vm_compute; reflexivity. Qed.

(** A second [dicey_plugin_work_response_start] says that a response was started, and throws that response away: the response the user was building
    cannot be sent any more. *)
Lemma second_start_loses_response :
  let p := (dicey_plugin_work_response_start sample_client_env 1 busy_worker).2 in
  let again := dicey_plugin_work_response_start sample_client_env 1 p in
  let filled m := on_builder 1 (dicey_value_builder_set (fun _ => true) RESPONSE_BUILDER (ArgU16 1)) m in
  (dicey_plugin_work_response_start sample_client_env 1 busy_worker).1 = Ok tt /\
  (dicey_plugin_work_response_done sample_client_env 1 (filled p).2).1 = Ok tt /\
  again.1 = Err DICEY_EALREADY /\ (dicey_plugin_work_response_done sample_client_env 1 again.2).1 <> Ok tt.
Proof. cbv zeta. split_and!; vm_compute; (reflexivity || discriminate). Qed.

(** A process that was not started by a server gets EBADF; the header says EINVAL. *)
Lemma not_a_plugin_is_ebadf Q name user_quits p : q_fd_ok Q = false -> dicey_plugin_init Q name user_quits p = (Err DICEY_EBADF, p).
Proof. intros Hf. unfold dicey_plugin_init. by rewrite Hf. Qed.
