(* ===== verification/Client.v ===== *)
(** * The client (src/ipc/client/client.c, src/ipc/tasks/io.c)

    A client runs its protocol as tasks of a task loop: connecting and the handshake, requests, the
    disconnection. The world of the loop is [dicey_client]: the state machine, the pipe, the waiting
    list, the sequence numbers, the contexts of the tasks, the operations handed to libuv, and a log
    of what the user of the library sees. The functions of this file are the steps and callbacks of
    the tasks, and the callbacks of libuv, which advance tasks. The calls of the user are in
    ClientApi. *)

From S2P Require Import Prelude Errors Types Views Writer ValueWrite ValueProbe Value Codec Payload Packet.
From S2P Require Import Queue TaskList TaskLoop WaitingList Chunk.
From stdpp Require Import gmap list.

#[local] Open Scope Z_scope.

Inductive dicey_client_state : Type :=
  | CLIENT_STATE_UNINIT
  | CLIENT_STATE_INIT
  | CLIENT_STATE_CONNECT_START
  | CLIENT_STATE_RUNNING
  | CLIENT_STATE_DEAD
  | CLIENT_STATE_CLOSING
  | CLIENT_STATE_CLOSED.

#[export] Instance dicey_client_state_eq_dec : EqDecision dicey_client_state.
Proof. solve_decision. Defined.

(** The numeric value of each enumerator. *)
Definition state_rank (st : dicey_client_state) : Z :=
  match st with
  | CLIENT_STATE_UNINIT => 0
  | CLIENT_STATE_INIT => 1
  | CLIENT_STATE_CONNECT_START => 2
  | CLIENT_STATE_RUNNING => 3
  | CLIENT_STATE_DEAD => 4
  | CLIENT_STATE_CLOSING => 5
  | CLIENT_STATE_CLOSED => 6
  end.

(** An event with the arguments it is raised with. Messages of errors are left out, and the
    inspector is not told the reason of a bye. *)
Inductive dicey_client_event : Type :=
  | DICEY_CLIENT_EVENT_CONNECT
  | DICEY_CLIENT_EVENT_ERROR (err : dicey_error)
  | DICEY_CLIENT_EVENT_HANDSHAKE_START (version : dicey_version)
  | DICEY_CLIENT_EVENT_INIT
  | DICEY_CLIENT_EVENT_MESSAGE_RECEIVING (packet : dicey_packet)
  | DICEY_CLIENT_EVENT_MESSAGE_SENDING (packet : dicey_packet)
  | DICEY_CLIENT_EVENT_SERVER_BYE (reason : dicey_bye_reason)
  | DICEY_CLIENT_EVENT_QUITTING
  | DICEY_CLIENT_EVENT_QUIT.

(** ** Callbacks

    A callback of the user, with the data it is given, is a number. *)

Inductive client_subunsub : Type :=
  | CLIENT_SUBSCRIBE
  | CLIENT_UNSUBSCRIBE.

(** [union client_subunsub_cb]: which member was written. *)
Inductive client_subunsub_cb : Type :=
  | sub_cb (user : nat)
  | unsub_cb (user : nat).

Record subunsub_async_ctx : Type := mk_subunsub { su_op : client_subunsub; su_cb : client_subunsub_cb }.

Inductive connect_cb : Type :=
  | user_on_connect (user : nat)
  | unlock_when_done (sem : nat).

Inductive disconnect_cb : Type :=
  | user_on_disconnect (user : nat)
  | unlock_after_disconnect (sem : nat).

Inductive reply_cb : Type :=
  | user_on_reply (user : nat)
  | is_alias_cb (user : nat)
  | subunsub_cb (ctx : subunsub_async_ctx)
  | unlock_after_request (sem : nat).

(** What the outside sees: events given to the inspector, packets handed to the socket, signals,
    and the calls of the user's callbacks. A status is the value of an [enum dicey_error]. *)
Inductive client_log : Type :=
  | LogEvent (ev : dicey_client_event)
  | LogSent (packet : dicey_packet)
  | LogSignal (packet : dicey_packet)
  | LogConnect (cb : connect_cb) (status : Z)
  | LogDisconnect (cb : disconnect_cb) (status : Z)
  | LogReply (user : nat) (status : Z) (packet : dicey_packet)
  | LogIsAlias (user : nat) (status : Z) (is_alias : bool)
  | LogSubscribed (user : nat) (status : Z) (real_path : option cstr)
  | LogUnsubscribed (user : nat) (status : Z)
  | LogPosted (sem : nat) (status : Z) (response : dicey_packet).

(** ** State *)

Inductive client_setup_info : Type :=
  | CLIENT_CONNECT_ADDR (addr : cstr)
  | CLIENT_OPEN_FD (fd : Z).

(** The contexts of the three kinds of tasks. *)
Inductive client_ctx : Type :=
  | connect_context (info : client_setup_info) (hello : dicey_packet) (cb : option connect_cb)
  | disconnect_context (bye : dicey_packet) (cb : option disconnect_cb)
  | request_context (request response : dicey_packet) (cb : option reply_cb).

(** The pointer a task has to its context. *)
Inductive ctx_ptr : Type :=
  | connect_ptr (ctx : nat)
  | disconnect_ptr (ctx : nat)
  | request_ptr (ctx : nat).

Inductive task_lock_policy : Type :=
  | TASK_UNLOCK_AFTER_OP
  | TASK_LOCK_INDEFINITELY.

(** An operation libuv has not finished: the task it belongs to, and for a write whose bytes the socket
    has not taken yet, the context that owns them. The cookie of a close is in the handle. *)
Inductive io_op : Type :=
  | connect_op (task : Z)
  | write_op (task : Z) (lock_policy : task_lock_policy) (buf : option nat)
  | close_op.

(** [uv_pipe_t]: whether it was initialised, whether it was given to [uv_close], and the task in
    its [data]. *)
Record uv_pipe : Type := mk_pipe { p_init : bool; p_closing : bool; p_data : option Z }.

Definition zero_pipe : uv_pipe := mk_pipe false false None.

(** [struct dicey_client]: [cl_tloop] tells whether the pointer to the loop is set, [cl_running] is
    its flag, [cl_freed] tells that the client itself was freed. [cl_packet] is the packet that
    [client_got_packet] has in hand, which the input of a task points to; [cl_ctxs] are the
    contexts in memory, [cl_ops] the operations of libuv, [cl_next] the next address. *)
Record dicey_client : Type := mk_dclient {
  cl_pipe : uv_pipe; cl_state : dicey_client_state; cl_tloop : bool; cl_running : bool; cl_freed : bool;
  inspect_func : bool; on_signal : bool; waiting_tasks : waiting_ptr; recv_chunk : option dicey_chunk; next_seq : Z;
  cl_packet : dicey_packet; cl_ctxs : gmap nat client_ctx; cl_ops : list io_op; cl_next : nat; cl_log : list client_log;
}.

Definition set_pipe p (c : dicey_client) : dicey_client :=
  mk_dclient p (cl_state c) (cl_tloop c) (cl_running c) (cl_freed c) (inspect_func c) (on_signal c) (waiting_tasks c) (recv_chunk c) (next_seq c) (cl_packet c) (cl_ctxs c) (cl_ops c) (cl_next c) (cl_log c).
Definition set_state st (c : dicey_client) : dicey_client :=
  mk_dclient (cl_pipe c) st (cl_tloop c) (cl_running c) (cl_freed c) (inspect_func c) (on_signal c) (waiting_tasks c) (recv_chunk c) (next_seq c) (cl_packet c) (cl_ctxs c) (cl_ops c) (cl_next c) (cl_log c).
Definition set_tloop b (c : dicey_client) : dicey_client :=
  mk_dclient (cl_pipe c) (cl_state c) b (cl_running c) (cl_freed c) (inspect_func c) (on_signal c) (waiting_tasks c) (recv_chunk c) (next_seq c) (cl_packet c) (cl_ctxs c) (cl_ops c) (cl_next c) (cl_log c).
Definition set_running b (c : dicey_client) : dicey_client :=
  mk_dclient (cl_pipe c) (cl_state c) (cl_tloop c) b (cl_freed c) (inspect_func c) (on_signal c) (waiting_tasks c) (recv_chunk c) (next_seq c) (cl_packet c) (cl_ctxs c) (cl_ops c) (cl_next c) (cl_log c).
Definition set_freed b (c : dicey_client) : dicey_client :=
  mk_dclient (cl_pipe c) (cl_state c) (cl_tloop c) (cl_running c) b (inspect_func c) (on_signal c) (waiting_tasks c) (recv_chunk c) (next_seq c) (cl_packet c) (cl_ctxs c) (cl_ops c) (cl_next c) (cl_log c).
Definition set_waiting l (c : dicey_client) : dicey_client :=
  mk_dclient (cl_pipe c) (cl_state c) (cl_tloop c) (cl_running c) (cl_freed c) (inspect_func c) (on_signal c) l (recv_chunk c) (next_seq c) (cl_packet c) (cl_ctxs c) (cl_ops c) (cl_next c) (cl_log c).
Definition set_chunk k (c : dicey_client) : dicey_client :=
  mk_dclient (cl_pipe c) (cl_state c) (cl_tloop c) (cl_running c) (cl_freed c) (inspect_func c) (on_signal c) (waiting_tasks c) k (next_seq c) (cl_packet c) (cl_ctxs c) (cl_ops c) (cl_next c) (cl_log c).
Definition set_next_seq n (c : dicey_client) : dicey_client :=
  mk_dclient (cl_pipe c) (cl_state c) (cl_tloop c) (cl_running c) (cl_freed c) (inspect_func c) (on_signal c) (waiting_tasks c) (recv_chunk c) n (cl_packet c) (cl_ctxs c) (cl_ops c) (cl_next c) (cl_log c).
Definition set_packet p (c : dicey_client) : dicey_client :=
  mk_dclient (cl_pipe c) (cl_state c) (cl_tloop c) (cl_running c) (cl_freed c) (inspect_func c) (on_signal c) (waiting_tasks c) (recv_chunk c) (next_seq c) p (cl_ctxs c) (cl_ops c) (cl_next c) (cl_log c).
Definition set_ctxs m (c : dicey_client) : dicey_client :=
  mk_dclient (cl_pipe c) (cl_state c) (cl_tloop c) (cl_running c) (cl_freed c) (inspect_func c) (on_signal c) (waiting_tasks c) (recv_chunk c) (next_seq c) (cl_packet c) m (cl_ops c) (cl_next c) (cl_log c).
Definition set_ops l (c : dicey_client) : dicey_client :=
  mk_dclient (cl_pipe c) (cl_state c) (cl_tloop c) (cl_running c) (cl_freed c) (inspect_func c) (on_signal c) (waiting_tasks c) (recv_chunk c) (next_seq c) (cl_packet c) (cl_ctxs c) l (cl_next c) (cl_log c).
Definition set_next n (c : dicey_client) : dicey_client :=
  mk_dclient (cl_pipe c) (cl_state c) (cl_tloop c) (cl_running c) (cl_freed c) (inspect_func c) (on_signal c) (waiting_tasks c) (recv_chunk c) (next_seq c) (cl_packet c) (cl_ctxs c) (cl_ops c) n (cl_log c).
Definition set_log l (c : dicey_client) : dicey_client :=
  mk_dclient (cl_pipe c) (cl_state c) (cl_tloop c) (cl_running c) (cl_freed c) (inspect_func c) (on_signal c) (waiting_tasks c) (recv_chunk c) (next_seq c) (cl_packet c) (cl_ctxs c) (cl_ops c) (cl_next c) l.

Definition cst : Type -> Type := stm dicey_client dicey_error.

Definition upd (f : dicey_client -> dicey_client) : cst unit := fun c => (Ok tt, f c).
Definition log (e : client_log) : cst unit := upd (fun c => set_log (cl_log c ++ [e]) c).

(** The error code of a call that its caller examines. *)
Definition attempt {A} (m : res A) : cst (dicey_error + A) :=
  slift (match m with Ok a => Ok (inr a) | Err e => Ok (inl e) | Fault f => Fault f | OutOfFuel => OutOfFuel end).

(** [DICEY_ASSUME]: an error fails an assertion. *)
Definition assume {A} (m : res A) : res A := match m with Err _ => Fault AssertFailed | m => m end.

Section client.

(** What the client depends on: which allocations succeed (numbered in the order they are made,
    and by size for blocks), what the calls of libuv answer, in the order they are made, whether
    the pipe is active, which writes (by the address of the operation) the socket takes at once, and
    fuel for the packet loader and the growth of the receive buffer. *)
Record client_env : Type := mk_cenv {
  ce_malloc_ok : nat -> bool; ce_block_ok : Z -> bool; ce_uv_err : nat -> option dicey_error; ce_active : nat -> bool;
  ce_at_once : nat -> bool; ce_fuel : nat;
}.

Context (E : client_env).

Definition tick : cst nat := fun c => (Ok (cl_next c), set_next (S (cl_next c)) c).
Definition malloc : cst (option nat) := do! n <- tick ; sret (if ce_malloc_ok E n then Some n else None).
Definition uv_call : cst (option dicey_error) := do! n <- tick ; sret (ce_uv_err E n).
Definition uv_is_active : cst bool := do! n <- tick ; sret (ce_active E n).

Definition ctx_read (a : nat) : cst client_ctx := fun c =>
  (match cl_ctxs c !! a with Some x => Ok x | None => Fault UseAfterFree end, c).
Definition ctx_write (a : nat) (x : client_ctx) : cst unit := upd (fun c => set_ctxs (<[a := x]> (cl_ctxs c)) c).
Definition ctx_free (a : nat) : cst unit := upd (fun c => set_ctxs (delete a (cl_ctxs c)) c).

(** NULL when the error cannot be allocated. *)
Definition dicey_task_error_new (error : dicey_error) : cst (option dicey_error) :=
  do! p <- malloc ; sret (match p with Some _ => Some error | None => None end).

Definition dicey_task_fail (error : dicey_error) : cst dicey_task_result :=
  do! err <- dicey_task_error_new error ; sret (DICEY_TASK_ERROR err).

(** [err ? dicey_task_fail_with(err) : ok] *)
Definition task_result_of (err : option dicey_error) (ok : dicey_task_result) : dicey_task_result :=
  match err with Some e => DICEY_TASK_ERROR (Some e) | None => ok end.

(** ** Events *)

Definition client_set_state (state : dicey_client_state) : cst unit :=
  do! c <- sget ; sassert (state_rank (cl_state c) <=? state_rank state) ;;! upd (set_state state).

Definition in_state (state : dicey_client_state) : cst bool := do! c <- sget ; sret (bool_decide (cl_state c = state)).

(** The event that is raised in the end. *)
Definition error_event (err : dicey_error) : cst dicey_client_event :=
  client_set_state CLIENT_STATE_DEAD ;;! sret (DICEY_CLIENT_EVENT_ERROR err).

Definition client_process_event_va (event : dicey_client_event) : cst dicey_client_event :=
  do! c <- sget ;
  match event with
  | DICEY_CLIENT_EVENT_CONNECT =>
      sassert (bool_decide (cl_state c = CLIENT_STATE_CONNECT_START)) ;;! client_set_state CLIENT_STATE_RUNNING ;;! sret event
  | DICEY_CLIENT_EVENT_ERROR err => error_event err
  | DICEY_CLIENT_EVENT_HANDSHAKE_START _ =>
      sassert (bool_decide (cl_state c = CLIENT_STATE_INIT)) ;;! client_set_state CLIENT_STATE_CONNECT_START ;;! sret event
  | DICEY_CLIENT_EVENT_INIT =>
      sassert (bool_decide (cl_state c = CLIENT_STATE_UNINIT)) ;;! client_set_state CLIENT_STATE_INIT ;;! sret event
  | DICEY_CLIENT_EVENT_MESSAGE_RECEIVING _ | DICEY_CLIENT_EVENT_MESSAGE_SENDING _ =>
      if negb (bool_decide (cl_state c = CLIENT_STATE_RUNNING)) then error_event DICEY_EINVAL else sret event
  | DICEY_CLIENT_EVENT_SERVER_BYE reason =>
      sassert (state_rank CLIENT_STATE_CONNECT_START <=? state_rank (cl_state c)) ;;!
      if bool_decide (reason = DICEY_BYE_REASON_ERROR) then error_event DICEY_ECONNRESET
      else client_set_state CLIENT_STATE_DEAD ;;! sret event
  | DICEY_CLIENT_EVENT_QUITTING =>
      sassert (state_rank (cl_state c) <=? state_rank CLIENT_STATE_CLOSING) ;;! client_set_state CLIENT_STATE_CLOSING ;;! sret event
  | DICEY_CLIENT_EVENT_QUIT =>
      sassert (bool_decide (cl_state c = CLIENT_STATE_CLOSING)) ;;! client_set_state CLIENT_STATE_CLOSED ;;! sret event
  end.

Definition client_event (event : dicey_client_event) : cst unit :=
  do! ev <- client_process_event_va event ;
  do! c <- sget ;
  if inspect_func c then log (LogEvent ev) else sret tt.

(** ** Sequence numbers *)

Definition client_reset_seq : cst unit := upd (set_next_seq 2).

Definition client_next_seq : cst Z :=
  do! c <- sget ;
  let next := next_seq c in
  sassert (next mod 2 =? 0) ;;!
  upd (set_next_seq (u32 (next + 2))) ;;!
  (if u32 (next + 2) =? 0 then client_reset_seq else sret tt) ;;!
  sret next.

(** ** Operations of libuv (io.c) *)

Definition add_op (op : io_op) : cst unit := upd (fun c => set_ops (cl_ops c ++ [op]) c).

(** The bytes belong to the context [buf]; [uv_write] hands them to the socket, and keeps the pointer
    when the socket does not take them. The error is NULL on success. *)
Definition perform_write (id : Z) (buf : nat) (packet : dicey_packet) (lock_policy : task_lock_policy) : cst (option dicey_error) :=
  sassert (dicey_packet_is_valid packet) ;;!
  do! write <- malloc ;
  match write with
  | None => dicey_task_error_new DICEY_ENOMEM
  | Some write =>
      do! uverr <- uv_call ;
      match uverr with
      | Some e => dicey_task_error_new e
      | None => add_op (write_op id lock_policy (if ce_at_once E write then None else Some buf)) ;;! log (LogSent packet) ;;! sret None
      end
  end.

Definition dicey_task_op_write (id : Z) (buf : nat) (packet : dicey_packet) : cst (option dicey_error) :=
  perform_write id buf packet TASK_UNLOCK_AFTER_OP.

Definition dicey_task_op_write_and_wait (id : Z) (buf : nat) (packet : dicey_packet) : cst (option dicey_error) :=
  perform_write id buf packet TASK_LOCK_INDEFINITELY.

(** libuv refuses a handle that was not initialised or that is being closed. *)
Definition uv_close : cst unit :=
  do! c <- sget ;
  sassert (p_init (cl_pipe c) && negb (p_closing (cl_pipe c))) ;;!
  upd (set_pipe (mk_pipe true true (p_data (cl_pipe c)))).

Definition dicey_task_op_close (id : Z) : cst (option dicey_error) :=
  do! c <- sget ;
  sassert (bool_decide (p_data (cl_pipe c) = None)) ;;!
  do! tcookie <- malloc ;
  match tcookie with
  | None => dicey_task_error_new DICEY_ENOMEM
  | Some _ =>
      upd (set_pipe (mk_pipe (p_init (cl_pipe c)) (p_closing (cl_pipe c)) (Some id))) ;;!
      uv_close ;;! add_op close_op ;;! sret None
  end.

(** [uv_pipe_init]: the fields of the user are kept. *)
Definition pipe_init : cst (option dicey_error) :=
  do! uverr <- uv_call ;
  match uverr with
  | Some e => sret (Some e)
  | None => upd (fun c => set_pipe (mk_pipe true false (p_data (cl_pipe c))) c) ;;! sret None
  end.

Definition dicey_task_op_connect_pipe (id : Z) (addr : cstr) : cst (option dicey_error) :=
  sassert (negb (bool_decide (length addr = 0%nat))) ;;!
  do! uverr <- pipe_init ;
  match uverr with
  | Some e => dicey_task_error_new e
  | None =>
      do! conn <- malloc ;
      match conn with
      | None => dicey_task_error_new DICEY_ENOMEM
      | Some _ =>
          do! uverr <- uv_call ;
          match uverr with
          | Some e => dicey_task_error_new e
          | None => add_op (connect_op id) ;;! sret None
          end
      end
  end.

Definition dicey_task_op_open_pipe (fd : Z) : cst (option dicey_error) :=
  sassert (0 <=? fd) ;;!
  do! uverr <- pipe_init ;
  match uverr with
  | Some e => dicey_task_error_new e
  | None =>
      do! uverr <- uv_call ;
      match uverr with Some e => dicey_task_error_new e | None => sret None end
  end.

(** ** Sending *)

Definition client_task_send_oneshot (id : Z) (buf : nat) (packet : dicey_packet) : cst (option dicey_error) :=
  if UINT_MAX <=? nbytes packet then dicey_task_error_new DICEY_EINVAL else dicey_task_op_write id buf packet.

(** The task will wait for the packet with the same sequence number. *)
Definition client_task_send_and_queue (id : Z) (seq : Z) (buf : nat) (packet : dicey_packet) : cst (option dicey_error) :=
  sassert (bool_decide (is_Some (payload packet)) && (nbytes packet <? UINT_MAX)) ;;!
  do! task_err <- dicey_task_op_write_and_wait id buf packet ;
  match task_err with
  | Some e => sret (Some e)
  | None =>
      do! c <- sget ;
      do! (location, ptr) <- slift (dicey_waiting_list_append (ce_block_ok E) (waiting_tasks c) (mk_waiting seq (u64 id))) ;
      upd (set_waiting ptr) ;;!
      match location with
      | Some _ => sret None
      | None => dicey_task_error_new DICEY_ENOMEM
      end
  end.

(** ** Disconnecting *)

Definition from_connect_start : cst bool :=
  do! c <- sget ; sret (state_rank CLIENT_STATE_CONNECT_START <=? state_rank (cl_state c)).

Definition send_bye (ctx : nat) (id : Z) (input : option unit) : cst dicey_task_result :=
  do! x <- ctx_read ctx ;
  match x with
  | disconnect_context _ cb =>
      do! started <- from_connect_start ; sassert started ;;!
      do! active <- uv_is_active ;
      if negb active then sret DICEY_TASK_NEXT else
      do! seq <- client_next_seq ;
      do! r <- attempt (dicey_packet_bye (ce_block_ok E) seq DICEY_BYE_REASON_SHUTDOWN) ;
      match r with
      | inl craft_fail => dicey_task_fail craft_fail
      | inr bye =>
          ctx_write ctx (disconnect_context bye cb) ;;!
          do! err <- client_task_send_oneshot id ctx bye ;
          sret (task_result_of err DICEY_TASK_CONTINUE)
      end
  | _ => sfault WrongMember
  end.

Definition issue_close (ctx : nat) (id : Z) (input : option unit) : cst dicey_task_result :=
  do! _ <- ctx_read ctx ;
  do! started <- from_connect_start ; sassert started ;;!
  client_event DICEY_CLIENT_EVENT_QUITTING ;;!
  do! c <- sget ;
  if p_closing (cl_pipe c) then sret DICEY_TASK_NEXT else
  do! err <- dicey_task_op_close id ;
  sret (task_result_of err DICEY_TASK_CONTINUE).

Definition dicey_task_noop (id : Z) (input : option unit) : cst dicey_task_result := sret DICEY_TASK_CONTINUE.

Definition status_of (err : option dicey_error) : Z := match err with Some e => error_code e | None => 0 end.

(** [if (errcode) client_event(client, DICEY_CLIENT_EVENT_ERROR, ...)] *)
Definition report_error (err : option dicey_error) : cst unit :=
  match err with
  | Some e => if bool_decide (e = DICEY_OK) then sret tt else client_event (DICEY_CLIENT_EVENT_ERROR e)
  | None => sret tt
  end.

Definition disconnect_end (ctx : nat) (id : Z) (err : option dicey_error) : cst unit :=
  do! x <- ctx_read ctx ;
  match x with
  | disconnect_context _ cb =>
      report_error err ;;!
      client_event DICEY_CLIENT_EVENT_QUIT ;;!
      (match cb with Some cb => log (LogDisconnect cb (status_of err)) | None => sret tt end) ;;!
      ctx_free ctx
  | _ => sfault WrongMember
  end.

(** ** Connecting *)

(** [uv_read_start]: the reads themselves are events. *)
Definition client_start_read : cst (option dicey_error) :=
  do! init <- in_state CLIENT_STATE_INIT ; sassert init ;;! uv_call.

Definition issue_connect (ctx : nat) (id : Z) (input : option unit) : cst dicey_task_result :=
  sassert (bool_decide (input = None)) ;;!
  do! x <- ctx_read ctx ;
  do! init <- in_state CLIENT_STATE_INIT ;
  do! active <- uv_is_active ;
  sassert (init && negb active) ;;!
  match x with
  | connect_context (CLIENT_CONNECT_ADDR addr) _ _ =>
      do! err <- dicey_task_op_connect_pipe id addr ; sret (task_result_of err DICEY_TASK_CONTINUE)
  | connect_context (CLIENT_OPEN_FD fd) _ _ =>
      do! err <- dicey_task_op_open_pipe fd ; sret (task_result_of err DICEY_TASK_NEXT)
  | _ => sfault WrongMember
  end.

Definition send_first_hello (ctx : nat) (id : Z) (input : option unit) : cst dicey_task_result :=
  sassert (bool_decide (input = None)) ;;!
  do! x <- ctx_read ctx ;
  match x with
  | connect_context info _ cb =>
      do! err <- client_start_read ;
      match err with
      | Some e => client_event (DICEY_CLIENT_EVENT_ERROR e) ;;! dicey_task_fail e
      | None =>
          do! r <- attempt (dicey_packet_hello (ce_block_ok E) 0 DICEY_PROTO_VERSION_CURRENT) ;
          match r with
          | inl e => client_event (DICEY_CLIENT_EVENT_ERROR e) ;;! dicey_task_fail e
          | inr hello =>
              ctx_write ctx (connect_context info hello cb) ;;!
              client_reset_seq ;;!
              do! queue_err <- client_task_send_and_queue id 0 ctx hello ;
              match queue_err with
              | Some e => sret (DICEY_TASK_ERROR (Some e))
              | None => client_event (DICEY_CLIENT_EVENT_HANDSHAKE_START DICEY_PROTO_VERSION_CURRENT) ;;! sret DICEY_TASK_CONTINUE
              end
          end
      end
  | _ => sfault WrongMember
  end.

(** The version in the answer is not looked at. The first error cannot occur: the sequence number
    was read before. *)
Definition verify_and_finish_connect (ctx : nat) (id : Z) (input : option unit) : cst dicey_task_result :=
  sassert (bool_decide (is_Some input)) ;;!
  do! x <- ctx_read ctx ;
  do! c <- sget ;
  let packet := cl_packet c in
  do! r <- attempt (dicey_packet_get_seq packet) ;
  match r with
  | inl e => dicey_task_fail e
  | inr seq_no =>
      do! kind <- slift (dicey_packet_get_kind packet) ;
      if negb (seq_no =? 0) then dicey_task_fail DICEY_EINVAL else
      if negb (bool_decide (kind = DICEY_PACKET_KIND_HELLO)) then dicey_task_fail DICEY_EINVAL else
      if negb (bool_decide (cl_state c = CLIENT_STATE_CONNECT_START)) then dicey_task_fail DICEY_EINVAL else
      client_event DICEY_CLIENT_EVENT_CONNECT ;;! sret DICEY_TASK_CONTINUE
  end.

Definition connect_status (err : dicey_error) : dicey_error :=
  if bool_decide (err = DICEY_ENOENT) || bool_decide (err = DICEY_ECONNREFUSED) then DICEY_EPEER_NOT_FOUND else err.

Definition connect_end (ctx : nat) (id : Z) (err : option dicey_error) : cst unit :=
  do! x <- ctx_read ctx ;
  match x with
  | connect_context _ _ (Some cb) =>
      (match err with
       | Some e => if bool_decide (e = DICEY_OK) then sret tt else uv_close ;;! client_event (DICEY_CLIENT_EVENT_ERROR e)
       | None => sret tt
       end) ;;!
      log (LogConnect cb (match err with Some e => error_code (connect_status e) | None => 0 end)) ;;!
      ctx_free ctx
  | connect_context _ _ None => sfault AssertFailed
  | _ => sfault WrongMember
  end.

(** ** Replies *)

Definition parse_bool_reply (packet : dicey_packet) : res (Z * bool) :=
  let! _ := oassert (dicey_packet_is_valid packet) in
  match dicey_packet_as_message packet with
  | Err e => Ok (error_code e, false)
  | Fault f => Fault f
  | OutOfFuel => OutOfFuel
  | Ok msg =>
      match dicey_value_get_bool (msg_value msg) with
      | Ok b => Ok (0, b)
      | Fault f => Fault f
      | OutOfFuel => OutOfFuel
      | Err _ =>
          match dicey_value_get_error (msg_value msg) with
          | Ok errmsg => Ok (err_code errmsg, false)
          | Err e => Ok (error_code e, false)
          | Fault f => Fault f
          | OutOfFuel => OutOfFuel
          end
      end
  end.

Definition parse_unit_reply (packet : dicey_packet) : res unit :=
  let! msg := dicey_packet_as_message packet in
  if negb (dicey_value_is_unit (msg_value msg)) then Err DICEY_EINVAL else Ok tt.

(** The real path, copied: NULL for a unit. *)
Definition parse_subunsub_reply (packet : dicey_packet) : res (option cstr) :=
  let! msg := dicey_packet_as_message packet in
  if dicey_value_is_unit (msg_value msg) then Ok None else
  let! path := dicey_value_get_path (msg_value msg) in
  match path with
  | None => Fault AssertFailed
  | Some path => if ce_block_ok E (zlen path + 1) then Ok (Some path) else Err DICEY_ENOMEM
  end.

Definition is_alias_on_reply (user : nat) (err : Z) (packet : dicey_packet) : cst unit :=
  if negb (err =? 0) then log (LogIsAlias user err false) else
  do! (parse_err, is_alias) <- slift (parse_bool_reply packet) ;
  log (LogIsAlias user parse_err is_alias).

(** The union is read by the member that [op] names. *)
Definition subunsub_on_reply (ctx : subunsub_async_ctx) (status : Z) (reply : dicey_packet) : cst unit :=
  do! (status, real_path) <-
    (if status =? 0 then
       do! r <- attempt (parse_subunsub_reply reply) ;
       sret (match r with inl e => (error_code e, None) | inr path => (0, path) end)
     else sret (status, None)) ;
  match su_op ctx, su_cb ctx with
  | CLIENT_SUBSCRIBE, sub_cb user => log (LogSubscribed user status real_path)
  | CLIENT_UNSUBSCRIBE, unsub_cb user => log (LogUnsubscribed user status)
  | _, _ => sfault WrongMember
  end.

Definition call_reply (cb : reply_cb) (status : Z) (response : dicey_packet) : cst unit :=
  match cb with
  | user_on_reply user => log (LogReply user status response)
  | is_alias_cb user => is_alias_on_reply user status response
  | subunsub_cb ctx => subunsub_on_reply ctx status response
  | unlock_after_request sem => log (LogPosted sem status response)
  end.

(** ** Requests *)

Definition issue_request (ctx : nat) (id : Z) (input : option unit) : cst dicey_task_result :=
  sassert (bool_decide (input = None) && (0 <=? id)) ;;!
  do! x <- ctx_read ctx ;
  match x with
  | request_context packet response cb =>
      do! running <- in_state CLIENT_STATE_RUNNING ; sassert running ;;!
      sassert (dicey_packet_is_valid packet) ;;!
      do! seq_no <- client_next_seq ;
      do! r <- attempt (dicey_packet_set_seq packet seq_no) ;
      match r with
      | inl seq_err => dicey_task_fail seq_err
      | inr packet =>
          ctx_write ctx (request_context packet response cb) ;;!
          do! err <- client_task_send_and_queue id seq_no ctx packet ;
          sret (task_result_of err DICEY_TASK_CONTINUE)
      end
  | _ => sfault WrongMember
  end.

(** The packet is taken from [client_got_packet]. *)
Definition check_response (ctx : nat) (id : Z) (input : option unit) : cst dicey_task_result :=
  sassert (bool_decide (is_Some input)) ;;!
  do! x <- ctx_read ctx ;
  match x with
  | request_context request _ cb =>
      do! c <- sget ;
      sassert (dicey_packet_is_valid (cl_packet c)) ;;!
      ctx_write ctx (request_context request (cl_packet c) cb) ;;!
      upd (set_packet DICEY_EMPTY_PACKET) ;;!
      sret DICEY_TASK_CONTINUE
  | _ => sfault WrongMember
  end.

Definition request_end (ctx : nat) (id : Z) (err : option dicey_error) : cst unit :=
  do! x <- ctx_read ctx ;
  match x with
  | request_context _ response (Some cb) =>
      report_error err ;;! call_reply cb (status_of err) response ;;! ctx_free ctx
  | request_context _ _ None => report_error err ;;! sfault AssertFailed
  | _ => sfault WrongMember
  end.

(** ** The task loop of a client *)

Definition run {A} (m : cst A) (c : dicey_client) : res (A * dicey_client) :=
  let '(r, c') := m c in let! a := r in Ok (a, c').

(** The address behind a pointer to each of the contexts. *)
Definition as_connect (ptr : ctx_ptr) : option nat := match ptr with connect_ptr a => Some a | _ => None end.
Definition as_disconnect (ptr : ctx_ptr) : option nat := match ptr with disconnect_ptr a => Some a | _ => None end.
Definition as_request (ptr : ctx_ptr) : option nat := match ptr with request_ptr a => Some a | _ => None end.

Definition step (cast : ctx_ptr -> option nat) (f : nat -> Z -> option unit -> cst dicey_task_result) : work_fn unit ctx_ptr dicey_client :=
  fun id ptr input c => match cast ptr with Some a => run (f a id input) c | None => Fault WrongMember end.

Definition finish (cast : ctx_ptr -> option nat) (f : nat -> Z -> option dicey_error -> cst unit) : at_end_fn (C := ctx_ptr) :=
  fun id err ptr c => match cast ptr with Some a => let! (_, c') := run (f a id err) c in Ok c' | None => Fault WrongMember end.

Definition disconnect_tail : list (work_fn unit ctx_ptr dicey_client) :=
  [step as_disconnect issue_close; step as_disconnect (fun _ => dicey_task_noop)].

Definition full_disconnect_sequence (ctx : nat) (timeout : Z) : dicey_task_request unit ctx_ptr dicey_client :=
  mk_task_request (step as_disconnect send_bye :: disconnect_tail) (finish as_disconnect disconnect_end) (disconnect_ptr ctx) timeout.
Definition quick_disconnect_sequence (ctx : nat) (timeout : Z) : dicey_task_request unit ctx_ptr dicey_client :=
  mk_task_request disconnect_tail (finish as_disconnect disconnect_end) (disconnect_ptr ctx) timeout.
Definition connect_sequence (ctx : nat) (timeout : Z) : dicey_task_request unit ctx_ptr dicey_client :=
  mk_task_request [step as_connect issue_connect; step as_connect send_first_hello; step as_connect verify_and_finish_connect]
    (finish as_connect connect_end) (connect_ptr ctx) timeout.
Definition request_sequence (ctx : nat) (timeout : Z) : dicey_task_request unit ctx_ptr dicey_client :=
  mk_task_request [step as_request issue_request; step as_request check_response] (finish as_request request_end) (request_ptr ctx) timeout.

(** The callback of the loop for every task: nothing is expected for it any more. *)
Definition clean_up_task (id : Z) (err : option dicey_error) : cst unit :=
  do! c <- sget ;
  do! (_, ptr) <- slift (dicey_waiting_list_remove_task (waiting_tasks c) (u64 id)) ;
  upd (set_waiting ptr).

Definition client_at_end (id : Z) (err : option dicey_error) (c : dicey_client) : res dicey_client :=
  let! (_, c') := run (clean_up_task id err) c in Ok c'.

(** [free(client->waiting_tasks)] of a pointer that dangles is not accepted. *)
Definition reset_state : cst unit :=
  do! c <- sget ;
  sassert (p_closing (cl_pipe c) && negb (cl_running c)) ;;!
  upd (set_state CLIENT_STATE_INIT) ;;! upd (set_next_seq 0) ;;! upd (set_pipe zero_pipe) ;;!
  (match waiting_tasks c with FreedArray => sfault InvalidFree | _ => upd (set_waiting NoArray) end) ;;!
  upd (set_chunk None).

(** ** Callbacks of libuv, which run on the loop *)

Definition client_loop : Type := dicey_task_loop unit ctx_ptr dicey_client.

Definition lst : Type -> Type := stm client_loop dicey_error.

Definition in_client {A} (m : cst A) : lst A := fun s =>
  let '(r, c) := m (world s) in (r, with_world c s).

Definition in_loop (f : client_loop -> res client_loop) : lst unit := fun s =>
  match f s with
  | Ok s' => (Ok tt, s')
  | Err e => (Err e, s)
  | Fault f => (Fault f, s)
  | OutOfFuel => (OutOfFuel, s)
  end.

Definition dicey_task_loop_fail (id : Z) (error : dicey_error) : lst unit :=
  do! err <- in_client (dicey_task_error_new error) ;
  in_loop (dicey_task_loop_fail_with client_at_end id err).

(** [None] is a status that is not negative. *)
Definition unlock_task (id : Z) (status : option dicey_error) : lst unit :=
  match status with
  | Some e => dicey_task_loop_fail id e
  | None => in_loop (dicey_task_loop_advance client_at_end id None)
  end.

Definition on_connect (id : Z) (status : option dicey_error) : lst unit := unlock_task id status.

Definition on_write (id : Z) (lock_policy : task_lock_policy) (status : option dicey_error) : lst unit :=
  match lock_policy with TASK_UNLOCK_AFTER_OP => unlock_task id status | TASK_LOCK_INDEFINITELY => sret tt end.

(** The pipe is not reset: its [data] dangles afterwards. *)
Definition on_close : lst unit :=
  do! c <- in_client sget ;
  match p_data (cl_pipe c) with
  | None => sfault AssertFailed
  | Some id => unlock_task id None
  end.

(** libuv reads the bytes of a write that is not cancelled before it reports that the write is done:
    the packet they are in must not have been freed. *)
Definition write_read (buf : option nat) (status : option dicey_error) : cst unit := fun c =>
  match buf with
  | Some ctx => (if bool_decide (status <> Some DICEY_ECANCELLED /\ cl_ctxs c !! ctx = None) then Fault UseAfterFree else Ok tt, c)
  | None => (Ok tt, c)
  end.

(** libuv finishes one of its operations. *)
Definition op_done (k : nat) (status : option dicey_error) : lst unit :=
  do! c <- in_client sget ;
  match cl_ops c !! k with
  | None => sret tt
  | Some op =>
      in_client (upd (set_ops (take k (cl_ops c) ++ drop (S k) (cl_ops c)))) ;;!
      match op with
      | connect_op id => on_connect id status
      | write_op id lock_policy buf => in_client (write_read buf status) ;;! on_write id lock_policy status
      | close_op => on_close
      end
  end.

Definition READ_MINBUF : Z := 256.

Definition client_alloc_buffer : cst Z :=
  do! c <- sget ;
  do! (len, chunk) <- slift (dicey_chunk_get_buf (ce_block_ok E) (ce_fuel E) (recv_chunk c) READ_MINBUF) ;
  upd (set_chunk chunk) ;;!
  match len with
  | Some n => sassert (READ_MINBUF <=? n) ;;! sret n
  | None => sfault AssertFailed
  end.

Definition is_server_msg (op : dicey_op) : bool :=
  match op with DICEY_OP_RESPONSE | DICEY_OP_SIGNAL => true | _ => false end.

(** A response or a hello: it goes to the task that waits for its sequence number, which may take
    the packet. What is left of it is released. *)
Definition dispatch_response (seq_no : Z) (packet : dicey_packet) : lst unit :=
  do! c <- in_client sget ;
  do! (task_id, ptr) <- slift (dicey_waiting_list_remove_seq (waiting_tasks c) seq_no) ;
  match task_id with
  | None => sret tt
  | Some task_id =>
      in_client (upd (set_waiting ptr) ;;! upd (set_packet packet)) ;;!
      in_loop (dicey_task_loop_advance client_at_end (to_signed 64 task_id) (Some tt)) ;;!
      in_client (upd (set_packet DICEY_EMPTY_PACKET))
  end.

Definition client_got_packet (packet : dicey_packet) : lst unit :=
  sassert (dicey_packet_is_valid packet) ;;!
  do! r <- in_client (attempt (dicey_packet_get_seq packet)) ;
  match r with
  | inl err => in_client (client_event (DICEY_CLIENT_EVENT_ERROR err))
  | inr seq_no =>
      do! kind <- slift (dicey_packet_get_kind packet) ;
      match kind with
      | DICEY_PACKET_KIND_BYE =>
          do! reason <- slift (assume (dicey_packet_as_bye packet)) ;
          in_client (client_event (DICEY_CLIENT_EVENT_SERVER_BYE reason))
      | DICEY_PACKET_KIND_MESSAGE =>
          do! msg <- slift (assume (dicey_packet_as_message packet)) ;
          if negb (is_server_msg (msg_type msg)) then in_client (client_event (DICEY_CLIENT_EVENT_ERROR DICEY_EINVAL)) else
          in_client (client_event (DICEY_CLIENT_EVENT_MESSAGE_RECEIVING packet)) ;;!
          if bool_decide (msg_type msg = DICEY_OP_SIGNAL) then
            do! c <- in_client sget ; sassert (on_signal c) ;;! in_client (log (LogSignal packet))
          else dispatch_response seq_no packet
      | _ => dispatch_response seq_no packet
      end
  end.

(** What a read gives: the end of the stream, an error, or bytes. *)
Inductive nread : Type :=
  | ReadEof
  | ReadError (err : dicey_error)
  | ReadBytes (bytes : list Z).

(** Only one packet is taken from the buffer, which is emptied then. *)
Definition client_on_read (r : nread) : lst unit :=
  match r with
  | ReadEof => sret tt
  | ReadError e =>
      do! dead <- in_client (in_state CLIENT_STATE_DEAD) ;
      if (dead : bool) then sret tt else in_client (client_event (DICEY_CLIENT_EVENT_ERROR e))
  | ReadBytes bytes =>
      do! c <- in_client sget ;
      match recv_chunk c with
      | None => sfault NullDeref
      | Some chunk =>
          if SIZE_MAX <? ck_len chunk + zlen bytes then in_client (client_event (DICEY_CLIENT_EVENT_ERROR DICEY_EOVERFLOW)) else
          let chunk := chunk_received chunk bytes in
          in_client (upd (set_chunk (Some chunk))) ;;!
          do! r <- in_client (attempt (dicey_packet_load (ce_block_ok E) (ce_fuel E) (vw (ck_bytes chunk) [])).1) ;
          match r with
          | inr packet => client_got_packet packet ;;! in_client (upd (set_chunk (Some (dicey_chunk_clear chunk))))
          | inl DICEY_EAGAIN => sret tt
          | inl err => in_client (client_event (DICEY_CLIENT_EVENT_ERROR err))
          end
      end
  end.

(** The queue of the loop, and its timer. *)
Definition client_process_queue (now : timespec) : lst unit := in_loop (process_queue (ce_block_ok E) client_at_end now).
Definition client_check_timeout (now : timespec) : lst unit := in_loop (check_timeout client_at_end now).

End client.
