(* ===== verification/ClientApi.v ===== *)
(** * Calls on a client (src/ipc/client/client.c)

    What the user of the library calls: creating, connecting and disconnecting a client, and
    requests. A call checks the state of the client, builds a packet where there is one, and submits
    a task to the loop. A blocking call is in two parts: the first submits the task with a callback
    that posts a semaphore, the second turns what was posted into the result. When the queue of the
    loop is full a caller waits for room: a call is an event of the moment it gets it. *)

From S2P Require Import Prelude Errors Types Views Writer ValueWrite ValueProbe Value Codec Payload Packet.
From S2P Require Import Queue TaskList TaskLoop WaitingList Chunk Builders BuildersTheorems Names Registry Client.
From stdpp Require Import gmap list.

#[local] Open Scope Z_scope.

Definition CLIENT_DEFAULT_TIMEOUT : Z := 1000.

Section api.
Context (E : client_env).

(** The blocks of the message builder can be allocated or not. *)
Variable builder_ok : nat -> bool.

(** Reading the client: it may have been freed. *)
Definition client_alive : lst dicey_client :=
  do! c <- in_client sget ; if cl_freed c then sfault UseAfterFree else sret c.

(** A loop that does not run refuses the task; the address of the request is given. *)
Definition submit (task : nat) (req : dicey_task_request unit ctx_ptr dicey_client) : lst unit :=
  do! c <- client_alive ;
  sassert (cl_tloop c) ;;!
  if negb (cl_running c) then sfail DICEY_EINVAL else in_loop (dicey_task_loop_submit task req).

(** Allocate a context and a request, in the order given, and submit; on failure both are freed. *)
Definition issue (ctx_first : bool) (ctx : client_ctx) (req : nat -> dicey_task_request unit ctx_ptr dicey_client) : lst unit :=
  do! first <- in_client (malloc E) ;
  match first with
  | None => sfail DICEY_ENOMEM
  | Some a =>
      do! second <- in_client (malloc E) ;
      match second with
      | None => sfail DICEY_ENOMEM
      | Some b =>
          let c := if ctx_first then a else b in
          let t := if ctx_first then b else a in
          in_client (ctx_write c ctx) ;;!
          (fun s => match submit t (req c) s with
                    | (Err e, s') => (Err e, with_world (set_ctxs (delete c (cl_ctxs (world s'))) (world s')) s')
                    | r => r
                    end)
      end
  end.

(** ** Life of a client *)

Definition zero_client : dicey_client :=
  mk_dclient zero_pipe CLIENT_STATE_UNINIT false false false false false NoArray None 0 DICEY_EMPTY_PACKET ∅ [] 0 [].

(** The arguments: whether there is an inspector and a handler of signals, if they are given. *)
Definition dicey_client_init (args : option (bool * bool)) : cst unit :=
  (match args with
   | Some (inspect, signal) => upd (fun c => mk_dclient (cl_pipe c) (cl_state c) (cl_tloop c) (cl_running c) (cl_freed c) inspect signal
       (waiting_tasks c) (recv_chunk c) (next_seq c) (cl_packet c) (cl_ctxs c) (cl_ops c) (cl_next c) (cl_log c))
   | None => sret tt
   end) ;;!
  client_event DICEY_CLIENT_EVENT_INIT.

(** Before it is connected a client has no loop: the one here is empty. *)
Definition dicey_client_new (args : option (bool * bool)) : res client_loop :=
  if ce_malloc_ok E 0 then let! (_, c) := run (dicey_client_init args) zero_client in Ok (new_loop c) else Err DICEY_ENOMEM.

(** The end of the thread of the loop: every task is cancelled, then the client is reset. *)
Definition loop_thread_end : lst unit :=
  do! err <- in_client (dicey_task_error_new E DICEY_ECANCELLED) ;
  in_loop (cancel_all_pending client_at_end err) ;;!
  in_client (upd (set_running false)) ;;!
  in_client reset_state.

Definition dicey_task_loop_stop_and_wait : lst unit :=
  do! c <- client_alive ; if cl_running c then loop_thread_end else sret tt.

(** The loop is freed. [dicey_client_deinit] leaves the pointer to it as it was: the client must not
    be used afterwards; here the pointer is reset. *)
Definition dicey_task_loop_delete : lst unit :=
  do! c <- client_alive ;
  if cl_tloop c then dicey_task_loop_stop_and_wait ;;! in_client (upd (set_tloop false)) else sret tt.

Definition dicey_client_deinit : lst unit := dicey_task_loop_delete.

Definition dicey_client_delete : lst unit := dicey_client_deinit ;;! in_client (upd (set_freed true)).

Definition client_issue_disconnect (cb : option disconnect_cb) : lst unit :=
  do! c <- client_alive ;
  issue true (disconnect_context DICEY_EMPTY_PACKET cb) (fun ctx =>
    if bool_decide (cl_state c = CLIENT_STATE_RUNNING)
    then full_disconnect_sequence E ctx CLIENT_DEFAULT_TIMEOUT
    else quick_disconnect_sequence E ctx CLIENT_DEFAULT_TIMEOUT).

Definition dicey_client_disconnect_async (cb : option disconnect_cb) : lst unit :=
  do! c <- client_alive ;
  match cl_state c with
  | CLIENT_STATE_RUNNING | CLIENT_STATE_DEAD => client_issue_disconnect cb
  | _ => sfail DICEY_EINVAL
  end.

Definition client_issue_setup (info : client_setup_info) (cb : option connect_cb) : lst unit :=
  issue true (connect_context info DICEY_EMPTY_PACKET cb) (fun ctx => connect_sequence E ctx CLIENT_DEFAULT_TIMEOUT).

(** A loop that was started for the client. *)
Definition started (s : client_loop) : client_loop := new_loop (set_running true (set_tloop true (world s))).

(** A new loop starts empty; when it cannot be allocated the client is freed. *)
Definition client_setup_async (info : client_setup_info) (cb : option connect_cb) : lst unit :=
  do! c <- client_alive ;
  if negb (bool_decide (cl_state c = CLIENT_STATE_INIT)) then sfail DICEY_EINVAL else
  dicey_task_loop_delete ;;!
  do! tloop <- in_client (malloc E) ;
  match tloop with
  | None => in_client (upd (set_freed true)) ;;! sfail DICEY_ENOMEM
  | Some _ =>
      do! start_err <- in_client (uv_call E) ;
      match start_err with
      | Some e => sfail e
      | None =>
          (fun s => (Ok tt, started s)) ;;!
          client_issue_setup info cb
      end
  end.

Definition dicey_client_connect_async (addr : cstr) (cb : option connect_cb) : lst unit :=
  client_setup_async (CLIENT_CONNECT_ADDR addr) cb.

Definition client_open_async (fd : Z) (cb : option connect_cb) : lst unit := client_setup_async (CLIENT_OPEN_FD fd) cb.

(** A semaphore of the caller. *)
Definition with_sem (call : nat -> lst unit) : lst nat := do! sem <- in_client tick ; call sem ;;! sret sem.

Definition dicey_client_connect (addr : cstr) : lst nat :=
  with_sem (fun sem => dicey_client_connect_async addr (Some (unlock_when_done sem))).
Definition dicey_client_open_fd (fd : Z) : lst nat := with_sem (fun sem => client_open_async fd (Some (unlock_when_done sem))).
Definition dicey_client_disconnect : lst nat :=
  with_sem (fun sem => dicey_client_disconnect_async (Some (unlock_after_disconnect sem))).

Definition dicey_client_is_running : lst bool :=
  do! c <- client_alive ; sret (bool_decide (cl_state c = CLIENT_STATE_RUNNING)).

(** ** Requests *)

Definition client_issue_request (packet : dicey_packet) (cb : reply_cb) (timeout : Z) : lst unit :=
  issue false (request_context packet DICEY_EMPTY_PACKET (Some cb)) (fun ctx => request_sequence E ctx (i32 timeout)).

Definition dicey_client_request_async (packet : dicey_packet) (cb : reply_cb) (timeout : Z) : lst unit :=
  sassert (dicey_packet_is_valid packet) ;;!
  do! c <- client_alive ;
  if negb (bool_decide (cl_state c = CLIENT_STATE_RUNNING)) then sfail DICEY_EINVAL else client_issue_request packet cb timeout.

Definition dicey_client_request (packet : dicey_packet) (timeout : Z) : lst nat :=
  with_sem (fun sem => dicey_client_request_async packet (unlock_after_request sem) timeout).

Definition message (op : dicey_op) (path : cstr) (sel : dicey_selector) (value : option dicey_arg) : lst dicey_packet :=
  slift (dicey_packet_message builder_ok (ce_block_ok E) 0 op path sel value empty_heap).1.

Definition dicey_client_exec_async (path : cstr) (sel : dicey_selector) (value : dicey_arg) (cb : reply_cb) (timeout : Z) : lst unit :=
  sassert (dicey_selector_is_valid sel) ;;!
  do! packet <- message DICEY_OP_EXEC path sel (Some value) ; dicey_client_request_async packet cb timeout.

Definition dicey_client_exec (path : cstr) (sel : dicey_selector) (value : dicey_arg) (timeout : Z) : lst nat :=
  sassert (dicey_selector_is_valid sel) ;;!
  do! packet <- message DICEY_OP_EXEC path sel (Some value) ; dicey_client_request packet timeout.

Definition dicey_client_get_async (path : cstr) (sel : dicey_selector) (cb : reply_cb) (timeout : Z) : lst unit :=
  sassert (dicey_selector_is_valid sel) ;;!
  do! packet <- message DICEY_OP_GET path sel None ; dicey_client_request_async packet cb timeout.

Definition dicey_client_get (path : cstr) (sel : dicey_selector) (timeout : Z) : lst nat :=
  sassert (dicey_selector_is_valid sel) ;;!
  do! packet <- message DICEY_OP_GET path sel None ; dicey_client_request packet timeout.

Definition dicey_client_set_async (path : cstr) (sel : dicey_selector) (value : dicey_arg) (cb : reply_cb) (timeout : Z) : lst unit :=
  sassert (dicey_selector_is_valid sel) ;;!
  do! packet <- message DICEY_OP_SET path sel (Some value) ; dicey_client_request_async packet cb timeout.

(** Up to the wait; [set_result] is the rest. *)
Definition dicey_client_set (path : cstr) (sel : dicey_selector) (value : dicey_arg) (timeout : Z) : lst nat :=
  sassert (dicey_selector_is_valid sel) ;;!
  do! packet <- message DICEY_OP_SET path sel (Some value) ; dicey_client_request packet timeout.

Definition set_result (status : Z) (response : dicey_packet) : res Z :=
  if negb (status =? 0) then Ok status else
  match parse_unit_reply response with Ok _ => Ok 0 | Err e => Ok (error_code e) | Fault f => Fault f | OutOfFuel => OutOfFuel end.

(** ** Builtin objects *)

Definition registry_selector (elem : cstr) : dicey_selector := mk_selector (Some DICEY_REGISTRY_TRAIT_NAME) (Some elem).
Definition introspection_selector (elem : cstr) : dicey_selector := mk_selector (Some DICEY_INTROSPECTION_TRAIT_NAME) (Some elem).

Definition dicey_client_get_real_path (path : cstr) (timeout : Z) : lst nat :=
  dicey_client_exec DICEY_REGISTRY_PATH (registry_selector DICEY_REGISTRY_REAL_PATH_OP_NAME) (ArgPath (Some path)) timeout.
Definition dicey_client_get_real_path_async (path : cstr) (cb : reply_cb) (timeout : Z) : lst unit :=
  dicey_client_exec_async DICEY_REGISTRY_PATH (registry_selector DICEY_REGISTRY_REAL_PATH_OP_NAME) (ArgPath (Some path)) cb timeout.

Definition dicey_client_inspect_path (path : cstr) (timeout : Z) : lst nat :=
  dicey_client_get path (introspection_selector DICEY_INTROSPECTION_DATA_PROP_NAME) timeout.
Definition dicey_client_inspect_path_async (path : cstr) (cb : reply_cb) (timeout : Z) : lst unit :=
  dicey_client_get_async path (introspection_selector DICEY_INTROSPECTION_DATA_PROP_NAME) cb timeout.
Definition dicey_client_inspect_path_as_xml (path : cstr) (timeout : Z) : lst nat :=
  dicey_client_get path (introspection_selector DICEY_INTROSPECTION_XML_PROP_NAME) timeout.
Definition dicey_client_inspect_path_as_xml_async (path : cstr) (cb : reply_cb) (timeout : Z) : lst unit :=
  dicey_client_get_async path (introspection_selector DICEY_INTROSPECTION_XML_PROP_NAME) cb timeout.

(** Up to the wait; [is_path_alias_result] is the rest. *)
Definition dicey_client_is_path_alias (path : cstr) (timeout : Z) : lst nat :=
  dicey_client_exec DICEY_REGISTRY_PATH (registry_selector DICEY_REGISTRY_PATH_IS_ALIAS_OP_NAME) (ArgPath (Some path)) timeout.

Definition is_path_alias_result (status : Z) (response : dicey_packet) : res Z :=
  if negb (status =? 0) then Ok status else
  let! (err, is_alias) := parse_bool_reply response in
  Ok (if negb (err =? 0) then err else if (is_alias : bool) then 0 else error_code DICEY_EPATH_NOT_ALIAS).

(** The context of the callback is not freed when the request cannot be made. *)
Definition dicey_client_is_path_alias_async (path : cstr) (user : nat) (timeout : Z) : lst unit :=
  do! is_alias_ctx <- in_client (malloc E) ;
  match is_alias_ctx with
  | None => sfail DICEY_ENOMEM
  | Some _ =>
      dicey_client_exec_async DICEY_REGISTRY_PATH (registry_selector DICEY_REGISTRY_PATH_IS_ALIAS_OP_NAME) (ArgPath (Some path))
        (is_alias_cb user) timeout
  end.

Definition dicey_client_list_objects (timeout : Z) : lst nat :=
  dicey_client_get DICEY_REGISTRY_PATH (registry_selector DICEY_REGISTRY_OBJECTS_PROP_NAME) timeout.
Definition dicey_client_list_objects_async (cb : reply_cb) (timeout : Z) : lst unit :=
  dicey_client_get_async DICEY_REGISTRY_PATH (registry_selector DICEY_REGISTRY_OBJECTS_PROP_NAME) cb timeout.
Definition dicey_client_list_paths (timeout : Z) : lst nat :=
  dicey_client_get DICEY_REGISTRY_PATH (registry_selector DICEY_REGISTRY_PATHS_PROP_NAME) timeout.
Definition dicey_client_list_paths_async (cb : reply_cb) (timeout : Z) : lst unit :=
  dicey_client_get_async DICEY_REGISTRY_PATH (registry_selector DICEY_REGISTRY_PATHS_PROP_NAME) cb timeout.
Definition dicey_client_list_traits (timeout : Z) : lst nat :=
  dicey_client_get DICEY_REGISTRY_PATH (registry_selector DICEY_REGISTRY_TRAITS_PROP_NAME) timeout.
Definition dicey_client_list_traits_async (cb : reply_cb) (timeout : Z) : lst unit :=
  dicey_client_get_async DICEY_REGISTRY_PATH (registry_selector DICEY_REGISTRY_TRAITS_PROP_NAME) cb timeout.

(** ** Subscriptions *)

Definition subunsub_selector (op : client_subunsub) : dicey_selector :=
  mk_selector (Some DICEY_EVENTMANAGER_TRAIT_NAME)
    (Some (match op with CLIENT_SUBSCRIBE => DICEY_EVENTMANAGER_SUBSCRIBE_OP_NAME | CLIENT_UNSUBSCRIBE => DICEY_EVENTMANAGER_UNSUBSCRIBE_OP_NAME end)).

Definition subunsub_payload (path : cstr) (sel : dicey_selector) : dicey_arg := ArgPair (ArgPath (Some path)) (ArgSelector sel).

(** [client_subunsub] with a callback. The field [op] of the context is not set: it is zero. *)
Definition client_subunsub_async (op : client_subunsub) (path : cstr) (sel : dicey_selector) (cb : client_subunsub_cb) (timeout : Z)
    : lst unit :=
  sassert (dicey_selector_is_valid sel) ;;!
  do! subunsub_ctx <- in_client (malloc E) ;
  match subunsub_ctx with
  | None => sfail DICEY_ENOMEM
  | Some _ =>
      dicey_client_exec_async DICEY_SERVER_PATH (subunsub_selector op) (subunsub_payload path sel)
        (subunsub_cb (mk_subunsub CLIENT_SUBSCRIBE cb)) timeout
  end.

(** [client_subunsub] without one, up to the wait; [subunsub_result] is the rest: the status and
    the real path. *)
Definition client_subunsub_sync (op : client_subunsub) (path : cstr) (sel : dicey_selector) (timeout : Z) : lst nat :=
  sassert (dicey_selector_is_valid sel) ;;!
  dicey_client_exec DICEY_SERVER_PATH (subunsub_selector op) (subunsub_payload path sel) timeout.

Definition subunsub_result (status : Z) (response : dicey_packet) : res (Z * option cstr) :=
  if negb (status =? 0) then Ok (status, None) else
  match parse_subunsub_reply E response with
  | Ok path => Ok (0, path)
  | Err e => Ok (error_code e, None)
  | Fault f => Fault f
  | OutOfFuel => OutOfFuel
  end.

Definition dicey_client_subscribe_to (path : cstr) (sel : dicey_selector) (timeout : Z) : lst nat :=
  client_subunsub_sync CLIENT_SUBSCRIBE path sel timeout.
Definition dicey_client_subscribe_to_async (path : cstr) (sel : dicey_selector) (user : nat) (timeout : Z) : lst unit :=
  client_subunsub_async CLIENT_SUBSCRIBE path sel (sub_cb user) timeout.
Definition dicey_client_unsubscribe_from (path : cstr) (sel : dicey_selector) (timeout : Z) : lst nat :=
  client_subunsub_sync CLIENT_UNSUBSCRIBE path sel timeout.
Definition dicey_client_unsubscribe_from_async (path : cstr) (sel : dicey_selector) (user : nat) (timeout : Z) : lst unit :=
  client_subunsub_async CLIENT_UNSUBSCRIBE path sel (unsub_cb user) timeout.

(** ** Runs *)

(** What happens to a client whose loop runs, one event at a time: a call of the user, the queue of
    the loop, a read, or an operation of libuv that is done. [CallSetup] is the end of
    [client_setup_async], after the loop was started. *)
Inductive client_call : Type :=
  | CallSetup (info : client_setup_info) (cb : option connect_cb)
  | CallDisconnect (cb : option disconnect_cb)
  | CallRequest (packet : dicey_packet) (cb : reply_cb) (timeout : Z).

Inductive client_input : Type :=
  | InCall (call : client_call)
  | InQueue (now : timespec)
  | InRead (r : nread)
  | InDone (k : nat) (status : option dicey_error).

Definition do_call (call : client_call) : lst unit :=
  match call with
  | CallSetup info cb => client_issue_setup info cb
  | CallDisconnect cb => dicey_client_disconnect_async cb
  | CallRequest packet cb timeout => dicey_client_request_async packet cb timeout
  end.

(** The loop after a function that returns nothing. *)
Definition after (r : res unit * client_loop) : res client_loop := let! _ := r.1 in Ok r.2.

(** The error of a call that is refused goes to the caller; one that finds the queue full waits. *)
Definition client_step (i : client_input) (s : client_loop) : res client_loop :=
  match i with
  | InCall call =>
      if bool_decide (REQUEST_QUEUE_CAP - 1 <= dicey_queue_size (queue s))%nat then Ok s else
      match do_call call s with (Err _, s') => Ok s' | r => after r end
  | InQueue now => after (client_process_queue E now s)
  | InRead r => after ((do! _ <- in_client (client_alloc_buffer E) ; client_on_read E r) s)
  | InDone k status => after (op_done E k status s)
  end.

Fixpoint client_steps (inputs : list client_input) (s : client_loop) : res client_loop :=
  match inputs with
  | [] => Ok s
  | i :: inputs' => let! s' := client_step i s in client_steps inputs' s'
  end.

End api.
