(* ===== verification/ClientInv.v ===== *)
(** * The invariant of a client

    Every task of a client that is pending or queued has its context in memory; a waiting entry
    belongs to a pending task that has sent its packet; contexts, identifiers and entries do not
    repeat. The steps and callbacks of the tasks keep this, whatever libuv, the allocator and the
    server do. *)

From S2P Require Import Prelude Errors Types Views Writer ValueWrite ValueProbe Value Codec Payload Packet.
From S2P Require Import Queue TaskList TaskLoop WaitingList Chunk Client.
From stdpp Require Import gmap list.

#[local] Open Scope Z_scope.

(** ** Packets with a well-formed payload *)

Definition packet_good (packet : dicey_packet) : Prop := exists p, payload_ok p /\ packet = packet_of p.

Lemma good_valid packet : packet_good packet -> dicey_packet_is_valid packet = true.
Proof. intros (p & Hp & ->). by apply packet_of_valid. Qed.

(** The four bytes of the sequence number. *)
Lemma payload_split p : payload_ok p -> exists a s b, p = a ++ s ++ b /\ zlen a = 4 /\ zlen s = 4 /\ 4 <= zlen b.
Proof.
  intros (_ & _ & H12 & _). change MESSAGE_HEAD_SIZE with 12 in *.
  destruct (zsplit 4 p ltac:(lia)) as (a & p' & -> & Ha). rewrite zlen_app in H12.
  destruct (zsplit 4 p' ltac:(lia)) as (s & b & -> & Hs). rewrite zlen_app in H12. exists a, s, b. split_and!; (done || lia).
Qed.

Lemma payload_ok_seq a s s' b :
  zlen a = 4 -> zlen s = 4 -> zlen s' = 4 -> bytes_ok s' -> payload_ok (a ++ s ++ b) -> payload_ok (a ++ s' ++ b).
Proof.
  intros Ha Hs Hs' Hb (Hbs & Hk & H12 & Hz).
  assert (payload_kind (a ++ s' ++ b) = payload_kind (a ++ s ++ b)) as Ek by (by rewrite !payload_kind_app by lia).
  assert (zdrop 8 (a ++ s' ++ b) = zdrop 8 (a ++ s ++ b)) as Ed.
  { rewrite !(app_assoc a). rewrite !zdrop_app_eq by (rewrite zlen_app; lia). done. }
  unfold payload_ok, payload_size in *. rewrite Ek, Ed. rewrite !zlen_app in *. split_and!; try done; try lia.
  apply Forall_app in Hbs as [H1 H2]. apply Forall_app in H2 as [_ H2]. apply bytes_ok_app; [done|]. by apply bytes_ok_app.
Qed.

Lemma get_seq_good packet : packet_good packet -> exists seq, dicey_packet_get_seq packet = Ok seq.
Proof.
  intros (p & Hp & ->). unfold dicey_packet_get_seq. rewrite packet_of_valid by done. cbn [oassert obind packet_of payload dtf_payload_get_seq].
  destruct Hp as (_ & _ & H12 & _). change MESSAGE_HEAD_SIZE with 12 in *. rewrite read_u32_ok by lia. cbn [obind]. eauto.
Qed.

Lemma set_seq_good packet seq :
  packet_good packet -> exists packet', dicey_packet_set_seq packet seq = Ok packet' /\ packet_good packet' /\
    nbytes packet' = nbytes packet /\ dicey_packet_get_seq packet' = Ok (u32 seq).
Proof.
  intros (p & Hp & ->). destruct (payload_split p Hp) as (a & s & b & -> & Ha & Hs & Hb).
  assert (payload_ok (a ++ le_bytes 4 seq ++ b)) as Hp'.
  { apply (payload_ok_seq a s); try done. apply le_bytes_ok. }
  assert (packet_of (a ++ le_bytes 4 seq ++ b) = mk_packet (Some (a ++ le_bytes 4 seq ++ b)) (zlen (a ++ s ++ b))) as Epk.
  { unfold packet_of. f_equal. rewrite !zlen_app, zlen_le_bytes. lia. }
  exists (packet_of (a ++ le_bytes 4 seq ++ b)). unfold dicey_packet_set_seq. rewrite packet_of_valid by done.
  cbn [oassert obind packet_of payload]. rewrite mem_write_seq by done. cbn [obind nbytes]. split_and!; [f_equal; exact (eq_sym Epk)|by eexists| |].
  - cbn [packet_of nbytes]. rewrite !zlen_app, zlen_le_bytes. lia.
  - unfold dicey_packet_get_seq. fold (packet_of (a ++ le_bytes 4 seq ++ b)). rewrite packet_of_valid by done.
    cbn [oassert obind packet_of payload dtf_payload_get_seq]. rewrite read_u32_ok by (autorewrite with zlen; lia).
    rewrite (zdrop_app_eq 4 a), ztake_app_eq, le_val_le_bytes by (by autorewrite with zlen). cbn [obind]. f_equal.
    unfold u32, wrap. apply Z.mod_mod. lia.
Qed.

Lemma get_kind_good packet : packet_good packet -> exists kind, dicey_packet_get_kind packet = Ok kind.
Proof.
  intros (p & Hp & ->). unfold dicey_packet_get_kind. rewrite packet_of_valid by done. cbn [oassert obind packet_of payload].
  rewrite get_kind_ok by done. cbn [obind]. destruct Hp as (_ & Hk & _). destruct (payload_kind p); try done; cbn; eauto.
Qed.

(** A packet, and the value of its message, can be examined. *)
Lemma as_message_good packet :
  packet_good packet ->
  (exists m, dicey_packet_as_message packet = Ok m /\ (msg_value m = zero_value \/ exists n, value_ok n (msg_value m))) \/
  (exists e, dicey_packet_as_message packet = Err e).
Proof. intros (p & Hp & ->). destruct (as_message_cases p Hp) as [(m & E & H)|H]; [left|by right]. exists m. destruct H; eauto. Qed.

Lemma as_bye_good packet :
  packet_good packet -> (exists r, dicey_packet_as_bye packet = Ok r) \/ (exists e, dicey_packet_as_bye packet = Err e).
Proof. intros (p & Hp & ->). by apply as_bye_cases. Qed.

Lemma hello_good alloc_ok seq version : (forall n, alloc_ok n = true) ->
  exists packet, dicey_packet_hello alloc_ok seq version = Ok packet /\ packet_good packet /\ nbytes packet = 12.
Proof.
  intros Ha. eexists. split; [by apply (packet_from_fixed_ok alloc_ok DTF_PAYLOAD_HELLO)|]. split; [|apply zlen_head3].
  eexists. split; [|done]. apply payload_ok_fixed. by left.
Qed.

Lemma bye_good alloc_ok seq : (forall n, alloc_ok n = true) ->
  exists packet, dicey_packet_bye alloc_ok seq DICEY_BYE_REASON_SHUTDOWN = Ok packet /\ packet_good packet.
Proof.
  intros Ha. eexists. split; [by apply (packet_from_fixed_ok alloc_ok DTF_PAYLOAD_BYE)|].
  eexists. split; [|done]. apply payload_ok_fixed. by right.
Qed.

(** Loading gives such packets. *)
Lemma load_good alloc_ok fuel bs packet :
  bytes_ok bs -> (dicey_packet_load alloc_ok fuel (vw bs [])).1 = Ok packet -> packet_good packet.
Proof.
  intros Hb. rewrite packet_load_eq by done. destruct (payload_load_spec alloc_ok bs) as [p|e|f|] eqn:E; try done.
  destruct (payload_load_ok _ _ _ Hb E) as (Hp & _). destruct (as_bad_message _); try done. intros [= <-]. by exists p.
Qed.

(** Loading never goes wrong, whatever the bytes. *)
Lemma load_tame alloc_ok fuel bs :
  bytes_ok bs -> match (dicey_packet_load alloc_ok fuel (vw bs [])).1 with Fault _ => False | _ => True end.
Proof.
  intros Hb. rewrite packet_load_eq by done. destruct (payload_load_spec alloc_ok bs) as [p|e|f|] eqn:E; try done.
  - destruct (payload_load_ok _ _ _ Hb E) as (Hp & _). pose proof (validate_packet_safe fuel p Hp) as Hs.
    by destruct (as_bad_message _).
  - unfold payload_load_spec in E. repeat case_match; discriminate E.
Qed.

(** ** Runs of client code

    [wp m Q c]: running [m] on [c] gives a result and a client with [Q], or fails an assertion. *)

Definition wp {A} (m : cst A) (Q : A -> dicey_client -> Prop) (c : dicey_client) : Prop :=
  match m c with (Ok a, c') => Q a c' | (Fault AssertFailed, _) => True | _ => False end.

Lemma wp_bind {A B} (m : cst A) (k : A -> cst B) Q c : wp m (fun a => wp (k a) Q) c -> wp (sbind m k) Q c.
Proof. unfold wp, sbind. destruct (m c) as [[a|e|[]|] c']; auto. Qed.

Lemma wp_mono {A} (m : cst A) (P Q : A -> dicey_client -> Prop) c : wp m P c -> (forall a c', P a c' -> Q a c') -> wp m Q c.
Proof. unfold wp. destruct (m c) as [[a|e|[]|] c']; auto. Qed.

Lemma wp_assoc {A B D} (m : cst A) (k : A -> cst B) (h : B -> cst D) Q c :
  wp (sbind (sbind m k) h) Q c -> wp (sbind m (fun a => sbind (k a) h)) Q c.
Proof. unfold wp. by rewrite sbind_assoc. Qed.

Lemma wp_assert b Q c : (b = true -> Q tt c) -> wp (sassert b) Q c.
Proof. destruct b; cbn; auto. Qed.

(** The part of a client that the invariant is about. *)
Record same (c c' : dicey_client) : Prop := {
  same_waiting : waiting_tasks c' = waiting_tasks c; same_ctxs : cl_ctxs c' = cl_ctxs c; same_packet : cl_packet c' = cl_packet c;
  same_chunk : recv_chunk c' = recv_chunk c; same_freed : cl_freed c' = cl_freed c; same_next : (cl_next c <= cl_next c')%nat;
}.

#[export] Instance same_preorder : PreOrder same.
Proof.
  split; [intros c; by constructor|]. intros c1 c2 c3 [H1 H2 H3 H4 H5 H6] [K1 K2 K3 K4 K5 K6]. constructor; congruence || lia.
Qed.

(** Code that does not touch it. *)
Definition inert {A} (m : cst A) : Prop := forall c, wp m (fun _ c' => same c c') c.

Lemma inert_bind {A B} (m : cst A) (k : A -> cst B) : inert m -> (forall a, inert (k a)) -> inert (sbind m k).
Proof.
  intros Hm Hk c. apply wp_bind. eapply wp_mono; [apply Hm|]. intros a c' H. eapply wp_mono; [apply Hk|].
  intros b c'' H'. by transitivity c'.
Qed.

Lemma inert_ret {A} (a : A) : inert (sret a).
Proof. intros c. by cbn. Qed.
Lemma inert_get : inert (A := dicey_client) sget.
Proof. intros c. by cbn. Qed.
Lemma inert_assert b : inert (sassert b).
Proof. intros c. by apply wp_assert. Qed.
Lemma inert_upd f : (forall c, same c (f c)) -> inert (upd f).
Proof. intros H c. apply H. Qed.
Lemma inert_tick : inert tick.
Proof. intros c. cbn. constructor; cbn; (done || lia). Qed.

Create HintDb inert.
#[export] Hint Resolve inert_ret inert_get inert_assert inert_tick : inert.

(** Code made of binds, cases and inert parts. *)
Ltac inert_auto :=
  repeat first
    [ solve [eauto with inert]
    | apply inert_bind; [|intros ?]
    | apply inert_upd; intros ?; constructor; cbn; (done || lia)
    | progress cbv zeta
    | case_match ].

(** ** The invariant *)

Definition ctx_addr (ptr : ctx_ptr) : nat := match ptr with connect_ptr a | disconnect_ptr a | request_ptr a => a end.

(** A packet that is not valid was taken over by somebody else. *)
Definition packet_weak (packet : dicey_packet) : Prop := dicey_packet_is_valid packet = false \/ packet_good packet.

(** The callback of a subscription agrees with its operation. *)
Definition reply_ok (cb : reply_cb) : Prop :=
  match cb with
  | subunsub_cb (mk_subunsub CLIENT_SUBSCRIBE (sub_cb _)) | subunsub_cb (mk_subunsub CLIENT_UNSUBSCRIBE (unsub_cb _)) => True
  | subunsub_cb _ => False
  | _ => True
  end.

Definition kind_ok (ptr : ctx_ptr) (x : client_ctx) : Prop :=
  match ptr, x with
  | connect_ptr _, connect_context _ _ _ | disconnect_ptr _, disconnect_context _ _ => True
  | request_ptr _, request_context request response cb =>
      packet_good request /\ packet_weak response /\ match cb with Some cb => reply_ok cb | None => True end
  | _, _ => False
  end.

(** The context of a task is in memory. *)
Definition task_live (ctxs : gmap nat client_ctx) (t : option (ctx_ptr * nat)) : Prop :=
  exists ptr n x, t = Some (ptr, n) /\ ctxs !! ctx_addr ptr = Some x /\ kind_ok ptr x.

Definition task_addr (t : option (ctx_ptr * nat)) : nat := match t with Some (ptr, _) => ctx_addr ptr | None => O end.

Abbreviation pending_t := (list (Z * option (ctx_ptr * nat))).
Abbreviation queued_t := (list (option (ctx_ptr * nat))).

Record client_ok (U : list nat) (P : pending_t) (Q : queued_t) (c : dicey_client) : Prop := {
  k_array : array_ok (waiting_tasks c);
  k_ids : forall id, id ∈ P.*1 -> 0 <= id < 2 ^ 61;
  k_uniq : NoDup P.*1;
  k_entries : NoDup (waiting_id <$> array_values (waiting_tasks c));
  k_waits : forall id, id ∈ waiting_id <$> array_values (waiting_tasks c) -> exists ptr n, (id, Some (ptr, n)) ∈ P /\ (n <= 1)%nat;
  k_live : Forall (task_live (cl_ctxs c)) (P.*2 ++ Q);
  k_distinct : NoDup (task_addr <$> P.*2 ++ Q);
  k_fresh : forall a, is_Some (cl_ctxs c !! a) -> (a < cl_next c)%nat;
  k_tasks : forall t, t ∈ U -> (t < cl_next c)%nat;
  k_packet : packet_weak (cl_packet c);
  k_chunk : match recv_chunk c with Some k => bytes_ok (ck_bytes k) | None => True end;
  k_alive : cl_freed c = false;
  k_noleak : forall a, is_Some (cl_ctxs c !! a) -> a ∈ task_addr <$> P.*2 ++ Q;
}.

Lemma ok_same U P Q c c' : client_ok U P Q c -> same c c' -> client_ok U P Q c'.
Proof.
  intros [H1 H2 H3 H4 H5 H6 H7 H8 H9 H10 H11 H12 H13] [K1 K2 K3 K4 K5 K6]. constructor; rewrite ?K1, ?K2, ?K3, ?K4, ?K5; try done.
  - intros a Ha. apply H8 in Ha. lia.
  - intros t Ht. apply H9 in Ht. lia.
Qed.

(** Fewer steps are left. *)
Lemma ok_stage U b id ptr n m a Q c :
  client_ok U (b ++ (id, Some (ptr, n)) :: a) Q c -> (m <= n)%nat -> client_ok U (b ++ (id, Some (ptr, m)) :: a) Q c.
Proof.
  intros [H1 H2 H3 H4 H5 H6 H7 H8 H9 H10 H11 H12 H13] Hm. rewrite !fmap_app, !fmap_cons in *. constructor; rewrite ?fmap_app, ?fmap_cons; try done.
  - intros i Hi. destruct (H5 i Hi) as (p' & n' & Hin & Hn). apply elem_of_app in Hin as [Hin|Hin].
    + exists p', n'. split; [apply elem_of_app; by left|done].
    + apply elem_of_cons in Hin as [[= -> -> ->]|Hin].
      * exists ptr, m. split; [apply elem_of_app; right; by left|lia].
      * exists p', n'. split; [apply elem_of_app; right; by right|done].
  - revert H6. rewrite !Forall_app, !Forall_cons. intros ((Hb & (p & k & x & [= <- <-] & Hx) & Ha) & Hq). split_and!; try done.
    by exists ptr, m, x.
Qed.

Lemma ok_context U b id ptr n a Q c :
  client_ok U (b ++ (id, Some (ptr, n)) :: a) Q c -> exists x, cl_ctxs c !! ctx_addr ptr = Some x /\ kind_ok ptr x.
Proof.
  intros H. pose proof (k_live _ _ _ _ H) as Hl. rewrite fmap_app, fmap_cons, !Forall_app, !Forall_cons in Hl.
  destruct Hl as ((_ & (p & k & x & [= <- <-] & Hx) & _) & _). by exists x.
Qed.

(** The context of a task is changed. *)
Lemma ok_write U b id ptr n a Q c x :
  client_ok U (b ++ (id, Some (ptr, n)) :: a) Q c -> kind_ok ptr x ->
  client_ok U (b ++ (id, Some (ptr, n)) :: a) Q (set_ctxs (<[ctx_addr ptr := x]> (cl_ctxs c)) c).
Proof.
  intros Hok Hx. destruct (ok_context _ _ _ _ _ _ _ _ Hok) as (y & Hy & _). destruct Hok as [H1 H2 H3 H4 H5 H6 H7 H8 H9 H10 H11 H12 H13].
  constructor; cbn; try done.
  - apply Forall_forall. rewrite Forall_forall in H6. intros t Ht. destruct (H6 t Ht) as (p & k & z & -> & Hz & Hk).
    destruct (decide (ctx_addr p = ctx_addr ptr)) as [Ea|Ea]; [|by exists p, k, z; rewrite lookup_insert_ne by done].
    assert (p = ptr) as ->.
    { apply list_elem_of_lookup in Ht as [i Hi]. assert (Some (ptr, n) ∈ (b ++ (id, Some (ptr, n)) :: a).*2 ++ Q) as Hin.
      { rewrite fmap_app, fmap_cons. cbn. clear. set_solver. }
      apply list_elem_of_lookup in Hin as [j Hj].
      assert (i = j) as ->; [|congruence].
      eapply NoDup_lookup; [exact H7| |]; rewrite list_lookup_fmap; [by rewrite Hi|rewrite Hj; cbn; by rewrite Ea]. }
    exists ptr, k, x. by rewrite lookup_insert_eq.
  - intros z Hz. destruct (decide (z = ctx_addr ptr)) as [->|Hne]; [by apply H8; eauto|]. rewrite lookup_insert_ne in Hz by done. by apply H8.
  - intros z Hz. apply H13. destruct (decide (z = ctx_addr ptr)) as [->|Hne]; [by eauto|]. by rewrite lookup_insert_ne in Hz.
Qed.

(** The task has sent its packet and waits for the answer. *)
Definition registered (seq id : Z) (c c' : dicey_client) : Prop :=
  exists ptr, array_ok ptr /\ array_values ptr = array_values (waiting_tasks c) ++ [mk_waiting seq id] /\ same (set_waiting ptr c) c'.

Lemma ok_registered U b id ptr n a Q c seq c' :
  client_ok U (b ++ (id, Some (ptr, S (S n))) :: a) Q c -> registered seq id c c' -> client_ok U (b ++ (id, Some (ptr, 1%nat)) :: a) Q c'.
Proof.
  intros Hok (wp & Hwp & Hel & Hs). eapply ok_same; [|exact Hs]. clear Hs.
  assert (id ∉ waiting_id <$> array_values (waiting_tasks c)) as Hnew.
  { intros Hin. destruct (k_waits _ _ _ _ Hok id Hin) as (p & m & Hm & Hle). pose proof (k_uniq _ _ _ _ Hok) as Hu.
    apply list_elem_of_lookup in Hm as [i Hi].
    assert ((b ++ (id, Some (ptr, S (S n))) :: a) !! length b = Some (id, Some (ptr, S (S n)))) as Hj by (by apply list_lookup_middle).
    assert (i = length b) as ->.
    { eapply NoDup_lookup; [exact Hu| |]; rewrite list_lookup_fmap; [by rewrite Hi|by rewrite Hj]. }
    rewrite Hj in Hi. injection Hi as <- <-. lia. }
  pose proof (ok_stage _ _ _ _ _ 1 _ _ _ Hok ltac:(lia)) as [H1 H2 H3 H4 H5 H6 H7 H8 H9 H10 H11 H12 H13].
  constructor; cbn [waiting_tasks set_waiting cl_ctxs cl_next cl_packet recv_chunk]; try done.
  - rewrite Hel, fmap_app. apply NoDup_app. split_and!; [done| |apply NoDup_singleton]. intros i Hi ->%list_elem_of_singleton. done.
  - intros i. rewrite Hel, fmap_app. intros [Hi|Hi]%elem_of_app; [by apply H5|]. apply list_elem_of_singleton in Hi as ->.
    exists ptr, 1%nat. split; [apply elem_of_app; right; by left|done].
Qed.

(** The entries of the other tasks stay, whatever happens to that of the task itself. *)
Lemma ok_unregister U P Q c ptr :
  client_ok U P Q c -> array_ok ptr -> NoDup (waiting_id <$> array_values ptr) ->
  (forall id, id ∈ waiting_id <$> array_values ptr -> id ∈ waiting_id <$> array_values (waiting_tasks c)) ->
  client_ok U P Q (set_waiting ptr c).
Proof. intros [H1 H2 H3 H4 H5 H6 H7 H8 H9 H10 H11 H12 H13] Ha Hn Hsub. constructor; cbn; try done. intros id Hi. by apply H5, Hsub. Qed.

(** A task that is neither pending nor queued any more loses its context. *)
Lemma live_delete ctxs addr (l : queued_t) :
  Forall (task_live ctxs) l -> addr ∉ task_addr <$> l -> Forall (task_live (delete addr ctxs)) l.
Proof.
  rewrite !Forall_forall. intros Hl Hn t Ht. destruct (Hl t Ht) as (p & k & x & -> & Hx & Hk). exists p, k, x. split_and!; try done.
  rewrite lookup_delete_ne; [done|]. intros Ea. apply Hn. rewrite Ea. by apply (list_elem_of_fmap_2 task_addr _ (Some (p, k))).
Qed.

Lemma deleted_some (m : gmap nat client_ctx) a x : is_Some (delete a m !! x) -> x <> a /\ is_Some (m !! x).
Proof. destruct (decide (x = a)) as [->|Hne]; [rewrite lookup_delete_eq; by intros []|]. by rewrite lookup_delete_ne. Qed.

Lemma ok_end U b id ptr n a Q c :
  client_ok U (b ++ (id, Some (ptr, n)) :: a) Q c -> id ∉ waiting_id <$> array_values (waiting_tasks c) ->
  client_ok U (b ++ a) Q (set_ctxs (delete (ctx_addr ptr) (cl_ctxs c)) c).
Proof.
  intros [H1 H2 H3 H4 H5 H6 H7 H8 H9 H10 H11 H12 H13] Hid.
  assert ((b ++ (id, Some (ptr, n)) :: a).*2 ++ Q ≡ₚ Some (ptr, n) :: (b ++ a).*2 ++ Q) as Hp2.
  { rewrite !fmap_app, fmap_cons. cbn. solve_Permutation. }
  assert ((b ++ (id, Some (ptr, n)) :: a).*1 ≡ₚ id :: (b ++ a).*1) as Hp1.
  { rewrite !fmap_app, fmap_cons. cbn. solve_Permutation. }
  rewrite Hp2 in H6, H7. rewrite Hp1 in H3. apply NoDup_cons in H3 as [Hnin H3]. apply Forall_cons in H6 as [_ H6].
  cbn [fmap list_fmap task_addr] in H7. apply NoDup_cons in H7 as [Haddr H7].
  constructor; cbn; try done.
  - intros i Hi. apply H2. rewrite Hp1. by right.
  - intros i Hi. destruct (H5 i Hi) as (p & m & Hm & Hle). exists p, m. split; [|done].
    apply elem_of_app in Hm as [Hm|Hm]; [apply elem_of_app; by left|]. apply elem_of_cons in Hm as [[= -> -> ->]|Hm]; [done|].
    apply elem_of_app; by right.
  - by apply live_delete.
  - intros x Hx. by eapply H8, deleted_some.
  - intros x [Hne Hx]%deleted_some. specialize (H13 x Hx). rewrite Hp2 in H13. cbn [fmap list_fmap task_addr] in H13.
    by apply elem_of_cons in H13 as [->|?].
Qed.

Lemma ok_end_queued U P ptr n Q c :
  client_ok U P (Some (ptr, n) :: Q) c -> client_ok U P Q (set_ctxs (delete (ctx_addr ptr) (cl_ctxs c)) c).
Proof.
  intros [H1 H2 H3 H4 H5 H6 H7 H8 H9 H10 H11 H12 H13].
  assert (P.*2 ++ Some (ptr, n) :: Q ≡ₚ Some (ptr, n) :: P.*2 ++ Q) as Hp2 by solve_Permutation.
  rewrite Hp2 in H6, H7. apply Forall_cons in H6 as [_ H6]. cbn [fmap list_fmap task_addr] in H7. apply NoDup_cons in H7 as [Haddr H7].
  constructor; cbn; try done; [by apply live_delete| |].
  - intros x Hx. by eapply H8, deleted_some.
  - intros x [Hne Hx]%deleted_some. specialize (H13 x Hx). rewrite Hp2 in H13. cbn [fmap list_fmap task_addr] in H13.
    by apply elem_of_cons in H13 as [->|?].
Qed.

(** A queued task is given an identifier. *)
Lemma ok_start U P Q t id c :
  client_ok U P (t :: Q) c -> id ∉ P.*1 -> 0 <= id < 2 ^ 61 -> client_ok U (P ++ [(id, t)]) Q c.
Proof.
  intros [H1 H2 H3 H4 H5 H6 H7 H8 H9 H10 H11 H12 H13] Hn Hid. constructor; try done.
  - intros i. rewrite fmap_app. intros [Hi|Hi]%elem_of_app; [by apply H2|]. by apply list_elem_of_singleton in Hi as ->.
  - rewrite fmap_app. apply NoDup_app. split_and!; [done| |apply NoDup_singleton]. intros i Hi ->%list_elem_of_singleton. done.
  - intros i Hi. destruct (H5 i Hi) as (p & m & Hm & Hle). exists p, m. split; [apply elem_of_app; by left|done].
  - by rewrite (fmap_app snd), <- app_assoc.
  - by rewrite (fmap_app snd), <- app_assoc.
  - by rewrite (fmap_app snd), <- app_assoc.
Qed.

(** A new task, with a new context. *)
Lemma ok_submit U P Q c t addr ptr n x :
  client_ok U P Q c -> ctx_addr ptr = addr -> kind_ok ptr x -> cl_ctxs c !! addr = None -> (addr < cl_next c)%nat -> (t < cl_next c)%nat ->
  client_ok (U ++ [t]) P (Q ++ [Some (ptr, n)]) (set_ctxs (<[addr := x]> (cl_ctxs c)) c).
Proof.
  intros [H1 H2 H3 H4 H5 H6 H7 H8 H9 H10 H11 H12 H13] <- Hk Hnone Ha Ht.
  assert (ctx_addr ptr ∉ task_addr <$> P.*2 ++ Q) as Hnew.
  { intros (o & Eo & Ho)%list_elem_of_fmap. rewrite Forall_forall in H6. destruct (H6 o Ho) as (p & m & y & -> & Hy & _). cbn in Eo. congruence. }
  constructor; cbn; try done.
  - rewrite app_assoc, Forall_app, Forall_singleton. split; [|by exists ptr, n, x; rewrite lookup_insert_eq].
    rewrite Forall_forall in *. intros o Ho. destruct (H6 o Ho) as (p & m & y & -> & Hy & Hky). exists p, m, y. split_and!; try done.
    rewrite lookup_insert_ne; [done|]. congruence.
  - rewrite app_assoc, fmap_app. apply NoDup_app. split_and!; [done| |apply NoDup_singleton]. intros i Hi ->%list_elem_of_singleton. done.
  - intros y Hy. destruct (decide (y = ctx_addr ptr)) as [->|Hne]; [done|]. rewrite lookup_insert_ne in Hy by done. by apply H8.
  - intros y [Hy|Hy]%elem_of_app; [by apply H9|]. by apply list_elem_of_singleton in Hy as ->.
  - intros y Hy. rewrite app_assoc, fmap_app. apply elem_of_app. destruct (decide (y = ctx_addr ptr)) as [->|Hne]; [right; by left|].
    left. rewrite lookup_insert_ne in Hy by done. by apply H13.
Qed.

Section invariant.
Context (E : client_env).
Hypothesis memory : forall n, ce_block_ok E n = true.

Lemma inert_malloc : inert (malloc E).
Proof. unfold malloc. inert_auto. Qed.
Lemma inert_uv_call : inert (uv_call E).
Proof. unfold uv_call. inert_auto. Qed.
Lemma inert_active : inert (uv_is_active E).
Proof. unfold uv_is_active. inert_auto. Qed.
#[local] Hint Resolve inert_malloc inert_uv_call inert_active : inert.

Lemma inert_log e : inert (log e).
Proof. unfold log. inert_auto. Qed.
Lemma inert_add_op op : inert (add_op op).
Proof. unfold add_op. inert_auto. Qed.
Lemma inert_error_new e : inert (dicey_task_error_new E e).
Proof. unfold dicey_task_error_new. inert_auto. Qed.
Lemma inert_set_state st : inert (client_set_state st).
Proof. unfold client_set_state. inert_auto. Qed.
#[local] Hint Resolve inert_log inert_add_op inert_error_new inert_set_state : inert.

Lemma inert_fail e : inert (dicey_task_fail E e).
Proof. unfold dicey_task_fail. inert_auto. Qed.
Lemma inert_process_event ev : inert (client_process_event_va ev).
Proof. unfold client_process_event_va, error_event. inert_auto. Qed.
#[local] Hint Resolve inert_fail inert_process_event : inert.

Lemma inert_event ev : inert (client_event ev).
Proof. unfold client_event. inert_auto. Qed.
Lemma inert_write id buf packet policy : inert (perform_write E id buf packet policy).
Proof. unfold perform_write. inert_auto. Qed.
Lemma inert_uv_close : inert uv_close.
Proof. unfold uv_close. inert_auto. Qed.
Lemma inert_pipe_init : inert (pipe_init E).
Proof. unfold pipe_init. inert_auto. Qed.
#[local] Hint Resolve inert_event inert_write inert_uv_close inert_pipe_init : inert.

Lemma inert_op_close id : inert (dicey_task_op_close E id).
Proof. unfold dicey_task_op_close. inert_auto. Qed.
Lemma inert_connect_pipe id addr : inert (dicey_task_op_connect_pipe E id addr).
Proof. unfold dicey_task_op_connect_pipe. inert_auto. Qed.
Lemma inert_open_pipe fd : inert (dicey_task_op_open_pipe E fd).
Proof. unfold dicey_task_op_open_pipe. inert_auto. Qed.
Lemma inert_oneshot id buf packet : inert (client_task_send_oneshot E id buf packet).
Proof. unfold client_task_send_oneshot, dicey_task_op_write. inert_auto. Qed.
Lemma inert_report_error err : inert (report_error err).
Proof. unfold report_error. inert_auto. Qed.
Lemma inert_in_state st : inert (in_state st).
Proof. unfold in_state. inert_auto. Qed.
Lemma inert_from_start : inert from_connect_start.
Proof. unfold from_connect_start. inert_auto. Qed.
#[local] Hint Resolve inert_op_close inert_connect_pipe inert_open_pipe inert_oneshot inert_report_error inert_in_state inert_from_start : inert.

Lemma inert_reset_seq : inert client_reset_seq.
Proof. unfold client_reset_seq. inert_auto. Qed.
#[local] Hint Resolve inert_reset_seq : inert.
Lemma inert_next_seq : inert client_next_seq.
Proof. unfold client_next_seq. inert_auto. Qed.
Lemma inert_start_read : inert (client_start_read E).
Proof. unfold client_start_read. inert_auto. Qed.
#[local] Hint Resolve inert_next_seq inert_start_read : inert.

(** Inert code with a property of its result. *)
Definition gives {A} (R : A -> Prop) (m : cst A) : Prop := forall c, wp m (fun a c' => R a /\ same c c') c.

Lemma gives_bind {A B} (R : B -> Prop) (m : cst A) (k : A -> cst B) : inert m -> (forall a, gives R (k a)) -> gives R (sbind m k).
Proof.
  intros Hm Hk c. apply wp_bind. eapply wp_mono; [apply Hm|]. intros a c' H. eapply wp_mono; [apply Hk|].
  intros b c'' [Hr H']. split; [done|]. by transitivity c'.
Qed.

Lemma gives_ret {A} (R : A -> Prop) a : R a -> gives R (sret a).
Proof. intros H c. by cbn. Qed.

(** What a step with [n] steps after it may answer. *)
Definition answer_ok (n : nat) (result : dicey_task_result) : Prop :=
  match result with DICEY_TASK_RETRY => False | DICEY_TASK_NEXT => n <> O | _ => True end.

Lemma gives_fail n e : gives (answer_ok n) (dicey_task_fail E e).
Proof. unfold dicey_task_fail. apply gives_bind; [auto with inert|]. intros err. by apply gives_ret. Qed.

Lemma gives_of n err ok : answer_ok n ok -> gives (answer_ok n) (sret (task_result_of err ok)).
Proof. intros H. apply gives_ret. by destruct err. Qed.

Ltac gives_auto :=
  repeat first
    [ apply gives_fail
    | apply gives_of; done
    | apply gives_ret; done
    | apply gives_bind; [solve [inert_auto]|intros ?]
    | progress cbv zeta
    | case_match ].

(** The invariant after a step. *)
Definition stepped_ok U b id ptr n a Q (result : dicey_task_result) (c' : dicey_client) : Prop :=
  match result with
  | DICEY_TASK_CONTINUE => client_ok U (b ++ (id, Some (ptr, n)) :: a) Q c'
  | DICEY_TASK_NEXT => n <> O /\ client_ok U (b ++ (id, Some (ptr, n)) :: a) Q c'
  | DICEY_TASK_ERROR error => (is_Some error \/ True) /\ client_ok U (b ++ (id, Some (ptr, S n)) :: a) Q c'
  | DICEY_TASK_RETRY => False
  end.

Lemma stepped_same U b id ptr n a Q c result c' :
  client_ok U (b ++ (id, Some (ptr, S n)) :: a) Q c -> answer_ok n result /\ same c c' -> stepped_ok U b id ptr n a Q result c'.
Proof.
  intros Hok [Ha Hs]. pose proof (ok_same _ _ _ _ _ Hok Hs) as Hok'. pose proof (ok_stage _ _ _ _ _ n _ _ _ Hok' ltac:(lia)) as Hok''.
  destruct result; cbn; try done; by eauto.
Qed.

Lemma wp_gives U b id ptr n a Q c m :
  client_ok U (b ++ (id, Some (ptr, S n)) :: a) Q c -> gives (answer_ok n) m -> wp m (stepped_ok U b id ptr n a Q) c.
Proof. intros Hok Hm. eapply wp_mono; [apply Hm|]. intros result c' H. by eapply stepped_same. Qed.

Lemma wp_ctx_read addr x Q c : cl_ctxs c !! addr = Some x -> Q x c -> wp (ctx_read addr) Q c.
Proof. intros Hx HQ. unfold wp, ctx_read. by rewrite Hx. Qed.

Lemma wp_inert {A} (m : cst A) Q c : inert m -> (forall a c', same c c' -> Q a c') -> wp m Q c.
Proof. intros Hm HQ. eapply wp_mono; [apply Hm|]. auto. Qed.

Lemma wp_attempt {A} (r : res A) Q c :
  match r with Ok a => Q (inr a) c | Err e => Q (inl e) c | Fault AssertFailed => True | _ => False end -> wp (attempt r) Q c.
Proof. unfold wp, attempt, slift. by destruct r as [|e|[]|]. Qed.

(** A step of a task is its body. *)
Lemma step_body cast f ptr addr n :
  cast ptr = Some addr ->
  (forall U b id a Q input c, client_ok U (b ++ (id, Some (ptr, S n)) :: a) Q c -> wp (f addr id input) (stepped_ok U b id ptr n a Q) c) ->
  step_ok client_ok True ptr n (step cast f).
Proof.
  intros Hc Hf U b a Q id input c Hok _. unfold step. rewrite Hc. specialize (Hf U b id a Q input c Hok). unfold wp in Hf. unfold run.
  destruct (f addr id input c) as [[result|e|[]|] c']; done.
Qed.

Lemma send_and_queue_spec id seq buf packet c :
  0 <= id < 2 ^ 61 -> array_ok (waiting_tasks c) ->
  wp (client_task_send_and_queue E id seq buf packet) (fun r c' => same c c' \/ (r = None /\ registered seq id c c')) c.
Proof.
  intros Hid Ha. unfold client_task_send_and_queue. apply wp_bind, wp_assert. intros _. apply wp_bind.
  apply wp_inert; [unfold dicey_task_op_write_and_wait; auto with inert|]. intros r c1 Hs. destruct r as [e|]; [by left|].
  apply wp_bind. cbn [sget wp]. apply wp_bind. cbn [slift wp].
  rewrite <- (same_waiting _ _ Hs) in Ha. assert (u64 id = id) as -> by (apply Z.mod_small; lia).
  destruct (append_ok WAITING_TASK_SIZE (ce_block_ok E) (waiting_tasks c1) (mk_waiting seq id) Ha)
    as [(ptr & Eq & Hok & Hv)|[[_ Eq]|[[n Hn] _]]]; [| |by rewrite memory in Hn].
  - unfold dicey_waiting_list_append. rewrite Eq. apply wp_bind. cbn [upd wp sret]. right. split; [done|].
    exists ptr. rewrite Hv, (same_waiting _ _ Hs). split_and!; try done. destruct Hs. by constructor.
  - unfold dicey_waiting_list_append. rewrite Eq. apply wp_bind. cbn [upd wp]. apply wp_inert; [auto with inert|].
    intros r c2 Hs2. left. transitivity c1; [done|]. transitivity (set_waiting (waiting_tasks c1) c1); [by constructor|done].
Qed.

(** After a packet was sent and its answer is expected. *)
Lemma sent_ok U b id ptr a Q c err c' seq :
  client_ok U (b ++ (id, Some (ptr, 2%nat)) :: a) Q c -> same c c' \/ (err = None /\ registered seq id c c') ->
  stepped_ok U b id ptr 1 a Q (task_result_of err DICEY_TASK_CONTINUE) c'.
Proof.
  intros Hok [Hs|[-> Hr]].
  - eapply stepped_same; [exact Hok|]. by destruct err.
  - cbn. by eapply ok_registered.
Qed.

Lemma id_bound U b id ptr n a Q c : client_ok U (b ++ (id, Some (ptr, n)) :: a) Q c -> 0 <= id < 2 ^ 61.
Proof. intros H. apply (k_ids _ _ _ _ H). rewrite fmap_app, fmap_cons. clear. set_solver. Qed.

(** *** Steps *)

Lemma issue_connect_ok addr : step_ok client_ok True (connect_ptr addr) 2 (step as_connect (issue_connect E)).
Proof.
  apply (step_body _ _ _ addr); [done|]. intros U b id a Q input c Hok. destruct (ok_context _ _ _ _ _ _ _ _ Hok) as (x & Hx & Hk).
  unfold issue_connect. apply wp_bind, wp_assert. intros _. apply wp_bind, (wp_ctx_read _ x); [done|]. apply wp_gives; [done|].
  destruct x as [info hello cb| |]; [|done..]. gives_auto.
Qed.

Lemma send_first_hello_ok addr : step_ok client_ok True (connect_ptr addr) 1 (step as_connect (send_first_hello E)).
Proof.
  apply (step_body _ _ _ addr); [done|]. intros U b id a Q input c Hok. destruct (ok_context _ _ _ _ _ _ _ _ Hok) as (x & Hx & Hk).
  unfold send_first_hello. apply wp_bind, wp_assert. intros _. apply wp_bind, (wp_ctx_read _ x); [done|].
  destruct x as [info hello cb| |]; [|done..]. apply wp_bind, wp_inert; [auto with inert|]. intros err c1 Hs1.
  pose proof (ok_same _ _ _ _ _ Hok Hs1) as Hok1. destruct err as [e|]; [apply wp_gives; [done|gives_auto]|].
  apply wp_bind, wp_attempt. destruct (hello_good (ce_block_ok E) 0 DICEY_PROTO_VERSION_CURRENT memory) as (packet & -> & _).
  apply wp_bind. cbn [ctx_write upd wp]. pose proof (ok_write _ _ _ _ _ _ _ _ (connect_context info packet cb) Hok1 I) as Hok2. cbn [ctx_addr] in Hok2.
  apply wp_bind, wp_inert; [auto with inert|]. intros _ c3 Hs3. pose proof (ok_same _ _ _ _ _ Hok2 Hs3) as Hok3.
  apply wp_bind. eapply wp_mono; [apply send_and_queue_spec; [by eapply id_bound|by apply Hok3]|]. intros err c4 H4.
  pose proof (sent_ok _ _ _ _ _ _ _ _ _ _ Hok3 H4) as Hst. destruct err as [e|]; [by cbn in *; eauto|].
  cbn [task_result_of stepped_ok] in Hst. apply wp_bind, wp_inert; [auto with inert|]. intros _ c5 Hs5. cbn. by eapply ok_same.
Qed.

Lemma kind_of_weak packet :
  packet_weak packet ->
  match dicey_packet_get_seq packet with
  | Ok _ => exists kind, dicey_packet_get_kind packet = Ok kind
  | Err _ => True
  | Fault AssertFailed => True
  | _ => False
  end.
Proof.
  intros [Hv|Hg].
  - unfold dicey_packet_get_seq. by rewrite Hv.
  - destruct (get_seq_good packet Hg) as [seq ->]. by apply get_kind_good.
Qed.

Lemma verify_and_finish_connect_ok addr : step_ok client_ok True (connect_ptr addr) 0 (step as_connect (verify_and_finish_connect E)).
Proof.
  apply (step_body _ _ _ addr); [done|]. intros U b id a Q input c Hok. destruct (ok_context _ _ _ _ _ _ _ _ Hok) as (x & Hx & Hk).
  unfold verify_and_finish_connect. apply wp_bind, wp_assert. intros _. apply wp_bind, (wp_ctx_read _ x); [done|].
  apply wp_bind. cbn [sget wp]. apply wp_bind, wp_attempt. pose proof (kind_of_weak _ (k_packet _ _ _ _ Hok)) as Hw.
  destruct (dicey_packet_get_seq (cl_packet c)) as [seq|e|[]|]; try done; [|apply wp_gives; [done|gives_auto]].
  destruct Hw as [kind Hkind]. apply wp_bind. rewrite Hkind. cbn [slift wp]. apply wp_gives; [done|]. gives_auto.
Qed.

Lemma send_bye_ok addr : step_ok client_ok True (disconnect_ptr addr) 2 (step as_disconnect (send_bye E)).
Proof.
  apply (step_body _ _ _ addr); [done|]. intros U b id a Q input c Hok. destruct (ok_context _ _ _ _ _ _ _ _ Hok) as (x & Hx & Hk).
  unfold send_bye. apply wp_bind, (wp_ctx_read _ x); [done|]. destruct x as [|bye cb|]; [done| |done].
  apply wp_bind, wp_inert; [auto with inert|]. intros started c1 Hs1. apply wp_bind, wp_assert. intros _.
  apply wp_bind, wp_inert; [auto with inert|]. intros active c2 Hs2. pose proof (ok_same _ _ _ _ _ (ok_same _ _ _ _ _ Hok Hs1) Hs2) as Hok2.
  destruct active; cbn [negb]; [|apply wp_gives; [done|gives_auto]].
  apply wp_bind, wp_inert; [auto with inert|]. intros seq c3 Hs3. pose proof (ok_same _ _ _ _ _ Hok2 Hs3) as Hok3.
  apply wp_bind, wp_attempt. destruct (bye_good (ce_block_ok E) seq memory) as (packet & -> & _).
  apply wp_bind. cbn [ctx_write upd wp]. apply wp_gives; [|gives_auto].
  exact (ok_write _ _ _ _ _ _ _ _ (disconnect_context packet cb) Hok3 I).
Qed.

Lemma issue_close_ok addr : step_ok client_ok True (disconnect_ptr addr) 1 (step as_disconnect (issue_close E)).
Proof.
  apply (step_body _ _ _ addr); [done|]. intros U b id a Q input c Hok. destruct (ok_context _ _ _ _ _ _ _ _ Hok) as (x & Hx & Hk).
  unfold issue_close. apply wp_bind, (wp_ctx_read _ x); [done|]. apply wp_gives; [done|]. gives_auto.
Qed.

Lemma noop_ok addr : step_ok client_ok True (disconnect_ptr addr) 0 (step as_disconnect (fun _ => dicey_task_noop)).
Proof. apply (step_body _ _ _ addr); [done|]. intros U b id a Q input c Hok. apply wp_gives; [done|]. unfold dicey_task_noop. gives_auto. Qed.

Lemma issue_request_ok addr : step_ok client_ok True (request_ptr addr) 1 (step as_request (issue_request E)).
Proof.
  apply (step_body _ _ _ addr); [done|]. intros U b id a Q input c Hok. destruct (ok_context _ _ _ _ _ _ _ _ Hok) as (x & Hx & Hk).
  unfold issue_request. apply wp_bind, wp_assert. intros _. apply wp_bind, (wp_ctx_read _ x); [done|].
  destruct x as [| |packet response cb]; [done..|]. destruct Hk as (Hg & Hresp & Hcb). cbn [ctx_addr] in *.
  apply wp_bind, wp_inert; [auto with inert|]. intros running c1 Hs1. apply wp_bind, wp_assert. intros _. apply wp_bind, wp_assert. intros _.
  apply wp_bind, wp_inert; [auto with inert|]. intros seq c2 Hs2. pose proof (ok_same _ _ _ _ _ (ok_same _ _ _ _ _ Hok Hs1) Hs2) as Hok2.
  apply wp_bind, wp_attempt. destruct (set_seq_good packet seq Hg) as (packet' & -> & Hg' & _).
  apply wp_bind. cbn [ctx_write upd wp].
  pose proof (ok_write _ _ _ _ _ _ _ _ (request_context packet' response cb) Hok2 (conj Hg' (conj Hresp Hcb))) as Hok3. cbn [ctx_addr] in Hok3.
  apply wp_bind. eapply wp_mono; [apply send_and_queue_spec; [by eapply id_bound|by apply Hok3]|]. intros err c4 H4.
  exact (sent_ok _ _ _ _ _ _ _ _ _ _ Hok3 H4).
Qed.

Lemma check_response_ok addr : step_ok client_ok True (request_ptr addr) 0 (step as_request check_response).
Proof.
  apply (step_body _ _ _ addr); [done|]. intros U b id a Q input c Hok. destruct (ok_context _ _ _ _ _ _ _ _ Hok) as (x & Hx & Hk).
  unfold check_response. apply wp_bind, wp_assert. intros _. apply wp_bind, (wp_ctx_read _ x); [done|].
  destruct x as [| |packet response cb]; [done..|]. destruct Hk as (Hg & Hresp & Hcb). cbn [ctx_addr] in *.
  apply wp_bind. cbn [sget wp]. apply wp_bind, wp_assert. intros _. apply wp_bind. cbn [ctx_write upd wp]. apply wp_bind. cbn [upd wp sret stepped_ok].
  pose proof (ok_write _ _ _ _ _ _ _ _ (request_context packet (cl_packet c) cb) Hok (conj Hg (conj (k_packet _ _ _ _ Hok) Hcb))) as Hok1.
  apply (ok_stage _ _ _ _ _ 0) in Hok1; [|lia]. destruct Hok1. constructor; try done. by left.
Qed.

(** *** Replies *)

(** Neither a memory error nor an endless loop. *)
Definition tame {A} (r : res A) : Prop := match r with Ok _ | Err _ | Fault AssertFailed => True | _ => False end.

Lemma wp_attempt_inert {A} (r : res A) : tame r -> inert (attempt r).
Proof. intros Hr c. apply wp_attempt. by destruct r as [|e|[]|]. Qed.

Lemma value_tame v :
  v = zero_value \/ (exists n, value_ok n v) -> tame (dicey_value_get_bool v) /\ tame (dicey_value_get_error v) /\ tame (dicey_value_get_path v).
Proof.
  intros [->|(n & Hv)]; [done|]. destruct v as [t i]. destruct Hv as (Ht & Hm & _). cbn [val_type val_data] in *.
  destruct t; try done; destruct i as [| | | | | | | | | |ti ni vi|len [d|]|[s|]| | |]; try done.
Qed.

Lemma as_message_weak packet :
  packet_weak packet ->
  match dicey_packet_as_message packet with
  | Ok m => tame (dicey_value_get_bool (msg_value m)) /\ tame (dicey_value_get_error (msg_value m)) /\ tame (dicey_value_get_path (msg_value m))
  | r => tame r
  end.
Proof.
  intros [Hv|Hg].
  - unfold dicey_packet_as_message. by rewrite Hv.
  - destruct (as_message_good packet Hg) as [(m & -> & Hm)|[e ->]]; [|done]. by apply value_tame.
Qed.

Lemma parse_bool_tame packet : packet_weak packet -> match parse_bool_reply packet with Ok _ | Fault AssertFailed => True | _ => False end.
Proof.
  intros Hw. unfold parse_bool_reply. destruct (dicey_packet_is_valid packet); cbn [oassert obind]; [|done].
  pose proof (as_message_weak packet Hw) as H. destruct (dicey_packet_as_message packet) as [m|e|[]|]; try done.
  destruct H as (H1 & H2 & _). destruct (dicey_value_get_bool _) as [|e|[]|]; try done. by destruct (dicey_value_get_error _) as [|e'|[]|].
Qed.

Lemma parse_subunsub_tame packet : packet_weak packet -> tame (parse_subunsub_reply E packet).
Proof.
  intros Hw. unfold parse_subunsub_reply. pose proof (as_message_weak packet Hw) as H.
  destruct (dicey_packet_as_message packet) as [m|e|[]|]; try done. cbn [obind]. destruct (dicey_value_is_unit _); [done|].
  destruct H as (_ & _ & H). destruct (dicey_value_get_path _) as [[path|]|e|[]|]; try done. cbn [obind]. by destruct (ce_block_ok E _).
Qed.

Lemma inert_call_reply cb status response : reply_ok cb -> packet_weak response -> inert (call_reply E cb status response).
Proof.
  intros Hcb Hw. unfold call_reply. destruct cb as [user|user|[op ucb]|sem]; auto with inert.
  - unfold is_alias_on_reply. destruct (negb (status =? 0)); [auto with inert|]. apply inert_bind.
    + intros c. pose proof (parse_bool_tame response Hw) as H. unfold wp, slift. by destruct (parse_bool_reply response) as [|e|[]|].
    + intros [err b]. auto with inert.
  - unfold subunsub_on_reply. apply inert_bind.
    + destruct (status =? 0); [|auto with inert]. apply inert_bind; [by apply wp_attempt_inert, parse_subunsub_tame|]. intros r. auto with inert.
    + intros [st path]. cbn [su_op su_cb] in *. destruct op, ucb; try done; auto with inert.
Qed.

(** *** Ends *)

Lemma then_free {A} (m : cst A) addr c : inert m -> wp (m ;;! ctx_free addr) (fun _ c' => same (set_ctxs (delete addr (cl_ctxs c)) c) c') c.
Proof.
  intros Hm. apply wp_bind, wp_inert; [done|]. intros a c' [H1 H2 H3 H4 H5 H6]. cbn. constructor; cbn; try done. by rewrite H2.
Qed.

(** The end of a task frees its context and does nothing else. *)
Definition frees (ptr : ctx_ptr) (f : at_end_fn) : Prop := forall id err c x,
  cl_ctxs c !! ctx_addr ptr = Some x -> kind_ok ptr x ->
  safe True (fun c' => same (set_ctxs (delete (ctx_addr ptr) (cl_ctxs c)) c) c') (f id err ptr c).

Lemma frees_body cast f ptr :
  cast ptr = Some (ctx_addr ptr) ->
  (forall id err c x, cl_ctxs c !! ctx_addr ptr = Some x -> kind_ok ptr x ->
     wp (f (ctx_addr ptr) id err) (fun _ c' => same (set_ctxs (delete (ctx_addr ptr) (cl_ctxs c)) c) c') c) ->
  frees ptr (finish cast f).
Proof.
  intros Hc Hf id err c x Hx Hk. specialize (Hf id err c x Hx Hk). unfold finish. rewrite Hc. unfold wp in Hf. unfold run.
  destruct (f (ctx_addr ptr) id err c) as [[[]|e|[]|] c']; done.
Qed.

Lemma connect_end_frees addr : frees (connect_ptr addr) (finish as_connect connect_end).
Proof.
  apply frees_body; [done|]. intros id err c x Hx Hk. unfold connect_end. apply wp_bind, (wp_ctx_read _ x); [done|].
  destruct x as [info hello [cb|]| |]; [|done..]. apply wp_assoc, then_free. inert_auto.
Qed.

Lemma disconnect_end_frees addr : frees (disconnect_ptr addr) (finish as_disconnect disconnect_end).
Proof.
  apply frees_body; [done|]. intros id err c x Hx Hk. unfold disconnect_end. apply wp_bind, (wp_ctx_read _ x); [done|].
  destruct x as [|bye cb|]; [done| |done]. do 2 apply wp_assoc. apply then_free. inert_auto.
Qed.

Lemma request_end_frees addr : frees (request_ptr addr) (finish as_request (request_end E)).
Proof.
  apply frees_body; [done|]. intros id err c x Hx Hk. unfold request_end. apply wp_bind, (wp_ctx_read _ x); [done|].
  destruct x as [| |packet response [cb|]]; [done..| |].
  - destruct Hk as (_ & Hresp & Hcb). apply wp_assoc, then_free, inert_bind; [auto with inert|]. intros _. by apply inert_call_reply.
  - apply wp_bind, wp_inert; [auto with inert|]. done.
Qed.

(** Nothing is expected any more for a task that ends. *)
Lemma clean_up_ok U P Q c id err :
  client_ok U P Q c ->
  exists c', client_at_end id err c = Ok c' /\ client_ok U P Q c' /\ cl_ctxs c' = cl_ctxs c /\
    u64 id ∉ waiting_id <$> array_values (waiting_tasks c').
Proof.
  intros Hok. unfold client_at_end, run, clean_up_task. cbn [sbind sget slift].
  destruct (remove_task_lemma (waiting_tasks c) (u64 id) (k_array _ _ _ _ Hok)) as [(b & t & a & ptr & -> & Hv & Hid & Ha & _ & Hv')|[-> Hn]];
    cbn [obind upd].
  - eexists. split; [done|]. pose proof (k_entries _ _ _ _ Hok) as Hnd. rewrite Hv, fmap_app, fmap_cons in Hnd.
    apply NoDup_app in Hnd as (Hb & Hbt & Hta). apply NoDup_cons in Hta as [Hta Hnda]. split_and!.
    + apply ok_unregister; [done|done| |].
      * rewrite Hv', fmap_app. apply NoDup_app. split_and!; [done| |done]. intros x Hx Hxa. apply (Hbt x Hx). by right.
      * intros x. rewrite Hv', Hv, !fmap_app, fmap_cons. clear. set_solver.
    + done.
    + cbn. rewrite Hv', fmap_app, <- Hid. intros [H|H]%elem_of_app; [by apply (Hbt _ H); left|done].
  - eexists. split; [done|]. split_and!; try done. eapply ok_same; [exact Hok|]. by constructor.
Qed.

Lemma end_frees (ws : list (work_fn unit ctx_ptr dicey_client)) ptr finish timeout : frees ptr finish -> end_ok client_at_end client_ok True (mk_task_request ws finish ptr timeout).
Proof.
  intros Hf U err n c. split.
  - intros b id a Q Hok Hn. unfold call_at_end. destruct (clean_up_ok _ _ _ _ id err Hok) as (c1 & -> & Hok1 & Hctx & Hid). cbn [obind at_end task_ctx].
    destruct (ok_context _ _ _ _ _ _ _ _ Hok1) as (x & Hx & Hk). eapply safe_mono; [by apply (Hf id err c1 x)|]. intros c2 Hs.
    eapply ok_same; [|exact Hs]. eapply ok_end; [exact Hok1|]. pose proof (id_bound _ _ _ _ _ _ _ _ Hok1).
    replace id with (u64 id) by (apply Z.mod_small; lia). done.
  - intros P Q Hok Hids. unfold call_at_end. destruct (clean_up_ok _ _ _ _ (-1) err Hok) as (c1 & -> & Hok1 & Hctx & _). cbn [obind at_end task_ctx].
    pose proof (k_live _ _ _ _ Hok1) as Hl. rewrite Forall_app, Forall_cons in Hl. destruct Hl as (_ & (p & k & x & [= <- <-] & Hx & Hk) & _).
    eapply safe_mono; [by apply (Hf (-1) err c1 x)|]. intros c2 Hs. eapply ok_same; [|exact Hs]. by eapply ok_end_queued.
Qed.

(** *** The tasks of a client *)

Abbreviation task_ok := (request_ok (I := unit) client_at_end client_ok True).

Lemma connect_task_ok addr timeout : task_ok (connect_sequence E addr timeout).
Proof.
  constructor; [done| |apply end_frees, connect_end_frees].
  split; [apply issue_connect_ok|]. split; [apply send_first_hello_ok|]. split; [apply verify_and_finish_connect_ok|done].
Qed.

Lemma quick_disconnect_task_ok addr timeout : task_ok (quick_disconnect_sequence E addr timeout).
Proof. constructor; [done| |apply end_frees, disconnect_end_frees]. split; [apply issue_close_ok|]. split; [apply noop_ok|done]. Qed.

Lemma full_disconnect_task_ok addr timeout : task_ok (full_disconnect_sequence E addr timeout).
Proof.
  constructor; [done| |apply end_frees, disconnect_end_frees]. split; [apply send_bye_ok|]. split; [apply issue_close_ok|].
  split; [apply noop_ok|done].
Qed.

Lemma request_task_ok addr timeout : task_ok (request_sequence E addr timeout).
Proof. constructor; [done| |apply end_frees, request_end_frees]. split; [apply issue_request_ok|]. split; [apply check_response_ok|done]. Qed.

End invariant.
