(* ===== verification/ClientTheorems.v ===== *)
(** * Runs of a client

    The invariant of the client over whole runs, and what the client does with its answers. *)

From S2P Require Import Prelude Errors Types Views Writer ValueWrite ValueProbe Value Codec Payload Packet.
From S2P Require Import Queue TaskList TaskLoop WaitingList Chunk Builders BuildersTheorems Names Client ClientApi ClientInv.
From stdpp Require Import gmap list.

#[local] Open Scope Z_scope.

(** ** Code that runs on the loop

    As [wp], for functions on the loop and the client in it; the loader and the growth of the
    receive buffer may also run out of fuel. *)

Definition lwp {A} (m : lst A) (Q : A -> client_loop -> Prop) (s : client_loop) : Prop :=
  match m s with (Ok a, s') => Q a s' | (Fault AssertFailed, _) => True | (OutOfFuel, _) => True | _ => False end.

Lemma lwp_bind {A B} (m : lst A) (k : A -> lst B) Q s : lwp m (fun a => lwp (k a) Q) s -> lwp (sbind m k) Q s.
Proof. unfold lwp, sbind. destruct (m s) as [[a|e|[]|] s']; auto. Qed.

Lemma lwp_mono {A} (m : lst A) (P Q : A -> client_loop -> Prop) s : lwp m P s -> (forall a s', P a s' -> Q a s') -> lwp m Q s.
Proof. unfold lwp. destruct (m s) as [[a|e|[]|] s']; auto. Qed.

Lemma lwp_assert b Q s : (b = true -> Q tt s) -> lwp (sassert b) Q s.
Proof. destruct b; cbn; auto. Qed.

Lemma lwp_lift {A} (r : res A) Q s : match r with Ok a => Q a s | Fault AssertFailed | OutOfFuel => True | _ => False end -> lwp (slift r) Q s.
Proof. unfold lwp, slift. by destruct r as [|e|[]|]. Qed.

Lemma lwp_client {A} (m : cst A) Q s : wp m (fun a c => Q a (with_world c s)) (world s) -> lwp (in_client m) Q s.
Proof. unfold wp, lwp, in_client. destruct (m (world s)) as [[a|e|[]|] c]; auto; done. Qed.

Lemma lwp_loop f Q s : safe True (Q tt) (f s) -> lwp (in_loop f) Q s.
Proof. unfold safe, lwp, in_loop. by destruct (f s) as [a|e|[]|]. Qed.

Lemma lwp_attempt {A} (r : res A) Q s :
  match r with Ok a => Q (inr a) (with_world (world s) s) | Err e => Q (inl e) (with_world (world s) s)
  | Fault AssertFailed | OutOfFuel => True | _ => False end -> lwp (in_client (attempt r)) Q s.
Proof. unfold lwp, in_client, attempt, slift. by destruct r as [|e|[]|]. Qed.

Section runs.
Context (E : client_env).
Hypothesis memory : forall n, ce_block_ok E n = true.

(** The invariant of the loop and of the client in it. *)
Abbreviation client_inv := (loop_inv (I := unit) client_at_end client_ok True).

Definition keeps {A} (m : lst A) : Prop := forall s q subs, client_inv s q subs -> lwp m (fun _ s' => client_inv s' q subs) s.

Lemma keeps_then {A B} (m : lst A) (k : A -> lst B) Q s q subs :
  keeps m -> client_inv s q subs -> (forall a s', client_inv s' q subs -> lwp (k a) Q s') -> lwp (sbind m k) Q s.
Proof. intros Hm Hi Hk. apply lwp_bind. eapply lwp_mono; [by apply Hm|]. intros a s' Hi'. by apply Hk. Qed.

Lemma keeps_bind {A B} (m : lst A) (k : A -> lst B) : keeps m -> (forall a, keeps (k a)) -> keeps (sbind m k).
Proof. intros Hm Hk s q subs Hi. apply (keeps_then _ _ _ s q subs Hm Hi). intros a s' Hi'. by apply Hk. Qed.

Lemma keeps_ret {A} (a : A) : keeps (sret a).
Proof. intros s q subs Hi. exact Hi. Qed.

Lemma keeps_assert b : keeps (sassert b).
Proof. intros s q subs Hi. by apply lwp_assert. Qed.

Lemma keeps_client {A} (m : cst A) : inert m -> keeps (in_client m).
Proof.
  intros Hm s q subs Hi. apply lwp_client. eapply wp_mono; [apply Hm|]. intros a c Hs. apply world_inv; [done|].
  eapply ok_same; [apply Hi|done].
Qed.

Lemma keeps_advance id input : keeps (in_loop (dicey_task_loop_advance client_at_end id input)).
Proof.
  intros s q subs Hi. apply lwp_loop. pose proof (l_pending _ _ _ _ _ _ Hi) as Hp. destruct (pending_tasks s) as [|l|] eqn:Hl; [| |done].
  - unfold dicey_task_loop_advance. by rewrite Hl.
  - apply advance_inv; [done|]. by rewrite Hl.
Qed.

Lemma keeps_fail id err : keeps (in_loop (dicey_task_loop_fail_with client_at_end id err)).
Proof.
  intros s q subs Hi. apply lwp_loop. pose proof (l_pending _ _ _ _ _ _ Hi) as Hp. destruct (pending_tasks s) as [|l|] eqn:Hl; [|destruct err as [e|]|done].
  - unfold dicey_task_loop_fail_with. by rewrite Hl.
  - apply fail_inv; [done|]. by rewrite Hl.
  - unfold dicey_task_loop_fail_with. rewrite Hl. destruct Hp as [Wf _].
    destruct (find_split l id Wf) as [(b & e & a & Hw & <- & ->)| ->]; cbn [obind]; [done|exact Hi].
Qed.

Lemma keeps_unlock id status : keeps (unlock_task E id status).
Proof.
  unfold unlock_task, dicey_task_loop_fail. destruct status as [e|]; [|apply keeps_advance].
  apply keeps_bind; [apply keeps_client, inert_error_new|]. intros err. apply keeps_fail.
Qed.

(** libuv has the bytes of a write to send, and the packet they are in was freed with its context. *)
Definition dangling (i : client_input) (s : client_loop) : Prop :=
  match i with
  | InDone k status => exists id policy ctx, cl_ops (world s) !! k = Some (write_op id policy (Some ctx)) /\
      status <> Some DICEY_ECANCELLED /\ cl_ctxs (world s) !! ctx = None
  | _ => False
  end.

Lemma keeps_on_write id policy status : keeps (on_write E id policy status).
Proof. unfold on_write. destruct policy; [apply keeps_unlock|apply keeps_ret]. Qed.

Lemma same_inv s q subs c : client_inv s q subs -> same (world s) c -> client_inv (with_world c s) q subs.
Proof. intros Hi Hs. apply world_inv; [done|]. eapply ok_same; [apply Hi|done]. Qed.

Lemma done_ok k status s q subs : client_inv s q subs ->
  lwp (op_done E k status) (fun _ s' => client_inv s' q subs) s \/
  (op_done E k status s).1 = Fault UseAfterFree /\ dangling (InDone k status) s.
Proof.
  intros Hi. set (ops := take k (cl_ops (world s)) ++ drop (S k) (cl_ops (world s))).
  set (s1 := with_world (set_ops ops (world s)) (with_world (world s) s)).
  assert (client_inv s1 q subs) as Hi1 by (apply same_inv; [by apply same_inv|by constructor]).
  assert (forall (m : lst unit), keeps m -> lwp m (fun _ s' => client_inv s' q subs) s1) as Hk by (intros m Hm; by apply Hm).
  assert (op_done E k status s = match cl_ops (world s) !! k with
    | None => (Ok tt, with_world (world s) s)
    | Some (connect_op id) => on_connect E id status s1
    | Some (write_op id policy buf) => (in_client (write_read buf status) ;;! on_write E id policy status) s1
    | Some close_op => on_close E s1
    end) as Eq by (unfold op_done, in_client, sbind; cbn; by destruct (cl_ops (world s) !! k) as [[]|]).
  unfold lwp. rewrite Eq. clear Eq. destruct (cl_ops (world s) !! k) as [[id|id policy buf|]|] eqn:Ek.
  - left. apply Hk, keeps_unlock.
  - unfold sbind, in_client. destruct buf as [ctx|]; cbn [write_read].
    2:{ left. apply keeps_on_write. by apply same_inv. }
    change (cl_ctxs (world s1)) with (cl_ctxs (world s)).
    destruct (bool_decide_reflect (status <> Some DICEY_ECANCELLED /\ cl_ctxs (world s) !! ctx = None)) as [[H1 H2]|Hr].
    + right. split; [done|]. by exists id, policy, ctx.
    + left. apply keeps_on_write. by apply same_inv.
  - left. apply Hk. unfold on_close. apply keeps_bind; [apply keeps_client, inert_get|]. intros c'.
    destruct (p_data _); [apply keeps_unlock|]. by intros s' q' subs' Hi'.
  - left. by apply same_inv.
Qed.

(** An answer goes to its task. *)
Lemma keeps_dispatch seq packet : packet_good packet -> keeps (dispatch_response seq packet).
Proof.
  intros Hg s q subs Hi. unfold dispatch_response. apply lwp_bind, lwp_client. cbn [sget wp]. apply lwp_bind, lwp_lift.
  pose proof (l_world _ _ _ _ _ _ Hi) as Hok. pose proof (k_array _ _ _ _ Hok) as Ha.
  assert (client_inv (with_world (world s) s) q subs) as Hi' by (by apply world_inv).
  destruct (waiting_tasks (world s)) as [|l|] eqn:Hw; [done| |done].
  destruct (remove_seq_lemma (AnArray l) seq Ha ltac:(done)) as [(b & t & a & ptr & -> & Hv & _ & _ & Hptr & _ & Hv')|[-> _]]; [|exact Hi'].
  apply lwp_bind, lwp_client. apply wp_bind. cbn [upd wp]. eapply keeps_then; [apply keeps_advance| |].
  - apply world_inv; [done|]. change (client_ok subs (pending_of s) (ctx_at (heap s) <$> q) (set_packet packet (set_waiting ptr (world s)))).
    assert (client_ok subs (pending_of s) (ctx_at (heap s) <$> q) (set_waiting ptr (world s))) as Hok1.
    { apply ok_unregister; [done|done| |].
      - pose proof (k_entries _ _ _ _ Hok) as Hnd. rewrite Hw, Hv, fmap_app, fmap_cons in Hnd. rewrite Hv', fmap_app.
        apply NoDup_app in Hnd as (Hb & Hbt & Hta). apply NoDup_cons in Hta as [Hta Hnda]. apply NoDup_app. split_and!; [done| |done].
        intros x Hx Hxa. apply (Hbt x Hx). by right.
      - intros x. rewrite Hw, Hv', Hv, !fmap_app, fmap_cons. clear. set_solver. }
    destruct Hok1. constructor; try done. by right.
  - intros _ s' Hi''. apply lwp_client. cbn [upd wp]. apply world_inv; [done|]. pose proof (l_world _ _ _ _ _ _ Hi'') as Hok2. destruct Hok2. constructor; try done. by left.
Qed.

Lemma keeps_lift {A} (r : res A) : match r with Ok _ | Fault AssertFailed | OutOfFuel => True | _ => False end -> keeps (slift r).
Proof. intros Hr s q subs Hi. apply lwp_lift. by destruct r as [|e|[]|]. Qed.

Lemma keeps_got_packet packet : packet_good packet -> keeps (client_got_packet packet).
Proof.
  intros Hg. unfold client_got_packet. apply keeps_bind; [apply keeps_assert|]. intros _.
  destruct (get_seq_good packet Hg) as [seq Hseq]. rewrite Hseq. apply keeps_bind; [apply keeps_client; by apply wp_attempt_inert|].
  intros [err|n]; [apply keeps_client, inert_event|]. destruct (get_kind_good packet Hg) as [kind ->]. apply keeps_bind; [by apply keeps_lift|].
  intros kind'. destruct kind'; try (by apply keeps_dispatch).
  - apply keeps_bind; [apply keeps_lift; by destruct (as_bye_good packet Hg) as [[r ->]|[e ->]]|]. intros r. apply keeps_client, inert_event.
  - apply keeps_bind; [apply keeps_lift; by destruct (as_message_good packet Hg) as [(m & -> & _)|[e ->]]|]. intros msg.
    destruct (negb _); [apply keeps_client, inert_event|]. apply keeps_bind; [apply keeps_client, inert_event|]. intros _.
    destruct (bool_decide _); [|by apply keeps_dispatch]. apply keeps_bind; [apply keeps_client, inert_get|]. intros c.
    apply keeps_bind; [apply keeps_assert|]. intros _. apply keeps_client, inert_log.
Qed.

(** The buffer holds bytes. *)
Lemma keeps_chunk k : match k with Some k => bytes_ok (ck_bytes k) | None => True end -> keeps (in_client (upd (set_chunk k))).
Proof.
  intros Hk s q subs Hi. apply lwp_client. cbn [upd wp]. apply world_inv; [done|]. pose proof (l_world _ _ _ _ _ _ Hi) as Hok. destruct Hok. by constructor.
Qed.

Definition read_ok (r : nread) : Prop := match r with ReadBytes bytes => bytes_ok bytes | _ => True end.

(** A buffer for the next read. *)
Lemma get_buf_some min fuel : forall buf avail buf',
  0 < min -> get_buf_loop (ce_block_ok E) fuel buf min = Ok (avail, buf') -> exists k, buf' = Some k /\ ck_bytes k = buf_bytes buf.
Proof.
  induction fuel as [|fuel IH]; intros buf avail buf' Hm; [done|]. cbn [get_buf_loop]. destruct (Z.leb_spec min (dicey_chunk_avail buf)) as [Hle|_].
  - intros [= _ <-]. destruct buf as [k|]; [by exists k|]. cbn in Hle. lia.
  - intros H. apply IH in H as (k & -> & Hk); [|done]. exists k. split; [done|]. rewrite Hk. unfold dicey_chunk_grow. rewrite memory. by destruct buf.
Qed.

Lemma get_buf_tame min fuel : forall buf, match get_buf_loop (ce_block_ok E) fuel buf min with Ok _ | OutOfFuel => True | _ => False end.
Proof. induction fuel as [|fuel IH]; intros buf; [done|]. cbn [get_buf_loop]. destruct (min <=? _); [done|]. apply IH. Qed.

Lemma alloc_ok s q subs :
  client_inv s q subs -> lwp (in_client (client_alloc_buffer E)) (fun _ s' => client_inv s' q subs /\ is_Some (recv_chunk (world s'))) s.
Proof.
  intros Hi. unfold client_alloc_buffer, lwp, in_client. cbn [sbind sget slift upd]. unfold dicey_chunk_get_buf.
  pose proof (get_buf_tame READ_MINBUF (ce_fuel E) (recv_chunk (world s))) as Ht.
  destruct (get_buf_loop _ _ _ _) as [[avail buf]|e|[]|] eqn:Eb; try done. cbn [obind].
  destruct (get_buf_some READ_MINBUF _ _ _ _ ltac:(done) Eb) as (k & -> & Hk). destruct (READ_MINBUF <=? _); [|done]. split; [|by eexists].
  apply world_inv; [done|]. pose proof (l_world _ _ _ _ _ _ Hi) as Hok. destruct Hok as [H1 H2 H3 H4 H5 H6 H7 H8 H9 H10 H11 H12 H13].
  constructor; try done. cbn [set_chunk recv_chunk]. rewrite Hk. revert H11. destruct (recv_chunk (world s)); [done|constructor].
Qed.

Lemma keeps_read r : read_ok r -> keeps (do! _ <- in_client (client_alloc_buffer E) ; client_on_read E r).
Proof.
  intros Hr s q subs Hi. apply lwp_bind. eapply lwp_mono; [by apply alloc_ok|]. clear s Hi. intros _ s [Hi [chunk Hchunk]].
  unfold client_on_read. destruct r as [|e|bytes]; [by apply keeps_ret| |].
  - eapply keeps_then; [apply keeps_client, inert_in_state|exact Hi|]. intros dead s1 Hi1.
    destruct dead; [by apply keeps_ret|by apply (keeps_client _ (inert_event _))].
  - pose proof (k_chunk _ _ _ _ (l_world _ _ _ _ _ _ Hi)) as Hc. rewrite Hchunk in Hc.
    assert (client_inv (with_world (world s) s) q subs) as Hi' by (apply world_inv; [done|apply Hi]).
    apply lwp_bind, lwp_client. cbn [sget wp]. rewrite Hchunk.
    destruct (SIZE_MAX <? _); [by apply (keeps_client _ (inert_event _))|].
    assert (bytes_ok (ck_bytes (chunk_received chunk bytes))) as Hb by (by apply bytes_ok_app).
    eapply keeps_then; [by apply (keeps_chunk (Some (chunk_received chunk bytes)))|exact Hi'|]. intros _ s1 Hi1.
    assert (client_inv (with_world (world s1) s1) q subs) as Hi1' by (apply world_inv; [done|apply Hi1]).
    apply lwp_bind, lwp_attempt. pose proof (load_tame (ce_block_ok E) (ce_fuel E) _ Hb) as Ht.
    destruct (dicey_packet_load _ _ _).1 as [packet|e|f|] eqn:El; [| |done|done].
    + eapply keeps_then; [apply keeps_got_packet; by eapply load_good|exact Hi1'|]. intros _ s2 Hi2. apply (keeps_chunk (Some (dicey_chunk_clear _))); [constructor|done].
    + destruct e; try (by apply (keeps_client _ (inert_event _))). by apply keeps_ret.
Qed.

(** The queue is emptied: the tasks in it start. *)
Lemma queue_ok now s q subs :
  client_inv s q subs -> zlen subs < 2 ^ 61 -> lwp (client_process_queue E now) (fun _ s' => client_inv s' [] subs) s.
Proof.
  intros Hi Hlen. apply lwp_loop. apply (process_queue_inv (ce_block_ok E) client_at_end client_ok True memory) with (q := q); [|done|exact Hi].
  intros. by apply ok_start.
Qed.

(** *** Calls *)

(** A call is refused and changes nothing, or its task is queued. *)
Definition called (m : lst unit) : Prop := forall s q subs,
  client_inv s q subs -> (dicey_queue_size (queue s) < REQUEST_QUEUE_CAP - 1)%nat ->
  match m s with
  | (Ok _, s') => exists t, client_inv s' (q ++ [t]) (subs ++ [t])
  | (Err _, s') => client_inv s' q subs
  | (Fault AssertFailed, _) => True
  | _ => False
  end.

Lemma submit_called t addr ptr (r : dicey_task_request unit ctx_ptr dicey_client) x s q subs :
  client_inv s q subs -> (dicey_queue_size (queue s) < REQUEST_QUEUE_CAP - 1)%nat ->
  cl_ctxs (world s) !! addr = None -> (addr < cl_next (world s))%nat -> (t < cl_next (world s))%nat -> t ∉ subs ->
  task_ctx r = ptr -> ctx_addr ptr = addr -> kind_ok ptr x -> request_ok (I := unit) client_at_end client_ok True r ->
  match submit t r (with_world (set_ctxs (<[addr := x]> (cl_ctxs (world s))) (world s)) s) with
  | (Ok _, s') => client_inv s' (q ++ [t]) (subs ++ [t])
  | (Err _, s') => s' = with_world (set_ctxs (<[addr := x]> (cl_ctxs (world s))) (world s)) s
  | (Fault AssertFailed, _) => True
  | _ => False
  end.
Proof.
  intros Hi Hroom Hnone Ha Ht Hn <- Haddr Hk Hr. set (s1 := with_world _ s). pose proof (l_world _ _ _ _ _ _ Hi) as Hok.
  unfold submit, client_alive, in_client, sbind. cbn [sget s1 with_world world set_ctxs cl_freed cl_tloop cl_running].
  rewrite (k_alive _ _ _ _ Hok). cbn [sret set_ctxs cl_freed cl_tloop cl_running]. destruct (cl_tloop (world s)); [|done]. cbn [sassert].
  destruct (cl_running (world s)); [|done]. cbn [negb].
  pose proof (ok_submit _ _ _ _ t addr (task_ctx r) (length (work r)) x Hok Haddr Hk Hnone Ha Ht) as Hok1.
  cbn [sret]. change (with_world _ s1) with s1. unfold in_loop.
  destruct (submit_inv client_at_end client_ok True s q subs t r _ Hi Hn Hr Hok1) as [Hs|(s' & Hs & _ & Hi')].
  - by destruct (submit_room s1 q t r (l_queue _ _ _ _ _ _ Hi) Hroom).
  - fold s1 in Hs. by rewrite Hs.
Qed.

(** Two blocks are allocated, one after the other. *)
Lemma issue_eq (ctx_first : bool) x (req : nat -> dicey_task_request unit ctx_ptr dicey_client) s :
  let n := cl_next (world s) in
  let a := if ctx_first then n else S n in
  let t := if ctx_first then S n else n in
  let s1 := with_world (set_next (S (S n)) (world s)) s in
  issue E ctx_first x req s =
  if ce_malloc_ok E n then
    if ce_malloc_ok E (S n) then
      match submit t (req a) (with_world (set_ctxs (<[a := x]> (cl_ctxs (world s1))) (world s1)) s1) with
      | (Err e, s') => (Err e, with_world (set_ctxs (delete a (cl_ctxs (world s'))) (world s')) s')
      | r => r
      end
    else (Err DICEY_ENOMEM, s1)
  else (Err DICEY_ENOMEM, with_world (set_next (S n) (world s)) s).
Proof.
  intros n a t s1. unfold issue, sbind, in_client, malloc, sbind, tick, sret. cbn [with_world world set_next cl_next]. fold n.
  destruct (ce_malloc_ok E n); [|done]. change (cl_next (world (with_world (set_next (S n) (world s)) s))) with (S n).
  destruct (ce_malloc_ok E (S n)); done.
Qed.

Lemma issue_called ctx_first x (mk : nat -> ctx_ptr) (req : nat -> dicey_task_request unit ctx_ptr dicey_client) :
  (forall a, task_ctx (req a) = mk a /\ ctx_addr (mk a) = a /\ kind_ok (mk a) x /\ request_ok (I := unit) client_at_end client_ok True (req a)) ->
  called (issue E ctx_first x req).
Proof.
  intros Hreq s q subs Hi Hroom. rewrite issue_eq. cbv zeta. pose proof (l_world _ _ _ _ _ _ Hi) as Hok. set (n := cl_next (world s)).
  assert (forall m, (n <= m)%nat -> client_inv (with_world (set_next m (world s)) s) q subs) as Hnext.
  { intros m Hm. apply world_inv; [done|]. eapply ok_same; [exact Hok|]. by constructor. }
  assert (forall a, (n <= a)%nat -> cl_ctxs (world s) !! a = None /\ a ∉ subs) as Hnew.
  { intros a Ha. split; [|by intros Hin%(k_tasks _ _ _ _ Hok); fold n in Hin; lia]. apply eq_None_not_Some. intros Hin%(k_fresh _ _ _ _ Hok). fold n in Hin. lia. }
  destruct (ce_malloc_ok E n); [|apply Hnext; lia]. destruct (ce_malloc_ok E (S n)); [|apply Hnext; lia].
  set (a := if ctx_first then n else S n). set (t := if ctx_first then S n else n).
  assert ((n <= a < S (S n))%nat /\ (n <= t < S (S n))%nat) as [Ha Ht] by (unfold a, t; destruct ctx_first; lia).
  destruct (Hreq a) as (H1 & H2 & H3 & H4). destruct (Hnew a ltac:(lia)) as [Hnone _]. destruct (Hnew t ltac:(lia)) as [_ Hsub].
  pose proof (submit_called t a (mk a) (req a) x _ q subs (Hnext (S (S n)) ltac:(lia)) Hroom Hnone ltac:(apply Ha) ltac:(apply Ht) Hsub H1 H2 H3 H4) as H.
  destruct (submit t (req a) _) as [[u|e|[]|] s']; try done; [by exists t|]. subst s'. cbn [with_world world set_ctxs cl_ctxs set_next].
  rewrite delete_insert_id by done. exact (Hnext (S (S n)) ltac:(lia)).
Qed.

(** What a call relies on: a request whose packet has a well-formed payload, and a callback that
    can be called. *)
Definition call_ok (call : client_call) : Prop :=
  match call with CallRequest packet cb _ => packet_good packet /\ reply_ok cb | _ => True end.

Lemma called_alive (k : dicey_client -> lst unit) : (forall c, called (k c)) -> called (do! c <- client_alive ; k c).
Proof.
  intros Hk s q subs Hi Hroom. unfold client_alive, in_client, sbind. cbn [sget].
  rewrite (k_alive _ _ _ _ (l_world _ _ _ _ _ _ Hi)). cbn [sret].
  apply Hk; [|done]. apply world_inv; [done|apply Hi].
Qed.

Lemma called_assert b k : called k -> called (sassert b ;;! k).
Proof. intros Hk. destruct b; [exact Hk|]. by intros s q subs Hi Hroom. Qed.

Lemma called_fail e : called (sfail e).
Proof. intros s q subs Hi Hroom. exact Hi. Qed.

Lemma do_call_called call : call_ok call -> called (do_call E call).
Proof.
  intros Hc. destruct call as [info cb|cb|packet cb timeout]; cbn [do_call].
  - apply (issue_called _ _ connect_ptr). intros a. split_and!; [done..|]. by apply connect_task_ok.
  - unfold dicey_client_disconnect_async, client_issue_disconnect. apply called_alive. intros c.
    destruct (cl_state c); try apply called_fail; apply called_alive; intros c'; apply (issue_called _ _ disconnect_ptr); intros a;
      (destruct (bool_decide _); (split; [done|]); (split; [done|]); (split; [done|]); first [by apply full_disconnect_task_ok|by apply quick_disconnect_task_ok]).
  - destruct Hc as [Hp Hcb]. unfold dicey_client_request_async, client_issue_request. apply called_assert, called_alive. intros c.
    destruct (negb _); [apply called_fail|]. apply (issue_called _ _ request_ptr). intros a. split_and!; [done|done| |by apply request_task_ok].
    split_and!; [done|by left|done].
Qed.

(** *** Whole runs *)

Definition input_ok (i : client_input) : Prop :=
  match i with InCall call => call_ok call | InRead r => read_ok r | _ => True end.

(** A run goes on, fails an assertion, or is out of fuel. *)
Definition ran (P : client_loop -> Prop) (r : res client_loop) : Prop :=
  match r with Ok s => P s | Fault AssertFailed | OutOfFuel => True | _ => False end.

Lemma ran_bind P Q m k : ran P m -> (forall s, P s -> ran Q (k s)) -> ran Q (obind m k).
Proof. destruct m as [s|e|[]|]; cbn; auto. Qed.

Lemma ran_after (m : lst unit) P s : lwp m (fun _ s' => P s') s -> ran P (after (m s)).
Proof. unfold lwp, after. by destruct (m s) as [[u|e|[]|] s']. Qed.

Lemma client_step_ok i s q subs :
  client_inv s q subs -> input_ok i -> zlen subs < 2 ^ 61 ->
  ran (fun s' => exists q' subs', client_inv s' q' subs' /\ zlen subs' <= zlen subs + 1) (client_step E i s) \/
  (client_step E i s = Fault UseAfterFree /\ dangling i s).
Proof.
  intros Hi Hok Hlen.
  assert (forall (m : lst unit) q', lwp m (fun _ s' => client_inv s' q' subs) s ->
    ran (fun s' => exists q' subs', client_inv s' q' subs' /\ zlen subs' <= zlen subs + 1) (after (m s))) as Hafter.
  { intros m q' Hm. apply ran_after. eapply lwp_mono; [exact Hm|]. intros u s' Hi'. exists q', subs. split; [done|lia]. }
  destruct i as [call|now|r|k status]; cbn [client_step input_ok] in *.
  - left. destruct (bool_decide_reflect (REQUEST_QUEUE_CAP - 1 <= dicey_queue_size (queue s))%nat) as [Hf|Hf]; [exists q, subs; split; [done|lia]|].
    pose proof (do_call_called call Hok s q subs Hi ltac:(lia)) as H. destruct (do_call E call s) as [[u|e|[]|] s']; try done.
    + destruct H as [t H]. exists (q ++ [t]), (subs ++ [t]). split; [done|]. rewrite zlen_app. done.
    + exists q, subs. split; [done|lia].
  - left. apply (Hafter _ []). by apply (queue_ok now s q).
  - left. apply (Hafter _ q). by apply keeps_read.
  - destruct (done_ok k status s q subs Hi) as [H|[H Hd]]; [left; by apply (Hafter _ q)|right]. split; [|done].
    unfold after. by rewrite H.
Qed.

(** The books of a client: every task that was accepted has ended, is pending or is queued; the
    contexts and the waiting list belong to the live ones. *)
Definition books (s : client_loop) : Prop := exists queued submitted,
  Queue.rep (queue s) queued /\ NoDup submitted /\ submitted ≡ₚ ended_tasks s ++ tasks_of (pending_tasks s) ++ queued /\
  client_ok submitted (pending_of s) (ctx_at (heap s) <$> queued) (world s).

Lemma inv_books s q subs : client_inv s q subs -> books s.
Proof. intros [H1 H2 H3 H4 H5 H6 H7]. exists q, subs. split_and!; try done. by rewrite H5. Qed.

(** Where a run stops because a write is done whose packet was freed. *)
Definition stops_dangling (inputs : list client_input) (s : client_loop) : Prop :=
  exists before i later s', inputs = before ++ i :: later /\ client_steps E before s = Ok s' /\ books s' /\ dangling i s'.

Lemma client_steps_ok inputs : forall s q subs,
  client_inv s q subs -> Forall input_ok inputs -> zlen subs + zlen inputs < 2 ^ 61 ->
  ran books (client_steps E inputs s) \/ (client_steps E inputs s = Fault UseAfterFree /\ stops_dangling inputs s).
Proof.
  induction inputs as [|i inputs IH]; intros s q subs Hi Hin Hlen; cbn [client_steps]; [left; by eapply inv_books|].
  apply Forall_cons in Hin as [Hin1 Hin]. rewrite zlen_cons in Hlen. pose proof (zlen_nonneg inputs).
  destruct (client_step_ok i s q subs Hi Hin1 ltac:(lia)) as [Hs|[Hs Hd]].
  2:{ right. rewrite Hs. split; [done|]. exists [], i, inputs, s. split_and!; try done. by eapply inv_books. }
  destruct (client_step E i s) as [s1|e|f|] eqn:E1; cbn in Hs; [|done|left; by destruct f|by left].
  destruct Hs as (q1 & subs1 & Hi1 & Hl1). cbn [obind]. destruct (IH s1 q1 subs1 Hi1 Hin ltac:(lia)) as [H1|[H1 (before & j & later & s2 & -> & H2 & Hd)]].
  - by left.
  - right. split; [done|]. exists (i :: before), j, later, s2. split; [done|]. split; [|done]. cbn [client_steps]. by rewrite E1.
Qed.

(** A new client whose loop was started satisfies the invariant. *)
Lemma new_client_inv args s : dicey_client_new E args = Ok s -> client_inv (started s) [] [].
Proof.
  unfold dicey_client_new. destruct (ce_malloc_ok E 0); [|done]. intros H. apply new_loop_inv.
  assert (client_ok [] [] [] (world s)) as [H1 H2 H3 H4 H5 H6 H7 H8 H9 H10 H11 H12 H13]; [|by constructor].
  assert (client_ok [] [] [] zero_client) as H0.
  { constructor; cbn; try done; try (by intros ? ?%elem_of_nil); try (by intros ? [? ?%lookup_empty_Some]); try apply NoDup_nil_2; try constructor; done. }
  destruct args as [[inspect signal]|]; cbn in H; [destruct inspect; cbn in H|]; injection H as <-; destruct H0; by constructor.
Qed.


End runs.

(** ** A run *)

(** Memory and libuv never fail, and the socket takes what is written. *)
Definition sample_cenv : client_env := mk_cenv (fun _ => true) (fun _ => true) (fun _ => None) (fun _ => false) (fun _ => true) 100.

Definition sample_name : dicey_selector := mk_selector (Some [116]) (Some [112]).

Definition message_packet (op : dicey_op) (seq : Z) (value : option dicey_arg) : dicey_packet :=
  match written_packet (fun _ => true) op seq (Some [47; 97]) sample_name value with Ok p => p | _ => DICEY_EMPTY_PACKET end.

Definition hello_packet : dicey_packet :=
  match dicey_packet_hello (fun _ => true) 0 DICEY_PROTO_VERSION_CURRENT with Ok p => p | _ => DICEY_EMPTY_PACKET end.

Definition bytes_of (packet : dicey_packet) : nread := ReadBytes (match payload packet with Some bytes => bytes | None => [] end).

(** The client connects, the server says hello, and a property is read. *)
Definition sample_connect : list client_input :=
  [InCall (CallSetup (CLIENT_CONNECT_ADDR [97]) (Some (user_on_connect 7))); InQueue (mk_timespec 10 0); InDone 0 None;
   InRead (bytes_of hello_packet)].
Definition sample_request : list client_input :=
  [InCall (CallRequest (message_packet DICEY_OP_GET 0 None) (user_on_reply 8) 1000); InQueue (mk_timespec 10 0)].
Definition sample_answer : list client_input := [InRead (bytes_of (message_packet DICEY_OP_RESPONSE 2 (Some ArgUnit)))].
Definition sample_run : list client_input := sample_connect ++ sample_request ++ sample_answer.

Definition sample_start : client_loop :=
  match dicey_client_new sample_cenv None with Ok s => s | _ => new_loop zero_client end.


(** A packet the loader accepts. *)
Lemma loaded_good bs packet : Forall is_byte bs -> (dicey_packet_load (fun _ => true) 100 (vw bs [])).1 = Ok packet -> packet_good packet.
Proof. apply load_good. Qed.

Lemma bytes_check bs : forallb (fun b => (0 <=? b) && (b <? 256)) bs = true -> bytes_ok bs.
Proof.
  intros H. apply Forall_forall. intros b Hb. rewrite forallb_forall in H. specialize (H b ltac:(by apply list_elem_of_In)).
  apply andb_true_iff in H as [H1 H2]. apply Z.leb_le in H1. apply Z.ltb_lt in H2. done.
Qed.

Lemma sample_inputs_ok : Forall input_ok sample_run.
Proof.
  assert (packet_good (message_packet DICEY_OP_GET 0 None)) as Hg.
  { apply (loaded_good (default [] (payload (message_packet DICEY_OP_GET 0 None)))); [apply bytes_check|]; vm_compute; reflexivity. }
  do 3 (apply Forall_cons_2; [exact I|]). apply Forall_cons_2; [apply bytes_check; vm_compute; reflexivity|].
  apply Forall_cons_2; [by split|]. apply Forall_cons_2; [exact I|]. apply Forall_cons_2; [apply bytes_check; vm_compute; reflexivity|].
  apply Forall_nil_2.
Qed.

