(* ===== verification/ClientBehaviour.v ===== *)
(** * What a client does

    Answers reach the task that waits for them, the handshake makes a client run, sequence numbers
    do not repeat; and behaviours of the client that its documentation does not announce. *)

From S2P Require Import Prelude Errors Types Views Writer ValueWrite ValueProbe Value Codec Payload Packet.
From S2P Require Import Queue TaskList TaskLoop WaitingList Chunk Builders BuildersTheorems Names Client ClientApi ClientInv ClientTheorems.
From stdpp Require Import gmap list.

#[local] Open Scope Z_scope.

(** ** Sequence numbers *)

(** [client_next_seq], called [k] times. *)
Fixpoint next_seqs (k : nat) : cst (list Z) :=
  match k with
  | O => sret []
  | S k' => do! seq <- client_next_seq ; do! seqs <- next_seqs k' ; sret (seq :: seqs)
  end.

(** The number [i] places after [n]: even numbers from 2 to 2^32 - 2, in a circle. *)
Definition seq_after (n : Z) (i : nat) : Z := 2 + (n - 2 + 2 * Z.of_nat i) mod (2 ^ 32 - 2).

Definition seq_ok (n : Z) : Prop := n mod 2 = 0 /\ 2 <= n < 2 ^ 32.

Lemma next_seq_eq c : seq_ok (next_seq c) -> client_next_seq c = (Ok (next_seq c), set_next_seq (seq_after (next_seq c) 1) c).
Proof.
  intros [He Hr]. unfold client_next_seq, client_reset_seq, sbind, sget, upd. rewrite He. cbn [Z.eqb sassert sret].
  unfold seq_after. change (2 * Z.of_nat 1) with 2. destruct (Z.eqb_spec (u32 (next_seq c + 2)) 0) as [E|E]; unfold u32, wrap in *.
  - assert (next_seq c = 2 ^ 32 - 2) as -> by (Z.to_euclidean_division_equations; lia). done.
  - assert (next_seq c < 2 ^ 32 - 2) by (Z.to_euclidean_division_equations; lia).
    rewrite (Z.mod_small (next_seq c + 2)), Z.mod_small by lia. by replace (2 + (next_seq c - 2 + 2)) with (next_seq c + 2) by lia.
Qed.

Lemma seq_after_ok n i : seq_ok n -> seq_ok (seq_after n i).
Proof. intros [He Hr]. unfold seq_ok, seq_after. Z.to_euclidean_division_equations. lia. Qed.

Lemma seq_after_after n i j : seq_ok n -> seq_after (seq_after n i) j = seq_after n (i + j).
Proof.
  intros _. unfold seq_after.
  replace (2 + (n - 2 + 2 * Z.of_nat i) mod (2 ^ 32 - 2) - 2 + 2 * Z.of_nat j) with ((n - 2 + 2 * Z.of_nat i) mod (2 ^ 32 - 2) + 2 * Z.of_nat j) by lia.
  rewrite Zplus_mod_idemp_l. do 2 f_equal. lia.
Qed.

Lemma next_seqs_eq k : forall c, seq_ok (next_seq c) -> (next_seqs k c).1 = Ok (seq_after (next_seq c) <$> seq 0 k).
Proof.
  induction k as [|k IH]; intros c Hc; [done|]. cbn [next_seqs]. unfold sbind at 1. rewrite next_seq_eq by done.
  pose proof (IH (set_next_seq (seq_after (next_seq c) 1) c) (seq_after_ok _ 1 Hc)) as H. unfold sbind.
  destruct (next_seqs k _) as [r s]. cbn [fst] in *. rewrite H. cbn [sret fst set_next_seq next_seq seq fmap list_fmap]. do 2 f_equal.
  - destruct Hc. unfold seq_after. rewrite Z.mod_small; lia.
  - rewrite <- fmap_S_seq, <- list_fmap_compose. apply list_fmap_ext. intros i x _. cbn [compose set_next_seq next_seq]. by apply seq_after_after.
Qed.

(** C40: the sequence numbers of a client are even, are never 0, which is the number of the
    handshake, and do not repeat: any 2^31 - 1 consecutive requests have different numbers. The
    last one before the counter wraps is followed by 2. *)
Theorem sequence_numbers_correct k c :
  seq_ok (next_seq c) -> Z.of_nat k <= 2 ^ 31 - 1 ->
  exists seqs, (next_seqs k c).1 = Ok seqs /\ length seqs = k /\ NoDup seqs /\
    (forall n, n ∈ seqs -> n mod 2 = 0 /\ 2 <= n < 2 ^ 32) /\
    (forall i n m, seqs !! i = Some n -> seqs !! S i = Some m -> m = if n =? 2 ^ 32 - 2 then 2 else n + 2).
Proof.
  intros Hc Hk. eexists. split; [by apply next_seqs_eq|]. split; [by rewrite length_fmap, length_seq|]. split_and!.
  - apply NoDup_alt. intros i j n. rewrite !list_lookup_fmap. intros (x & Hi & ->)%fmap_Some (y & Hj & E)%fmap_Some.
    apply lookup_seq in Hi as [-> Hi], Hj as [-> Hj]. destruct Hc. unfold seq_after in E. Z.to_euclidean_division_equations. nia.
  - intros n (i & -> & _)%list_elem_of_fmap. by apply seq_after_ok.
  - intros i n m. rewrite !list_lookup_fmap. intros (x & Hi & ->)%fmap_Some (y & Hj & ->)%fmap_Some.
    apply lookup_seq in Hi as [-> Hi], Hj as [-> Hj]. destruct Hc. unfold seq_after.
    destruct (Z.eqb_spec (2 + (next_seq c - 2 + 2 * Z.of_nat (0 + i)) mod (2 ^ 32 - 2)) (2 ^ 32 - 2)); Z.to_euclidean_division_equations; lia.
Qed.

Lemma sequence_numbers_correct_witness :
  exists seqs, (next_seqs 3 (set_next_seq (2 ^ 32 - 4) zero_client)).1 = Ok seqs /\ seqs = [2 ^ 32 - 4; 2 ^ 32 - 2; 2] /\ NoDup seqs.
Proof.
  destruct (sequence_numbers_correct 3 (set_next_seq (2 ^ 32 - 4) zero_client)) as (seqs & E & _ & Hn & _).
  - split; [reflexivity|]. cbn. lia.
  - lia.
  - exists seqs. split; [exact E|]. split; [|exact Hn]. vm_compute in E. injection E as <-. reflexivity.
Defined.

(** ** Answers *)

(** What the callback of a request reports when it is given an answer. *)
Definition reply_entry (E : client_env) (cb : reply_cb) (packet : dicey_packet) : option client_log :=
  match cb with
  | user_on_reply user => Some (LogReply user 0 packet)
  | unlock_after_request sem => Some (LogPosted sem 0 packet)
  | is_alias_cb user => match parse_bool_reply packet with Ok (status, b) => Some (LogIsAlias user status b) | _ => None end
  | subunsub_cb (mk_subunsub CLIENT_SUBSCRIBE (sub_cb user)) =>
      match parse_subunsub_reply E packet with
      | Ok path => Some (LogSubscribed user 0 path)
      | Err e => Some (LogSubscribed user (error_code e) None)
      | _ => None
      end
  | subunsub_cb (mk_subunsub CLIENT_UNSUBSCRIBE (unsub_cb user)) =>
      match parse_subunsub_reply E packet with
      | Ok _ => Some (LogUnsubscribed user 0)
      | Err e => Some (LogUnsubscribed user (error_code e))
      | _ => None
      end
  | subunsub_cb _ => None
  end.

Lemma call_reply_entry E cb packet e c :
  reply_entry E cb packet = Some e -> call_reply E cb 0 packet c = (Ok tt, set_log (cl_log c ++ [e]) c).
Proof.
  unfold reply_entry, call_reply. destruct cb as [user|user|[op ucb]|sem]; [by intros [= <-]| | |by intros [= <-]].
  - unfold is_alias_on_reply, sbind, slift. cbn [Z.eqb negb]. destruct (parse_bool_reply packet) as [[status b]|e'|f|]; try done. by intros [= <-].
  - unfold subunsub_on_reply, attempt, sbind, slift. cbn [Z.eqb]. destruct op, ucb; try done;
      destruct (parse_subunsub_reply E packet) as [path|e'|f|]; try done; by intros [= <-].
Qed.

(** A list split at the first element with some key. *)
Lemma split_first {A K} (f : A -> K) b : forall b' x x' a a',
  b ++ x :: a = b' ++ x' :: a' -> f x = f x' -> f x ∉ f <$> b -> f x' ∉ f <$> b' -> b = b' /\ x = x' /\ a = a'.
Proof.
  induction b as [|y b IH]; intros [|y' b'] x x' a a' E Hf H H'; cbn in *; injection E as E1 E2.
  - done.
  - subst y'. destruct H'. rewrite <- Hf. by left.
  - subst y. destruct H. rewrite Hf. by left.
  - subst y'. rewrite elem_of_cons in H, H'. destruct (IH b' x x' a a') as (-> & -> & ->); tauto.
Qed.

Section answers.
Context (E : client_env).
Hypothesis memory : forall n, ce_block_ok E n = true.

Abbreviation client_inv := (loop_inv (I := unit) client_at_end client_ok True).

(** A task waits for an answer with one step left, [f], and then its end: it is pending, and it is
    the first in the waiting list to expect [seq]. *)
Record last_step (s : client_loop) (seq id : Z) (task : nat) f fin (ptr : ctx_ptr) (before after : list dicey_waiting_task) : Prop := {
  aw_entry : array_values (waiting_tasks (world s)) = before ++ mk_waiting seq id :: after;
  aw_first : seq ∉ packet_seq <$> before;
  aw_pending : exists e, e ∈ entries_of (pending_tasks s) /\ task_id e = id /\ task_data e = task;
  aw_task : exists timeout, heap s !! task = Some (mk_task_request [f] fin ptr timeout);
}.

(** A request that was sent, and a connection whose hello was sent, with their contexts. *)
Definition awaits (s : client_loop) (seq id : Z) (task addr : nat) (cb : reply_cb) (before after : list dicey_waiting_task) : Prop :=
  last_step s seq id task (step as_request check_response) (finish as_request (request_end E)) (request_ptr addr) before after /\
  exists request response, cl_ctxs (world s) !! addr = Some (request_context request response (Some cb)).

Definition awaits_hello (s : client_loop) (id : Z) (task addr : nat) (cb : connect_cb) (before after : list dicey_waiting_task) : Prop :=
  last_step s 0 id task (step as_connect (verify_and_finish_connect E)) (finish as_connect connect_end) (connect_ptr addr) before after /\
  exists info hello, cl_ctxs (world s) !! addr = Some (connect_context info hello (Some cb)).

(** The last step of a request, and its end. *)
Lemma check_response_eq c addr id request response cb :
  cl_ctxs c !! addr = Some (request_context request response cb) -> dicey_packet_is_valid (cl_packet c) = true ->
  step as_request check_response id (request_ptr addr) (Some tt) c =
  Ok (DICEY_TASK_CONTINUE, set_packet DICEY_EMPTY_PACKET (set_ctxs (<[addr := request_context request (cl_packet c) cb]> (cl_ctxs c)) c)).
Proof.
  intros Hx Hv. unfold step, as_request, run, check_response, ctx_read, ctx_write, sbind, sget, upd, sret. cbn [bool_decide].
  rewrite bool_decide_true by eauto. cbn [sassert sret]. rewrite Hx. rewrite Hv. done.
Qed.

Lemma request_end_eq c addr id request packet cb entry :
  cl_ctxs c !! addr = Some (request_context request packet (Some cb)) -> reply_entry E cb packet = Some entry ->
  finish as_request (request_end E) id None (request_ptr addr) c = Ok (set_ctxs (delete addr (cl_ctxs c)) (set_log (cl_log c ++ [entry]) c)).
Proof.
  intros Hx He. unfold finish, as_request, run, request_end, ctx_read, ctx_free, sbind, upd, report_error. rewrite Hx. cbn [sret status_of].
  by rewrite (call_reply_entry _ _ _ _ c He).
Qed.

Lemma clean_up_none c id err :
  array_ok (waiting_tasks c) -> u64 id ∉ waiting_id <$> array_values (waiting_tasks c) -> client_at_end id err c = Ok (set_waiting (waiting_tasks c) c).
Proof.
  intros Ha Hn. unfold client_at_end, run, clean_up_task, sbind, sget, slift.
  destruct (remove_task_lemma (waiting_tasks c) (u64 id) Ha) as [(b & t & a & ptr & _ & Hv & Hid & _)|[-> _]]; [|done].
  destruct Hn. rewrite Hv, fmap_app, fmap_cons, Hid. apply elem_of_app. right. by left.
Qed.

(** The packet goes to the task that waits for it, which takes its last step and ends. *)
Lemma dispatch_last s q subs seq id task f fin ptr before after packet (c3 c4 : waiting_ptr -> dicey_client) :
  client_inv s q subs -> last_step s seq id task f fin ptr before after ->
  (forall w, f id ptr (Some tt) (set_packet packet (set_waiting w (world s))) = Ok (DICEY_TASK_CONTINUE, c3 w)) ->
  (forall w, waiting_tasks (c3 w) = w) -> (forall w, fin id None ptr (set_waiting w (c3 w)) = Ok (c4 w)) ->
  exists s' w, dispatch_response seq packet s = (Ok tt, s') /\ ended s' = ended s ++ [mk_ending id task None] /\
    heap s' = delete task (heap s) /\ world s' = set_packet DICEY_EMPTY_PACKET (c4 w) /\ array_values w = before ++ after.
Proof.
  intros Hi [Hent Hfirst (e & He & <- & <-) [timeout Hheap]] Hstep Hw3 Hend.
  pose proof (l_world _ _ _ _ _ _ Hi) as Hok. pose proof (k_array _ _ _ _ Hok) as Ha.
  assert (waiting_tasks (world s) <> NoArray) as Hne by (intros Hw; rewrite Hw in Hent; by destruct before).
  destruct (remove_seq_lemma _ seq Ha Hne) as [(b & t & a & w & Hrm & Hv & Hseq & Hb & Hptr & _ & Hv')|[_ Hno]].
  2:{ destruct Hno. rewrite Hent, fmap_app, fmap_cons. apply elem_of_app. right. by left. }
  rewrite Hent in Hv. destruct (split_first packet_seq _ _ _ _ _ _ Hv) as (<- & <- & <-); [done|done|by rewrite Hseq|]. cbn [waiting_id] in Hrm.
  assert (0 <= task_id e < 2 ^ 61) as Hid.
  { destruct (k_waits _ _ _ _ Hok (task_id e)) as (p & n & Hp & _).
    - rewrite Hent, fmap_app, fmap_cons. apply elem_of_app. right. by left.
    - eapply (k_ids _ _ _ _ Hok). by apply (list_elem_of_fmap_2 fst) in Hp. }
  assert (task_id e ∉ waiting_id <$> before ++ after) as Hnin.
  { pose proof (k_entries _ _ _ _ Hok) as Hnd. rewrite Hent, fmap_app, fmap_cons in Hnd. rewrite fmap_app.
    apply NoDup_app in Hnd as (_ & H1 & H2). apply NoDup_cons in H2 as [H2 _]. intros [H|H]%elem_of_app; [by apply (H1 _ H); left|done]. }
  pose proof (l_pending _ _ _ _ _ _ Hi) as Hpd. destruct (pending_tasks s) as [|l|] eqn:Hp; [by apply elem_of_nil in He| |done].
  destruct Hpd as [Wf _]. cbn [entries_of] in He. apply list_elem_of_split in He as (bl & al & Hw).
  set (s2 := with_world (set_packet packet (set_waiting w (world s))) s).
  assert (client_at_end (task_id e) None (c3 w) = Ok (set_waiting w (c3 w))) as Hclean.
  { rewrite <- (Hw3 w) at 2. apply clean_up_none; [by rewrite Hw3|].
    replace (u64 (task_id e)) with (task_id e) by (symmetry; apply Z.mod_small; lia). by rewrite Hw3, Hv'. }
  destruct (advance_last client_at_end s2 l bl e al f fin ptr timeout (Some tt) (c3 w) (c4 w) Hp Wf Hw Hheap (Hstep w)) as (l' & _ & Hadv).
  { unfold call_at_end. rewrite Hclean. apply Hend. }
  unfold dispatch_response, sbind, in_client, sget, slift, in_loop, upd. cbn [with_world world]. rewrite Hrm.
  replace (to_signed 64 (task_id e)) with (task_id e).
  2:{ unfold to_signed. destruct (Z.ltb_spec (task_id e) (2 ^ (64 - 1))); lia. }
  change (with_world _ (with_world _ s)) with s2. rewrite Hadv. eexists _, w. split; [done|]. by split_and!.
Qed.

Lemma dispatch_delivers s q subs seq id task addr cb before after packet entry :
  client_inv s q subs -> awaits s seq id task addr cb before after -> packet_good packet -> reply_entry E cb packet = Some entry ->
  exists s', dispatch_response seq packet s = (Ok tt, s') /\
    ended s' = ended s ++ [mk_ending id task None] /\ heap s' = delete task (heap s) /\
    cl_log (world s') = cl_log (world s) ++ [entry] /\ cl_ctxs (world s') = delete addr (cl_ctxs (world s)) /\
    array_values (waiting_tasks (world s')) = before ++ after /\ cl_state (world s') = cl_state (world s).
Proof.
  intros Hi [Hlast (request & response & Hctx)] Hg Hre.
  set (c2 := fun w => set_packet packet (set_waiting w (world s))).
  set (c3 := fun w => set_packet DICEY_EMPTY_PACKET (set_ctxs (<[addr := request_context request packet (Some cb)]> (cl_ctxs (c2 w))) (c2 w))).
  set (c4 := fun w => let c := set_waiting w (c3 w) in set_ctxs (delete addr (cl_ctxs c)) (set_log (cl_log c ++ [entry]) c)).
  destruct (dispatch_last s q subs seq id task _ _ _ before after packet c3 c4 Hi Hlast) as (s' & w & Hd & He & Hh & Hw & Hv).
  - intros w. exact (check_response_eq (c2 w) addr id request response (Some cb) Hctx (good_valid _ Hg)).
  - done.
  - intros w. exact (request_end_eq (set_waiting w (c3 w)) addr id request packet cb entry (lookup_insert_eq _ _ _) Hre).
  - exists s'. rewrite Hw. cbn. split_and!; try done. by rewrite delete_insert_eq.
Qed.

(** The event of a message that is received while the client runs. *)
Definition received (packet : dicey_packet) (c : dicey_client) : dicey_client :=
  if inspect_func c then set_log (cl_log c ++ [LogEvent (DICEY_CLIENT_EVENT_MESSAGE_RECEIVING packet)]) c else c.

Lemma got_response_eq s packet seq msg :
  packet_good packet -> dicey_packet_get_seq packet = Ok seq -> dicey_packet_get_kind packet = Ok DICEY_PACKET_KIND_MESSAGE ->
  dicey_packet_as_message packet = Ok msg -> msg_type msg = DICEY_OP_RESPONSE -> cl_state (world s) = CLIENT_STATE_RUNNING ->
  client_got_packet packet s = dispatch_response seq packet (with_world (received packet (world s)) s).
Proof.
  intros Hg Hseq Hkind Hmsg Hop Hst. unfold client_got_packet, sbind at 1. rewrite (good_valid _ Hg). cbn [sassert sret].
  unfold in_client, attempt, slift, sbind at 1. rewrite Hseq, Hkind. unfold sbind at 1. rewrite Hmsg. cbn [assume]. unfold sbind at 1. rewrite Hop.
  unfold client_event, client_process_event_va, sbind, sget. cbn [with_world world is_server_msg negb]. rewrite Hst.
  rewrite bool_decide_true by done. cbn [negb sret]. unfold received, log, upd. rewrite bool_decide_false by done. by destruct (inspect_func (world s)).
Qed.

(** C5: an answer reaches exactly the task that waits for it. When a running client gets a
    response whose sequence number a request waits for, that request ends without an error, its
    callback is called once with that very packet (parsed, for the requests that parse it), its
    entry leaves the waiting list, its context and its task are freed; no other task ends and
    no other callback is called. *)
Theorem answer_delivered s q subs seq id task addr cb before after packet msg entry :
  client_inv s q subs -> awaits s seq id task addr cb before after -> cl_state (world s) = CLIENT_STATE_RUNNING ->
  packet_good packet -> dicey_packet_get_seq packet = Ok seq -> dicey_packet_get_kind packet = Ok DICEY_PACKET_KIND_MESSAGE ->
  dicey_packet_as_message packet = Ok msg -> msg_type msg = DICEY_OP_RESPONSE -> reply_entry E cb packet = Some entry ->
  exists s', client_got_packet packet s = (Ok tt, s') /\ client_inv s' q subs /\
    ended s' = ended s ++ [mk_ending id task None] /\ heap s' = delete task (heap s) /\
    cl_log (world s') = cl_log (received packet (world s)) ++ [entry] /\ cl_ctxs (world s') = delete addr (cl_ctxs (world s)) /\
    array_values (waiting_tasks (world s')) = before ++ after /\ cl_state (world s') = CLIENT_STATE_RUNNING.
Proof.
  intros Hi Haw Hst Hg Hseq Hkind Hmsg Hop Hre. pose proof (keeps_got_packet packet Hg s q subs Hi) as Hk. unfold lwp in Hk.
  rewrite (got_response_eq s packet seq msg) in * by done.
  assert (same (world s) (received packet (world s))) as Hs by (unfold received; destruct (inspect_func _); by constructor).
  destruct (dispatch_delivers (with_world (received packet (world s)) s) q subs seq id task addr cb before after packet entry) as (s' & E' & H1 & H2 & H3 & H4 & H5 & H6); [| |done|done|].
  - apply world_inv; [done|]. eapply ok_same; [apply Hi|done].
  - destruct Haw as [[] Hctx], Hs. split; [constructor; cbn [with_world world pending_tasks heap]; try done; congruence|]. cbn. by rewrite same_ctxs.
  - exists s'. rewrite E' in Hk. split_and!; try done.
    + rewrite H4. cbn [with_world world]. by rewrite (same_ctxs _ _ Hs).
    + rewrite H6. cbn [with_world world]. unfold received. by destruct (inspect_func _).
Qed.

(** The event of a completed handshake. *)
Definition connected (c : dicey_client) : dicey_client :=
  let c := set_state CLIENT_STATE_RUNNING c in
  if inspect_func c then set_log (cl_log c ++ [LogEvent DICEY_CLIENT_EVENT_CONNECT]) c else c.

Lemma verify_eq c addr id info hello cb :
  cl_ctxs c !! addr = Some (connect_context info hello cb) -> dicey_packet_get_seq (cl_packet c) = Ok 0 ->
  dicey_packet_get_kind (cl_packet c) = Ok DICEY_PACKET_KIND_HELLO -> cl_state c = CLIENT_STATE_CONNECT_START ->
  step as_connect (verify_and_finish_connect E) id (connect_ptr addr) (Some tt) c = Ok (DICEY_TASK_CONTINUE, connected c).
Proof.
  intros Hx Hseq Hkind Hst. unfold step, as_connect, run, verify_and_finish_connect, ctx_read, sbind, sget, attempt, slift.
  rewrite bool_decide_true by eauto. cbn [sassert sret]. rewrite Hx, Hseq, Hkind, Hst. cbn [Z.eqb negb].
  rewrite !bool_decide_true by done. cbn [negb].
  unfold client_event, client_process_event_va, client_set_state, sbind, sget, upd, log, upd. cbn [set_state inspect_func]. rewrite Hst.
  rewrite bool_decide_true by done. cbn [sassert sret]. rewrite Hst. change (state_rank _ <=? _) with true. cbn [sassert sret set_state inspect_func].
  unfold connected. cbn [set_state inspect_func cl_log]. by destruct (inspect_func c).
Qed.

Lemma connect_end_eq c addr id info hello cb :
  cl_ctxs c !! addr = Some (connect_context info hello (Some cb)) ->
  finish as_connect connect_end id None (connect_ptr addr) c = Ok (set_ctxs (delete addr (cl_ctxs c)) (set_log (cl_log c ++ [LogConnect cb 0]) c)).
Proof. intros Hx. unfold finish, as_connect, run, connect_end, ctx_read, ctx_free, sbind, upd, log, upd. by rewrite Hx. Qed.

(** the handshake makes a client run. When the connecting task has sent its hello and the
    server answers with a hello, with the sequence number 0, the client is running, the callback of
    the connection is called once with success, the task has ended without an error, its context
    and its entry in the waiting list are gone; nothing else ends. *)
Theorem handshake_completes s q subs id task addr cb before after packet :
  client_inv s q subs -> awaits_hello s id task addr cb before after -> cl_state (world s) = CLIENT_STATE_CONNECT_START ->
  packet_good packet -> dicey_packet_get_seq packet = Ok 0 -> dicey_packet_get_kind packet = Ok DICEY_PACKET_KIND_HELLO ->
  exists s', client_got_packet packet s = (Ok tt, s') /\ client_inv s' q subs /\
    cl_state (world s') = CLIENT_STATE_RUNNING /\ ended s' = ended s ++ [mk_ending id task None] /\ heap s' = delete task (heap s) /\
    cl_log (world s') = cl_log (connected (world s)) ++ [LogConnect cb 0] /\ cl_ctxs (world s') = delete addr (cl_ctxs (world s)) /\
    array_values (waiting_tasks (world s')) = before ++ after.
Proof.
  intros Hi [Hlast (info & hello & Hctx)] Hst Hg Hseq Hkind. pose proof (keeps_got_packet packet Hg s q subs Hi) as Hk. unfold lwp in Hk.
  set (c3 := fun w => connected (set_packet packet (set_waiting w (world s)))).
  set (c4 := fun w => let c := set_waiting w (c3 w) in set_ctxs (delete addr (cl_ctxs c)) (set_log (cl_log c ++ [LogConnect cb 0]) c)).
  assert (client_got_packet packet s = dispatch_response 0 packet (with_world (world s) s)) as Egot.
  { unfold client_got_packet, sbind at 1. rewrite (good_valid _ Hg). cbn [sassert sret]. unfold in_client, attempt, slift, sbind at 1.
    rewrite Hseq, Hkind. done. }
  assert (forall w, cl_ctxs (c3 w) = cl_ctxs (world s) /\ waiting_tasks (c3 w) = w /\ cl_state (c3 w) = CLIENT_STATE_RUNNING /\
    cl_log (c3 w) = cl_log (connected (world s))) as Hc3.
  { intros w. unfold c3, connected. cbn. by destruct (inspect_func (world s)). }
  assert (client_inv (with_world (world s) s) q subs) as Hi' by (apply world_inv; [done|apply Hi]).
  assert (last_step (with_world (world s) s) 0 id task (step as_connect (verify_and_finish_connect E)) (finish as_connect connect_end)
    (connect_ptr addr) before after) as Hlast' by (destruct Hlast; by constructor).
  destruct (dispatch_last _ q subs 0 id task _ _ _ before after packet c3 c4 Hi' Hlast') as (s' & w & Hd & He & Hh & Hw & Hv).
  - intros w. by apply (verify_eq _ addr id info hello (Some cb)).
  - intros w. apply Hc3.
  - intros w. apply (connect_end_eq (set_waiting w (c3 w)) addr id info hello cb). cbn. by rewrite (proj1 (Hc3 w)).
  - exists s'. rewrite Egot, Hd in *. destruct (Hc3 w) as (H1 & H2 & H3 & H4). rewrite Hw. cbn. rewrite H1, H3, H4. by split_and!.
Qed.

End answers.

(** ** Samples *)

(** A client with one task, which has sent a packet and expects the answer to it. *)
Definition one_client (st : dicey_client_state) (seq : Z) (x : client_ctx) : dicey_client :=
  mk_dclient (mk_pipe true false None) st true true false true true (AnArray (mk_array 128 [mk_waiting seq 0])) None 4
    DICEY_EMPTY_PACKET {[ 10%nat := x ]} [] 11 [].

Definition one_task (r : dicey_task_request unit ctx_ptr dicey_client) (c : dicey_client) : client_loop :=
  mk_loop {[ 9%nat := r ]} empty_queue (AList (mk_task_list 1 128 [mk_task 0 FOREVER_TIME 9%nat])) [] c.

Lemma one_client_ok st seq ptr x :
  ctx_addr ptr = 10%nat -> kind_ok ptr x -> client_ok [9%nat] [(0, Some (ptr, 1%nat))] [] (one_client st seq x).
Proof.
  intros Ha Hk. assert (forall a, is_Some (cl_ctxs (one_client st seq x) !! a) -> a = 10%nat) as Hone.
  { intros a [y Hy]. cbn [one_client cl_ctxs] in Hy. apply lookup_singleton_Some in Hy as [<- _]. done. }
  constructor; cbn [fmap list_fmap app fst snd]; try apply NoDup_singleton; try done.
  - intros id ->%list_elem_of_singleton. lia.
  - intros id ->%list_elem_of_singleton. eexists _, _. split; [by left|done].
  - apply Forall_singleton. eexists _, _, x. split; [done|]. rewrite Ha. split; [apply lookup_singleton_eq|done].
  - intros a ->%Hone. cbn. lia.
  - intros t ->%list_elem_of_singleton. cbn. lia.
  - by left.
  - intros a ->%Hone. cbn. rewrite Ha. by left.
Qed.

Lemma one_task_inv r c :
  request_ok (I := unit) client_at_end client_ok True r -> client_ok [9%nat] [(0, Some (task_ctx r, length (work r)))] [] c ->
  loop_inv (I := unit) client_at_end client_ok True (one_task r c) [] [9%nat].
Proof.
  intros Hr Hc. assert (tl_wf (mk_task_list 1 128 [mk_task 0 FOREVER_TIME 9%nat])) as Wf.
  { constructor; cbn; try lia; try done.
    - intros i j a b Hij Ha Hb. destruct i as [|i], j as [|j]; cbn in *; try lia; discriminate.
    - intros i a Ha. destruct i as [|i]; cbn in *; [injection Ha as <-; cbn; lia|discriminate]. }
  constructor; [apply rep_empty| | |apply NoDup_singleton|done|done|exact Hc].
  - split; [done|]. cbn. unfold BASE_CAP. lia.
  - intros t Ht. apply list_elem_of_singleton in Ht as ->. exists r. split; [apply lookup_singleton_eq|done].
Qed.

Lemma one_last_step f fin ptr timeout st seq x :
  last_step (one_task (mk_task_request [f] fin ptr timeout) (one_client st seq x)) seq 0 9 f fin ptr [] [].
Proof. constructor; [done|apply not_elem_of_nil| |exists timeout; apply lookup_singleton_eq]. eexists. split; [by left|done]. Qed.

(** A request, and a connection. *)
Definition waiting_loop : client_loop :=
  one_task (mk_task_request [step as_request check_response] (finish as_request (request_end sample_cenv)) (request_ptr 10) 1000)
    (one_client CLIENT_STATE_RUNNING 2 (request_context (message_packet DICEY_OP_GET 2 None) DICEY_EMPTY_PACKET (Some (user_on_reply 8)))).

Definition connecting_loop : client_loop :=
  one_task (mk_task_request [step as_connect (verify_and_finish_connect sample_cenv)] (finish as_connect connect_end) (connect_ptr 10) 1000)
    (one_client CLIENT_STATE_CONNECT_START 0 (connect_context (CLIENT_CONNECT_ADDR [97]) hello_packet (Some (user_on_connect 7)))).

(** Packets that are loaded from their own bytes. *)
Lemma sample_good packet :
  match dicey_packet_load (fun _ => true) 100 (vw (default [] (payload packet)) []) with (Ok p, _) => p = packet | _ => False end ->
  forallb (fun b => (0 <=? b) && (b <? 256)) (default [] (payload packet)) = true -> packet_good packet.
Proof.
  intros H Hb. apply (loaded_good (default [] (payload packet))); [by apply bytes_check|].
  destruct (dicey_packet_load _ _ _) as [[p|e|f|] v]; try done. by subst p.
Qed.

Lemma waiting_loop_inv : loop_inv (I := unit) client_at_end client_ok True waiting_loop [] [9%nat].
Proof.
  apply one_task_inv; [constructor; [done|split; [apply check_response_ok|done]|apply end_frees, request_end_frees]|].
  apply one_client_ok; [done|]. split_and!; [apply sample_good; vm_compute; reflexivity|by left|done].
Qed.

Lemma connecting_loop_inv : loop_inv (I := unit) client_at_end client_ok True connecting_loop [] [9%nat].
Proof.
  apply one_task_inv; [constructor; [done|split; [by apply verify_and_finish_connect_ok|done]|apply end_frees, connect_end_frees]|].
  by apply one_client_ok.
Qed.

Lemma answer_delivered_witness :
  exists s', client_got_packet (message_packet DICEY_OP_RESPONSE 2 (Some ArgUnit)) waiting_loop = (Ok tt, s') /\
    cl_log (world s') = [LogEvent (DICEY_CLIENT_EVENT_MESSAGE_RECEIVING (message_packet DICEY_OP_RESPONSE 2 (Some ArgUnit)));
      LogReply 8 0 (message_packet DICEY_OP_RESPONSE 2 (Some ArgUnit))] /\
    array_values (waiting_tasks (world s')) = [].
Proof.
  edestruct (answer_delivered sample_cenv waiting_loop [] [9%nat] 2 0 9 10 (user_on_reply 8) [] [] (message_packet DICEY_OP_RESPONSE 2 (Some ArgUnit)))
    as (s' & E & _ & _ & _ & Hl & _ & Hw & _);
    [exact waiting_loop_inv|split; [apply one_last_step|eexists _, _; reflexivity]|reflexivity|apply sample_good; vm_compute; reflexivity|vm_compute; reflexivity|
     vm_compute; reflexivity|vm_compute; reflexivity|reflexivity|reflexivity|].
  exists s'. split; [exact E|]. split; [exact Hl|exact Hw].
Defined.

Lemma handshake_completes_witness :
  exists s', client_got_packet hello_packet connecting_loop = (Ok tt, s') /\ cl_state (world s') = CLIENT_STATE_RUNNING /\
    cl_log (world s') = [LogEvent DICEY_CLIENT_EVENT_CONNECT; LogConnect (user_on_connect 7) 0].
Proof.
  destruct (handshake_completes sample_cenv connecting_loop [] [9%nat] 0 9 10 (user_on_connect 7) [] [] hello_packet) as (s' & E & _ & Hst & _ & _ & Hl & _);
    [exact connecting_loop_inv|split; [apply one_last_step|eexists _, _; reflexivity]|reflexivity|apply sample_good; vm_compute; reflexivity|
     vm_compute; reflexivity|vm_compute; reflexivity|].
  exists s'. split; [exact E|]. split; [exact Hst|exact Hl].
Defined.
