(* ===== verification/ClientFindings.v ===== *)
(** * Flaws of the client

    Runs of the client that end where its documentation says they do not. *)

From S2P Require Import Prelude Errors Types Views Writer ValueWrite ValueProbe Value Codec Payload Packet.
From S2P Require Import Queue TaskList TaskLoop WaitingList Chunk Builders BuildersTheorems Names Client ClientApi ClientInv ClientTheorems.
From stdpp Require Import gmap list.

#[local] Open Scope Z_scope.

(** The answer to an asynchronous unsubscription is given to the callback through the wrong member
    of the union: [client_subunsub] never sets the operation in the context, and zero stands for a
    subscription. *)
Theorem unsubscribe_calls_wrong_member E user status reply c :
  status <> 0 \/ (exists path, parse_subunsub_reply E reply = Ok path) \/ (exists e, parse_subunsub_reply E reply = Err e) ->
  call_reply E (subunsub_cb (mk_subunsub CLIENT_SUBSCRIBE (unsub_cb user))) status reply c = (Fault WrongMember, c).
Proof.
  cbn [call_reply]. unfold subunsub_on_reply, sbind, attempt, slift. intros H. destruct (Z.eqb_spec status 0) as [->|Hs]; [|done].
  destruct H as [H|[[path ->]|[e ->]]]; done.
Qed.

(** Every asynchronous unsubscription is made with that context. *)
Lemma unsubscribe_context E builder_ok path sel user timeout :
  dicey_client_unsubscribe_from_async E builder_ok path sel user timeout =
  (sassert (dicey_selector_is_valid sel) ;;!
   do! ctx <- in_client (malloc E) ;
   match ctx with
   | None => sfail DICEY_ENOMEM
   | Some _ => dicey_client_exec_async E builder_ok DICEY_SERVER_PATH (subunsub_selector CLIENT_UNSUBSCRIBE) (subunsub_payload path sel)
       (subunsub_cb (mk_subunsub CLIENT_SUBSCRIBE (unsub_cb user))) timeout
   end).
Proof. done. Qed.

(** A request that fails makes the client dead; a request that was queued behind it then fails the
    assertion that the client runs. Here libuv refuses to write the first of two requests. *)
Definition failing_cenv : client_env := mk_cenv (fun _ => true) (fun _ => true) (fun n => if bool_decide (n = 14%nat) then Some DICEY_EPIPE else None) (fun _ => false) (fun _ => true) 100.

Definition two_requests : list client_input :=
  sample_connect ++ [InCall (CallRequest (message_packet DICEY_OP_GET 0 None) (user_on_reply 8) 1000);
    InCall (CallRequest (message_packet DICEY_OP_GET 0 None) (user_on_reply 9) 1000); InQueue (mk_timespec 10 0)].

Theorem failed_request_stops_next :
  client_steps failing_cenv two_requests (started sample_start) = Fault AssertFailed /\
  exists s, client_steps sample_cenv two_requests (started sample_start) = Ok s.
Proof.
  split; [vm_compute; reflexivity|].
  assert (match client_steps sample_cenv two_requests (started sample_start) with Ok _ => true | _ => false end = true) as H by (vm_compute; reflexivity).
  destruct (client_steps sample_cenv two_requests (started sample_start)) as [s|e|f|]; [by exists s|done..].
Qed.

(** The packet of a request is freed when its task ends, also while libuv still has to send it: here the
    socket takes nothing at once, and the server answers the request before its bytes are sent. When the
    answer comes first, libuv then reads memory that was freed. *)
Definition slow_cenv : client_env := mk_cenv (fun _ => true) (fun _ => true) (fun _ => None) (fun _ => false) (fun _ => false) 100.

(** The hello is sent before it is answered, the request is not. *)
Definition early_answer : list client_input :=
  take 3 sample_connect ++ [InDone 0 None] ++ drop 3 sample_connect ++ sample_request ++ sample_answer.

Theorem freed_packet_is_sent :
  (exists s, client_steps slow_cenv early_answer (started sample_start) = Ok s) /\
  client_steps slow_cenv (early_answer ++ [InDone 0 None]) (started sample_start) = Fault UseAfterFree.
Proof.
  split; [|vm_compute; reflexivity].
  assert (match client_steps slow_cenv early_answer (started sample_start) with Ok _ => true | _ => false end = true) as H by (vm_compute; reflexivity).
  destruct (client_steps slow_cenv early_answer (started sample_start)) as [s|e|f|]; [by exists s|done..].
Qed.

(** A client that was disconnected cannot be connected again. *)
Theorem no_reconnect E info cb s :
  cl_freed (world s) = false -> cl_state (world s) = CLIENT_STATE_CLOSED -> (client_setup_async E info cb s).1 = Err DICEY_EINVAL.
Proof.
  intros Hf Hst. unfold client_setup_async, client_alive, in_client, sbind, sget. cbn [world with_world]. rewrite Hf. cbn [sret]. by rewrite Hst.
Qed.

(** Nothing to cancel. *)
Lemma cancel_nothing err (c : dicey_client) :
  cancel_all_pending (I := unit) (C := ctx_ptr) client_at_end err (new_loop c) = Ok (new_loop c).
Proof.
  unfold cancel_all_pending. cbn [new_loop pending_tasks dicey_task_list_entries obind length cancel_from with_pending queue].
  by rewrite (deinit_all _ _ rep_empty).
Qed.

(** Deleting a client that is connected fails an assertion: the pipe is not being closed. *)
Theorem delete_connected_asserts E c :
  cl_freed c = false -> cl_tloop c = true -> cl_running c = true -> p_closing (cl_pipe c) = false ->
  (dicey_client_delete E (new_loop c)).1 = Fault AssertFailed.
Proof.
  intros Hf Ht Hr Hp. unfold dicey_client_delete, dicey_client_deinit, dicey_task_loop_delete, dicey_task_loop_stop_and_wait, loop_thread_end.
  unfold client_alive, in_client, dicey_task_error_new, malloc, tick, sbind, sget, sret, upd, in_loop. cbn [world new_loop with_world].
  rewrite Hf, Ht. cbn [world with_world]. rewrite Hf, Hr.
  match goal with |- context [cancel_all_pending _ _ ?s] => change s with (new_loop (I := unit) (C := ctx_ptr) (set_next (S (cl_next c)) c)) end.
  rewrite cancel_nothing.
  unfold reset_state, sbind, sget. cbn. by rewrite Hp.
Qed.
